(* ===== verification/_CoqProject ===== *)
-Q . S2P
Prelude.v
Common.v
Rfc1321.v
Md5.v
Murmur.v
HashArr.v
HashArrSeg.v
HashArrInv.v
HashArrOps.v
HashArrPut.v
HashArrMove.v
HashArrSpec.v
HashArrMap.v
HashArrThm.v
Text.v
HashArrText.v
Format.v
FormatThm.v
Store.v
Shm.v
ShmThm.v
ShmWalk.v
Race.v
RaceStore.v
RaceWrite.v
Sys.v
ShmInit.v
Driver.v
DriverThm.v
Shell.v
Daemon.v
DaemonThm.v
Config.v
Dump.v
NodeBuf.v
Zoo.v
Gray.v
Script.v
Feedback.v
Agent.v
Watcher.v
WatcherQueue.v
Lock.v
LockThm.v
WatcherThm.v
WatcherServ.v
TableTypes.v
Sync.v
Together.v
Log.v
LogThm.v
Cmd.v
CmdThm.v
AgentMain.v
AgentMainThm.v
Monitor.v
MonitorThm.v
MonitorCmd.v
MonitorCmdThm.v
MonitorWork.v
MonitorWorkThm.v
MonitorMain.v
MonitorMainThm.v
ZooWrite.v
Manager.v
ManagerThm.v
ManagerGray.v
