(* ===== verification/Prelude.v ===== *)
(** * QConf: a verification of the configuration system

    QConf distributes configuration. Operators write nodes, services and gray releases to ZooKeeper with
    the manager library; on every machine an agent keeps the part of the tree that is in use in a table in
    shared memory; programs read the table through a client library ("driver"). A monitor checks the
    servers of the services and writes their status to ZooKeeper.

    ** How the parts interact

    A program asks the driver for a path. The driver normalizes it, looks the key up in the shared table
    and, when it is missing, sends the key to the agent's message queue and polls. The agent's message
    thread takes the key, its main thread reads the node from ZooKeeper with a watch and writes the table;
    a change in ZooKeeper enqueues the key again; the trigger thread follows with the dump file, scripts
    and the feedback. The table is a hash array of fixed size without a lock between processes, so every
    value carries a verification code; when it is full the agent evicts the least recently used keys.

    ** Files, in order

    - [Prelude] (this file): bytes, machine integers, the state monad [SM] whose [None] is undefined
      behaviour, lists and counting, the automation.
    - [Common]: return codes, data types and limits ([src/base/qconf_common.h] and its relatives).
    - [Rfc1321]: MD5 as the RFC defines it, independent of the code. [Md5] ([src/base/qlibc/md5.c]), [Murmur]
      ([qhash.c]): the hashes, as streaming code on 32-bit words.
    - [HashArr] ([qhasharr.c], [qlibc.h]): the table, slot by slot at the width of its fields. [HashArrSeg],
      [HashArrInv], [HashArrOps], [HashArrPut], [HashArrMove], [HashArrSpec], [HashArrMap] prove that it
      implements a finite map; [HashArrThm] states it for the public calls; [HashArrText] has the string
      and integer front ends.
    - [Text]: decimal numbers, [strtol], [strcmp], trimming, as the sources use them.
    - [Format] ([qconf_format.cc]): keys and values of the table as byte strings; [FormatThm] the readers
      against the writers.
    - [Store]: the interface between the table and its clients, a class with its laws, discharged by
      [HashArr]; [Shm] ([qconf_shm.cc]): verified reading and writing, eviction; [ShmThm] its theorems;
      [ShmWalk]: the walk over the table when the agent starts, over well-typed and over damaged values.
    - [Race]: the reader of the table with every access to a field or a byte as a step of its own, among
      writers that store anything sane, and alone, the block it copies into checked at every store.
      [RaceStore]: the writers store by store, and that the table is sane after every single store.
      [RaceWrite]: what a client can read in between the stores of one call.
    - [Sys] ([qconf_msg.cc] and the system calls), [ShmInit]: message queue and shared segment.
    - [Driver] ([driver_api.cc], [qconf.cc], [driver_common.cc]) and [DriverThm]; [Shell]
      ([src/driver/sh/qconf.cc]): the command line client and what it prints.
    - [Daemon] ([src/agent/qconf_daemon.cc]) and [DaemonThm]: the parent process that keeps the agent alive.
    - [Config] ([qconf_config.cc]), [Dump] ([qconf_dump.cc]), [Zoo] ([qconf_zoo.cc]), [Gray]
      ([qconf_gray.cc]), [Script] ([qconf_script.cc]), [Feedback] ([qconf_feedback.cc]): the parts of the
      agent, each over a class of the outside calls it makes; [NodeBuf]: the buffers of the threads that
      read nodes ([qconf_zoo.cc]).
    - [Agent], [Watcher] ([qconf_watcher.cc]): the state of the agent, its critical sections, and the body
      of every thread's loop. [WatcherQueue]: its queues under every interleaving of whole critical
      sections. [Lock] ([qconf_lock.cc]) and [LockThm]: a queue with every statement of the threads, with the
      mutex and the condition they meet at. [WatcherThm]: what a
      key and an event lead to, for nodes; [WatcherServ] for services and batches; [TableTypes]: the values
      stay of the type their keys name. [Sync]: the main thread, the callback, the clients and ZooKeeper as
      one step relation, with failing reads, the dump, a full table, gray releases and sessions that end. [Together]: the client and the agent on one machine, the agent as the system that
      the client's pauses give a turn.
    - [Log] ([qconf_log.cc], [monitor_log.cc]) and [LogThm]: the two logs.
    - [Cmd] ([qconf_cmd.cc]) and [CmdThm]: the commands to the agent.
    - [AgentMain] ([qconf_agent.cc], the start of the threads in [qconf_watcher.cc]) and [AgentMainThm]: the
      agent as a program, from its pid file to its end.
    - [Monitor] ([src/monitor/src]) and [MonitorThm]; [MonitorCmd] ([monitor_process.cc]) and
      [MonitorCmdThm]: its command file and its lists; [MonitorWork] ([monitor_work_thread.cc],
      [monitor_check_thread.cc]) and [MonitorWorkThm]: its threads as actions in any order, a check server by
      server and attempt by attempt, and that a check nothing interrupts is the [CronHandle] of [Monitor];
      [MonitorMain]
      ([monitor.cc], [monitor_options.cc], [monitor_process.cc]) and [MonitorMainThm]: its options and its
      processes.
    - [ZooWrite]: the interface for writing to ZooKeeper, and a ZooKeeper in memory that implements it.
      [Manager] ([src/manager/src/c/qconf_zk.cc]); [ManagerThm]: nodes and services; [ManagerGray]: gray
      releases from the operator to the agent.

    ** How the code is rendered

    Code that changes state is a function of the monad [SM K]: it returns a result and a new state, or
    [None] where the C or C++ program has undefined behaviour or where the fuel of a loop ran out. The
    theorems show that a result is returned, so [None] is excluded, and every fuel is shown to be enough:
    the loops of the table need one step per slot, eviction one per visited key, [zk_create] one per slash
    of the path, the loops over content nodes one per node, and the polling of the driver has its bound in
    the source. A parent process that waits needs one round per interruption and one per death of its
    child; the main loop of the agent runs for a number of rounds that is an argument, since it ends only
    when it is told to; the threads of the monitor are given as the list of actions that happen. Integers keep their width where the code relies on it ([u8], [u16], [u32], [u64], [i32]).
    Output parameters are arguments with their old value and results with their new one, so what a
    failing call leaves behind is part of the theorems. Library containers are [gmap] and [gset], walked
    in the order of their keys ([Gray.in_order]).

    The outside (system calls, gdbm, the ZooKeeper client, curl, processes) is a class of operations on a
    state of its own. What the code relies on is a class of laws, each of them documented behaviour; every
    class has an instance by a concrete model, and the witnesses of the theorems are run on it.

    ** What the theorems show

    - The shared table is a finite map: every sequence of fewer than 2^15 operations with non-empty values
      refines it (rule induction over the operations), values survive collisions and moves, and iteration
      returns every key once. MD5, which tells keys apart and values from garbage, is that of RFC 1321.
    - A client that reads while the agent writes ends and stays inside its memory, because the table is sane
      after every store of a writer; it may find nothing, or a value that carries a right code although it
      was never written, and both are shown to happen.
    - Keys and values read back as they were written; a reader never accepts what is not a whole value
      with its code.
    - Writing a value with eviction always ends; a client reads exactly what the agent stored, within its
      buffer, and otherwise asks the agent once and waits a bounded time; composed with the agent, the wait
      ends with the value when the agent gets its turn in that time.
    - The agent: a key it was asked for reaches the table with the value of ZooKeeper, of a gray release
      or of the dump; an event enqueues exactly the keys it concerns and changes nothing but the queue (an
      event of the session: no key, but the handles, the notify path and what the gray queue and the assistant
      thread are told); the queues stay consistent, and a
      critical section is as good as one step; a key that is in a queue is taken; no
      change of a node is lost, however the threads are interleaved, but for the keys that the invariant
      names: those the agent could not read or store since, and those of a session that ended.
    - An agent that starts takes the table of its predecessor over, or reports why it cannot serve; the
      parents of the agent and of the monitor restart their children as stated.
    - The monitors split the services among them if no two find the same rank, which follows when ZooKeeper
      lists the monitors in one order; they never take down the last server of a service; what a
      check finds reaches ZooKeeper; after a signal to restart no check begins any more.
    - A line of a log is put together inside its buffer, in the agent.
    - The manager library writes what it was asked to and nothing else, and a gray release it published
      is taken over by the agents it names as it is, until it is rolled back; the serializer that would make
      its content is shown to overrun its buffer first, so the content there is any that the agents can read.
    - A command touches only the files it is about; clear-all empties the table and with it takes the local data centre away from the
      clients; a list has a row for each server and changes the monitor only as stated.
    - Where the code does not do what it means to, the theorem states what it does (the two-byte buffer of
      the gray-node list, the overrun of the monitor's marks, the key of a changed event).

    ** Not modelled

    The calls of the logs inside other operations; destructors that are never reached; the library that reads the configuration of the
    monitor and splits strings (a submodule: an interface here); the
    bindings for other languages; the vendored libraries. A critical section is one step, outside of
    [Lock], which takes it apart for the queue of the main thread (the other sections have the same shape);
    the C++ memory model is not part of the development: the steps of all threads and processes come one after
    the other on one memory, and races on the containers of the C++ library that end in their undefined
    behaviour are modelled only where an iterator is lost ([MonitorWork.after]). In the monitor, a round of the
    main thread up to the start of the check threads, the writing of one status, a callback and a signal are
    one step each. The theorems about the driver take a look at
    the table as one step; [Race.quiet_read] shows that this is what the reader does that accesses it in many
    steps, in a table that is not written meanwhile, and the theorems of [Race] and [RaceWrite] say what
    happens in one that is. There, a field of a slot is read and written at once, so a machine that tears a
    32-bit word is not covered. *)

From Stdlib Require Export ZArith NArith Lia Strings.Byte.
From Stdlib Require Strings.String.
From stdpp Require Export base tactics list gmap sets strings.


#[global] Open Scope Z_scope.

(** ** Bytes *)

Declare Scope qconf_scope.
Delimit Scope qconf_scope with qconf.
#[global] Open Scope qconf_scope.

Abbreviation byte := Corelib.Init.Byte.byte.
Abbreviation bytes := (list byte).

(** A byte as the unsigned number the C code computes with, and the truncation of an integer to
    [unsigned char]. *)
Definition b2z (b : byte) : Z := Z.of_N (Byte.to_N b).

Definition z2b (z : Z) : byte :=
  match Byte.of_N (Z.to_N (z mod 256)) with Some b => b | None => x00 end.

#[global] Instance byte_eq_dec : EqDecision byte := Byte.byte_eq_dec.

#[global] Program Instance byte_countable : Countable byte :=
  inj_countable' Byte.to_N (fun n => match Byte.of_N n with Some b => b | None => x00 end) _.
Next Obligation. intros b. simpl. by rewrite Byte.of_to_N. Qed.

(** The length of a byte string as an integer ([size()], [size_t] arguments). *)
Definition blen {A} (l : list A) : Z := Z.of_nat (length l).

Abbreviation str s := (String.list_byte_of_string s%string).

Lemma b2z_range b : 0 <= b2z b < 256.
Proof.
  unfold b2z. split; [apply N2Z.is_nonneg|].
  change 256 with (Z.of_N 256). apply N2Z.inj_lt.
  pose proof (Byte.to_N_bounded b). lia.
Qed.

Lemma z2b_b2z b : z2b (b2z b) = b.
Proof.
  unfold z2b. rewrite Z.mod_small by apply b2z_range.
  unfold b2z. by rewrite N2Z.id, Byte.of_to_N.
Qed.

Lemma b2z_z2b z : b2z (z2b z) = z mod 256.
Proof.
  unfold z2b, b2z. pose proof (Z.mod_pos_bound z 256 eq_refl).
  destruct (Byte.of_N (Z.to_N (z mod 256))) as [b|] eqn:E.
  - apply Byte.to_of_N in E. rewrite E, Z2N.id; lia.
  - apply Byte.of_N_None_iff in E. lia.
Qed.

Lemma b2z_inj a b : b2z a = b2z b -> a = b.
Proof. intros H. by rewrite <- (z2b_b2z a), <- (z2b_b2z b), H. Qed.

Lemma blen_nonneg {A} (l : list A) : 0 <= blen l.
Proof. unfold blen. lia. Qed.

Lemma blen_app {A} (l k : list A) : blen (l ++ k) = blen l + blen k.
Proof. unfold blen. rewrite length_app. lia. Qed.

Lemma blen_cons {A} (x : A) l : blen (x :: l) = 1 + blen l.
Proof. unfold blen. simpl. lia. Qed.

Lemma blen_nil {A} : blen (@nil A) = 0.
Proof. done. Qed.

Lemma blen_0 {A} (l : list A) : blen l = 0 <-> l = [].
Proof. unfold blen. destruct l; simpl; split; intros; try done; lia. Qed.

(** ** Machine integers

    Unsigned types wrap modulo a power of two; a conversion to a signed type of the same width is
    the two's complement reading. *)
Definition u8 (z : Z) : Z := z mod 2 ^ 8.
Definition u16 (z : Z) : Z := z mod 2 ^ 16.
Definition u32 (z : Z) : Z := z mod 2 ^ 32.
Definition u64 (z : Z) : Z := z mod 2 ^ 64.
Definition i16 (z : Z) : Z := (z + 2 ^ 15) mod 2 ^ 16 - 2 ^ 15.
Definition i32 (z : Z) : Z := (z + 2 ^ 31) mod 2 ^ 32 - 2 ^ 31.

Lemma u8_small z : 0 <= z < 256 -> u8 z = z.
Proof. intros. apply Z.mod_small. lia. Qed.
Lemma u16_small z : 0 <= z < 65536 -> u16 z = z.
Proof. intros. apply Z.mod_small. lia. Qed.
Lemma u32_small z : 0 <= z < 2 ^ 32 -> u32 z = z.
Proof. intros. by apply Z.mod_small. Qed.
Lemma u64_small z : 0 <= z < 2 ^ 64 -> u64 z = z.
Proof. intros. by apply Z.mod_small. Qed.
Lemma i16_small z : - 2 ^ 15 <= z < 2 ^ 15 -> i16 z = z.
Proof. intros. unfold i16. rewrite Z.mod_small; lia. Qed.
Lemma i32_small z : - 2 ^ 31 <= z < 2 ^ 31 -> i32 z = z.
Proof. intros. unfold i32. rewrite Z.mod_small; lia. Qed.

Lemma u32_range z : 0 <= u32 z < 2 ^ 32.
Proof. apply Z.mod_pos_bound. lia. Qed.
Lemma u16_range z : 0 <= u16 z < 2 ^ 16.
Proof. apply Z.mod_pos_bound. lia. Qed.
Lemma u8_range z : 0 <= u8 z < 2 ^ 8.
Proof. apply Z.mod_pos_bound. lia. Qed.

(** ** Little-endian numbers

    [qconf_encode_num] and [qconf_decode_num] copy the object representation of an unsigned integer
    on a little-endian machine, and spell the same bytes out on a big-endian one. *)
Fixpoint le_bytes (n : nat) (z : Z) : bytes :=
  match n with
  | O => []
  | S n' => z2b z :: le_bytes n' (z / 256)
  end.

Fixpoint le_num (l : bytes) : Z :=
  match l with
  | [] => 0
  | b :: l' => b2z b + 256 * le_num l'
  end.

Lemma length_le_bytes n z : length (le_bytes n z) = n.
Proof. revert z. induction n; intros; simpl; auto. Qed.

Lemma le_num_range l : 0 <= le_num l < 256 ^ blen l.
Proof.
  induction l as [|b l IH]; [done|].
  rewrite blen_cons, Z.pow_add_r by (pose proof (blen_nonneg l); lia). simpl le_num.
  pose proof (b2z_range b). rewrite Z.pow_1_r. nia.
Qed.

Lemma le_num_bytes n z : le_num (le_bytes n z) = z mod 256 ^ Z.of_nat n.
Proof.
  revert z. induction n as [|n IH]; intros z.
  - simpl. by rewrite Z.mod_1_r.
  - cbn [le_bytes le_num]. rewrite IH, b2z_z2b, Nat2Z.inj_succ, Z.pow_succ_r by lia.
    rewrite Z.rem_mul_r by lia. lia.
Qed.

Lemma le_bytes_num l : le_bytes (length l) (le_num l) = l.
Proof.
  induction l as [|b l IH]; [done|]. cbn [length le_bytes le_num].
  pose proof (b2z_range b). f_equal.
  - apply b2z_inj. rewrite b2z_z2b, (Z.mul_comm 256), Z.mod_add by lia.
    by apply Z.mod_small.
  - rewrite (Z.mul_comm 256), Z.div_add, Z.div_small by lia. apply IH.
Qed.

Lemma le_num_bytes_small n z :
  0 <= z < 256 ^ Z.of_nat n -> le_num (le_bytes n z) = z.
Proof. intros. rewrite le_num_bytes. by apply Z.mod_small. Qed.

(** ** Memory blocks

    [memcpy] into a block of bytes at an offset; [sub_bytes] is the block a read at an offset sees. *)
Definition mem_write (off : nat) (src dst : bytes) : bytes :=
  take off dst ++ src ++ drop (off + length src) dst.

Definition sub_bytes (off n : nat) (l : bytes) : bytes := take n (drop off l).

Lemma length_mem_write off src dst :
  (off + length src <= length dst)%nat -> length (mem_write off src dst) = length dst.
Proof. intros. unfold mem_write. rewrite !length_app, length_take, length_drop. lia. Qed.

Lemma sub_bytes_length off n l :
  (off + n <= length l)%nat -> length (sub_bytes off n l) = n.
Proof. intros. unfold sub_bytes. rewrite length_take, length_drop. lia. Qed.

Lemma sub_bytes_app_l off n l k :
  (off + n <= length l)%nat -> sub_bytes off n (l ++ k) = sub_bytes off n l.
Proof.
  intros. unfold sub_bytes. rewrite drop_app_le, take_app_le; try done; rewrite ?length_drop; lia.
Qed.

Lemma sub_bytes_app_r off n l k :
  (length l <= off)%nat -> sub_bytes off n (l ++ k) = sub_bytes (off - length l) n k.
Proof. intros. unfold sub_bytes. by rewrite drop_app_ge. Qed.

Lemma sub_bytes_take off n m (l : bytes) :
  (off + n <= m)%nat -> sub_bytes off n (take m l) = sub_bytes off n l.
Proof.
  intros. unfold sub_bytes. replace m with (off + (m - off))%nat by lia.
  rewrite <- take_drop_commute, take_take. f_equal. lia.
Qed.

Lemma sub_bytes_drop off n m l : sub_bytes off n (drop m l) = sub_bytes (m + off) n l.
Proof. unfold sub_bytes. by rewrite drop_drop. Qed.

(** A read that ends before the written range, or starts after it, is unchanged. *)
Lemma sub_bytes_write_before off n o src dst :
  (off + n <= o)%nat -> (o <= length dst)%nat ->
  sub_bytes off n (mem_write o src dst) = sub_bytes off n dst.
Proof.
  intros. unfold mem_write. rewrite sub_bytes_app_l by (rewrite length_take; lia).
  by apply sub_bytes_take.
Qed.

Lemma sub_bytes_write_after off n o src dst :
  (o + length src <= off)%nat -> (o + length src <= length dst)%nat ->
  sub_bytes off n (mem_write o src dst) = sub_bytes off n dst.
Proof.
  intros. unfold mem_write.
  rewrite sub_bytes_app_r by (rewrite length_take; lia).
  rewrite sub_bytes_app_r by (rewrite length_take; lia).
  rewrite sub_bytes_drop. f_equal. rewrite length_take. lia.
Qed.

(** Reading back a prefix of what was just written. *)
Lemma sub_bytes_write_same o n src dst :
  (n <= length src)%nat -> (o + length src <= length dst)%nat ->
  sub_bytes o n (mem_write o src dst) = take n src.
Proof.
  intros. unfold mem_write. rewrite sub_bytes_app_r by (rewrite length_take; lia).
  rewrite length_take, Nat.min_l, Nat.sub_diag by lia.
  unfold sub_bytes. rewrite drop_0. by apply take_app_le.
Qed.

(** The C string in a buffer ends at the first NUL. *)
Fixpoint c_str (l : bytes) : bytes :=
  match l with
  | [] => []
  | b :: l' => if decide (b = x00) then [] else b :: c_str l'
  end.

Definition strlen (l : bytes) : Z := blen (c_str l).

Lemma c_str_no_nul l : x00 ∉ l -> c_str l = l.
Proof.
  induction l as [|b l IH]; [done|]. intros H. simpl.
  rewrite decide_False by set_solver. f_equal. apply IH. set_solver.
Qed.

(** ** Counting the cells of an array that satisfy a test *)
Section Count.
Context {A : Type}.
Implicit Types (P : A -> bool) (l : list A).

Definition countb P l : Z := blen (List.filter P l).

Definition b2n (b : bool) : Z := if b then 1 else 0.

Lemma countb_cons P x l : countb P (x :: l) = b2n (P x) + countb P l.
Proof. unfold countb. simpl. destruct (P x); rewrite ?blen_cons; simpl; lia. Qed.

Lemma countb_nonneg P l : 0 <= countb P l.
Proof. apply blen_nonneg. Qed.

Lemma countb_le P l : countb P l <= blen l.
Proof.
  induction l as [|x l IH]; [done|]. rewrite countb_cons, blen_cons.
  destruct (P x); simpl; lia.
Qed.

Lemma countb_insert P l i x y :
  l !! i = Some x -> countb P (<[i:=y]> l) = countb P l - b2n (P x) + b2n (P y).
Proof.
  revert i. induction l as [|z l IH]; intros i H; [done|].
  destruct i as [|i]; simpl in H |- *.
  - simplify_eq. rewrite !countb_cons. lia.
  - rewrite !countb_cons, (IH i) by done. lia.
Qed.

Lemma countb_zero P l : countb P l = 0 <-> forall i x, l !! i = Some x -> P x = false.
Proof.
  induction l as [|z l IH]; [by split|]. rewrite countb_cons. split.
  - intros H. pose proof (countb_nonneg P l). destruct (P z) eqn:E; simpl in H; [lia|].
    intros [|i] x Hx; simpl in Hx; [by simplify_eq|]. eapply IH; [lia|done].
  - intros H. rewrite (H 0%nat z) by done. simpl.
    apply IH. intros i x Hx. by apply (H (S i)).
Qed.

Lemma countb_pos P l : 0 < countb P l <-> exists i x, l !! i = Some x /\ P x = true.
Proof.
  induction l as [|z l IH]; [split; [done|by intros (?&?&?&?)]|].
  rewrite countb_cons. pose proof (countb_nonneg P l). split.
  - intros Hp. destruct (P z) eqn:E; simpl in Hp; [by exists 0%nat, z|].
    destruct IH as [IH _]. destruct IH as (i&x&?&?); [lia|]. by exists (S i), x.
  - intros (i&x&Hi&Hx). destruct i as [|i]; simpl in Hi; simplify_eq.
    + rewrite Hx. simpl. lia.
    + destruct IH as [_ IH]. destruct (P z); simpl; [lia|]. by apply IH; exists i, x.
Qed.

Lemma countb_replicate P n x : P x = false -> countb P (replicate n x) = 0.
Proof.
  intros. apply countb_zero. intros i y Hy. apply lookup_replicate in Hy. by destruct Hy as [-> _].
Qed.

Lemma countb_ext P Q l : (forall x, P x = Q x) -> countb P l = countb Q l.
Proof. intros. unfold countb. f_equal. by apply List.filter_ext. Qed.

#[export] Instance countb_perm P : Proper ((≡ₚ) ==> eq) (countb P).
Proof.
  intros l k Hp. induction Hp as [|x l k _ IH|x y l|l k j _ IH1 _ IH2]; rewrite ?countb_cons; [done|by rewrite IH|lia|by rewrite IH1].
Qed.

Lemma countb_mono P Q l : (forall x, P x = true -> Q x = true) -> countb P l <= countb Q l.
Proof.
  intros H. induction l as [|z l IH]; [done|]. rewrite !countb_cons.
  destruct (P z) eqn:E; [rewrite (H z E)|]; destruct (Q z); simpl; lia.
Qed.
End Count.

(** One element of the list has a value. *)
Lemma omap_singleton {A B} (f : A -> option B) l x y :
  NoDup l -> x ∈ l -> f x = Some y -> (forall z, z ∈ l -> z <> x -> f z = None) -> omap f l = [y].
Proof.
  intros Hnd Hx Hf Hn. assert (Hnone : forall l', (forall z, z ∈ l' -> f z = None) -> omap f l' = []).
  { induction l' as [|z l' IH]; intros Hz; [done|]. cbn. rewrite Hz by left. apply IH. intros w Hw. apply Hz. by right. }
  induction Hnd as [|z l Hz Hnd IH]; [by apply elem_of_nil in Hx|]. cbn. apply elem_of_cons in Hx as [<-|Hx].
  - rewrite Hf. f_equal. apply Hnone. intros w Hw. apply Hn; [by right|]. intros ->. done.
  - rewrite (Hn z) by (try left; intros ->; done). apply IH; [done|]. intros w Hw. apply Hn. by right.
Qed.

(** A list of images is the image of a list. *)
Lemma Forall_exists_fmap {A B} (f : A -> B) (P : A -> Prop) (l : list B) :
  Forall (fun y => exists x, y = f x /\ P x) l -> exists xs, l = f <$> xs /\ Forall P xs.
Proof.
  induction 1 as [|y l (x & -> & Hx) _ (xs & -> & Hxs)]; [by exists []|]. exists (x :: xs). split; [done|by constructor].
Qed.

(** ** A state monad with undefined behaviour

    A computation is a function of the machine state to a result and a new state; [None] is
    undefined behaviour (an access outside the table, a NULL dereference) or a loop that used up
    its fuel. A theorem that a computation is [Some _] therefore rules both out. *)
Definition SM (S A : Type) : Type := S -> option (A * S).

#[global] Instance SM_ret {S} : MRet (SM S) := fun A a s => Some (a, s).
#[global] Instance SM_bind {S} : MBind (SM S) := fun A B f m s =>
  match m s with Some (a, s') => f a s' | None => None end.

Definition undefined {S A} : SM S A := fun _ => None.
Definition get_st {S} : SM S S := fun s => Some (s, s).
Definition put_st {S} (s : S) : SM S unit := fun _ => Some (tt, s).
Definition gets {S A} (f : S -> A) : SM S A := fun s => Some (f s, s).
Definition modify {S} (f : S -> S) : SM S unit := fun s => Some (tt, f s).

Lemma SM_bind_Some {S A B} (m : SM S A) (f : A -> SM S B) s a s' :
  m s = Some (a, s') -> (m ≫= f) s = f a s'.
Proof. unfold mbind, SM_bind. by intros ->. Qed.

Lemma SM_bind_inv {S A B} (m : SM S A) (f : A -> SM S B) s r :
  (m ≫= f) s = Some r -> exists a s', m s = Some (a, s') /\ f a s' = Some r.
Proof. unfold mbind, SM_bind. destruct (m s) as [[a s']|]; [eauto|done]. Qed.

(** ** Automation *)

Create HintDb qconf.
Create Rewrite HintDb qconf.
#[export] Hint Resolve b2z_range blen_nonneg countb_nonneg u8_range u16_range u32_range : qconf.
#[export] Hint Rewrite @blen_app @blen_cons @blen_nil length_le_bytes : qconf.

(** [lia] on goals with division and remainder by constants. *)
Ltac dm_lia := zify; Z.to_euclidean_division_equations; lia.

(** Case analysis on the outermost integer or boolean test of the goal. *)
Ltac case_test :=
  match goal with
  | |- context [if (?a =? ?b)%Z then _ else _] => destruct (Z.eqb_spec a b)
  | |- context [if (?a <? ?b)%Z then _ else _] => destruct (Z.ltb_spec a b)
  | |- context [if (?a <=? ?b)%Z then _ else _] => destruct (Z.leb_spec a b)
  | |- context [if bool_decide ?P then _ else _] => destruct (bool_decide_reflect P)
  | |- context [if decide ?P then _ else _] => destruct (decide P)
  end.

(** Run the first command of a monadic goal with a lemma that says what it does. *)
Ltac run_with lem :=
  erewrite SM_bind_Some; [|first [eapply lem | rewrite lem]; eauto; try lia].

Ltac split_and_hyps :=
  repeat match goal with
  | H : _ /\ _ |- _ => destruct H
  | H : exists _, _ |- _ => destruct H
  end.
