(* ===== verification/Common.v ===== *)
(** * Constants shared by the agent, the drivers and the table code

    The return codes of [src/base/qconf_common.h], [src/agent/qconf_const.h] and
    [src/driver/c++/include/qconf_errno.h], the data types of a table key, the buffer limits, and the
    POSIX error numbers the code tests. *)

From S2P Require Import Prelude.

(** ** Return codes ([qconf_common.h]) *)
Definition QCONF_ERR_OTHER : Z := -1.
Definition QCONF_OK : Z := 0.
Definition QCONF_ERR_PARAM : Z := 1.
Definition QCONF_ERR_MEM : Z := 2.
Definition QCONF_ERR_TBL_SET : Z := 3.
Definition QCONF_ERR_BUF_NOT_ENOUGH : Z := 6.
Definition QCONF_ERR_DATA_TYPE : Z := 7.
Definition QCONF_ERR_DATA_FORMAT : Z := 8.
Definition QCONF_ERR_NOT_FOUND : Z := 10.
Definition QCONF_ERR_OPEN_DUMP : Z := 11.
Definition QCONF_ERR_WRITE_DUMP : Z := 15.
Definition QCONF_ERR_SAME_VALUE : Z := 16.
Definition QCONF_ERR_TBL_DATA_MESS : Z := 18.
Definition QCONF_ERR_TBL_END : Z := 19.
Definition QCONF_ERR_OUT_OF_RANGE : Z := 20.
Definition QCONF_ERR_NOT_NUMBER : Z := 21.
Definition QCONF_ERR_OTHRE_CHARACTER : Z := 22.
Definition QCONF_ERR_INVALID_IP : Z := 30.
Definition QCONF_ERR_E2BIG : Z := 41.
Definition QCONF_ERR_MSGGET : Z := 42.
Definition QCONF_ERR_MSGSND : Z := 43.
Definition QCONF_ERR_MSGRCV : Z := 44.
Definition QCONF_ERR_MSGIDRM : Z := 45.
Definition QCONF_ERR_MSGFULL : Z := 46.
Definition QCONF_ERR_OPEN : Z := 51.
Definition QCONF_ERR_DEL_DUMP : Z := 52.
Definition QCONF_ERR_MKDIR : Z := 54.
Definition QCONF_ERR_READ : Z := 55.
Definition QCONF_ERR_SHMGET : Z := 201.
Definition QCONF_ERR_SHMAT : Z := 202.
Definition QCONF_ERR_SHMINIT : Z := 203.

(** ** Return codes of the agent ([qconf_const.h]) *)
Definition QCONF_ERR_ZOO_FAILED : Z := 61.
Definition QCONF_ERR_NULL_LOCAL_IDC : Z := 81.
Definition QCONF_ERR_FAILED_OPEN_FILE : Z := 101.
Definition QCONF_ERR_FAILED_READ_FILE : Z := 102.
Definition QCONF_ERR_FB_TIMEOUT : Z := 111.
Definition QCONF_ERR_SCRIPT_TIMEOUT : Z := 115.
Definition QCONF_ERR_SCRIPT_NOT_EXIST : Z := 116.
Definition QCONF_ERR_SCRIPT_DIR_NOT_INIT : Z := 117.
Definition QCONF_ERR_GRAY_GET_NOTIFY_NODE : Z := 119.
Definition QCONF_ERR_GRAY_GET_NOTIFY_CONTENT : Z := 120.
Definition QCONF_ERR_GRAY_FAKE_SHM_FAILED : Z := 121.
Definition QCONF_NODE_NOT_EXIST : Z := -2.
Definition QCONF_NODE_EXIST : Z := -3.

Definition QCONF_GET_RETRIES : nat := 3.
Definition QCONF_FB_RETRIES : nat := 3.

(** ** Data types of a table key, and trigger types: the characters of the source *)
Definition QCONF_DATA_TYPE_UNKNOWN : byte := x30.
Definition QCONF_DATA_TYPE_ZK_HOST : byte := x31.
Definition QCONF_DATA_TYPE_NODE : byte := x32.
Definition QCONF_DATA_TYPE_SERVICE : byte := x33.
Definition QCONF_DATA_TYPE_BATCH_NODE : byte := x34.
Definition QCONF_DATA_TYPE_LOCAL_IDC : byte := x61.
Definition QCONF_KEY_TYPE_LOCAL_IDC : bytes := str "a".

Definition QCONF_TRIGGER_TYPE_ADD_OR_MODIFY : byte := x30.
Definition QCONF_TRIGGER_TYPE_REMOVE : byte := x32.
Definition QCONF_TRIGGER_TYPE_RESET : byte := x33.

(** ** Service status *)
Definition STATUS_UNKNOWN : Z := -1.
Definition STATUS_UP : Z := 0.
Definition STATUS_OFFLINE : Z := 1.
Definition STATUS_DOWN : Z := 2.

(** ** Limits *)
Definition QCONF_MD5_INT_LEN : Z := 16.
Definition QCONF_MAX_SEND_MSG_TIMES : Z := 3.
Definition QCONF_MAX_MSG_LEN : Z := 2048.
Definition QCONF_MAX_VALUE_SIZE : Z := 1048577.
Definition QCONF_MAX_BUF_LEN : Z := 2048.

(** ** System V keys *)
Definition QCONF_DEFAULT_SHM_KEY : Z := 0x10cf21d3.
Definition QCONF_DEFAULT_MSG_QUEUE_KEY : Z := 0x10cf56fe.

(** ** Driver flags ([qconf_errno.h]) *)
Definition QCONF_WAIT : Z := 0.
Definition QCONF_NOWAIT : Z := 1.
Definition QCONF_MAX_GET_TIMES : nat := 100.

(** ** POSIX error numbers (Linux) *)
Definition ENOENT : Z := 2.
Definition EINTR : Z := 4.
Definition EAGAIN : Z := 11.
Definition ENOMEM : Z := 12.
Definition EFAULT : Z := 14.
Definition EEXIST : Z := 17.
Definition EINVAL : Z := 22.
Definition ERANGE : Z := 34.
Definition EIDRM : Z := 43.
Definition ENOBUFS : Z := 105.
