(* ===== verification/Rfc1321.v ===== *)
(** * MD5 as RFC 1321 describes it

    Section 3 of the RFC, without regard to any program: the padded message, the buffer, the functions and
    the 64 operations, given by their position instead of one by one. The table is computed from the sine. *)

From S2P Require Import Prelude.

Module Rfc1321.

(** ** Words (section 2) *)

Definition word (z : Z) : Z := z mod 2 ^ 32.
Definition lnot (x : Z) : Z := Z.lxor x (2 ^ 32 - 1).
Definition rotl (x s : Z) : Z := Z.lor (word (Z.shiftl x s)) (Z.shiftr x (32 - s)).

(** ** Steps 1 and 2: a one bit, zero bits up to 448 modulo 512, the length in bits as 64 bits *)

Definition pad (m : bytes) : bytes :=
  m ++ x80 :: replicate (Z.to_nat ((55 - blen m) mod 64)) x00 ++ le_bytes 8 (8 * blen m).

(** ** Step 3: the buffer, given by its bytes with the low-order byte first *)

Definition buffer : Z * Z * Z * Z :=
  (le_num [x01; x23; x45; x67], le_num [x89; xab; xcd; xef], le_num [xfe; xdc; xba; x98], le_num [x76; x54; x32; x10]).

(** ** Step 4: the functions, the table and the operations *)

Definition F (x y z : Z) : Z := Z.lor (Z.land x y) (Z.land (lnot x) z).
Definition G (x y z : Z) : Z := Z.lor (Z.land x z) (Z.land y (lnot z)).
Definition H (x y z : Z) : Z := Z.lxor (Z.lxor x y) z.
Definition I (x y z : Z) : Z := Z.lxor y (Z.lor x (lnot z)).

(** The sine of the integer [i], in units of 2^-[sin_bits]: its series, whose term of degree [k] is [t].
    The terms for [i] up to 64 are below 2^93, and those after 150 of them below one unit. *)
Definition sin_bits : Z := 256.

Fixpoint sin_series (n : nat) (i k t : Z) : Z :=
  match n with O => 0 | S n' => t + sin_series n' i (k + 2) (- (t * i * i / ((k + 1) * (k + 2)))) end.

(** [T[i]], the integer part of 4294967296 times the absolute value of the sine of [i]. *)
Definition T (i : Z) : Z := Z.shiftr (Z.abs (sin_series 150 i 1 (Z.shiftl i sin_bits))) (sin_bits - 32).

(** Operation [j], from 0: the function of its round, the word it takes, the amount it rotates by, and the
    element of the table. *)
Definition round_fun (j : nat) : Z -> Z -> Z -> Z :=
  match (j / 16)%nat with 0%nat => F | 1%nat => G | 2%nat => H | _ => I end.

Definition round_word (j : nat) : nat :=
  (match j / 16 with 0 => j | 1 => 5 * j + 1 | 2 => 3 * j + 5 | _ => 7 * j end mod 16)%nat.

Definition round_shift (j : nat) : Z :=
  nth (j mod 4) (match (j / 16)%nat with
                 | 0%nat => [7; 12; 17; 22] | 1%nat => [5; 9; 14; 20] | 2%nat => [4; 11; 16; 23] | _ => [6; 10; 15; 21]
                 end) 0.

(** [a = b + ((a + f(b,c,d) + X[k] + T[i]) <<< s)]; then the registers change their names. *)
Definition operation (X : nat -> Z) (st : Z * Z * Z * Z) (j : nat) : Z * Z * Z * Z :=
  let '(a, b, c, d) := st in
  (d, word (rotl (word (a + round_fun j b c d + X (round_word j) + T (Z.of_nat j + 1))) (round_shift j) + b), b, c).

Definition add4 (s t : Z * Z * Z * Z) : Z * Z * Z * Z :=
  let '(a, b, c, d) := s in let '(a', b', c', d') := t in (word (a + a'), word (b + b'), word (c + c'), word (d + d')).

(** One block of 16 words. *)
Definition block_words (block : bytes) (k : nat) : Z := le_num (sub_bytes (4 * k) 4 block).
Definition process_block (st : Z * Z * Z * Z) (block : bytes) : Z * Z * Z * Z :=
  add4 st (foldl (operation (block_words block)) st (seq 0 64)).

Fixpoint process (n : nat) (st : Z * Z * Z * Z) (l : bytes) : Z * Z * Z * Z :=
  match n with O => st | S n' => process n' (process_block st (take 64 l)) (drop 64 l) end.

(** ** Step 5: the digest, low-order byte of A first *)

Definition output (st : Z * Z * Z * Z) : bytes :=
  let '(a, b, c, d) := st in le_bytes 4 a ++ le_bytes 4 b ++ le_bytes 4 c ++ le_bytes 4 d.

Definition md5 (m : bytes) : bytes := let p := pad m in output (process (length p / 64) buffer p).

(** The table as the appendix of the RFC prints it. *)
Definition table : list Z :=
  [0xd76aa478; 0xe8c7b756; 0x242070db; 0xc1bdceee; 0xf57c0faf; 0x4787c62a; 0xa8304613; 0xfd469501;
   0x698098d8; 0x8b44f7af; 0xffff5bb1; 0x895cd7be; 0x6b901122; 0xfd987193; 0xa679438e; 0x49b40821;
   0xf61e2562; 0xc040b340; 0x265e5a51; 0xe9b6c7aa; 0xd62f105d; 0x02441453; 0xd8a1e681; 0xe7d3fbc8;
   0x21e1cde6; 0xc33707d6; 0xf4d50d87; 0x455a14ed; 0xa9e3e905; 0xfcefa3f8; 0x676f02d9; 0x8d2a4c8a;
   0xfffa3942; 0x8771f681; 0x6d9d6122; 0xfde5380c; 0xa4beea44; 0x4bdecfa9; 0xf6bb4b60; 0xbebfbc70;
   0x289b7ec6; 0xeaa127fa; 0xd4ef3085; 0x04881d05; 0xd9d4d039; 0xe6db99e5; 0x1fa27cf8; 0xc4ac5665;
   0xf4292244; 0x432aff97; 0xab9423a7; 0xfc93a039; 0x655b59c3; 0x8f0ccc92; 0xffeff47d; 0x85845dd1;
   0x6fa87e4f; 0xfe2ce6e0; 0xa3014314; 0x4e0811a1; 0xf7537e82; 0xbd3af235; 0x2ad7d2bb; 0xeb86d391].

Lemma table_sine : (fun j => T (Z.of_nat j + 1)) <$> seq 0 64 = table.
Proof. vm_compute. reflexivity. Qed.
End Rfc1321.
