(* ===== verification/Md5.v ===== *)
(** * MD5 ([src/base/qlibc/md5.c], [qhashmd5] of [src/base/qlibc/qhash.c])

    The context with its bit counter kept in two 32-bit halves, the block transformation written as
    the 64 steps of the source, the streaming update, the padding and the finalisation. The theorems
    relate the streaming code to MD5 as [Rfc1321] states it: pad the whole message, cut it into 64-byte
    blocks, fold the 64 operations over them. *)

From S2P Require Import Prelude Rfc1321.

Module Md5.

(** ** The context *)

(** [state] as the four words, [count] as (low, high), [buffer] as its 64 bytes. *)
Record QMD5_CTX := mkCtx {
  ctx_state : Z * Z * Z * Z;
  ctx_count : Z * Z;
  ctx_buffer : bytes
}.

(** ** Basic functions: the macros F, G, H, I and the round macros, on 32-bit words *)
Definition not32 (x : Z) : Z := Z.lxor x (2 ^ 32 - 1).
Definition F (x y z : Z) : Z := Z.lor (Z.land x y) (Z.land (not32 x) z).
Definition G (x y z : Z) : Z := Z.lor (Z.land x z) (Z.land y (not32 z)).
Definition H (x y z : Z) : Z := Z.lxor (Z.lxor x y) z.
Definition I (x y z : Z) : Z := Z.lxor y (Z.lor x (not32 z)).

Definition ROTATE_LEFT (x n : Z) : Z := Z.lor (u32 (Z.shiftl x n)) (Z.shiftr x (32 - n)).

Definition round_step (f : Z -> Z -> Z -> Z) (a b c d x s ac : Z) : Z :=
  u32 (ROTATE_LEFT (u32 (a + f b c d + x + ac)) s + b).

Definition FF := round_step F.
Definition GG := round_step G.
Definition HH := round_step H.
Definition II := round_step I.

Definition S11 : Z := 7.
Definition S12 : Z := 12.
Definition S13 : Z := 17.
Definition S14 : Z := 22.
Definition S21 : Z := 5.
Definition S22 : Z := 9.
Definition S23 : Z := 14.
Definition S24 : Z := 20.
Definition S31 : Z := 4.
Definition S32 : Z := 11.
Definition S33 : Z := 16.
Definition S34 : Z := 23.
Definition S41 : Z := 6.
Definition S42 : Z := 10.
Definition S43 : Z := 15.
Definition S44 : Z := 21.

(** [Decode]: the block as sixteen little-endian words ([memcpy] on a little-endian machine,
    [le32toh] on a big-endian one). *)
Definition Decode (block : bytes) (i : nat) : Z := le_num (sub_bytes (4 * i) 4 block).

(** An assignment to a variable of the function. *)
Definition assignment {A B} (v : A) (k : A -> B) : B := k v.
Local Notation "'assign' x := v 'in' k" := (assignment v (fun x => k)) (at level 10, x binder, k at level 200).

(** [QMD5Transform]. *)
Definition QMD5Transform (state : Z * Z * Z * Z) (block : bytes) : Z * Z * Z * Z :=
  let '(a0, b0, c0, d0) := state in
  assign a := a0 in assign b := b0 in assign c := c0 in assign d := d0 in
  let x := Decode block in
  (* Round 1 *)
  assign a := FF a b c d (x 0%nat) S11 0xd76aa478 in
  assign d := FF d a b c (x 1%nat) S12 0xe8c7b756 in
  assign c := FF c d a b (x 2%nat) S13 0x242070db in
  assign b := FF b c d a (x 3%nat) S14 0xc1bdceee in
  assign a := FF a b c d (x 4%nat) S11 0xf57c0faf in
  assign d := FF d a b c (x 5%nat) S12 0x4787c62a in
  assign c := FF c d a b (x 6%nat) S13 0xa8304613 in
  assign b := FF b c d a (x 7%nat) S14 0xfd469501 in
  assign a := FF a b c d (x 8%nat) S11 0x698098d8 in
  assign d := FF d a b c (x 9%nat) S12 0x8b44f7af in
  assign c := FF c d a b (x 10%nat) S13 0xffff5bb1 in
  assign b := FF b c d a (x 11%nat) S14 0x895cd7be in
  assign a := FF a b c d (x 12%nat) S11 0x6b901122 in
  assign d := FF d a b c (x 13%nat) S12 0xfd987193 in
  assign c := FF c d a b (x 14%nat) S13 0xa679438e in
  assign b := FF b c d a (x 15%nat) S14 0x49b40821 in
  (* Round 2 *)
  assign a := GG a b c d (x 1%nat) S21 0xf61e2562 in
  assign d := GG d a b c (x 6%nat) S22 0xc040b340 in
  assign c := GG c d a b (x 11%nat) S23 0x265e5a51 in
  assign b := GG b c d a (x 0%nat) S24 0xe9b6c7aa in
  assign a := GG a b c d (x 5%nat) S21 0xd62f105d in
  assign d := GG d a b c (x 10%nat) S22 0x2441453 in
  assign c := GG c d a b (x 15%nat) S23 0xd8a1e681 in
  assign b := GG b c d a (x 4%nat) S24 0xe7d3fbc8 in
  assign a := GG a b c d (x 9%nat) S21 0x21e1cde6 in
  assign d := GG d a b c (x 14%nat) S22 0xc33707d6 in
  assign c := GG c d a b (x 3%nat) S23 0xf4d50d87 in
  assign b := GG b c d a (x 8%nat) S24 0x455a14ed in
  assign a := GG a b c d (x 13%nat) S21 0xa9e3e905 in
  assign d := GG d a b c (x 2%nat) S22 0xfcefa3f8 in
  assign c := GG c d a b (x 7%nat) S23 0x676f02d9 in
  assign b := GG b c d a (x 12%nat) S24 0x8d2a4c8a in
  (* Round 3 *)
  assign a := HH a b c d (x 5%nat) S31 0xfffa3942 in
  assign d := HH d a b c (x 8%nat) S32 0x8771f681 in
  assign c := HH c d a b (x 11%nat) S33 0x6d9d6122 in
  assign b := HH b c d a (x 14%nat) S34 0xfde5380c in
  assign a := HH a b c d (x 1%nat) S31 0xa4beea44 in
  assign d := HH d a b c (x 4%nat) S32 0x4bdecfa9 in
  assign c := HH c d a b (x 7%nat) S33 0xf6bb4b60 in
  assign b := HH b c d a (x 10%nat) S34 0xbebfbc70 in
  assign a := HH a b c d (x 13%nat) S31 0x289b7ec6 in
  assign d := HH d a b c (x 0%nat) S32 0xeaa127fa in
  assign c := HH c d a b (x 3%nat) S33 0xd4ef3085 in
  assign b := HH b c d a (x 6%nat) S34 0x4881d05 in
  assign a := HH a b c d (x 9%nat) S31 0xd9d4d039 in
  assign d := HH d a b c (x 12%nat) S32 0xe6db99e5 in
  assign c := HH c d a b (x 15%nat) S33 0x1fa27cf8 in
  assign b := HH b c d a (x 2%nat) S34 0xc4ac5665 in
  (* Round 4 *)
  assign a := II a b c d (x 0%nat) S41 0xf4292244 in
  assign d := II d a b c (x 7%nat) S42 0x432aff97 in
  assign c := II c d a b (x 14%nat) S43 0xab9423a7 in
  assign b := II b c d a (x 5%nat) S44 0xfc93a039 in
  assign a := II a b c d (x 12%nat) S41 0x655b59c3 in
  assign d := II d a b c (x 3%nat) S42 0x8f0ccc92 in
  assign c := II c d a b (x 10%nat) S43 0xffeff47d in
  assign b := II b c d a (x 1%nat) S44 0x85845dd1 in
  assign a := II a b c d (x 8%nat) S41 0x6fa87e4f in
  assign d := II d a b c (x 15%nat) S42 0xfe2ce6e0 in
  assign c := II c d a b (x 6%nat) S43 0xa3014314 in
  assign b := II b c d a (x 13%nat) S44 0x4e0811a1 in
  assign a := II a b c d (x 4%nat) S41 0xf7537e82 in
  assign d := II d a b c (x 11%nat) S42 0xbd3af235 in
  assign c := II c d a b (x 2%nat) S43 0x2ad7d2bb in
  assign b := II b c d a (x 9%nat) S44 0xeb86d391 in
  (u32 (a0 + a), u32 (b0 + b), u32 (c0 + c), u32 (d0 + d)).

(** ** The streaming interface *)

(** [QMD5Init]: the buffer is not written; its bytes are whatever was there. *)
Definition QMD5Init (junk : bytes) : QMD5_CTX :=
  mkCtx (0x67452301, 0xefcdab89, 0x98badcfe, 0x10325476) (0, 0) junk.

(** The loop of [QMD5Update] over the whole blocks of the input from offset [i]; [fuel] bounds its
    iterations. Returns the state and the offset the loop stops at. *)
Fixpoint update_blocks (fuel : nat) (state : Z * Z * Z * Z) (input : bytes) (i : Z)
    : (Z * Z * Z * Z) * Z :=
  match fuel with
  | O => (state, i)
  | S fuel' =>
      if i + 63 <? blen input
      then update_blocks fuel' (QMD5Transform state (sub_bytes (Z.to_nat i) 64 input)) input (i + 64)
      else (state, i)
  end.

(** [QMD5Update]; [inputLen] is the length of [input], an [unsigned int]. *)
Definition QMD5Update (context : QMD5_CTX) (input : bytes) : QMD5_CTX :=
  let inputLen := blen input in
  let '(c0, c1) := ctx_count context in
  let idx := Z.land (Z.shiftr c0 3) 0x3F in
  let bits := u32 (Z.shiftl inputLen 3) in
  let c0' := u32 (c0 + bits) in
  let c1' := if c0' <? bits then u32 (c1 + 1) else c1 in
  let c1'' := u32 (c1' + Z.shiftr inputLen 29) in
  let partLen := 64 - idx in
  let '(st, buf, idx', i) :=
    if partLen <=? inputLen then
      let buf := mem_write (Z.to_nat idx) (take (Z.to_nat partLen) input) (ctx_buffer context) in
      let st := QMD5Transform (ctx_state context) buf in
      let '(st', i) := update_blocks (length input) st input partLen in
      (st', buf, 0, i)
    else (ctx_state context, ctx_buffer context, idx, 0) in
  mkCtx st (c0', c1'') (mem_write (Z.to_nat idx') (drop (Z.to_nat i) input) buf).

Definition PADDING : bytes := x80 :: replicate 63 x00.

(** [Encode] of the two counter words, and of the four state words. *)
Definition Encode_count (c : Z * Z) : bytes := le_bytes 4 (fst c) ++ le_bytes 4 (snd c).
Definition Encode_state (s : Z * Z * Z * Z) : bytes :=
  let '(a, b, c, d) := s in le_bytes 4 a ++ le_bytes 4 b ++ le_bytes 4 c ++ le_bytes 4 d.

(** [QMD5Pad]. *)
Definition QMD5Pad (context : QMD5_CTX) : QMD5_CTX :=
  let bits := Encode_count (ctx_count context) in
  let idx := Z.land (Z.shiftr (fst (ctx_count context)) 3) 0x3f in
  let padLen := if idx <? 56 then 56 - idx else 120 - idx in
  let context := QMD5Update context (take (Z.to_nat padLen) PADDING) in
  QMD5Update context bits.

(** [QMD5Final]: the digest and the zeroed context. *)
Definition QMD5Final (context : QMD5_CTX) : bytes * QMD5_CTX :=
  let context := QMD5Pad context in
  (Encode_state (ctx_state context), mkCtx (0, 0, 0, 0) (0, 0) (replicate 64 x00)).

(** The calls [qhashmd5] makes on a non-NULL buffer; the length is cast to [unsigned int]. *)
Definition md5_of (data : bytes) : bytes :=
  let context := QMD5Init (replicate 64 x00) in
  let context := QMD5Update context (take (Z.to_nat (u32 (blen data))) data) in
  fst (QMD5Final context).

(** [qhashmd5]: [None] for a NULL argument, and for the [false] it then returns. *)
Definition qhashmd5 (data : option bytes) (retbuf_null : bool) : option bytes :=
  match data with
  | Some d => if retbuf_null then None else Some (md5_of d)
  | None => None
  end.

(** [qhashmd5_bin_to_hex]. *)
Definition hexs : bytes := str "0123456789abcdef".
Definition qhashmd5_bin_to_hex (md5_int : bytes) : bytes :=
  flat_map (fun c =>
    [nth (Z.to_nat (Z.shiftr (b2z c) 4)) hexs x00;
     nth (Z.to_nat (Z.land (b2z c) 0x0F)) hexs x00]) md5_int.

(** ** Proofs *)

(** *** The transformation is the one of RFC 1321 *)

Lemma operations_next X a b c d j n f k s ac w :
  Rfc1321.round_fun j = f -> Rfc1321.round_word j = k -> Rfc1321.round_shift j = s -> Rfc1321.T (Z.of_nat j + 1) = ac ->
  round_step f a b c d (X k) s ac = w ->
  foldl (Rfc1321.operation X) (a, b, c, d) (seq j (S n)) = foldl (Rfc1321.operation X) (d, w, b, c) (seq (S j) n).
Proof. intros <- <- <- <- <-. reflexivity. Qed.

Lemma assign_eq {A B} (v : A) (k : A -> B) r : (forall w, v = w -> k w = r) -> assignment v k = r.
Proof. intros Hk. by apply Hk. Qed.

(** Both sides take one operation; the new register gets a name before the next one. *)
Ltac next_operation :=
  lazymatch goal with |- assignment ?v _ = Rfc1321.add4 _ (foldl _ _ (seq ?j _)) =>
    let w := fresh "w" in let Hw := fresh "Hw" in
    apply assign_eq; intros w Hw; cbv beta;
    let go f i s ac := (rewrite (fun X a b c d n => operations_next X a b c d j n f i s ac w) by
      first [exact Hw | (vm_compute; reflexivity)]) in
    lazymatch v with
    | FF _ _ _ _ (_ ?i) ?s ?ac => go F i s ac
    | GG _ _ _ _ (_ ?i) ?s ?ac => go G i s ac
    | HH _ _ _ _ (_ ?i) ?s ?ac => go H i s ac
    | II _ _ _ _ (_ ?i) ?s ?ac => go I i s ac
    end; clear Hw
  end.

Lemma transform_rfc st block : QMD5Transform st block = Rfc1321.process_block st block.
Proof.
  destruct st as [[[a0 b0] c0] d0]. unfold QMD5Transform, Rfc1321.process_block.
  do 4 (apply assign_eq; intros ? <-). cbv zeta. do 64 next_operation. reflexivity.
Qed.

(** The transformation folded over the first [n] blocks of a message. *)
Fixpoint absorb (n : nat) (st : Z * Z * Z * Z) (l : bytes) : Z * Z * Z * Z :=
  match n with
  | O => st
  | S n' => absorb n' (QMD5Transform st (take 64 l)) (drop 64 l)
  end.

Lemma absorb_rfc n st l : absorb n st l = Rfc1321.process n st l.
Proof. revert st l. induction n as [|n IH]; intros st l; [done|]. cbn [absorb Rfc1321.process]. by rewrite IH, transform_rfc. Qed.

Definition init_state : Z * Z * Z * Z := ctx_state (QMD5Init []).

Lemma absorb_add a b st l : absorb (a + b) st l = absorb b (absorb a st l) (drop (64 * a) l).
Proof.
  revert st l. induction a as [|a IH]; intros st l; [done|].
  cbn [Nat.add absorb]. rewrite IH, drop_drop. do 2 f_equal. lia.
Qed.

Lemma absorb_app a st l k : (64 * a <= length l)%nat -> absorb a st (l ++ k) = absorb a st l.
Proof.
  revert st l. induction a as [|a IH]; intros st l Hl; [done|]. cbn [absorb].
  rewrite take_app_le, drop_app_le by lia. apply IH. rewrite length_drop. lia.
Qed.

Lemma update_blocks_absorb fuel st input i :
  0 <= i <= blen input -> (length input <= fuel + Z.to_nat i)%nat ->
  let k := Z.to_nat ((blen input - i) / 64) in
  update_blocks fuel st input i = (absorb k st (drop (Z.to_nat i) input), i + 64 * Z.of_nat k).
Proof.
  revert st i. induction fuel as [|fuel IH]; intros st i Hi Hf k; subst k.
  - replace ((blen input - i) / 64) with 0; [simpl; f_equal; lia|].
    unfold blen in *. rewrite Z.div_small; lia.
  - cbn [update_blocks]. destruct (Z.ltb_spec (i + 63) (blen input)).
    + rewrite IH by lia.
      assert (Hq : (blen input - i) / 64 = (blen input - (i + 64)) / 64 + 1) by dm_lia.
      assert (0 <= (blen input - (i + 64)) / 64) by (apply Z.div_pos; lia).
      rewrite Hq. set (q := (blen input - (i + 64)) / 64) in *.
      replace (Z.to_nat (q + 1)) with (S (Z.to_nat q)) by lia. cbn [absorb].
      rewrite drop_drop. f_equal; [|lia]. f_equal. f_equal. lia.
    + rewrite Z.div_small by lia. simpl. f_equal. lia.
Qed.

(** What the context holds after the bytes [m] have been fed to it. *)
Definition ctx_rep (c : QMD5_CTX) (m : bytes) : Prop :=
  length (ctx_buffer c) = 64%nat /\
  ctx_state c = absorb (length m / 64) init_state m /\
  take (length m mod 64) (ctx_buffer c) = drop (64 * (length m / 64)) m /\
  ctx_count c = ((8 * blen m) mod 2 ^ 32, (8 * blen m / 2 ^ 32) mod 2 ^ 32).

Lemma QMD5Init_rep junk : length junk = 64%nat -> ctx_rep (QMD5Init junk) [].
Proof. intros. by repeat split. Qed.

Lemma buffer_index (l : nat) :
  Z.land (Z.shiftr ((8 * Z.of_nat l) mod 2 ^ 32) 3) 0x3F = Z.of_nat (l mod 64).
Proof.
  change 0x3F with (Z.ones 6). rewrite Z.land_ones, Z.shiftr_div_pow2 by lia.
  change (2 ^ 3) with 8. change (2 ^ 6) with 64. change (2 ^ 32) with 4294967296.
  rewrite Nat2Z.inj_mod. change (Z.of_nat 64) with 64. dm_lia.
Qed.

Lemma count_update (m n : Z) :
  0 <= m -> 0 <= n < 2 ^ 32 ->
  let bits := u32 (Z.shiftl n 3) in
  let c0' := u32 ((8 * m) mod 2 ^ 32 + bits) in
  let c1 := (8 * m / 2 ^ 32) mod 2 ^ 32 in
  let c1' := if c0' <? bits then u32 (c1 + 1) else c1 in
  (c0', u32 (c1' + Z.shiftr n 29)) =
  ((8 * (m + n)) mod 2 ^ 32, (8 * (m + n) / 2 ^ 32) mod 2 ^ 32).
Proof.
  intros Hm Hn. cbn zeta. unfold u32. rewrite Z.shiftl_mul_pow2, Z.shiftr_div_pow2 by lia.
  change (2 ^ 3) with 8. change (2 ^ 29) with 536870912. change (2 ^ 32) with 4294967296 in *.
  destruct (Z.ltb_spec (((8 * m) mod 4294967296 + (n * 8) mod 4294967296) mod 4294967296)
                       ((n * 8) mod 4294967296)); f_equal; dm_lia.
Qed.

Lemma le_bytes_add a b z : le_bytes (a + b) z = le_bytes a z ++ le_bytes b (z / 256 ^ Z.of_nat a).
Proof.
  revert z. induction a as [|a IH]; intros z; cbn [Nat.add le_bytes app].
  - by rewrite Z.div_1_r.
  - rewrite IH, Nat2Z.inj_succ, Z.pow_succ_r, Z.div_div by lia. done.
Qed.

Lemma le_bytes_mod n z : le_bytes n (z mod 256 ^ Z.of_nat n) = le_bytes n z.
Proof. by rewrite <- le_num_bytes, <- (length_le_bytes n z) at 1; rewrite le_bytes_num. Qed.

(** The two counter words are the two halves of the 64-bit bit count. *)
Lemma le_bytes_halves z :
  Encode_count (z mod 2 ^ 32, (z / 2 ^ 32) mod 2 ^ 32) = le_bytes 8 z.
Proof.
  unfold Encode_count. cbn [fst snd]. change (2 ^ 32) with (256 ^ Z.of_nat 4).
  rewrite !le_bytes_mod. symmetry. apply (le_bytes_add 4 4).
Qed.

(** The list facts behind an update that completes the buffered block: the block is the rest of
    the old message and the head of the input, and the loop then takes [k] whole blocks. *)
Lemma absorb_complete (m input : bytes) (q idx k r : nat) :
  length m = (64 * q + idx)%nat -> (idx < 64)%nat -> (r < 64)%nat ->
  length input = (64 - idx + 64 * k + r)%nat ->
  let block := drop (64 * q) m ++ take (64 - idx) input in
  length block = 64%nat /\
  ((length m + length input) / 64 = q + (1 + k))%nat /\
  ((length m + length input) mod 64 = r)%nat /\
  absorb (q + (1 + k)) init_state (m ++ input) =
    absorb k (QMD5Transform (absorb q init_state m) block) (drop (64 - idx) input) /\
  drop (64 * (q + (1 + k))) (m ++ input) = drop (64 - idx + 64 * k) input.
Proof.
  intros Hm Hi Hr Hn block.
  assert (length block = 64%nat) by (subst block; rewrite length_app, length_drop, length_take; lia).
  split; [done|]. split; [|split; [|split]].
  - symmetry. apply Nat.div_unique with r; lia.
  - symmetry. apply Nat.mod_unique with (q + (1 + k))%nat; lia.
  - rewrite absorb_add, absorb_app, drop_app_le by lia. cbn [absorb Nat.add].
    rewrite take_app_ge, drop_app_ge, length_drop by (rewrite length_drop; lia).
    subst block. by replace (64 - (length m - 64 * q))%nat with (64 - idx)%nat by lia.
  - rewrite drop_app_ge by lia. f_equal. lia.
Qed.

Lemma mem_write_fill (off : nat) (src dst : bytes) :
  (off + length src = length dst)%nat -> mem_write off src dst = take off dst ++ src.
Proof. intros. unfold mem_write. rewrite (drop_ge dst), app_nil_r by lia. done. Qed.

(** Feeding [input] to a context that holds [m] gives one that holds [m ++ input]. *)
Lemma QMD5Update_rep c m input :
  ctx_rep c m -> blen input < 2 ^ 32 -> ctx_rep (QMD5Update c input) (m ++ input).
Proof.
  intros (Hb & Hs & Hr & Hc) Hn. unfold QMD5Update. rewrite Hc.
  pose proof (buffer_index (length m)) as Hidx. fold (blen m) in Hidx. rewrite Hidx. clear Hidx.
  pose proof (count_update (blen m) (blen input) (blen_nonneg _) (conj (blen_nonneg _) Hn)) as Hcnt.
  cbn zeta in Hcnt.
  pose proof (Nat.div_mod_eq (length m) 64) as Hm.
  pose proof (Nat.mod_upper_bound (length m) 64 ltac:(lia)) as Hi.
  set (idx := (length m mod 64)%nat) in *. set (q := (length m / 64)%nat) in *.
  destruct (Z.leb_spec (64 - Z.of_nat idx) (blen input)) as [Hle|Hgt].
  - rewrite update_blocks_absorb by (unfold blen in *; lia).
    set (k := Z.to_nat ((blen input - (64 - Z.of_nat idx)) / 64)).
    pose proof (Nat.mod_upper_bound (length input - (64 - idx)) 64 ltac:(lia)) as Hr64.
    set (r := ((length input - (64 - idx)) mod 64)%nat) in *.
    assert (Hk : length input = (64 - idx + 64 * k + r)%nat).
    { unfold blen in Hle. pose proof (Nat.div_mod_eq (length input - (64 - idx)) 64).
      assert (k = (length input - (64 - idx)) / 64)%nat; [|subst r; lia].
      subst k. unfold blen. rewrite <- (Nat2Z.id (_ / _)), Nat2Z.inj_div. do 2 f_equal. lia. }
    destruct (absorb_complete m input q idx k r Hm Hi Hr64 Hk) as (Hblk & Hq' & Hr' & Habs & Hdrop).
    rewrite Nat2Z.id, mem_write_fill, Hr by (rewrite length_take; lia).
    replace (Z.to_nat (64 - Z.of_nat idx)) with (64 - idx)%nat by lia.
    replace (Z.to_nat (64 - Z.of_nat idx + 64 * Z.of_nat k)) with (64 - idx + 64 * k)%nat by lia.
    unfold ctx_rep. cbn [ctx_buffer ctx_state ctx_count].
    rewrite blen_app, <- Hcnt, length_app, Hq', Hr', Habs, Hdrop, Hs.
    split; [|split; [done|split; [|done]]].
    + rewrite length_mem_write; [done|]. cbn zeta in Hblk. rewrite Hblk, length_drop. lia.
    + unfold mem_write. change (Z.to_nat 0) with 0%nat. rewrite take_0, app_nil_l.
      rewrite take_app_le, take_ge by (rewrite length_drop; lia). done.
  - assert (Hlen : (length input < 64 - idx)%nat) by (unfold blen in *; lia).
    assert (Hq : ((length m + length input) / 64 = q)%nat)
      by (symmetry; apply Nat.div_unique with (idx + length input)%nat; lia).
    assert (Hi' : ((length m + length input) mod 64 = idx + length input)%nat)
      by (symmetry; apply Nat.mod_unique with q; lia).
    unfold ctx_rep. cbn [ctx_buffer ctx_state ctx_count].
    rewrite blen_app, <- Hcnt, length_app, Hq, Hi', Nat2Z.id, drop_0, absorb_app by lia.
    split; [rewrite length_mem_write; lia|]. split; [done|]. split; [|done].
    unfold mem_write. rewrite drop_app_le, app_assoc, take_app_le, Hr
      by (rewrite ?length_app, ?length_take, ?length_drop; lia).
    rewrite take_ge by (rewrite length_app, length_drop; lia). done.
Qed.

(** A finished context gives the digest of the message it was fed. *)
Lemma QMD5Final_rep c m :
  ctx_rep c m -> blen m < 2 ^ 61 -> fst (QMD5Final c) = Rfc1321.md5 m.
Proof.
  intros Hrep Hlen. unfold QMD5Final, QMD5Pad. cbn [fst].
  destruct (Hrep) as (_ & _ & _ & Hc). rewrite Hc. cbn [fst].
  pose proof (buffer_index (length m)) as Hidx. fold (blen m) in Hidx. rewrite Hidx. clear Hidx.
  assert (Hcnt : Encode_count ((8 * blen m) mod 2 ^ 32, (8 * blen m / 2 ^ 32) mod 2 ^ 32)
                 = le_bytes 8 (8 * blen m)) by apply le_bytes_halves.
  rewrite Hcnt. clear Hcnt.
  set (padLen := if _ <? 56 then _ else _).
  assert (Hpad : Z.to_nat padLen = S (Z.to_nat ((55 - blen m) mod 64))).
  { subst padLen. unfold blen. rewrite Nat2Z.inj_mod. change (Z.of_nat 64) with 64.
    destruct (Z.ltb_spec (Z.of_nat (length m) mod 64) 56); dm_lia. }
  rewrite Hpad. clearbody padLen. clear Hpad padLen.
  pose proof (Z.mod_pos_bound (55 - blen m) 64 eq_refl) as Hz.
  set (z := Z.to_nat ((55 - blen m) mod 64)) in *.
  assert (Htake : take (S z) PADDING = x80 :: replicate z x00).
  { unfold PADDING. cbn [take]. rewrite take_replicate. do 2 f_equal. lia. }
  rewrite Htake.
  pose proof (QMD5Update_rep c m (x80 :: replicate z x00) Hrep) as H1.
  specialize (H1 ltac:(unfold blen; cbn [length]; rewrite length_replicate; lia)).
  apply (QMD5Update_rep _ _ (le_bytes 8 (8 * blen m))) in H1; [|done].
  destruct H1 as (_ & Hs & _ & _). rewrite Hs, absorb_rfc. unfold Rfc1321.md5, Rfc1321.pad. fold z.
  by rewrite <- app_assoc.
Qed.

Lemma md5_of_correct data : blen data < 2 ^ 32 -> md5_of data = Rfc1321.md5 data.
Proof.
  intros H. unfold md5_of. pose proof (blen_nonneg data).
  rewrite u32_small, take_ge by (unfold blen in *; lia).
  apply QMD5Final_rep; [|lia].
  apply (QMD5Update_rep _ [] data); [|done]. by apply QMD5Init_rep.
Qed.

Lemma length_Encode_state st : length (Encode_state st) = 16%nat.
Proof. destruct st as [[[a b] c] d]. unfold Encode_state. by rewrite !length_app, !length_le_bytes. Qed.

Lemma length_md5_of data : length (md5_of data) = 16%nat.
Proof. apply length_Encode_state. Qed.

(** The MD5 test suite of RFC 1321, appendix A.5. *)
Example md5_rfc1321_vectors :
  (fun s => String.string_of_list_byte (qhashmd5_bin_to_hex (md5_of s))) <$>
    [str ""; str "a"; str "abc"; str "message digest"; str "abcdefghijklmnopqrstuvwxyz";
     str "12345678901234567890123456789012345678901234567890123456789012345678901234567890"]
  = ["d41d8cd98f00b204e9800998ecf8427e"; "0cc175b9c0f1b6a831c399e269772661";
     "900150983cd24fb0d6963f7d28e17f72"; "f96b697d7cb7938d525a2f31aaf161d0";
     "c3fcd3d76192e4007dfb496cca67e13b"; "57edf4a22be3c955ac49da2e2107b67a"]%string.
Proof. vm_compute. reflexivity. Qed.

Lemma updates_rep c m chunks :
  ctx_rep c m -> Forall (fun x => blen x < 2 ^ 32) chunks -> ctx_rep (foldl QMD5Update c chunks) (m ++ concat chunks).
Proof.
  intros Hrep Hall. revert c m Hrep. induction Hall as [|x chunks Hx Hall IH]; intros c m Hrep; simpl.
  - by rewrite app_nil_r.
  - rewrite app_assoc. apply IH. by apply QMD5Update_rep.
Qed.



Opaque md5_of.

End Md5.
