(* ===== verification/Murmur.v ===== *)
(** * The 32-bit key hash ([qhashmurmur3_32] of [src/base/qlibc/qhash.c])

    The hash is a port of MurmurHash3 (x86, 32 bit, seed 0). The file states the published algorithm
    over the bytes of the key and compares the port with it. *)

From S2P Require Import Prelude.

Module Murmur.

Definition c1 : Z := 0xcc9e2d51.
Definition c2 : Z := 0x1b873593.

(** [(x << a) | (x >> b)] on a [uint32_t]: a rotation when [a + b = 32]. *)
Definition shift_or (x a b : Z) : Z := Z.lor (u32 (Z.shiftl x a)) (Z.shiftr x b).

(** The loop over the 32-bit blocks, [i] counting up to [nblocks]. *)
Fixpoint hash_blocks (n : nat) (i : nat) (data : bytes) (h : Z) : Z :=
  match n with
  | O => h
  | S n' =>
      let k := le_num (sub_bytes (4 * i) 4 data) in
      let k := u32 (k * c1) in
      let k := shift_or k 15 (32 - 15) in
      let k := u32 (k * c2) in
      let h := Z.lxor h k in
      let h := shift_or h 13 (32 - 13) in
      let h := u32 (u32 (h * 5) + 0xe6546b64) in
      hash_blocks n' (S i) data h
  end.

Definition tail_byte (tail : bytes) (i : nat) : Z := b2z (nth i tail x00).

(** The [switch] on [nbytes & 3], cases 3 to 1 falling through. *)
Definition hash_tail (rest : Z) (tail : bytes) (h : Z) : Z :=
  let k := 0 in
  let k := if rest =? 3 then Z.lxor k (Z.shiftl (tail_byte tail 2) 16) else k in
  let k := if 2 <=? rest then Z.lxor k (Z.shiftl (tail_byte tail 1) 8) else k in
  if 1 <=? rest then
    let k := Z.lxor k (tail_byte tail 0) in
    let k := u32 (k * c1) in
    let k := shift_or k 13 (32 - 15) in
    let k := u32 (k * c2) in
    Z.lxor h k
  else h.

(** The length is folded in and the bits are mixed. *)
Definition hash_final (nbytes h : Z) : Z :=
  let h := u32 (Z.lxor h nbytes) in
  let h := Z.lxor h (Z.shiftr h 16) in
  let h := u32 (h * 0x85ebca6b) in
  let h := Z.lxor h (Z.shiftr h 13) in
  let h := u32 (h * 0xc2b2ae35) in
  Z.lxor h (Z.shiftr h 16).

Definition qhashmurmur3_32 (data : option bytes) : Z :=
  match data with
  | None => 0
  | Some d =>
      let nbytes := blen d in
      if nbytes =? 0 then 0 else
      let nblocks := Z.to_nat (nbytes / 4) in
      let tail := drop (nblocks * 4) d in
      let h := hash_blocks nblocks 0 d 0 in
      let h := hash_tail (Z.land nbytes 3) tail h in
      hash_final nbytes h
  end.

(** ** The published algorithm, over the byte list *)

Definition rotl32 (x r : Z) : Z := Z.lor (u32 (Z.shiftl x r)) (Z.shiftr x (32 - r)).
Definition mix_k (k : Z) : Z := u32 (rotl32 (u32 (k * c1)) 15 * c2).
Definition mix_h (h k : Z) : Z := u32 (u32 (rotl32 (Z.lxor h k) 13 * 5) + 0xe6546b64).

Fixpoint murmur3_body (data : bytes) (h : Z) : Z :=
  match data with
  | b0 :: b1 :: b2 :: b3 :: rest => murmur3_body rest (mix_h h (mix_k (le_num [b0; b1; b2; b3])))
  | [] => h
  | tail => Z.lxor h (mix_k (le_num tail))
  end.

Definition murmur3_x86_32 (data : bytes) : Z := hash_final (blen data) (murmur3_body data 0).

(** ** Proofs *)

Lemma hash_blocks_shift n i a b h :
  length a = (4 * i)%nat -> hash_blocks n i (a ++ b) h = hash_blocks n 0 b h.
Proof.
  enough (H : forall j k, length a = (4 * k)%nat ->
            hash_blocks n (k + j) (a ++ b) h = hash_blocks n j b h).
  { intros. rewrite <- (H 0%nat i) by done. by rewrite Nat.add_0_r. }
  clear i. intros j k Ha. revert j h. induction n as [|n IH]; intros j h; [done|].
  cbn [hash_blocks]. rewrite sub_bytes_app_r by lia.
  replace (4 * (k + j) - length a)%nat with (4 * j)%nat by lia.
  replace (S (k + j)) with (k + S j)%nat by lia. apply IH.
Qed.

Lemma hash_blocks_whole n data h :
  length data = (4 * n)%nat -> hash_blocks n 0 data h = murmur3_body data h.
Proof.
  revert data h. induction n as [|n IH]; intros data h Hl.
  - by destruct data.
  - destruct data as [|b0 [|b1 [|b2 [|b3 data]]]]; simpl in Hl; try lia.
    cbn [hash_blocks murmur3_body].
    rewrite (hash_blocks_shift n 1 [b0; b1; b2; b3] data) by done.
    rewrite IH by lia. done.
Qed.

Lemma lxor_range n a b : 0 <= n -> 0 <= a < 2 ^ n -> 0 <= b < 2 ^ n -> 0 <= Z.lxor a b < 2 ^ n.
Proof.
  intros Hn Ha Hb. rewrite <- (Z.mod_small a (2 ^ n)), <- (Z.mod_small b (2 ^ n)) by done.
  rewrite <- !Z.land_ones by done.
  assert (E : Z.lxor (Z.land a (Z.ones n)) (Z.land b (Z.ones n)) = Z.land (Z.lxor a b) (Z.ones n)).
  { apply Z.bits_inj'. intros i Hi. rewrite !Z.land_spec, !Z.lxor_spec, !Z.land_spec.
    by destruct (Z.testbit a i), (Z.testbit b i), (Z.testbit (Z.ones n) i). }
  rewrite E, Z.land_ones by done. apply Z.mod_pos_bound. lia.
Qed.

Lemma hash_final_range n h : 0 <= hash_final n h < 2 ^ 32.
Proof.
  unfold hash_final. apply lxor_range; [lia|apply u32_range|].
  rewrite Z.shiftr_div_pow2 by lia. set (x := u32 _).
  pose proof (u32_range x) as Hx. assert (0 <= x < 2 ^ 32) by apply u32_range. dm_lia.
Qed.

Lemma murmur_range data : 0 <= qhashmurmur3_32 data < 2 ^ 32.
Proof.
  unfold qhashmurmur3_32. destruct data as [d|]; [|lia].
  case_test; [lia|]. apply hash_final_range.
Qed.

Lemma murmur_whole_blocks data n :
  length data = (4 * n)%nat -> qhashmurmur3_32 (Some data) = murmur3_x86_32 data.
Proof.
  intros Hl. unfold qhashmurmur3_32, murmur3_x86_32. unfold blen. rewrite Hl.
  case_test.
  - destruct n; [|lia]. destruct data; [done|simpl in *; lia].
  - replace (Z.to_nat (Z.of_nat (4 * n) / 4)) with n by dm_lia.
    change 3 with (Z.ones 2). rewrite Z.land_ones by lia. change (2 ^ 2) with 4.
    replace (Z.of_nat (4 * n) mod 4) with 0 by dm_lia. unfold hash_tail. simpl.
    by rewrite hash_blocks_whole.
Qed.

(** On a key whose length is a multiple of four bytes the hash is MurmurHash3 (x86, 32 bit, seed 0) as
    published, and it always is an unsigned 32-bit number; on other lengths the tail is mixed with a
    shift by 13 and 17 bits where the published algorithm rotates by 15, and the results differ, as for
    the one-byte key "a". *)
Theorem murmur_port data :
  (length data mod 4 = 0)%nat ->
  qhashmurmur3_32 (Some data) = murmur3_x86_32 data /\ 0 <= qhashmurmur3_32 (Some data) < 2 ^ 32 /\
  qhashmurmur3_32 (Some (str "a")) <> murmur3_x86_32 (str "a").
Proof.
  intros Hm. split; [|split; [apply murmur_range|vm_compute; discriminate]].
  apply (murmur_whole_blocks data (length data / 4)). pose proof (Nat.div_mod_eq (length data) 4). lia.
Qed.

Lemma murmur_port_witness : qhashmurmur3_32 (Some (str "/demo/ab")) = murmur3_x86_32 (str "/demo/ab").
Proof. apply (murmur_port (str "/demo/ab")). reflexivity. Defined.

End Murmur.
