(* ===== verification/HashArr.v ===== *)
(** * The shared-memory hash table ([src/base/qlibc/qhasharr.c], types of [qlibc.h])

    A fixed array of slots in one block of memory. Keys hash to a leading slot; further keys of the
    same bucket live in other slots with [count = -1]; values longer than one slot continue in slots
    with [count = -2], linked through [link] with the predecessor's index in [hash].

    The slots are modelled at their C layout: the integer fields at their width, and the union of
    the key/value pair and the extension block as its 146 bytes. An access outside the array, or
    through a NULL table, is undefined behaviour ([None] of the monad). *)

From S2P Require Import Prelude Common Md5 Murmur.

Module HashArr.

(** ** Layout *)

Definition Q_HASHARR_KEYSIZE : nat := 32.
Definition Q_HASHARR_VALUESIZE : nat := 96.

(** Offsets in [struct _Q_HASHARR_SLOT_KEYVAL], and [sizeof (union _slot_data)],
    [sizeof (qhasharr_slot_t)] and [sizeof (qhasharr_t)]. *)
Definition OFF_VALUE : nat := 0.
Definition OFF_KEY : nat := 96.
Definition OFF_KEYLEN : nat := 128.
Definition OFF_KEYMD5 : nat := 130.
Definition SLOT_DATA_SIZE : nat := 146.
Definition SIZEOF_SLOT : Z := 164.
Definition SIZEOF_TBL : Z := 12.

Record qhasharr_slot := Slot {
  sl_count : Z;   (* short *)
  sl_hash : Z;    (* uint32_t *)
  sl_size : Z;    (* uint8_t *)
  sl_link : Z;    (* int *)
  sl_data : bytes (* union _slot_data *)
}.

Record qhasharr_t := Tbl {
  maxslots : Z;
  usedslots : Z;
  num : Z;
  slots : list qhasharr_slot
}.

Definition zero_data : bytes := replicate SLOT_DATA_SIZE x00.
Definition zero_slot : qhasharr_slot := Slot 0 0 0 0 zero_data.

(** The views of the union. *)
Definition pair_value (d : bytes) : bytes := sub_bytes OFF_VALUE Q_HASHARR_VALUESIZE d.
Definition pair_key (d : bytes) : bytes := sub_bytes OFF_KEY Q_HASHARR_KEYSIZE d.
Definition pair_keylen (d : bytes) : Z := le_num (sub_bytes OFF_KEYLEN 2 d).
Definition pair_keymd5 (d : bytes) : bytes := sub_bytes OFF_KEYMD5 16 d.

Definition set_count (c : Z) (s : qhasharr_slot) := Slot c (sl_hash s) (sl_size s) (sl_link s) (sl_data s).
Definition set_hash (h : Z) (s : qhasharr_slot) := Slot (sl_count s) h (sl_size s) (sl_link s) (sl_data s).
Definition set_size (n : Z) (s : qhasharr_slot) := Slot (sl_count s) (sl_hash s) n (sl_link s) (sl_data s).
Definition set_link (l : Z) (s : qhasharr_slot) := Slot (sl_count s) (sl_hash s) (sl_size s) l (sl_data s).
Definition set_data (d : bytes) (s : qhasharr_slot) := Slot (sl_count s) (sl_hash s) (sl_size s) (sl_link s) d.

(** ** The digests of a key the table relies on *)

Class KeyDigest := {
  key_hash : bytes -> Z;
  key_md5 : bytes -> bytes;
  key_hash_range : forall k, 0 <= key_hash k < 2 ^ 32;
  key_md5_length : forall k, length (key_md5 k) = 16%nat
}.

#[export] Instance qlibc_digest : KeyDigest := {|
  key_hash k := Murmur.qhashmurmur3_32 (Some k);
  key_md5 := Md5.md5_of;
  key_hash_range k := Murmur.murmur_range (Some k);
  key_md5_length := Md5.length_md5_of
|}.

(** ** The machine state: [errno] and the table the pointer argument points to *)

Record hstate := HS { h_errno : Z; h_tbl : option qhasharr_t }.

Abbreviation HM := (SM hstate).

Definition tbl_null : HM bool := gets (fun st => match h_tbl st with None => true | Some _ => false end).
Definition the_tbl : HM qhasharr_t :=
  fun st => match h_tbl st with Some t => Some (t, st) | None => None end.
Definition set_tbl (t : qhasharr_t) : HM unit := modify (fun st => HS (h_errno st) (Some t)).
Definition set_errno (e : Z) : HM unit := modify (fun st => HS e (h_tbl st)).
Definition get_maxslots : HM Z := t ← the_tbl; mret (maxslots t).
Definition get_usedslots : HM Z := t ← the_tbl; mret (usedslots t).

Definition slot_at (t : qhasharr_t) (i : Z) : option qhasharr_slot :=
  if decide (0 <= i) then slots t !! Z.to_nat i else None.

Definition upd (t : qhasharr_t) (i : Z) (s : qhasharr_slot) : qhasharr_t :=
  Tbl (maxslots t) (usedslots t) (num t) (<[Z.to_nat i := s]> (slots t)).

Definition read_slot (i : Z) : HM qhasharr_slot :=
  t ← the_tbl; match slot_at t i with Some s => mret s | None => undefined end.

Definition write_slot (i : Z) (f : qhasharr_slot -> qhasharr_slot) : HM unit :=
  t ← the_tbl;
  match slot_at t i with Some s => set_tbl (upd t i (f s)) | None => undefined end.

Definition add_used (d : Z) : HM unit :=
  t ← the_tbl; set_tbl (Tbl (maxslots t) (i32 (usedslots t + d)) (num t) (slots t)).
Definition add_num (d : Z) : HM unit :=
  t ← the_tbl; set_tbl (Tbl (maxslots t) (usedslots t) (i32 (num t + d)) (slots t)).

Definition fail_with {A} (e : Z) (a : A) : HM A := set_errno e;; mret a.

(** ** Creation *)

Definition qhasharr_calculate_memsize (max : Z) : Z := u64 (SIZEOF_TBL + u64 (SIZEOF_SLOT * max)).

(** [qhasharr]: the block is zeroed and cut into slots; [memory_null] is a NULL block. The result
    is the table, [None] for NULL. *)
Definition qhasharr (memory_null : bool) (memsize : Z) (errno : Z) : option qhasharr_t * Z :=
  if memory_null then (None, errno) else
  let maxslots := i32 (u64 (memsize - SIZEOF_TBL) / SIZEOF_SLOT) in
  if (maxslots <? 1) || (memsize <=? SIZEOF_TBL) then (None, EINVAL)
  else (Some (Tbl maxslots 0 0 (replicate (Z.to_nat maxslots) zero_slot)), errno).

(** ** Internal operations *)

Fixpoint find_empty_loop (fuel : nat) (startidx idx : Z) : HM Z :=
  match fuel with
  | O => undefined
  | S fuel' =>
      s ← read_slot idx;
      if sl_count s =? 0 then mret idx else
      max ← get_maxslots;
      let idx := idx + 1 in
      let idx := if max <=? idx then 0 else idx in
      if idx =? startidx then mret (-1) else find_empty_loop fuel' startidx idx
  end.

Definition find_empty (startidx : Z) : HM Z :=
  max ← get_maxslots;
  if max <=? 0 then mret (-1) else
  let startidx := if max <=? startidx then 0 else startidx in
  find_empty_loop (Z.to_nat max) startidx startidx.

Definition remove_slot (idx : Z) : HM bool :=
  s ← read_slot idx;
  if sl_count s =? 0 then fail_with EFAULT false else
  write_slot idx (set_count 0);;
  add_used (-1);;
  mret true.

Definition copy_slot (idx1 idx2 : Z) : HM bool :=
  s1 ← read_slot idx1;
  if negb (sl_count s1 =? 0) then fail_with EFAULT false else
  s2 ← read_slot idx2;
  if sl_count s2 =? 0 then fail_with EFAULT false else
  write_slot idx1 (fun _ => s2);;
  add_used 1;;
  mret true.

Fixpoint remove_chain (fuel : nat) (idx loop_count : Z) : HM unit :=
  match fuel with
  | O => undefined
  | S fuel' =>
      s ← read_slot idx;
      let link := sl_link s in
      remove_slot idx;;
      if link =? -1 then mret tt else
      max ← get_maxslots;
      let loop_count := loop_count + 1 in
      if max <? loop_count then mret tt else remove_chain fuel' link loop_count
  end.

Definition remove_data (idx : Z) : HM bool :=
  s ← read_slot idx;
  if sl_count s =? 0 then fail_with EFAULT false else
  max ← get_maxslots;
  remove_chain (S (S (Z.to_nat max))) idx 0;;
  add_num (-1);;
  mret true.

(** The first loop of [_get_data] adds the sizes along the chain; [None] is its [return NULL]. *)
Fixpoint data_size (fuel : nat) (newidx valsize loop_count : Z) : HM (option Z) :=
  match fuel with
  | O => undefined
  | S fuel' =>
      if newidx =? -1 then mret (Some valsize) else
      s ← read_slot newidx;
      let valsize := u64 (valsize + sl_size s) in
      if sl_link s =? -1 then mret (Some valsize) else
      max ← get_maxslots;
      let loop_count := loop_count + 1 in
      if max <? loop_count then mret None else data_size fuel' (sl_link s) valsize loop_count
  end.

(** The bytes a slot contributes: [data.ext.value] or [data.pair.value], [vsize] of them. *)
Definition slot_bytes (s : qhasharr_slot) (vsize : Z) : HM bytes :=
  if sl_count s =? -2
  then if vsize <=? Z.of_nat SLOT_DATA_SIZE then mret (take (Z.to_nat vsize) (sl_data s)) else undefined
  else if vsize <=? Z.of_nat Q_HASHARR_VALUESIZE then mret (take (Z.to_nat vsize) (pair_value (sl_data s)))
       else undefined.

(** [memcpy(vp, ...)] into an allocated block; writing outside of the block is undefined. *)
Definition mem_store {St} (vp : Z) (chunk block : bytes) : SM St bytes :=
  if (0 <=? vp) && (vp + blen chunk <=? blen block) then mret (mem_write (Z.to_nat vp) chunk block) else undefined.

(** The second loop copies the blocks to [value] at offset [vp]. *)
Fixpoint copy_data (fuel : nat) (newidx vp valsize loop_count : Z) (value : bytes) : HM (option bytes) :=
  match fuel with
  | O => undefined
  | S fuel' =>
      if (vp <? valsize) && negb (newidx =? -1) then
        s ← read_slot newidx;
        let vsize := sl_size s in
        if valsize <? vp + vsize then mret None else
        chunk ← slot_bytes s vsize;
        value ← mem_store vp chunk value;
        let vp := vp + vsize in
        if sl_link s =? -1 then mret (Some value) else
        max ← get_maxslots;
        let loop_count := loop_count + 1 in
        if max <? loop_count then mret None else copy_data fuel' (sl_link s) vp valsize loop_count value
      else mret (Some value)
  end.

Section WithDigest.
Context `{KeyDigest}.

(** The key comparison of [_get_idx]. *)
Definition same_key (key : bytes) (s : qhasharr_slot) : bool :=
  (blen key =? pair_keylen (sl_data s)) &&
  if (length key <=? Q_HASHARR_KEYSIZE)%nat
  then bool_decide (key = take (length key) (pair_key (sl_data s)))
  else bool_decide (take Q_HASHARR_KEYSIZE key = pair_key (sl_data s)) &&
       bool_decide (key_md5 key = pair_keymd5 (sl_data s)).

Fixpoint get_idx_loop (fuel : nat) (key : bytes) (hash count idx : Z) : HM Z :=
  match fuel with
  | O => undefined
  | S fuel' =>
      lead ← read_slot hash;
      if count <? sl_count lead then
        s ← read_slot idx;
        let same_hash := (sl_hash s =? hash) && ((0 <? sl_count s) || (sl_count s =? -1)) in
        let count := if same_hash then count + 1 else count in
        if same_hash && same_key key s then mret idx else
        max ← get_maxslots;
        let idx := idx + 1 in
        let idx := if max <=? idx then 0 else idx in
        if idx =? hash then mret (-1) else get_idx_loop fuel' key hash count idx
      else mret (-1)
  end.

Definition get_idx (key : option bytes) (hash : Z) : HM Z :=
  null ← tbl_null;
  match null, key with
  | false, Some key =>
      lead ← read_slot hash;
      if 0 <? sl_count lead then
        max ← get_maxslots;
        get_idx_loop (S (Z.to_nat max)) key hash 0 hash
      else mret (-1)
  | _, _ => mret (-1)
  end.

(** [_get_data]; [malloc_ok n] says whether an allocation of [n] bytes succeeds. *)
Definition get_data (malloc_ok : Z -> bool) (idx : Z) : HM (option bytes) :=
  if idx <? 0 then fail_with ENOENT None else
  max ← get_maxslots;
  let fuel := S (S (Z.to_nat max)) in
  vs ← data_size fuel idx 0 0;
  match vs with
  | None => mret None
  | Some valsize =>
      if malloc_ok valsize
      then copy_data fuel idx 0 valsize 0 (replicate (Z.to_nat valsize) x00)
      else fail_with ENOMEM None
  end.

(** The value loop of [_put_data]; [value] is the whole value, [savesize] what is stored. *)
Fixpoint put_value (fuel : nat) (idx newidx savesize : Z) (value : bytes) : HM bool :=
  match fuel with
  | O => undefined
  | S fuel' =>
      if savesize <? blen value then
        next ← (if 0 <? savesize then
                  tmpidx ← find_empty (newidx + 1);
                  if tmpidx <? 0 then mret None else
                  write_slot tmpidx (fun _ => Slot (-2) (u32 newidx) 0 (-1) zero_data);;
                  write_slot newidx (set_link tmpidx);;
                  mret (Some tmpidx)
                else mret (Some newidx));
        match next with
        | None => remove_data idx;; fail_with ENOBUFS false
        | Some newidx =>
            s ← read_slot newidx;
            let copysize := blen value - savesize in
            let ext := sl_count s =? -2 in
            let room := if ext then Z.of_nat SLOT_DATA_SIZE else Z.of_nat Q_HASHARR_VALUESIZE in
            let copysize := if room <? copysize then room else copysize in
            let chunk := take (Z.to_nat copysize) (drop (Z.to_nat savesize) value) in
            write_slot newidx (fun s => set_data (mem_write OFF_VALUE chunk (sl_data s)) s);;
            (if ext then mret tt else add_num 1);;
            write_slot newidx (set_size (u8 copysize));;
            add_used 1;;
            put_value fuel' idx newidx (savesize + copysize) value
        end
      else mret true
  end.

Definition store_key (key : bytes) (d : bytes) : bytes :=
  let d := mem_write OFF_KEY (take (min (length key) Q_HASHARR_KEYSIZE) key) d in
  let d := mem_write OFF_KEYMD5 (key_md5 key) d in
  mem_write OFF_KEYLEN (le_bytes 2 (blen key)) d.

Definition put_data (idx hash : Z) (key value : bytes) (count : Z) : HM bool :=
  s ← read_slot idx;
  if negb (sl_count s =? 0) then fail_with EFAULT false else
  write_slot idx (fun s => Slot count hash (sl_size s) (-1) (store_key key (sl_data s)));;
  put_value (S (length value)) idx idx 0 value.

(** ** Public operations *)

Definition bucket_of (key : bytes) (max : Z) : Z := u32 (key_hash key) mod max.

Definition qhasharr_exist (key : option bytes) : HM bool :=
  null ← tbl_null;
  match null, key with
  | false, Some k =>
      max ← get_maxslots;
      if max =? 0 then mret false else
      idx ← get_idx (Some k) (bucket_of k max);
      mret (0 <=? idx)
  | _, _ => fail_with EINVAL false
  end.

(** The scan of [qhasharr_remove] for another key of the bucket; [None] is its [EFAULT] exit. *)
Fixpoint find_dup (fuel : nat) (hash idx idx2 : Z) : HM (option Z) :=
  match fuel with
  | O => undefined
  | S fuel' =>
      max ← get_maxslots;
      let idx2 := if max <=? idx2 then 0 else idx2 in
      if idx2 =? idx then fail_with EFAULT None else
      s ← read_slot idx2;
      if (sl_count s =? -1) && (sl_hash s =? hash) then mret (Some idx2)
      else find_dup fuel' hash idx (idx2 + 1)
  end.

(** The first block a moved slot links to gets the new predecessor. *)
Definition relink_child (idx : Z) : HM unit :=
  s ← read_slot idx;
  if sl_link s =? -1 then mret tt else write_slot (sl_link s) (set_hash (u32 idx)).

Definition qhasharr_remove (key : option bytes) : HM bool :=
  null ← tbl_null;
  match null, key with
  | false, Some k =>
      max ← get_maxslots;
      if max =? 0 then mret false else
      let hash := bucket_of k max in
      idx ← get_idx (Some k) hash;
      if idx <? 0 then fail_with ENOENT false else
      s ← read_slot idx;
      if sl_count s =? 1 then
        remove_data idx;; mret true
      else if 1 <? sl_count s then
        dup ← find_dup (S (S (Z.to_nat max))) hash idx (idx + 1);
        match dup with
        | None => mret false
        | Some idx2 =>
            s ← read_slot idx;
            let backupcount := sl_count s in
            remove_data idx;;
            copy_slot idx idx2;;
            remove_slot idx2;;
            write_slot idx (set_count (i16 (backupcount - 1)));;
            relink_child idx;;
            mret true
        end
      else if sl_count s =? -1 then
        lead ← read_slot (sl_hash s);
        if sl_count lead <=? 1 then fail_with EFAULT false else
        write_slot (sl_hash s) (fun l => set_count (i16 (sl_count l - 1)) l);;
        remove_data idx;;
        mret true
      else fail_with ENOENT false
  | _, _ => fail_with EINVAL false
  end.

(** [qhasharr_put] calls itself after removing the old value of the key; [fuel] bounds the calls. *)
Fixpoint put_rec (fuel : nat) (key value : option bytes) : HM bool :=
  match fuel with
  | O => undefined
  | S fuel' =>
      null ← tbl_null;
      match null, key, value with
      | false, Some k, Some v =>
          max ← get_maxslots;
          if max =? 0 then mret false else
          used ← get_usedslots;
          if max <=? used then fail_with ENOBUFS false else
          let hash := bucket_of k max in
          s ← read_slot hash;
          if sl_count s =? 0 then put_data hash hash k v 1
          else if 0 <? sl_count s then
            idx ← get_idx (Some k) hash;
            if 0 <=? idx then
              removed ← qhasharr_remove (Some k);
              if (removed : bool) then put_rec fuel' (Some k) (Some v) else mret false
            else
              idx ← find_empty hash;
              if idx <? 0 then fail_with ENOBUFS false else
              stored ← put_data idx hash k v (-1);
              if (stored : bool)
              then write_slot hash (fun l => set_count (i16 (sl_count l + 1)) l);; mret true
              else mret false
          else
            idx ← find_empty (hash + 1);
            if idx <? 0 then fail_with ENOBUFS false else
            copy_slot idx hash;;
            remove_slot hash;;
            s ← read_slot idx;
            (if sl_count s =? -2 then
               write_slot (sl_hash s) (set_link (i32 idx));; relink_child idx
             else if sl_count s =? -1 then relink_child idx
             else mret tt);;
            put_data hash hash k v 1
      | _, _, _ => fail_with EINVAL false
      end
  end.

Definition qhasharr_put (key value : option bytes) : HM bool := put_rec 2 key value.

Definition qhasharr_get (malloc_ok : Z -> bool) (key : option bytes) : HM (option bytes) :=
  null ← tbl_null;
  match null, key with
  | false, Some k =>
      max ← get_maxslots;
      if max =? 0 then mret None else
      idx ← get_idx (Some k) (bucket_of k max);
      if idx <? 0 then fail_with ENOENT None else
      get_data malloc_ok idx
  | _, _ => fail_with EINVAL None
  end.

End WithDigest.

(** [qhasharr_getnext]: the next key (cut to 32 bytes) and its value, and the new [*idx]; [None] for
    [false]. The two NULL out-parameters are not modelled: every caller passes locals. *)
Fixpoint getnext_loop (fuel : nat) (malloc_ok : Z -> bool) (idx : Z) : HM (option (bytes * bytes) * Z) :=
  match fuel with
  | O => undefined
  | S fuel' =>
      max ← get_maxslots;
      if idx <? max then
        s ← read_slot idx;
        if (sl_count s =? 0) || (sl_count s =? -2) then getnext_loop fuel' malloc_ok (idx + 1) else
        let keylen := pair_keylen (sl_data s) in
        let keylen := if Z.of_nat Q_HASHARR_KEYSIZE <? keylen then Z.of_nat Q_HASHARR_KEYSIZE else keylen in
        if negb (malloc_ok keylen) then fail_with ENOMEM (None, idx) else
        let name := take (Z.to_nat keylen) (pair_key (sl_data s)) in
        data ← get_data malloc_ok idx;
        match data with
        | None => fail_with ENOMEM (None, idx)
        | Some data => mret (Some (name, data), idx + 1)
        end
      else fail_with ENOENT (None, idx)
  end.

Definition qhasharr_getnext (malloc_ok : Z -> bool) (idx : Z) : HM (option (bytes * bytes) * Z) :=
  null ← tbl_null;
  if null : bool then fail_with EINVAL (None, idx) else
  max ← get_maxslots;
  getnext_loop (S (Z.to_nat max)) malloc_ok idx.

(** [qhasharr_size]: the number of keys, [*maxslots] and [*usedslots]. *)
Definition qhasharr_size : HM (Z * Z * Z) :=
  null ← tbl_null;
  if null : bool then mret (0, 0, 0) else
  t ← the_tbl; mret (num t, maxslots t, usedslots t).

Definition qhasharr_clear : HM unit :=
  null ← tbl_null;
  if null : bool then mret tt else
  t ← the_tbl;
  if usedslots t =? 0 then mret tt else
  set_tbl (Tbl (maxslots t) 0 0 (replicate (Z.to_nat (maxslots t)) zero_slot)).

End HashArr.
