(* ===== verification/HashArrSeg.v ===== *)
(** * The slot array as a set of linked value chains

    Structural facts about an array of slots, independent of the operations: reading and writing a
    slot, the cyclic scan order of the table's loops, and the chain of slots that holds one value
    (doubly linked through [sl_link] and the predecessor in [sl_hash]). Chains of different keys are
    disjoint and a chain never repeats a slot, because every extension block names its predecessor. *)

From S2P Require Import Prelude Common HashArr.
Import HashArr.

(** ** Reading and writing the array at an integer index *)

Definition sat (l : list qhasharr_slot) (i : Z) : option qhasharr_slot :=
  if decide (0 <= i) then l !! Z.to_nat i else None.

Definition lupd (l : list qhasharr_slot) (i : Z) (s : qhasharr_slot) : list qhasharr_slot :=
  <[Z.to_nat i := s]> l.

Lemma sat_range l i s : sat l i = Some s -> 0 <= i < blen l.
Proof.
  unfold sat, blen. case_decide; [|done]. intros Hl%lookup_lt_Some. lia.
Qed.

Lemma sat_is_Some l i : 0 <= i < blen l -> exists s, sat l i = Some s.
Proof.
  intros. unfold sat, blen in *. rewrite decide_True by lia. apply lookup_lt_is_Some. lia.
Qed.

Lemma sat_neg l i : i < 0 -> sat l i = None.
Proof. intros. unfold sat. by rewrite decide_False by lia. Qed.

Lemma sat_nat l (i : nat) : sat l (Z.of_nat i) = l !! i.
Proof. unfold sat. by rewrite decide_True, Nat2Z.id by lia. Qed.

Lemma blen_lupd l i s : blen (lupd l i s) = blen l.
Proof. unfold blen, lupd. by rewrite length_insert. Qed.

Lemma sat_lupd l i j s s0 :
  sat l i = Some s0 -> sat (lupd l i s) j = if decide (j = i) then Some s else sat l j.
Proof.
  intros Hi. pose proof (sat_range _ _ _ Hi). unfold sat, lupd in *.
  repeat case_decide; subst; try lia; try done.
  - rewrite list_lookup_insert_eq; [done|]. unfold blen in *. lia.
  - rewrite list_lookup_insert_ne; [done|]. lia.
Qed.

Lemma sat_lupd_eq l i s s0 : sat l i = Some s0 -> sat (lupd l i s) i = Some s.
Proof. intros. rewrite (sat_lupd _ _ _ _ s0) by done. by rewrite decide_True. Qed.

Lemma sat_lupd_ne l i j s : i <> j -> 0 <= i -> sat (lupd l i s) j = sat l j.
Proof.
  intros. unfold sat, lupd. case_decide; [|done]. apply list_lookup_insert_ne. lia.
Qed.

Lemma countb_lupd P l i s0 s :
  sat l i = Some s0 -> countb P (lupd l i s) = countb P l - b2n (P s0) + b2n (P s).
Proof. unfold sat. case_decide; [|done]. intros. by apply countb_insert. Qed.

Lemma countb_sat_pos P l : 0 < countb P l <-> exists i s, sat l i = Some s /\ P s = true.
Proof.
  rewrite countb_pos. split.
  - intros (i & s & ? & ?). exists (Z.of_nat i), s. by rewrite sat_nat.
  - intros (i & s & Hs & ?). exists (Z.to_nat i), s. unfold sat in Hs. by case_decide.
Qed.

Lemma countb_sat_zero P l : countb P l = 0 <-> forall i s, sat l i = Some s -> P s = false.
Proof.
  rewrite countb_zero. split.
  - intros Hz i s Hs. unfold sat in Hs. case_decide; [|done]. eauto.
  - intros Hz i s Hs. apply (Hz (Z.of_nat i)). by rewrite sat_nat.
Qed.

(** ** The cyclic scan: the slot [k] steps after [h] *)

Definition cyc (M h k : Z) : Z := if M <=? h + k then h + k - M else h + k.

(** One step of the scan as the loops write it: increment and wrap to zero. *)
Definition cyc_next (M i : Z) : Z := if M <=? i + 1 then 0 else i + 1.

Lemma cyc_0 M h : 0 <= h < M -> cyc M h 0 = h.
Proof. intros. unfold cyc. case_test; lia. Qed.

Lemma cyc_range M h k : 0 <= h < M -> 0 <= k < M -> 0 <= cyc M h k < M.
Proof. intros. unfold cyc. case_test; lia. Qed.

Lemma cyc_step M h k :
  0 <= h < M -> 0 <= k < M ->
  cyc_next M (cyc M h k) = (if k + 1 =? M then h else cyc M h (k + 1)) /\
  (cyc_next M (cyc M h k) = h <-> k + 1 = M).
Proof.
  intros. unfold cyc_next, cyc.
  destruct (Z.leb_spec M (h + k)), (Z.leb_spec M (h + (k + 1))); repeat case_test; lia.
Qed.

Lemma cyc_onto M h i : 0 <= h < M -> 0 <= i < M -> exists k, 0 <= k < M /\ cyc M h k = i.
Proof.
  intros. destruct (Z.le_gt_cases h i).
  - exists (i - h). unfold cyc. case_test; lia.
  - exists (i - h + M). unfold cyc. case_test; lia.
Qed.

(** How many of the first [k] scanned slots satisfy a test. *)
Definition scanned (P : qhasharr_slot -> bool) (l : list qhasharr_slot) (h k : Z) : Z :=
  countb P (take (Z.to_nat k) (drop (Z.to_nat h) l ++ take (Z.to_nat h) l)).

Lemma countb_app {A} (P : A -> bool) l k : countb P (l ++ k) = countb P l + countb P k.
Proof. induction l as [|x l IH]; [done|]. cbn [app]. rewrite !countb_cons. lia. Qed.

Lemma scanned_0 P l h : scanned P l h 0 = 0.
Proof. done. Qed.

Lemma rot_lookup l h k s :
  0 <= h < blen l -> 0 <= k < blen l -> sat l (cyc (blen l) h k) = Some s ->
  (drop (Z.to_nat h) l ++ take (Z.to_nat h) l) !! Z.to_nat k = Some s.
Proof.
  unfold blen. intros Hh Hk Hs. unfold sat, cyc in Hs. case_decide; [|done].
  rewrite lookup_app. destruct (Z.leb_spec (Z.of_nat (length l)) (h + k)).
  - rewrite (lookup_ge_None_2 (drop _ _)), length_drop by (rewrite length_drop; lia).
    rewrite lookup_take_lt by lia. rewrite <- Hs. f_equal. lia.
  - rewrite lookup_drop. replace (Z.to_nat h + Z.to_nat k)%nat with (Z.to_nat (h + k)) by lia.
    by rewrite Hs.
Qed.

Lemma scanned_S P l h k s :
  0 <= h < blen l -> 0 <= k < blen l -> sat l (cyc (blen l) h k) = Some s ->
  scanned P l h (k + 1) = scanned P l h k + b2n (P s).
Proof.
  intros Hh Hk Hs. unfold scanned. replace (Z.to_nat (k + 1)) with (S (Z.to_nat k)) by lia.
  erewrite take_S_r by (by apply rot_lookup).
  rewrite countb_app, countb_cons. change (countb P []) with 0. lia.
Qed.

Lemma scanned_all P l h : 0 <= h < blen l -> scanned P l h (blen l) = countb P l.
Proof.
  intros Hh. unfold scanned. rewrite take_ge.
  - rewrite countb_app. rewrite <- (take_drop (Z.to_nat h) l) at 3. rewrite countb_app. lia.
  - unfold blen in *. rewrite length_app, length_drop, length_take. lia.
Qed.

Lemma scanned_mono P l h k j :
  0 <= h < blen l -> 0 <= k <= j -> j <= blen l -> scanned P l h k <= scanned P l h j.
Proof.
  intros Hh Hk Hj. unfold scanned.
  rewrite <- (take_drop (Z.to_nat k) (take (Z.to_nat j) _)), countb_app, take_take.
  rewrite Nat.min_l by lia. match goal with |- _ <= _ + ?c => assert (0 <= c) by apply countb_nonneg end. lia.
Qed.

(** ** Kinds of slots *)

Definition is_used (s : qhasharr_slot) : bool := negb (sl_count s =? 0).
Definition is_head (s : qhasharr_slot) : bool := (0 <? sl_count s) || (sl_count s =? -1).
Definition in_bucket (b : Z) (s : qhasharr_slot) : bool := is_head s && (sl_hash s =? b).

Lemma is_head_cases s : is_head s = true <-> 0 < sl_count s \/ sl_count s = -1.
Proof. unfold is_head. rewrite orb_true_iff, Z.ltb_lt, Z.eqb_eq. done. Qed.

Lemma is_used_ne s : is_used s = true <-> sl_count s <> 0.
Proof. unfold is_used. rewrite negb_true_iff, Z.eqb_neq. done. Qed.

Lemma in_bucket_true b s : in_bucket b s = true <-> is_head s = true /\ sl_hash s = b.
Proof. unfold in_bucket. rewrite andb_true_iff, Z.eqb_eq. done. Qed.

(** ** Value chains *)

(** [dseg l i rest]: from slot [i] the links visit exactly [rest]; every slot of [rest] is an
    extension block whose [sl_hash] is the slot before it; the last link is -1. *)
Fixpoint dseg (l : list qhasharr_slot) (i : Z) (rest : list Z) : Prop :=
  match rest with
  | [] => exists s, sat l i = Some s /\ sl_link s = -1
  | j :: rest' =>
      (exists s, sat l i = Some s /\ sl_link s = j) /\
      (exists s, sat l j = Some s /\ sl_count s = -2 /\ sl_hash s = i) /\
      dseg l j rest'
  end.

(** Two arrays agree on the slots of [c]. *)
Definition agree (l l' : list qhasharr_slot) (c : list Z) : Prop :=
  forall x, x ∈ c -> sat l' x = sat l x.

Lemma dseg_frame l l' i rest : dseg l i rest -> agree l l' (i :: rest) -> dseg l' i rest.
Proof.
  revert i. induction rest as [|j rest IH]; intros i Hd Ha; cbn [dseg] in *.
  - rewrite (Ha i) by set_solver. done.
  - destruct Hd as (H1 & H2 & H3). rewrite (Ha i), (Ha j) by set_solver.
    split; [done|]. split; [done|]. apply IH; [done|]. intros x Hx. apply Ha. set_solver.
Qed.

(** The first slot may change in everything but its link. *)
Lemma dseg_frame_head l l' i rest s s' :
  dseg l i rest -> sat l i = Some s -> sat l' i = Some s' -> sl_link s' = sl_link s ->
  agree l l' rest -> dseg l' i rest.
Proof.
  intros Hd Hs Hs' Hl Ha. destruct rest as [|j rest]; cbn [dseg] in *.
  - destruct Hd as (s0 & ? & ?). exists s'. split; [done|]. congruence.
  - destruct Hd as ((s0 & ? & ?) & H2 & H3). split; [exists s'; split; [done|congruence]|].
    rewrite (Ha j) by set_solver. split; [done|]. by apply (dseg_frame l).
Qed.

Lemma dseg_functional l i r1 r2 : dseg l i r1 -> dseg l i r2 -> r1 = r2.
Proof.
  revert i r2. induction r1 as [|j r1 IH]; intros i [|j2 r2]; cbn [dseg].
  - done.
  - intros (s & Hs & Hl) ((s' & Hs' & Hl') & (s2 & Hs2 & _) & _). simplify_eq.
    rewrite Hl in Hs2. by rewrite sat_neg in Hs2 by lia.
  - intros ((s' & Hs' & Hl') & (s2 & Hs2 & _) & _) (s & Hs & Hl). simplify_eq.
    rewrite Hl in Hs2. by rewrite sat_neg in Hs2 by lia.
  - intros ((s & Hs & Hl) & _ & H1) ((s' & Hs' & Hl') & _ & H2). simplify_eq.
    f_equal. by eapply IH.
Qed.

Lemma dseg_sat l i rest x : dseg l i rest -> x ∈ i :: rest -> exists s, sat l x = Some s.
Proof.
  revert i. induction rest as [|j rest IH]; intros i Hd Hx; cbn [dseg] in Hd.
  - destruct Hd as (s & ? & _). assert (x = i) as -> by set_solver. eauto.
  - destruct Hd as ((s & ? & _) & (s' & ? & _) & Hd).
    apply elem_of_cons in Hx as [->|Hx]; [eauto|]. by apply (IH j).
Qed.

Lemma dseg_rest_ext l i rest x :
  dseg l i rest -> x ∈ rest -> exists s, sat l x = Some s /\ sl_count s = -2.
Proof.
  revert i. induction rest as [|j rest IH]; intros i Hd Hx; cbn [dseg] in Hd; [set_solver|].
  destruct Hd as (_ & (s & ? & ? & _) & Hd).
  apply elem_of_cons in Hx as [->|Hx]; [eauto|]. by apply (IH j).
Qed.

Lemma dseg_prev l i rest k x :
  dseg l i rest -> rest !! k = Some x ->
  exists s, sat l x = Some s /\ sl_count s = -2 /\ (i :: rest) !! k = Some (sl_hash s).
Proof.
  revert i k. induction rest as [|j rest IH]; intros i k Hd Hx; cbn [dseg] in Hd; [done|].
  destruct Hd as (_ & (s & Hs & Hc & Hh) & Hd). destruct k as [|k]; simpl in Hx.
  - injection Hx as ->. exists s. by rewrite Hh.
  - destruct (IH j k Hd Hx) as (s' & ? & ? & Hk). exists s'. done.
Qed.

Definition not_ext (l : list qhasharr_slot) (i : Z) : Prop :=
  forall s, sat l i = Some s -> sl_count s <> -2.

(** A slot lies on the chain of one head only, and at one place of it. *)
Lemma dseg_position l i1 r1 i2 r2 k1 k2 x :
  not_ext l i1 -> not_ext l i2 -> dseg l i1 r1 -> dseg l i2 r2 ->
  (i1 :: r1) !! k1 = Some x -> (i2 :: r2) !! k2 = Some x -> k1 = k2 /\ i1 = i2.
Proof.
  intros Hn1 Hn2 H1 H2. revert k2 x. induction k1 as [|k1 IH]; intros k2 x Hx1 Hx2.
  - simpl in Hx1. simplify_eq. destruct k2 as [|k2]; simpl in Hx2; [by simplify_eq|].
    destruct (dseg_prev _ _ _ _ _ H2 Hx2) as (s & Hs & Hc & _). by destruct (Hn1 s Hs).
  - simpl in Hx1. destruct (dseg_prev _ _ _ _ _ H1 Hx1) as (s & Hs & Hc & Hk).
    destruct k2 as [|k2]; simpl in Hx2; [simplify_eq; by destruct (Hn2 s Hs)|].
    destruct (dseg_prev _ _ _ _ _ H2 Hx2) as (s' & Hs' & _ & Hk').
    assert (s' = s) as -> by congruence. destruct (IH k2 (sl_hash s) Hk Hk') as [-> ->]. done.
Qed.

Lemma dseg_NoDup l i rest : not_ext l i -> dseg l i rest -> NoDup (i :: rest).
Proof.
  intros Hn Hd. apply NoDup_alt. intros k1 k2 x H1 H2.
  by destruct (dseg_position l i rest i rest k1 k2 x) as [-> _].
Qed.

Lemma dseg_disjoint l i1 r1 i2 r2 x :
  not_ext l i1 -> not_ext l i2 -> dseg l i1 r1 -> dseg l i2 r2 ->
  x ∈ i1 :: r1 -> x ∈ i2 :: r2 -> i1 = i2.
Proof.
  intros Hn1 Hn2 H1 H2 (k1 & Hk1)%list_elem_of_lookup (k2 & Hk2)%list_elem_of_lookup.
  by destruct (dseg_position l i1 r1 i2 r2 k1 k2 x) as [_ ->].
Qed.

(** A chain is at most as long as the array. *)
Lemma dseg_length l i rest : not_ext l i -> dseg l i rest -> blen (i :: rest) <= blen l.
Proof.
  intros Hn Hd. pose proof (dseg_NoDup _ _ _ Hn Hd) as Hnd.
  assert (Hsub : i :: rest ⊆+ seqZ 0 (blen l)).
  { apply NoDup_submseteq; [done|]. intros x Hx.
    destruct (dseg_sat _ _ _ _ Hd Hx) as (s & Hs%sat_range). apply elem_of_seqZ. lia. }
  apply submseteq_length in Hsub. rewrite length_seqZ in Hsub. unfold blen in *. lia.
Qed.

(** The links, one step: the next slot of the chain. *)
Lemma dseg_link l i rest k x s :
  dseg l i rest -> (i :: rest) !! k = Some x -> sat l x = Some s ->
  sl_link s = match rest !! k with Some y => y | None => -1 end.
Proof.
  revert i k. induction rest as [|j rest IH]; intros i k Hd Hx Hs; cbn [dseg] in Hd.
  - destruct k; simpl in Hx; simplify_eq. destruct Hd as (s' & ? & ?). simpl. congruence.
  - destruct Hd as ((s' & ? & ?) & _ & Hd). destruct k as [|k]; simpl in Hx |- *.
    + simplify_eq. congruence.
    + by apply (IH j).
Qed.

(** Appending a block behind the last slot of a chain. *)
Lemma dseg_snoc l l' i rest tail tmp s sx :
  dseg l i rest -> last (i :: rest) = Some tail ->
  sat l' tail = Some s -> sl_link s = tmp ->
  sat l' tmp = Some sx -> sl_count sx = -2 -> sl_hash sx = tail -> sl_link sx = -1 ->
  (forall x s0, x ∈ i :: rest -> sat l x = Some s0 ->
     exists s1, sat l' x = Some s1 /\ sl_count s1 = sl_count s0 /\ sl_hash s1 = sl_hash s0 /\
                (x <> tail -> sl_link s1 = sl_link s0)) ->
  NoDup (i :: rest) ->
  dseg l' i (rest ++ [tmp]).
Proof.
  intros Hd Hl Hs Hlk Hsx Hc Hh Hlx. revert i Hd Hl.
  induction rest as [|j rest IH]; intros i Hd Hl Hk Hnd; cbn [dseg app] in *.
  - simpl in Hl. simplify_eq. split; [eauto|]. split; [eauto|]. eauto.
  - destruct Hd as ((s0 & Hs0 & Hl0) & (s2 & Hs2 & Hc2 & Hh2) & Hd).
    assert (i <> tail).
    { intros ->. apply NoDup_cons in Hnd as [Hni _]. apply Hni.
      rewrite last_cons_cons in Hl. by apply last_Some_elem_of. }
    destruct (Hk i s0) as (s1 & ? & _ & _ & Hlk1); [set_solver|done|].
    destruct (Hk j s2) as (s3 & ? & ? & ? & _); [set_solver|done|].
    split; [exists s1; split; [done|]; rewrite Hlk1; done|].
    split; [exists s3; split; [done|]; split; congruence|].
    apply IH; [done| |intros; apply Hk; [set_solver|done]|by apply NoDup_cons in Hnd as [_ ?]].
    by rewrite last_cons_cons in Hl.
Qed.

(** ** The bytes a chain holds *)

Definition slot_val (l : list qhasharr_slot) (i : Z) : bytes :=
  match sat l i with Some s => take (Z.to_nat (sl_size s)) (sl_data s) | None => [] end.

Definition chain_val (l : list qhasharr_slot) (c : list Z) : bytes := flat_map (slot_val l) c.

Lemma chain_val_cons l i c : chain_val l (i :: c) = slot_val l i ++ chain_val l c.
Proof. done. Qed.

Lemma chain_val_app l c1 c2 : chain_val l (c1 ++ c2) = chain_val l c1 ++ chain_val l c2.
Proof. apply flat_map_app. Qed.

(** Only the size and the bytes of a slot matter to the value. *)
Lemma chain_val_frame l l' c :
  (forall x, x ∈ c -> slot_val l' x = slot_val l x) -> chain_val l' c = chain_val l c.
Proof.
  induction c as [|x c IH]; intros Hf; [done|]. rewrite !chain_val_cons.
  rewrite Hf by set_solver. f_equal. apply IH. intros. apply Hf. set_solver.
Qed.

Lemma slot_val_agree l l' x : sat l' x = sat l x -> slot_val l' x = slot_val l x.
Proof. unfold slot_val. by intros ->. Qed.
