(* ===== verification/HashArrInv.v ===== *)
(** * The invariant of the slot array, and the five ways the code changes it

    [lbase] says that the array is a set of live entries: every leading or collision slot starts a
    well-formed chain, every extension block lies on one of these chains, and no two entries have the
    same key. [lrep l m] relates the array to the finite map of its entries. The lemmas follow the
    writes of the C code: storing a new head, appending a block, freeing a chain, moving a slot, and
    changing the collision counter of a leading slot. *)

From S2P Require Import Prelude Common HashArr HashArrSeg.
Import HashArr.

(** ** The identity of a stored key

    A slot keeps the bucket, the length of the key as a 16-bit number, its first 32 bytes, and for
    longer keys its MD5: this is all that [_get_idx] compares. *)
Abbreviation kid := (Z * Z * bytes * bytes)%type.

Definition kid_of_slot (s : qhasharr_slot) : kid :=
  let d := sl_data s in
  (sl_hash s, pair_keylen d,
   take (Z.to_nat (pair_keylen d)) (pair_key d),
   if Z.of_nat Q_HASHARR_KEYSIZE <? pair_keylen d then pair_keymd5 d else []).

Definition kid_of_key `{KeyDigest} (key : bytes) (max : Z) : kid :=
  (bucket_of key max, blen key, take Q_HASHARR_KEYSIZE key,
   if Z.of_nat Q_HASHARR_KEYSIZE <? blen key then key_md5 key else []).

(** ** The invariant *)

(** The slots a value needs: 96 bytes fit beside the key, 146 in each further block. *)
Definition blocks (z : Z) : Z := (z + 145) / 146.
Definition slots_for (z : Z) : Z := 1 + blocks (z - 96).

Record slot_ok (M i : Z) (s : qhasharr_slot) : Prop := {
  so_count : -2 <= sl_count s < 2 ^ 15;
  so_data : length (sl_data s) = SLOT_DATA_SIZE;
  so_head : is_head s = true -> 0 <= sl_hash s < M /\ 1 <= sl_size s <= 96;
  so_lead : 0 < sl_count s -> sl_hash s = i;
  so_ext : sl_count s = -2 -> 1 <= sl_size s <= 146
}.

Record lbase (l : list qhasharr_slot) : Prop := {
  lb_len : 0 < blen l < 2 ^ 31;
  lb_slot : forall i s, sat l i = Some s -> slot_ok (blen l) i s;
  lb_chain : forall i s, sat l i = Some s -> is_head s = true -> exists rest, dseg l i rest;
  lb_ext : forall j s, sat l j = Some s -> sl_count s = -2 ->
    exists i si rest, sat l i = Some si /\ is_head si = true /\ dseg l i rest /\ j ∈ rest;
  lb_uniq : forall i j si sj, sat l i = Some si -> sat l j = Some sj ->
    is_head si = true -> is_head sj = true -> kid_of_slot si = kid_of_slot sj -> i = j;
  lb_full : forall i s rest, sat l i = Some s -> is_head s = true -> dseg l i rest ->
    blen (i :: rest) = slots_for (blen (chain_val l (i :: rest)))
}.

(** Slot [i] is the head of the entry for [k], whose chain holds [v]. *)
Definition entry (l : list qhasharr_slot) (i : Z) (k : kid) (v : bytes) : Prop :=
  exists s rest, sat l i = Some s /\ is_head s = true /\ kid_of_slot s = k /\
                 dseg l i rest /\ chain_val l (i :: rest) = v.

Definition lrep (l : list qhasharr_slot) (m : gmap kid bytes) : Prop :=
  forall k v, m !! k = Some v <-> exists i, entry l i k v.

Definition nkeys (l : list qhasharr_slot) (b : Z) : Z := countb (in_bucket b) l.

(** The counter of a leading slot is the size of its bucket, less [d] keys that are stored but not
    counted yet; no counted keys, no leading slot. *)
Definition bucket_ok (l : list qhasharr_slot) (b d : Z) : Prop :=
  forall s, sat l b = Some s ->
    if 0 <? nkeys l b - d then sl_count s = nkeys l b - d else sl_count s <= 0.

Definition gap (h d b : Z) : Z := if decide (b = h) then d else 0.

Definition buckets (l : list qhasharr_slot) (h d : Z) : Prop := forall b, bucket_ok l b (gap h d b).

(** ** Consequences *)

Lemma head_not_ext l i s : sat l i = Some s -> is_head s = true -> not_ext l i.
Proof.
  intros Hs [Hh|Hh]%is_head_cases s' Hs'; simplify_eq; lia.
Qed.

Lemma head_used s : is_head s = true -> sl_count s <> 0.
Proof. intros [?|?]%is_head_cases; lia. Qed.

Lemma slot_kinds M i s : slot_ok M i s -> sl_count s = 0 \/ sl_count s = -2 \/ is_head s = true.
Proof. intros [Hc _ _ _ _]. rewrite is_head_cases. lia. Qed.

Lemma chain_avoids_empty l i s rest x sx :
  sat l i = Some s -> is_head s = true -> dseg l i rest ->
  sat l x = Some sx -> sl_count sx = 0 -> x ∉ i :: rest.
Proof.
  intros Hs Hh Hd Hx Hc Hin. apply elem_of_cons in Hin as [->|Hin].
  - simplify_eq. by apply head_used in Hh.
  - destruct (dseg_rest_ext _ _ _ _ Hd Hin) as (s' & ? & ?). simplify_eq. lia.
Qed.

Lemma rest_not_head l i rest x s :
  dseg l i rest -> x ∈ rest -> sat l x = Some s -> is_head s = true -> False.
Proof.
  intros Hd Hx Hs Hh. destruct (dseg_rest_ext _ _ _ _ Hd Hx) as (s' & ? & ?). simplify_eq.
  apply is_head_cases in Hh. lia.
Qed.

(** The chains of two different heads share no slot. *)
Lemma heads_disjoint l i si ri j sj rj x :
  sat l i = Some si -> is_head si = true -> dseg l i ri ->
  sat l j = Some sj -> is_head sj = true -> dseg l j rj ->
  i <> j -> x ∈ i :: ri -> x ∉ j :: rj.
Proof.
  intros Hi Hhi Hdi Hj Hhj Hdj Hne Hx Hx'. apply Hne.
  eapply (dseg_disjoint l i ri j rj x); eauto using head_not_ext.
Qed.

(** Every used slot lies on the chain of a head. *)
Lemma used_on_chain l x s :
  lbase l -> sat l x = Some s -> sl_count s <> 0 ->
  exists i si rest, sat l i = Some si /\ is_head si = true /\ dseg l i rest /\ x ∈ i :: rest.
Proof.
  intros Hb Hs Hu. destruct (slot_kinds _ _ _ (lb_slot l Hb x s Hs)) as [?|[He|Hh]]; [done| |].
  - destruct (lb_ext l Hb x s Hs He) as (i & si & rest & ? & ? & ? & ?).
    exists i, si, rest. set_solver.
  - destruct (lb_chain l Hb x s Hs Hh) as (rest & ?). exists x, s, rest. set_solver.
Qed.

Lemma link_next l x s :
  lbase l -> sat l x = Some s -> sl_count s <> 0 -> sl_link s <> -1 ->
  exists sy, sat l (sl_link s) = Some sy /\ sl_count sy = -2 /\ sl_hash sy = x.
Proof.
  intros Hb Hs Hu Hl. destruct (used_on_chain l x s Hb Hs Hu) as (i & si & rest & Hi & Hh & Hd & Hx).
  apply list_elem_of_lookup in Hx as (k & Hk). pose proof (dseg_link _ _ _ _ _ _ Hd Hk Hs) as Hlk.
  destruct (rest !! k) as [y|] eqn:Hy; [|done].
  destruct (dseg_prev _ _ _ _ _ Hd Hy) as (sy & ? & ? & Hk').
  exists sy. rewrite Hlk. split; [done|]. split; [done|]. congruence.
Qed.

Lemma ext_prev l y sy :
  lbase l -> sat l y = Some sy -> sl_count sy = -2 ->
  exists sx, sat l (sl_hash sy) = Some sx /\ sl_count sx <> 0 /\ sl_link sx = y.
Proof.
  intros Hb Hs He. destruct (lb_ext l Hb y sy Hs He) as (i & si & rest & Hi & Hh & Hd & Hy).
  apply list_elem_of_lookup in Hy as (k & Hk).
  destruct (dseg_prev _ _ _ _ _ Hd Hk) as (s' & Hs' & _ & Hk').
  assert (s' = sy) as -> by congruence. destruct (dseg_sat _ _ _ (sl_hash sy) Hd) as (sx & Hsx); [by eapply list_elem_of_lookup_2|].
  exists sx. split; [done|]. split.
  - destruct k as [|k]; simpl in Hk'; [injection Hk' as ->; simplify_eq; by apply head_used|].
    destruct (dseg_rest_ext _ _ _ (sl_hash sy) Hd) as (s2 & ? & ?);
      [by eapply list_elem_of_lookup_2|]. simplify_eq. lia.
  - rewrite (dseg_link _ _ _ _ _ _ Hd Hk' Hsx), Hk. done.
Qed.

Lemma entry_functional l i k v k' v' : entry l i k v -> entry l i k' v' -> k = k' /\ v = v'.
Proof.
  intros (s & r & Hs & _ & <- & Hd & <-) (s' & r' & Hs' & _ & <- & Hd' & <-). simplify_eq.
  by rewrite (dseg_functional _ _ _ _ Hd Hd').
Qed.

(** An array that keeps the slots of an entry keeps the entry. *)
Lemma entry_frame l l' i s rest :
  sat l i = Some s -> is_head s = true -> dseg l i rest -> agree l l' (i :: rest) ->
  entry l' i (kid_of_slot s) (chain_val l (i :: rest)).
Proof.
  intros Hs Hh Hd Ha. exists s, rest. split; [rewrite Ha by set_solver; done|].
  split; [done|]. split; [done|]. split; [by apply (dseg_frame l)|].
  apply chain_val_frame. intros x Hx. by apply slot_val_agree, Ha.
Qed.

(** ** Reading the map off the entries *)

Lemma lrep_insert l l' m k0 v0 :
  lrep l m ->
  (forall k v, (exists i, entry l' i k v) <->
               (k = k0 /\ v = v0) \/ (k <> k0 /\ exists i, entry l i k v)) ->
  lrep l' (<[k0 := v0]> m).
Proof.
  intros Hm He k v. rewrite He, lookup_insert. case_decide as Hk; subst.
  - split; [intros [= ->]; by left|]. intros [[_ ->]|[? _]]; done.
  - rewrite (Hm k v). split; [intros; right; split; [congruence|done]|].
    by intros [[-> _]|[_ ?]].
Qed.

Lemma lrep_delete l l' m k0 :
  lrep l m ->
  (forall k v, (exists i, entry l' i k v) <-> k <> k0 /\ exists i, entry l i k v) ->
  lrep l' (delete k0 m).
Proof.
  intros Hm He k v. rewrite He, lookup_delete. case_decide as Hk; subst.
  - split; [done|]. by intros [? _].
  - rewrite (Hm k v). split; [intros; split; [congruence|done]|by intros [_ ?]].
Qed.

Lemma lrep_same l l' m :
  lrep l m ->
  (forall k v, (exists i, entry l' i k v) <-> exists i, entry l i k v) -> lrep l' m.
Proof. intros Hm He k v. by rewrite He, (Hm k v). Qed.

Lemma lrep_unique l m m' : lrep l m -> lrep l m' -> m = m'.
Proof.
  intros H1 H2. apply map_eq. intros k. apply option_eq. intros v. by rewrite (H1 k v), (H2 k v).
Qed.

(** Two entries of the same key are the same entry. *)
Lemma entry_unique l i j k v w :
  lbase l -> entry l i k v -> entry l j k w -> i = j /\ v = w.
Proof.
  intros Hb Hi Hj. assert (i = j) as ->.
  { destruct Hi as (s & r & Hs & Hh & Hk & _), Hj as (s' & r' & Hs' & Hh' & Hk' & _).
    apply (lb_uniq l Hb i j s s'); congruence. }
  by destruct (entry_functional _ _ _ _ _ _ Hi Hj).
Qed.

(** ** Storing a new head in an empty slot *)

Section AddHead.
Context (l l' : list qhasharr_slot) (idx : Z) (s0 sn : qhasharr_slot).
Context (Hb : lbase l) (H0 : sat l idx = Some s0) (Hc0 : sl_count s0 = 0).
Context (Hlen : blen l' = blen l).
Context (Hpt : forall x, sat l' x = if decide (x = idx) then Some sn else sat l x).
Context (Hok : slot_ok (blen l) idx sn) (Hh : is_head sn = true) (Hlk : sl_link sn = -1).
Context (Hfresh : forall i s, sat l i = Some s -> is_head s = true -> kid_of_slot s <> kid_of_slot sn).

#[local] Lemma add_head_agree i s rest :
  sat l i = Some s -> is_head s = true -> dseg l i rest -> agree l l' (i :: rest).
Proof using Hc0 H0 Hpt.
  intros Hs Hhs Hd x Hx. rewrite Hpt, decide_False; [done|]. intros ->.
  by apply (chain_avoids_empty l i s rest idx s0).
Qed.

#[local] Lemma add_head_dseg : dseg l' idx [].
Proof using Hpt Hlk. exists sn. by rewrite Hpt, decide_True. Qed.

Lemma add_head_entry i k v :
  entry l' i k v <->
  (i = idx /\ k = kid_of_slot sn /\ v = take (Z.to_nat (sl_size sn)) (sl_data sn)) \/ entry l i k v.
Proof using Hb H0 Hc0 Hpt Hh Hlk.
  split.
  - intros (s & rest & Hs & Hhs & Hk & Hd & Hv). rewrite Hpt in Hs. destruct (decide (i = idx)) as [->|Hi].
    + injection Hs as <-. left. split; [done|]. split; [done|]. rewrite <- Hv.
      rewrite (dseg_functional _ _ _ _ Hd add_head_dseg). unfold chain_val, slot_val. simpl.
      by rewrite Hpt, decide_True, app_nil_r.
    + right. destruct (lb_chain l Hb i s Hs Hhs) as (r & Hr).
      pose proof (add_head_agree i s r Hs Hhs Hr) as Ha.
      pose proof (dseg_functional _ _ _ _ Hd (dseg_frame _ _ _ _ Hr Ha)) as ->.
      exists s, r. repeat (split; [done|]). rewrite <- Hv. symmetry. apply chain_val_frame.
      intros x Hx. by apply slot_val_agree, Ha.
  - intros [(-> & -> & ->)|(s & rest & Hs & Hhs & <- & Hd & <-)].
    + exists sn, []. rewrite Hpt, decide_True by done. repeat (split; [done|]).
      split; [apply add_head_dseg|]. unfold chain_val, slot_val. simpl.
      by rewrite Hpt, decide_True, app_nil_r.
    + apply (entry_frame l l' i s rest Hs Hhs Hd). by apply (add_head_agree i s).
Qed.

Lemma add_head_base : lbase l'.
Proof using All.
  split.
  - rewrite Hlen. apply Hb.
  - intros i s Hs. rewrite Hpt in Hs. rewrite Hlen.
    destruct (decide (i = idx)) as [->|Hi]; [injection Hs as <-; done|].
    by apply Hb.
  - intros i s Hs Hhs. rewrite Hpt in Hs. destruct (decide (i = idx)) as [->|Hi].
    + exists []. apply add_head_dseg.
    + destruct (lb_chain l Hb i s Hs Hhs) as (r & Hr). exists r.
      apply (dseg_frame l); [done|]. by apply (add_head_agree i s).
  - intros j s Hs He. rewrite Hpt in Hs. destruct (decide (j = idx)) as [->|Hji].
    + injection Hs as <-. apply is_head_cases in Hh. lia.
    + destruct (lb_ext l Hb j s Hs He) as (i & si & rest & Hi & Hhi & Hd & Hj).
      exists i, si, rest. pose proof (add_head_agree i si rest Hi Hhi Hd) as Ha.
      rewrite Ha by set_solver. repeat (split; [done|]). split; [|done].
      by apply (dseg_frame l).
  - intros i j si sj Hi Hj Hhi Hhj Hk. rewrite Hpt in Hi, Hj.
    destruct (decide (i = idx)) as [->|], (decide (j = idx)) as [->|]; [done| | |].
    + injection Hi as <-. symmetry in Hk. by destruct (Hfresh j sj).
    + injection Hj as <-. by destruct (Hfresh i si).
    + by apply (lb_uniq l Hb i j si sj).
  - intros i s rest Hs Hhs Hd. rewrite Hpt in Hs. destruct (decide (i = idx)) as [->|Hi].
    + injection Hs as <-. rewrite (dseg_functional _ _ _ _ Hd add_head_dseg). unfold chain_val, slot_val. cbn [flat_map].
      rewrite Hpt, decide_True, app_nil_r by done. destruct Hok as [_ Hdt Hz _ _]. destruct (Hz Hh) as [_ Hsz].
      unfold blen. rewrite length_take, Hdt. unfold SLOT_DATA_SIZE, slots_for, blocks. cbn [length]. dm_lia.
    + destruct (lb_chain l Hb i s Hs Hhs) as (r & Hr). pose proof (add_head_agree i s r Hs Hhs Hr) as Ha.
      pose proof (dseg_functional _ _ _ _ Hd (dseg_frame _ _ _ _ Hr Ha)) as ->.
      rewrite (chain_val_frame l l') by (intros x Hx; by apply slot_val_agree, Ha). by apply (lb_full l Hb i s).
Qed.

Lemma add_head_rep m :
  lrep l m -> lrep l' (<[kid_of_slot sn := take (Z.to_nat (sl_size sn)) (sl_data sn)]> m).
Proof using Hb H0 Hc0 Hpt Hh Hlk Hfresh.
  intros Hm. apply (lrep_insert l); [done|]. intros k v. split.
  - intros (i & [(-> & -> & ->)|He]%add_head_entry); [by left|]. right. split; [|eauto].
    destruct He as (s & r & Hs & Hhs & <- & _). by apply (Hfresh i).
  - intros [[-> ->]|[_ (i & He)]]; [exists idx|exists i]; apply add_head_entry; [left|right]; done.
Qed.
End AddHead.

(** ** Appending an extension block to an entry *)

Section AddExt.
Context (l l' : list qhasharr_slot) (i0 tail tmp : Z) (rest0 : list Z).
Context (s0 st se sx : qhasharr_slot).
Context (Hb : lbase l) (H0 : sat l i0 = Some s0) (Hh0 : is_head s0 = true).
Context (Hd0 : dseg l i0 rest0) (Htl : last (i0 :: rest0) = Some tail) (Hst : sat l tail = Some st).
Context (Hse : sat l tmp = Some se) (Hce : sl_count se = 0).
Context (Hlen : blen l' = blen l).
Context (Hpt : forall x, sat l' x = if decide (x = tmp) then Some sx
                             else if decide (x = tail) then Some (set_link tmp st) else sat l x).
Context (Hok : slot_ok (blen l) tmp sx) (Hcx : sl_count sx = -2) (Hhx : sl_hash sx = tail)
        (Hlx : sl_link sx = -1)
        (Hgrow : slots_for (blen (chain_val l (i0 :: rest0)) + blen (take (Z.to_nat (sl_size sx)) (sl_data sx))) =
                 slots_for (blen (chain_val l (i0 :: rest0))) + 1).

#[local] Lemma add_ext_tail : tail ∈ i0 :: rest0.
Proof using All. by apply last_Some_elem_of. Qed.

#[local] Lemma add_ext_avoid x : x ∈ i0 :: rest0 -> x <> tmp.
Proof using All. intros Hx ->. by apply (chain_avoids_empty l i0 s0 rest0 tmp se). Qed.

#[local] Lemma add_ext_agree i s rest :
  sat l i = Some s -> is_head s = true -> dseg l i rest -> i <> i0 -> agree l l' (i :: rest).
Proof using All.
  intros Hs Hhs Hd Hne x Hx. rewrite Hpt, !decide_False; [done| |].
  - intros ->. apply (heads_disjoint l i0 s0 rest0 i s rest tail); try done. apply add_ext_tail.
  - intros ->. by apply (chain_avoids_empty l i s rest tmp se).
Qed.

#[local] Lemma add_ext_dseg : dseg l' i0 (rest0 ++ [tmp]).
Proof using All.
  pose proof (add_ext_avoid tail add_ext_tail).
  eapply (dseg_snoc l l' i0 rest0 tail tmp (set_link tmp st) sx); try done.
  - rewrite Hpt, decide_False, decide_True by done. done.
  - rewrite Hpt, decide_True by done. done.
  - intros x s1 Hx Hs1. rewrite Hpt, decide_False by (by apply add_ext_avoid).
    destruct (decide (x = tail)) as [->|]; [|by exists s1].
    assert (s1 = st) as -> by congruence. by exists (set_link tmp st).
  - apply (dseg_NoDup l); [|done]. by apply (head_not_ext l i0 s0).
Qed.

#[local] Lemma add_ext_val :
  chain_val l' (i0 :: rest0 ++ [tmp]) =
  chain_val l (i0 :: rest0) ++ take (Z.to_nat (sl_size sx)) (sl_data sx).
Proof using All.
  rewrite app_comm_cons, chain_val_app. f_equal.
  - apply chain_val_frame. intros x Hx. unfold slot_val.
    rewrite Hpt, decide_False by (by apply add_ext_avoid).
    destruct (decide (x = tail)) as [->|]; [by rewrite Hst|done].
  - unfold chain_val, slot_val. simpl. by rewrite Hpt, decide_True, app_nil_r.
Qed.

#[local] Lemma add_ext_head i s :
  sat l' i = Some s -> is_head s = true ->
  exists s', sat l i = Some s' /\ is_head s' = true /\ kid_of_slot s' = kid_of_slot s.
Proof using All.
  intros Hs Hhs. rewrite Hpt in Hs. destruct (decide (i = tmp)) as [->|].
  - injection Hs as <-. apply is_head_cases in Hhs. lia.
  - destruct (decide (i = tail)) as [->|]; [|by exists s]. injection Hs as <-. by exists st.
Qed.

#[local] Lemma add_ext_head0 :
  exists s', sat l' i0 = Some s' /\ is_head s' = true /\ kid_of_slot s' = kid_of_slot s0.
Proof using All.
  rewrite Hpt, decide_False by (apply add_ext_avoid; set_solver).
  destruct (decide (i0 = tail)) as [<-|]; [|by exists s0].
  assert (st = s0) as -> by congruence. by exists (set_link tmp s0).
Qed.

Lemma add_ext_base : lbase l'.
Proof using All.
  split.
  - rewrite Hlen. apply Hb.
  - intros i s Hs. rewrite Hpt in Hs. rewrite Hlen. destruct (decide (i = tmp)) as [->|].
    + by injection Hs as <-.
    + destruct (decide (i = tail)) as [->|]; [|by apply Hb]. injection Hs as <-.
      by destruct (lb_slot l Hb tail st Hst).
  - intros i s Hs Hhs. destruct (add_ext_head i s Hs Hhs) as (s' & Hs' & Hh' & _).
    destruct (decide (i = i0)) as [->|]; [eexists; apply add_ext_dseg|].
    destruct (lb_chain l Hb i s' Hs' Hh') as (r & Hr). exists r.
    apply (dseg_frame l); [done|]. by apply (add_ext_agree i s').
  - intros j s Hs He. destruct add_ext_head0 as (s0' & Hs0' & Hh0' & _).
    destruct (decide (j ∈ rest0 ++ [tmp])) as [Hj|Hj].
    + exists i0, s0', (rest0 ++ [tmp]). repeat (split; [done|]). split; [apply add_ext_dseg|done].
    + assert (Hsl : exists s1, sat l j = Some s1 /\ sl_count s1 = -2).
      { rewrite Hpt, decide_False in Hs by set_solver.
        destruct (decide (j = tail)) as [->|]; [injection Hs as <-; by exists st|by exists s]. }
      destruct Hsl as (s1 & Hs1 & He1).
      destruct (lb_ext l Hb j s1 Hs1 He1) as (i & si & rest & Hi & Hhi & Hd & Hji).
      destruct (decide (i = i0)) as [->|Hne].
      { rewrite (dseg_functional _ _ _ _ Hd Hd0) in Hji. set_solver. }
      exists i, si, rest. pose proof (add_ext_agree i si rest Hi Hhi Hd Hne) as Ha.
      rewrite Ha by set_solver. repeat (split; [done|]). split; [by apply (dseg_frame l)|done].
  - intros i j si sj Hi Hj Hhi Hhj Hk.
    destruct (add_ext_head i si Hi Hhi) as (si' & ? & ? & Hki).
    destruct (add_ext_head j sj Hj Hhj) as (sj' & ? & ? & Hkj).
    apply (lb_uniq l Hb i j si' sj'); try done. congruence.
  - intros i s rest Hs Hhs Hd. destruct (decide (i = i0)) as [->|Hne].
    + rewrite (dseg_functional _ _ _ _ Hd add_ext_dseg), add_ext_val, blen_app, Hgrow, <- (lb_full l Hb i0 s0 rest0) by done.
      unfold blen. cbn [length]. rewrite length_app. cbn [length]. lia.
    + destruct (add_ext_head i s Hs Hhs) as (s' & Hs' & Hh' & _). destruct (lb_chain l Hb i s' Hs' Hh') as (r & Hr).
      pose proof (add_ext_agree i s' r Hs' Hh' Hr Hne) as Ha.
      pose proof (dseg_functional _ _ _ _ Hd (dseg_frame _ _ _ _ Hr Ha)) as ->.
      rewrite (chain_val_frame l l') by (intros x Hx; by apply slot_val_agree, Ha). by apply (lb_full l Hb i s').
Qed.

Lemma add_ext_entry0 :
  entry l' i0 (kid_of_slot s0) (chain_val l (i0 :: rest0) ++ take (Z.to_nat (sl_size sx)) (sl_data sx)).
Proof using All.
  destruct add_ext_head0 as (s' & ? & ? & ?). exists s', (rest0 ++ [tmp]).
  repeat (split; [done|]). split; [apply add_ext_dseg|apply add_ext_val].
Qed.

Lemma add_ext_rep m :
  lrep l m ->
  lrep l' (<[kid_of_slot s0 := chain_val l (i0 :: rest0) ++ take (Z.to_nat (sl_size sx)) (sl_data sx)]> m).
Proof using All.
  intros Hm. apply (lrep_insert l); [done|]. intros k v. split.
  - intros (i & s & rest & Hs & Hhs & <- & Hd & <-). destruct (decide (i = i0)) as [->|Hne].
    + left. destruct (entry_functional l' i0 (kid_of_slot s) (chain_val l' (i0 :: rest)) _ _
                        ltac:(by exists s, rest) add_ext_entry0). done.
    + right. destruct (add_ext_head i s Hs Hhs) as (s' & Hs' & Hh' & Hk').
      split; [rewrite <- Hk'; intros E; apply Hne; by apply (lb_uniq l Hb i i0 s' s0)|].
      destruct (lb_chain l Hb i s' Hs' Hh') as (r & Hr).
      pose proof (add_ext_agree i s' r Hs' Hh' Hr Hne) as Ha.
      pose proof (dseg_functional _ _ _ _ Hd (dseg_frame _ _ _ _ Hr Ha)) as ->.
      exists i, s', r. repeat (split; [done|]). symmetry. apply chain_val_frame.
      intros x Hx. by apply slot_val_agree, Ha.
  - intros [[-> ->]|[Hk (i & s & rest & Hs & Hhs & <- & Hd & <-)]];
      [exists i0; apply add_ext_entry0|].
    exists i. apply (entry_frame l l' i s rest Hs Hhs Hd). apply (add_ext_agree i s); try done.
    intros ->. apply Hk. congruence.
Qed.
End AddExt.

(** ** Freeing the chain of an entry *)

Section FreeChain.
Context (l l' : list qhasharr_slot) (i0 : Z) (rest0 : list Z) (s0 : qhasharr_slot).
Context (Hb : lbase l) (H0 : sat l i0 = Some s0) (Hh0 : is_head s0 = true) (Hd0 : dseg l i0 rest0).
Context (Hlen : blen l' = blen l).
Context (Hpt : forall x, sat l' x = if decide (x ∈ i0 :: rest0) then set_count 0 <$> sat l x else sat l x).

#[local] Lemma free_kept i s :
  sat l' i = Some s -> sl_count s <> 0 -> sat l i = Some s /\ i ∉ i0 :: rest0.
Proof using All.
  intros Hs Hc. rewrite Hpt in Hs. destruct (decide (i ∈ i0 :: rest0)) as [Hi|Hi]; [|done].
  destruct (sat l i); simpl in Hs; [|done]. injection Hs as <-. by destruct Hc.
Qed.

#[local] Lemma free_agree i s rest :
  sat l i = Some s -> is_head s = true -> dseg l i rest -> i <> i0 -> agree l l' (i :: rest).
Proof using All.
  intros Hs Hhs Hd Hne x Hx. rewrite Hpt, decide_False; [done|].
  by apply (heads_disjoint l i s rest i0 s0 rest0).
Qed.

Lemma free_base : lbase l'.
Proof using All.
  split.
  - rewrite Hlen. apply Hb.
  - intros i s Hs. rewrite Hpt in Hs. rewrite Hlen.
    destruct (decide (i ∈ i0 :: rest0)) as [Hi|Hi]; [|by apply Hb].
    destruct (sat l i) as [s1|] eqn:E; simpl in Hs; [|done]. injection Hs as <-.
    destruct (lb_slot l Hb i s1 E) as [_ Hdat _ _ _].
    split; unfold is_head, set_count; simpl; try lia; try done.
  - intros i s Hs Hhs. destruct (free_kept i s Hs (head_used _ Hhs)) as [Hs' Hi].
    destruct (lb_chain l Hb i s Hs' Hhs) as (r & Hr). exists r. apply (dseg_frame l); [done|].
    apply (free_agree i s); try done. set_solver.
  - intros j s Hs He. destruct (free_kept j s Hs ltac:(lia)) as [Hs' Hj].
    destruct (lb_ext l Hb j s Hs' He) as (i & si & rest & Hi & Hhi & Hd & Hji).
    assert (Hne : i <> i0).
    { intros ->. rewrite (dseg_functional _ _ _ _ Hd Hd0) in Hji. set_solver. }
    exists i, si, rest. pose proof (free_agree i si rest Hi Hhi Hd Hne) as Ha.
    rewrite Ha by set_solver. repeat (split; [done|]). split; [by apply (dseg_frame l)|done].
  - intros i j si sj Hi Hj Hhi Hhj Hk.
    destruct (free_kept i si Hi (head_used _ Hhi)) as [Hi' _].
    destruct (free_kept j sj Hj (head_used _ Hhj)) as [Hj' _].
    by apply (lb_uniq l Hb i j si sj).
  - intros i s rest Hs Hhs Hd. destruct (free_kept i s Hs (head_used _ Hhs)) as [Hs' Hi].
    destruct (lb_chain l Hb i s Hs' Hhs) as (r & Hr).
    pose proof (free_agree i s r Hs' Hhs Hr ltac:(set_solver)) as Ha.
    pose proof (dseg_functional _ _ _ _ Hd (dseg_frame _ _ _ _ Hr Ha)) as ->.
    rewrite (chain_val_frame l l') by (intros x Hx; by apply slot_val_agree, Ha). by apply (lb_full l Hb i s).
Qed.

Lemma free_rep m : lrep l m -> lrep l' (delete (kid_of_slot s0) m).
Proof using All.
  intros Hm. apply (lrep_delete l); [done|]. intros k v. split.
  - intros (i & s & rest & Hs & Hhs & <- & Hd & <-).
    destruct (free_kept i s Hs (head_used _ Hhs)) as [Hs' Hi].
    assert (Hne : i <> i0) by set_solver.
    split; [intros E; apply Hne; by apply (lb_uniq l Hb i i0 s s0)|].
    destruct (lb_chain l Hb i s Hs' Hhs) as (r & Hr).
    pose proof (free_agree i s r Hs' Hhs Hr Hne) as Ha.
    pose proof (dseg_functional _ _ _ _ Hd (dseg_frame _ _ _ _ Hr Ha)) as ->.
    exists i, s, r. repeat (split; [done|]). symmetry. apply chain_val_frame.
    intros x Hx. by apply slot_val_agree, Ha.
  - intros [Hk (i & s & rest & Hs & Hhs & <- & Hd & <-)].
    exists i. apply (entry_frame l l' i s rest Hs Hhs Hd). apply (free_agree i s); try done.
    intros ->. apply Hk. congruence.
Qed.
End FreeChain.

(** ** Moving a slot *)

(** Neighbours on a chain are different slots. *)
Lemma chain_neighbours l x s :
  lbase l -> sat l x = Some s -> sl_count s <> 0 ->
  sl_link s <> x /\ (sl_count s = -2 -> sl_hash s <> x) /\
  (sl_count s = -2 -> sl_link s <> -1 -> sl_hash s <> sl_link s).
Proof.
  intros Hb Hs Hu. destruct (used_on_chain l x s Hb Hs Hu) as (i & si & rest & Hi & Hh & Hd & Hx).
  pose proof (dseg_NoDup l i rest (head_not_ext _ _ _ Hi Hh) Hd) as Hnd.
  apply list_elem_of_lookup in Hx as (k & Hk). pose proof (dseg_link _ _ _ _ _ _ Hd Hk Hs) as Hl.
  pose proof (sat_range _ _ _ Hs).
  assert (Hprev : sl_count s = -2 -> exists k', k = S k' /\ (i :: rest) !! k' = Some (sl_hash s)).
  { intros He. destruct k as [|k']; simpl in Hk.
    - injection Hk as <-. simplify_eq. apply is_head_cases in Hh. lia.
    - destruct (dseg_prev _ _ _ _ _ Hd Hk) as (s' & ? & _ & Hk'). simplify_eq. eauto. }
  split; [|split].
  - intros E. destruct (rest !! k) as [y|] eqn:Hy; [|lia]. rewrite <- Hl, E in Hy.
    pose proof (NoDup_lookup _ (S k) k x Hnd Hy Hk). lia.
  - intros He E. destruct (Hprev He) as (k' & -> & Hk'). rewrite E in Hk'.
    pose proof (NoDup_lookup _ k' (S k') x Hnd Hk' Hk). lia.
  - intros He Hne E. destruct (Hprev He) as (k' & -> & Hk'). rewrite Hl in *.
    destruct (rest !! S k') as [y|] eqn:Hy; [|done]. rewrite E in Hk'.
    pose proof (NoDup_lookup _ k' (S (S k')) y Hnd Hk' Hy). lia.
Qed.

Section Move.
Context (l l' : list qhasharr_slot) (src dst : Z) (ss sd se : qhasharr_slot).
Context (Hb : lbase l) (Hsrc : sat l src = Some ss) (Hu : sl_count ss <> 0).
Context (Hdst : sat l dst = Some se) (Hce : sl_count se = 0).
Context (Hlen : blen l' = blen l).
(* the slot in its new place *)
Context (Hok : slot_ok (blen l) dst sd) (Hlink : sl_link sd = sl_link ss)
        (Hsize : sl_size sd = sl_size ss) (Hdata : sl_data sd = sl_data ss)
        (Hhash : sl_hash sd = sl_hash ss)
        (Hext : sl_count ss = -2 -> sl_count sd = -2)
        (Hhead : is_head ss = true -> is_head sd = true).
Context (Hpt : forall x, sat l' x =
  if decide (x = dst) then Some sd
  else if decide (x = src) then Some (set_count 0 ss)
  else if decide (sl_count ss = -2 /\ x = sl_hash ss) then set_link dst <$> sat l x
  else if decide (sl_link ss <> -1 /\ x = sl_link ss) then set_hash dst <$> sat l x
  else sat l x).

Definition rename (x : Z) : Z := if decide (x = src) then dst else x.

#[local] Lemma move_kinds : sl_count ss = -2 \/ is_head ss = true.
Proof using All. destruct (slot_kinds _ _ _ (lb_slot l Hb src ss Hsrc)) as [?|?]; done. Qed.

#[local] Lemma move_src_dst : src <> dst.
Proof using All. intros ->. congruence. Qed.

(** What becomes of a used slot. *)
Lemma move_slot x s :
  sat l x = Some s -> sl_count s <> 0 ->
  exists s', sat l' (rename x) = Some s' /\
    sl_link s' = rename (sl_link s) /\ sl_size s' = sl_size s /\ sl_data s' = sl_data s /\
    (sl_count s = -2 -> sl_count s' = -2 /\ sl_hash s' = rename (sl_hash s)) /\
    (is_head s = true -> is_head s' = true /\ sl_hash s' = sl_hash s /\
                         (x <> src -> sl_count s' = sl_count s)).
Proof using All.
  intros Hs Hus. destruct (chain_neighbours l src ss Hb Hsrc Hu) as (Hn1 & Hn2 & Hn3).
  pose proof move_src_dst as Hsd.
  assert (Hlsrc : sl_link s = src -> sl_count ss = -2 /\ sl_hash ss = x).
  { intros E. destruct (link_next l x s Hb Hs Hus) as (sy & Hy & Hcy & Hhy).
    - rewrite E. pose proof (sat_range _ _ _ Hsrc). lia.
    - rewrite E in Hy. simplify_eq. done. }
  assert (Hhsrc : sl_count s = -2 -> sl_hash s = src -> sl_link ss = x).
  { intros He E. destruct (ext_prev l x s Hb Hs He) as (sp & Hp & _ & Hlp).
    rewrite E in Hp. simplify_eq. done. }
  pose proof (sat_range _ _ _ Hs) as Hxr.
  unfold rename at 1. destruct (decide (x = src)) as [->|Hx].
  - assert (s = ss) as -> by congruence. exists sd. rewrite Hpt, decide_True by done.
    unfold rename. rewrite decide_False by done. split; [done|]. repeat (split; [done|]).
    split; [|intros Hh; split; [by apply Hhead|done]].
    intros He. split; [by apply Hext|]. rewrite decide_False; [done|by apply Hn2].
  - rewrite Hpt, decide_False by congruence. rewrite decide_False by done.
    destruct (decide (sl_count ss = -2 /\ x = sl_hash ss)) as [[He ->]|Hm].
    + rewrite Hs. exists (set_link dst s). simpl. split; [done|].
      destruct (ext_prev l src ss Hb Hsrc He) as (sp & Hp & _ & Hlp). simplify_eq.
      unfold rename. rewrite decide_True by done. repeat (split; [done|]).
      split; [|done]. intros He'. split; [done|]. rewrite decide_False; [done|].
      intros E. apply Hn3; [done| |symmetry; by apply Hhsrc].
      rewrite (Hhsrc He' E). lia.
    + destruct (decide (sl_link ss <> -1 /\ x = sl_link ss)) as [[Hl ->]|Hc].
      * rewrite Hs. exists (set_hash dst s). simpl. split; [done|].
        destruct (link_next l src ss Hb Hsrc Hu Hl) as (sy & Hy & Hcy & Hhy). simplify_eq.
        unfold rename. split; [|repeat (split; [done|])].
        { rewrite decide_False; [done|]. intros E. destruct (Hlsrc E). by destruct Hn3. }
        split; [intros _; rewrite decide_True; done|].
        intros Hh. apply is_head_cases in Hh. lia.
      * exists s. split; [done|]. unfold rename.
        split; [|repeat (split; [done|])].
        { rewrite decide_False; [done|]. intros E. apply Hm. destruct (Hlsrc E). done. }
        split; [|done]. intros He. split; [done|]. rewrite decide_False; [done|].
        intros E. apply Hc. rewrite (Hhsrc He E). split; [lia|done].
Qed.

(** Every used slot of the new array comes from a used slot of the old one. *)
Lemma move_inv x' s' :
  sat l' x' = Some s' -> sl_count s' <> 0 ->
  exists x s, sat l x = Some s /\ sl_count s <> 0 /\ rename x = x' /\
    (sl_count s' = -2 -> sl_count s = -2) /\ (is_head s' = true -> is_head s = true).
Proof using All.
  intros Hs' Hc'. pose proof move_src_dst. rewrite Hpt in Hs'. unfold rename.
  destruct (decide (x' = dst)) as [->|Hd].
  - injection Hs' as <-. exists src, ss. rewrite decide_True by done. repeat (split; [done|]).
    destruct move_kinds as [He|Hh].
    + split; [done|]. intros Hh%is_head_cases. rewrite (Hext He) in Hh. lia.
    + split; [|done]. intros E. apply Hhead, is_head_cases in Hh. lia.
  - destruct (decide (x' = src)) as [->|Hx]; [injection Hs' as <-; by destruct Hc'|].
    exists x'. rewrite decide_False by done.
    repeat case_decide; destruct (sat l x') as [s|]; simpl in Hs'; try done;
      injection Hs' as <-; exists s; done.
Qed.

Lemma move_dseg i rest :
  (exists s, sat l i = Some s /\ sl_count s <> 0) -> dseg l i rest ->
  dseg l' (rename i) (rename <$> rest).
Proof using All.
  assert (Hm1 : rename (-1) = -1).
  { unfold rename. rewrite decide_False; [done|]. pose proof (sat_range _ _ _ Hsrc). lia. }
  revert i. induction rest as [|j rest IH]; intros i (s & Hs & Hus) Hd; cbn [dseg fmap list_fmap] in *.
  - destruct Hd as (s1 & Hs1 & Hl). assert (s1 = s) as -> by congruence.
    destruct (move_slot i s Hs Hus) as (s' & ? & Hl' & _). exists s'. by rewrite Hl', Hl.
  - destruct Hd as ((s1 & Hs1 & Hl) & (sj & Hsj & Hcj & Hhj) & Hd).
    assert (s1 = s) as -> by congruence.
    destruct (move_slot i s Hs Hus) as (s' & ? & Hl' & _).
    destruct (move_slot j sj Hsj ltac:(lia)) as (sj' & ? & _ & _ & _ & Hej & _).
    destruct (Hej Hcj) as [? Hhj'].
    split; [exists s'; by rewrite Hl', Hl|]. split; [exists sj'; by rewrite Hhj', Hhj|].
    apply IH; [|done]. exists sj. split; [done|lia].
Qed.

#[local] Lemma move_val x : (exists s, sat l x = Some s /\ sl_count s <> 0) ->
  slot_val l' (rename x) = slot_val l x.
Proof using All.
  intros (s & Hs & Hus). destruct (move_slot x s Hs Hus) as (s' & Hs' & _ & Hz & Hdt & _).
  unfold slot_val. by rewrite Hs, Hs', Hz, Hdt.
Qed.

#[local] Lemma move_chain_val i s rest :
  sat l i = Some s -> is_head s = true -> dseg l i rest ->
  chain_val l' (rename <$> (i :: rest)) = chain_val l (i :: rest).
Proof using All.
  intros Hs Hh Hd.
  assert (Hall : forall x, x ∈ i :: rest -> exists s, sat l x = Some s /\ sl_count s <> 0).
  { intros x Hx. apply elem_of_cons in Hx as [->|Hx]; [eauto using head_used|].
    destruct (dseg_rest_ext _ _ _ _ Hd Hx) as (sx & ? & ?). exists sx. split; [done|lia]. }
  revert Hall. generalize (i :: rest). intros c. induction c as [|x c IH]; intros Hall; [done|].
  cbn [fmap list_fmap]. rewrite !chain_val_cons, move_val by (apply Hall; set_solver).
  f_equal. apply IH. intros. apply Hall. set_solver.
Qed.

#[local] Lemma move_kid s s' :
  sl_data s' = sl_data s -> sl_hash s' = sl_hash s -> kid_of_slot s' = kid_of_slot s.
Proof using. unfold kid_of_slot. by intros -> ->. Qed.

Lemma move_entry i k v : entry l i k v -> entry l' (rename i) k v.
Proof using All.
  intros (s & rest & Hs & Hh & <- & Hd & <-).
  destruct (move_slot i s Hs (head_used _ Hh)) as (s' & Hs' & _ & _ & Hdt & _ & Hhd).
  destruct (Hhd Hh) as (Hh' & Hhs & _). exists s', (rename <$> rest).
  split; [done|]. split; [done|]. split; [by apply move_kid|].
  split; [apply move_dseg; [eauto using head_used|done]|].
  by apply (move_chain_val i s rest).
Qed.

#[local] Lemma move_entry_inv i' k v : entry l' i' k v -> exists i, entry l i k v.
Proof using All.
  intros (s' & rest' & Hs' & Hh' & <- & Hd' & <-).
  destruct (move_inv i' s' Hs' (head_used _ Hh')) as (i & s & Hs & Hus & <- & _ & Hh).
  specialize (Hh Hh'). destruct (lb_chain l Hb i s Hs Hh) as (rest & Hd).
  exists i. exists s, rest. split; [done|]. split; [done|].
  destruct (move_slot i s Hs Hus) as (s1 & Hs1 & _ & _ & Hdt & _ & Hhd).
  destruct (Hhd Hh) as (_ & Hhs & _). simplify_eq. split; [symmetry; by apply move_kid|].
  split; [done|]. symmetry.
  pose proof (move_dseg i rest ltac:(eauto) Hd) as Hd1.
  rewrite (dseg_functional _ _ _ _ Hd' Hd1). by apply (move_chain_val i s rest).
Qed.

Lemma move_rep m : lrep l m -> lrep l' m.
Proof using All.
  intros Hm. apply (lrep_same l); [done|]. intros k v. split.
  - intros (i & He). by apply (move_entry_inv i).
  - intros (i & He). exists (rename i). by apply move_entry.
Qed.

Lemma move_base : lbase l'.
Proof using All.
  split.
  - rewrite Hlen. apply Hb.
  - intros i s Hs. rewrite Hlen, Hpt in *.
    destruct (decide (i = dst)) as [->|]; [by injection Hs as <-|].
    destruct (decide (i = src)) as [->|].
    { injection Hs as <-. destruct (lb_slot l Hb src ss Hsrc) as [_ Hdt _ _ _].
      split; unfold is_head, set_count; simpl; try lia; try done. }
    destruct (decide (sl_count ss = -2 /\ i = sl_hash ss)) as [_|].
    { destruct (sat l i) as [s1|] eqn:E; simpl in Hs; [injection Hs as <-|done].
      by destruct (lb_slot l Hb i s1 E). }
    destruct (decide (sl_link ss <> -1 /\ i = sl_link ss)) as [[Hl ->]|]; [|by apply Hb].
    destruct (link_next l src ss Hb Hsrc Hu Hl) as (sy & Hy & Hcy & _).
    rewrite Hy in Hs. simpl in Hs. injection Hs as <-.
    destruct (lb_slot l Hb _ sy Hy) as [? ? _ _ ?].
    split; unfold is_head, set_hash; simpl; try rewrite Hcy; simpl; try lia; try done; auto.
  - intros i' s' Hs' Hh'.
    destruct (move_inv i' s' Hs' (head_used _ Hh')) as (i & s & Hs & Hus & <- & _ & Hh).
    destruct (lb_chain l Hb i s Hs (Hh Hh')) as (rest & Hd).
    exists (rename <$> rest). apply move_dseg; eauto.
  - intros j' s' Hs' He'.
    destruct (move_inv j' s' Hs' ltac:(lia)) as (j & s & Hs & Hus & <- & He & _).
    destruct (lb_ext l Hb j s Hs (He He')) as (i & si & rest & Hi & Hhi & Hd & Hj).
    destruct (move_slot i si Hi (head_used _ Hhi)) as (si' & Hi' & _ & _ & _ & _ & Hhd).
    exists (rename i), si', (rename <$> rest). split; [done|]. split; [by apply Hhd|].
    split; [apply move_dseg; eauto using head_used|]. by apply list_elem_of_fmap_2.
  - intros i' j' si' sj' Hi' Hj' Hhi' Hhj' Hk.
    destruct (move_inv i' si' Hi' (head_used _ Hhi')) as (i & si & Hi & Hui & <- & _ & Hhi).
    destruct (move_inv j' sj' Hj' (head_used _ Hhj')) as (j & sj & Hj & Huj & <- & _ & Hhj).
    destruct (move_slot i si Hi Hui) as (s1 & H1 & _ & _ & Hd1 & _ & Hh1).
    destruct (move_slot j sj Hj Huj) as (s2 & H2 & _ & _ & Hd2 & _ & Hh2).
    destruct (Hh1 (Hhi Hhi')) as (_ & Hz1 & _), (Hh2 (Hhj Hhj')) as (_ & Hz2 & _).
    assert (s1 = si') as -> by congruence. assert (s2 = sj') as -> by congruence.
    f_equal. apply (lb_uniq l Hb i j si sj); try done; [by apply Hhi|by apply Hhj|].
    by rewrite <- (move_kid si si' Hd1 Hz1), <- (move_kid sj sj' Hd2 Hz2).
  - intros i' s' rest' Hs' Hh' Hd'.
    destruct (move_inv i' s' Hs' (head_used _ Hh')) as (i & s & Hs & Hus & <- & _ & Hh). specialize (Hh Hh').
    destruct (lb_chain l Hb i s Hs Hh) as (rest & Hd).
    rewrite (dseg_functional _ _ _ _ Hd' (move_dseg i rest ltac:(eauto) Hd)).
    change (rename i :: (rename <$> rest)) with (rename <$> (i :: rest)).
    rewrite (move_chain_val i s rest Hs Hh Hd), <- (lb_full l Hb i s rest Hs Hh Hd). unfold blen. by rewrite length_fmap.
Qed.
End Move.

(** ** Changing the collision counter of a leading slot *)

Section SetLead.
Context (l l' : list qhasharr_slot) (h c : Z) (s0 : qhasharr_slot).
Context (Hb : lbase l) (H0 : sat l h = Some s0) (Hc0 : 0 < sl_count s0) (Hc : 0 < c < 2 ^ 15).
Context (Hlen : blen l' = blen l).
Context (Hpt : forall x, sat l' x = if decide (x = h) then Some (set_count c s0) else sat l x).

#[local] Lemma lead_dseg i s rest : sat l i = Some s -> is_head s = true -> dseg l i rest -> dseg l' i rest.
Proof using All.
  intros Hs Hh Hd.
  assert (Ha : agree l l' rest).
  { intros x Hx. rewrite Hpt, decide_False; [done|]. intros ->.
    apply (rest_not_head l i rest h s0 Hd Hx H0). apply is_head_cases. lia. }
  destruct (decide (i = h)) as [->|Hne].
  - apply (dseg_frame_head l l' h rest s0 (set_count c s0)); try done.
    by rewrite Hpt, decide_True.
  - apply (dseg_frame l); [done|]. intros x Hx. apply elem_of_cons in Hx as [->|Hx]; [|by apply Ha].
    by rewrite Hpt, decide_False.
Qed.

#[local] Lemma lead_slot_val x : slot_val l' x = slot_val l x.
Proof using All.
  unfold slot_val. rewrite Hpt. destruct (decide (x = h)) as [->|]; [by rewrite H0|done].
Qed.

#[local] Lemma lead_slot i s :
  sat l i = Some s -> exists s', sat l' i = Some s' /\ is_head s' = is_head s /\
    kid_of_slot s' = kid_of_slot s /\ (sl_count s = -2 <-> sl_count s' = -2).
Proof using All.
  intros Hs. rewrite Hpt. destruct (decide (i = h)) as [->|]; [|by exists s].
  assert (s = s0) as -> by congruence. exists (set_count c s0). split; [done|].
  split; [|split; [done|simpl; lia]].
  transitivity true; [|symmetry]; apply is_head_cases; simpl; lia.
Qed.

#[local] Lemma lead_inv i s' :
  sat l' i = Some s' -> exists s, sat l i = Some s /\ is_head s' = is_head s /\
    kid_of_slot s' = kid_of_slot s /\ (sl_count s = -2 <-> sl_count s' = -2).
Proof using All.
  intros Hs'. assert (exists s, sat l i = Some s) as (s & Hs).
  { rewrite Hpt in Hs'. destruct (decide (i = h)) as [->|]; eauto. }
  exists s. destruct (lead_slot i s Hs) as (s1 & ? & ?). simplify_eq. done.
Qed.

Lemma lead_entry i k v : entry l' i k v <-> entry l i k v.
Proof using All.
  split.
  - intros (s' & rest' & Hs' & Hh' & <- & Hd' & <-).
    destruct (lead_inv i s' Hs') as (s & Hs & Hh & Hk & _).
    destruct (lb_chain l Hb i s Hs ltac:(congruence)) as (rest & Hd).
    exists s, rest. do 3 (split; [congruence|]). split; [done|].
    rewrite (dseg_functional _ _ _ _ Hd' (lead_dseg i s rest Hs ltac:(congruence) Hd)).
    symmetry. apply chain_val_frame. intros; apply lead_slot_val.
  - intros (s & rest & Hs & Hh & <- & Hd & <-).
    destruct (lead_slot i s Hs) as (s' & Hs' & Hh' & Hk & _).
    exists s', rest. do 3 (split; [congruence|]). split; [by apply (lead_dseg i s)|].
    apply chain_val_frame. intros; apply lead_slot_val.
Qed.

Lemma lead_rep m : lrep l m -> lrep l' m.
Proof using All.
  intros Hm. apply (lrep_same l); [done|]. intros k v.
  split; intros (i & He); exists i; by apply lead_entry.
Qed.

Lemma lead_base : lbase l'.
Proof using All.
  split.
  - rewrite Hlen. apply Hb.
  - intros i s Hs. rewrite Hlen, Hpt in *. destruct (decide (i = h)) as [->|]; [|by apply Hb].
    injection Hs as <-. destruct (lb_slot l Hb h s0 H0) as [? ? Hhd Hld ?].
    assert (is_head s0 = true) as Hh by (apply is_head_cases; lia).
    split; simpl; try lia; try done; auto.
  - intros i s' Hs' Hh'. destruct (lead_inv i s' Hs') as (s & Hs & Hh & _).
    destruct (lb_chain l Hb i s Hs ltac:(congruence)) as (rest & Hd).
    exists rest. apply (lead_dseg i s); congruence.
  - intros j s' Hs' He'. destruct (lead_inv j s' Hs') as (s & Hs & _ & _ & He).
    destruct (lb_ext l Hb j s Hs ltac:(by apply He)) as (i & si & rest & Hi & Hhi & Hd & Hj).
    destruct (lead_slot i si Hi) as (si' & Hi' & Hh' & _).
    exists i, si', rest. do 2 (split; [congruence|]). split; [by apply (lead_dseg i si)|done].
  - intros i j si' sj' Hi' Hj' Hhi' Hhj' Hk.
    destruct (lead_inv i si' Hi') as (si & Hi & ? & ? & _).
    destruct (lead_inv j sj' Hj') as (sj & Hj & ? & ? & _).
    apply (lb_uniq l Hb i j si sj); congruence.
  - intros i s' rest' Hs' Hh' Hd'. destruct (lead_inv i s' Hs') as (s & Hs & Hh & _). rewrite Hh' in Hh. symmetry in Hh.
    destruct (lb_chain l Hb i s Hs Hh) as (rest & Hd).
    rewrite (dseg_functional _ _ _ _ Hd' (lead_dseg i s rest Hs Hh Hd)).
    rewrite (chain_val_frame l l') by (intros; apply lead_slot_val). by apply (lb_full l Hb i s).
Qed.
End SetLead.
