(* ===== verification/HashArrOps.v ===== *)
(** * What the internal routines of the table compute

    Each routine of [qhasharr.c] that the public operations call, run on an array that satisfies the
    invariant: it never reads outside the array, its loops end within the array's size, and its
    effect on the array is one of the transformations of [HashArrInv]. *)

From S2P Require Import Prelude Common HashArr HashArrSeg HashArrInv.
Import HashArr.

Abbreviation st e M u n l := (HS e (Some (Tbl M u n l))).

(** ** Single commands *)

Lemma tbl_null_ok e M u n l : tbl_null (st e M u n l) = Some (false, st e M u n l).
Proof. done. Qed.

Lemma get_maxslots_ok e M u n l : get_maxslots (st e M u n l) = Some (M, st e M u n l).
Proof. done. Qed.

Lemma get_usedslots_ok e M u n l : get_usedslots (st e M u n l) = Some (u, st e M u n l).
Proof. done. Qed.

Lemma read_slot_ok e M u n l i s :
  sat l i = Some s -> read_slot i (st e M u n l) = Some (s, st e M u n l).
Proof.
  intros Hs. unfold read_slot. rewrite (SM_bind_Some _ _ _ (Tbl M u n l) (st e M u n l)) by done.
  change (slot_at (Tbl M u n l) i) with (sat l i). by rewrite Hs.
Qed.

Lemma write_slot_ok e M u n l i s f :
  sat l i = Some s -> write_slot i f (st e M u n l) = Some (tt, st e M u n (lupd l i (f s))).
Proof.
  intros Hs. unfold write_slot. rewrite (SM_bind_Some _ _ _ (Tbl M u n l) (st e M u n l)) by done.
  change (slot_at (Tbl M u n l) i) with (sat l i). by rewrite Hs.
Qed.

Lemma add_used_ok d e M u n l : add_used d (st e M u n l) = Some (tt, st e M (i32 (u + d)) n l).
Proof. done. Qed.

Lemma add_num_ok d e M u n l : add_num d (st e M u n l) = Some (tt, st e M u (i32 (n + d)) l).
Proof. done. Qed.

Lemma fail_with_ok {A} e' (a : A) e M u n l : fail_with e' a (st e M u n l) = Some (a, st e' M u n l).
Proof. done. Qed.

(** Run the next command of the goal with its lemma. *)
Ltac step_with lem := erewrite SM_bind_Some; [|by eapply lem; eauto].
Ltac hstep :=
  first
  [ erewrite SM_bind_Some; [|by apply tbl_null_ok]
  | erewrite SM_bind_Some; [|by apply get_maxslots_ok]
  | erewrite SM_bind_Some; [|by apply get_usedslots_ok]
  | erewrite SM_bind_Some; [|apply read_slot_ok; by eauto]
  | erewrite SM_bind_Some; [|apply write_slot_ok; by eauto]
  | erewrite SM_bind_Some; [|by apply add_used_ok]
  | erewrite SM_bind_Some; [|by apply add_num_ok] ]; cbv beta zeta iota.

(** ** Counting after a change *)

Lemma sat_tail a l x : 0 <= x -> sat (a :: l) (x + 1) = sat l x.
Proof.
  intros. unfold sat. rewrite !decide_True by lia. by replace (Z.to_nat (x + 1)) with (S (Z.to_nat x)) by lia.
Qed.

Lemma countb_same P l l' :
  blen l' = blen l -> (forall x s s', sat l x = Some s -> sat l' x = Some s' -> P s' = P s) ->
  countb P l' = countb P l.
Proof.
  unfold blen. revert l'. induction l as [|a l IH]; intros l' Hlen Hs.
  - by destruct l'.
  - destruct l' as [|a' l']; [done|]. rewrite !countb_cons. f_equal.
    + f_equal. by apply (Hs 0).
    + apply IH; [simpl in *; lia|]. intros x s s' Hx Hx'.
      pose proof (sat_range _ _ _ Hx) as [Hr _]. apply (Hs (x + 1)); by rewrite sat_tail.
Qed.

Lemma countb_at P l l' i s s' :
  blen l' = blen l -> sat l i = Some s -> sat l' i = Some s' ->
  (forall x a a', x <> i -> sat l x = Some a -> sat l' x = Some a' -> P a' = P a) ->
  countb P l' = countb P l - b2n (P s) + b2n (P s').
Proof.
  intros Hlen Hs Hs' Hp. rewrite <- (countb_lupd P l i s s') by done. apply countb_same.
  - by rewrite blen_lupd.
  - intros x a a' Ha Ha'. rewrite (sat_lupd _ _ _ _ s) in Ha by done.
    destruct (decide (x = i)) as [->|]; [congruence|]. by apply (Hp x).
Qed.

Lemma used_lt l i s : sat l i = Some s -> sl_count s = 0 -> countb is_used l < blen l.
Proof.
  intros Hs Hc. rewrite <- (blen_lupd l i (set_count 1 s)).
  pose proof (countb_le is_used (lupd l i (set_count 1 s))) as Hle.
  rewrite (countb_lupd _ _ _ s) in Hle by done. unfold is_used in Hle at 2 3. rewrite Hc in Hle.
  simpl in Hle. rewrite blen_lupd in *. lia.
Qed.

Lemma all_used P l : (forall i s, sat l i = Some s -> P s = true) -> countb P l = blen l.
Proof.
  induction l as [|a l IH]; intros Hall; [done|]. rewrite countb_cons, blen_cons.
  rewrite (Hall 0 a) by done. rewrite IH; [done|]. intros i s Hs.
  apply (Hall (i + 1)). pose proof (sat_range _ _ _ Hs). by rewrite sat_tail by lia.
Qed.

Lemma used_gt l i s : sat l i = Some s -> sl_count s <> 0 -> 0 < countb is_used l.
Proof. intros Hs Hc. apply countb_sat_pos. exists i, s. by rewrite is_used_ne. Qed.

(** ** Freeing slots *)

Fixpoint free_chain (l : list qhasharr_slot) (c : list Z) : list qhasharr_slot :=
  match c with
  | [] => l
  | x :: c' => match sat l x with
               | Some s => free_chain (lupd l x (set_count 0 s)) c'
               | None => l
               end
  end.

Lemma blen_free_chain l c : blen (free_chain l c) = blen l.
Proof.
  revert l. induction c as [|x c IH]; intros l; [done|]. simpl.
  destruct (sat l x); [|done]. by rewrite IH, blen_lupd.
Qed.

Lemma free_chain_sat l c x :
  (forall y, y ∈ c -> exists s, sat l y = Some s) ->
  sat (free_chain l c) x = if decide (x ∈ c) then set_count 0 <$> sat l x else sat l x.
Proof.
  revert l. induction c as [|y c IH]; intros l Hall; [done|]. simpl.
  destruct (Hall y) as (s & Hs); [set_solver|]. rewrite Hs, IH.
  - rewrite !(sat_lupd _ _ _ _ s) by done. destruct (decide (x = y)) as [->|Hne].
    + rewrite (decide_True (P := y ∈ y :: c)) by set_solver. rewrite Hs. by destruct (decide (y ∈ c)).
    + destruct (decide (x ∈ c)); [rewrite decide_True by set_solver|rewrite decide_False by set_solver]; done.
  - intros z Hz. rewrite (sat_lupd _ _ _ _ s) by done. destruct (decide (z = y)); [eauto|]. apply Hall. set_solver.
Qed.

Lemma remove_slot_ok e M u n l i s :
  sat l i = Some s -> sl_count s <> 0 ->
  remove_slot i (st e M u n l) = Some (true, st e M (i32 (u - 1)) n (lupd l i (set_count 0 s))).
Proof.
  intros Hs Hc. unfold remove_slot. hstep. case_test; [done|]. by repeat hstep.
Qed.

Lemma copy_slot_ok e M u n l i1 i2 s1 s2 :
  sat l i1 = Some s1 -> sl_count s1 = 0 -> sat l i2 = Some s2 -> sl_count s2 <> 0 ->
  copy_slot i1 i2 (st e M u n l) = Some (true, st e M (i32 (u + 1)) n (lupd l i1 s2)).
Proof.
  intros Hs1 Hc1 Hs2 Hc2. unfold copy_slot. hstep. rewrite Hc1. cbn [Z.eqb negb]. hstep.
  case_test; [done|]. by repeat hstep.
Qed.

Lemma remove_chain_ok fuel e M u n l i rest lc :
  dseg l i rest -> NoDup (i :: rest) ->
  (forall x, x ∈ i :: rest -> exists s, sat l x = Some s /\ sl_count s <> 0) ->
  u = countb is_used l -> blen l < 2 ^ 31 -> 0 <= lc -> lc + blen rest <= M ->
  (length rest < fuel)%nat ->
  remove_chain fuel i lc (st e M u n l) =
    Some (tt, st e M (countb is_used (free_chain l (i :: rest))) n (free_chain l (i :: rest))).
Proof.
  revert u l i rest lc. induction fuel as [|fuel IH]; intros u l i rest lc Hd Hnd Hall -> Hlen Hlc Hm Hf;
    [lia|]. cbn [remove_chain].
  destruct (Hall i) as (s & Hs & Hc); [set_solver|].
  assert (Hu : countb is_used l - 1 = countb is_used (lupd l i (set_count 0 s))).
  { rewrite (countb_lupd _ _ _ s) by done.
    rewrite (proj2 (is_used_ne s)) by done. change (is_used (set_count 0 s)) with false. simpl. lia. }
  hstep. erewrite SM_bind_Some; [|by eapply remove_slot_ok].
  pose proof (used_gt l i s Hs Hc). pose proof (countb_le is_used l).
  rewrite i32_small, Hu by lia. cbn [free_chain]. rewrite Hs. cbv beta zeta.
  destruct rest as [|j rest]; cbn [dseg] in Hd.
  - destruct Hd as (s' & ? & Hl). assert (s' = s) as -> by congruence. by rewrite Hl.
  - destruct Hd as ((s' & ? & Hl) & (sj & Hsj & _) & Hd). assert (s' = s) as -> by congruence.
    rewrite Hl. pose proof (sat_range _ _ _ Hsj). case_test; [lia|]. hstep.
    rewrite blen_cons in Hm. pose proof (blen_nonneg rest). case_test; [lia|].
    apply NoDup_cons in Hnd as [Hni Hnd].
    rewrite (IH _ _ j rest); [done| |done| |done|by rewrite blen_lupd|lia|lia|simpl in Hf; lia].
    + apply (dseg_frame l); [done|]. intros x Hx. rewrite (sat_lupd _ _ _ _ s) by done.
      rewrite decide_False; [done|]. by intros ->.
    + intros x Hx. rewrite (sat_lupd _ _ _ _ s) by done. rewrite decide_False by (by intros ->).
      apply Hall. set_solver.
Qed.

(** A head whose chain is freed: nothing else changes. *)
Lemma chain_all_used l i s rest x :
  sat l i = Some s -> is_head s = true -> dseg l i rest -> x ∈ i :: rest ->
  exists sx, sat l x = Some sx /\ sl_count sx <> 0.
Proof.
  intros Hs Hh Hd [->|Hx]%elem_of_cons; [eauto using head_used|].
  destruct (dseg_rest_ext _ _ _ _ Hd Hx) as (sx & ? & ?). exists sx. split; [done|lia].
Qed.

Lemma remove_data_ok e M u n l i s rest :
  lbase l -> M = blen l -> u = countb is_used l -> sat l i = Some s -> is_head s = true ->
  dseg l i rest -> 0 < n < 2 ^ 31 ->
  remove_data i (st e M u n l) =
    Some (true, st e M (countb is_used (free_chain l (i :: rest))) (n - 1) (free_chain l (i :: rest))).
Proof.
  intros Hb -> -> Hs Hh Hd Hn. unfold remove_data. pose proof (head_used _ Hh) as Hu.
  pose proof (dseg_length l i rest (head_not_ext _ _ _ Hs Hh) Hd) as Hle. rewrite blen_cons in Hle.
  hstep. case_test; [done|]. hstep. erewrite SM_bind_Some; [|eapply remove_chain_ok; eauto].
  - hstep. by rewrite i32_small by lia.
  - apply (dseg_NoDup l); [by eapply head_not_ext|done].
  - intros x Hx. by eapply (chain_all_used l i s rest).
  - apply Hb.
  - lia.
  - lia.
  - unfold blen in *. lia.
Qed.

Lemma free_chain_pt l i s rest x :
  sat l i = Some s -> is_head s = true -> dseg l i rest ->
  sat (free_chain l (i :: rest)) x = if decide (x ∈ i :: rest) then set_count 0 <$> sat l x else sat l x.
Proof.
  intros Hs Hh Hd. apply free_chain_sat. intros y Hy.
  destruct (chain_all_used l i s rest y Hs Hh Hd Hy) as (sy & ? & _). eauto.
Qed.

(** Only the head of a freed chain counted as a key. *)
Lemma free_chain_heads P l i s rest :
  sat l i = Some s -> is_head s = true -> dseg l i rest ->
  (forall a, P a = true -> is_head a = true) ->
  countb P (free_chain l (i :: rest)) = countb P l - b2n (P s).
Proof.
  intros Hs Hh Hd HP.
  assert (Hz : forall a, P (set_count 0 a) = false).
  { intros a. destruct (P (set_count 0 a)) eqn:E; [|done]. by apply HP in E. }
  rewrite (countb_at P l _ i s (set_count 0 s)); [rewrite Hz; simpl; lia|apply blen_free_chain|done| |].
  - rewrite (free_chain_pt l i s) by done. rewrite decide_True by set_solver. by rewrite Hs.
  - intros x a a' Hne Ha Ha'. rewrite (free_chain_pt l i s) in Ha' by done.
    destruct (decide (x ∈ i :: rest)) as [Hx|]; [|congruence]. rewrite Ha in Ha'. simpl in Ha'.
    injection Ha' as <-. rewrite Hz. destruct (P a) eqn:E; [|done]. apply HP in E.
    exfalso. apply (rest_not_head l i rest x a Hd); [set_solver|done|done].
Qed.

Lemma in_bucket_head b a : in_bucket b a = true -> is_head a = true.
Proof. by intros [? _]%in_bucket_true. Qed.

(** ** Finding an empty slot *)

Lemma find_empty_loop_ok fuel e M u n l h k :
  M = blen l -> 0 <= h < M -> 0 <= k < M -> Z.of_nat fuel = M - k ->
  (forall j s, 0 <= j < k -> sat l (cyc M h j) = Some s -> sl_count s <> 0) ->
  exists r, find_empty_loop fuel h (cyc M h k) (st e M u n l) = Some (r, st e M u n l) /\
    ((r = -1 /\ forall i s, sat l i = Some s -> sl_count s <> 0) \/
     exists s, sat l r = Some s /\ sl_count s = 0).
Proof.
  intros -> Hh. revert k. induction fuel as [|fuel IH]; intros k Hk Hf Hseen; [lia|].
  cbn [find_empty_loop]. destruct (sat_is_Some l (cyc (blen l) h k)) as (s & Hs); [by apply cyc_range|].
  hstep. case_test; [by eauto 6|]. hstep.
  change (if blen l <=? cyc (blen l) h k + 1 then 0 else cyc (blen l) h k + 1)
    with (cyc_next (blen l) (cyc (blen l) h k)).
  destruct (cyc_step (blen l) h k Hh Hk) as [Hnext Hend].
  assert (Hseen' : forall j s, 0 <= j < k + 1 -> sat l (cyc (blen l) h j) = Some s -> sl_count s <> 0).
  { intros j sj Hj Hsj. destruct (decide (j = k)) as [->|]; [congruence|]. apply (Hseen j); [lia|done]. }
  case_test.
  - exists (-1). split; [done|]. left. split; [done|]. intros i si Hi.
    destruct (cyc_onto (blen l) h i Hh (sat_range _ _ _ Hi)) as (j & Hj & <-).
    apply (Hseen' j); [lia|done].
  - rewrite Hnext. destruct (Z.eqb_spec (k + 1) (blen l)); [tauto|]. apply IH; [lia|lia|done].
Qed.

Lemma find_empty_ok e M u n l start :
  M = blen l -> u = countb is_used l -> 0 < M -> 0 <= start ->
  exists r, find_empty start (st e M u n l) = Some (r, st e M u n l) /\
    ((r = -1 /\ u = M) \/ exists s, sat l r = Some s /\ sl_count s = 0 /\ u < M).
Proof.
  intros -> -> HM Hst. unfold find_empty. hstep. case_test; [lia|].
  set (h := if blen l <=? start then 0 else start).
  assert (Hh : 0 <= h < blen l) by (unfold h; case_test; lia).
  destruct (find_empty_loop_ok (Z.to_nat (blen l)) e (blen l) (countb is_used l) n l h 0)
    as (r & Hr & Hcase); [done|done|lia|lia|lia|].
  rewrite cyc_0 in Hr by done. exists r. split; [done|].
  destruct Hcase as [[-> Hall]|(s & Hs & Hc)].
  - left. split; [done|]. apply all_used. intros i s Hs. apply is_used_ne. eauto.
  - right. exists s. eauto using used_lt.
Qed.

(** ** The key comparison *)

Section Keys.
Context `{KeyDigest}.

Lemma pair_keylen_range d : length d = SLOT_DATA_SIZE -> 0 <= pair_keylen d < 65536.
Proof.
  intros Hd. unfold pair_keylen. pose proof (le_num_range (sub_bytes OFF_KEYLEN 2 d)) as Hr.
  unfold blen in Hr. rewrite sub_bytes_length in Hr; [done|]. rewrite Hd. unfold OFF_KEYLEN, SLOT_DATA_SIZE. lia.
Qed.

Lemma length_pair_key d : length d = SLOT_DATA_SIZE -> length (pair_key d) = Q_HASHARR_KEYSIZE.
Proof. intros Hd. apply sub_bytes_length. rewrite Hd. unfold OFF_KEY, Q_HASHARR_KEYSIZE, SLOT_DATA_SIZE. lia. Qed.

(** [_get_idx] recognises a slot of the bucket exactly when it stores this key's identity. *)
Lemma same_key_kid key M s :
  length (sl_data s) = SLOT_DATA_SIZE -> sl_hash s = bucket_of key M ->
  same_key key s = true <-> kid_of_slot s = kid_of_key key M.
Proof.
  intros Hd Hh. unfold same_key, kid_of_slot, kid_of_key.
  pose proof (length_pair_key _ Hd) as Hlk. pose proof (pair_keylen_range _ Hd).
  rewrite andb_true_iff, Z.eqb_eq, Hh. set (kl := pair_keylen (sl_data s)) in *.
  assert (Hshort : (length key <=? Q_HASHARR_KEYSIZE)%nat = negb (Z.of_nat Q_HASHARR_KEYSIZE <? blen key)).
  { unfold blen. destruct (Nat.leb_spec (length key) Q_HASHARR_KEYSIZE), (Z.ltb_spec (Z.of_nat Q_HASHARR_KEYSIZE) (Z.of_nat (length key))); done || lia. }
  rewrite Hshort. destruct (Z.ltb_spec (Z.of_nat Q_HASHARR_KEYSIZE) (blen key)) as [Hl|Hl]; cbn [negb].
  - rewrite andb_true_iff, !bool_decide_eq_true. split.
    + intros (<- & -> & ->). destruct (Z.ltb_spec (Z.of_nat Q_HASHARR_KEYSIZE) (blen key)); [|lia].
      by rewrite take_ge by lia.
    + intros [= -> Hk Hm]. destruct (Z.ltb_spec (Z.of_nat Q_HASHARR_KEYSIZE) (blen key)); [|lia].
      rewrite take_ge in Hk by lia. done.
  - rewrite bool_decide_eq_true. unfold blen in *. rewrite (take_ge key) by lia. split.
    + intros (<- & Hk). destruct (Z.ltb_spec (Z.of_nat Q_HASHARR_KEYSIZE) (Z.of_nat (length key))); [lia|].
      by rewrite Nat2Z.id, <- Hk.
    + intros [= -> Hk _]. by rewrite Nat2Z.id in Hk.
Qed.

(** What [_put_data] stores is the identity of the key, whatever bytes of value follow. *)
Lemma store_key_kid key M c z lk d chunk :
  length d = SLOT_DATA_SIZE -> blen key < 65536 -> (length chunk <= Q_HASHARR_VALUESIZE)%nat ->
  kid_of_slot (Slot c (bucket_of key M) z lk (mem_write OFF_VALUE chunk (store_key key d))) =
  kid_of_key key M.
Proof.
  intros Hd Hk Hc. unfold kid_of_slot, kid_of_key, store_key, pair_keylen, pair_key, pair_keymd5. cbn [sl_data sl_hash].
  pose proof (key_md5_length key) as Hmd. set (kb := take (min (length key) Q_HASHARR_KEYSIZE) key).
  assert (Hkb : length kb = min (length key) Q_HASHARR_KEYSIZE) by (unfold kb; rewrite length_take; lia).
  unfold OFF_VALUE, OFF_KEY, OFF_KEYLEN, OFF_KEYMD5, Q_HASHARR_KEYSIZE, Q_HASHARR_VALUESIZE, SLOT_DATA_SIZE in *.
  set (d1 := mem_write 96 kb d). assert (Hd1 : length d1 = 146%nat) by (unfold d1; rewrite length_mem_write; lia).
  set (d2 := mem_write 130 (key_md5 key) d1).
  assert (Hd2 : length d2 = 146%nat) by (unfold d2; rewrite length_mem_write; lia).
  set (d3 := mem_write 128 (le_bytes 2 (blen key)) d2).
  assert (Hd3 : length d3 = 146%nat) by (unfold d3; rewrite length_mem_write; rewrite ?length_le_bytes; lia).
  assert (Hlen : le_num (sub_bytes 128 2 (mem_write 0 chunk d3)) = blen key).
  { rewrite sub_bytes_write_after by lia. unfold d3.
    rewrite sub_bytes_write_same by (rewrite length_le_bytes; lia).
    rewrite take_ge by (rewrite length_le_bytes; lia). apply le_num_bytes_small. unfold blen in *. lia. }
  rewrite Hlen.
  assert (Hkey : forall m, (m <= length kb)%nat -> sub_bytes 96 m (mem_write 0 chunk d3) = take m kb).
  { intros m Hm. rewrite sub_bytes_write_after by lia. unfold d3. rewrite sub_bytes_write_before by lia.
    unfold d2. rewrite sub_bytes_write_before by lia. unfold d1. by apply sub_bytes_write_same; lia. }
  f_equal; [f_equal|].
  - transitivity (sub_bytes 96 (length kb) (mem_write 0 chunk d3)).
    + unfold sub_bytes. rewrite take_take. f_equal. rewrite Hkb. unfold blen. lia.
    + rewrite Hkey by lia. rewrite take_ge by lia. unfold kb.
      destruct (Nat.le_gt_cases (length key) 32) as [Hle|Hgt]; [by rewrite !take_ge by lia|].
      by rewrite Nat.min_r by lia.
  - destruct (Z.ltb_spec (Z.of_nat 32) (blen key)); [|done].
    rewrite sub_bytes_write_after by lia. unfold d3.
    rewrite sub_bytes_write_after by (rewrite length_le_bytes; lia). unfold d2.
    rewrite sub_bytes_write_same by lia. by rewrite take_ge by lia.
Qed.
End Keys.

(** ** Looking a key up *)

Section Lookup.
Context `{KeyDigest}.

Lemma scanned_done P l h k j s :
  0 <= h < blen l -> 0 <= k <= j -> j < blen l -> countb P l <= scanned P l h k ->
  sat l (cyc (blen l) h j) = Some s -> P s = false.
Proof.
  intros Hh Hk Hj Hc Hs. destruct (P s) eqn:E; [|done].
  pose proof (scanned_S P l h j s Hh ltac:(lia) Hs) as HS. rewrite E in HS. simpl in HS.
  pose proof (scanned_mono P l h k j Hh Hk ltac:(lia)).
  pose proof (scanned_mono P l h (j + 1) (blen l) Hh ltac:(lia) ltac:(lia)) as Hm.
  rewrite scanned_all in Hm by done. lia.
Qed.

Lemma get_idx_loop_ok fuel e M u n l key h lead k :
  M = blen l -> 0 <= h < M -> 0 <= k < M -> Z.of_nat fuel = M - k + 1 ->
  sat l h = Some lead -> sl_count lead = nkeys l h ->
  (forall j s, 0 <= j < k -> sat l (cyc M h j) = Some s -> in_bucket h s = true -> same_key key s = false) ->
  exists r, get_idx_loop fuel key h (scanned (in_bucket h) l h k) (cyc M h k) (st e M u n l) =
              Some (r, st e M u n l) /\
    ((r = -1 /\ forall i s, sat l i = Some s -> in_bucket h s = true -> same_key key s = false) \/
     exists s, sat l r = Some s /\ in_bucket h s = true /\ same_key key s = true).
Proof.
  intros -> Hh. revert k. induction fuel as [|fuel IH]; intros k Hk Hf Hlead Hcnt Hseen; [lia|].
  cbn [get_idx_loop]. hstep. rewrite Hcnt. case_test.
  2:{ exists (-1). split; [done|]. left. split; [done|]. intros i s Hs Hin.
      destruct (cyc_onto (blen l) h i Hh (sat_range _ _ _ Hs)) as (j & Hj & <-).
      destruct (Z.lt_ge_cases j k); [apply (Hseen j); [lia|done|done]|].
      by rewrite (scanned_done _ l h k j s Hh) in Hin by (done || lia). }
  destruct (sat_is_Some l (cyc (blen l) h k)) as (s & Hs); [by apply cyc_range|]. hstep.
  rewrite (andb_comm (sl_hash s =? h)). fold (is_head s) (in_bucket h s).
  destruct (in_bucket h s && same_key key s) eqn:Hfound.
  { apply andb_true_iff in Hfound as [? ?]. exists (cyc (blen l) h k). eauto 6. }
  hstep. change (if blen l <=? cyc (blen l) h k + 1 then 0 else cyc (blen l) h k + 1)
    with (cyc_next (blen l) (cyc (blen l) h k)).
  destruct (cyc_step (blen l) h k Hh Hk) as [Hnext Hend].
  assert (Hseen' : forall j s, 0 <= j < k + 1 -> sat l (cyc (blen l) h j) = Some s ->
                     in_bucket h s = true -> same_key key s = false).
  { intros j sj Hj Hsj Hin. destruct (decide (j = k)) as [->|]; [|apply (Hseen j); [lia|done|done]].
    assert (sj = s) as -> by congruence. by rewrite Hin in Hfound. }
  case_test.
  - exists (-1). split; [done|]. left. split; [done|]. intros i si Hi.
    destruct (cyc_onto (blen l) h i Hh (sat_range _ _ _ Hi)) as (j & Hj & <-).
    apply (Hseen' j); [lia|done].
  - rewrite Hnext. destruct (Z.eqb_spec (k + 1) (blen l)); [tauto|].
    replace (if in_bucket h s then scanned (in_bucket h) l h k + 1 else scanned (in_bucket h) l h k)
      with (scanned (in_bucket h) l h (k + 1)) by
      (rewrite (scanned_S _ _ _ _ s) by done; destruct (in_bucket h s); simpl; lia).
    apply IH; try done; lia.
Qed.

(** [_get_idx] finds the entry of the key, and only that. *)
Lemma get_idx_ok e M u n l key :
  lbase l -> M = blen l -> bucket_ok l (bucket_of key M) 0 ->
  exists r, get_idx (Some key) (bucket_of key M) (st e M u n l) = Some (r, st e M u n l) /\
    ((r = -1 /\ forall i s, sat l i = Some s -> is_head s = true -> kid_of_slot s <> kid_of_key key M) \/
     exists s, 0 <= r /\ sat l r = Some s /\ is_head s = true /\ kid_of_slot s = kid_of_key key M).
Proof.
  intros Hb -> Hbk. set (h := bucket_of key (blen l)).
  assert (Hh : 0 <= h < blen l).
  { apply Z.mod_pos_bound. apply Hb. }
  assert (Hkid : forall i s, sat l i = Some s -> is_head s = true ->
            kid_of_slot s = kid_of_key key (blen l) -> in_bucket h s = true /\ same_key key s = true).
  { intros i s Hs Hhs Hk. assert (sl_hash s = h) as E by (unfold kid_of_slot, kid_of_key in Hk; by injection Hk).
    split; [by apply in_bucket_true|]. apply (same_key_kid key (blen l)); [|done|done].
    apply (lb_slot l Hb i s Hs). }
  unfold get_idx. hstep. destruct (sat_is_Some l h Hh) as (lead & Hlead). hstep.
  specialize (Hbk lead Hlead). rewrite Z.sub_0_r in Hbk. fold h in Hbk.
  case_test.
  - hstep. destruct (get_idx_loop_ok (S (Z.to_nat (blen l))) e (blen l) u n l key h lead 0)
      as (r & Hr & Hcase); [done|done|lia|lia|done| |lia|].
    { destruct (Z.ltb_spec 0 (nkeys l h)); [done|lia]. }
    rewrite scanned_0, cyc_0 in Hr by done. exists r. split; [done|].
    destruct Hcase as [[-> Hno]|(s & Hs & Hin & Hsame)].
    + left. split; [done|]. intros i s Hs Hhs Hk. destruct (Hkid i s Hs Hhs Hk) as [Hin Hsame].
      by rewrite (Hno i s Hs Hin) in Hsame.
    + right. exists s. apply in_bucket_true in Hin as [? ?]. pose proof (sat_range _ _ _ Hs).
      do 3 (split; [done || lia|]). apply (same_key_kid key (blen l)); [|done|done].
      apply (lb_slot l Hb r s Hs).
  - exists (-1). split; [done|]. left. split; [done|]. intros i s Hs Hhs Hk.
    destruct (Hkid i s Hs Hhs Hk) as [Hin _].
    assert (0 < nkeys l h) by (apply countb_sat_pos; eauto).
    destruct (Z.ltb_spec 0 (nkeys l h)); lia.
Qed.
End Lookup.

(** The scan of [qhasharr_remove] for another key of the bucket. *)
Lemma find_dup_ok fuel e M u n l h k :
  M = blen l -> 0 <= h < M -> 0 <= k -> k + 1 <= M -> Z.of_nat fuel >= M - k ->
  (forall j s, 0 < j <= k -> sat l (cyc M h j) = Some s -> ~ (sl_count s = -1 /\ sl_hash s = h)) ->
  (exists i s, sat l i = Some s /\ sl_count s = -1 /\ sl_hash s = h /\ i <> h) ->
  exists r s, find_dup fuel h h (cyc M h k + 1) (st e M u n l) = Some (Some r, st e M u n l) /\
    sat l r = Some s /\ sl_count s = -1 /\ sl_hash s = h /\ r <> h.
Proof.
  intros -> Hh. revert k. induction fuel as [|fuel IH]; intros k Hk HkM Hf Hseen Hex; [lia|].
  cbn [find_dup]. hstep.
  change (if blen l <=? cyc (blen l) h k + 1 then 0 else cyc (blen l) h k + 1)
    with (cyc_next (blen l) (cyc (blen l) h k)).
  destruct (cyc_step (blen l) h k Hh ltac:(lia)) as [Hnext Hend]. case_test.
  - exfalso. destruct Hex as (i & s & Hs & Hc & Hhs & Hne).
    destruct (cyc_onto (blen l) h i Hh (sat_range _ _ _ Hs)) as (j & Hj & Ej).
    assert (j <> 0) by (intros ->; rewrite cyc_0 in Ej; lia).
    apply (Hseen j s); [lia|by rewrite Ej|done].
  - rewrite Hnext in *. destruct (Z.eqb_spec (k + 1) (blen l)); [tauto|].
    destruct (sat_is_Some l (cyc (blen l) h (k + 1))) as (s & Hs); [apply cyc_range; lia|]. hstep.
    destruct ((sl_count s =? -1) && (sl_hash s =? h)) eqn:E.
    + apply andb_true_iff in E as [E1%Z.eqb_eq E2%Z.eqb_eq]. by exists (cyc (blen l) h (k + 1)), s.
    + apply IH; [lia|lia|lia| |done]. intros j sj Hj Hsj [Hc Hhj].
      destruct (decide (j = k + 1)) as [->|]; [|apply (Hseen j sj); [lia|done|done]].
      assert (sj = s) as -> by congruence. by rewrite Hc, Hhj, !Z.eqb_refl in E.
Qed.

(** ** Reading a value *)

(** What the reading loops need of a slot of a chain. *)
Definition readable (l : list qhasharr_slot) (x : Z) : Prop :=
  exists s, sat l x = Some s /\ length (sl_data s) = SLOT_DATA_SIZE /\ 1 <= sl_size s <= 146 /\
            (sl_count s <> -2 -> sl_size s <= 96).

Lemma chain_readable l i s rest x :
  lbase l -> sat l i = Some s -> is_head s = true -> dseg l i rest -> x ∈ i :: rest -> readable l x.
Proof.
  intros Hb Hs Hh Hd Hx. destruct (chain_all_used l i s rest x Hs Hh Hd Hx) as (sx & Hsx & Hu).
  exists sx. destruct (lb_slot l Hb x sx Hsx) as [_ Hdat Hhd _ Hext].
  destruct (slot_kinds _ _ _ (lb_slot l Hb x sx Hsx)) as [?|[He|Hhx]]; [done| |].
  - specialize (Hext He). do 3 (split; [done || lia|]). lia.
  - specialize (Hhd Hhx). do 3 (split; [done || lia|]). lia.
Qed.

Lemma blen_slot_val l x s :
  sat l x = Some s -> length (sl_data s) = SLOT_DATA_SIZE -> 0 <= sl_size s <= 146 ->
  blen (slot_val l x) = sl_size s.
Proof.
  intros Hs Hd Hz. unfold slot_val, blen. rewrite Hs, length_take, Hd. unfold SLOT_DATA_SIZE. lia.
Qed.

Lemma data_size_ok fuel e M u n l i rest vs lc :
  dseg l i rest -> (forall x, x ∈ i :: rest -> readable l x) ->
  0 <= lc -> lc + blen rest <= M -> (length rest < fuel)%nat ->
  0 <= vs -> vs + 146 * (1 + blen rest) < 2 ^ 64 ->
  data_size fuel i vs lc (st e M u n l) =
    Some (Some (vs + blen (chain_val l (i :: rest))), st e M u n l).
Proof.
  revert i rest vs lc. induction fuel as [|fuel IH]; intros i rest vs lc Hd Hall Hlc HM Hf Hvs Hb; [lia|].
  cbn [data_size]. destruct (Hall i) as (s & Hs & Hdat & Hz & _); [set_solver|].
  pose proof (sat_range _ _ _ Hs). case_test; [lia|]. hstep. pose proof (blen_nonneg rest).
  rewrite chain_val_cons, blen_app, (blen_slot_val l i s) by (done || lia).
  rewrite u64_small by lia. destruct rest as [|j rest]; cbn [dseg] in Hd.
  - destruct Hd as (s' & ? & Hl). assert (s' = s) as -> by congruence. rewrite Hl. simpl.
    by rewrite blen_nil, Z.add_0_r.
  - destruct Hd as ((s' & ? & Hl) & (sj & Hsj & _) & Hd). assert (s' = s) as -> by congruence.
    rewrite Hl. pose proof (sat_range _ _ _ Hsj). case_test; [lia|]. hstep.
    rewrite blen_cons in HM, Hb. pose proof (blen_nonneg rest). case_test; [lia|].
    rewrite IH with (rest := rest); try done; [by rewrite Z.add_assoc| |lia|lia|simpl in Hf; lia|lia|lia].
    intros x Hx. apply Hall. set_solver.
Qed.

Lemma slot_bytes_ok e M u n l x s :
  sat l x = Some s -> length (sl_data s) = SLOT_DATA_SIZE -> 1 <= sl_size s <= 146 ->
  (sl_count s <> -2 -> sl_size s <= 96) ->
  slot_bytes s (sl_size s) (st e M u n l) = Some (slot_val l x, st e M u n l).
Proof.
  intros Hs Hd Hz Hh. unfold slot_bytes, slot_val. rewrite Hs. case_test.
  - case_test; [done|]. unfold SLOT_DATA_SIZE in *. lia.
  - specialize (Hh ltac:(done)). case_test; [|unfold Q_HASHARR_VALUESIZE in *; lia].
    unfold pair_value, sub_bytes, OFF_VALUE, Q_HASHARR_VALUESIZE. rewrite drop_0, take_take.
    by rewrite Nat.min_l by lia.
Qed.

Lemma mem_write_app o a b (v : bytes) :
  (o + length a + length b <= length v)%nat ->
  mem_write (o + length a) b (mem_write o a v) = mem_write o (a ++ b) v.
Proof.
  intros Hl. unfold mem_write. rewrite length_app.
  assert (Ho : length (take o v) = o) by (rewrite length_take; lia).
  rewrite (app_assoc (take o v)).
  rewrite take_app_length', drop_app_ge by (rewrite length_app; lia).
  rewrite length_app, drop_drop, <- !app_assoc. do 4 f_equal. lia.
Qed.

Lemma mem_write_all a v : length a = length v -> mem_write 0 a v = a.
Proof. intros E. unfold mem_write. rewrite take_0, drop_ge, app_nil_r by (simpl; lia). done. Qed.

Lemma mem_store_ok {St} vp chunk block (s : St) :
  0 <= vp -> vp + blen chunk <= blen block -> mem_store vp chunk block s = Some (mem_write (Z.to_nat vp) chunk block, s).
Proof.
  intros. unfold mem_store. destruct (Z.leb_spec 0 vp); [|lia]. by destruct (Z.leb_spec (vp + blen chunk) (blen block)); [|lia].
Qed.

Lemma copy_data_ok fuel e M u n l i rest vp valsize lc value :
  dseg l i rest -> (forall x, x ∈ i :: rest -> readable l x) ->
  0 <= lc -> lc + blen rest <= M -> (length rest < fuel)%nat ->
  0 <= vp -> vp + blen (chain_val l (i :: rest)) = valsize -> blen value = valsize ->
  copy_data fuel i vp valsize lc value (st e M u n l) =
    Some (Some (mem_write (Z.to_nat vp) (chain_val l (i :: rest)) value), st e M u n l).
Proof.
  revert i rest vp lc value. induction fuel as [|fuel IH];
    intros i rest vp lc value Hd Hall Hlc HM Hf Hvp Hvs Hlen; [lia|].
  cbn [copy_data]. destruct (Hall i) as (s & Hs & Hdat & Hz & Hh); [set_solver|].
  pose proof (sat_range _ _ _ Hs). rewrite chain_val_cons in *.
  pose proof (blen_slot_val l i s Hs Hdat ltac:(lia)) as Hsv. rewrite blen_app in Hvs.
  pose proof (blen_nonneg (chain_val l rest)).
  destruct (Z.ltb_spec vp valsize); [|lia]. destruct (Z.eqb_spec i (-1)); [lia|]. cbn [andb negb].
  hstep. destruct (Z.ltb_spec valsize (vp + sl_size s)); [lia|].
  erewrite SM_bind_Some; [|by eapply slot_bytes_ok].
  erewrite SM_bind_Some; [|apply mem_store_ok; lia].
  destruct rest as [|j rest]; cbn [dseg] in Hd.
  - destruct Hd as (s' & ? & Hl). assert (s' = s) as -> by congruence. rewrite Hl. simpl.
    by rewrite app_nil_r.
  - destruct Hd as ((s' & ? & Hl) & (sj & Hsj & _) & Hd). assert (s' = s) as -> by congruence.
    rewrite Hl. pose proof (sat_range _ _ _ Hsj). case_test; [lia|]. hstep.
    rewrite blen_cons in HM. pose proof (blen_nonneg rest). case_test; [lia|].
    rewrite IH with (rest := rest); try done; [| |lia|lia|simpl in Hf; lia|lia|lia|].
    + replace (Z.to_nat (vp + sl_size s)) with (Z.to_nat vp + length (slot_val l i))%nat
        by (unfold blen in *; lia).
      rewrite mem_write_app; [done|]. unfold blen in *. lia.
    + intros x Hx. apply Hall. set_solver.
    + unfold blen in *. rewrite length_mem_write; lia.
Qed.

(** [_get_data] returns the bytes of the chain, or NULL when memory runs out. *)
Lemma get_data_ok `{KeyDigest} malloc_ok e M u n l i s rest :
  lbase l -> M = blen l -> sat l i = Some s -> is_head s = true -> dseg l i rest ->
  get_data malloc_ok i (st e M u n l) =
    if malloc_ok (blen (chain_val l (i :: rest)))
    then Some (Some (chain_val l (i :: rest)), st e M u n l)
    else Some (None, st ENOMEM M u n l).
Proof.
  intros Hb -> Hs Hh Hd. unfold get_data. pose proof (sat_range _ _ _ Hs). case_test; [lia|]. hstep.
  pose proof (dseg_length l i rest (head_not_ext _ _ _ Hs Hh) Hd) as Hle. rewrite blen_cons in Hle.
  pose proof (lb_len l Hb). pose proof (blen_nonneg rest).
  assert (Hall : forall x, x ∈ i :: rest -> readable l x) by (intros; by eapply (chain_readable l i s rest)).
  erewrite SM_bind_Some; [|eapply data_size_ok; eauto; unfold blen in *; lia].
  rewrite Z.add_0_l. destruct (malloc_ok _); [|done].
  erewrite copy_data_ok with (rest := rest); try done; try (unfold blen in *; lia).
  - rewrite mem_write_all; [done|]. rewrite length_replicate. unfold blen. lia.
  - unfold blen. rewrite length_replicate. lia.
Qed.
