(* ===== verification/HashArrPut.v ===== *)
(** * Storing a value in a chain of slots ([_put_data])

    The loop of [_put_data] grows the chain of the new entry one block at a time; when the table runs
    out of slots it frees the chain again. Both exits keep the invariant: either the whole value is
    stored or the table represents the same map as before. *)

From S2P Require Import Prelude Common HashArr HashArrSeg HashArrInv HashArrOps.
Import HashArr.

Lemma blocks_step z : 0 < z -> blocks (z - (if 146 <? z then 146 else z)) = blocks z - 1.
Proof. intros. unfold blocks. case_test; dm_lia. Qed.

Lemma blocks_pos z : 0 < z -> 0 < blocks z.
Proof. intros. unfold blocks. dm_lia. Qed.

(** ** The counters of the buckets when an entry is freed *)

Lemma free_count l i s rest b sb :
  sat l i = Some s -> is_head s = true -> dseg l i rest ->
  sat (free_chain l (i :: rest)) b = Some sb ->
  exists s0, sat l b = Some s0 /\
    ((b = i /\ sl_count sb = 0) \/ (b <> i /\ sl_count s0 = -2 /\ sl_count sb = 0) \/ (b <> i /\ sb = s0)).
Proof.
  intros Hs Hh Hd Hb. rewrite (free_chain_pt l i s) in Hb by done.
  destruct (decide (b ∈ i :: rest)) as [Hin|Hin].
  - destruct (sat l b) as [s0|] eqn:E; simpl in Hb; [injection Hb as <-|done].
    exists s0. split; [done|]. destruct (decide (b = i)) as [->|Hne]; [by left|]. right; left.
    destruct (dseg_rest_ext _ _ _ b Hd) as (s1 & ? & ?); [set_solver|].
    split; [done|]. split; [congruence|done].
  - exists sb. split; [done|]. right; right. split; [set_solver|done].
Qed.

Lemma free_nkeys l i s rest b :
  sat l i = Some s -> is_head s = true -> dseg l i rest ->
  nkeys (free_chain l (i :: rest)) b = nkeys l b - b2n (in_bucket b s).
Proof.
  intros Hs Hh Hd. by apply free_chain_heads; [..|intros a; apply in_bucket_head].
Qed.

Lemma in_bucket_self b s : is_head s = true -> in_bucket b s = bool_decide (sl_hash s = b).
Proof.
  intros Hh. unfold in_bucket. rewrite Hh. simpl.
  destruct (Z.eqb_spec (sl_hash s) b); symmetry; [by apply bool_decide_eq_true|by apply bool_decide_eq_false].
Qed.

(** A key that is not counted yet leaves again. *)
Lemma free_buckets_dup l i s rest :
  sat l i = Some s -> sl_count s = -1 -> dseg l i rest -> buckets l (sl_hash s) 1 ->
  buckets (free_chain l (i :: rest)) (sl_hash s) 0.
Proof.
  intros Hs Hc Hd Hbk b sb Hsb.
  assert (Hh : is_head s = true) by (apply is_head_cases; lia).
  destruct (free_count l i s rest b sb Hs Hh Hd Hsb) as (s0 & Hs0 & Hcase).
  specialize (Hbk b s0 Hs0). rewrite (free_nkeys l i s) by done. rewrite in_bucket_self by done.
  unfold gap in *. replace (nkeys l b - _ - _) with (nkeys l b - (if decide (b = sl_hash s) then 1 else 0)).
  2:{ destruct (decide (b = sl_hash s)) as [->|]; [rewrite bool_decide_eq_true_2 by done|
        rewrite bool_decide_eq_false_2 by congruence]; simpl; lia. }
  destruct Hcase as [[-> Hc0]|[(_ & Hc2 & Hc0)|(_ & ->)]]; [| |done].
  - assert (s0 = s) as -> by congruence. destruct (Z.ltb_spec 0 (nkeys l i - (if decide (i = sl_hash s) then 1 else 0))); lia.
  - destruct (Z.ltb_spec 0 (nkeys l b - (if decide (b = sl_hash s) then 1 else 0))); lia.
Qed.

(** The only key of a bucket leaves. *)
Lemma free_buckets_single l i s rest :
  sat l i = Some s -> sl_count s = 1 -> sl_hash s = i -> dseg l i rest -> buckets l i 0 ->
  buckets (free_chain l (i :: rest)) i 0.
Proof.
  intros Hs Hc Hhash Hd Hbk b sb Hsb.
  assert (Hh : is_head s = true) by (apply is_head_cases; lia).
  destruct (free_count l i s rest b sb Hs Hh Hd Hsb) as (s0 & Hs0 & Hcase).
  specialize (Hbk b s0 Hs0). rewrite (free_nkeys l i s) by done. rewrite in_bucket_self, Hhash by done.
  unfold gap in *. assert (E : (if decide (b = i) then 0 else 0) = 0) by (by destruct (decide (b = i))).
  rewrite E in *. destruct Hcase as [[-> Hc0]|[(Hne & Hc2 & Hc0)|(Hne & ->)]].
  - assert (s0 = s) as -> by congruence. rewrite bool_decide_eq_true_2 by done. simpl.
    destruct (Z.ltb_spec 0 (nkeys l i - 0)); destruct (Z.ltb_spec 0 (nkeys l i - 1 - 0)); lia.
  - rewrite bool_decide_eq_false_2 by congruence. simpl. rewrite Z.sub_0_r in *.
    destruct (Z.ltb_spec 0 (nkeys l b)); destruct (Z.ltb_spec 0 (nkeys l b - 0)); lia.
  - rewrite bool_decide_eq_false_2 by congruence. simpl. by rewrite Z.sub_0_r.
Qed.

(** ** The state of the loop *)

Record stored (l : list qhasharr_slot) (h d idx tail c : Z) (k : kid) (v : bytes) (m : gmap kid bytes) : Prop := {
  st_base : lbase l;
  st_buckets : buckets l h d;
  st_chain : exists s rest, sat l idx = Some s /\ is_head s = true /\ sl_count s = c /\ sl_hash s = h /\
    kid_of_slot s = k /\ dseg l idx rest /\ last (idx :: rest) = Some tail /\ chain_val l (idx :: rest) = v;
  st_rep : lrep l (<[k := v]> m)
}.

Lemma last_snoc_cons {A} (i : A) rest x : last (i :: rest ++ [x]) = Some x.
Proof. by rewrite app_comm_cons, last_snoc. Qed.

Section Block.
Context (l : list qhasharr_slot) (h d idx tail c tmp : Z) (k : kid) (v chunk : bytes) (m : gmap kid bytes).
Context (se st : qhasharr_slot).
Context (Hst : stored l h d idx tail c k v m) (Hse : sat l tmp = Some se) (Hce : sl_count se = 0).
Context (Htail : sat l tail = Some st) (Hck : 1 <= blen chunk <= 146).
Context (Hgrow : slots_for (blen v + blen chunk) = slots_for (blen v) + 1).

Definition block_slot : qhasharr_slot :=
  Slot (-2) tail (blen chunk) (-1) (mem_write OFF_VALUE chunk zero_data).

Definition with_block : list qhasharr_slot := lupd (lupd l tail (set_link tmp st)) tmp block_slot.

#[local] Lemma block_tail_used : sl_count st <> 0.
Proof using All.
  destruct Hst as [Hb _ (s & rest & Hs & Hh & _ & _ & _ & Hd & Hl & _) _].
  destruct (chain_all_used l idx s rest tail Hs Hh Hd) as (s1 & ? & ?); [by apply last_Some_elem_of|].
  congruence.
Qed.

#[local] Lemma block_tail_ne : tail <> tmp.
Proof using All. pose proof block_tail_used as Hu. intros E. rewrite E in Htail. congruence. Qed.

#[local] Lemma with_block_pt x : sat with_block x =
  if decide (x = tmp) then Some block_slot
  else if decide (x = tail) then Some (set_link tmp st) else sat l x.
Proof using All.
  pose proof block_tail_ne. unfold with_block.
  rewrite (sat_lupd _ _ _ _ se).
  - destruct (decide (x = tmp)); [done|]. by rewrite (sat_lupd _ _ _ _ st).
  - rewrite (sat_lupd _ _ _ _ st) by done. by rewrite decide_False by congruence.
Qed.

#[local] Lemma blen_with_block : blen with_block = blen l.
Proof using All. unfold with_block. by rewrite !blen_lupd. Qed.

#[local] Lemma block_slot_ok : slot_ok (blen l) tmp block_slot.
Proof using All.
  split; unfold block_slot, is_head; cbn [sl_count sl_data sl_hash sl_size]; try lia; try done.
  rewrite length_mem_write; [done|]. unfold blen, zero_data in *. rewrite length_replicate.
  unfold OFF_VALUE, SLOT_DATA_SIZE. lia.
Qed.

#[local] Lemma block_slot_val : take (Z.to_nat (sl_size block_slot)) (sl_data block_slot) = chunk.
Proof using All.
  cbn [block_slot sl_size sl_data]. unfold blen, mem_write, OFF_VALUE. rewrite Nat2Z.id, take_0. simpl.
  by rewrite take_app_length.
Qed.

Lemma with_block_used : countb is_used with_block = countb is_used l + 1.
Proof using All.
  rewrite (countb_at is_used l _ tmp se block_slot);
    [|apply blen_with_block|done|by rewrite with_block_pt, decide_True|].
  - unfold is_used at 2. rewrite Hce. simpl. lia.
  - intros x a a' Hne Ha Ha'. rewrite with_block_pt, decide_False in Ha' by done.
    destruct (decide (x = tail)) as [->|]; [injection Ha' as <-|]; [|congruence].
    assert (a = st) as -> by congruence. done.
Qed.

#[local] Lemma with_block_kind x a a' :
  sat l x = Some a -> sat with_block x = Some a' ->
  (x = tmp /\ sl_count a = 0 /\ sl_count a' = -2) \/
  (sl_count a' = sl_count a /\ sl_hash a' = sl_hash a).
Proof using All.
  intros Ha Ha'. rewrite with_block_pt in Ha'. destruct (decide (x = tmp)) as [->|].
  - injection Ha' as <-. left. split; [done|]. split; [congruence|done].
  - right. destruct (decide (x = tail)) as [->|]; [injection Ha' as <-|]; [|by simplify_eq].
    assert (a = st) as -> by congruence. done.
Qed.

Lemma with_block_heads P : (forall a, P a = is_head a) \/ (exists b, forall a, P a = in_bucket b a) ->
  countb P with_block = countb P l.
Proof using All.
  intros HP. apply countb_same; [apply blen_with_block|]. intros x a a' Ha Ha'.
  destruct (with_block_kind x a a' Ha Ha') as [(_ & E & E')|[E E']].
  - assert (Hz : is_head a' = false /\ is_head a = false) by (unfold is_head; rewrite E, E'; done).
    destruct Hz as [Hz1 Hz2]. destruct HP as [HP|[b HP]]; rewrite !HP; unfold in_bucket; by rewrite Hz1, Hz2.
  - destruct HP as [HP|[b HP]]; rewrite !HP; unfold in_bucket, is_head; by rewrite ?E, ?E'.
Qed.

Lemma with_block_stored : stored with_block h d idx tmp c k (v ++ chunk) m.
Proof using All.
  pose proof Hst as [Hb Hbk (s & rest & Hs & Hh & Hcs & Hhs & Hk & Hd & Hl & Hv) Hr].
  assert (Hg : slots_for (blen (chain_val l (idx :: rest)) + blen (take (Z.to_nat (sl_size block_slot)) (sl_data block_slot))) =
               slots_for (blen (chain_val l (idx :: rest))) + 1) by (by rewrite block_slot_val, Hv).
  pose proof (add_ext_base l with_block idx tail tmp rest s st se block_slot Hb Hs Hh Hd Hl Htail Hse Hce
    blen_with_block with_block_pt block_slot_ok eq_refl eq_refl eq_refl Hg) as Hb'.
  pose proof (add_ext_entry0 l with_block idx tail tmp rest s st se block_slot Hb Hs Hh Hd Hl Htail Hse Hce
    blen_with_block with_block_pt block_slot_ok eq_refl eq_refl eq_refl Hg) as He.
  pose proof (add_ext_rep l with_block idx tail tmp rest s st se block_slot Hb Hs Hh Hd Hl Htail Hse Hce
    blen_with_block with_block_pt block_slot_ok eq_refl eq_refl eq_refl Hg _ Hr) as Hr'.
  rewrite block_slot_val, Hv, Hk in He, Hr'. rewrite insert_insert, decide_True in Hr' by done.
  split; [done| | |done].
  - intros b sb Hsb. unfold nkeys. rewrite with_block_heads by (right; by exists b).
    destruct (sat_is_Some l b) as (s0 & Hs0); [rewrite <- blen_with_block; by eapply sat_range|].
    specialize (Hbk b s0 Hs0). unfold nkeys in Hbk.
    destruct (with_block_kind b s0 sb Hs0 Hsb) as [(_ & E & E')|[E _]]; [|by rewrite E].
    destruct (Z.ltb_spec 0 (countb (in_bucket b) l - gap h d b)); lia.
  - destruct He as (s' & rest' & Hs' & Hh' & Hk' & Hd' & Hv'). exists s', rest'.
    destruct (with_block_kind idx s s' Hs Hs') as [(-> & E & _)|[E E']];
      [by destruct (head_used _ Hh)|].
    do 2 (split; [done|]). do 2 (split; [congruence|]). do 2 (split; [done|]). split; [|done].
    assert (Hd2 : dseg with_block idx (rest ++ [tmp])).
    { apply (dseg_snoc l with_block idx rest tail tmp (set_link tmp st) block_slot); try done.
      - rewrite with_block_pt, decide_False by (apply block_tail_ne). by rewrite decide_True.
      - by rewrite with_block_pt, decide_True.
      - intros x s0 Hx Hs0. destruct (sat_is_Some with_block x) as (s1 & Hs1);
          [rewrite blen_with_block; by eapply sat_range|]. exists s1. split; [done|].
        destruct (chain_all_used l idx s rest x Hs Hh Hd Hx) as (s2 & ? & ?).
        assert (s2 = s0) as -> by congruence.
        destruct (with_block_kind x s0 s1 Hs0 Hs1) as [(_ & ? & _)|[? ?]]; [done|].
        do 2 (split; [done|]). intros Hne. rewrite with_block_pt in Hs1.
        rewrite !decide_False in Hs1; [congruence|done|]. intros ->. congruence.
      - apply (dseg_NoDup l); [by apply (head_not_ext l idx s)|done]. }
    rewrite (dseg_functional _ _ _ _ Hd' Hd2). apply last_snoc_cons.
Qed.
End Block.

(** ** Giving the entry up *)

(** A new entry is either the leading slot of its bucket or a key its bucket does not count yet. *)
Definition new_entry (h d idx c : Z) : Prop :=
  (c = 1 /\ idx = h /\ d = 0) \/ (c = -1 /\ d = 1).

Lemma stored_free e M u n l h d idx tail c k v m :
  stored l h d idx tail c k v m -> new_entry h d idx c -> m !! k = None ->
  M = blen l -> u = countb is_used l -> n = countb is_head l ->
  exists l', remove_data idx (st e M u n l) = Some (true, st e M (countb is_used l') (countb is_head l') l') /\
    blen l' = blen l /\ lbase l' /\ buckets l' h 0 /\ lrep l' m /\ countb is_head l' = n - 1.
Proof.
  intros [Hb Hbk (s & rest & Hs & Hh & Hc & Hhs & Hk & Hd & Hl & Hv) Hr] Hnew Hm -> -> ->.
  exists (free_chain l (idx :: rest)).
  assert (Hn : countb is_head (free_chain l (idx :: rest)) = countb is_head l - 1).
  { rewrite (free_chain_heads is_head l idx s) by done. by rewrite Hh. }
  assert (0 < countb is_head l) by (apply countb_sat_pos; eauto).
  pose proof (countb_le is_head l). pose proof (lb_len l Hb).
  split; [rewrite Hn; apply (remove_data_ok e _ _ _ l idx s rest); try done; lia|].
  split; [apply blen_free_chain|].
  pose proof (fun x => free_chain_pt l idx s rest x Hs Hh Hd) as Hpt.
  split; [by apply (free_base l _ idx rest s Hb Hs Hh Hd (blen_free_chain _ _) Hpt)|].
  split; [|split; [|done]].
  - destruct Hnew as [(-> & -> & ->)|(-> & ->)].
    + by apply (free_buckets_single l h s).
    + rewrite <- Hhs. apply (free_buckets_dup l idx s); try done. by rewrite Hhs.
  - pose proof (free_rep l _ idx rest s Hb Hs Hh Hd (blen_free_chain _ _) Hpt _ Hr) as Hr'.
    rewrite Hk, delete_insert_id in Hr' by done. done.
Qed.

(** ** The loop *)

Lemma take_chunk (value : bytes) save cs :
  0 <= save -> 0 <= cs -> save + cs <= blen value ->
  blen (take (Z.to_nat cs) (drop (Z.to_nat save) value)) = cs /\
  take (Z.to_nat save) value ++ take (Z.to_nat cs) (drop (Z.to_nat save) value) = take (Z.to_nat (save + cs)) value.
Proof.
  intros. split; [unfold blen in *; rewrite length_take, length_drop; lia|].
  rewrite take_take_drop. f_equal. lia.
Qed.

(** One turn of the loop that appends a block. *)
Lemma put_value_step fuel e M u n l idx tail save value tmp stl se :
  let cs := if 146 <? blen value - save then 146 else blen value - save in
  find_empty (tail + 1) (st e M u n l) = Some (tmp, st e M u n l) ->
  sat l tmp = Some se -> sat l tail = Some stl -> tail <> tmp ->
  blen l < 2 ^ 31 -> 0 < save < blen value ->
  put_value (S fuel) idx tail save value (st e M u n l) =
  put_value fuel idx tmp (save + cs) value
    (st e M (i32 (u + 1)) n (with_block l tail tmp (take (Z.to_nat cs) (drop (Z.to_nat save) value)) stl)).
Proof.
  intros cs Hr Hse Htl Hne Hlen Hsave. pose proof (sat_range _ _ _ Hse). pose proof (sat_range _ _ _ Htl).
  assert (Hcs : 1 <= cs <= 146 /\ save + cs <= blen value) by (unfold cs; case_test; lia).
  destruct (take_chunk value save cs) as [Hbl _]; [lia|lia|lia|].
  set (chunk := take (Z.to_nat cs) (drop (Z.to_nat save) value)) in *.
  set (sl z d := Slot (-2) (u32 tail) z (-1) d).
  set (l1 := lupd l tmp (sl 0 zero_data)). set (l2 := lupd l1 tail (set_link tmp stl)).
  set (l3 := lupd l2 tmp (sl 0 (mem_write OFF_VALUE chunk zero_data))).
  assert (E1 : sat l1 tail = Some stl) by (unfold l1; rewrite sat_lupd_ne; [done|congruence|lia]).
  assert (E2 : sat l2 tmp = Some (sl 0 zero_data)).
  { unfold l2. rewrite sat_lupd_ne by (done || lia). by apply (sat_lupd_eq l tmp _ se). }
  assert (E3 : sat l3 tmp = Some (sl 0 (mem_write OFF_VALUE chunk zero_data)))
    by (by apply (sat_lupd_eq l2 tmp _ _ E2)).
  cbn [put_value]. destruct (Z.ltb_spec save (blen value)); [|lia]. destruct (Z.ltb_spec 0 save); [|lia].
  erewrite SM_bind_Some.
  2:{ erewrite SM_bind_Some; [|exact Hr]. cbv beta. destruct (Z.ltb_spec tmp 0); [lia|].
      erewrite SM_bind_Some; [|apply (write_slot_ok _ _ _ _ l tmp se); done].
      change (lupd l tmp _) with l1. erewrite SM_bind_Some; [|by apply write_slot_ok].
      change (lupd l1 tail _) with l2. reflexivity. }
  cbv beta iota. erewrite SM_bind_Some; [|by apply read_slot_ok]. cbv beta zeta. cbn [sl sl_count]. rewrite Z.eqb_refl.
  change (Z.of_nat SLOT_DATA_SIZE) with 146. fold cs. fold chunk.
  erewrite SM_bind_Some; [|by apply write_slot_ok]. change (lupd l2 tmp _) with l3.
  erewrite SM_bind_Some; [|reflexivity]. erewrite SM_bind_Some; [|by apply write_slot_ok].
  erewrite SM_bind_Some; [|by apply add_used_ok]. f_equal. do 2 f_equal.
  unfold l3, l2, l1, with_block, block_slot, lupd, set_size. cbn [sl sl_count sl_hash sl_link sl_data].
  rewrite u32_small, u8_small, Hbl by lia. rewrite list_insert_insert_eq.
  rewrite (list_insert_insert_ne _ (Z.to_nat tail) (Z.to_nat tmp)) by lia. by rewrite !list_insert_insert_eq.
Qed.

Lemma put_value_ok fuel e M u n l h d idx tail c k m value save :
  stored l h d idx tail c k (take (Z.to_nat save) value) m -> new_entry h d idx c -> m !! k = None ->
  M = blen l -> u = countb is_used l -> n = countb is_head l ->
  0 < save <= blen value -> (save = blen value \/ exists j, 0 <= j /\ save = 96 + 146 * j) ->
  (Z.to_nat (blen value - save) < fuel)%nat ->
  exists (r : bool) l', put_value fuel idx tail save value (st e M u n l) =
    Some (r, st (if r then e else ENOBUFS) M (countb is_used l') (countb is_head l') l') /\
    blen l' = blen l /\ (r = true <-> blocks (blen value - save) <= M - u) /\
    if r then (exists tail', stored l' h d idx tail' c k value m) /\ countb is_head l' = n /\
              countb is_used l' = u + blocks (blen value - save) /\ (forall b, nkeys l' b = nkeys l b)
    else lbase l' /\ buckets l' h 0 /\ lrep l' m /\ countb is_head l' = n - 1.
Proof.
  revert M u n l tail save. induction fuel as [|fuel IH];
    intros M u n l tail save Hst Hnew Hm HM Hu Hn Hsave Halign Hf; [lia|].
  pose proof (countb_le is_used l). destruct (Z.eqb_spec save (blen value)) as [->|Hne].
  { exists true, l. cbn [put_value]. rewrite Z.ltb_irrefl, Z.sub_diag, <- Hu, <- Hn. change (blocks 0) with 0.
    do 2 (split; [done|]). split; [split; [lia|done]|].
    rewrite take_ge in Hst by (unfold blen; lia). split; [by eauto|]. split; [done|]. split; [lia|done]. }
  pose proof Hst as [Hb _ (s & rest & Hs & Hh & Hc & Hhs & Hk & Hd & Hl & Hv) _].
  pose proof (lb_len l Hb).
  destruct (dseg_sat l idx rest tail Hd) as (stl & Htl); [by apply last_Some_elem_of|].
  pose proof (sat_range _ _ _ Htl). pose proof (blocks_pos (blen value - save) ltac:(lia)).
  destruct (find_empty_ok e M u n l (tail + 1)) as (r & Hr & Hcase); [done|done|lia|lia|].
  destruct Hcase as [[-> Hfull]|(se & Hse & Hce & Hfree)].
  - destruct (stored_free e _ _ _ l h d idx tail c k _ m Hst Hnew Hm HM Hu Hn)
      as (l' & Hrm & Hlen & Hb' & Hbk' & Hr' & Hn').
    exists false, l'. cbn [put_value].
    destruct (Z.ltb_spec save (blen value)); [|lia]. destruct (Z.ltb_spec 0 save); [|lia].
    erewrite SM_bind_Some; [|erewrite SM_bind_Some; [|exact Hr]; reflexivity].
    cbv beta iota. erewrite SM_bind_Some; [|exact Hrm]. do 2 (split; [done|]).
    split; [split; [done|lia]|]. done.
  - assert (Hnt : tail <> r).
    { intros ->. destruct (chain_all_used l idx s rest r Hs Hh Hd) as (s1 & ? & ?);
        [by apply last_Some_elem_of|]. congruence. }
    rewrite (put_value_step fuel e M u n l idx tail save value r stl se Hr Hse Htl Hnt) by lia. cbv zeta.
    pose proof (countb_nonneg is_used l). rewrite i32_small by lia.
    pose proof (blocks_step (blen value - save) ltac:(lia)) as Hstep.
    set (cs := if 146 <? blen value - save then 146 else blen value - save) in *.
    assert (Hcs : 1 <= cs <= 146 /\ save + cs <= blen value) by (unfold cs; case_test; lia).
    destruct (take_chunk value save cs) as [Hbl Htk]; [lia|lia|lia|].
    set (chunk := take (Z.to_nat cs) (drop (Z.to_nat save) value)) in *.
    assert (Hck : 1 <= blen chunk <= 146) by lia.
    destruct Halign as [?|(j & Hj0 & Hj)]; [done|].
    assert (Hgrow : slots_for (blen (take (Z.to_nat save) value) + blen chunk) = slots_for (blen (take (Z.to_nat save) value)) + 1).
    { unfold slots_for, blocks. rewrite Hbl. replace (blen (take (Z.to_nat save) value)) with save by (unfold blen in *; rewrite length_take; lia).
      assert (1 <= cs) by lia. assert (cs <= 146) by lia. assert (cs = 146 \/ save + cs = blen value) by (unfold cs; case_test; lia).
      dm_lia. }
    pose proof (with_block_stored l h d idx tail c r k _ chunk m se stl Hst Hse Hce Htl Hck Hgrow) as Hst'.
    pose proof (with_block_used l h d idx tail c r k _ chunk m se stl Hst Hse Hce Htl Hck Hgrow) as Hu'.
    pose proof (with_block_heads l h d idx tail c r k _ chunk m se stl Hst Hse Hce Htl Hck Hgrow is_head ltac:(by left)) as Hn'.
    rewrite Htk in Hst'. assert (Hlen' : blen (with_block l tail r chunk stl) = blen l)
      by (unfold with_block; by rewrite !blen_lupd).
    destruct (IH M (u + 1) n _ r (save + cs) Hst' Hnew Hm) as (b & l' & Hrun & Hlen & Hiff & Hres); try lia.
    { destruct (Z.eqb_spec (save + cs) (blen value)); [by left|]. right. exists (j + 1). unfold cs in *. case_test; lia. }
    replace (blen value - (save + cs)) with (blen value - save - cs) in * by lia.
    exists b, l'. split; [exact Hrun|]. split; [lia|]. split; [rewrite Hiff; lia|].
    destruct b; [|done]. destruct Hres as (? & ? & ? & Hnk). do 2 (split; [done|]). split; [lia|].
    intros b. rewrite Hnk. unfold nkeys.
    apply (with_block_heads l h d idx tail c r k _ chunk m se stl Hst Hse Hce Htl Hck Hgrow). right. by exists b.
Qed.

(** ** Storing a new entry *)

Section PutData.
Context `{KeyDigest}.
Context (e M u n : Z) (l : list qhasharr_slot) (h d idx c : Z) (key value : bytes) (m : gmap kid bytes).
Context (s0 : qhasharr_slot).
Context (Hb : lbase l) (HM : M = blen l) (Hu : u = countb is_used l) (Hn : n = countb is_head l).
Context (Hbk : buckets l h 0) (Hrep : lrep l m) (Hs0 : sat l idx = Some s0) (Hc0 : sl_count s0 = 0).
Context (Hh : h = bucket_of key M) (Hm : m !! kid_of_key key M = None).
Context (Hkey : blen key < 65536) (Hval : 0 < blen value).
Context (Hnew : (c = 1 /\ idx = h /\ d = 0) \/ (c = -1 /\ d = 1 /\ idx <> h)).

#[local] Definition first_size : Z := if 96 <? blen value then 96 else blen value.
#[local] Definition first_slot : qhasharr_slot :=
  Slot c h first_size (-1)
    (mem_write OFF_VALUE (take (Z.to_nat first_size) value) (store_key key (sl_data s0))).

#[local] Lemma first_size_range : 1 <= first_size <= 96 /\ first_size <= blen value.
Proof using All. unfold first_size. case_test; lia. Qed.

#[local] Lemma length_first : length (take (Z.to_nat first_size) value) = Z.to_nat first_size.
Proof using All. pose proof first_size_range. rewrite length_take. unfold blen in *. lia. Qed.

#[local] Lemma length_store_key dat : length dat = SLOT_DATA_SIZE -> length (store_key key dat) = SLOT_DATA_SIZE.
Proof using All.
  intros Hd. unfold store_key. pose proof (key_md5_length key).
  assert (Hl1 : forall dd, length dd = SLOT_DATA_SIZE ->
    length (mem_write OFF_KEY (take (min (length key) Q_HASHARR_KEYSIZE) key) dd) = SLOT_DATA_SIZE).
  { intros dd Hdd. rewrite length_mem_write; [done|]. rewrite length_take, Hdd.
    unfold OFF_KEY, Q_HASHARR_KEYSIZE, SLOT_DATA_SIZE. lia. }
  assert (Hl2 : forall dd, length dd = SLOT_DATA_SIZE -> length (mem_write OFF_KEYMD5 (key_md5 key) dd) = SLOT_DATA_SIZE).
  { intros dd Hdd. rewrite length_mem_write; [done|]. rewrite Hdd. unfold OFF_KEYMD5, SLOT_DATA_SIZE. lia. }
  rewrite length_mem_write; [by apply Hl2, Hl1|]. rewrite Hl2 by (by apply Hl1).
  rewrite length_le_bytes. unfold OFF_KEYLEN, SLOT_DATA_SIZE. lia.
Qed.

#[local] Lemma first_head : is_head first_slot = true.
Proof using All. apply is_head_cases. cbn [first_slot sl_count]. lia. Qed.

#[local] Lemma data_s0 : length (sl_data s0) = SLOT_DATA_SIZE.
Proof using All. by destruct (lb_slot l Hb idx s0 Hs0). Qed.

#[local] Lemma first_ok : slot_ok (blen l) idx first_slot.
Proof using All.
  pose proof first_size_range. split; cbn [first_slot sl_count sl_data sl_hash sl_size].
  - lia.
  - rewrite length_mem_write; [apply length_store_key, data_s0|].
    rewrite (length_store_key _ data_s0), length_first. unfold OFF_VALUE, SLOT_DATA_SIZE. lia.
  - intros _. split; [|lia]. rewrite Hh, HM. apply Z.mod_pos_bound. apply Hb.
  - lia.
  - lia.
Qed.

#[local] Lemma first_kid : kid_of_slot first_slot = kid_of_key key M.
Proof using All.
  unfold first_slot. rewrite Hh. apply store_key_kid; [apply data_s0|done|].
  rewrite length_first. pose proof first_size_range. unfold Q_HASHARR_VALUESIZE. lia.
Qed.

#[local] Lemma first_pt x :
  sat (lupd l idx first_slot) x = if decide (x = idx) then Some first_slot else sat l x.
Proof using All. by apply (sat_lupd _ _ _ _ s0). Qed.

#[local] Lemma first_fresh i s : sat l i = Some s -> is_head s = true -> kid_of_slot s <> kid_of_slot first_slot.
Proof using All.
  intros Hs Hhs. rewrite first_kid. intros E. destruct (lb_chain l Hb i s Hs Hhs) as (rest & Hd).
  assert (Hlk : m !! kid_of_slot s = Some (chain_val l (i :: rest))).
  { apply Hrep. exists i, s, rest. done. }
  rewrite E, Hm in Hlk. done.
Qed.

#[local] Lemma first_nkeys b : nkeys (lupd l idx first_slot) b = nkeys l b + b2n (bool_decide (h = b)).
Proof using All.
  unfold nkeys. rewrite (countb_lupd _ _ _ s0) by done.
  rewrite (in_bucket_self b first_slot) by apply first_head. cbn [first_slot sl_hash].
  unfold in_bucket at 2, is_head. rewrite Hc0. simpl. lia.
Qed.

#[local] Lemma first_buckets : buckets (lupd l idx first_slot) h d.
Proof using All.
  intros b sb Hsb. rewrite first_pt in Hsb.
  rewrite first_nkeys. destruct (sat_is_Some l b) as (s & Hs).
  { destruct (decide (b = idx)) as [->|]; [by eapply sat_range|by eapply sat_range]. }
  pose proof (Hbk b s Hs) as Hbb. unfold gap in *.
  destruct (decide (b = idx)) as [Eb|Nb].
  - assert (sl_count s = 0) as Hcs by (subst b; congruence). injection Hsb as <-. cbn [first_slot sl_count].
    destruct (decide (b = h)) as [Eh|Nh].
    + rewrite bool_decide_eq_true_2 by done. simpl b2n. destruct Hnew as [(? & ? & ?)|(? & ? & ?)]; [|congruence].
      destruct (Z.ltb_spec 0 (nkeys l b - 0)); destruct (Z.ltb_spec 0 (nkeys l b + 1 - d)); try lia.
      all: pose proof (countb_nonneg (in_bucket b) l); unfold nkeys in *; lia.
    + rewrite bool_decide_eq_false_2 by congruence. simpl b2n.
      destruct Hnew as [(? & ? & ?)|(? & ? & ?)]; [congruence|].
      destruct (Z.ltb_spec 0 (nkeys l b - 0)); destruct (Z.ltb_spec 0 (nkeys l b + 0 - 0)); lia.
  - assert (s = sb) as -> by congruence. destruct (decide (b = h)) as [Eh|Nh].
    + rewrite bool_decide_eq_true_2 by done. simpl b2n.
      destruct Hnew as [(? & ? & ?)|(? & ? & ?)]; [congruence|].
      by replace (nkeys l b + 1 - d) with (nkeys l b - 0) by lia.
    + rewrite bool_decide_eq_false_2 by congruence. simpl b2n. by rewrite Z.add_0_r.
Qed.

#[local] Lemma first_stored :
  stored (lupd l idx first_slot) h d idx idx c (kid_of_key key M) (take (Z.to_nat first_size) value) m.
Proof using All.
  pose proof (add_head_base l _ idx s0 first_slot Hb Hs0 Hc0 (blen_lupd _ _ _) first_pt first_ok first_head eq_refl
    first_fresh) as Hb'.
  pose proof (add_head_rep l _ idx s0 first_slot Hb Hs0 Hc0 first_pt first_head eq_refl first_fresh m Hrep) as Hr'.
  assert (Hv : take (Z.to_nat (sl_size first_slot)) (sl_data first_slot) = take (Z.to_nat first_size) value).
  { cbn [first_slot sl_size sl_data]. unfold mem_write, OFF_VALUE. rewrite take_0. simpl.
    apply take_app_length'. by rewrite length_first. }
  rewrite Hv, first_kid in Hr'. split; [done|apply first_buckets| |done].
  exists first_slot, []. rewrite first_pt, decide_True by done.
  split; [done|]. split; [apply first_head|]. do 2 (split; [done|]). split; [apply first_kid|].
  split; [exists first_slot; by rewrite first_pt, decide_True|]. split; [done|].
  unfold chain_val, slot_val. simpl. rewrite first_pt, decide_True by done.
  rewrite app_nil_r. cbn [first_slot sl_size sl_data]. unfold mem_write, OFF_VALUE. rewrite take_0. simpl.
  apply take_app_length'. by rewrite length_first.
Qed.

(** [_put_data] stores the value exactly when the table has the slots for it. *)
Lemma put_data_ok :
  exists (r : bool) l', put_data idx h key value c (st e M u n l) =
    Some (r, st (if r then e else ENOBUFS) M (countb is_used l') (countb is_head l') l') /\
    blen l' = blen l /\ (r = true <-> slots_for (blen value) <= M - u) /\
    lbase l' /\
    if r then buckets l' h d /\ lrep l' (<[kid_of_key key M := value]> m) /\ countb is_head l' = n + 1 /\
              countb is_used l' = u + slots_for (blen value) /\
              (forall b, nkeys l' b = nkeys l b + b2n (bool_decide (h = b)))
    else buckets l' h 0 /\ lrep l' m.
Proof using All.
  pose proof first_size_range as Hfs. pose proof (lb_len l Hb). pose proof (used_lt l idx s0 Hs0 Hc0).
  pose proof (countb_nonneg is_used l). pose proof (countb_nonneg is_head l). pose proof (countb_le is_head l).
  assert (Hused : countb is_used (lupd l idx first_slot) = u + 1).
  { rewrite (countb_lupd _ _ _ s0) by done. unfold is_used at 2 3. rewrite Hc0. cbn [first_slot sl_count].
    destruct Hnew as [(-> & _)|(-> & _)]; simpl; lia. }
  assert (Hheads : countb is_head (lupd l idx first_slot) = n + 1).
  { rewrite (countb_lupd _ _ _ s0), first_head by done. unfold is_head at 2. rewrite Hc0. simpl. lia. }
  pose proof (countb_le is_head (lupd l idx first_slot)) as Hle. rewrite blen_lupd in Hle.
  unfold put_data. hstep. rewrite Hc0. cbn [Z.eqb negb]. hstep.
  cbn [put_value]. destruct (Z.ltb_spec 0 (blen value)); [|lia]. cbn [Z.ltb Z.compare].
  erewrite SM_bind_Some; [|reflexivity]. cbv beta iota.
  set (sk := Slot c h (sl_size s0) (-1) (store_key key (sl_data s0))).
  assert (E1 : sat (lupd l idx sk) idx = Some sk) by (by apply (sat_lupd_eq l idx sk s0)).
  erewrite SM_bind_Some; [|by apply read_slot_ok]. cbv beta zeta. cbn [sk sl_count].
  assert ((c =? -2) = false) as -> by (apply Z.eqb_neq; lia).
  change (Z.of_nat Q_HASHARR_VALUESIZE) with 96. rewrite Z.sub_0_r. fold first_size. rewrite drop_0.
  erewrite SM_bind_Some; [|by apply write_slot_ok].
  set (chunk := take (Z.to_nat first_size) value).
  set (sv := Slot c h (sl_size s0) (-1) (mem_write OFF_VALUE chunk (store_key key (sl_data s0)))).
  cbv beta. change (set_data (mem_write OFF_VALUE chunk (sl_data sk)) sk) with sv.
  assert (E2 : sat (lupd (lupd l idx sk) idx sv) idx = Some sv) by (by apply (sat_lupd_eq _ idx sv sk)).
  erewrite SM_bind_Some; [|by apply add_num_ok]. erewrite SM_bind_Some; [|by apply write_slot_ok].
  erewrite SM_bind_Some; [|by apply add_used_ok].
  assert (El : lupd (lupd (lupd l idx sk) idx sv) idx (set_size (u8 first_size) sv) = lupd l idx first_slot).
  { unfold lupd. rewrite !list_insert_insert_eq. unfold set_size, sv, first_slot, chunk.
    by rewrite u8_small by lia. }
  rewrite El, Z.add_0_l, !i32_small by lia.
  destruct (put_value_ok (length value) e M (u + 1) (n + 1) (lupd l idx first_slot) h d idx idx c
    (kid_of_key key M) m value first_size) as (r & l' & Hrun & Hlen & Hiff & Hres).
  { apply first_stored. }
  { destruct Hnew as [?|(? & ? & _)]; [left|right]; done. }
  { done. } { by rewrite blen_lupd. } { done. } { done. } { lia. }
  { unfold first_size. case_test; [right; exists 0; lia|by left]. } { unfold blen in *. lia. }
  exists r, l'. split; [exact Hrun|]. split; [by rewrite Hlen, blen_lupd|].
  assert (Hsf : slots_for (blen value) = 1 + blocks (blen value - first_size)).
  { unfold slots_for, first_size, blocks. case_test; [done|]. dm_lia. }
  rewrite Hsf. split; [rewrite Hiff; lia|]. destruct r.
  - destruct Hres as ((tail' & [Hb' Hbk' _ Hr']) & ? & ? & Hnk). split; [done|]. do 2 (split; [done|]).
    do 2 (split; [lia|]). intros b. by rewrite Hnk, first_nkeys.
  - destruct Hres as (? & ? & ? & _). done.
Qed.
End PutData.
