(* ===== verification/HashArrMove.v ===== *)
(** * Moving a slot to another place

    [qhasharr_put] moves a collision or extension slot out of the way of a new leading slot, and
    [qhasharr_remove] moves a collision slot into the place of a removed leading slot. Both copy the
    slot, free the old place and repair the links of the neighbours on its chain. *)

From S2P Require Import Prelude Common HashArr HashArrSeg HashArrInv HashArrOps.
Import HashArr.

Definition modl (i : Z) (f : qhasharr_slot -> qhasharr_slot) (l : list qhasharr_slot) : list qhasharr_slot :=
  match sat l i with Some s => lupd l i (f s) | None => l end.

Lemma blen_modl i f l : blen (modl i f l) = blen l.
Proof. unfold modl. destruct (sat l i); [apply blen_lupd|done]. Qed.

Lemma sat_modl i f l x : sat (modl i f l) x = if decide (x = i) then f <$> sat l x else sat l x.
Proof.
  unfold modl. destruct (sat l i) as [s|] eqn:E.
  - rewrite (sat_lupd _ _ _ _ s) by done. destruct (decide (x = i)) as [->|]; [by rewrite E|done].
  - destruct (decide (x = i)) as [->|]; [by rewrite E|done].
Qed.

Section Moved.
Context (l : list qhasharr_slot) (src dst : Z) (ss sd se : qhasharr_slot).
Context (Hb : lbase l) (Hsrc : sat l src = Some ss) (Hu : sl_count ss <> 0).
Context (Hdst : sat l dst = Some se) (Hce : sl_count se = 0).

Definition placed : list qhasharr_slot := lupd (lupd l dst sd) src (set_count 0 ss).

Definition mothered : list qhasharr_slot :=
  if decide (sl_count ss = -2) then modl (sl_hash ss) (set_link dst) placed else placed.

Definition moved : list qhasharr_slot :=
  if decide (sl_link ss = -1) then mothered else modl (sl_link ss) (set_hash dst) mothered.

#[local] Lemma moved_src_dst : src <> dst.
Proof using All. intros E. rewrite E in Hsrc. congruence. Qed.

Lemma placed_pt x : sat placed x =
  if decide (x = dst) then Some sd else if decide (x = src) then Some (set_count 0 ss) else sat l x.
Proof using All.
  pose proof moved_src_dst. unfold placed. rewrite (sat_lupd _ _ _ _ ss).
  - destruct (decide (x = src)) as [->|].
    + by rewrite decide_False.
    + by rewrite (sat_lupd _ _ _ _ se).
  - rewrite (sat_lupd _ _ _ _ se) by done. by rewrite decide_False.
Qed.

(** The neighbours of the moved slot are neither of the two places. *)
Lemma mother_apart : sl_count ss = -2 -> sl_hash ss <> src /\ sl_hash ss <> dst.
Proof using All.
  intros He. destruct (ext_prev l src ss Hb Hsrc He) as (sx & Hsx & Hux & _).
  split; [by apply (chain_neighbours l src ss)|]. intros E. rewrite E in Hsx. congruence.
Qed.

Lemma child_apart : sl_link ss <> -1 ->
  sl_link ss <> src /\ sl_link ss <> dst /\ (sl_count ss = -2 -> sl_hash ss <> sl_link ss).
Proof using All.
  intros Hl. destruct (link_next l src ss Hb Hsrc Hu Hl) as (sy & Hy & Hcy & _).
  destruct (chain_neighbours l src ss Hb Hsrc Hu) as (H1 & _ & H3).
  split; [done|]. split; [|intros; by apply H3]. intros E. rewrite E in Hy.
  assert (sy = se) as -> by congruence. lia.
Qed.

Lemma moved_pt x : sat moved x =
  if decide (x = dst) then Some sd
  else if decide (x = src) then Some (set_count 0 ss)
  else if decide (sl_count ss = -2 /\ x = sl_hash ss) then set_link dst <$> sat l x
  else if decide (sl_link ss <> -1 /\ x = sl_link ss) then set_hash dst <$> sat l x
  else sat l x.
Proof using All.
  pose proof mother_apart as Hm. pose proof child_apart as Hc.
  assert (Hmo : sat mothered x = if decide (x = dst) then Some sd
    else if decide (x = src) then Some (set_count 0 ss)
    else if decide (sl_count ss = -2 /\ x = sl_hash ss) then set_link dst <$> sat l x else sat l x).
  { unfold mothered. destruct (decide (sl_count ss = -2)) as [He|He].
    - destruct (Hm He). rewrite sat_modl, placed_pt. destruct (decide (x = sl_hash ss)) as [Ex|].
      + rewrite !(decide_False (P := x = _)) by congruence. by rewrite decide_True.
      + by rewrite (decide_False (P := _ /\ _)) by tauto.
    - rewrite placed_pt. by rewrite (decide_False (P := _ /\ _)) by tauto. }
  unfold moved. destruct (decide (sl_link ss = -1)) as [El|Nl].
  - rewrite Hmo. by rewrite (decide_False (P := sl_link ss <> -1 /\ _)) by tauto.
  - destruct (Hc Nl) as (? & ? & Hcm). rewrite sat_modl, Hmo. destruct (decide (x = sl_link ss)) as [Ex|].
    + rewrite !(decide_False (P := x = _)) by congruence.
      rewrite !(decide_False (P := sl_count ss = -2 /\ _)) by (intros [He E]; apply (Hcm He); congruence).
      by rewrite decide_True.
    + by rewrite (decide_False (P := sl_link ss <> -1 /\ _)) by tauto.
Qed.

Lemma blen_moved : blen moved = blen l.
Proof using All.
  unfold moved, mothered, placed. repeat case_decide; by rewrite ?blen_modl, !blen_lupd.
Qed.

(** Counting after a move, for a test that looks at the counter of every slot and at the hash of
    heads only. *)
Lemma moved_count P :
  (forall a x, P (set_link x a) = P a) -> (forall a x, sl_count a = -2 -> P (set_hash x a) = P a) ->
  countb P moved = countb P l - b2n (P se) + b2n (P sd) - b2n (P ss) + b2n (P (set_count 0 ss)).
Proof using All.
  intros HP1 HP2. pose proof moved_src_dst.
  rewrite <- (countb_lupd P l dst se sd) by done.
  apply (countb_at P (lupd l dst sd) moved src).
  - by rewrite blen_moved, blen_lupd.
  - rewrite sat_lupd_ne; [done|congruence|]. by eapply sat_range.
  - rewrite moved_pt, decide_False by done. by rewrite decide_True.
  - intros x a a' Hx Ha Ha'. rewrite (sat_lupd _ _ _ _ se) in Ha by done. rewrite moved_pt in Ha'.
    destruct (decide (x = dst)); [congruence|]. rewrite decide_False in Ha' by done.
    destruct (decide (sl_count ss = -2 /\ x = sl_hash ss)).
    { rewrite Ha in Ha'. injection Ha' as <-. apply HP1. }
    destruct (decide (sl_link ss <> -1 /\ x = sl_link ss)) as [[Hl ->]|]; [|congruence].
    rewrite Ha in Ha'. injection Ha' as <-. apply HP2.
    destruct (link_next l src ss Hb Hsrc Hu Hl) as (sy & Hy & Hcy & _). congruence.
Qed.

(** The repair of the first block's back pointer is [relink_child]. *)
Lemma relink_child_ok e M u n :
  blen l < 2 ^ 31 -> sl_link sd = sl_link ss ->
  relink_child dst (st e M u n mothered) = Some (tt, st e M u n moved).
Proof using All.
  intros Hlen Hlk. pose proof mother_apart as Hm. pose proof (sat_range _ _ _ Hdst).
  assert (Hd : sat mothered dst = Some sd).
  { unfold mothered. destruct (decide (sl_count ss = -2)) as [He|].
    - destruct (Hm He). rewrite sat_modl, decide_False by congruence. by rewrite placed_pt, decide_True.
    - by rewrite placed_pt, decide_True. }
  unfold relink_child. hstep. rewrite Hlk. unfold moved.
  destruct (decide (sl_link ss = -1)) as [El|Nl]; [by rewrite El|].
  destruct (Z.eqb_spec (sl_link ss) (-1)); [done|].
  assert (exists s, sat mothered (sl_link ss) = Some s) as (s & Hs).
  { apply sat_is_Some. replace (blen mothered) with (blen l)
      by (unfold mothered, placed; case_decide; by rewrite ?blen_modl, !blen_lupd).
    destruct (link_next l src ss Hb Hsrc Hu Nl) as (sy & Hy & _). by eapply sat_range. }
  rewrite (write_slot_ok _ _ _ _ _ _ s) by done. unfold modl. rewrite Hs.
  by rewrite u32_small by lia.
Qed.
End Moved.
