(* ===== verification/HashArrSpec.v ===== *)
(** * The table implements a finite map

    [tbl_ok t m]: the table satisfies its invariant and stores exactly the map [m] from key
    identities to values. The public operations of [qhasharr.c] are shown to compute the operations
    of the map on every branch, without undefined behaviour and within the fuel of their loops. *)

From S2P Require Import Prelude Common HashArr HashArrSeg HashArrInv HashArrOps HashArrPut HashArrMove.
Import HashArr.

(** Everything but the collision counters. *)
Record tbl_core (t : qhasharr_t) (m : gmap kid bytes) : Prop := {
  to_max : maxslots t = blen (slots t);
  to_base : lbase (slots t);
  to_used : usedslots t = countb is_used (slots t);
  to_num : num t = countb is_head (slots t);
  to_rep : lrep (slots t) m
}.

Definition tbl_ok (t : qhasharr_t) (m : gmap kid bytes) : Prop :=
  tbl_core t m /\ forall b, bucket_ok (slots t) b 0.

Lemma buckets_0 l h : buckets l h 0 <-> forall b, bucket_ok l b 0.
Proof.
  split; intros Hall b; specialize (Hall b).
  - unfold gap in Hall. by destruct (decide (b = h)).
  - unfold gap. by destruct (decide (b = h)).
Qed.

(** ** Counting the keys of a bucket *)

Lemma bucket_other l b i s :
  sat l i = Some s -> in_bucket b s = true -> 1 < nkeys l b ->
  exists j sj, j <> i /\ sat l j = Some sj /\ in_bucket b sj = true.
Proof.
  intros Hs Hin Hn. unfold nkeys in Hn.
  assert (Hc : 0 < countb (in_bucket b) (lupd l i zero_slot)).
  { rewrite (countb_lupd _ _ _ s), Hin by done. change (in_bucket b zero_slot) with false. simpl. lia. }
  apply countb_sat_pos in Hc as (j & sj & Hj & Hinj).
  rewrite (sat_lupd _ _ _ _ s) in Hj by done. destruct (decide (j = i)); [by injection Hj as <-|].
  by exists j, sj.
Qed.

Lemma bucket_two l b i j si sj :
  sat l i = Some si -> sat l j = Some sj -> i <> j ->
  in_bucket b si = true -> in_bucket b sj = true -> 2 <= nkeys l b.
Proof.
  intros Hi Hj Hne Hbi Hbj. unfold nkeys.
  assert (Hc : 0 < countb (in_bucket b) (lupd l i zero_slot)).
  { apply countb_sat_pos. exists j, sj. rewrite (sat_lupd _ _ _ _ si) by done. by rewrite decide_False by congruence. }
  rewrite (countb_lupd _ _ _ si), Hbi in Hc by done. change (in_bucket b zero_slot) with false in Hc. simpl in Hc. lia.
Qed.

Lemma bucket_lead l b i s :
  lbase l -> bucket_ok l b 0 -> sat l i = Some s -> in_bucket b s = true ->
  exists lead, sat l b = Some lead /\ sl_count lead = nkeys l b /\ in_bucket b lead = true.
Proof.
  intros Hb Hbk Hs Hin. assert (0 < nkeys l b) by (apply countb_sat_pos; eauto).
  pose proof Hin as [Hh Hhash]%in_bucket_true.
  destruct (lb_slot l Hb i s Hs) as [_ _ Hhd _ _]. destruct (Hhd Hh) as [Hr _]. rewrite Hhash in Hr.
  destruct (sat_is_Some l b Hr) as (lead & Hl). exists lead. specialize (Hbk lead Hl).
  rewrite Z.sub_0_r in Hbk. destruct (Z.ltb_spec 0 (nkeys l b)); [|lia].
  do 2 (split; [done|]). apply in_bucket_true. split; [apply is_head_cases; lia|].
  destruct (lb_slot l Hb b lead Hl) as [_ _ _ Hld _]. apply Hld. lia.
Qed.

(** Changing the counter of a leading slot changes no count. *)
Lemma lead_count P l h c s :
  sat l h = Some s -> 0 < sl_count s -> 0 < c ->
  (forall a, 0 < sl_count a -> P (set_count c a) = P a) ->
  countb P (lupd l h (set_count c s)) = countb P l.
Proof. intros Hs Hc Hc' HP. rewrite (countb_lupd P l h s), HP by done. lia. Qed.

Lemma used_set_count c a : 0 < c -> 0 < sl_count a -> is_used (set_count c a) = is_used a.
Proof. intros. unfold is_used. simpl. destruct (Z.eqb_spec c 0), (Z.eqb_spec (sl_count a) 0); lia || done. Qed.

Lemma head_set_count c a : 0 < c -> 0 < sl_count a -> is_head (set_count c a) = is_head a.
Proof. intros. unfold is_head. simpl. destruct (Z.ltb_spec 0 c), (Z.ltb_spec 0 (sl_count a)); lia || done. Qed.

Lemma bucket_set_count b c a : 0 < c -> 0 < sl_count a -> in_bucket b (set_count c a) = in_bucket b a.
Proof. intros. unfold in_bucket. by rewrite head_set_count. Qed.

(** ** Removing *)

Section Remove.
Context (M u n : Z) (l : list qhasharr_slot) (m : gmap kid bytes) (Hok : tbl_core (Tbl M u n l) m).
Context (idx : Z) (s : qhasharr_slot) (rest : list Z).
Context (Hs : sat l idx = Some s) (Hh : is_head s = true) (Hd : dseg l idx rest).

#[local] Definition rl : list qhasharr_slot := free_chain l (idx :: rest).

#[local] Lemma rm_facts :
  M = blen l /\ u = countb is_used l /\ n = countb is_head l /\ 0 < n < 2 ^ 31 /\ lbase l /\ blen l < 2 ^ 31.
Proof using All.
  destruct Hok as [HM Hb Hu Hn _]. cbn [maxslots usedslots num slots] in *.
  pose proof (lb_len _ Hb). pose proof (countb_le is_head l).
  assert (0 < countb is_head l) by (apply countb_sat_pos; eauto). repeat (split; [done || lia|]). lia.
Qed.

#[local] Lemma rm_pt x : sat rl x = if decide (x ∈ idx :: rest) then set_count 0 <$> sat l x else sat l x.
Proof using All. by apply (free_chain_pt l idx s). Qed.

#[local] Lemma rm_heads : countb is_head rl = n - 1.
Proof using All.
  unfold rl. rewrite (free_chain_heads is_head l idx s) by done. rewrite Hh. simpl.
  destruct rm_facts as (_ & _ & -> & _). done.
Qed.

#[local] Lemma rm_used : countb is_used rl < u.
Proof using All.
  assert (Hle : forall c l, countb is_used (free_chain l c) <= countb is_used l).
  { clear. intros c. induction c as [|x c IH]; intros l; [done|]. simpl.
    destruct (sat l x) as [s|] eqn:E; [|done]. etrans; [apply IH|].
    rewrite (countb_lupd _ _ _ s) by done. change (is_used (set_count 0 s)) with false.
    destruct (is_used s); simpl; lia. }
  unfold rl. cbn [free_chain]. rewrite Hs. pose proof (Hle rest (lupd l idx (set_count 0 s))) as Hr.
  rewrite (countb_lupd _ _ _ s) in Hr by done. change (is_used (set_count 0 s)) with false in Hr.
  rewrite (proj2 (is_used_ne s)) in Hr by (by apply head_used). simpl in Hr.
  destruct rm_facts as (_ & Eu & _). lia.
Qed.

#[local] Lemma rm_run e' : remove_data idx (st e' M u n l) = Some (true, st e' M (countb is_used rl) (n - 1) rl).
Proof using All. destruct rm_facts as (? & ? & ? & ? & ? & ?). by apply (remove_data_ok e' M u n l idx s rest). Qed.

#[local] Lemma rm_base : lbase rl.
Proof using All.
  destruct Hok as [_ Hb _ _ _]. by apply (free_base l rl idx rest s Hb Hs Hh Hd (blen_free_chain _ _) rm_pt).
Qed.

#[local] Lemma rm_rep : lrep rl (delete (kid_of_slot s) m).
Proof using All.
  destruct Hok as [_ Hb _ _ Hr]. by apply (free_rep l rl idx rest s Hb Hs Hh Hd (blen_free_chain _ _) rm_pt).
Qed.

#[local] Lemma rm_tbl :
  (forall b, bucket_ok rl b 0) -> tbl_ok (Tbl M (countb is_used rl) (n - 1) rl) (delete (kid_of_slot s) m).
Proof using All.
  intros Hbk. destruct rm_facts as (? & _). split; [|done].
  split; cbn [maxslots usedslots num slots]; [|apply rm_base|done|symmetry; apply rm_heads|apply rm_rep].
  unfold rl. by rewrite blen_free_chain.
Qed.

(** The only key of its bucket. *)
Lemma rm_single e : (forall b, bucket_ok l b 0) -> sl_count s = 1 ->
  exists u' n' l', remove_data idx (st e M u n l) = Some (true, st e M u' n' l') /\
    tbl_ok (Tbl M u' n' l') (delete (kid_of_slot s) m) /\ u' < u.
Proof using All.
  intros Hbk Hc. pose proof Hok as [_ Hb _ _ _]. cbn [slots] in *.
  exists (countb is_used rl), (n - 1), rl. split; [apply rm_run|]. split; [|apply rm_used].
  apply rm_tbl. apply (buckets_0 _ idx). apply (free_buckets_single l idx s); [done|done| |done|by apply buckets_0].
  destruct (lb_slot l Hb idx s Hs) as [_ _ _ Hld _]. apply Hld. lia.
Qed.

(** A key its bucket does not count any more. *)
Lemma rm_uncounted e : buckets l (sl_hash s) 1 -> sl_count s = -1 ->
  exists u' n' l', remove_data idx (st e M u n l) = Some (true, st e M u' n' l') /\
    tbl_ok (Tbl M u' n' l') (delete (kid_of_slot s) m) /\ u' < u.
Proof using All.
  intros Hbk Hc. exists (countb is_used rl), (n - 1), rl. split; [apply rm_run|]. split; [|apply rm_used].
  apply rm_tbl. apply (buckets_0 _ (sl_hash s)). by apply (free_buckets_dup l idx s).
Qed.
End Remove.

(** A collision slot: the counter of its leading slot goes down first. *)
Lemma rm_dup e M u n l m idx s lead :
  tbl_ok (Tbl M u n l) m -> sat l idx = Some s -> sl_count s = -1 -> sat l (sl_hash s) = Some lead ->
  1 < sl_count lead /\
  exists u' n' l', remove_data idx (st e M u n (lupd l (sl_hash s) (set_count (sl_count lead - 1) lead))) =
      Some (true, st e M u' n' l') /\
    tbl_ok (Tbl M u' n' l') (delete (kid_of_slot s) m) /\ u' < u.
Proof.
  intros Hok Hs Hc Hl. pose proof Hok as [[HM Hb Hu Hn Hr] Hbk]. cbn [maxslots usedslots num slots] in *.
  assert (Hh : is_head s = true) by (apply is_head_cases; lia).
  destruct (bucket_lead l (sl_hash s) idx s Hb (Hbk _) Hs) as (ld & Hld & Hcnt & Hinl);
    [by apply in_bucket_true|]. assert (ld = lead) as -> by congruence.
  assert (Hne : idx <> sl_hash s).
  { intros E. rewrite <- E in Hl. assert (lead = s) as -> by congruence.
    assert (0 < nkeys l (sl_hash s)); [|lia]. apply countb_sat_pos. eauto. }
  assert (H2 : 2 <= nkeys l (sl_hash s)).
  { apply (bucket_two l _ idx (sl_hash s) s lead); try done. by apply in_bucket_true. }
  split; [lia|]. set (c := sl_count lead - 1). set (l1 := lupd l (sl_hash s) (set_count c lead)).
  assert (Hc15 : 0 < c < 2 ^ 15) by (destruct (lb_slot l Hb _ lead Hl); lia).
  pose proof (fun x => sat_lupd l (sl_hash s) x (set_count c lead) lead Hl) as Hpt.
  pose proof (lead_base l l1 (sl_hash s) c lead Hb Hl ltac:(lia) Hc15 (blen_lupd _ _ _) Hpt) as Hb1.
  pose proof (lead_rep l l1 (sl_hash s) c lead Hb Hl ltac:(lia) Hc15 (blen_lupd _ _ _) Hpt m Hr) as Hr1.
  assert (Hs1 : sat l1 idx = Some s) by (unfold l1; rewrite Hpt; by rewrite decide_False).
  destruct (lb_chain l1 Hb1 idx s Hs1 Hh) as (rest & Hd).
  assert (Hcnt1 : forall P, (forall a, 0 < sl_count a -> P (set_count c a) = P a) -> countb P l1 = countb P l).
  { intros P HP. apply lead_count; [done|lia|lia|done]. }
  apply (rm_uncounted M u n l1 m) with (rest := rest); try done.
  - split; cbn [maxslots usedslots num slots]; [|done| | |done].
    + unfold l1. by rewrite blen_lupd.
    + rewrite Hcnt1; [done|]. intros. apply used_set_count; lia.
    + rewrite Hcnt1; [done|]. intros. apply head_set_count; lia.
  - intros b sb Hsb. assert (Hnk : nkeys l1 b = nkeys l b).
    { apply Hcnt1. intros. apply bucket_set_count; lia. }
    rewrite Hnk. unfold l1 in Hsb. rewrite Hpt in Hsb. unfold gap. destruct (decide (b = sl_hash s)) as [->|Nb].
    + injection Hsb as <-. simpl. destruct (Z.ltb_spec 0 (nkeys l (sl_hash s) - 1)); lia.
    + by apply Hbk.
Qed.

(** A leading slot with further keys: another key of the bucket takes its place. *)
Section RemoveLead.
Context (M u n : Z) (l : list qhasharr_slot) (m : gmap kid bytes) (Hok : tbl_ok (Tbl M u n l) m).
Context (idx idx2 : Z) (s s2 : qhasharr_slot) (rest : list Z).
Context (Hs : sat l idx = Some s) (Hc : 1 < sl_count s) (Hd : dseg l idx rest).
Context (Hs2 : sat l idx2 = Some s2) (Hc2 : sl_count s2 = -1) (Hh2 : sl_hash s2 = idx).

#[local] Abbreviation l1 := (rl l idx rest).
#[local] Definition lead_slot' : qhasharr_slot := set_count (sl_count s - 1) s2.
#[local] Abbreviation l2 := (moved l1 idx2 idx s2 lead_slot').

#[local] Lemma rml_core : tbl_core (Tbl M u n l) m.
Proof using Hok. by destruct Hok. Qed.

#[local] Lemma rml_head : is_head s = true.
Proof using Hc. apply is_head_cases. lia. Qed.

#[local] Lemma rml_head2 : is_head s2 = true.
Proof using Hc2. apply is_head_cases. lia. Qed.

#[local] Lemma rml_hash : sl_hash s = idx.
Proof using All.
  destruct rml_core as [_ Hb _ _ _]. destruct (lb_slot l Hb idx s Hs) as [_ _ _ Hld _]. apply Hld. lia.
Qed.

#[local] Lemma rml_src : sat l1 idx2 = Some s2.
Proof using All.
  rewrite (rm_pt M u n l m rml_core idx s rest Hs rml_head Hd). rewrite decide_False; [done|].
  intros [E|Hin]%elem_of_cons.
  - rewrite E in Hs2. assert (s2 = s) as E2 by congruence. rewrite E2 in Hc2. lia.
  - by apply (rest_not_head l idx rest idx2 s2 Hd Hin Hs2 rml_head2).
Qed.

#[local] Lemma rml_dst : sat l1 idx = Some (set_count 0 s).
Proof using All.
  rewrite (rm_pt M u n l m rml_core idx s rest Hs rml_head Hd).
  rewrite decide_True by set_solver. by rewrite Hs.
Qed.

#[local] Lemma rml_base : lbase l1.
Proof using All. by apply (rm_base M u n l m rml_core idx s rest Hs rml_head Hd). Qed.

#[local] Lemma rml_used2 : sl_count s2 <> 0.
Proof using Hc2. lia. Qed.

#[local] Lemma rml_len : blen l1 = blen l.
Proof using All. apply blen_free_chain. Qed.

#[local] Lemma rml_slot_ok : slot_ok (blen l1) idx lead_slot'.
Proof using All.
  destruct (lb_slot l1 rml_base idx2 s2 rml_src) as [_ Hdat Hhd _ _].
  destruct rml_core as [_ Hb _ _ _]. destruct (lb_slot l Hb idx s Hs) as [? _ _ _ _].
  specialize (Hhd rml_head2).
  split; cbn [lead_slot' set_count sl_count sl_data sl_hash sl_size]; try done; try lia.
Qed.

#[local] Lemma rml_count P :
  (forall a x, P (set_link x a) = P a) -> (forall a x, sl_count a = -2 -> P (set_hash x a) = P a) ->
  countb P l2 = countb P l1 - b2n (P (set_count 0 s)) + b2n (P lead_slot') - b2n (P s2) + b2n (P (set_count 0 s2)).
Proof using All.
  apply (moved_count l1 idx2 idx s2 lead_slot' (set_count 0 s) rml_base rml_src rml_used2 rml_dst eq_refl).
Qed.

#[local] Lemma rml_lead_head : is_head lead_slot' = true.
Proof using Hc. apply is_head_cases. cbn [lead_slot' set_count sl_count]. lia. Qed.

#[local] Lemma rml_used : countb is_used l2 = countb is_used l1.
Proof using All.
  rewrite rml_count by done. change (is_used (set_count 0 s)) with false. change (is_used (set_count 0 s2)) with false.
  rewrite (proj2 (is_used_ne s2)) by lia.
  rewrite (proj2 (is_used_ne lead_slot')) by (apply head_used, rml_lead_head). simpl. lia.
Qed.

#[local] Lemma rml_heads : countb is_head l2 = n - 1.
Proof using All.
  rewrite rml_count by done. change (is_head (set_count 0 s)) with false. change (is_head (set_count 0 s2)) with false.
  rewrite rml_head2, rml_lead_head, (rm_heads M u n l m rml_core idx s rest Hs rml_head Hd). simpl. lia.
Qed.

#[local] Lemma in_bucket_ext b a x : sl_count a = -2 -> in_bucket b (set_hash x a) = in_bucket b a.
Proof using. intros E. unfold in_bucket, is_head. simpl. by rewrite E. Qed.

#[local] Lemma rml_nkeys b : nkeys l2 b = nkeys l b - b2n (bool_decide (idx = b)).
Proof using All.
  unfold nkeys. rewrite rml_count; [|done|intros; by apply in_bucket_ext].
  change (in_bucket b (set_count 0 s)) with false. change (in_bucket b (set_count 0 s2)) with false.
  rewrite (in_bucket_self b s2 rml_head2), (in_bucket_self b lead_slot' rml_lead_head).
  cbn [lead_slot' set_count sl_hash].
  pose proof (free_nkeys l idx s rest b Hs rml_head Hd) as Hn. unfold nkeys in Hn. unfold rl. rewrite Hn.
  rewrite (in_bucket_self b s rml_head), rml_hash. simpl. lia.
Qed.

#[local] Lemma rml_pt x : sat l2 x =
  if decide (x = idx) then Some lead_slot'
  else if decide (x = idx2) then Some (set_count 0 s2)
  else if decide (sl_count s2 = -2 /\ x = sl_hash s2) then set_link idx <$> sat l1 x
  else if decide (sl_link s2 <> -1 /\ x = sl_link s2) then set_hash idx <$> sat l1 x
  else sat l1 x.
Proof using All.
  apply (moved_pt l1 idx2 idx s2 lead_slot' (set_count 0 s) rml_base rml_src rml_used2 rml_dst eq_refl).
Qed.

#[local] Lemma rml_move_len : blen l2 = blen l1.
Proof using All.
  apply (blen_moved l1 idx2 idx s2 lead_slot' (set_count 0 s) rml_base rml_src rml_used2 rml_dst eq_refl).
Qed.

#[local] Lemma rml_buckets b : bucket_ok l2 b 0.
Proof using All.
  intros sb Hsb. rewrite rml_nkeys, rml_pt in *. destruct Hok as [_ Hbk]. cbn [slots] in Hbk.
  destruct (decide (b = idx)) as [Eb|Nb].
  - injection Hsb as <-. rewrite bool_decide_eq_true_2 by done. specialize (Hbk b s ltac:(by rewrite Eb)).
    rewrite Z.sub_0_r in Hbk. cbn [lead_slot' set_count sl_count]. simpl b2n.
    destruct (Z.ltb_spec 0 (nkeys l b)); destruct (Z.ltb_spec 0 (nkeys l b - 1 - 0)); lia.
  - rewrite bool_decide_eq_false_2 by congruence. simpl b2n. rewrite Z.sub_0_r.
    assert (exists s0, sat l b = Some s0 /\ (sb = s0 \/ sl_count sb <= 0 /\ sl_count s0 <= 0)) as (s0 & Hs0 & Hcase).
    { destruct (decide (b = idx2)) as [E2|N2]; [injection Hsb as <-; exists s2; rewrite E2; simpl; split; [done|right; lia]|].
      rewrite decide_False in Hsb by lia.
      pose proof (rm_pt M u n l m rml_core idx s rest Hs rml_head Hd b) as Hb1.
      destruct (decide (b ∈ idx :: rest)) as [Hin|Hin].
      - destruct (dseg_rest_ext _ _ _ b Hd) as (s0 & Hs0 & Hc0); [set_solver|]. exists s0. split; [done|]. right.
        rewrite Hb1, Hs0 in Hsb. simpl in Hsb. destruct (decide _); injection Hsb as <-; simpl; lia.
      - rewrite Hb1 in Hsb. destruct (decide (sl_link s2 <> -1 /\ b = sl_link s2)) as [[Hl El]|]; [|by eauto].
        destruct (link_next l1 idx2 s2 rml_base rml_src rml_used2 Hl) as (sy & Hy & Hcy & _).
        rewrite <- El, Hb1 in Hy. exists sy. split; [done|]. right. rewrite Hy in Hsb. injection Hsb as <-. simpl. lia. }
    specialize (Hbk b s0 Hs0). rewrite Z.sub_0_r in Hbk. destruct Hcase as [->|[? ?]]; [by rewrite Z.sub_0_r|].
    rewrite Z.sub_0_r. destruct (Z.ltb_spec 0 (nkeys l b)); lia.
Qed.

Lemma rm_lead : tbl_ok (Tbl M (countb is_used l2) (n - 1) l2) (delete (kid_of_slot s) m) /\ countb is_used l2 < u.
Proof using All.
  rewrite rml_used. split; [|by apply (rm_used M u n l m rml_core idx s rest Hs rml_head Hd)].
  destruct rml_core as [HM _ _ _ _]. cbn [maxslots usedslots num slots] in HM.
  split; [split|]; cbn [maxslots usedslots num slots].
  - by rewrite rml_move_len, rml_len.
  - apply (move_base l1 l2 idx2 idx s2 lead_slot' (set_count 0 s) rml_base rml_src rml_used2 rml_dst eq_refl
      rml_move_len rml_slot_ok eq_refl eq_refl eq_refl eq_refl); [|intros _; apply rml_lead_head|apply rml_pt].
    intros E. lia.
  - by rewrite rml_used.
  - by rewrite rml_heads.
  - apply (move_rep l1 l2 idx2 idx s2 lead_slot' (set_count 0 s) rml_base rml_src rml_used2 rml_dst eq_refl
      rml_move_len rml_slot_ok eq_refl eq_refl eq_refl eq_refl); [|intros _; apply rml_lead_head|apply rml_pt|].
    + intros E. lia.
    + apply (rm_rep M u n l m rml_core idx s rest Hs rml_head Hd).
  - apply rml_buckets.
Qed.

Lemma rm_lead_run e :
  (remove_data idx;; copy_slot idx idx2;; remove_slot idx2;;
   write_slot idx (set_count (i16 (sl_count s - 1)));; relink_child idx;; mret true) (st e M u n l) =
  Some (true, st e M (countb is_used l2) (n - 1) l2).
Proof using All.
  destruct (rm_facts M u n l m rml_core idx s rest Hs rml_head Hd) as (_ & _ & _ & Hn & Hb & Hlen).
  erewrite SM_bind_Some; [|by apply (rm_run M u n l m rml_core idx s rest Hs rml_head Hd)].
  pose proof rml_src as Hsrc. pose proof rml_dst as Hdst. pose proof rml_used2 as Hu2.
  pose proof (used_lt l1 idx (set_count 0 s) Hdst eq_refl). pose proof (countb_nonneg is_used l1). rewrite rml_len in *.
  assert (Hne : idx <> idx2).
  { intros E. rewrite E in Hs. assert (s = s2) as E2 by congruence. rewrite E2 in Hc. lia. }
  pose proof (sat_range _ _ _ Hdst). pose proof (sat_range _ _ _ Hsrc). rewrite rml_len in *.
  erewrite SM_bind_Some; [|by eapply (copy_slot_ok _ _ _ _ l1 idx idx2)].
  assert (E2 : sat (lupd l1 idx s2) idx2 = Some s2) by (rewrite sat_lupd_ne; [done|done|lia]).
  erewrite SM_bind_Some; [|by eapply remove_slot_ok].
  set (l3 := lupd (lupd l1 idx s2) idx2 (set_count 0 s2)).
  assert (E3 : sat l3 idx = Some s2).
  { unfold l3. rewrite sat_lupd_ne; [|congruence|lia]. by apply (sat_lupd_eq _ _ _ (set_count 0 s)). }
  erewrite SM_bind_Some; [|by apply write_slot_ok].
  assert (El : lupd l3 idx (set_count (i16 (sl_count s - 1)) s2) = mothered l1 idx2 idx s2 lead_slot').
  { unfold mothered. rewrite decide_False by lia. unfold placed, l3, lupd, lead_slot'.
    destruct (lb_slot l Hb idx s Hs). rewrite i16_small by lia.
    rewrite (list_insert_insert_ne _ (Z.to_nat idx) (Z.to_nat idx2)) by lia.
    by rewrite list_insert_insert_eq. }
  rewrite El. rewrite (i32_small (_ + 1)) by lia. rewrite i32_small by lia.
  erewrite SM_bind_Some; [|apply (relink_child_ok l1 idx2 idx s2 lead_slot' (set_count 0 s) rml_base Hsrc Hu2 Hdst eq_refl);
    [by rewrite rml_len|done]].
  rewrite rml_used. cbn [mret SM_ret]. by replace (countb is_used l1 + 1 - 1) with (countb is_used l1) by lia.
Qed.
End RemoveLead.

(** ** Making room for a leading slot *)

Section MoveAway.
Context (M u n : Z) (l : list qhasharr_slot) (m : gmap kid bytes) (Hok : tbl_ok (Tbl M u n l) m).
Context (src dst : Z) (ss se : qhasharr_slot).
Context (Hsrc : sat l src = Some ss) (Hcs : sl_count ss < 0).
Context (Hdst : sat l dst = Some se) (Hce : sl_count se = 0).

#[local] Abbreviation l2 := (moved l src dst ss ss).

#[local] Lemma ma_facts :
  lbase l /\ M = blen l /\ u = countb is_used l /\ n = countb is_head l /\ sl_count ss <> 0 /\
  (sl_count ss = -2 \/ sl_count ss = -1) /\ blen l < 2 ^ 31.
Proof using All.
  destruct Hok as [[HM Hb Hu Hn _] _]. cbn [maxslots usedslots num slots] in *.
  destruct (lb_slot l Hb src ss Hsrc). pose proof (lb_len l Hb). do 4 (split; [done|]). lia.
Qed.

#[local] Lemma ma_count P :
  (forall a x, P (set_link x a) = P a) -> (forall a x, sl_count a = -2 -> P (set_hash x a) = P a) ->
  P se = false -> P (set_count 0 ss) = false -> countb P l2 = countb P l.
Proof using All.
  intros H1 H2 Hse Hz. destruct ma_facts as (Hb & _ & _ & _ & Hu & _).
  rewrite (moved_count l src dst ss ss se Hb Hsrc Hu Hdst Hce P H1 H2), Hse, Hz. simpl. lia.
Qed.

#[local] Lemma not_used_0 s : sl_count s = 0 -> is_used s = false /\ is_head s = false.
Proof using. intros E. unfold is_used, is_head. by rewrite E. Qed.

#[local] Lemma ma_slot_ok : slot_ok (blen l) dst ss.
Proof using All.
  destruct ma_facts as (Hb & _). destruct (lb_slot l Hb src ss Hsrc). split; try done. lia.
Qed.

#[local] Lemma ma_pt x : sat l2 x =
  if decide (x = dst) then Some ss
  else if decide (x = src) then Some (set_count 0 ss)
  else if decide (sl_count ss = -2 /\ x = sl_hash ss) then set_link dst <$> sat l x
  else if decide (sl_link ss <> -1 /\ x = sl_link ss) then set_hash dst <$> sat l x
  else sat l x.
Proof using All. destruct ma_facts as (Hb & _ & _ & _ & Hu & _). by apply (moved_pt l src dst ss ss se). Qed.

Lemma move_away_ok : tbl_ok (Tbl M u n l2) m.
Proof using All.
  destruct ma_facts as (Hb & HM & Hu & Hn & Hus & Hcc & Hlt). destruct (not_used_0 se Hce) as [Hse1 Hse2].
  pose proof (blen_moved l src dst ss ss se Hb Hsrc Hus Hdst Hce) as Hlen.
  destruct Hok as [[_ _ _ _ Hr] Hbk]. cbn [slots] in *.
  split; [split|]; cbn [maxslots usedslots num slots].
  - by rewrite Hlen.
  - by apply (move_base l l2 src dst ss ss se Hb Hsrc Hus Hdst Hce Hlen ma_slot_ok); try apply ma_pt.
  - by rewrite ma_count.
  - by rewrite ma_count.
  - by apply (move_rep l l2 src dst ss ss se Hb Hsrc Hus Hdst Hce Hlen ma_slot_ok); try apply ma_pt.
  - intros b sb Hsb. assert (Hnk : nkeys l2 b = nkeys l b).
    { apply ma_count; [done|intros; by apply in_bucket_ext| |done]. unfold in_bucket. by rewrite Hse2. }
    rewrite Hnk.
    assert (exists s0, sat l b = Some s0 /\ (sl_count sb = sl_count s0 \/ sl_count sb <= 0 /\ sl_count s0 <= 0))
      as (s0 & Hs0 & Hcase).
    { rewrite ma_pt in Hsb. destruct (decide (b = dst)) as [E|]; [injection Hsb as <-; exists se; rewrite E; split; [done|lia]|].
      destruct (decide (b = src)) as [E|]; [injection Hsb as <-; exists ss; rewrite E; simpl; split; [done|lia]|].
      destruct (sat l b) as [s0|] eqn:E; [exists s0; split; [done|]|by repeat case_decide].
      left. repeat case_decide; injection Hsb as <-; done. }
    specialize (Hbk b s0 Hs0). destruct Hcase as [->|[? ?]]; [done|].
    destruct (Z.ltb_spec 0 (nkeys l b - 0)); lia.
Qed.

Lemma move_away_src : sat l2 src = Some (set_count 0 ss).
Proof using All.
  rewrite ma_pt, decide_False; [by rewrite decide_True|]. intros E. rewrite E in Hsrc.
  assert (ss = se) as E2 by congruence. rewrite E2 in Hcs. lia.
Qed.

Lemma move_away_run {A} e (k : HM A) :
  (copy_slot dst src;; remove_slot src;;
   s ← read_slot dst;
   (if sl_count s =? -2 then write_slot (sl_hash s) (set_link (i32 dst));; relink_child dst
    else if sl_count s =? -1 then relink_child dst else mret tt);; k) (st e M u n l) =
  k (st e M u n l2).
Proof using All.
  destruct ma_facts as (Hb & HM & Hu & Hn & Hus & Hcc & Hlt).
  pose proof (sat_range _ _ _ Hdst). pose proof (sat_range _ _ _ Hsrc).
  pose proof (used_lt l dst se Hdst Hce). pose proof (countb_nonneg is_used l).
  assert (Hne : dst <> src).
  { intros E. rewrite E in Hdst. assert (se = ss) as E2 by congruence. rewrite E2 in Hce. lia. }
  erewrite SM_bind_Some; [|by eapply (copy_slot_ok _ _ _ _ l dst src)].
  assert (E1 : sat (lupd l dst ss) src = Some ss) by (rewrite sat_lupd_ne; [done|done|lia]).
  erewrite SM_bind_Some; [|by eapply remove_slot_ok].
  rewrite (i32_small (u + 1)) by lia. rewrite (i32_small (u + 1 - 1)) by lia. replace (u + 1 - 1) with u by lia.
  fold (placed l src dst ss ss).
  assert (Hpd : sat (placed l src dst ss ss) dst = Some ss).
  { rewrite (placed_pt l src dst ss ss se) by done. by rewrite decide_True. }
  erewrite SM_bind_Some; [|by apply read_slot_ok]. cbv beta.
  pose proof (relink_child_ok l src dst ss ss se Hb Hsrc Hus Hdst Hce e M u n Hlt eq_refl) as Hrl.
  unfold mothered in Hrl. destruct (Z.eqb_spec (sl_count ss) (-2)) as [Ec|Ec].
  - rewrite decide_True in Hrl by done.
    destruct (ext_prev l src ss Hb Hsrc Ec) as (sx & Hsx & _).
    destruct (mother_apart l src dst ss ss se Hb Hsrc Hus Hdst Hce Ec).
    assert (Hpm : sat (placed l src dst ss ss) (sl_hash ss) = Some sx).
    { rewrite (placed_pt l src dst ss ss se) by done. by rewrite !decide_False. }
    unfold modl in Hrl. rewrite Hpm in Hrl.
    rewrite (SM_bind_Some _ _ _ tt (st e M u n l2)); [done|].
    erewrite SM_bind_Some; [|by apply write_slot_ok].
    rewrite i32_small by lia. exact Hrl.
  - rewrite decide_False in Hrl by lia. destruct (Z.eqb_spec (sl_count ss) (-1)); [|lia].
    rewrite (SM_bind_Some _ _ _ tt (st e M u n l2)); [done|]. exact Hrl.
Qed.
End MoveAway.

(** ** The public operations *)

Section Public.
Context `{KeyDigest}.

Lemma head_lookup l m i s rest :
  lrep l m -> sat l i = Some s -> is_head s = true -> dseg l i rest ->
  m !! kid_of_slot s = Some (chain_val l (i :: rest)).
Proof. intros Hr Hs Hh Hd. apply Hr. by exists i, s, rest. Qed.

Lemma no_head_lookup l m k :
  lrep l m -> (forall i s, sat l i = Some s -> is_head s = true -> kid_of_slot s <> k) -> m !! k = None.
Proof.
  intros Hr Hno. destruct (m !! k) as [v|] eqn:E; [|done].
  apply Hr in E as (i & s & rest & Hs & Hh & Hk & _). by destruct (Hno i s).
Qed.

(** [_get_idx] on a table: the slot of the key when the map has it. *)
Lemma get_idx_tbl e M u n l m key :
  tbl_ok (Tbl M u n l) m ->
  exists r, get_idx (Some key) (bucket_of key M) (st e M u n l) = Some (r, st e M u n l) /\
    ((r = -1 /\ m !! kid_of_key key M = None) \/
     exists s rest, 0 <= r /\ sat l r = Some s /\ is_head s = true /\ kid_of_slot s = kid_of_key key M /\
       dseg l r rest /\ m !! kid_of_key key M = Some (chain_val l (r :: rest))).
Proof.
  intros [[HM Hb _ _ Hr] Hbk]. cbn [maxslots usedslots num slots] in *.
  destruct (get_idx_ok e M u n l key Hb HM (Hbk _)) as (r & Hrun & Hcase). exists r. split; [done|].
  destruct Hcase as [[-> Hno]|(s & H0 & Hs & Hh & Hk)].
  - left. split; [done|]. by apply (no_head_lookup l).
  - right. destruct (lb_chain l Hb r s Hs Hh) as (rest & Hd). exists s, rest.
    do 5 (split; [done|]). rewrite <- Hk. by apply (head_lookup l m r s).
Qed.

Lemma remove_tbl e M u n l m key :
  tbl_ok (Tbl M u n l) m ->
  match m !! kid_of_key key M with
  | None => qhasharr_remove (Some key) (st e M u n l) = Some (false, st ENOENT M u n l)
  | Some _ => exists u' n' l', qhasharr_remove (Some key) (st e M u n l) = Some (true, st e M u' n' l') /\
      tbl_ok (Tbl M u' n' l') (delete (kid_of_key key M) m) /\ u' < u
  end.
Proof.
  intros Hok. pose proof Hok as [[HM Hb _ _ Hr] Hbk]. cbn [maxslots usedslots num slots] in *.
  pose proof (lb_len l Hb). unfold qhasharr_remove.
  destruct (get_idx_tbl e M u n l m key Hok) as (r & Hrun & Hcase).
  destruct Hcase as [[-> Hno]|(s & rest & Hr0 & Hs & Hh & Hk & Hd & Hlk)].
  { rewrite Hno. hstep. hstep. destruct (Z.eqb_spec M 0); [lia|]. erewrite SM_bind_Some; [|exact Hrun]. done. }
  rewrite Hlk.
  assert (Hhash : sl_hash s = bucket_of key M).
  { unfold kid_of_slot, kid_of_key in Hk. by injection Hk. }
  rewrite <- Hk. hstep. hstep. destruct (Z.eqb_spec M 0); [lia|]. erewrite SM_bind_Some; [|exact Hrun].
  destruct (Z.ltb_spec r 0); [lia|]. hstep. destruct (Z.eqb_spec (sl_count s) 1) as [E1|N1].
  - destruct (rm_single M u n l m (proj1 Hok) r s rest Hs Hh Hd e Hbk E1) as (u' & n' & l' & Hrm & Hok' & Hu').
    exists u', n', l'. erewrite SM_bind_Some; [|exact Hrm]. done.
  - destruct (Z.ltb_spec 1 (sl_count s)) as [L1|G1].
    + assert (Er : r = bucket_of key M).
      { rewrite <- Hhash. symmetry. apply (lb_slot l Hb r s Hs). lia. }
      assert (Hin : in_bucket r s = true) by (apply in_bucket_true; split; [done|congruence]).
      destruct (bucket_lead l r r s Hb (Hbk r) Hs Hin) as (ld & Hld & Hcnt & _).
      assert (ld = s) as -> by congruence.
      destruct (find_dup_ok (S (S (Z.to_nat M))) e M u n l r 0) as (r2 & s2 & Hdup & Hs2 & Hc2 & Hh2 & Hne2);
        [done| |lia|lia|lia| | |].
      { pose proof (sat_range _ _ _ Hs). lia. }
      { lia. }
      { destruct (bucket_other l r r s Hs Hin ltac:(lia)) as (j & sj & Hne & Hj & Hinj).
        exists j, sj. apply in_bucket_true in Hinj as [Hhj Hhashj].
        split; [done|]. split; [|done]. apply is_head_cases in Hhj as [Hp|]; [|done].
        destruct (lb_slot l Hb j sj Hj) as [_ _ _ Hlead _]. specialize (Hlead Hp). congruence. }
      rewrite cyc_0 in Hdup by (pose proof (sat_range _ _ _ Hs); lia). rewrite <- Er.
      erewrite SM_bind_Some; [|exact Hdup]. cbv beta iota. hstep.
      destruct (rm_lead M u n l m Hok r r2 s s2 rest Hs L1 Hd Hs2 Hc2 Hh2) as [Hok' Hu'].
      pose proof (rm_lead_run M u n l m Hok r r2 s s2 rest Hs L1 Hd Hs2 Hc2 Hh2 e) as Hrun'.
      do 3 eexists. split; [exact Hrun'|]. done.
    + assert (Hc1 : sl_count s = -1) by (apply is_head_cases in Hh; lia).
      destruct (Z.eqb_spec (sl_count s) (-1)); [|lia].
      assert (Hbin : in_bucket (sl_hash s) s = true) by (by apply in_bucket_true).
      destruct (bucket_lead l (sl_hash s) r s Hb (Hbk _) Hs Hbin) as (lead & Hld & _ & _).
      destruct (rm_dup e M u n l m r s lead Hok Hs Hc1 Hld) as [Hgt (u' & n' & l' & Hrm & Hok' & Hu')].
      hstep. destruct (Z.leb_spec (sl_count lead) 1); [lia|]. hstep.
      destruct (lb_slot l Hb _ lead Hld). rewrite i16_small by lia.
      exists u', n', l'. erewrite SM_bind_Some; [|exact Hrm]. done.
Qed.

(** The result of storing a key that the table does not have. *)
Definition put_result (e M u n : Z) (l : list qhasharr_slot) (m : gmap kid bytes) (key value : bytes)
    (run : option (bool * hstate)) : Prop :=
  exists (r : bool) u' n' l', run = Some (r, st (if r then e else ENOBUFS) M u' n' l') /\
    (r = true <-> slots_for (blen value) <= M - u) /\
    if r then tbl_ok (Tbl M u' n' l') (<[kid_of_key key M := value]> m) /\ u' = u + slots_for (blen value)
    else tbl_ok (Tbl M u' n' l') m.

(** An empty leading slot. *)
Lemma put_lead e M u n l m key value s0 :
  tbl_ok (Tbl M u n l) m -> m !! kid_of_key key M = None -> blen key < 65536 -> 0 < blen value ->
  sat l (bucket_of key M) = Some s0 -> sl_count s0 = 0 ->
  put_result e M u n l m key value (put_data (bucket_of key M) (bucket_of key M) key value 1 (st e M u n l)).
Proof.
  intros [[HM Hb Hu Hn Hr] Hbk] Hm Hkey Hval Hs0 Hc0. cbn [maxslots usedslots num slots] in *.
  destruct (put_data_ok e M u n l (bucket_of key M) 0 (bucket_of key M) 1 key value m s0) as
    (r & l' & Hrun & Hlen & Hiff & Hb' & Hres); try done; [by apply buckets_0|by left|].
  exists r, (countb is_used l'), (countb is_head l'), l'. split; [done|]. split; [done|].
  destruct r; destruct Hres as [Hbk' Hr']; [destruct Hr' as (Hr' & _ & Hu' & _)|];
    [split; [|done]|]; (split; [split; cbn [maxslots usedslots num slots]; try done; lia|by eapply buckets_0]).
Qed.

(** A further key of a bucket. *)
Lemma put_collision e M u n l m key value lead idx s0 :
  tbl_ok (Tbl M u n l) m -> m !! kid_of_key key M = None -> blen key < 65536 -> 0 < blen value ->
  sat l (bucket_of key M) = Some lead -> 0 < sl_count lead < 2 ^ 15 - 1 ->
  sat l idx = Some s0 -> sl_count s0 = 0 ->
  put_result e M u n l m key value
    ((stored ← put_data idx (bucket_of key M) key value (-1);
      if (stored : bool) then write_slot (bucket_of key M) (fun l => set_count (i16 (sl_count l + 1)) l);; mret true
      else mret false) (st e M u n l)).
Proof.
  intros [[HM Hb Hu Hn Hr] Hbk] Hm Hkey Hval Hld Hcl Hs0 Hc0. cbn [maxslots usedslots num slots] in *.
  set (h := bucket_of key M) in *.
  assert (Hne : idx <> h) by (intros ->; assert (lead = s0) as -> by congruence; lia).
  destruct (put_data_ok e M u n l h 1 idx (-1) key value m s0) as
    (r & l' & Hrun & Hlen & Hiff & Hb' & Hres); try done; [by apply buckets_0|by right|].
  erewrite SM_bind_Some; [|exact Hrun]. destruct r.
  2:{ destruct Hres as [Hbk' Hr']. exists false, (countb is_used l'), (countb is_head l'), l'. split; [done|]. split; [done|].
      split; [split; cbn [maxslots usedslots num slots]; try done; lia|by eapply buckets_0]. }
  destruct Hres as (Hbk' & Hr' & _ & Hu' & Hnk').
  assert (Hnk : 0 < nkeys l h /\ sl_count lead = nkeys l h).
  { specialize (Hbk h lead Hld). rewrite Z.sub_0_r in Hbk. destruct (Z.ltb_spec 0 (nkeys l h)); lia. }
  destruct Hnk as [Hnk0 Hnk1].
  destruct (sat_is_Some l' h) as (lead' & Hld'); [rewrite Hlen; by eapply sat_range|].
  assert (Hcnt : sl_count lead' = nkeys l h).
  { pose proof (Hbk' h lead' Hld') as Hl. unfold gap in Hl. rewrite decide_True in Hl by done.
    rewrite Hnk', bool_decide_eq_true_2 in Hl by done. simpl b2n in Hl.
    destruct (Z.ltb_spec 0 (nkeys l h + 1 - 1)); lia. }
  set (c := sl_count lead' + 1). set (l2 := lupd l' h (set_count c lead')).
  pose proof (fun x => sat_lupd l' h x (set_count c lead') lead' Hld') as Hpt.
  assert (Hc15 : 0 < c < 2 ^ 15) by lia.
  assert (Hcnt2 : forall P, (forall a, 0 < sl_count a -> P (set_count c a) = P a) -> countb P l2 = countb P l').
  { intros P HP. apply lead_count; [done|lia|lia|done]. }
  exists true, (countb is_used l2), (countb is_head l2), l2.
  erewrite SM_bind_Some; [|by apply write_slot_ok]. cbv beta. rewrite i16_small by lia.
  rewrite (Hcnt2 is_used) by (intros; apply used_set_count; lia).
  rewrite (Hcnt2 is_head) by (intros; apply head_set_count; lia).
  split; [done|]. split; [done|]. split; [|done]. split; [split|]; cbn [maxslots usedslots num slots].
  - unfold l2. by rewrite blen_lupd, Hlen.
  - apply (lead_base l' l2 h c lead' Hb' Hld'); try done; [lia|apply blen_lupd].
  - rewrite Hcnt2; [done|]. intros; apply used_set_count; lia.
  - rewrite Hcnt2; [done|]. intros; apply head_set_count; lia.
  - apply (lead_rep l' l2 h c lead' Hb' Hld'); try done; [lia|apply blen_lupd].
  - intros b sb Hsb. assert (Hnk2 : nkeys l2 b = nkeys l' b).
    { apply Hcnt2. intros; apply bucket_set_count; lia. }
    rewrite Hnk2, Z.sub_0_r. unfold l2 in Hsb. rewrite Hpt in Hsb. destruct (decide (b = h)) as [->|Nb].
    + injection Hsb as <-. rewrite Hnk', bool_decide_eq_true_2 by done. simpl b2n. simpl sl_count.
      destruct (Z.ltb_spec 0 (nkeys l h + 1)); lia.
    + specialize (Hbk' b sb Hsb). unfold gap in Hbk'. rewrite decide_False in Hbk' by done.
      by rewrite Z.sub_0_r in Hbk'.
Qed.

(** A key that the table does not have. *)
Lemma put_fresh fuel e M u n l m key value :
  tbl_ok (Tbl M u n l) m -> m !! kid_of_key key M = None -> blen key < 65536 -> 0 < blen value ->
  nkeys l (bucket_of key M) < 2 ^ 15 - 1 ->
  put_result e M u n l m key value (put_rec (S fuel) (Some key) (Some value) (st e M u n l)).
Proof.
  intros Hok Hm Hkey Hval Hnk. pose proof Hok as [[HM Hb Hu Hn Hr] Hbk]. cbn [maxslots usedslots num slots] in *.
  pose proof (lb_len l Hb). pose proof (countb_le is_used l).
  cbn [put_rec]. hstep. hstep. destruct (Z.eqb_spec M 0); [lia|]. hstep.
  assert (Hsf : 1 <= slots_for (blen value)) by (unfold slots_for, blocks; dm_lia).
  destruct (Z.leb_spec M u).
  { exists false, u, n, l. split; [done|]. split; [split; [done|lia]|done]. }
  assert (Hh : 0 <= bucket_of key M < M) by (apply Z.mod_pos_bound; lia).
  destruct (sat_is_Some l (bucket_of key M)) as (s & Hs); [lia|]. hstep.
  destruct (Z.eqb_spec (sl_count s) 0) as [E0|N0]; [by eapply put_lead|].
  destruct (Z.ltb_spec 0 (sl_count s)) as [Hpos|Hneg].
  - destruct (get_idx_tbl e M u n l m key Hok) as (r & Hrun & Hcase).
    destruct Hcase as [[-> _]|(s1 & rest & _ & _ & _ & _ & _ & Hlk)]; [|congruence].
    erewrite SM_bind_Some; [|exact Hrun]. cbn [Z.leb Z.compare].
    destruct (find_empty_ok e M u n l (bucket_of key M)) as (r & Hre & Hcase); [done|done|lia|lia|].
    destruct Hcase as [[-> ?]|(s0 & Hs0 & Hc0 & _)]; [lia|].
    erewrite SM_bind_Some; [|exact Hre]. pose proof (sat_range _ _ _ Hs0). destruct (Z.ltb_spec r 0); [lia|].
    apply (put_collision e M u n l m key value s r s0); try done.
    specialize (Hbk _ s Hs). rewrite Z.sub_0_r in Hbk. destruct (Z.ltb_spec 0 (nkeys l (bucket_of key M))); lia.
  - destruct (find_empty_ok e M u n l (bucket_of key M + 1)) as (r & Hre & Hcase); [done|done|lia|lia|].
    destruct Hcase as [[-> ?]|(s0 & Hs0 & Hc0 & _)]; [lia|].
    erewrite SM_bind_Some; [|exact Hre]. pose proof (sat_range _ _ _ Hs0). destruct (Z.ltb_spec r 0); [lia|].
    assert (Hcs : sl_count s < 0) by lia.
    rewrite (move_away_run M u n l m Hok (bucket_of key M) r s s0 Hs Hcs Hs0 Hc0 e).
    pose proof (put_lead e M u n _ m key value (set_count 0 s)
      (move_away_ok M u n l m Hok (bucket_of key M) r s s0 Hs Hcs Hs0 Hc0) Hm Hkey Hval
      (move_away_src M u n l m Hok (bucket_of key M) r s s0 Hs Hcs Hs0 Hc0) eq_refl) as Hp.
    exact Hp.
Qed.
End Public.
