(* ===== verification/HashArrMap.v ===== *)
(** * The table as a map: counting, creation, and the operations on whole tables *)

From S2P Require Import Prelude Common HashArr HashArrSeg HashArrInv HashArrOps HashArrPut HashArrMove HashArrSpec.
Import HashArr.

(** ** The keys of the map are the heads of the array *)

Lemma NoDup_filter_map {A B} (P : A -> bool) (f : A -> B) l :
  (forall i j x y, l !! i = Some x -> l !! j = Some y -> P x = true -> P y = true -> f x = f y -> i = j) ->
  NoDup (f <$> List.filter P l).
Proof.
  induction l as [|a l IH]; intros Hinj; [constructor|]. simpl.
  assert (Htl : NoDup (f <$> List.filter P l)).
  { apply IH. intros i j x y Hi Hj Hx Hy E. pose proof (Hinj (S i) (S j) x y Hi Hj Hx Hy E). lia. }
  destruct (P a) eqn:Ea; [|done]. simpl. constructor; [|done].
  intros (y & E & Hy)%list_elem_of_fmap. apply list_elem_of_In, List.filter_In in Hy as [Hy HPy].
  apply list_elem_of_In, list_elem_of_lookup in Hy as (j & Hj).
  pose proof (Hinj 0%nat (S j) a y eq_refl Hj Ea HPy E). lia.
Qed.

Definition kid_bucket (k : kid) : Z := let '(b, _, _, _) := k in b.

Section Count.
Context (l : list qhasharr_slot) (m : gmap kid bytes) (Hb : lbase l) (Hr : lrep l m).

Lemma heads_count (Q : kid -> Prop) `{forall k, Decision (Q k)} :
  countb (fun s => is_head s && bool_decide (Q (kid_of_slot s))) l = Z.of_nat (size (filter (fun kv => Q kv.1) m)).
Proof using Hb Hr.
  unfold countb, blen. f_equal. set (P := fun s => _).
  assert (Hnd : NoDup (kid_of_slot <$> List.filter P l)).
  { apply NoDup_filter_map. intros i j x y Hi Hj [Hx _]%andb_true_iff [Hy _]%andb_true_iff E.
    assert (Z.of_nat i = Z.of_nat j); [|lia].
    apply (lb_uniq l Hb _ _ x y); try done; by rewrite sat_nat. }
  rewrite <- size_dom. transitivity (size (list_to_set (C := gset kid) (kid_of_slot <$> List.filter P l))).
  - rewrite size_list_to_set by done. by rewrite length_fmap.
  - f_equal. apply set_eq. intros k. rewrite elem_of_list_to_set, list_elem_of_fmap, elem_of_dom. split.
    + intros (s & -> & Hs). apply list_elem_of_In, List.filter_In in Hs as [Hs [Hh HQ]%andb_true_iff].
      apply list_elem_of_In, list_elem_of_lookup in Hs as (i & Hi).
      assert (Hsat : sat l (Z.of_nat i) = Some s) by (by rewrite sat_nat).
      destruct (lb_chain l Hb _ s Hsat Hh) as (rest & Hd).
      exists (chain_val l (Z.of_nat i :: rest)). apply map_lookup_filter_Some. split.
      * by apply (head_lookup l m (Z.of_nat i) s).
      * by apply bool_decide_eq_true in HQ.
    + intros [v [Hv HQ]%map_lookup_filter_Some]. apply Hr in Hv as (i & s & rest & Hs & Hh & Hk & _).
      exists s. split; [done|]. apply list_elem_of_In, List.filter_In. split.
      * unfold sat in Hs. case_decide; [|done]. by apply list_elem_of_In, (list_elem_of_lookup_2 _ (Z.to_nat i)).
      * apply andb_true_iff. split; [done|]. apply bool_decide_eq_true. simpl in HQ. by rewrite Hk.
Qed.

Lemma heads_size : countb is_head l = Z.of_nat (size m).
Proof using Hb Hr.
  etrans; [|etrans; [apply (heads_count (fun _ => True))|]].
  - apply countb_ext. intros s. by rewrite bool_decide_eq_true_2, andb_true_r by done.
  - f_equal. f_equal. apply map_eq. intros k.
    apply option_eq. intros v. rewrite map_lookup_filter_Some. naive_solver.
Qed.

Lemma nkeys_size b : nkeys l b = Z.of_nat (size (filter (fun kv => kid_bucket kv.1 = b) m)).
Proof using Hb Hr.
  pose proof (heads_count (fun k => kid_bucket k = b)) as E. etrans; [|exact E]. apply countb_ext. intros s.
  unfold in_bucket. f_equal. cbn [kid_of_slot kid_bucket].
  destruct (Z.eqb_spec (sl_hash s) b); symmetry; [by apply bool_decide_eq_true|by apply bool_decide_eq_false].
Qed.
End Count.

(** How many keys of the map share the bucket of a key. *)
Definition bucket_load (m : gmap kid bytes) (b : Z) : Z :=
  Z.of_nat (size (filter (fun kv : kid * bytes => kid_bucket kv.1 = b) m)).

Lemma bucket_load_delete m k b : bucket_load (delete k m) b <= bucket_load m b.
Proof.
  unfold bucket_load. rewrite map_filter_delete. apply inj_le.
  set (f := filter _ m). rewrite map_size_delete. destruct (f !! k); simpl; lia.
Qed.

(** ** An empty array *)

Lemma sat_replicate n i s : sat (replicate n zero_slot) i = Some s -> s = zero_slot.
Proof. unfold sat. case_decide; [|done]. by intros [-> _]%lookup_replicate. Qed.

Lemma empty_tbl_ok M :
  0 < M < 2 ^ 31 -> tbl_ok (Tbl M 0 0 (replicate (Z.to_nat M) zero_slot)) ∅.
Proof.
  intros HM. split; [split|]; cbn [maxslots usedslots num slots].
  - unfold blen. rewrite length_replicate. lia.
  - split.
    + unfold blen. rewrite length_replicate. lia.
    + intros i s ->%sat_replicate. split; cbn; try lia; try done.
    + by intros i s ->%sat_replicate.
    + by intros i s ->%sat_replicate.
    + by intros i j si sj ->%sat_replicate.
    + by intros i s rest ->%sat_replicate.
  - symmetry. by apply countb_replicate.
  - symmetry. by apply countb_replicate.
  - intros k v. rewrite lookup_empty. split; [done|].
    by intros (i & s & rest & ->%sat_replicate & Hh & _).
  - intros b s ->%sat_replicate. unfold nkeys. by rewrite countb_replicate.
Qed.

(** ** The used slots are those the values need *)

Definition total (m : gmap kid bytes) : Z := map_fold (fun _ v a => slots_for (blen v) + a) 0 m.

Lemma total_insert m k v : m !! k = None -> total (<[k := v]> m) = slots_for (blen v) + total m.
Proof. intros Hk. unfold total. rewrite map_fold_insert_L; [done|intros; lia|done]. Qed.

Lemma total_delete m k v : m !! k = Some v -> total (delete k m) = total m - slots_for (blen v).
Proof. intros Hk. rewrite <- (insert_delete_id m k v) at 2 by done. rewrite total_insert by apply lookup_delete_eq. lia. Qed.

Lemma free_used l i s rest : lbase l -> sat l i = Some s -> is_head s = true -> dseg l i rest ->
  countb is_used (free_chain l (i :: rest)) = countb is_used l - blen (i :: rest).
Proof.
  intros Hb Hs Hh Hd. assert (Hall : forall x, x ∈ i :: rest -> exists s, sat l x = Some s /\ sl_count s <> 0)
    by (intros x Hx; by eapply (chain_all_used l i s rest)).
  pose proof (dseg_NoDup l i rest (head_not_ext _ _ _ Hs Hh) Hd) as Hnd. clear Hb Hs Hh Hd. revert l Hall Hnd.
  generalize (i :: rest). clear i rest. intros c. induction c as [|x c IH]; intros l Hall Hnd; [cbn [free_chain]; rewrite blen_nil; lia|].
  apply NoDup_cons in Hnd as [Hx Hnd]. destruct (Hall x) as (sx & Hsx & Hcx); [set_solver|].
  cbn [free_chain]. rewrite Hsx. cbv beta zeta. rewrite IH; [|intros y Hy|done].
  - rewrite (countb_lupd _ _ _ sx), (proj2 (is_used_ne sx)) by done. change (is_used (set_count 0 sx)) with false.
    rewrite blen_cons. simpl. lia.
  - destruct (Hall y) as (sy & ? & ?); [set_solver|]. exists sy. split; [|done]. rewrite sat_lupd_ne; [done|set_solver|by eapply sat_range].
Qed.

(** A table uses exactly the slots that its values need. *)
Lemma used_total l m : lbase l -> lrep l m -> countb is_used l = total m.
Proof.
  remember (size m) as n eqn:En. revert l m En. induction n as [|n IH]; intros l m En Hb Hr.
  - symmetry in En. apply map_size_empty_inv in En as ->. apply countb_sat_zero. intros i s Hs.
    destruct (is_used s) eqn:Eu; [|done]. apply is_used_ne in Eu.
    destruct (used_on_chain l i s Hb Hs Eu) as (j & sj & rest & Hj & Hh & Hd & _).
    pose proof (head_lookup l ∅ j sj rest Hr Hj Hh Hd) as Hl. by rewrite lookup_empty in Hl.
  - destruct (map_choose m) as (k & v & Hk); [intros ->; by rewrite map_size_empty in En|].
    destruct (proj1 (Hr k v) Hk) as (i & s & rest & Hs & Hh & Ek & Hd & Ev).
    pose proof (fun x => free_chain_pt l i s rest x Hs Hh Hd) as Hpt.
    pose proof (free_base l _ i rest s Hb Hs Hh Hd (blen_free_chain _ _) Hpt) as Hb'.
    pose proof (free_rep l _ i rest s Hb Hs Hh Hd (blen_free_chain _ _) Hpt m Hr) as Hr'. rewrite Ek in Hr'.
    assert (En' : n = size (delete k m)) by (rewrite map_size_delete, Hk, <- En; done).
    specialize (IH _ (delete k m) En' Hb' Hr'). rewrite (free_used l i s rest Hb Hs Hh Hd) in IH. rewrite (lb_full l Hb i s rest Hs Hh Hd), Ev in IH.
    rewrite (total_delete m k v Hk) in IH. lia.
Qed.

Lemma tbl_total t m : tbl_ok t m -> usedslots t = total m.
Proof. intros [[_ Hb Hu _ Hr] _]. rewrite Hu. by apply used_total. Qed.

(** ** The operations *)

Section Ops.
Context `{KeyDigest}.

(** Whether a value finds room: a full table takes nothing, and the old value of the key goes first. *)
Definition fits (M : Z) (m : gmap kid bytes) (k : kid) (value : bytes) : bool :=
  (total m <? M) && (slots_for (blen value) <=? M - total (delete k m)).

Lemma put_exact e M u n l m key value :
  tbl_ok (Tbl M u n l) m -> blen key < 65536 -> 0 < blen value ->
  bucket_load m (bucket_of key M) < 2 ^ 15 - 1 ->
  let r := fits M m (kid_of_key key M) value in
  exists u' n' l',
    qhasharr_put (Some key) (Some value) (st e M u n l) = Some (r, st (if r then e else ENOBUFS) M u' n' l') /\
    tbl_ok (Tbl M u' n' l')
      (if r then <[kid_of_key key M := value]> m else if M <=? u then m else delete (kid_of_key key M) m).
Proof.
  intros Hok Hkey Hval Hload. pose proof (tbl_total _ _ Hok) as Hut. cbn [usedslots] in Hut. unfold fits. rewrite <- Hut.
  pose proof Hok as [[HM Hb _ _ Hr] Hbk]. cbn [maxslots usedslots num slots] in *.
  pose proof (lb_len l Hb). unfold bucket_load in Hload. rewrite <- (nkeys_size l m Hb Hr) in Hload.
  assert (Hsf : 1 <= slots_for (blen value)) by (unfold slots_for, blocks; dm_lia).
  unfold qhasharr_put. destruct (m !! kid_of_key key M) as [v0|] eqn:Hlk.
  2:{ destruct (put_fresh 1 e M u n l m key value Hok Hlk Hkey Hval Hload)
        as (r & u' & n' & l' & Hrun & Hiff & Hres). rewrite (delete_id m) by done. rewrite <- Hut.
      assert (Er : (u <? M) && (slots_for (blen value) <=? M - u) = r).
      { destruct (Z.leb_spec (slots_for (blen value)) (M - u)); destruct (Z.ltb_spec u M); try lia; destruct r; try done;
          exfalso; [apply Bool.diff_false_true|..]; intuition lia. }
      rewrite Er. exists u', n', l'. split; [done|]. destruct r; [by destruct Hres|]. by destruct (M <=? u). }
  destruct (Z.leb_spec M u) as [Hfull|Hroom].
  { destruct (Z.ltb_spec u M); [lia|]. exists u, n, l. cbn [put_rec andb]. hstep. hstep. destruct (Z.eqb_spec M 0); [lia|]. hstep.
    destruct (Z.leb_spec M u); [|lia]. done. }
  destruct (Z.ltb_spec u M); [|lia]. cbn [andb].
  pose proof (remove_tbl e M u n l m key Hok) as Hrm. rewrite Hlk in Hrm.
  destruct Hrm as (u1 & n1 & l1 & Hrm & Hok1 & Hu1). pose proof (tbl_total _ _ Hok1) as Hut1. cbn [usedslots] in Hut1. rewrite <- Hut1.
  pose proof Hok1 as [[_ Hb1 _ _ Hr1] _]. cbn [maxslots usedslots num slots] in *.
  destruct (put_fresh 0 e M u1 n1 l1 _ key value Hok1) as (r & u' & n' & l' & Hrun & Hiff & Hres); try done.
  { apply lookup_delete_eq. }
  { rewrite (nkeys_size l1 _ Hb1 Hr1). rewrite (nkeys_size l m Hb Hr) in Hload.
    pose proof (bucket_load_delete m (kid_of_key key M) (bucket_of key M)). unfold bucket_load in *. lia. }
  assert (Er : (slots_for (blen value) <=? M - u1) = r).
  { destruct (Z.leb_spec (slots_for (blen value)) (M - u1)); destruct r; try done; exfalso; intuition lia. }
  rewrite Er. exists u', n', l'. split.
  - destruct (get_idx_tbl e M u n l m key Hok) as (i & Hidx & Hcase).
    destruct Hcase as [[_ ?]|(s & rest & Hi & Hs & Hh & Hk & Hd & _)]; [congruence|].
    assert (Hbin : in_bucket (bucket_of key M) s = true).
    { apply in_bucket_true. split; [done|]. unfold kid_of_slot, kid_of_key in Hk. by injection Hk. }
    destruct (bucket_lead l _ i s Hb (Hbk _) Hs Hbin) as (lead & Hld & Hcnt & Hinl).
    assert (0 < nkeys l (bucket_of key M)) by (apply countb_sat_pos; eauto).
    rewrite <- Hrun. cbn [put_rec]. hstep. hstep. destruct (Z.eqb_spec M 0); [lia|]. hstep.
    destruct (Z.leb_spec M u); [lia|]. hstep.
    destruct (Z.eqb_spec (sl_count lead) 0); [lia|]. destruct (Z.ltb_spec 0 (sl_count lead)); [|lia].
    erewrite SM_bind_Some; [|exact Hidx]. destruct (Z.leb_spec 0 i); [|lia].
    erewrite SM_bind_Some; [|exact Hrm]. reflexivity.
  - destruct r; [|done]. destruct Hres as [Hres _]. by rewrite insert_delete_eq in Hres.
Qed.

Lemma fits_room M u m k value : total m = u -> slots_for (blen value) <= M - u -> fits M m k value = true.
Proof.
  intros <- Hs. assert (1 <= slots_for (blen value)) by (unfold slots_for, blocks; pose proof (blen_nonneg value); dm_lia).
  unfold fits. apply andb_true_iff. split; [apply Z.ltb_lt; lia|]. apply Z.leb_le.
  destruct (m !! k) as [v|] eqn:E; [|by rewrite delete_id by done; lia].
  rewrite (total_delete m k v E). assert (0 <= slots_for (blen v)) by (unfold slots_for, blocks; pose proof (blen_nonneg v); dm_lia). lia.
Qed.

Lemma put_tbl e M u n l m key value :
  tbl_ok (Tbl M u n l) m -> blen key < 65536 -> 0 < blen value ->
  bucket_load m (bucket_of key M) < 2 ^ 15 - 1 ->
  exists (r : bool) u' n' l',
    qhasharr_put (Some key) (Some value) (st e M u n l) = Some (r, st (if r then e else ENOBUFS) M u' n' l') /\
    (slots_for (blen value) <= M - u -> r = true) /\
    (m !! kid_of_key key M = None -> r = true -> slots_for (blen value) <= M - u) /\
    tbl_ok (Tbl M u' n' l')
      (if r then <[kid_of_key key M := value]> m else if M <=? u then m else delete (kid_of_key key M) m).
Proof.
  intros Hok Hkey Hval Hload. destruct (put_exact e M u n l m key value Hok Hkey Hval Hload) as (u' & n' & l' & Hrun & Hok').
  pose proof (tbl_total _ _ Hok) as Hut. cbn [usedslots] in Hut.
  exists (fits M m (kid_of_key key M) value), u', n', l'. split; [done|]. split; [by apply fits_room|]. split; [|done].
  intros Hno Hf. unfold fits in Hf. apply andb_true_iff in Hf as [_ Hf%Z.leb_le]. rewrite delete_id in Hf by done. lia.
Qed.

Lemma get_tbl malloc_ok e M u n l m key :
  tbl_ok (Tbl M u n l) m ->
  qhasharr_get malloc_ok (Some key) (st e M u n l) =
    match m !! kid_of_key key M with
    | None => Some (None, st ENOENT M u n l)
    | Some v => if malloc_ok (blen v) then Some (Some v, st e M u n l) else Some (None, st ENOMEM M u n l)
    end.
Proof.
  intros Hok. pose proof Hok as [[HM Hb _ _ _] _]. cbn [maxslots usedslots num slots] in *.
  pose proof (lb_len l Hb). destruct (get_idx_tbl e M u n l m key Hok) as (i & Hidx & Hcase).
  unfold qhasharr_get. hstep. hstep. destruct (Z.eqb_spec M 0); [lia|]. erewrite SM_bind_Some; [|exact Hidx].
  destruct Hcase as [[-> ->]|(s & rest & Hi & Hs & Hh & Hk & Hd & ->)]; [done|].
  destruct (Z.ltb_spec i 0); [lia|]. by apply (get_data_ok malloc_ok e M u n l i s rest).
Qed.

Lemma exist_tbl e M u n l m key :
  tbl_ok (Tbl M u n l) m ->
  qhasharr_exist (Some key) (st e M u n l) = Some (bool_decide (is_Some (m !! kid_of_key key M)), st e M u n l).
Proof.
  intros Hok. pose proof Hok as [[HM Hb _ _ _] _]. cbn [maxslots usedslots num slots] in *.
  pose proof (lb_len l Hb). destruct (get_idx_tbl e M u n l m key Hok) as (i & Hidx & Hcase).
  unfold qhasharr_exist. hstep. hstep. destruct (Z.eqb_spec M 0); [lia|]. erewrite SM_bind_Some; [|exact Hidx].
  destruct Hcase as [[-> ->]|(s & rest & Hi & Hs & Hh & Hk & Hd & ->)]; [done|].
  destruct (Z.leb_spec 0 i); [done|lia].
Qed.

Lemma clear_tbl e M u n l m :
  tbl_ok (Tbl M u n l) m ->
  exists u' n' l', qhasharr_clear (st e M u n l) = Some (tt, st e M u' n' l') /\ tbl_ok (Tbl M u' n' l') ∅.
Proof.
  intros Hok. pose proof Hok as [[HM Hb Hu _ Hr] _]. cbn [maxslots usedslots num slots] in *.
  pose proof (lb_len l Hb). unfold qhasharr_clear. hstep. cbv beta iota.
  rewrite (SM_bind_Some the_tbl _ _ (Tbl M u n l) (st e M u n l)) by done. cbn [usedslots maxslots].
  destruct (Z.eqb_spec u 0) as [E|_].
  - exists u, n, l. split; [done|]. assert (m = ∅) as <-; [|done].
    apply map_eq. intros k. rewrite lookup_empty. apply (no_head_lookup l); [done|].
    intros i s Hs Hh. apply head_used in Hh. rewrite Hu in E.
    pose proof (proj1 (countb_sat_zero is_used l) E i s Hs) as Hz. apply is_used_ne in Hh. congruence.
  - exists 0, 0, (replicate (Z.to_nat M) zero_slot). split; [done|]. apply empty_tbl_ok. lia.
Qed.
End Ops.
