(* ===== verification/HashArrThm.v ===== *)
(** * Correctness of the shared-memory hash table

    The claims about [qhasharr.c], stated for the public operations on a whole machine state. *)

From S2P Require Import Prelude Common HashArr HashArrSeg HashArrInv HashArrOps HashArrPut HashArrMove HashArrSpec HashArrMap.
Import HashArr.

(** ** The identity of short keys is the key *)

Lemma kid_of_key_inj `{KeyDigest} k1 k2 M :
  blen k1 <= 32 -> kid_of_key k1 M = kid_of_key k2 M -> k1 = k2.
Proof.
  intros Hs E. unfold kid_of_key in E. injection E as _ Hl Hp _. unfold blen in *.
  rewrite !take_ge in Hp by (unfold Q_HASHARR_KEYSIZE; lia). done.
Qed.

(** A table is fit to use when it stores some map. *)
Definition tbl_wf (t : qhasharr_t) : Prop := exists m, tbl_ok t m.

(** ** Enumeration *)

(** The loop of the header comment of [qhasharr_getnext], which [qconf_shm.cc] runs. *)
Fixpoint collect (fuel : nat) (idx : Z) : HM (list (bytes * bytes)) :=
  match fuel with
  | O => undefined
  | S fuel' =>
      r ← qhasharr_getnext (fun _ => true) idx;
      match r with
      | (None, _) => mret []
      | (Some kv, idx') => rest ← collect fuel' idx'; mret (kv :: rest)
      end
  end.

(** The name [qhasharr_getnext] returns: the key, cut to 32 bytes. *)
Definition kid_name (k : kid) : bytes := let '(_, _, name, _) := k in name.

Lemma slot_name s :
  length (sl_data s) = SLOT_DATA_SIZE ->
  take (Z.to_nat (if Z.of_nat Q_HASHARR_KEYSIZE <? pair_keylen (sl_data s) then Z.of_nat Q_HASHARR_KEYSIZE
                  else pair_keylen (sl_data s))) (pair_key (sl_data s)) = kid_name (kid_of_slot s).
Proof.
  intros Hd. pose proof (length_pair_key _ Hd) as Hk. cbn [kid_of_slot kid_name].
  destruct (Z.ltb_spec (Z.of_nat Q_HASHARR_KEYSIZE) (pair_keylen (sl_data s))); [|done].
  rewrite !take_ge; [done| |]; lia.
Qed.

Lemma getnext_loop_ok fuel e M u n l m idx :
  tbl_ok (Tbl M u n l) m -> 0 <= idx <= M -> M - idx < Z.of_nat fuel ->
  (getnext_loop fuel (fun _ => true) idx (st e M u n l) = Some ((None, M), st ENOENT M u n l) /\
   forall j sj, idx <= j -> sat l j = Some sj -> is_head sj = false) \/
  exists i s rest, idx <= i /\ sat l i = Some s /\ is_head s = true /\ dseg l i rest /\
    (forall j sj, idx <= j < i -> sat l j = Some sj -> is_head sj = false) /\
    getnext_loop fuel (fun _ => true) idx (st e M u n l) =
      Some ((Some (kid_name (kid_of_slot s), chain_val l (i :: rest)), i + 1), st e M u n l).
Proof.
  intros Hok. pose proof Hok as [[HM Hb _ _ _] _]. cbn [maxslots usedslots num slots] in *.
  revert idx. induction fuel as [|fuel IH]; intros idx Hi Hf; [lia|]. cbn [getnext_loop]. hstep.
  destruct (Z.ltb_spec idx M) as [Hlt|Hge].
  2:{ left. assert (idx = M) as -> by lia. split; [done|]. intros j sj Hj Hs%sat_range. lia. }
  destruct (sat_is_Some l idx) as (s & Hs); [lia|]. hstep.
  pose proof (lb_slot l Hb idx s Hs) as Hsok.
  destruct ((sl_count s =? 0) || (sl_count s =? -2)) eqn:Eskip.
  - assert (Hnh : is_head s = false).
    { unfold is_head. apply orb_true_iff in Eskip as [E%Z.eqb_eq|E%Z.eqb_eq]; rewrite E; done. }
    assert (Hjn : forall j sj, idx = j -> sat l j = Some sj -> is_head sj = false) by (intros; congruence).
    destruct (IH (idx + 1)) as [[Hrun Hno]|(i & s' & rest & Hi' & Hs' & Hh & Hd & Hno & Hrun)]; [lia|lia| |].
    + left. split; [done|]. intros j sj Hj Hsj.
      destruct (decide (idx = j)); [eauto|]. apply (Hno j); [lia|done].
    + right. exists i, s', rest. split; [lia|]. do 3 (split; [done|]). split; [|done].
      intros j sj Hj Hsj. destruct (decide (idx = j)); [eauto|]. apply (Hno j); [lia|done].
  - right. apply orb_false_iff in Eskip as [E1%Z.eqb_neq E2%Z.eqb_neq].
    destruct (slot_kinds _ _ _ Hsok) as [?|[?|Hh]]; [done|done|].
    destruct (lb_chain l Hb idx s Hs Hh) as (rest & Hd). exists idx, s, rest.
    split; [lia|]. do 3 (split; [done|]). split; [lia|]. cbn [negb].
    erewrite SM_bind_Some; [|by apply (get_data_ok (fun _ => true) e M u n l idx s rest)].
    rewrite slot_name by apply Hsok. done.
Qed.

Lemma collect_ok fuel e M u n l m idx :
  tbl_ok (Tbl M u n l) m -> 0 <= idx <= M -> M - idx < Z.of_nat fuel ->
  exists kvs : list (kid * bytes),
    collect fuel idx (st e M u n l) = Some (prod_map kid_name id <$> kvs, st ENOENT M u n l) /\
    NoDup kvs.*1 /\ forall k v, (k, v) ∈ kvs <-> exists i, idx <= i /\ entry l i k v.
Proof.
  intros Hok. pose proof Hok as [[HM Hb _ _ _] _]. cbn [maxslots usedslots num slots] in *.
  revert idx. induction fuel as [|fuel IH]; intros idx Hi Hf; [lia|]. cbn [collect].
  unfold qhasharr_getnext.
  destruct (getnext_loop_ok (S (Z.to_nat M)) e M u n l m idx Hok Hi ltac:(lia))
    as [[Hrun Hno]|(i & s & rest & Hi' & Hs & Hh & Hd & Hno & Hrun)].
  - exists []. split; [|split; [constructor|]].
    + erewrite SM_bind_Some; [|hstep; hstep; exact Hrun]. done.
    + intros k v. split; [by intros ?%elem_of_nil|]. intros (i & Hii & s & rest & Hs & Hh & _).
      by rewrite (Hno i s Hii Hs) in Hh.
  - pose proof (sat_range _ _ _ Hs).
    destruct (IH (i + 1)) as (kvs & Hc & Hnd & Hin); [lia|lia|].
    exists ((kid_of_slot s, chain_val l (i :: rest)) :: kvs). split; [|split].
    + erewrite SM_bind_Some; [|hstep; hstep; exact Hrun]. cbv beta iota.
      erewrite SM_bind_Some; [|exact Hc]. done.
    + cbn [fmap list_fmap]. constructor; [|done]. intros ((k & v) & Ek & Hkv)%list_elem_of_fmap. simpl in Ek. subst k.
      apply Hin in Hkv as (j & Hj & s' & rest' & Hs' & Hh' & Hk' & _).
      pose proof (lb_uniq l Hb i j s s' Hs Hs' Hh Hh' (eq_sym Hk')). lia.
    + intros k v. rewrite elem_of_cons, Hin. split.
      * intros [[= -> ->]|(j & Hj & He)]; [exists i; split; [lia|]; by exists s, rest|exists j; split; [lia|done]].
      * intros (j & Hj & He). destruct (decide (j = i)) as [->|Hne].
        -- left. destruct (entry_functional l i k v (kid_of_slot s) (chain_val l (i :: rest)) He) as [-> ->];
             [by exists s, rest|done].
        -- right. exists j. split; [|done]. destruct (Z.lt_ge_cases j i); [|lia].
           destruct He as (sj & rj & Hsj & Hhj & _). by rewrite (Hno j sj ltac:(lia) Hsj) in Hhj.
Qed.

(** ** A walk from an index on: the entries that [qhasharr_getnext] will return *)

Inductive walk (l : list qhasharr_slot) : Z -> list (kid * bytes) -> Prop :=
  | walk_end idx : (forall j sj, idx <= j -> sat l j = Some sj -> is_head sj = false) -> walk l idx []
  | walk_step idx i s rest kvs :
      idx <= i -> sat l i = Some s -> is_head s = true -> dseg l i rest ->
      (forall j sj, idx <= j < i -> sat l j = Some sj -> is_head sj = false) -> walk l (i + 1) kvs ->
      walk l idx ((kid_of_slot s, chain_val l (i :: rest)) :: kvs).

Lemma walk_entries l idx kvs k v : walk l idx kvs -> (k, v) ∈ kvs -> exists i, idx <= i /\ entry l i k v.
Proof.
  induction 1 as [|idx i s rest kvs Hi Hs Hh Hd _ _ IH]; [by intros ?%elem_of_nil|].
  intros [[= -> ->]|Hin]%elem_of_cons; [exists i; split; [done|]; by exists s, rest|].
  destruct (IH Hin) as (j & Hj & He). exists j. split; [lia|done].
Qed.

Lemma entry_walk l idx kvs i k v : walk l idx kvs -> idx <= i -> entry l i k v -> (k, v) ∈ kvs.
Proof.
  intros Hw Hi He. revert Hi. induction Hw as [idx Hno|idx i0 s rest kvs Hi0 Hs Hh Hd Hno _ IH]; intros Hi.
  - destruct He as (s & rest & Hs & Hh & _). by rewrite (Hno i s Hi Hs) in Hh.
  - rewrite elem_of_cons. destruct (decide (i = i0)) as [->|Hne].
    + left. destruct (entry_functional l i0 k v (kid_of_slot s) (chain_val l (i0 :: rest)) He) as [-> ->]; [by exists s, rest|done].
    + right. apply IH. destruct (Z.lt_ge_cases i i0); [|lia]. destruct He as (sj & rj & Hsj & Hhj & _). by rewrite (Hno i sj ltac:(lia) Hsj) in Hhj.
Qed.

Section Walks.
Variables (e M u n : Z) (l : list qhasharr_slot) (m : gmap kid bytes).
Hypothesis Hok : tbl_ok (Tbl M u n l) m.

Lemma walk_exists idx : 0 <= idx <= M -> exists kvs, walk l idx kvs /\ NoDup kvs.*1.
Proof.
  pose proof Hok as [[HM Hb _ _ _] _]. cbn [maxslots usedslots num slots] in *.
  remember (Z.to_nat (M - idx)) as n0 eqn:En. revert idx En. induction n0 as [n0 IH] using lt_wf_ind. intros idx -> Hi.
  destruct (getnext_loop_ok (S (Z.to_nat M)) e M u n l m idx Hok Hi ltac:(lia)) as [[_ Hno]|(i & s & rest & Hi' & Hs & Hh & Hd & Hno & _)].
  - exists []. split; [by constructor|constructor].
  - pose proof (sat_range _ _ _ Hs). destruct (IH (Z.to_nat (M - (i + 1))) ltac:(lia) (i + 1) eq_refl ltac:(lia)) as (kvs & Hw & Hnd).
    exists ((kid_of_slot s, chain_val l (i :: rest)) :: kvs). split; [by eapply walk_step|]. cbn [fmap list_fmap]. constructor; [|done].
    intros ((k & v) & Ek & Hkv)%list_elem_of_fmap. simpl in Ek. subst k.
    destruct (walk_entries _ _ _ _ _ Hw Hkv) as (j & Hj & s' & rest' & Hs' & Hh' & Hk' & _).
    pose proof (lb_uniq l Hb i j s s' Hs Hs' Hh Hh' (eq_sym Hk')). lia.
Qed.

Lemma walk_all : exists kvs, walk l 0 kvs /\ kvs ≡ₚ map_to_list m.
Proof.
  pose proof Hok as [[HM Hb _ _ Hr] _]. cbn [maxslots usedslots num slots] in *. pose proof (lb_len l Hb).
  destruct (walk_exists 0) as (kvs & Hw & Hnd); [lia|]. exists kvs. split; [done|].
  apply NoDup_Permutation; [by apply NoDup_fmap_1 in Hnd|apply NoDup_map_to_list|].
  intros [k v]. rewrite elem_of_map_to_list, (Hr k v). split.
  - intros Hin. destruct (walk_entries _ _ _ _ _ Hw Hin) as (i & _ & He). by exists i.
  - intros (i & He). eapply entry_walk; [done| |done]. destruct He as (s & rest & Hs & _). by eapply sat_range.
Qed.

Lemma walk_getnext idx kvs :
  0 <= idx <= M -> walk l idx kvs ->
  match kvs with
  | [] => qhasharr_getnext (fun _ => true) idx (st e M u n l) = Some ((None, M), st ENOENT M u n l)
  | (k, v) :: kvs' => exists idx', idx < idx' <= M /\ walk l idx' kvs' /\
      qhasharr_getnext (fun _ => true) idx (st e M u n l) = Some ((Some (kid_name k, v), idx'), st e M u n l)
  end.
Proof.
  intros Hi Hw. pose proof Hok as [[HM Hb _ _ _] _]. cbn [maxslots usedslots num slots] in *.
  assert (Hrun : qhasharr_getnext (fun _ => true) idx (st e M u n l) = getnext_loop (S (Z.to_nat M)) (fun _ => true) idx (st e M u n l)).
  { unfold qhasharr_getnext. by do 2 hstep. }
  destruct (getnext_loop_ok (S (Z.to_nat M)) e M u n l m idx Hok Hi ltac:(lia)) as [[Hg Hno]|(i & s & rest & Hi' & Hs & Hh & Hd & Hno & Hg)];
    destruct Hw as [idx Hno'|idx i' s' rest' kvs Hi'' Hs' Hh' Hd' Hno' Hw].
  - by rewrite Hrun.
  - by rewrite (Hno i' s' Hi'' Hs') in Hh'.
  - by rewrite (Hno' i s Hi' Hs) in Hh.
  - assert (i' = i) as ->.
    { destruct (Z.lt_trichotomy i i') as [Hl|[E|Hl]]; [|done|]; [by rewrite (Hno' i s ltac:(lia) Hs) in Hh|by rewrite (Hno i' s' ltac:(lia) Hs') in Hh']. }
    pose proof (sat_range _ _ _ Hs). exists (i + 1). split; [lia|]. split; [done|]. rewrite Hrun, Hg.
    rewrite Hs in Hs'. injection Hs' as <-.
    destruct (entry_functional l i (kid_of_slot s) (chain_val l (i :: rest)) (kid_of_slot s) (chain_val l (i :: rest'))) as [_ E];
      [by exists s, rest|by exists s, rest'|]. by rewrite E.
Qed.
End Walks.

(** ** The abstract specification: a bounded map *)

Inductive op :=
| OPut (key value : bytes)
| OGet (key : bytes)
| ORemove (key : bytes)
| OExist (key : bytes)
| OSize
| OClear.

Inductive res := RBool (b : bool) | RVal (v : option bytes) | RSize (n max used : Z) | RUnit.

Section Machine.
Context `{KeyDigest}.

Definition run_op (o : op) : HM res :=
  match o with
  | OPut k v => b ← qhasharr_put (Some k) (Some v); mret (RBool b)
  | OGet k => v ← qhasharr_get (fun _ => true) (Some k); mret (RVal v)
  | ORemove k => b ← qhasharr_remove (Some k); mret (RBool b)
  | OExist k => b ← qhasharr_exist (Some k); mret (RBool b)
  | OSize => '(n, max, used) ← qhasharr_size; mret (RSize n max used)
  | OClear => qhasharr_clear;; mret RUnit
  end.

Fixpoint run_ops (ops : list op) : HM (list res) :=
  match ops with
  | [] => mret []
  | o :: ops' => r ← run_op o; rs ← run_ops ops'; mret (r :: rs)
  end.

(** What each call answers, with the map and [errno] after it, on a table of [M] slots. A value finds room
    when its slots are free after the old value of its key is gone, unless the table was full before; when it
    does not, the old value is lost. *)
Definition spec_op (M : Z) (o : op) (m : gmap kid bytes) (e : Z) : res * gmap kid bytes * Z :=
  match o with
  | OPut k v =>
      let i := kid_of_key k M in
      if fits M m i v then (RBool true, <[i := v]> m, e)
      else (RBool false, if M <=? total m then m else delete i m, ENOBUFS)
  | OGet k =>
      match m !! kid_of_key k M with
      | Some v => (RVal (Some v), m, e)
      | None => (RVal None, m, ENOENT)
      end
  | ORemove k =>
      match m !! kid_of_key k M with
      | Some _ => (RBool true, delete (kid_of_key k M) m, e)
      | None => (RBool false, m, ENOENT)
      end
  | OExist k => (RBool (bool_decide (is_Some (m !! kid_of_key k M))), m, e)
  | OSize => (RSize (Z.of_nat (size m)) M (total m), m, e)
  | OClear => (RUnit, ∅, e)
  end.

Fixpoint spec_ops (M : Z) (ops : list op) (m : gmap kid bytes) (e : Z) : list res * gmap kid bytes * Z :=
  match ops with
  | [] => ([], m, e)
  | o :: ops' =>
      let '(r, m1, e1) := spec_op M o m e in let '(rs, m2, e2) := spec_ops M ops' m1 e1 in (r :: rs, m2, e2)
  end.

(** Keys fit the 16-bit length field and values are not empty. *)
Definition op_ok (o : op) : bool :=
  match o with
  | OPut k v => (blen k <? 65536) && (0 <? blen v)
  | _ => true
  end.

Lemma size_step M o m e : (size (spec_op M o m e).1.2 <= S (size m))%nat.
Proof.
  destruct o; cbn [spec_op]; repeat case_match; cbn [fst snd];
    rewrite ?map_size_insert, ?map_size_delete, ?map_size_empty; repeat case_match; simpl; lia.
Qed.

Lemma bucket_load_size m b : bucket_load m b <= Z.of_nat (size m).
Proof.
  unfold bucket_load. apply inj_le. rewrite <- !size_dom. apply subseteq_size, dom_filter_subseteq.
Qed.

Lemma run_op_ok o e M u n l m :
  tbl_ok (Tbl M u n l) m -> op_ok o = true -> Z.of_nat (size m) < 2 ^ 15 - 1 ->
  let '(r, m', e') := spec_op M o m e in
  exists u' n' l', run_op o (st e M u n l) = Some (r, st e' M u' n' l') /\ tbl_ok (Tbl M u' n' l') m'.
Proof.
  intros Hok Ho Hsz. pose proof (tbl_total _ _ Hok) as Hut. cbn [usedslots] in Hut.
  destruct o as [k v|k|k|k| |]; cbn [run_op op_ok spec_op] in *.
  - apply andb_true_iff in Ho as [Hk%Z.ltb_lt Hv%Z.ltb_lt].
    destruct (put_exact e M u n l m k v Hok Hk Hv) as (u' & n' & l' & Hrun & Hok');
      [eapply Z.le_lt_trans; [apply bucket_load_size|exact Hsz]|]. rewrite <- Hut.
    destruct (fits M m (kid_of_key k M) v); exists u', n', l'; (erewrite SM_bind_Some; [|exact Hrun]); by split.
  - pose proof (get_tbl (fun _ => true) e M u n l m k Hok) as Hrun.
    destruct (m !! kid_of_key k M) as [v|]; exists u, n, l; (erewrite SM_bind_Some; [|exact Hrun]); by split.
  - pose proof (remove_tbl e M u n l m k Hok) as Hrun. destruct (m !! kid_of_key k M) as [v|].
    + destruct Hrun as (u' & n' & l' & Hrun & Hok' & _). exists u', n', l'. erewrite SM_bind_Some; [|exact Hrun]. by split.
    + exists u, n, l. erewrite SM_bind_Some; [|exact Hrun]. by split.
  - pose proof (exist_tbl e M u n l m k Hok) as Hrun. exists u, n, l. erewrite SM_bind_Some; [|exact Hrun]. by split.
  - destruct Hok as [Hc Hbk]. pose proof Hc as [_ Hb _ Hn Hr]. cbn [num slots] in *.
    exists u, n, l. split; [|done]. rewrite <- Hut, <- (heads_size l m Hb Hr), <- Hn. done.
  - destruct (clear_tbl e M u n l m Hok) as (u' & n' & l' & Hrun & Hok').
    exists u', n', l'. erewrite SM_bind_Some; [|exact Hrun]. by split.
Qed.

Lemma run_ops_ok ops e M u n l m :
  tbl_ok (Tbl M u n l) m -> forallb op_ok ops = true ->
  Z.of_nat (size m) + blen ops < 2 ^ 15 ->
  let '(rs, m', e') := spec_ops M ops m e in
  exists u' n' l', run_ops ops (st e M u n l) = Some (rs, st e' M u' n' l') /\ tbl_ok (Tbl M u' n' l') m'.
Proof.
  revert e u n l m. induction ops as [|o ops IH]; intros e u n l m Hok Hall Hsz.
  - by exists u, n, l.
  - simpl in Hall. apply andb_true_iff in Hall as [Ho Hall]. rewrite blen_cons in Hsz. pose proof (blen_nonneg ops).
    pose proof (run_op_ok o e M u n l m Hok Ho ltac:(lia)) as Hone. pose proof (size_step M o m e) as Hs.
    cbn [spec_ops]. destruct (spec_op M o m e) as [[r m1] e1]. destruct Hone as (u1 & n1 & l1 & Hrun & Hok1). cbn [fst snd] in Hs.
    specialize (IH e1 u1 n1 l1 m1 Hok1 Hall ltac:(lia)). destruct (spec_ops M ops m1 e1) as [[rs m2] e2].
    destruct IH as (u2 & n2 & l2 & Hrun2 & Hok2). exists u2, n2, l2. cbn [run_ops].
    erewrite SM_bind_Some; [|exact Hrun]. erewrite SM_bind_Some; [|exact Hrun2]. by split.
Qed.
End Machine.

(** ** Creation *)

Lemma qhasharr_created memsize e t e' :
  0 <= memsize < 2 ^ 64 -> qhasharr false memsize e = (Some t, e') ->
  e' = e /\ exists M, 0 < M < 2 ^ 31 /\ t = Tbl M 0 0 (replicate (Z.to_nat M) zero_slot).
Proof.
  intros Hm. unfold qhasharr. set (M := i32 _). destruct ((M <? 1) || (memsize <=? SIZEOF_TBL)) eqn:E; [done|].
  intros [= <- <-]. split; [done|]. exists M. split; [|done].
  apply orb_false_iff in E as [E%Z.ltb_ge _]. split; [lia|]. unfold M, i32. dm_lia.
Qed.

Lemma memsize_created max e :
  1 <= max <= 10000000 ->
  exists t, qhasharr false (qhasharr_calculate_memsize max) e = (Some t, e) /\ maxslots t = max /\ tbl_ok t ∅.
Proof.
  intros Hmax. assert (Hsz : qhasharr_calculate_memsize max = 12 + 164 * max).
  { unfold qhasharr_calculate_memsize, SIZEOF_TBL, SIZEOF_SLOT. rewrite (u64_small (164 * max)) by lia. by rewrite u64_small by lia. }
  rewrite Hsz. unfold qhasharr, SIZEOF_TBL, SIZEOF_SLOT.
  replace (12 + 164 * max - 12) with (max * 164) by lia. rewrite u64_small by lia.
  rewrite Z.div_mul by lia. rewrite i32_small by lia.
  destruct ((max <? 1) || (12 + 164 * max <=? 12)) eqn:E;
    [apply orb_true_iff in E as [E%Z.ltb_lt|E%Z.leb_le]; lia|].
  eexists. split; [done|]. split; [done|]. apply empty_tbl_ok. lia.
Qed.

(** A block of the size that [qhasharr_calculate_memsize] gives for [max] slots is cut into exactly
    [max] empty slots, which store no key; a block too small for one slot is refused with [EINVAL]. *)
Theorem qhasharr_memsize_roundtrip max e :
  1 <= max <= 10000000 ->
  (exists t, qhasharr false (qhasharr_calculate_memsize max) e = (Some t, e) /\ maxslots t = max /\ tbl_ok t ∅) /\
  (forall memsize, 0 <= memsize < SIZEOF_TBL + SIZEOF_SLOT -> qhasharr false memsize e = (None, EINVAL)).
Proof.
  intros Hmax. unfold SIZEOF_TBL, SIZEOF_SLOT. split; [by apply memsize_created|].
  intros memsize Hm. unfold qhasharr, SIZEOF_TBL, SIZEOF_SLOT.
  destruct (Z.leb_spec memsize 12); [by rewrite orb_true_r|].
  by rewrite u64_small, Z.div_small by lia.
Qed.

Lemma qhasharr_memsize_roundtrip_witness :
  1 <= 800 <= 10000000 /\
  exists t, qhasharr false (qhasharr_calculate_memsize 800) 0 = (Some t, 0) /\ maxslots t = 800 /\ tbl_ok t ∅.
Proof. split; [lia|]. apply (qhasharr_memsize_roundtrip 800 0). lia. Defined.

(** ** The claims about the operations *)

Section Claims.
Context `{KeyDigest}.

(** C1. Refinement: a table created by [qhasharr] behaves as the abstract bounded map, call by call. Every
    sequence of fewer than 32768 calls whose values are not empty and whose keys have at most 65535 bytes
    (the widths of the counter of a bucket and of the length of a key) runs without undefined behaviour and
    within the fuel of all loops, and its answers, [errno] and the final contents are the ones that
    [spec_ops] computes on a map. *)
Theorem table_refines_map memsize e t e' ops :
  0 <= memsize < 2 ^ 64 -> qhasharr false memsize e = (Some t, e') ->
  forallb op_ok ops = true -> blen ops < 2 ^ 15 ->
  let '(rs, m', e2) := spec_ops (maxslots t) ops ∅ e in
  exists t', run_ops ops (HS e (Some t)) = Some (rs, HS e2 (Some t')) /\ tbl_ok t' m' /\
    usedslots t' = total m' /\ maxslots t' = maxslots t.
Proof.
  intros Hm Hq Hops Hlen. destruct (qhasharr_created memsize e t e' Hm Hq) as (_ & M & HM & ->).
  pose proof (run_ops_ok ops e M 0 0 _ ∅ (empty_tbl_ok M HM) Hops) as Hrun. cbn [maxslots].
  destruct (spec_ops M ops ∅ e) as [[rs m'] e2]. destruct Hrun as (u & n & l & Hrun & Hok); [rewrite map_size_empty; lia|].
  exists (Tbl M u n l). split; [done|]. split; [done|]. split; [by apply tbl_total|done].
Qed.

(** C18. [qhasharr_put] of a non-empty value under a key of at most 65535 bytes, in a bucket with fewer
    than 32767 keys: on [true] the key maps to the value and nothing else changed; on [false] [errno]
    is [ENOBUFS] and the other keys are unchanged (an existing value of the key is lost unless the
    table was full before the call). It succeeds whenever the value's slots fit in the free slots,
    and for a new key only then. *)
Theorem qhasharr_put_correct e t m key value :
  tbl_ok t m -> blen key < 65536 -> 0 < blen value ->
  bucket_load m (bucket_of key (maxslots t)) < 2 ^ 15 - 1 ->
  exists (r : bool) t', qhasharr_put (Some key) (Some value) (HS e (Some t)) =
      Some (r, HS (if r then e else ENOBUFS) (Some t')) /\
    maxslots t' = maxslots t /\
    (slots_for (blen value) <= maxslots t - usedslots t -> r = true) /\
    (m !! kid_of_key key (maxslots t) = None -> r = true -> slots_for (blen value) <= maxslots t - usedslots t) /\
    tbl_ok t' (if r then <[kid_of_key key (maxslots t) := value]> m
               else if maxslots t <=? usedslots t then m else delete (kid_of_key key (maxslots t)) m).
Proof.
  destruct t as [M u n l]. cbn [maxslots usedslots]. intros Hok Hk Hv Hload.
  destruct (put_tbl e M u n l m key value Hok Hk Hv Hload) as (r & u' & n' & l' & Hrun & H1 & H2 & Hok').
  exists r, (Tbl M u' n' l'). done.
Qed.

(** [qhasharr_get] returns exactly the stored value of the key, [ENOENT] when the key has none and
    [ENOMEM] when the copy cannot be allocated; it never changes the table. *)
Theorem qhasharr_get_correct malloc_ok e t m key :
  tbl_ok t m ->
  qhasharr_get malloc_ok (Some key) (HS e (Some t)) =
    match m !! kid_of_key key (maxslots t) with
    | None => Some (None, HS ENOENT (Some t))
    | Some v => if malloc_ok (blen v) then Some (Some v, HS e (Some t)) else Some (None, HS ENOMEM (Some t))
    end.
Proof. destruct t as [M u n l]. intros Hok. by rewrite (get_tbl malloc_ok e M u n l m key Hok). Qed.

(** C19. [qhasharr_remove] of a stored key deletes it and only it, and frees at least one slot; of an
    absent key it changes nothing and sets [ENOENT]. *)
Theorem qhasharr_remove_correct e t m key :
  tbl_ok t m ->
  match m !! kid_of_key key (maxslots t) with
  | None => qhasharr_remove (Some key) (HS e (Some t)) = Some (false, HS ENOENT (Some t))
  | Some _ => exists t', qhasharr_remove (Some key) (HS e (Some t)) = Some (true, HS e (Some t')) /\
      tbl_ok t' (delete (kid_of_key key (maxslots t)) m) /\
      maxslots t' = maxslots t /\ usedslots t' < usedslots t
  end.
Proof.
  destruct t as [M u n l]. intros Hok. pose proof (remove_tbl e M u n l m key Hok) as Hrm.
  cbn [maxslots] in *. destruct (m !! kid_of_key key M); [|done].
  destruct Hrm as (u' & n' & l' & Hrun & Hok' & Hu'). by exists (Tbl M u' n' l').
Qed.

(** A value that was put is read back byte for byte, whatever its length, and the value of every
    other key of at most 32 bytes is what it was before. *)
Theorem qhasharr_put_get_roundtrip e t m key value t' e' :
  tbl_ok t m -> blen key < 65536 -> 0 < blen value ->
  bucket_load m (bucket_of key (maxslots t)) < 2 ^ 15 - 1 ->
  qhasharr_put (Some key) (Some value) (HS e (Some t)) = Some (true, HS e' (Some t')) ->
  qhasharr_get (fun _ => true) (Some key) (HS e' (Some t')) = Some (Some value, HS e' (Some t')) /\
  forall k, k <> key -> blen k <= 32 ->
    fst <$> qhasharr_get (fun _ => true) (Some k) (HS e' (Some t')) =
    fst <$> qhasharr_get (fun _ => true) (Some k) (HS e (Some t)).
Proof.
  destruct t as [M u n l]. cbn [maxslots]. intros Hok Hk Hv Hload Hput.
  destruct (put_tbl e M u n l m key value Hok Hk Hv Hload) as (r & u' & n' & l' & Hrun & _ & _ & Hok').
  rewrite Hrun in Hput. injection Hput as -> <- <-. split.
  - rewrite (get_tbl _ e M u' n' l' _ key Hok'). by rewrite lookup_insert_eq.
  - intros k Hne Hlen. rewrite (get_tbl _ e M u' n' l' _ k Hok'), (get_tbl _ e M u n l m k Hok).
    rewrite lookup_insert_ne by (intros E; apply Hne; by apply (kid_of_key_inj k key M)).
    by destruct (m !! kid_of_key k M).
Qed.

(** [qhasharr_size] reports the number of stored keys, and the used-slot counter never exceeds the
    number of slots. *)
Theorem qhasharr_size_correct e t m :
  tbl_ok t m ->
  qhasharr_size (HS e (Some t)) = Some ((Z.of_nat (size m), maxslots t, usedslots t), HS e (Some t)) /\
  Z.of_nat (size m) <= usedslots t <= maxslots t.
Proof.
  destruct t as [M u n l]. intros [[HM Hb Hu Hn Hr] _]. cbn [maxslots usedslots num slots] in *.
  pose proof (heads_size l m Hb Hr) as Hsz. split; [by rewrite <- Hsz, <- Hn|].
  pose proof (countb_le is_used l). rewrite <- Hsz, Hu, HM. split; [|done].
  apply countb_mono. intros s Hs. apply is_used_ne. by apply head_used.
Qed.

(** C29. Iterating [qhasharr_getnext] from index 0 returns every stored key (cut to 32 bytes) with its
    value exactly once, then fails with [ENOENT]; the table is unchanged. *)
Theorem qhasharr_getnext_enumerates e t m :
  tbl_ok t m ->
  exists items, collect (S (Z.to_nat (maxslots t))) 0 (HS e (Some t)) = Some (items, HS ENOENT (Some t)) /\
    items ≡ₚ prod_map kid_name id <$> map_to_list m.
Proof.
  destruct t as [M u n l]. intros Hok. cbn [maxslots].
  pose proof Hok as [[HM Hb _ _ Hr] _]. cbn [maxslots usedslots num slots] in *. pose proof (lb_len l Hb).
  destruct (collect_ok (S (Z.to_nat M)) e M u n l m 0 Hok ltac:(lia) ltac:(lia)) as (kvs & Hrun & Hnd & Hin).
  exists (prod_map kid_name id <$> kvs). split; [done|]. apply fmap_Permutation.
  apply NoDup_Permutation; [by apply NoDup_fmap_1 in Hnd|apply NoDup_map_to_list|].
  intros [k v]. rewrite Hin, elem_of_map_to_list, (Hr k v). split; intros (i & Hi); exists i; [tauto|].
  split; [|done]. destruct Hi as (s & rest & Hs & _). by eapply sat_range.
Qed.

(** [qhasharr_clear] leaves a table that stores no key and keeps its slots. *)
Theorem qhasharr_clear_correct e t m :
  tbl_ok t m ->
  exists t', qhasharr_clear (HS e (Some t)) = Some (tt, HS e (Some t')) /\ maxslots t' = maxslots t /\ tbl_ok t' ∅.
Proof.
  destruct t as [M u n l]. intros Hok. destruct (clear_tbl e M u n l m Hok) as (u' & n' & l' & Hrun & Hok').
  by exists (Tbl M u' n' l').
Qed.
End Claims.

(** ** Witnesses: a table of 40 slots with one key *)

Ltac compute_lt := vm_compute; reflexivity.

Definition demo_key : bytes := str "/demo/confs/conf1".
Definition demo_value : bytes := replicate 300 "x"%byte.
Definition demo_map : gmap kid bytes := {[ kid_of_key demo_key 40 := demo_value ]}.

Lemma demo_put :
  exists t e, qhasharr_put (Some demo_key) (Some demo_value)
      (HS 0 (Some (Tbl 40 0 0 (replicate 40 zero_slot)))) = Some (true, HS e (Some t)) /\
    maxslots t = 40 /\ tbl_ok t demo_map.
Proof.
  destruct (put_tbl 0 40 0 0 _ ∅ demo_key demo_value (empty_tbl_ok 40 ltac:(lia))) as
    (r & u & n & l & Hrun & Hroom & _ & Hok); [compute_lt|compute_lt|compute_lt|].
  rewrite (Hroom ltac:(vm_compute; discriminate)) in *. exists (Tbl 40 u n l), 0.
  split; [exact Hrun|]. split; [reflexivity|]. unfold demo_map. rewrite <- insert_empty. exact Hok.
Qed.

Lemma demo_tbl : exists t, maxslots t = 40 /\ tbl_ok t demo_map.
Proof. destruct demo_put as (t & _ & _ & HM & Hok). exists t. exact (conj HM Hok). Qed.

Lemma demo_lookup : demo_map !! kid_of_key demo_key 40 = Some demo_value.
Proof. apply lookup_singleton_eq. Qed.

Definition demo_ops : list op :=
  [OPut demo_key (str "v1"); OPut (str "a") (replicate 900 x61); OGet demo_key; OSize; ORemove demo_key; OExist demo_key;
   OGet demo_key; OPut (str "a") (str "v2"); OSize].

Lemma table_refines_map_witness :
  exists t e' t' e2, qhasharr false (qhasharr_calculate_memsize 6) 0 = (Some t, e') /\
    run_ops demo_ops (HS 0 (Some t)) =
      Some ([RBool true; RBool false; RVal (Some (str "v1")); RSize 1 6 1; RBool true; RBool false; RVal None; RBool true; RSize 1 6 1],
        HS e2 (Some t')).
Proof.
  destruct (qhasharr false (qhasharr_calculate_memsize 6) 0) as [[t|] e'] eqn:E; [|discriminate].
  pose proof (table_refines_map (qhasharr_calculate_memsize 6) 0 t e' demo_ops ltac:(vm_compute; split; [discriminate|reflexivity]) E
    ltac:(reflexivity) ltac:(reflexivity)) as Hrun.
  assert (HM : maxslots t = 6) by (injection E as <- _; reflexivity). rewrite HM in Hrun.
  destruct (spec_ops 6 demo_ops ∅ 0) as [[rs m'] e2] eqn:Es. destruct Hrun as (t' & Hrun & _).
  exists t, e', t', e2. split; [reflexivity|]. rewrite Hrun. do 2 f_equal.
  assert (Er : (spec_ops 6 demo_ops ∅ 0).1.1 = rs) by (rewrite Es; reflexivity). rewrite <- Er. vm_compute. reflexivity.
Defined.

Lemma qhasharr_put_correct_witness :
  exists (r : bool) t', qhasharr_put (Some demo_key) (Some (str "v"))
      (HS 0 (Some (Tbl 3 0 0 (replicate 3 zero_slot)))) = Some (r, HS (if r then 0 else ENOBUFS) (Some t')) /\
    tbl_ok t' (if r then <[kid_of_key demo_key 3 := str "v"]> ∅ else delete (kid_of_key demo_key 3) ∅).
Proof.
  destruct (qhasharr_put_correct 0 (Tbl 3 0 0 (replicate 3 zero_slot)) ∅ demo_key (str "v")) as
    (r & t' & Hrun & _ & _ & _ & Hok); [apply (empty_tbl_ok 3); lia|compute_lt|compute_lt|compute_lt|].
  exists r, t'. split; [exact Hrun|exact Hok].
Defined.

Lemma qhasharr_get_correct_witness :
  exists t, qhasharr_get (fun n => n <? 4096) (Some demo_key) (HS 0 (Some t)) = Some (Some demo_value, HS 0 (Some t)).
Proof.
  destruct demo_tbl as (t & HM & Hok). exists t.
  rewrite (qhasharr_get_correct (fun n => n <? 4096) 0 t demo_map demo_key Hok), HM, demo_lookup. reflexivity.
Defined.

Lemma qhasharr_remove_correct_witness :
  exists t t', qhasharr_remove (Some demo_key) (HS 0 (Some t)) = Some (true, HS 0 (Some t')) /\ usedslots t' < usedslots t.
Proof.
  destruct demo_tbl as (t & HM & Hok). exists t.
  pose proof (qhasharr_remove_correct 0 t demo_map demo_key Hok) as Hrm. rewrite HM, demo_lookup in Hrm.
  destruct Hrm as (t' & Hrun & _ & _ & Hu). exists t'. exact (conj Hrun Hu).
Defined.

Lemma qhasharr_put_get_roundtrip_witness :
  exists t e, qhasharr_get (fun _ => true) (Some demo_key) (HS e (Some t)) = Some (Some demo_value, HS e (Some t)).
Proof.
  destruct demo_put as (t & e & Hrun & _). exists t, e.
  apply (qhasharr_put_get_roundtrip 0 (Tbl 40 0 0 (replicate 40 zero_slot)) ∅ demo_key demo_value t e);
    [apply (empty_tbl_ok 40); lia|compute_lt|compute_lt|compute_lt|exact Hrun].
Defined.

Lemma qhasharr_size_correct_witness :
  exists t, qhasharr_size (HS 0 (Some t)) = Some ((1, maxslots t, usedslots t), HS 0 (Some t)).
Proof.
  destruct demo_tbl as (t & HM & Hok). exists t. destruct (qhasharr_size_correct 0 t demo_map Hok) as [E _].
  rewrite E. unfold demo_map. by rewrite map_size_singleton.
Defined.

Lemma qhasharr_getnext_enumerates_witness :
  exists t items, collect (S (Z.to_nat (maxslots t))) 0 (HS 0 (Some t)) = Some (items, HS ENOENT (Some t)) /\
    items ≡ₚ [(demo_key, demo_value)].
Proof.
  destruct demo_tbl as (t & HM & Hok). exists t.
  destruct (qhasharr_getnext_enumerates 0 t demo_map Hok) as (items & Hrun & Hp). exists items. split; [exact Hrun|].
  rewrite Hp. unfold demo_map. by rewrite map_to_list_singleton.
Defined.

Lemma qhasharr_clear_correct_witness :
  exists t t', qhasharr_clear (HS 0 (Some t)) = Some (tt, HS 0 (Some t')) /\ tbl_ok t' ∅.
Proof.
  destruct demo_tbl as (t & HM & Hok). exists t.
  destruct (qhasharr_clear_correct 0 t demo_map Hok) as (t' & Hrun & _ & Hok'). exists t'. exact (conj Hrun Hok').
Defined.
