(* ===== verification/Text.v ===== *)
(** * Decimal numbers as text

    What the sources use of [snprintf] with a decimal conversion and of [strtoll] and its relatives. *)

From S2P Require Import Prelude.

Definition digit (z : Z) : byte := z2b (48 + z).
Definition digit_val (b : byte) : option Z :=
  if (48 <=? b2z b) && (b2z b <=? 57) then Some (b2z b - 48) else None.

(** The digits of a natural number, most significant first; [fuel] digits at most. *)
Fixpoint digits (fuel : nat) (z : Z) (acc : bytes) : bytes :=
  match fuel with
  | O => acc
  | S fuel' => let acc := digit (z mod 10) :: acc in
               if z <? 10 then acc else digits fuel' (z / 10) acc
  end.

(** [%d], [%ld] and the like, for numbers of at most 20 digits. *)
Definition print_dec (z : Z) : bytes :=
  if z <? 0 then x2d :: digits 20 (- z) [] else digits 20 z [].

(** [isspace] in the C locale. *)
Definition is_space (b : byte) : bool := bool_decide (b = x20) || ((9 <=? b2z b) && (b2z b <=? 13)).

Fixpoint skip_spaces (s : bytes) : bytes :=
  match s with b :: s' => if is_space b then skip_spaces s' else s | [] => [] end.

(** The value of the longest run of digits and what follows it. *)
Fixpoint read_digits (s : bytes) (acc : Z) : Z * bytes :=
  match s with
  | b :: s' => match digit_val b with Some d => read_digits s' (10 * acc + d) | None => (acc, s) end
  | [] => (acc, [])
  end.

(** [strtoll] in base 10: the exact number, and what follows it; [None] when there are no digits (and
    the end pointer is the start of the text). *)
Definition strto_dec (s : bytes) : option (Z * bytes) :=
  let s := skip_spaces s in
  let '(neg, s) := match s with
                   | b :: s' => if decide (b = x2d) then (true, s') else if decide (b = x2b) then (false, s') else (false, s)
                   | [] => (false, []) end in
  match s with
  | b :: _ => match digit_val b with
              | Some _ => let '(n, rest) := read_digits s 0 in Some (if neg : bool then - n else n, rest)
              | None => None
              end
  | [] => None
  end.

Definition LLONG_MIN : Z := - 2 ^ 63.
Definition LLONG_MAX : Z := 2 ^ 63 - 1.
Definition clamp64 (z : Z) : Z := Z.max LLONG_MIN (Z.min LLONG_MAX z).

(** [atoll] of the C string in a buffer. *)
Definition atoll (s : bytes) : Z :=
  match strto_dec (c_str s) with Some (z, _) => clamp64 z | None => 0 end.

(** [atoi]: [strtol] cut to an [int]. *)
Definition atoi (s : bytes) : Z := i32 (atoll s).

(** ** Printing and reading back *)

Lemma digit_val_digit z : 0 <= z < 10 -> digit_val (digit z) = Some z.
Proof.
  intros Hz. unfold digit_val, digit. rewrite b2z_z2b, Z.mod_small by lia.
  destruct (Z.leb_spec 48 (48 + z)); [|lia]. destruct (Z.leb_spec (48 + z) 57); [|lia]. cbn. f_equal. lia.
Qed.

(** Reading the printed digits: [digits] puts the number in front of [acc]. *)
Lemma read_digits_print fuel z acc rest a :
  0 <= z < 10 ^ Z.of_nat fuel -> (0 < fuel)%nat ->
  exists k, 0 <= k /\
    read_digits (digits fuel z acc ++ rest) a = read_digits (acc ++ rest) (10 ^ k * a + z).
Proof.
  revert z acc rest a. induction fuel as [|fuel IH]; intros z acc rest a Hz Hf; [lia|]. cbn [digits].
  destruct (Z.ltb_spec z 10) as [Hlt|Hge].
  - exists 1. split; [lia|]. rewrite Z.mod_small by lia. cbn [app read_digits].
    rewrite digit_val_digit by lia. f_equal.
  - rewrite Nat2Z.inj_succ, Z.pow_succ_r in Hz by lia.
    destruct fuel as [|fuel]; [cbn in Hz; lia|].
    destruct (IH (z / 10) (digit (z mod 10) :: acc) rest a) as (k & Hk & Hr); [|lia|].
    + split; [apply Z.div_pos; lia|]. apply Z.div_lt_upper_bound; lia.
    + exists (k + 1). rewrite Z.pow_add_r, Z.pow_1_r by lia. split; [lia|].
      rewrite Hr. cbn [app read_digits]. rewrite digit_val_digit by (apply Z.mod_pos_bound; lia). f_equal.
      pose proof (Z.div_mod z 10 ltac:(lia)). replace (10 ^ k * 10 * a) with (10 * (10 ^ k * a)) by ring. lia.
Qed.

Lemma digits_head fuel z acc :
  (0 < fuel)%nat -> 0 <= z -> exists d tl, digits fuel z acc = digit d :: tl /\ 0 <= d < 10.
Proof.
  revert z acc. induction fuel as [|fuel IH]; intros z acc Hf Hz; [lia|]. cbn [digits].
  pose proof (Z.mod_pos_bound z 10 ltac:(lia)). destruct (z <? 10); [by eexists _, _|].
  destruct fuel as [|fuel]; [by eexists _, _|]. apply IH; [lia|]. apply Z.div_pos; lia.
Qed.

Lemma digit_not d : 0 <= d < 10 -> is_space (digit d) = false /\ digit d <> x2d /\ digit d <> x2b /\ digit d <> x00.
Proof.
  intros Hd. assert (Hb : b2z (digit d) = 48 + d) by (unfold digit; rewrite b2z_z2b, Z.mod_small; lia).
  assert (Hc : b2z x2d = 45 /\ b2z x2b = 43 /\ b2z x00 = 0 /\ b2z x20 = 32) by done.
  split; [|repeat split; intros E; rewrite E in Hb; lia].
  unfold is_space. rewrite bool_decide_eq_false_2 by (intros E; rewrite E in Hb; lia).
  rewrite Hb. destruct (Z.leb_spec (48 + d) 13); [lia|]. by rewrite andb_false_r.
Qed.

Lemma strto_print z rest :
  - 10 ^ 20 < z < 10 ^ 20 -> (forall b, head rest = Some b -> digit_val b = None) ->
  strto_dec (print_dec z ++ rest) = Some (z, rest).
Proof.
  intros Hz Hr.
  assert (Hend : forall a, read_digits rest a = (a, rest)).
  { intros a. destruct rest as [|b rest]; [done|]. cbn. by rewrite (Hr b). }
  assert (Hnum : forall n, 0 <= n < 10 ^ 20 -> read_digits (digits 20 n [] ++ rest) 0 = (n, rest)).
  { intros n Hn. destruct (read_digits_print 20 n [] rest 0 Hn ltac:(lia)) as (k & _ & E).
    rewrite E. cbn [app]. rewrite Hend, Z.mul_0_r. done. }
  unfold strto_dec, print_dec. destruct (Z.ltb_spec z 0) as [Hneg|Hpos].
  - destruct (digits_head 20 (- z) [] ltac:(lia) ltac:(lia)) as (d & tl & Ed & Hd).
    cbn [app skip_spaces]. change (is_space x2d) with false. cbv beta iota. rewrite decide_True by done.
    specialize (Hnum (- z) ltac:(lia)). rewrite Ed in *. cbn [app] in *. rewrite digit_val_digit by done.
    rewrite Hnum. by rewrite Z.opp_involutive.
  - destruct (digits_head 20 z [] ltac:(lia) Hpos) as (d & tl & Ed & Hd).
    specialize (Hnum z ltac:(lia)). rewrite Ed in *. cbn [app] in *. destruct (digit_not d Hd) as (Hs & H1 & H2 & _).
    cbn [skip_spaces]. rewrite Hs. cbv beta iota. rewrite !decide_False by done. rewrite digit_val_digit by done. by rewrite Hnum.
Qed.

Lemma digits_avoid b fuel z acc : (forall d, 0 <= d < 10 -> digit d <> b) -> 0 <= z -> (b ∉ acc) -> b ∉ digits fuel z acc.
Proof.
  intros Hb. revert z acc. induction fuel as [|fuel IH]; intros z acc Hz Ha; [done|]. cbn [digits].
  pose proof (Hb (z mod 10) (Z.mod_pos_bound z 10 ltac:(lia))) as Hn.
  assert (b ∉ digit (z mod 10) :: acc) by (rewrite not_elem_of_cons; split; [congruence|done]).
  destruct (z <? 10); [done|]. apply IH; [apply Z.div_pos; lia|done].
Qed.

Lemma print_avoid b z : (forall d, 0 <= d < 10 -> digit d <> b) -> b <> x2d -> b ∉ print_dec z.
Proof.
  intros Hb Hm. unfold print_dec.
  destruct (Z.ltb_spec z 0); [rewrite not_elem_of_cons; split; [done|]|]; apply digits_avoid; (done || lia || apply not_elem_of_nil).
Qed.

Lemma print_no_nul z : x00 ∉ print_dec z.
Proof. apply print_avoid; [|done]. intros d Hd. apply (digit_not d Hd). Qed.

Lemma print_no_slash z : x2f ∉ print_dec z.
Proof.
  apply print_avoid; [|done]. intros d Hd E. apply (f_equal b2z) in E. unfold digit in E. rewrite b2z_z2b, Z.mod_small in E by lia.
  change (b2z x2f) with 47 in E. lia.
Qed.

Lemma length_digits fuel z acc : (length (digits fuel z acc) <= fuel + length acc)%nat.
Proof.
  revert z acc. induction fuel as [|fuel IH]; intros z acc; [done|]. cbn [digits].
  destruct (z <? 10); [simpl; lia|]. specialize (IH (z / 10) (digit (z mod 10) :: acc)). simpl in IH. lia.
Qed.

Lemma c_str_app s rest : (x00 ∉ s) -> c_str (s ++ x00 :: rest) = s.
Proof.
  induction s as [|b s IH]; intros Hn; [done|]. rewrite not_elem_of_cons in Hn. destruct Hn as [Hb Hn].
  cbn. rewrite decide_False by congruence. by rewrite IH.
Qed.

(** Reading back a printed 64-bit number. *)
Lemma atoll_print z rest : LLONG_MIN <= z <= LLONG_MAX -> atoll (print_dec z ++ x00 :: rest) = z.
Proof.
  unfold LLONG_MIN, LLONG_MAX. intros Hz. unfold atoll. rewrite c_str_app by apply print_no_nul.
  pose proof (strto_print z [] ltac:(lia) ltac:(done)) as E. rewrite app_nil_r in E. rewrite E.
  unfold clamp64, LLONG_MIN, LLONG_MAX. lia.
Qed.

(** ** Searching backwards *)

(** [rfind] and [find_last_of] of one character: the position of its last occurrence. *)
Fixpoint rfind (c : byte) (s : bytes) : option nat :=
  match s with
  | [] => None
  | b :: s' => match rfind c s' with
               | Some i => Some (S i)
               | None => if decide (b = c) then Some 0%nat else None
               end
  end.

Lemma rfind_spec c s :
  match rfind c s with
  | Some i => exists a b, s = a ++ c :: b /\ (c ∉ b) /\ i = length a
  | None => c ∉ s
  end.
Proof.
  induction s as [|b s IH]; cbn [rfind]; [set_solver|]. destruct (rfind c s) as [i|].
  - destruct IH as (a & r & -> & Hr & ->). by exists (b :: a), r.
  - destruct (decide (b = c)) as [->|]; [by exists [], s|set_solver].
Qed.

Lemma rfind_app c a b : c ∉ b -> rfind c (a ++ c :: b) = Some (length a).
Proof.
  intros Hb. induction a as [|x a IH]; cbn [rfind app length]; [|by rewrite IH].
  pose proof (rfind_spec c b) as Hs. destruct (rfind c b) as [i|]; [|by rewrite decide_True].
  destruct Hs as (a & r & -> & _). set_solver.
Qed.

(** ** Trimming a character off both ends, with pointers

    The loops of [get_node_path] and [strtrim]: [start] and [end] point to the first and the last
    character. *)

(** The character a pointer into [path] sees: the terminating NUL one past the end. *)
Definition char_at (path : bytes) (i : Z) : option byte :=
  if i =? blen path then Some x00 else if i <? 0 then None else path !! Z.to_nat i.

Fixpoint skip_front (delim : byte) (fuel : nat) (path : bytes) (start_pos end_pos : Z) : option Z :=
  match fuel with
  | O => None
  | S fuel' =>
      match char_at path start_pos with
      | None => None
      | Some c => if bool_decide (c = delim) && (start_pos <=? end_pos)
                  then skip_front delim fuel' path (start_pos + 1) end_pos else Some start_pos
      end
  end.

Fixpoint skip_back (delim : byte) (fuel : nat) (path : bytes) (start_pos end_pos : Z) : option Z :=
  match fuel with
  | O => None
  | S fuel' =>
      match char_at path end_pos with
      | None => None
      | Some c => if bool_decide (c = delim) && (start_pos <=? end_pos)
                  then skip_back delim fuel' path start_pos (end_pos - 1) else Some end_pos
      end
  end.

(** [n] times the character, and a text that neither starts nor ends with it. *)
Definition run (delim : byte) (n : nat) : bytes := replicate n delim.
Definition core (delim : byte) (s : bytes) : Prop := s <> [] /\ head s <> Some delim /\ last s <> Some delim.

Lemma char_at_app (a b : bytes) : char_at (a ++ b) (blen a) = Some (default x00 (head b)).
Proof.
  unfold char_at. rewrite blen_app. pose proof (blen_nonneg a). destruct b as [|c b].
  - rewrite blen_nil, Z.add_0_r, Z.eqb_refl. done.
  - rewrite blen_cons. pose proof (blen_nonneg b). destruct (Z.eqb_spec (blen a) (blen a + (1 + blen b))); [lia|].
    destruct (Z.ltb_spec (blen a) 0); [lia|]. unfold blen. rewrite Nat2Z.id, lookup_app_r by lia. by rewrite Nat.sub_diag.
Qed.

Lemma blen_run delim n : blen (run delim n) = Z.of_nat n.
Proof. unfold blen, run. by rewrite length_replicate. Qed.

Lemma run_snoc delim n : run delim n ++ [delim] = run delim (S n).
Proof. unfold run. by rewrite replicate_S_end. Qed.

Lemma skip_front_ok delim fuel i k rest e :
  delim <> x00 -> head rest <> Some delim -> (k < fuel)%nat -> (k <> 0%nat -> Z.of_nat (i + k) - 1 <= e) ->
  skip_front delim fuel (run delim (i + k) ++ rest) (Z.of_nat i) e = Some (Z.of_nat (i + k)).
Proof.
  intros Hd Hh. revert i fuel. induction k as [|k IH]; intros i fuel Hf He; (destruct fuel as [|fuel]; [lia|]); cbn [skip_front].
  - rewrite Nat.add_0_r. rewrite <- (blen_run delim i), char_at_app. rewrite bool_decide_eq_false_2; [done|].
    destruct rest as [|c rest]; cbn in *; [congruence|congruence].
  - replace (run delim (i + S k)) with (run delim i ++ run delim (S k)) by (unfold run; by rewrite replicate_add).
    rewrite <- app_assoc. rewrite <- (blen_run delim i) at 1. rewrite char_at_app. cbn [run replicate app head default].
    rewrite bool_decide_eq_true_2 by done. destruct (Z.leb_spec (Z.of_nat i) e); [|lia]. cbn [andb].
    specialize (IH (S i) fuel). replace (S i + k)%nat with (i + S k)%nat in IH by lia.
    replace (Z.of_nat i + 1) with (Z.of_nat (S i)) by lia.
    replace (run delim i ++ delim :: replicate k delim ++ rest) with (run delim (i + S k) ++ rest).
    + apply IH; [lia|]. intros. lia.
    + unfold run. rewrite replicate_add, <- app_assoc. done.
Qed.

Lemma skip_back_ok delim fuel (pre : bytes) k rest s :
  pre <> [] -> last pre <> Some delim -> (k < fuel)%nat -> 0 <= s < blen pre ->
  skip_back delim fuel (pre ++ run delim k ++ rest) s (blen pre + Z.of_nat k - 1) = Some (blen pre - 1).
Proof.
  intros Hn Hl. revert rest fuel. induction k as [|k IH]; intros rest fuel Hf Hs; (destruct fuel as [|fuel]; [lia|]); cbn [skip_back].
  - destruct (exists_last Hn) as (p & c & ->). rewrite last_snoc in Hl. rewrite blen_app, blen_cons, blen_nil.
    replace (blen p + (1 + 0) + Z.of_nat 0 - 1) with (blen p) by lia. cbn [run replicate app].
    rewrite <- app_assoc, char_at_app. cbn. rewrite bool_decide_eq_false_2 by congruence. f_equal. lia.
  - rewrite <- run_snoc, <- !app_assoc. rewrite (app_assoc pre).
    replace (blen pre + Z.of_nat (S k) - 1) with (blen (pre ++ run delim k)) by (rewrite blen_app, blen_run; lia).
    rewrite char_at_app. cbn [app head default]. rewrite bool_decide_eq_true_2 by done.
    rewrite blen_app, blen_run. destruct (Z.leb_spec s (blen pre + Z.of_nat k)); [|lia]. cbn [andb].
    rewrite <- app_assoc. apply IH; lia.
Qed.

Lemma run_forms delim (s : bytes) :
  (exists n, s = run delim n) \/ exists m c n, core delim c /\ s = run delim m ++ c ++ run delim n.
Proof.
  induction s as [|b s IH]; [left; by exists 0%nat|]. destruct (decide (b = delim)) as [->|Hc].
  - destruct IH as [(n & ->)|(m & c & n & Hcore & ->)]; [left; by exists (S n)|right; by exists (S m), c, n].
  - right. exists 0%nat. destruct IH as [(n & ->)|(m & c & n & (Hn & _ & Hl) & ->)].
    + exists [b], n. split; [|done]. repeat split; cbn; congruence.
    + exists (b :: run delim m ++ c), n. split; [|cbn [run replicate app]; by rewrite <- app_assoc].
      repeat split; [done|cbn; congruence|]. rewrite app_comm_cons, last_app. by destruct (last c) eqn:E; [|apply last_None in E].
Qed.
