(* ===== verification/HashArrText.v ===== *)
(** * The string and integer front ends of the table ([qhasharr_putstr], [putint], [getstr], [getint])

    Keys and values are C strings stored with their NUL. *)

From S2P Require Import Prelude Common Text HashArr HashArrSeg HashArrInv HashArrOps HashArrPut HashArrSpec HashArrMap HashArrThm.
Import HashArr.

Section FrontEnds.
Context `{KeyDigest}.

(** [key] and [str] are the strings before their NUL. *)
Definition qhasharr_putstr (key str : option bytes) : SM hstate bool :=
  null ← tbl_null;
  match null, key with
  | false, Some key => qhasharr_put (Some (key ++ [x00])) ((fun s => s ++ [x00]) <$> str)
  | _, _ => fail_with EINVAL false
  end.

(** [char str[20+1]] with [snprintf]: at most 20 characters are kept. *)
Definition qhasharr_putint (key : option bytes) (num : Z) : SM hstate bool :=
  null ← tbl_null;
  match null, key with
  | false, Some key => qhasharr_putstr (Some key) (Some (take 20 (print_dec num)))
  | _, _ => fail_with EINVAL false
  end.

Definition qhasharr_getstr (malloc_ok : Z -> bool) (key : option bytes) : SM hstate (option bytes) :=
  qhasharr_get malloc_ok key.

Definition qhasharr_getint (malloc_ok : Z -> bool) (key : option bytes) : SM hstate Z :=
  str ← qhasharr_getstr malloc_ok key;
  mret (match str with Some s => atoll s | None => 0 end).

(** The address of the first slot, as an offset from the table; NULL arguments are refused. *)
Definition qhasharr_init (tbl_slots_null : bool) : SM hstate (Z * option Z) :=
  null ← tbl_null;
  if (null : bool) || tbl_slots_null then mret (-1, None) else mret (0, Some SIZEOF_TBL).

Lemma print_fits z : LLONG_MIN <= z <= LLONG_MAX -> take 20 (print_dec z) = print_dec z.
Proof.
  unfold LLONG_MIN, LLONG_MAX. intros Hz. apply take_ge.
  unfold print_dec. destruct (Z.ltb_spec z 0); [|apply (length_digits 20 z [])].
  assert (Hs : digits 20 (- z) [] = digits 19 (- z) []).
  { assert (Hf : forall f n acc, 0 <= n < 10 ^ Z.of_nat (S f) -> digits (S (S f)) n acc = digits (S f) n acc).
    { clear. induction f as [|f IH]; intros n acc Hn.
      - cbn [digits]. change (10 ^ Z.of_nat 1) with 10 in Hn. by destruct (Z.ltb_spec n 10); [|lia].
      - change (digits (S (S (S f))) n acc) with (if n <? 10 then digit (n mod 10) :: acc else digits (S (S f)) (n / 10) (digit (n mod 10) :: acc)).
        change (digits (S (S f)) n acc) with (if n <? 10 then digit (n mod 10) :: acc else digits (S f) (n / 10) (digit (n mod 10) :: acc)).
        destruct (Z.ltb_spec n 10); [done|]. apply IH. rewrite Nat2Z.inj_succ, Z.pow_succ_r in Hn by lia.
        split; [apply Z.div_pos; lia|apply Z.div_lt_upper_bound; lia]. }
    apply (Hf 18%nat). split; [lia|]. change (10 ^ Z.of_nat 19) with 10000000000000000000. lia. }
  rewrite Hs. apply le_n_S, (length_digits 19 (- z) []).
Qed.

(** An integer put under a key is read back: [qhasharr_putint] never truncates a 64-bit number, and
    after it succeeded [qhasharr_getint] of the key with its NUL returns the number. *)
Theorem putint_getint_roundtrip e t m key num t' e' :
  tbl_ok t m -> blen key < 65535 -> LLONG_MIN <= num <= LLONG_MAX ->
  bucket_load m (bucket_of (key ++ [x00]) (maxslots t)) < 2 ^ 15 - 1 ->
  qhasharr_putint (Some key) num (HS e (Some t)) = Some (true, HS e' (Some t')) ->
  qhasharr_getint (fun _ => true) (Some (key ++ [x00])) (HS e' (Some t')) = Some (num, HS e' (Some t')).
Proof.
  intros Hok Hk Hn Hload Hput. destruct t as [M u n l]. unfold qhasharr_putint, qhasharr_putstr in Hput.
  do 2 (rewrite (SM_bind_Some tbl_null _ _ false (HS e (Some (Tbl M u n l)))) in Hput by done).
  rewrite print_fits in Hput by done.
  cbn [fmap option_fmap option_map] in Hput. set (v := print_dec num ++ [x00]) in Hput.
  destruct (put_tbl e M u n l m (key ++ [x00]) v Hok) as (r & u' & n' & l' & Hrun & _ & _ & Hok').
  { rewrite blen_app, blen_cons, blen_nil. lia. }
  { pose proof (blen_app (print_dec num) [x00]) as E. fold v in E. rewrite E. change (blen [x00]) with 1.
    pose proof (blen_nonneg (print_dec num)). lia. }
  { done. }
  rewrite Hrun in Hput. injection Hput as -> <- <-. unfold qhasharr_getint, qhasharr_getstr.
  erewrite SM_bind_Some; [|rewrite (get_tbl _ e M u' n' l' _ _ Hok'), lookup_insert_eq; reflexivity].
  unfold v, mret, SM_ret. cbv beta iota. by rewrite atoll_print.
Qed.
End FrontEnds.

Lemma putint_getint_roundtrip_witness :
  let t := Tbl 8 0 0 (replicate 8 zero_slot) in
  exists t', qhasharr_putint (Some (str "n")) (-42) (HS 0 (Some t)) = Some (true, HS 0 (Some t')) /\
    qhasharr_getint (fun _ => true) (Some (str "n" ++ [x00])) (HS 0 (Some t')) = Some (-42, HS 0 (Some t')).
Proof.
  eexists. split; [vm_compute; reflexivity|].
  apply (putint_getint_roundtrip 0 (Tbl 8 0 0 (replicate 8 zero_slot)) ∅ (str "n") (-42)).
  - apply (empty_tbl_ok 8). lia.
  - reflexivity.
  - unfold LLONG_MIN, LLONG_MAX. lia.
  - eapply Z.le_lt_trans; [apply bucket_load_size|]. rewrite map_size_empty. reflexivity.
  - vm_compute. reflexivity.
Defined.
