(* ===== verification/Format.v ===== *)
(** * Table keys and values as byte strings ([src/base/qconf_format.cc], [qconf_format.h])

    The agent writes keys and values of the shared table in this format and every driver reads them
    back. Integers are little-endian, lengths are truncated to the width of their field. A function
    with reference parameters takes their old contents and returns the new ones with the return code,
    so what a failing call leaves in them is visible. *)

From S2P Require Import Prelude Common.

Module Format.

(** The widths of the length fields. *)
Definition QCONF_VECTOR_COUNT_LEN : nat := 2.
Definition QCONF_IDC_SIZE_LEN : nat := 1.
Definition QCONF_HOST_PATH_SIZE_LEN : nat := 2.
Definition QCONF_VALUE_SIZE_LEN : nat := 4.

Definition qconf_encode_num (w : nat) (num : Z) : bytes := le_bytes w num.
Definition qconf_decode_num (w : nat) (s : bytes) (pos : Z) : Z := le_num (sub_bytes (Z.to_nat pos) w s).

(** [struct String_vector]: [count] pointers, NULL where nothing was stored. *)
Record string_vector_t := SV { sv_count : Z; sv_data : list (option bytes) }.

Definition qconf_string_append (w : nat) (dst src : bytes) : bytes :=
  dst ++ qconf_encode_num w (blen src) ++ src.

(** The return code, the new position and the new contents of the output string. *)
Definition qconf_string_sub (w : nat) (s : bytes) (pos : Z) (sub : bytes) : Z * Z * bytes :=
  if pos + Z.of_nat w <=? blen s then
    let size := qconf_decode_num w s pos in
    let pos := pos + Z.of_nat w in
    if pos + size <=? blen s
    then (QCONF_OK, pos + size, sub_bytes (Z.to_nat pos) (Z.to_nat size) s)
    else (QCONF_ERR_DATA_FORMAT, pos, sub)
  else (QCONF_ERR_DATA_FORMAT, pos, sub).

Definition qconf_append_idc := qconf_string_append QCONF_IDC_SIZE_LEN.
Definition qconf_append_path := qconf_string_append QCONF_HOST_PATH_SIZE_LEN.
Definition qconf_append_host := qconf_string_append QCONF_HOST_PATH_SIZE_LEN.
Definition qconf_append_nodeval := qconf_string_append QCONF_VALUE_SIZE_LEN.

Definition qconf_sub_idc := qconf_string_sub QCONF_IDC_SIZE_LEN.
Definition qconf_sub_host := qconf_string_sub QCONF_HOST_PATH_SIZE_LEN.
Definition qconf_sub_path := qconf_string_sub QCONF_HOST_PATH_SIZE_LEN.
Definition qconf_sub_nodeval := qconf_string_sub QCONF_VALUE_SIZE_LEN.

(** ** Keys *)

Definition has_path (data_type : byte) : bool :=
  bool_decide (data_type = QCONF_DATA_TYPE_NODE \/ data_type = QCONF_DATA_TYPE_SERVICE \/
               data_type = QCONF_DATA_TYPE_BATCH_NODE).

Definition serialize_to_tblkey (data_type : byte) (idc path : bytes) : Z * bytes :=
  let tblkey := [data_type] in
  if has_path data_type then (QCONF_OK, qconf_append_path (qconf_append_idc tblkey idc) path)
  else if decide (data_type = QCONF_DATA_TYPE_ZK_HOST) then (QCONF_OK, qconf_append_idc tblkey idc)
  else if decide (data_type = QCONF_DATA_TYPE_LOCAL_IDC) then (QCONF_OK, tblkey)
  else (QCONF_ERR_DATA_TYPE, tblkey).

Definition deserialize_from_tblkey (tblkey : bytes) (data_type : byte) (idc path : bytes)
    : Z * (byte * bytes * bytes) :=
  match tblkey with
  | [] => (QCONF_ERR_DATA_FORMAT, (data_type, idc, path))
  | data_type :: _ =>
      if has_path data_type then
        let '(ret, pos, idc) := qconf_sub_idc tblkey 1 idc in
        if ret =? QCONF_OK then
          let '(ret, pos, path) := qconf_sub_path tblkey pos path in
          if ret =? QCONF_OK then (QCONF_OK, (data_type, idc, path))
          else (QCONF_ERR_DATA_FORMAT, (data_type, idc, path))
        else (QCONF_ERR_DATA_FORMAT, (data_type, idc, path))
      else if decide (data_type = QCONF_DATA_TYPE_ZK_HOST) then
        let '(ret, pos, idc) := qconf_sub_idc tblkey 1 idc in
        if ret =? QCONF_OK then (QCONF_OK, (data_type, idc, path))
        else (QCONF_ERR_DATA_FORMAT, (data_type, idc, path))
      else if decide (data_type = QCONF_DATA_TYPE_LOCAL_IDC) then (QCONF_OK, (data_type, idc, path))
      else (QCONF_ERR_DATA_TYPE, (data_type, idc, path))
  end.

(** ** Values: a payload followed by the key they belong to *)

Definition localidc_to_tblval (key local_idc : bytes) : bytes := qconf_append_idc [] local_idc ++ key.
Definition nodeval_to_tblval (key nodeval : bytes) : bytes := qconf_append_nodeval [] nodeval ++ key.
Definition idcval_to_tblval (key host : bytes) : bytes := qconf_append_host [] host ++ key.

(** One element of a vector: [strlen] truncated to 16 bits, and so many bytes. *)
Definition append_node (tblval node : bytes) : bytes :=
  let size := u16 (strlen node) in
  tblval ++ qconf_encode_num QCONF_HOST_PATH_SIZE_LEN size ++ take (Z.to_nat size) node.

(** The two loops over [nodes] and [valid_flg]; [None] is an index outside the vectors, or a NULL
    element. *)
Fixpoint count_up (n : nat) (i : nat) (valid_flg : list Z) (valid_cnt : Z) : option Z :=
  match n with
  | O => Some valid_cnt
  | S n' =>
      match valid_flg !! i with
      | None => None
      | Some f => count_up n' (S i) valid_flg (if f =? STATUS_UP then u16 (valid_cnt + 1) else valid_cnt)
      end
  end.

Fixpoint append_up (n : nat) (i : nat) (data : list (option bytes)) (valid_flg : list Z) (tblval : bytes)
    : option bytes :=
  match n with
  | O => Some tblval
  | S n' =>
      match valid_flg !! i with
      | None => None
      | Some f =>
          if f =? STATUS_UP then
            match data !! i with
            | Some (Some node) => append_up n' (S i) data valid_flg (append_node tblval node)
            | _ => None
            end
          else append_up n' (S i) data valid_flg tblval
      end
  end.

Definition chdnodeval_to_tblval (key : bytes) (nodes : string_vector_t) (valid_flg : list Z) : option bytes :=
  let n := Z.to_nat (sv_count nodes) in
  match count_up n 0 valid_flg 0 with
  | None => None
  | Some valid_cnt =>
      match append_up n 0 (sv_data nodes) valid_flg (qconf_encode_num QCONF_VECTOR_COUNT_LEN valid_cnt) with
      | None => None
      | Some tblval => Some (tblval ++ key)
      end
  end.

Fixpoint append_all (n : nat) (i : nat) (data : list (option bytes)) (tblval : bytes) : option bytes :=
  match n with
  | O => Some tblval
  | S n' =>
      match data !! i with
      | Some (Some node) => append_all n' (S i) data (append_node tblval node)
      | _ => None
      end
  end.

Definition batchnodeval_to_tblval (key : bytes) (nodes : string_vector_t) : option bytes :=
  let size := u16 (sv_count nodes) in
  match append_all (Z.to_nat (sv_count nodes)) 0 (sv_data nodes) (qconf_encode_num QCONF_VECTOR_COUNT_LEN size) with
  | None => None
  | Some tblval => Some (tblval ++ key)
  end.

Definition get_data_type (value : bytes) : byte :=
  match value with [] => QCONF_DATA_TYPE_UNKNOWN | b :: _ => b end.

(** The data type byte that follows the payload. *)
Definition type_at (tblval : bytes) (pos : Z) (data_type : byte) : bool :=
  (pos + 1 <=? blen tblval) && bool_decide (tblval !! Z.to_nat pos = Some data_type).

Definition tblval_to_localidc (tblval idc : bytes) : Z * bytes :=
  let '(ret, pos, idc) := qconf_sub_idc tblval 0 idc in
  if negb (ret =? QCONF_OK) then (QCONF_ERR_DATA_FORMAT, idc)
  else if type_at tblval pos QCONF_DATA_TYPE_LOCAL_IDC then (QCONF_OK, idc)
  else (QCONF_ERR_DATA_FORMAT, idc).

Definition tblval_to_host (tblval host : bytes) : Z * bytes :=
  let '(ret, pos, host) := qconf_sub_host tblval 0 host in
  if negb (ret =? QCONF_OK) then (QCONF_ERR_DATA_FORMAT, host)
  else if type_at tblval pos QCONF_DATA_TYPE_ZK_HOST then (QCONF_OK, host)
  else (QCONF_ERR_DATA_FORMAT, host).

Definition tblval_to_idcval (tblval host idc : bytes) : Z * (bytes * bytes) :=
  let '(ret, pos, host) := qconf_sub_host tblval 0 host in
  if negb (ret =? QCONF_OK) then (QCONF_ERR_DATA_FORMAT, (host, idc))
  else if negb (type_at tblval pos QCONF_DATA_TYPE_ZK_HOST) then (QCONF_ERR_DATA_FORMAT, (host, idc))
  else
    let '(ret, pos, idc) := qconf_sub_idc tblval (pos + 1) idc in
    if negb (ret =? QCONF_OK) then (QCONF_ERR_DATA_FORMAT, (host, idc)) else (QCONF_OK, (host, idc)).

Definition tblval_to_nodeval (tblval nodeval : bytes) : Z * bytes :=
  let '(ret, pos, nodeval) := qconf_sub_nodeval tblval 0 nodeval in
  if negb (ret =? QCONF_OK) then (ret, nodeval)
  else if type_at tblval pos QCONF_DATA_TYPE_NODE then (QCONF_OK, nodeval)
  else (QCONF_ERR_DATA_FORMAT, nodeval).

(** The key part that ends a value: the identifiers of the data centre and the path. *)
Definition sub_idc_path (tblval : bytes) (pos : Z) (idc path : bytes) : Z * (bytes * bytes) :=
  let '(ret, pos, idc) := qconf_sub_idc tblval pos idc in
  if negb (ret =? QCONF_OK) then (QCONF_ERR_DATA_FORMAT, (idc, path))
  else
    let '(ret, pos, path) := qconf_sub_path tblval pos path in
    if negb (ret =? QCONF_OK) then (QCONF_ERR_DATA_FORMAT, (idc, path)) else (QCONF_OK, (idc, path)).

Definition tblval_to_nodeval_key (tblval nodeval idc path : bytes) : Z * (bytes * bytes * bytes) :=
  let '(ret, pos, nodeval) := qconf_sub_nodeval tblval 0 nodeval in
  if negb (ret =? QCONF_OK) then (ret, (nodeval, idc, path))
  else if negb (type_at tblval pos QCONF_DATA_TYPE_NODE) then (QCONF_ERR_DATA_FORMAT, (nodeval, idc, path))
  else
    let '(ret, (idc, path)) := sub_idc_path tblval (pos + 1) idc path in (ret, (nodeval, idc, path)).

(** [free_string_vector]: NULL data and no elements. *)
Definition free_string_vector : string_vector_t := SV 0 [].

(** The loop of [qconf_sub_vectorval]; [calloc_ok n] says whether an allocation of [n] bytes succeeds. *)
Fixpoint sub_nodes (calloc_ok : Z -> bool) (n : nat) (i : nat) (tblval : bytes) (pos : Z)
    (nodes : string_vector_t) : Z * Z * string_vector_t :=
  match n with
  | O => (QCONF_OK, pos, nodes)
  | S n' =>
      if blen tblval <? pos + Z.of_nat QCONF_HOST_PATH_SIZE_LEN then (QCONF_ERR_DATA_FORMAT, pos, nodes) else
      let size := qconf_decode_num QCONF_HOST_PATH_SIZE_LEN tblval pos in
      let pos := pos + Z.of_nat QCONF_HOST_PATH_SIZE_LEN in
      if blen tblval <? pos + size then (QCONF_ERR_DATA_FORMAT, pos, nodes) else
      if negb (calloc_ok (size + 1)) then (QCONF_ERR_MEM, pos, free_string_vector) else
      let nodes := SV (sv_count nodes)
                      (<[i := Some (sub_bytes (Z.to_nat pos) (Z.to_nat size) tblval)]> (sv_data nodes)) in
      sub_nodes calloc_ok n' (S i) tblval (pos + size) nodes
  end.

Definition qconf_sub_vectorval (calloc_ok : Z -> bool) (tblval : bytes) (pos : Z) (nodes : string_vector_t)
    : Z * Z * string_vector_t :=
  if blen tblval <? pos + Z.of_nat QCONF_VECTOR_COUNT_LEN then (QCONF_ERR_DATA_FORMAT, pos, nodes) else
  let count := qconf_decode_num QCONF_VECTOR_COUNT_LEN tblval pos in
  let pos := pos + Z.of_nat QCONF_VECTOR_COUNT_LEN in
  if count =? 0 then (QCONF_OK, pos, SV 0 []) else
  if negb (calloc_ok (8 * count)) then (QCONF_ERR_MEM, pos, SV count []) else
  sub_nodes calloc_ok (Z.to_nat count) 0 tblval pos (SV count (replicate (Z.to_nat count) None)).

Definition tblval_to_vector (calloc_ok : Z -> bool) (data_type : byte) (tblval : bytes) (nodes : string_vector_t)
    : Z * string_vector_t :=
  let '(ret, pos, nodes) := qconf_sub_vectorval calloc_ok tblval 0 nodes in
  if negb (ret =? QCONF_OK) then (ret, nodes)
  else if type_at tblval pos data_type then (QCONF_OK, nodes)
  else (QCONF_ERR_DATA_FORMAT, nodes).

Definition tblval_to_chdnodeval (calloc_ok : Z -> bool) := tblval_to_vector calloc_ok QCONF_DATA_TYPE_SERVICE.
Definition tblval_to_batchnodeval (calloc_ok : Z -> bool) := tblval_to_vector calloc_ok QCONF_DATA_TYPE_BATCH_NODE.

Definition tblval_to_vectorval (calloc_ok : Z -> bool) (data_type : byte) (tblval : bytes)
    (nodes : string_vector_t) (idc path : bytes) : Z * (string_vector_t * bytes * bytes) :=
  let '(ret, pos, nodes) := qconf_sub_vectorval calloc_ok tblval 0 nodes in
  if negb (ret =? QCONF_OK) then (ret, (nodes, idc, path))
  else if negb (type_at tblval pos data_type) then (QCONF_ERR_DATA_FORMAT, (nodes, idc, path))
  else let '(ret, (idc, path)) := sub_idc_path tblval (pos + 1) idc path in (ret, (nodes, idc, path)).

Definition serialize_to_idc_host (idc host : bytes) : bytes := qconf_append_host (qconf_append_idc [] idc) host.

Definition deserialize_from_idc_host (idc_host idc host : bytes) : Z * (bytes * bytes) :=
  let '(ret, pos, idc) := qconf_sub_idc idc_host 0 idc in
  if negb (ret =? QCONF_OK) then (QCONF_ERR_DATA_FORMAT, (idc, host))
  else
    let '(ret, pos, host) := qconf_sub_host idc_host pos host in
    if negb (ret =? QCONF_OK) then (QCONF_ERR_DATA_FORMAT, (idc, host)) else (QCONF_OK, (idc, host)).

(** ** Gray nodes *)

(** A copy into a fixed buffer; [None] when it runs past its end. *)
Definition buf_write (buf src : bytes) : option bytes :=
  if (length src <=? length buf)%nat then Some (mem_write 0 src buf) else None.

(** The set is given in its iteration order. *)
Fixpoint append_gray (nodes : list bytes) (buf tblval : bytes) : option bytes :=
  match nodes with
  | [] => Some tblval
  | it :: nodes' =>
      match buf_write buf (qconf_encode_num QCONF_VALUE_SIZE_LEN (blen it)) with
      | None => None
      | Some buf => append_gray nodes' buf (tblval ++ take QCONF_VALUE_SIZE_LEN buf ++ it)
      end
  end.

Definition graynodeval_to_tblval (nodes : list bytes) : option bytes :=
  let buf := replicate QCONF_VECTOR_COUNT_LEN x00 in
  match buf_write buf (qconf_encode_num QCONF_VECTOR_COUNT_LEN (u16 (blen nodes))) with
  | None => None
  | Some buf => append_gray nodes buf (take QCONF_VECTOR_COUNT_LEN buf)
  end.

Fixpoint sub_gray (n : nat) (tblval : bytes) (pos : Z) (nodes : gset bytes) : Z * gset bytes :=
  match n with
  | O => (QCONF_OK, nodes)
  | S n' =>
      if blen tblval <? pos + Z.of_nat QCONF_VALUE_SIZE_LEN then (QCONF_ERR_OTHER, nodes) else
      let len := qconf_decode_num QCONF_VALUE_SIZE_LEN tblval pos in
      let pos := pos + Z.of_nat QCONF_VALUE_SIZE_LEN in
      if blen tblval <? pos + len then (QCONF_ERR_OTHER, nodes) else
      sub_gray n' tblval (pos + len) ({[ sub_bytes (Z.to_nat pos) (Z.to_nat len) tblval ]} ∪ nodes)
  end.

Definition tblval_to_graynodeval (tblval : bytes) : Z * gset bytes :=
  if blen tblval <? Z.of_nat QCONF_VECTOR_COUNT_LEN then (QCONF_ERR_OTHER, ∅) else
  let size := qconf_decode_num QCONF_VECTOR_COUNT_LEN tblval 0 in
  if size =? 0 then (QCONF_OK, ∅)
  else sub_gray (Z.to_nat size) tblval (Z.of_nat QCONF_VECTOR_COUNT_LEN) ∅.

End Format.
