(* ===== verification/FormatThm.v ===== *)
(** * The table format is unambiguous

    What the writers of [qconf_format.cc] produce, its readers take apart into the same parts, and
    what a reader accepts is exactly a prefix some writer produces. *)

From S2P Require Import Prelude Common Format.
Import Format.

(** ** One length-prefixed field *)

Definition field (w : nat) (v : bytes) : bytes := le_bytes w (blen v) ++ v.

Lemma blen_field w v : blen (field w v) = Z.of_nat w + blen v.
Proof. unfold field. rewrite blen_app. unfold blen at 1. rewrite length_le_bytes. done. Qed.

Lemma append_field w dst src : qconf_string_append w dst src = dst ++ field w src.
Proof. done. Qed.

Lemma drop_blen {A} (l k : list A) : drop (Z.to_nat (blen l)) (l ++ k) = k.
Proof. unfold blen. rewrite Nat2Z.id. apply drop_app_length. Qed.

Lemma sub_bytes_at (pre v post : bytes) : sub_bytes (Z.to_nat (blen pre)) (length v) (pre ++ v ++ post) = v.
Proof. unfold sub_bytes. rewrite drop_blen. apply take_app_length. Qed.

Lemma decode_num_at w z pre post :
  0 <= z < 256 ^ Z.of_nat w -> qconf_decode_num w (pre ++ le_bytes w z ++ post) (blen pre) = z.
Proof.
  intros Hz. unfold qconf_decode_num. rewrite <- (length_le_bytes w z) at 1.
  rewrite sub_bytes_at. by apply le_num_bytes_small.
Qed.

(** A reader placed on a field takes it off. *)
Lemma sub_field w pre v post old :
  blen v < 256 ^ Z.of_nat w ->
  qconf_string_sub w (pre ++ field w v ++ post) (blen pre) old = (QCONF_OK, blen pre + blen (field w v), v).
Proof.
  intros Hv. unfold qconf_string_sub. rewrite !blen_app, blen_field.
  pose proof (blen_nonneg v). pose proof (blen_nonneg post).
  destruct (Z.leb_spec (blen pre + Z.of_nat w) (blen pre + (Z.of_nat w + blen v + blen post))); [|lia].
  unfold field. rewrite <- app_assoc, decode_num_at by lia.
  destruct (Z.leb_spec (blen pre + Z.of_nat w + blen v) (blen pre + (Z.of_nat w + blen v + blen post))); [|lia].
  f_equal; [f_equal; lia|]. rewrite app_assoc.
  replace (blen pre + Z.of_nat w) with (blen (pre ++ le_bytes w (blen v))).
  - replace (Z.to_nat (blen v)) with (length v) by (unfold blen; lia). apply sub_bytes_at.
  - rewrite blen_app. unfold blen. rewrite length_le_bytes. done.
Qed.

(** A successful read stood on a field. *)
Lemma sub_field_inv w s pos old pos' v :
  0 <= pos -> qconf_string_sub w s pos old = (QCONF_OK, pos', v) ->
  exists pre post, s = pre ++ field w v ++ post /\ blen pre = pos /\ pos' = pos + blen (field w v) /\
    blen v < 256 ^ Z.of_nat w.
Proof.
  intros Hp. unfold qconf_string_sub. destruct (Z.leb_spec (pos + Z.of_nat w) (blen s)) as [H1|]; [|done].
  set (num := qconf_decode_num w s pos). destruct (Z.leb_spec (pos + Z.of_nat w + num) (blen s)) as [H2|]; [|done].
  intros [= <- <-]. unfold blen in H1, H2. set (p := Z.to_nat pos).
  assert (Hl : length (sub_bytes p w s) = w) by (apply sub_bytes_length; lia).
  assert (Hr : 0 <= num < 256 ^ Z.of_nat w).
  { unfold num, qconf_decode_num. pose proof (le_num_range (sub_bytes p w s)) as Hr.
    unfold blen in Hr. by rewrite Hl in Hr. }
  set (v := sub_bytes (Z.to_nat (pos + Z.of_nat w)) (Z.to_nat num) s).
  assert (Hv : blen v = num) by (unfold blen, v; rewrite sub_bytes_length; lia).
  exists (take p s), (drop (p + w + Z.to_nat num) s). split; [|split; [|split]].
  - unfold field. rewrite Hv. unfold num at 1, qconf_decode_num.
    rewrite <- Hl at 1. fold p. rewrite le_bytes_num. unfold v.
    replace (Z.to_nat (pos + Z.of_nat w)) with (p + w)%nat by lia. unfold sub_bytes.
    rewrite <- (take_drop p s) at 1. f_equal. rewrite <- app_assoc.
    rewrite <- (take_drop w (drop p s)) at 1. f_equal. rewrite drop_drop.
    rewrite <- (take_drop (Z.to_nat num) (drop (p + w) s)) at 1. f_equal. by rewrite drop_drop.
  - unfold blen. rewrite length_take. lia.
  - rewrite blen_field. lia.
  - lia.
Qed.

Lemma sub_ret w s pos old : qconf_string_sub w s pos old = (QCONF_OK, (qconf_string_sub w s pos old).1.2,
    (qconf_string_sub w s pos old).2) \/ (qconf_string_sub w s pos old).1.1 = QCONF_ERR_DATA_FORMAT.
Proof. unfold qconf_string_sub. repeat case_test; auto. Qed.

(** The bounds of the length fields. *)
Ltac width :=
  unfold QCONF_VECTOR_COUNT_LEN, QCONF_IDC_SIZE_LEN, QCONF_HOST_PATH_SIZE_LEN, QCONF_VALUE_SIZE_LEN in *;
  simpl in *; lia.

(** ** Keys *)

Definition key_ok (data_type : byte) (idc path : bytes) : Prop :=
  blen idc < 256 /\ blen path < 65536 /\
  (has_path data_type = true \/ data_type = QCONF_DATA_TYPE_ZK_HOST \/ data_type = QCONF_DATA_TYPE_LOCAL_IDC).

(** The parts of a key that its type keeps. *)
Definition key_parts (data_type : byte) (idc path old_idc old_path : bytes) : bytes * bytes :=
  if has_path data_type then (idc, path)
  else if decide (data_type = QCONF_DATA_TYPE_ZK_HOST) then (idc, old_path)
  else (old_idc, old_path).

Lemma key_read data_type idc path data_type0 idc0 path0 :
  has_path data_type = true -> blen idc < 256 -> blen path < 65536 ->
  deserialize_from_tblkey (serialize_to_tblkey data_type idc path).2 data_type0 idc0 path0 = (QCONF_OK, (data_type, idc, path)).
Proof.
  intros E Hi Hp. unfold serialize_to_tblkey. rewrite E. unfold qconf_append_path, qconf_append_idc. rewrite !append_field.
  cbn [app snd deserialize_from_tblkey]. rewrite E. unfold qconf_sub_idc, qconf_sub_path. change 1 with (blen [data_type]) at 1.
  change (data_type :: field QCONF_IDC_SIZE_LEN idc ++ field QCONF_HOST_PATH_SIZE_LEN path)
    with ([data_type] ++ field QCONF_IDC_SIZE_LEN idc ++ field QCONF_HOST_PATH_SIZE_LEN path).
  rewrite sub_field by width. cbn [Z.eqb]. rewrite <- blen_app, app_assoc.
  rewrite <- (app_nil_r (field QCONF_HOST_PATH_SIZE_LEN path)). by rewrite sub_field by width.
Qed.

Lemma blen_nodeval key val : blen key < 2 ^ 20 -> blen val < 2 ^ 31 -> blen (nodeval_to_tblval key val) < 2 ^ 32.
Proof. intros Hk Hv. unfold nodeval_to_tblval, qconf_append_nodeval. rewrite append_field, app_nil_l, blen_app, blen_field. width. Qed.

(** C28. Reading back a serialized key gives its data type, idc and path (as far as the type stores
    them), for an idc shorter than 256 and a path shorter than 65536 bytes. *)
Theorem tblkey_roundtrip data_type idc path data_type0 idc0 path0 :
  key_ok data_type idc path ->
  let '(ret, tblkey) := serialize_to_tblkey data_type idc path in
  ret = QCONF_OK /\
  deserialize_from_tblkey tblkey data_type0 idc0 path0 =
    (QCONF_OK, (data_type, (key_parts data_type idc path idc0 path0).1, (key_parts data_type idc path idc0 path0).2)).
Proof.
  intros (Hi & Hp & Ht). unfold serialize_to_tblkey, key_parts. destruct (has_path data_type) eqn:E.
  - split; [done|]. pose proof (key_read data_type idc path data_type0 idc0 path0 E Hi Hp) as Hr. unfold serialize_to_tblkey in Hr.
    by rewrite E in Hr.
  - destruct (decide (data_type = QCONF_DATA_TYPE_ZK_HOST)) as [->|N].
    + split; [done|]. unfold qconf_append_idc. rewrite append_field. cbn [app deserialize_from_tblkey].
      rewrite E, decide_True by done. unfold qconf_sub_idc. change 1 with (blen [QCONF_DATA_TYPE_ZK_HOST]).
      change (QCONF_DATA_TYPE_ZK_HOST :: field QCONF_IDC_SIZE_LEN idc)
        with ([QCONF_DATA_TYPE_ZK_HOST] ++ field QCONF_IDC_SIZE_LEN idc).
      rewrite <- (app_nil_r (field QCONF_IDC_SIZE_LEN idc)). by rewrite sub_field by width.
    + destruct Ht as [?|[?| -> ]]; [congruence|done|]. done.
Qed.

Lemma tblkey_roundtrip_witness :
  key_ok QCONF_DATA_TYPE_NODE (str "test") (str "/demo/conf") /\
  deserialize_from_tblkey (serialize_to_tblkey QCONF_DATA_TYPE_NODE (str "test") (str "/demo/conf")).2 x00 [] [] =
    (QCONF_OK, (QCONF_DATA_TYPE_NODE, str "test", str "/demo/conf")).
Proof.
  assert (Hk : key_ok QCONF_DATA_TYPE_NODE (str "test") (str "/demo/conf")) by (split; [|split; [|left]]; reflexivity).
  split; [exact Hk|]. apply (tblkey_roundtrip _ _ _ x00 [] [] Hk).
Defined.

(** Every string the key reader accepts starts with a key that the writer produces from the parts
    the reader returned. *)
Theorem tblkey_parse_print tblkey data_type idc path data_type0 idc0 path0 :
  deserialize_from_tblkey tblkey data_type0 idc0 path0 = (QCONF_OK, (data_type, idc, path)) ->
  (serialize_to_tblkey data_type idc path).1 = QCONF_OK /\
  exists rest, tblkey = (serialize_to_tblkey data_type idc path).2 ++ rest.
Proof.
  unfold deserialize_from_tblkey. destruct tblkey as [|t s]; [done|]. unfold serialize_to_tblkey.
  destruct (has_path t) eqn:E.
  - destruct (qconf_sub_idc (t :: s) 1 idc0) as [[r1 p1] i1] eqn:E1. destruct (Z.eqb_spec r1 QCONF_OK) as [->|]; [|done].
    destruct (qconf_sub_path (t :: s) p1 path0) as [[r2 p2] i2] eqn:E2.
    destruct (Z.eqb_spec r2 QCONF_OK) as [->|]; [|done]. intros [= -> -> ->]. rewrite E. split; [done|].
    apply sub_field_inv in E1 as (pre1 & post1 & Hs1 & Hl1 & -> & _); [|done].
    apply sub_field_inv in E2 as (pre2 & post2 & Hs2 & Hl2 & -> & _);
      [|pose proof (blen_nonneg (field QCONF_IDC_SIZE_LEN idc)); lia].
    destruct pre1 as [|t1 [|t2 pre1]]; [done| |rewrite !blen_cons in Hl1; pose proof (blen_nonneg pre1); lia].
    simpl in Hs1. injection Hs1 as <- Hs1. exists post2. cbn [fst snd].
    unfold qconf_append_path, qconf_append_idc. rewrite !append_field, <- !app_assoc. rewrite Hs2.
    assert (Hp : pre2 = [data_type] ++ field QCONF_IDC_SIZE_LEN idc); [|by rewrite Hp, <- !app_assoc].
    rewrite Hs1 in Hs2. rewrite <- Hl1 in Hl2.
    assert (Hs3 : ([data_type] ++ field QCONF_IDC_SIZE_LEN idc) ++ post1 = pre2 ++ field QCONF_HOST_PATH_SIZE_LEN path ++ post2)
      by (rewrite <- app_assoc; exact Hs2).
    apply app_inj_1 in Hs3 as [-> _]; [done|]. rewrite <- blen_app in Hl2. unfold blen in Hl2. lia.
  - destruct (decide (t = QCONF_DATA_TYPE_ZK_HOST)) as [->|N1].
    + destruct (qconf_sub_idc (QCONF_DATA_TYPE_ZK_HOST :: s) 1 idc0) as [[r1 p1] i1] eqn:E1.
      destruct (Z.eqb_spec r1 QCONF_OK) as [->|]; [|done]. intros [= <- -> ->]. rewrite E, decide_True by done.
      split; [done|]. apply sub_field_inv in E1 as (pre1 & post1 & Hs1 & Hl1 & _); [|done].
      destruct pre1 as [|t1 [|t2 pre1]]; [done| |rewrite !blen_cons in Hl1; pose proof (blen_nonneg pre1); lia].
      simpl in Hs1. injection Hs1 as <- Hs1. exists post1. cbn [snd]. unfold qconf_append_idc.
      by rewrite append_field, <- app_assoc, Hs1.
    + destruct (decide (t = QCONF_DATA_TYPE_LOCAL_IDC)) as [->|]; [|done].
      intros [= <- -> ->]. rewrite E, decide_False, decide_True by done. split; [done|]. by exists s.
Qed.

Lemma tblkey_parse_print_witness :
  exists rest, str "2" ++ [x01; x71; x02; x00; x2f; x61; x7a] =
    (serialize_to_tblkey QCONF_DATA_TYPE_NODE (str "q") (str "/a")).2 ++ rest.
Proof.
  apply (tblkey_parse_print (str "2" ++ [x01; x71; x02; x00; x2f; x61; x7a])
           QCONF_DATA_TYPE_NODE (str "q") (str "/a") x00 [] []). reflexivity.
Defined.

(** ** Values *)

(** The data type byte of a key is its first byte. *)
Lemma serialize_head data_type idc path :
  exists tl, (serialize_to_tblkey data_type idc path).2 = data_type :: tl.
Proof. unfold serialize_to_tblkey. repeat case_match; eexists; reflexivity. Qed.

Lemma type_at_field pre data_type tl : type_at (pre ++ data_type :: tl) (blen pre) data_type = true.
Proof.
  unfold type_at. rewrite blen_app, blen_cons. pose proof (blen_nonneg tl).
  destruct (Z.leb_spec (blen pre + 1) (blen pre + (1 + blen tl))); [|lia]. simpl.
  apply bool_decide_eq_true. unfold blen. rewrite Nat2Z.id. rewrite lookup_app_r by lia.
  by rewrite Nat.sub_diag.
Qed.

(** The idc and the path at the end of a value. *)
Lemma sub_idc_path_key pre data_type idc path idc0 path0 :
  key_ok data_type idc path -> has_path data_type = true ->
  sub_idc_path (pre ++ (serialize_to_tblkey data_type idc path).2) (blen pre + 1) idc0 path0 =
    (QCONF_OK, (idc, path)).
Proof.
  intros (Hi & Hp & _) E. unfold serialize_to_tblkey, sub_idc_path. rewrite E. cbn [snd].
  unfold qconf_append_path, qconf_append_idc, qconf_sub_idc, qconf_sub_path. rewrite !append_field.
  change 1 with (blen [data_type]). rewrite <- blen_app, <- !app_assoc, !(app_assoc pre).
  rewrite sub_field by width. cbn [Z.eqb negb]. rewrite <- blen_app, app_assoc.
  rewrite <- (app_nil_r (field QCONF_HOST_PATH_SIZE_LEN path)). by rewrite sub_field by width.
Qed.

(** The first field of a value, and the type byte behind it. *)
Lemma sub_first w v key old :
  blen v < 256 ^ Z.of_nat w ->
  qconf_string_sub w (field w v ++ key) 0 old = (QCONF_OK, blen (field w v), v).
Proof. intros Hv. change (field w v ++ key) with ([] ++ field w v ++ key). change 0 with (blen (@nil byte)) at 1. by rewrite sub_field. Qed.

(** The key of a handle is read back. *)
Lemma idc_host_read idc host idc0 host0 :
  blen idc < 256 -> blen host < 65536 ->
  deserialize_from_idc_host (serialize_to_idc_host idc host) idc0 host0 = (QCONF_OK, (idc, host)).
Proof.
  intros Hi Hh. unfold deserialize_from_idc_host, serialize_to_idc_host, qconf_append_idc, qconf_append_host, qconf_sub_idc, qconf_sub_host.
  rewrite !append_field, app_nil_l, sub_first by width. cbn [Z.eqb QCONF_OK negb].
  rewrite <- (app_nil_r (field QCONF_HOST_PATH_SIZE_LEN host)), sub_field by width. done.
Qed.


(** Reading back the value of a node gives the value and the idc and path of its key; the host list
    of an idc and the local idc are read back likewise. *)
Theorem tblval_scalar_roundtrip idc path v v0 idc0 path0 :
  blen idc < 256 -> blen path < 65536 ->
  let node_key := (serialize_to_tblkey QCONF_DATA_TYPE_NODE idc path).2 in
  let host_key := (serialize_to_tblkey QCONF_DATA_TYPE_ZK_HOST idc path).2 in
  (blen v < 2 ^ 32 ->
   tblval_to_nodeval (nodeval_to_tblval node_key v) v0 = (QCONF_OK, v) /\
   tblval_to_nodeval_key (nodeval_to_tblval node_key v) v0 idc0 path0 = (QCONF_OK, (v, idc, path))) /\
  (blen v < 65536 ->
   tblval_to_host (idcval_to_tblval host_key v) v0 = (QCONF_OK, v) /\
   tblval_to_idcval (idcval_to_tblval host_key v) v0 idc0 = (QCONF_OK, (v, idc))) /\
  tblval_to_localidc (localidc_to_tblval QCONF_KEY_TYPE_LOCAL_IDC idc) idc0 = (QCONF_OK, idc).
Proof.
  intros Hi Hp node_key host_key. split; [|split].
  - intros Hv. destruct (serialize_head QCONF_DATA_TYPE_NODE idc path) as (tl & Htl).
    unfold tblval_to_nodeval, tblval_to_nodeval_key, nodeval_to_tblval, qconf_append_nodeval, qconf_sub_nodeval.
    rewrite append_field, app_nil_l, sub_first by width. cbn [Z.eqb negb].
    assert (Ht : type_at (field QCONF_VALUE_SIZE_LEN v ++ node_key) (blen (field QCONF_VALUE_SIZE_LEN v))
                   QCONF_DATA_TYPE_NODE = true) by (unfold node_key; rewrite Htl; apply type_at_field).
    rewrite Ht. split; [done|]. cbn [negb]. unfold node_key. rewrite sub_idc_path_key; [done| |done].
    split; [done|]. split; [done|by left].
  - intros Hv. destruct (serialize_head QCONF_DATA_TYPE_ZK_HOST idc path) as (tl & Htl).
    unfold tblval_to_host, tblval_to_idcval, idcval_to_tblval, qconf_append_host, qconf_sub_host.
    rewrite append_field, app_nil_l, sub_first by width. cbn [Z.eqb negb].
    assert (Ht : type_at (field QCONF_HOST_PATH_SIZE_LEN v ++ host_key) (blen (field QCONF_HOST_PATH_SIZE_LEN v))
                   QCONF_DATA_TYPE_ZK_HOST = true) by (unfold host_key; rewrite Htl; apply type_at_field).
    rewrite Ht. split; [done|]. cbn [negb].
    assert (Hk : host_key = [QCONF_DATA_TYPE_ZK_HOST] ++ field QCONF_IDC_SIZE_LEN idc) by done.
    rewrite Hk. unfold qconf_sub_idc. rewrite app_assoc.
    replace (blen (field QCONF_HOST_PATH_SIZE_LEN v) + 1)
      with (blen (field QCONF_HOST_PATH_SIZE_LEN v ++ [QCONF_DATA_TYPE_ZK_HOST])) by (rewrite blen_app; done).
    rewrite <- (app_nil_r (field QCONF_IDC_SIZE_LEN idc)). by rewrite sub_field by width.
  - unfold tblval_to_localidc, localidc_to_tblval, qconf_append_idc, qconf_sub_idc.
    rewrite append_field, app_nil_l, sub_first by width. cbn [Z.eqb negb].
    change QCONF_KEY_TYPE_LOCAL_IDC with (QCONF_DATA_TYPE_LOCAL_IDC :: []). by rewrite type_at_field.
Qed.

Lemma tblval_scalar_roundtrip_witness :
  tblval_to_nodeval_key (nodeval_to_tblval (serialize_to_tblkey QCONF_DATA_TYPE_NODE (str "bj") (str "/a")).2
    (str "value")) [] [] [] = (QCONF_OK, (str "value", str "bj", str "/a")).
Proof. apply (tblval_scalar_roundtrip (str "bj") (str "/a") (str "value") [] [] []); reflexivity. Defined.

(** ** Vectors of nodes *)

Definition node_ok (node : bytes) : Prop := (x00 ∉ node) /\ blen node < 65536.

Definition fields (ns : list bytes) : bytes := flat_map (field QCONF_HOST_PATH_SIZE_LEN) ns.

Lemma append_node_field t node : node_ok node -> append_node t node = t ++ field QCONF_HOST_PATH_SIZE_LEN node.
Proof.
  intros [Hn Hl]. unfold append_node, strlen. rewrite c_str_no_nul by done.
  pose proof (blen_nonneg node). rewrite u16_small by lia.
  rewrite take_ge by (unfold blen; lia). done.
Qed.

Lemma append_all_fields ns pre t :
  Forall node_ok ns -> append_all (length ns) (length pre) (Some <$> pre ++ ns) t = Some (t ++ fields ns).
Proof.
  revert pre t. induction ns as [|x ns IH]; intros pre t Hall; cbn [append_all length fields flat_map].
  - by rewrite app_nil_r.
  - apply Forall_cons in Hall as [Hx Hall]. rewrite fmap_app, lookup_app_r by (rewrite length_fmap; lia).
    rewrite length_fmap, Nat.sub_diag. cbn [fmap list_fmap lookup list_lookup].
    rewrite append_node_field by done.
    specialize (IH (pre ++ [x]) (t ++ field QCONF_HOST_PATH_SIZE_LEN x) Hall).
    rewrite length_app, Nat.add_1_r, <- app_assoc, fmap_app in IH.
    etrans; [exact IH|]. by rewrite <- app_assoc.
Qed.

(** The nodes whose status is up. *)
Fixpoint up_nodes (ns : list bytes) (fl : list Z) : list bytes :=
  match ns, fl with
  | x :: ns', f :: fl' => if f =? STATUS_UP then x :: up_nodes ns' fl' else up_nodes ns' fl'
  | _, _ => []
  end.

Lemma count_up_nodes ns fl pre c :
  length fl = length ns -> 0 <= c -> c + blen (up_nodes ns fl) < 65536 ->
  count_up (length ns) (length pre) (pre ++ fl) c = Some (c + blen (up_nodes ns fl)).
Proof.
  revert fl pre c. induction ns as [|x ns IH]; intros [|f fl] pre c Hlen Hc Hb; try done;
    cbn [count_up length up_nodes] in *; [by rewrite Z.add_0_r|].
  rewrite lookup_app_r, Nat.sub_diag by lia. cbn [lookup list_lookup].
  replace (S (length pre)) with (length (pre ++ [f])) by (rewrite length_app; simpl; lia).
  replace (pre ++ f :: fl) with ((pre ++ [f]) ++ fl) by (by rewrite <- app_assoc).
  destruct (f =? STATUS_UP); [rewrite blen_cons in *|]; pose proof (blen_nonneg (up_nodes ns fl)).
  - rewrite u16_small by lia. rewrite IH by (simpl in Hlen; lia). f_equal. lia.
  - by rewrite IH by (simpl in Hlen; lia).
Qed.

Lemma append_up_fields ns fl pre prefl t :
  length fl = length ns -> length pre = length prefl -> Forall node_ok ns ->
  append_up (length ns) (length pre) (Some <$> pre ++ ns) (prefl ++ fl) t = Some (t ++ fields (up_nodes ns fl)).
Proof.
  revert fl pre prefl t. induction ns as [|x ns IH]; intros [|f fl] pre prefl t Hlen Hpre Hall; try done;
    cbn [append_up length up_nodes] in *; [by rewrite app_nil_r|].
  apply Forall_cons in Hall as [Hx Hall].
  assert (IH' := IH fl (pre ++ [x]) (prefl ++ [f])). rewrite !length_app, <- !app_assoc in IH'. simpl in IH'.
  rewrite Nat.add_1_r in IH'.
  rewrite lookup_app_r, Hpre, Nat.sub_diag by lia. cbn [lookup list_lookup]. rewrite <- Hpre.
  destruct (f =? STATUS_UP).
  - rewrite fmap_app, lookup_app_r by (rewrite length_fmap; lia).
    rewrite length_fmap, Nat.sub_diag. cbn [fmap list_fmap lookup list_lookup].
    rewrite append_node_field by done. rewrite fmap_app in IH'.
    etrans; [apply IH'; done || lia|]. cbn [fields flat_map]. by rewrite <- app_assoc.
  - rewrite IH' by (done || lia). done.
Qed.

Lemma up_nodes_sub ns fl : Forall node_ok ns -> Forall node_ok (up_nodes ns fl).
Proof.
  intros Hall. revert fl. induction Hall as [|x ns Hx Hall IH]; intros [|f fl]; cbn [up_nodes]; try constructor.
  destruct (f =? STATUS_UP); [constructor|]; auto.
Qed.

Lemma sub_nodes_fields ns pre post i data c :
  Forall node_ok ns -> (i + length ns)%nat = length data ->
  sub_nodes (fun _ => true) (length ns) i (pre ++ fields ns ++ post) (blen pre) (SV c data) =
    (QCONF_OK, blen (pre ++ fields ns), SV c (take i data ++ (Some <$> ns))).
Proof.
  revert pre i data. induction ns as [|x ns IH]; intros pre i data Hall Hlen; cbn [sub_nodes length fields flat_map fmap list_fmap] in *.
  - rewrite !app_nil_r. by rewrite take_ge by lia.
  - apply Forall_cons in Hall as [[Hn Hx] Hall]. fold (fields ns).
    pose proof (blen_nonneg x). pose proof (blen_nonneg (fields ns)). pose proof (blen_nonneg post).
    set (s := pre ++ _). assert (Hs : blen s = blen pre + 2 + blen x + blen (fields ns) + blen post).
    { unfold s. rewrite !blen_app, blen_field. width. }
    rewrite Hs. change (Z.of_nat QCONF_HOST_PATH_SIZE_LEN) with 2.
    assert (Hd : qconf_decode_num QCONF_HOST_PATH_SIZE_LEN s (blen pre) = blen x).
    { unfold s, field. rewrite <- !app_assoc. apply decode_num_at. width. }
    rewrite Hd.
    destruct (Z.ltb_spec (blen pre + 2 + blen x + blen (fields ns) + blen post) (blen pre + 2)); [lia|].
    destruct (Z.ltb_spec (blen pre + 2 + blen x + blen (fields ns) + blen post) (blen pre + 2 + blen x)); [lia|].
    cbn [negb sv_count sv_data].
    assert (Hsub : sub_bytes (Z.to_nat (blen pre + 2)) (Z.to_nat (blen x)) s = x).
    { replace (blen pre + 2) with (blen (pre ++ le_bytes 2 (blen x))) by (rewrite blen_app; unfold blen; rewrite length_le_bytes; lia).
      replace (Z.to_nat (blen x)) with (length x) by (unfold blen; lia).
      unfold s, field. rewrite <- !app_assoc, (app_assoc pre). apply sub_bytes_at. }
    rewrite Hsub. specialize (IH (pre ++ field QCONF_HOST_PATH_SIZE_LEN x) (S i) (<[i:=Some x]> data) Hall).
    rewrite length_insert in IH. specialize (IH ltac:(lia)).
    rewrite blen_app, blen_field in IH. change (Z.of_nat QCONF_HOST_PATH_SIZE_LEN) with 2 in IH.
    replace (blen pre + 2 + blen x) with (blen pre + (2 + blen x)) by lia.
    unfold s. rewrite <- !app_assoc in *. rewrite IH. f_equal. f_equal.
    rewrite (take_S_r _ _ (Some x)) by (apply list_lookup_insert_eq; lia).
    rewrite take_insert_ge by lia. by rewrite <- app_assoc.
Qed.

Lemma sub_vector_fields ns key nodes0 :
  Forall node_ok ns -> blen ns < 65536 ->
  qconf_sub_vectorval (fun _ => true) (le_bytes QCONF_VECTOR_COUNT_LEN (blen ns) ++ fields ns ++ key) 0 nodes0 =
    (QCONF_OK, blen (le_bytes QCONF_VECTOR_COUNT_LEN (blen ns) ++ fields ns), SV (blen ns) (Some <$> ns)).
Proof.
  intros Hall Hlen. unfold qconf_sub_vectorval. set (hd := le_bytes QCONF_VECTOR_COUNT_LEN (blen ns)).
  assert (Hhd : blen hd = 2) by (unfold blen, hd; by rewrite length_le_bytes).
  pose proof (blen_nonneg (fields ns)). pose proof (blen_nonneg key). rewrite !blen_app, Hhd.
  change (Z.of_nat QCONF_VECTOR_COUNT_LEN) with 2.
  destruct (Z.ltb_spec (2 + (blen (fields ns) + blen key)) (0 + 2)); [lia|].
  assert (Hd : qconf_decode_num QCONF_VECTOR_COUNT_LEN (hd ++ fields ns ++ key) 0 = blen ns).
  { change 0 with (blen (@nil byte)). change (hd ++ fields ns ++ key) with ([] ++ hd ++ fields ns ++ key).
    apply decode_num_at. pose proof (blen_nonneg ns). width. }
  rewrite Hd. destruct (Z.eqb_spec (blen ns) 0) as [E|E].
  - apply blen_0 in E as ->. done.
  - cbn [negb]. replace (Z.to_nat (blen ns)) with (length ns) by (unfold blen; lia).
    change (0 + 2) with 2. rewrite <- Hhd. rewrite sub_nodes_fields; [|done|by rewrite length_replicate].
    rewrite blen_app. done.
Qed.

(** A vector as it is stored, and what its readers make of it. *)
Definition vector_val (vs : list bytes) (key : bytes) : bytes :=
  (le_bytes QCONF_VECTOR_COUNT_LEN (blen vs) ++ fields vs) ++ key.

Lemma vector_read dt idc path vs nodes0 idc0 path0 :
  key_ok dt idc path -> has_path dt = true -> Forall node_ok vs -> blen vs < 65536 ->
  let tblval := vector_val vs (serialize_to_tblkey dt idc path).2 in
  tblval_to_vector (fun _ => true) dt tblval nodes0 = (QCONF_OK, SV (blen vs) (Some <$> vs)) /\
  tblval_to_vectorval (fun _ => true) dt tblval nodes0 idc0 path0 = (QCONF_OK, (SV (blen vs) (Some <$> vs), idc, path)).
Proof.
  intros Hk Hdt Hvs Hb tblval. unfold tblval_to_vector, tblval_to_vectorval, tblval, vector_val.
  destruct (serialize_head dt idc path) as (tl & Htl).
  assert (Ht : type_at ((le_bytes QCONF_VECTOR_COUNT_LEN (blen vs) ++ fields vs) ++ (serialize_to_tblkey dt idc path).2)
                 (blen (le_bytes QCONF_VECTOR_COUNT_LEN (blen vs) ++ fields vs)) dt = true)
    by (rewrite Htl; apply type_at_field).
  pose proof (sub_vector_fields vs (serialize_to_tblkey dt idc path).2 nodes0 Hvs Hb) as Hsv.
  rewrite app_assoc in Hsv. rewrite Hsv. cbn [Z.eqb negb].
  rewrite Ht. split; [done|]. cbn [negb]. by rewrite sub_idc_path_key.
Qed.

Lemma blen_up_nodes ns fl : blen (up_nodes ns fl) <= blen ns.
Proof.
  unfold blen. revert fl. induction ns as [|x ns IH]; intros [|f fl]; cbn [up_nodes length]; try lia.
  specialize (IH fl). destruct (f =? STATUS_UP); cbn [length]; lia.
Qed.

Lemma service_written key ns fl :
  Forall node_ok ns -> length fl = length ns -> blen ns < 65536 ->
  chdnodeval_to_tblval key (SV (blen ns) (Some <$> ns)) fl = Some (vector_val (up_nodes ns fl) key).
Proof.
  intros Hall Hfl Hlen. pose proof (blen_up_nodes ns fl). unfold chdnodeval_to_tblval. cbn [sv_count sv_data].
  replace (Z.to_nat (blen ns)) with (length ns) by (unfold blen; lia).
  pose proof (count_up_nodes ns fl [] 0 Hfl ltac:(lia) ltac:(lia)) as Hc. cbn [app length] in Hc. rewrite Hc.
  pose proof (append_up_fields ns fl [] [] (qconf_encode_num QCONF_VECTOR_COUNT_LEN (0 + blen (up_nodes ns fl))) Hfl eq_refl Hall) as Ha.
  cbn [app length] in Ha. rewrite Ha. by rewrite Z.add_0_l.
Qed.

Lemma batch_written key ns :
  Forall node_ok ns -> blen ns < 65536 ->
  batchnodeval_to_tblval key (SV (blen ns) (Some <$> ns)) = Some (vector_val ns key).
Proof.
  intros Hall Hlen. unfold batchnodeval_to_tblval. cbn [sv_count sv_data].
  replace (Z.to_nat (blen ns)) with (length ns) by (unfold blen; lia).
  pose proof (append_all_fields ns [] (qconf_encode_num QCONF_VECTOR_COUNT_LEN (u16 (blen ns))) Hall) as Ha.
  cbn [app length] in Ha. rewrite Ha. pose proof (blen_nonneg ns). by rewrite u16_small by lia.
Qed.

(** Reading back the children of a service gives exactly the children whose status is up, in order,
    and reading back a batch node gives all its children, each with the idc and path of the key; for
    children without NUL bytes and shorter than 65536 bytes, and at most 65535 of them. *)
Theorem tblval_vector_roundtrip idc path ns fl nodes0 idc0 path0 :
  blen idc < 256 -> blen path < 65536 -> Forall node_ok ns -> length fl = length ns -> blen ns < 65536 ->
  let service_key := (serialize_to_tblkey QCONF_DATA_TYPE_SERVICE idc path).2 in
  let batch_key := (serialize_to_tblkey QCONF_DATA_TYPE_BATCH_NODE idc path).2 in
  let nodes := SV (blen ns) (Some <$> ns) in
  let up := up_nodes ns fl in
  (exists tblval, chdnodeval_to_tblval service_key nodes fl = Some tblval /\
    tblval_to_chdnodeval (fun _ => true) tblval nodes0 = (QCONF_OK, SV (blen up) (Some <$> up)) /\
    tblval_to_vectorval (fun _ => true) QCONF_DATA_TYPE_SERVICE tblval nodes0 idc0 path0 =
      (QCONF_OK, (SV (blen up) (Some <$> up), idc, path))) /\
  (exists tblval, batchnodeval_to_tblval batch_key nodes = Some tblval /\
    tblval_to_batchnodeval (fun _ => true) tblval nodes0 = (QCONF_OK, nodes) /\
    tblval_to_vectorval (fun _ => true) QCONF_DATA_TYPE_BATCH_NODE tblval nodes0 idc0 path0 =
      (QCONF_OK, (nodes, idc, path))).
Proof.
  intros Hi Hp Hall Hfl Hlen service_key batch_key nodes up. assert (blen up <= blen ns) by apply blen_up_nodes. split; eexists.
  - split; [by apply service_written|]. apply vector_read; [by split; [|split; [|left]]|done|by apply up_nodes_sub|lia].
  - split; [by apply batch_written|]. apply vector_read; [by split; [|split; [|left]]|done|done|lia].
Qed.

Lemma tblval_vector_roundtrip_witness :
  exists tblval, chdnodeval_to_tblval (serialize_to_tblkey QCONF_DATA_TYPE_SERVICE (str "bj") (str "/svc")).2
      (SV 2 [Some (str "10.0.0.1:80"); Some (str "10.0.0.2:80")]) [STATUS_UP; STATUS_DOWN] = Some tblval /\
    tblval_to_chdnodeval (fun _ => true) tblval (SV 0 []) = (QCONF_OK, SV 1 [Some (str "10.0.0.1:80")]).
Proof.
  destruct (tblval_vector_roundtrip (str "bj") (str "/svc") [str "10.0.0.1:80"; str "10.0.0.2:80"]
    [STATUS_UP; STATUS_DOWN] (SV 0 []) [] []) as [(tblval & H1 & H2 & _) _]; [reflexivity|reflexivity| |reflexivity|reflexivity|].
  - repeat constructor; try reflexivity; intros Hin; repeat (apply elem_of_cons in Hin as [Hin|Hin]; [discriminate|]);
      by apply elem_of_nil in Hin.
  - exists tblval. exact (conj H1 H2).
Defined.

(** ** Gray nodes *)

Definition gray_fields (ns : list bytes) : bytes := flat_map (field QCONF_VALUE_SIZE_LEN) ns.

Lemma sub_gray_fields (ns : list bytes) (pre post : bytes) (acc : gset bytes) :
  Forall (fun v => blen v < 2 ^ 32) ns ->
  sub_gray (length ns) (pre ++ gray_fields ns ++ post) (blen pre) acc = (QCONF_OK, list_to_set ns ∪ acc).
Proof.
  revert pre acc. induction ns as [|x ns IH]; intros pre acc Hall; cbn [sub_gray length gray_fields flat_map list_to_set].
  - by rewrite (left_id_L ∅ (∪)).
  - apply Forall_cons in Hall as [Hx Hall]. fold (gray_fields ns).
    pose proof (blen_nonneg x). pose proof (blen_nonneg (gray_fields ns)). pose proof (blen_nonneg post).
    set (s := pre ++ _). assert (Hs : blen s = blen pre + 4 + blen x + blen (gray_fields ns) + blen post).
    { unfold s. rewrite !blen_app, blen_field. width. }
    rewrite Hs. change (Z.of_nat QCONF_VALUE_SIZE_LEN) with 4.
    assert (Hd : qconf_decode_num QCONF_VALUE_SIZE_LEN s (blen pre) = blen x).
    { unfold s, field. rewrite <- !app_assoc. apply decode_num_at. width. }
    rewrite Hd. destruct (Z.ltb_spec (blen pre + 4 + blen x + blen (gray_fields ns) + blen post) (blen pre + 4)); [lia|].
    destruct (Z.ltb_spec (blen pre + 4 + blen x + blen (gray_fields ns) + blen post) (blen pre + 4 + blen x)); [lia|].
    assert (Hsub : sub_bytes (Z.to_nat (blen pre + 4)) (Z.to_nat (blen x)) s = x).
    { replace (blen pre + 4) with (blen (pre ++ le_bytes 4 (blen x))) by (rewrite blen_app; unfold blen; rewrite length_le_bytes; lia).
      replace (Z.to_nat (blen x)) with (length x) by (unfold blen; lia).
      unfold s, field. rewrite <- !app_assoc, (app_assoc pre). apply sub_bytes_at. }
    rewrite Hsub. specialize (IH (pre ++ field QCONF_VALUE_SIZE_LEN x) ({[x]} ∪ acc) Hall).
    rewrite blen_app, blen_field in IH. change (Z.of_nat QCONF_VALUE_SIZE_LEN) with 4 in IH.
    replace (blen pre + 4 + blen x) with (blen pre + (4 + blen x)) by lia.
    unfold s. rewrite <- !app_assoc in *. rewrite IH. f_equal. set_solver.
Qed.

Lemma gray_read (ns : list bytes) (post : bytes) :
  blen ns < 65536 -> Forall (fun v => blen v < 2 ^ 32) ns ->
  tblval_to_graynodeval (le_bytes QCONF_VECTOR_COUNT_LEN (blen ns) ++ gray_fields ns ++ post) =
    (QCONF_OK, list_to_set ns).
Proof.
  intros Hlen Hall. unfold tblval_to_graynodeval. set (hd := le_bytes QCONF_VECTOR_COUNT_LEN (blen ns)).
  assert (Hhd : blen hd = 2) by (unfold blen, hd; by rewrite length_le_bytes).
  pose proof (blen_nonneg (gray_fields ns)). pose proof (blen_nonneg post). pose proof (blen_nonneg ns).
  change (Z.of_nat QCONF_VECTOR_COUNT_LEN) with 2.
  rewrite !blen_app, Hhd. destruct (Z.ltb_spec (2 + (blen (gray_fields ns) + blen post)) 2); [lia|].
  assert (Hd : qconf_decode_num QCONF_VECTOR_COUNT_LEN (hd ++ gray_fields ns ++ post) 0 = blen ns).
  { change 0 with (blen (@nil byte)). change (hd ++ gray_fields ns ++ post) with ([] ++ hd ++ gray_fields ns ++ post).
    apply decode_num_at. width. }
  rewrite Hd. destruct (Z.eqb_spec (blen ns) 0) as [E|E]; [by apply blen_0 in E as ->|].
  replace (Z.to_nat (blen ns)) with (length ns) by (unfold blen; lia).
  rewrite <- Hhd, sub_gray_fields by done. by rewrite (right_id_L ∅ (∪)).
Qed.

(** The writer copies a four-byte length into a two-byte buffer. *)
Lemma gray_overrun ns : graynodeval_to_tblval ns = None <-> ns <> [].
Proof.
  unfold graynodeval_to_tblval, buf_write, qconf_encode_num. rewrite length_le_bytes, length_replicate, Nat.leb_refl.
  destruct ns as [|x ns]; [done|]. split; [done|]. intros _. cbn [append_gray]. unfold buf_write, qconf_encode_num.
  by rewrite length_le_bytes, length_mem_write, length_replicate by (rewrite length_le_bytes, length_replicate; done).
Qed.

(** The reader of the gray-node list returns the set of nodes of any list of at most 65535 nodes laid
    out as a 16-bit count and 32-bit length-prefixed strings. The writer, however, copies each 32-bit
    length into a two-byte buffer: it is defined only for the empty list. *)
Theorem graynode_format (ns : list bytes) (post : bytes) :
  blen ns < 65536 -> Forall (fun v => blen v < 2 ^ 32) ns ->
  tblval_to_graynodeval (le_bytes QCONF_VECTOR_COUNT_LEN (blen ns) ++ gray_fields ns ++ post) =
    (QCONF_OK, list_to_set ns) /\
  (graynodeval_to_tblval ns = None <-> ns <> []).
Proof.
  intros Hlen Hall. split.
  - by apply gray_read.
  - apply gray_overrun.
Qed.

Lemma graynode_format_witness :
  tblval_to_graynodeval ([x01; x00] ++ field 4 (str "2abc") ++ []) = (QCONF_OK, {[ str "2abc" ]} ∪ ∅) /\
  graynodeval_to_tblval [str "2abc"] = None.
Proof.
  destruct (graynode_format [str "2abc"] []) as [H1 H2]; [reflexivity|repeat constructor; reflexivity|].
  split; [exact H1|by apply H2].
Defined.
