(* ===== verification/Store.v ===== *)
(** * The interface between the table and its clients

    What [src/base/qconf_shm.cc] calls of [qhasharr.c], as a class of operations on a store with
    [errno], and the laws its theorems rely on. [HashArr] discharges them for every number of slots;
    allocation is taken to succeed at this level. *)

From S2P Require Import Prelude Common HashArr HashArrSeg HashArrInv HashArrOps HashArrPut HashArrSpec HashArrMap HashArrThm.

Class Store (T : Type) := {
  s_null : T -> bool;
  s_errno : T -> Z;
  s_set_errno : Z -> SM T unit;
  s_get : bytes -> SM T (option bytes);
  s_put : bytes -> bytes -> SM T bool;
  s_remove : bytes -> SM T bool;
  s_exist : bytes -> SM T bool;
  s_getnext : Z -> SM T (option (bytes * bytes) * Z);
  s_size : SM T (Z * Z * Z);
  s_clear : SM T unit
}.

(** A store of [s_max] slots represents a map from key identities to values. [s_room] is the number of
    its free slots; [s_same] relates states that differ in [errno] only, which other processes do not see;
    [s_load] bounds the keys that share a collision counter with a key; [s_walk t idx kvs] says that a walk
    from the index meets the entries [kvs]. *)
Class StoreLaws (T : Type) `{Store T} := {
  s_max : Z;
  s_ident : bytes -> kid;
  s_rep : T -> gmap kid bytes -> Prop;
  s_same : relation T;
  s_room : T -> Z;
  s_load : gmap kid bytes -> bytes -> Z;
  s_load_delete : forall m i k, s_load (delete i m) k <= s_load m k;
  s_load_size : forall m k, s_load m k <= Z.of_nat (size m);
  s_same_equiv :: Equivalence s_same;
  s_rep_same : forall t t' m, s_same t t' -> s_rep t m -> s_rep t' m;
  s_max_pos : 0 < s_max < 2 ^ 31;
  s_ident_inj : forall k k', blen k <= 32 -> s_ident k = s_ident k' -> k = k';
  s_ident_name : forall k, kid_name (s_ident k) = take 32 k;
  s_not_null : forall t m, s_rep t m -> s_null t = false;
  s_rep_unique : forall t m m', s_rep t m -> s_rep t m' -> m = m';
  s_set_errno_ok : forall e t m, s_rep t m ->
    exists t', s_set_errno e t = Some (tt, t') /\ s_errno t' = e /\ s_rep t' m /\ s_room t' = s_room t;
  s_get_ok : forall k t m, s_rep t m ->
    exists t', s_get k t = Some (m !! s_ident k, t') /\ s_rep t' m /\ s_room t' = s_room t /\ s_same t t';
  s_put_ok : forall k v t m, s_rep t m -> blen k < 65536 -> 0 < blen v -> s_load m k < 2 ^ 15 - 1 ->
    exists (r : bool) t', s_put k v t = Some (r, t') /\
      (slots_for (blen v) <= s_room t -> r = true) /\
      (r = false -> s_errno t' = ENOBUFS) /\
      if r then s_rep t' (<[s_ident k := v]> m)
      else s_rep t' (if s_room t <=? 0 then m else delete (s_ident k) m);
  s_remove_ok : forall k t m, s_rep t m ->
    exists t', s_remove k t = Some (bool_decide (is_Some (m !! s_ident k)), t') /\
      s_rep t' (delete (s_ident k) m) /\ s_errno t' = (if decide (is_Some (m !! s_ident k)) then s_errno t else ENOENT) /\
      (if decide (is_Some (m !! s_ident k)) then s_room t < s_room t' else s_room t' = s_room t);
  s_exist_ok : forall k t m, s_rep t m -> s_exist k t = Some (bool_decide (is_Some (m !! s_ident k)), t);
  s_clear_ok : forall t m, s_rep t m -> exists t', s_clear t = Some (tt, t') /\ s_rep t' ∅;
  s_size_ok : forall t m, s_rep t m ->
    exists u, s_size t = Some ((Z.of_nat (size m), s_max, u), t) /\ Z.of_nat (size m) <= u <= s_max;
  s_walk : T -> Z -> list (kid * bytes) -> Prop;
  s_walk_same : forall t t' idx kvs, s_same t t' -> s_walk t idx kvs -> s_walk t' idx kvs;
  s_walk_all : forall t m, s_rep t m -> exists kvs, s_walk t 0 kvs /\ kvs ≡ₚ map_to_list m;
  s_getnext_ok : forall t m idx kvs, s_rep t m -> s_walk t idx kvs -> 0 <= idx <= s_max ->
    exists t', s_rep t' m /\ s_same t t' /\
      match kvs with
      | [] => s_getnext idx t = Some ((None, s_max), t') /\ s_errno t' = ENOENT
      | (k, v) :: kvs' => exists idx', idx < idx' <= s_max /\ s_walk t' idx' kvs' /\
          s_getnext idx t = Some ((Some (kid_name k, v), idx'), t')
      end
}.

(** ** The shared-memory table is such a store *)

Section HashArrStore.
Import HashArr.
Context `{KeyDigest} (M : Z) (HM : 0 < M < 2 ^ 31).

#[export] Instance hasharr_store : Store hstate := {|
  s_null st := match h_tbl st with None => true | Some _ => false end;
  s_errno := h_errno;
  s_set_errno := set_errno;
  s_get k := qhasharr_get (fun _ => true) (Some k);
  s_put k v := qhasharr_put (Some k) (Some v);
  s_remove k := qhasharr_remove (Some k);
  s_exist k := qhasharr_exist (Some k);
  s_getnext := qhasharr_getnext (fun _ => true);
  s_size := qhasharr_size;
  s_clear := qhasharr_clear
|}.

Definition hasharr_rep (st : hstate) (m : gmap kid bytes) : Prop :=
  exists t, h_tbl st = Some t /\ maxslots t = M /\ tbl_ok t m.

Definition hasharr_room (st : hstate) : Z :=
  match h_tbl st with Some t => maxslots t - usedslots t | None => 0 end.

#[local] Lemma rep_inv st m : hasharr_rep st m ->
  exists e u n l, st = HS e (Some (Tbl M u n l)) /\ tbl_ok (Tbl M u n l) m.
Proof using.
  intros ([M' u n l] & Ht & E & Hok). destruct st as [e o]. cbn in *. subst. eauto 10.
Qed.

#[export] Program Instance hasharr_laws : StoreLaws hstate := {|
  s_max := M;
  s_ident k := kid_of_key k M;
  s_rep := hasharr_rep;
  s_same st st' := h_tbl st = h_tbl st';
  s_room := hasharr_room;
  s_load m k := bucket_load m (bucket_of k M);
  s_walk st idx kvs := exists t, h_tbl st = Some t /\ walk (slots t) idx kvs
|}.
Next Obligation. intros m i k. apply bucket_load_delete. Qed.
Next Obligation. intros m k. apply bucket_load_size. Qed.
Next Obligation. split; [by intros ?|by intros ? ? ->|by intros ? ? ? -> ->]. Qed.
Next Obligation. intros t t' m E (tb & Et & Hr). exists tb. split; [congruence|done]. Qed.
Next Obligation. done. Qed.
Next Obligation. intros k k' Hk E. by apply (kid_of_key_inj k k' M). Qed.
Next Obligation. done. Qed.
Next Obligation. intros t m (e & u & n & l & -> & _)%rep_inv. done. Qed.
Next Obligation.
  intros t m m' (e & u & n & l & -> & [[_ _ _ _ H1] _])%rep_inv ([M' u' n' l'] & Ht & _ & [[_ _ _ _ H2] _]).
  cbn in *. injection Ht as <- <- <- <-. by apply (lrep_unique l).
Qed.
Next Obligation.
  intros e' t m (e & u & n & l & -> & Hok)%rep_inv. exists (HS e' (Some (Tbl M u n l))).
  repeat (split; [done|]). split; [|done]. by exists (Tbl M u n l).
Qed.
Next Obligation.
  intros k t m (e & u & n & l & -> & Hok)%rep_inv. cbn [s_get hasharr_store].
  rewrite (get_tbl (fun _ => true) e M u n l m k Hok).
  destruct (m !! kid_of_key k M); eexists; (split; [done|]); (split; [by exists (Tbl M u n l)|done]).
Qed.
Next Obligation.
  intros k v t m (e & u & n & l & -> & Hok)%rep_inv Hk Hv Hsz.
  destruct (put_tbl e M u n l m k v Hok Hk Hv) as (r & u' & n' & l' & Hrun & Hroom & _ & Hok'); [exact Hsz|].
  exists r, (HS (if r then e else ENOBUFS) (Some (Tbl M u' n' l'))). split; [done|].
  split; [done|]. split; [by intros ->|]. unfold hasharr_room. cbn [h_tbl maxslots usedslots].
  destruct r; [by exists (Tbl M u' n' l')|]. exists (Tbl M u' n' l'). do 2 (split; [done|]).
  replace (M - u <=? 0) with (M <=? u); [done|]. destruct (Z.leb_spec M u), (Z.leb_spec (M - u) 0); lia.
Qed.
Next Obligation.
  intros k t m (e & u & n & l & -> & Hok)%rep_inv. pose proof (remove_tbl e M u n l m k Hok) as Hrun.
  destruct (m !! kid_of_key k M) as [v|] eqn:E.
  - destruct Hrun as (u' & n' & l' & Hrun & Hok' & Hu). exists (HS e (Some (Tbl M u' n' l'))). split; [done|].
    split; [by exists (Tbl M u' n' l')|]. split; [done|]. unfold hasharr_room. simpl. lia.
  - exists (HS ENOENT (Some (Tbl M u n l))). split; [done|]. split; [|done].
    exists (Tbl M u n l). do 2 (split; [done|]). by rewrite delete_id.
Qed.
Next Obligation. intros k t m (e & u & n & l & -> & Hok)%rep_inv. by apply exist_tbl. Qed.
Next Obligation.
  intros t m (e & u & n & l & -> & Hok)%rep_inv. destruct (clear_tbl e M u n l m Hok) as (u' & n' & l' & Hrun & Hok').
  exists (HS e (Some (Tbl M u' n' l'))). split; [done|]. by exists (Tbl M u' n' l').
Qed.
Next Obligation.
  intros t m (e & u & n & l & -> & Hok)%rep_inv. exists u. destruct Hok as [[HM' Hb Hu Hn Hr] _].
  cbn [maxslots usedslots num slots] in *. pose proof (heads_size l m Hb Hr) as Hsz.
  split; [by rewrite <- Hsz, <- Hn|]. pose proof (countb_le is_used l). rewrite <- Hsz, Hu. split; [|lia].
  apply countb_mono. intros s Hs. apply is_used_ne. by apply head_used.
Qed.
Next Obligation. intros t t' idx kvs E (tb & Et & Hw). exists tb. split; [congruence|done]. Qed.
Next Obligation.
  intros t m (e & u & n & l & -> & Hok)%rep_inv. destruct (walk_all e M u n l m Hok) as (kvs & Hw & Hp).
  exists kvs. split; [|done]. by exists (Tbl M u n l).
Qed.
Next Obligation.
  intros t m idx kvs (e & u & n & l & -> & Hok)%rep_inv (tb & [= <-] & Hw) Hi. cbn [slots] in Hw.
  pose proof (walk_getnext e M u n l m Hok idx kvs Hi Hw) as Hg. destruct kvs as [|[k v] kvs].
  - exists (HS ENOENT (Some (Tbl M u n l))). split; [by exists (Tbl M u n l)|]. by split.
  - exists (HS e (Some (Tbl M u n l))). split; [by exists (Tbl M u n l)|]. split; [done|].
    destruct Hg as (idx' & Hi' & Hw' & Hg). exists idx'. split; [done|]. split; [by exists (Tbl M u n l)|done].
Qed.
End HashArrStore.
