(* ===== verification/Shm.v ===== *)
(** * The agent's view of the shared table ([src/base/qconf_shm.cc])

    Values are stored behind their length and in front of a verification code (a copy of the value,
    or its MD5 when it is longer than 1024 bytes), which readers in other processes check, since they
    share no lock with the agent. When the table is full the agent evicts the least recently used keys
    ([class LRU]). The mutex of the file serializes the threads of the agent; here the operations are
    the critical sections, in the order a single thread runs them. *)

From S2P Require Import Prelude Common Md5 HashArr HashArrPut HashArrInv Format Store.

Module Shm.
Import Format.

Definition NEED_MD5_TBLLEN : Z := 1024.

(** ** The LRU list

    [lruMem] from front to back, its nodes with the identity an iterator has; [keyToIterator] maps a
    key to the identity of its node. *)
Record LRU := mkLRU {
  lruMem : list (nat * bytes);
  keyToIterator : gmap bytes nat;
  fresh_node : nat
}.

Definition new_LRU : LRU := mkLRU [] ∅ 0.

Section WithStore.
Context {T : Type} `{Store T}.

(** The table, and the instance pointer of [LRU]. *)
Record shm := mkShm { sh_tbl : T; lruInstance : option LRU }.

Abbreviation SHM := (SM shm).

Definition on_tbl {A} (c : SM T A) : SHM A := fun s =>
  match c (sh_tbl s) with Some (a, t) => Some (a, mkShm t (lruInstance s)) | None => None end.

Definition tbl_is_null : SHM bool := gets (fun s => s_null (sh_tbl s)).
Definition get_errno : SHM Z := gets (fun s => s_errno (sh_tbl s)).

Definition getInstance : SHM LRU := fun s =>
  match lruInstance s with
  | Some l => Some (l, s)
  | None => Some (new_LRU, mkShm (sh_tbl s) (Some new_LRU))
  end.

Definition set_LRU (l : LRU) : SHM unit := modify (fun s => mkShm (sh_tbl s) (Some l)).

Definition getRemoveKey (l : LRU) : bytes :=
  match last (lruMem l) with None => [] | Some (_, key) => key end.

(** [back] and [pop_back] of an empty list are undefined. *)
Definition removeKey : SHM bytes :=
  l ← getInstance;
  match last (lruMem l) with
  | None => undefined
  | Some (_, key) =>
      set_LRU (mkLRU (removelast (lruMem l)) (delete key (keyToIterator l)) (fresh_node l));;
      mret key
  end.

(** [lruMem.erase(it)]; [None] when the iterator points to no node of the list. *)
Fixpoint erase_node (it : nat) (mem : list (nat * bytes)) : option (list (nat * bytes)) :=
  match mem with
  | [] => None
  | (i, k) :: mem' => if decide (i = it) then Some mem' else
                      match erase_node it mem' with Some r => Some ((i, k) :: r) | None => None end
  end.

Definition push_front (key : bytes) (mem : list (nat * bytes)) (l : LRU) : LRU :=
  mkLRU ((fresh_node l, key) :: mem) (<[key := fresh_node l]> (keyToIterator l)) (S (fresh_node l)).

Definition visitKey (key : bytes) : SHM unit :=
  l ← getInstance;
  if decide (key = QCONF_KEY_TYPE_LOCAL_IDC) then mret tt else
  match keyToIterator l !! key with
  | None => set_LRU (push_front key (lruMem l) l)
  | Some it =>
      match erase_node it (lruMem l) with
      | None => undefined
      | Some mem => set_LRU (push_front key mem l)
      end
  end.

(** ** Stored values and their verification code *)

Definition with_code (val : bytes) : bytes :=
  let val_size := u32 (blen val) in
  let val_tmp := qconf_encode_num QCONF_VALUE_SIZE_LEN val_size ++ val in
  if NEED_MD5_TBLLEN <? val_size
  then val_tmp ++ Md5.md5_of (take (Z.to_nat val_size) val)
  else val_tmp ++ val.

(** The code and the new contents of [tblval]; [None] when the length field is read past the end. *)
Definition qconf_verify (tblval : bytes) : option (Z * bytes) :=
  if blen tblval <? Z.of_nat QCONF_VALUE_SIZE_LEN then None else
  let val_size := qconf_decode_num QCONF_VALUE_SIZE_LEN tblval 0 in
  let valstr := drop QCONF_VALUE_SIZE_LEN tblval in
  let veristr := drop (Z.to_nat val_size) valstr in
  if NEED_MD5_TBLLEN <? val_size then
    if blen tblval <? Z.of_nat QCONF_VALUE_SIZE_LEN + val_size + QCONF_MD5_INT_LEN
    then Some (QCONF_ERR_TBL_DATA_MESS, tblval) else
    let val_md5 := Md5.md5_of (take (Z.to_nat val_size) valstr) in
    if decide (val_md5 = take (Z.to_nat QCONF_MD5_INT_LEN) veristr)
    then Some (QCONF_OK, take (Z.to_nat val_size) valstr)
    else Some (QCONF_ERR_TBL_DATA_MESS, tblval)
  else
    if blen tblval <? Z.of_nat QCONF_VALUE_SIZE_LEN + u32 (val_size * 2)
    then Some (QCONF_ERR_TBL_DATA_MESS, tblval) else
    if decide (take (Z.to_nat val_size) valstr = take (Z.to_nat val_size) veristr)
    then Some (QCONF_OK, take (Z.to_nat val_size) valstr)
    else Some (QCONF_ERR_TBL_DATA_MESS, tblval).

Definition verify (tblval : bytes) : SHM (Z * bytes) :=
  match qconf_verify tblval with Some r => mret r | None => undefined end.

(** ** Reading *)

Definition hash_tbl_get_ (key val : bytes) : SHM (Z * bytes) :=
  if decide (key = []) then mret (QCONF_ERR_PARAM, val) else
  val_tmp ← on_tbl (s_get key);
  match val_tmp with
  | None => mret (QCONF_ERR_NOT_FOUND, val)
  | Some val_tmp => mret (QCONF_OK, val_tmp)
  end.

Definition hash_tbl_get (key val : bytes) : SHM (Z * bytes) :=
  null ← tbl_is_null;
  if (null : bool) || bool_decide (key = []) then mret (QCONF_ERR_PARAM, val) else
  '(ret, val) ← hash_tbl_get_ key val;
  if ret =? QCONF_OK then verify val else mret (ret, val).

Definition hash_tbl_exist (key : bytes) : SHM bool :=
  null ← tbl_is_null;
  if (null : bool) || bool_decide (key = []) then mret false else on_tbl (s_exist key).

Definition hash_tbl_get_count : SHM (Z * Z * Z) :=
  null ← tbl_is_null;
  if (null : bool) then mret (-1, 0, 0) else on_tbl s_size.

(** ** Writing *)

Definition hash_tbl_remove (key : bytes) : SHM Z :=
  null ← tbl_is_null;
  if (null : bool) || bool_decide (key = []) then mret QCONF_ERR_PARAM else
  ret ← on_tbl (s_remove key);
  if (ret : bool) then mret QCONF_OK else
  errno ← get_errno;
  mret (if errno =? ENOENT then QCONF_OK else QCONF_ERR_OTHER).

(** The eviction loop of [hash_tbl_set_]; [ret] is the result of the last [qhasharr_put]. *)
Fixpoint evict (fuel : nat) (key val : bytes) (ret : bool) : SHM bool :=
  match fuel with
  | O => undefined
  | S fuel' =>
      errno ← get_errno;
      if negb ret && (errno =? ENOBUFS) then
        l ← getInstance;
        let key_out := getRemoveKey l in
        on_tbl (s_set_errno 0);;
        removeRet ← hash_tbl_remove key_out;
        if removeRet =? QCONF_OK then
          removeKey;;
          ret ← on_tbl (s_put key val);
          evict fuel' key val ret
        else mret ret
      else mret ret
  end.

Definition lru_length : SHM nat :=
  gets (fun s => match lruInstance s with Some l => length (lruMem l) | None => O end).

Definition hash_tbl_set_ (key val : bytes) : SHM Z :=
  if decide (key = []) then mret QCONF_ERR_PARAM else
  ret ← on_tbl (s_put key val);
  n ← lru_length;
  ret ← evict (S (S n)) key val ret;
  if (ret : bool) then visitKey key;; mret QCONF_OK else mret QCONF_ERR_TBL_SET.

Definition hash_tbl_set (key val : bytes) : SHM Z :=
  null ← tbl_is_null;
  if (null : bool) || bool_decide (key = []) then mret QCONF_ERR_PARAM else
  '(ret, val_in_mem) ← hash_tbl_get key [];
  if (ret =? QCONF_OK) && bool_decide (val = val_in_mem) then mret QCONF_ERR_SAME_VALUE else
  hash_tbl_set_ key (with_code val).

Definition hash_tbl_clear : SHM Z :=
  null ← tbl_is_null;
  if (null : bool) then mret QCONF_ERR_PARAM else on_tbl s_clear;; mret QCONF_OK.

(** ** The local idc *)

Definition qconf_get_localidc (local_idc : bytes) : SHM (Z * bytes) :=
  null ← tbl_is_null;
  if (null : bool) then mret (QCONF_ERR_PARAM, local_idc) else
  let '(_, tblkey) := serialize_to_tblkey QCONF_DATA_TYPE_LOCAL_IDC [] [] in
  '(ret, tblval) ← hash_tbl_get tblkey [];
  if ret =? QCONF_OK then mret (tblval_to_localidc tblval local_idc) else mret (ret, local_idc).

Definition qconf_update_localidc (local_idc : bytes) : SHM Z :=
  null ← tbl_is_null;
  if (null : bool) || bool_decide (local_idc = []) then mret QCONF_ERR_PARAM else
  let '(_, tblkey) := serialize_to_tblkey QCONF_DATA_TYPE_LOCAL_IDC [] [] in
  let tblval := localidc_to_tblval tblkey local_idc in
  ret ← hash_tbl_set tblkey tblval;
  mret (if ret =? QCONF_ERR_SAME_VALUE then QCONF_OK else ret).

Definition qconf_exist_tblkey (key : bytes) (status : bool) : SHM (Z * bool) :=
  null ← tbl_is_null;
  if (null : bool) || bool_decide (key = []) then mret (QCONF_ERR_PARAM, status) else
  '(ret, _) ← hash_tbl_get key [];
  if ret =? QCONF_OK then mret (QCONF_OK, true)
  else if ret =? QCONF_ERR_NOT_FOUND then mret (QCONF_OK, false)
  else mret (ret, status).

(** ** Walking the table *)

(** The idc and path that end a value of the type of its (cut) key. *)
Definition key_of_val (data_type : byte) (tblval : bytes) : Z * (bytes * bytes) :=
  if decide (data_type = QCONF_DATA_TYPE_NODE) then
    let '(ret, (_, idc, path)) := tblval_to_nodeval_key tblval [] [] [] in (ret, (idc, path))
  else if decide (data_type = QCONF_DATA_TYPE_SERVICE) then
    let '(ret, (_, idc, path)) := tblval_to_vectorval (fun _ => true) QCONF_DATA_TYPE_SERVICE tblval (SV 0 []) [] [] in
    (ret, (idc, path))
  else if decide (data_type = QCONF_DATA_TYPE_BATCH_NODE) then
    let '(ret, (_, idc, path)) := tblval_to_vectorval (fun _ => true) QCONF_DATA_TYPE_BATCH_NODE tblval (SV 0 []) [] [] in
    (ret, (idc, path))
  else if decide (data_type = QCONF_DATA_TYPE_ZK_HOST) then
    let '(ret, (_, idc)) := tblval_to_idcval tblval [] [] in (ret, (idc, []))
  else if decide (data_type = QCONF_DATA_TYPE_LOCAL_IDC) then (QCONF_OK, ([], []))
  else (QCONF_ERR_DATA_TYPE, ([], [])).

(** The code, and the new [tblkey], [tblval] and [idx]. *)
Definition hash_tbl_getnext (tblkey tblval : bytes) (idx : Z) : SHM (Z * (bytes * bytes * Z)) :=
  null ← tbl_is_null;
  if (null : bool) then mret (QCONF_ERR_PARAM, (tblkey, tblval, idx)) else
  '(obj, idx) ← on_tbl (s_getnext idx);
  match obj with
  | None =>
      errno ← get_errno;
      '(_, maxslots, _) ← on_tbl s_size;
      let idx := idx + 1 in
      if (errno =? ENOENT) && (idx =? maxslots + 1)
      then mret (QCONF_ERR_TBL_END, (tblkey, tblval, idx))
      else mret (QCONF_ERR_NOT_FOUND, (tblkey, tblval, idx))
  | Some (name, data) =>
      '(ret, tblval) ← verify data;
      if negb (ret =? QCONF_OK) then mret (ret, (tblkey, tblval, idx)) else
      let tblkey := name in
      let data_type := get_data_type tblkey in
      let '(ret, (idc, path)) := key_of_val data_type tblval in
      if ret =? QCONF_OK
      then mret (ret, ((serialize_to_tblkey data_type idc path).2, tblval, idx))
      else mret (ret, (tblkey, tblval, idx))
  end.

(** The loop of [LRU::initLruMem]. *)
Fixpoint init_loop (fuel : nat) (max_slots : Z) (tblkey tblval : bytes) (idx : Z) : SHM bool :=
  match fuel with
  | O => undefined
  | S fuel' =>
      if idx <? max_slots then
        '(ret, (tblkey, tblval, idx)) ← hash_tbl_getnext tblkey tblval idx;
        if ret =? QCONF_OK then
          let '(_, (_, _, path)) := deserialize_from_tblkey tblkey x00 [] [] in
          (if decide (path = []) then mret tt else visitKey tblkey);;
          init_loop fuel' max_slots tblkey tblval idx
        else if ret =? QCONF_ERR_TBL_END then init_loop fuel' max_slots tblkey tblval idx
        else mret false
      else mret true
  end.

Definition initLruMem : SHM bool :=
  '(_, max_slots, _) ← hash_tbl_get_count;
  init_loop (S (Z.to_nat max_slots)) max_slots [] [] 0.

End WithStore.
Arguments shm T : clear implicits.
End Shm.
