(* ===== verification/ShmThm.v ===== *)
(** * Correctness of the shared table as the agent and the drivers use it *)

From S2P Require Import Prelude Common Md5 HashArr HashArrInv HashArrPut HashArrThm Format FormatThm Store Shm.
Import Format Shm.

(** ** The verification code *)

Definition code_of (v : bytes) : bytes :=
  if NEED_MD5_TBLLEN <? blen v then Md5.md5_of v else v.

Lemma with_code_eq v :
  blen v < 2 ^ 32 -> with_code v = field QCONF_VALUE_SIZE_LEN v ++ code_of v.
Proof.
  intros Hv. unfold with_code, code_of, field, qconf_encode_num. pose proof (blen_nonneg v).
  rewrite u32_small by lia. rewrite take_ge by (unfold blen; lia).
  destruct (NEED_MD5_TBLLEN <? blen v); by rewrite <- app_assoc.
Qed.

Lemma blen_code v : blen v + blen (code_of v) = if NEED_MD5_TBLLEN <? blen v then blen v + 16 else 2 * blen v.
Proof.
  unfold code_of. destruct (NEED_MD5_TBLLEN <? blen v); [|lia].
  unfold blen at 2. by rewrite Md5.length_md5_of.
Qed.

(** A value stored with its verification code is accepted, also when other bytes follow. *)
Lemma verify_code v rest :
  blen v < 2 ^ 32 -> qconf_verify (with_code v ++ rest) = Some (QCONF_OK, v).
Proof.
  intros Hv. rewrite with_code_eq by done. unfold qconf_verify. set (tv := _ ++ rest).
  pose proof (blen_nonneg v). pose proof (blen_nonneg rest). pose proof (blen_code v) as Hc.
  assert (Hl : blen tv = 4 + blen v + blen (code_of v) + blen rest).
  { unfold tv. rewrite !blen_app, blen_field. change (Z.of_nat QCONF_VALUE_SIZE_LEN) with 4. lia. }
  rewrite Hl. change (Z.of_nat QCONF_VALUE_SIZE_LEN) with 4. pose proof (blen_nonneg (code_of v)).
  destruct (Z.ltb_spec (4 + blen v + blen (code_of v) + blen rest) 4); [lia|].
  assert (Hd : qconf_decode_num QCONF_VALUE_SIZE_LEN tv 0 = blen v).
  { unfold tv, field. rewrite <- !app_assoc.
    change (qconf_decode_num ?w ?l 0) with (qconf_decode_num w ([] ++ l) (blen (@nil byte))).
    apply decode_num_at. width. }
  rewrite Hd.
  assert (Hvs : drop QCONF_VALUE_SIZE_LEN tv = v ++ code_of v ++ rest).
  { unfold tv, field. rewrite <- !app_assoc. apply drop_app_length'. by rewrite length_le_bytes. }
  rewrite Hvs. rewrite drop_blen.
  assert (Ht : take (Z.to_nat (blen v)) (v ++ code_of v ++ rest) = v).
  { apply take_app_length'. unfold blen. lia. }
  rewrite Ht. unfold code_of in *. destruct (Z.ltb_spec NEED_MD5_TBLLEN (blen v)) as [Hb|Hb].
  - destruct (Z.ltb_spec (4 + blen v + blen (Md5.md5_of v) + blen rest) (4 + blen v + QCONF_MD5_INT_LEN)).
    { unfold QCONF_MD5_INT_LEN in *. lia. }
    rewrite decide_True; [done|]. rewrite take_app_length'; [done|]. by rewrite Md5.length_md5_of.
  - rewrite u32_small by (unfold NEED_MD5_TBLLEN in *; lia).
    destruct (Z.ltb_spec (4 + blen v + blen v + blen rest) (4 + blen v * 2)); [lia|].
    rewrite decide_True; [done|]. symmetry. apply take_app_length'. unfold blen. lia.
Qed.

(** Only such strings are accepted. *)
Lemma verify_accepts tblval v :
  qconf_verify tblval = Some (QCONF_OK, v) ->
  blen v < 2 ^ 32 /\ exists rest, tblval = field QCONF_VALUE_SIZE_LEN v ++ code_of v ++ rest.
Proof.
  unfold qconf_verify. destruct (Z.ltb_spec (blen tblval) (Z.of_nat QCONF_VALUE_SIZE_LEN)) as [|H4]; [done|].
  set (num := qconf_decode_num QCONF_VALUE_SIZE_LEN tblval 0). set (vs := drop QCONF_VALUE_SIZE_LEN tblval).
  assert (Hhd : tblval = le_bytes QCONF_VALUE_SIZE_LEN num ++ vs).
  { unfold num, qconf_decode_num. change (Z.to_nat 0) with 0%nat. unfold sub_bytes. rewrite drop_0.
    replace QCONF_VALUE_SIZE_LEN with (length (take QCONF_VALUE_SIZE_LEN tblval)) at 1.
    - rewrite le_bytes_num. unfold vs. by rewrite take_drop.
    - rewrite length_take. unfold blen in H4. lia. }
  assert (Hr : 0 <= num < 2 ^ 32).
  { unfold num, qconf_decode_num. match goal with |- context [le_num ?l] => pose proof (le_num_range l) as Hr;
      assert (length l = 4%nat) as Hl4 by (apply sub_bytes_length; unfold blen in *; width) end.
    unfold blen in Hr. rewrite Hl4 in Hr. done. }
  assert (Hvl : blen tblval = 4 + blen vs).
  { rewrite Hhd at 1. rewrite blen_app. unfold blen at 1. rewrite length_le_bytes. done. }
  assert (Hcut : forall w code, w = take (Z.to_nat num) vs -> num <= blen vs ->
            code_of w = code -> (exists rest, drop (Z.to_nat num) vs = code ++ rest) ->
            blen w < 2 ^ 32 /\ exists rest, tblval = field QCONF_VALUE_SIZE_LEN w ++ code_of w ++ rest).
  { intros w code -> Hle <- (rest & Hrest). split; [unfold blen in *; rewrite length_take; lia|]. exists rest. rewrite Hhd at 1. unfold field.
    replace (blen (take (Z.to_nat num) vs)) with num by (unfold blen in *; rewrite length_take; lia).
    rewrite <- app_assoc. f_equal. by rewrite <- Hrest, take_drop. }
  assert (Hlw : num <= blen vs -> blen (take (Z.to_nat num) vs) = num)
    by (intros; unfold blen in *; rewrite length_take; lia).
  unfold QCONF_MD5_INT_LEN. change (Z.of_nat QCONF_VALUE_SIZE_LEN) with 4.
  destruct (Z.ltb_spec NEED_MD5_TBLLEN num) as [Hbig|Hsmall].
  - destruct (Z.ltb_spec (blen tblval) (4 + num + 16)); [done|]. case_decide as Hmd; [|done]. intros [= <-].
    apply (Hcut _ (Md5.md5_of (take (Z.to_nat num) vs))); [done|lia| |].
    + unfold code_of. rewrite Hlw by lia. destruct (Z.ltb_spec NEED_MD5_TBLLEN num); [done|lia].
    + exists (drop 16 (drop (Z.to_nat num) vs)). rewrite Hmd. by rewrite take_drop.
  - assert (num <= 1024) by (unfold NEED_MD5_TBLLEN in *; lia). rewrite u32_small by lia.
    destruct (Z.ltb_spec (blen tblval) (4 + num * 2)); [done|]. case_decide as Heq; [|done]. intros [= <-].
    apply (Hcut _ (take (Z.to_nat num) vs)); [done|lia| |].
    + unfold code_of. rewrite Hlw by lia. destruct (Z.ltb_spec NEED_MD5_TBLLEN num); [lia|done].
    + exists (drop (Z.to_nat num) (drop (Z.to_nat num) vs)). rewrite Heq. by rewrite take_drop.
Qed.

(** C20. Whatever bytes a reader finds in the table, [qconf_verify] accepts them with value [v] exactly when
    they are the 32-bit length of [v], [v], and its verification code (a copy of [v], or its MD5 when it
    is longer than 1024 bytes), followed by anything. *)
Theorem verify_exact tblval v :
  qconf_verify tblval = Some (QCONF_OK, v) <->
  blen v < 2 ^ 32 /\ exists rest, tblval = field QCONF_VALUE_SIZE_LEN v ++ code_of v ++ rest.
Proof.
  split; [apply verify_accepts|]. intros (Hv & rest & ->). rewrite app_assoc, <- with_code_eq by done.
  by apply verify_code.
Qed.

(** ** The LRU list refines a list of distinct keys *)

Definition lru_keys (l : LRU) : list bytes := (lruMem l).*2.

Record lru_ok (l : LRU) : Prop := {
  lo_ids : NoDup (lruMem l).*1;
  lo_keys : NoDup (lru_keys l);
  lo_map : forall k i, keyToIterator l !! k = Some i <-> (i, k) ∈ lruMem l;
  lo_fresh : forall i k, (i, k) ∈ lruMem l -> (i < fresh_node l)%nat;
  lo_idc : QCONF_KEY_TYPE_LOCAL_IDC ∉ lru_keys l
}.

Definition the_lru {T} `{Store T} (s : shm T) : LRU := default new_LRU (lruInstance s).

Lemma new_LRU_ok : lru_ok new_LRU.
Proof.
  split; cbn; [constructor|constructor| |by intros ? ? ?%elem_of_nil|apply not_elem_of_nil].
  intros k i. rewrite lookup_empty. split; [done|by intros ?%elem_of_nil].
Qed.

Lemma filter_id {A} (P : A -> Prop) `{forall x, Decision (P x)} (l : list A) :
  (forall x, x ∈ l -> P x) -> filter P l = l.
Proof.
  induction l as [|a l IH]; intros Hall; [done|].
  rewrite filter_cons_True by (apply Hall; left). f_equal. apply IH. intros. apply Hall. by right.
Qed.

Lemma erase_node_ok it k mem :
  NoDup mem.*1 -> NoDup mem.*2 -> (it, k) ∈ mem ->
  exists mem', erase_node it mem = Some mem' /\ mem'.*2 = filter (fun x => x <> k) mem.*2 /\
    (forall i x, (i, x) ∈ mem' <-> (i, x) ∈ mem /\ x <> k) /\ NoDup mem'.*1.
Proof.
  induction mem as [|[i x] mem IH]; intros Hi Hk Hin; [by apply elem_of_nil in Hin|].
  cbn [fmap list_fmap] in *. simpl in Hi, Hk. apply NoDup_cons in Hi as [Hi1 Hi2]. apply NoDup_cons in Hk as [Hk1 Hk2].
  cbn [erase_node]. destruct (decide (i = it)) as [->|Hne].
  - assert (x = k) as ->.
    { apply elem_of_cons in Hin as [[= ->]|Hin]; [done|]. destruct Hi1. apply list_elem_of_fmap. by exists (it, k). }
    assert (Hnot : forall j y, (j, y) ∈ mem -> y <> k).
    { intros j y Hjy ->. destruct Hk1. apply list_elem_of_fmap. by exists (j, k). }
    exists mem. split; [done|]. split; [|split; [|done]].
    + simpl. rewrite filter_cons_False by tauto. symmetry. apply filter_id.
      intros y (p & -> & Hp)%list_elem_of_fmap. destruct p as [j y]. by apply (Hnot j).
    + intros j y. rewrite elem_of_cons. split; [intros Hjy; split; [by right|by apply (Hnot j)]|].
      intros [[[= -> ->]|?] ?]; done.
  - assert (Hin' : (it, k) ∈ mem) by (apply elem_of_cons in Hin as [[= -> ->]|?]; done).
    assert (Hxk : x <> k).
    { intros ->. apply Hk1. apply list_elem_of_fmap. by exists (it, k). }
    destruct (IH Hi2 Hk2 Hin') as (mem' & -> & Hf & Hel & Hnd). exists ((i, x) :: mem'). split; [done|].
    split; [|split].
    + simpl. rewrite filter_cons_True by done. f_equal. exact Hf.
    + intros j y. rewrite !elem_of_cons, Hel. split.
      * intros [[= -> ->]|[? ?]]; [split; [by left|done]|split; [by right|done]].
      * intros [[[= -> ->]|?] ?]; [by left|by right].
    + simpl. constructor; [|done]. intros (p & Ep & Hp)%list_elem_of_fmap. destruct p as [j y]. simpl in Ep. subst.
      apply Hel in Hp as [Hp _]. apply Hi1. apply list_elem_of_fmap. by exists (j, y).
Qed.

Section Lru.
Context {T : Type} `{Store T}.
Implicit Types s : shm T.

Lemma getInstance_ok s :
  getInstance s = Some (the_lru s, mkShm (sh_tbl s) (Some (the_lru s))).
Proof. unfold getInstance, the_lru. destruct s as [t [l|]]; done. Qed.

Definition visited (key : bytes) (ks : list bytes) : list bytes :=
  if decide (key = QCONF_KEY_TYPE_LOCAL_IDC) then ks else key :: filter (fun x => x <> key) ks.

Lemma visitKey_ok key s :
  lru_ok (the_lru s) ->
  exists l', visitKey key s = Some (tt, mkShm (sh_tbl s) (Some l')) /\ lru_ok l' /\
    lru_keys l' = visited key (lru_keys (the_lru s)).
Proof.
  intros [Hi Hk Hm Hf Ha]. set (l := the_lru s) in *. unfold visitKey.
  rewrite (SM_bind_Some _ _ _ _ _ (getInstance_ok s)). fold l. unfold visited.
  case_decide as Hidc; [exists l; split; [done|]; split; [by split|done]|].
  assert (Hpush : forall mem', mem'.*2 = filter (fun x => x <> key) (lru_keys l) -> NoDup mem'.*1 ->
    (forall i x, (i, x) ∈ mem' <-> (i, x) ∈ lruMem l /\ x <> key) -> lru_ok (push_front key mem' l)).
  { intros mem' Hks Hnd Hel. split; cbn [push_front lruMem keyToIterator fresh_node lru_keys fmap list_fmap fst snd].
    - constructor; [|done]. intros ([i x] & Ei & Hix)%list_elem_of_fmap. simpl in Ei.
      apply Hel in Hix as [Hix _]. apply Hf in Hix. lia.
    - change (NoDup (key :: mem'.*2)). rewrite Hks. constructor; [|by apply NoDup_filter].
      rewrite list_elem_of_filter. tauto.
    - intros k i. rewrite lookup_insert, elem_of_cons, Hel. case_decide as Ek; subst.
      + split; [intros [= ->]; by left|]. intros [[= ->]|[_ ?]]; done.
      + rewrite Hm. split; [intros; right; split; [done|congruence]|]. intros [[= _ ->]|[? _]]; done.
    - intros i k [[= -> ->]|Hix]%elem_of_cons; [lia|]. apply Hel in Hix as [Hix _]. apply Hf in Hix. lia.
    - change (QCONF_KEY_TYPE_LOCAL_IDC ∉ key :: mem'.*2). rewrite Hks, not_elem_of_cons, list_elem_of_filter.
      split; [congruence|]. intros [_ ?]. done. }
  destruct (keyToIterator l !! key) as [it|] eqn:Elk.
  - apply Hm in Elk. destruct (erase_node_ok it key (lruMem l) Hi Hk Elk) as (mem' & Her & Hks & Hel & Hnd).
    rewrite Her. exists (push_front key mem' l). split; [done|]. split; [by apply Hpush|].
    change (key :: mem'.*2 = key :: filter (fun x => x <> key) (lru_keys l)). by rewrite Hks.
  - assert (Hno : forall i x, (i, x) ∈ lruMem l -> x <> key).
    { intros i x Hix ->. apply Hm in Hix. congruence. }
    assert (Hks : (lruMem l).*2 = filter (fun x => x <> key) (lru_keys l)).
    { symmetry. apply filter_id. intros y ([j z] & -> & Hp)%list_elem_of_fmap. by apply (Hno j). }
    exists (push_front key (lruMem l) l). split; [done|]. split.
    + apply Hpush; [done|done|]. intros i x. split; [eauto|tauto].
    + change (key :: (lruMem l).*2 = key :: filter (fun x => x <> key) (lru_keys l)). by rewrite <- Hks.
Qed.

Lemma removeKey_ok s ks k :
  lru_ok (the_lru s) -> lru_keys (the_lru s) = ks ++ [k] ->
  exists l', removeKey s = Some (k, mkShm (sh_tbl s) (Some l')) /\ lru_ok l' /\ lru_keys l' = ks.
Proof.
  intros [Hi Hk Hm Hf Ha] Hks. set (l := the_lru s) in *. unfold removeKey.
  rewrite (SM_bind_Some _ _ _ _ _ (getInstance_ok s)). fold l.
  assert (exists mem i, lruMem l = mem ++ [(i, k)] /\ mem.*2 = ks) as (mem & i & El & Emem).
  { unfold lru_keys in Hks. destruct (exists_last (l := lruMem l)) as (mem & [i k'] & El).
    - intros E. rewrite E in Hks. by destruct ks.
    - rewrite El, fmap_app in Hks. apply app_inj_tail in Hks as [Hks [= ->]]. eauto. }
  rewrite El, last_snoc. rewrite List.removelast_last.
  unfold lru_keys in Hk, Ha. rewrite El in Hi, Hk, Ha, Hm, Hf. rewrite fmap_app in Hi. rewrite fmap_app in Hk. rewrite fmap_app in Ha.
  apply NoDup_app in Hi as (Hi1 & _ & _). apply NoDup_app in Hk as (Hk1 & Hk2 & _).
  eexists. split; [done|]. split; [|done]. split; cbn [lruMem keyToIterator fresh_node lru_keys].
  - done.
  - done.
  - intros k' j. rewrite lookup_delete. case_decide as Ek; subst.
    + split; [done|]. intros Hin. exfalso. apply (Hk2 k'); [|set_solver]. apply list_elem_of_fmap. by exists (j, k').
    + rewrite Hm, elem_of_app, list_elem_of_singleton. split; [|by left]. intros [?|[= _ ?]]; [done|congruence].
  - intros j k' Hin. apply (Hf j k'). apply elem_of_app. by left.
  - intros Hin. apply Ha. apply elem_of_app. by left.
Qed.
End Lru.

(** ** The table holds a map of values *)

Section Table.
Context {T : Type} `{StoreLaws T}.
Implicit Types (s : shm T) (vm : gmap kid bytes).

(** The table stores the values of [vm] with their codes; the LRU list is well formed and knows no
    empty key. *)
Record shm_ok s vm : Prop := {
  sk_rep : s_rep (sh_tbl s) (with_code <$> vm);
  sk_vals : map_Forall (fun _ v => blen v < 2 ^ 32) vm;
  sk_lru : lru_ok (the_lru s);
  sk_nil : [] ∉ lru_keys (the_lru s)
}.

Lemma on_tbl_ok {A} (c : SM T A) s a t :
  c (sh_tbl s) = Some (a, t) -> on_tbl c s = Some (a, mkShm t (lruInstance s)).
Proof. intros E. unfold on_tbl. by rewrite E. Qed.

Lemma shm_not_null s vm : shm_ok s vm -> tbl_is_null s = Some (false, s).
Proof. intros [Hr _ _ _]. unfold tbl_is_null, gets. by rewrite (s_not_null _ _ Hr). Qed.

Lemma verify_stored v s : blen v < 2 ^ 32 -> verify (T := T) (with_code v) s = Some ((QCONF_OK, v), s).
Proof.
  intros Hv. unfold verify. pose proof (verify_code v [] Hv) as E. rewrite app_nil_r in E. by rewrite E.
Qed.

Lemma bool_decide_nil (key : bytes) : key <> [] -> bool_decide (key = []) = false.
Proof. apply bool_decide_eq_false_2. Qed.

(** What a reader sees. *)
Lemma hash_tbl_get_ok key val s vm :
  shm_ok s vm -> key <> [] ->
  exists t', hash_tbl_get key val s =
      Some (match vm !! s_ident key with Some v => (QCONF_OK, v) | None => (QCONF_ERR_NOT_FOUND, val) end,
            mkShm t' (lruInstance s)) /\
    s_rep t' (with_code <$> vm) /\ s_room t' = s_room (sh_tbl s) /\ s_same (sh_tbl s) t'.
Proof.
  intros Hok Hk. pose proof Hok as [Hr Hv _ _]. unfold hash_tbl_get.
  rewrite (SM_bind_Some _ _ _ _ _ (shm_not_null s vm Hok)). rewrite bool_decide_nil by done. cbn [orb].
  destruct (s_get_ok key (sh_tbl s) _ Hr) as (t' & Hg & Hr' & Hrm'). exists t'. split; [|done].
  unfold hash_tbl_get_. rewrite decide_False by done.
  rewrite lookup_fmap in Hg. destruct (vm !! s_ident key) as [v|] eqn:E; cbn in Hg.
  - erewrite SM_bind_Some; [|erewrite SM_bind_Some; [|by apply on_tbl_ok]; reflexivity].
    cbn [Z.eqb QCONF_OK]. apply verify_stored. by apply (Hv (s_ident key)).
  - erewrite SM_bind_Some; [|erewrite SM_bind_Some; [|by apply on_tbl_ok]; reflexivity]. done.
Qed.

Lemma hash_tbl_remove_ok key s vm :
  shm_ok s vm -> key <> [] ->
  exists t', hash_tbl_remove key s = Some (QCONF_OK, mkShm t' (lruInstance s)) /\
    s_rep t' (with_code <$> delete (s_ident key) vm).
Proof.
  intros Hok Hk. pose proof Hok as [Hr _ _ _]. unfold hash_tbl_remove.
  rewrite (SM_bind_Some _ _ _ _ _ (shm_not_null s vm Hok)). rewrite bool_decide_nil by done. cbn [orb].
  destruct (s_remove_ok key (sh_tbl s) _ Hr) as (t' & Hg & Hr' & He' & _).
  rewrite <- fmap_delete in Hr'. exists t'. split; [|done].
  erewrite SM_bind_Some; [|by apply on_tbl_ok].
  case_bool_decide as Hd; [done|]. rewrite decide_False in He' by done.
  unfold get_errno. erewrite SM_bind_Some; [|done]. cbn [sh_tbl]. by rewrite He'.
Qed.

Lemma shm_ok_tbl s vm t' vm' :
  shm_ok s vm -> s_rep t' (with_code <$> vm') -> map_Forall (fun _ v => blen v < 2 ^ 32) vm' ->
  shm_ok (mkShm t' (lruInstance s)) vm'.
Proof. intros [_ _ Hl Hn] Hr Hv. by split. Qed.

Lemma vals_delete vm k :
  map_Forall (fun _ v => blen v < 2 ^ 32) vm -> map_Forall (fun _ v => blen v < 2 ^ 32) (delete k vm).
Proof. apply map_Forall_delete. Qed.

Lemma blen_with_code v : blen v < 2 ^ 32 -> 0 < blen (with_code v).
Proof.
  intros Hv. rewrite with_code_eq, blen_app, blen_field by done.
  pose proof (blen_nonneg v). pose proof (blen_nonneg (code_of v)). width.
Qed.

(** [vm'] is [vm] with the keys [ev] gone and nothing else changed, but for [k0]. *)
Definition evicted (k0 : kid) (ev : list bytes) (vm vm' : gmap kid bytes) : Prop :=
  forall k, k <> k0 -> vm' !! k = if decide (k ∈ s_ident <$> ev) then None else vm !! k.

(** The value of a key is still there or gone; it is never another one. *)
Definition kept (k : kid) (vm vm' : gmap kid bytes) : Prop := vm' !! k = vm !! k \/ vm' !! k = None.

Lemma kept_trans (k : kid) (vm1 vm2 vm3 : gmap kid bytes) : kept k vm1 vm2 -> kept k vm2 vm3 -> kept k vm1 vm3.
Proof. unfold kept. intros [->|E] [?|?]; auto. rewrite E in *. auto. Qed.

Lemma kept_delete (k k' : kid) (vm : gmap kid bytes) : kept k vm (delete k' vm).
Proof. unfold kept. destruct (decide (k = k')) as [->|]; [right; apply lookup_delete_eq|left; by apply lookup_delete_ne]. Qed.

(** One call of [qhasharr_put] with a coded value. *)
Lemma put_coded key v s vm :
  shm_ok s vm -> blen key < 65536 -> blen v < 2 ^ 32 -> s_load (with_code <$> vm) key < 2 ^ 15 - 1 ->
  exists (r : bool) t' vm', on_tbl (s_put key (with_code v)) s = Some (r, mkShm t' (lruInstance s)) /\
    shm_ok (mkShm t' (lruInstance s)) vm' /\
    (slots_for (blen (with_code v)) <= s_room (sh_tbl s) -> r = true) /\
    (r = false -> s_errno t' = ENOBUFS) /\
    (r = true -> vm' !! s_ident key = Some v) /\ evicted (s_ident key) [] vm vm' /\
    (r = false -> s_load (with_code <$> vm') key < 2 ^ 15 - 1) /\ (r = false -> kept (s_ident key) vm vm').
Proof.
  intros Hok Hk Hv Hl. pose proof Hok as [Hr Hvs _ _].
  destruct (s_put_ok key (with_code v) (sh_tbl s) _ Hr Hk (blen_with_code v Hv) Hl) as (r & t' & Hrun & Hroom & He & Hres).
  exists r, t'. destruct r.
  - rewrite <- fmap_insert in Hres. exists (<[s_ident key := v]> vm). split; [by apply on_tbl_ok|].
    split; [apply (shm_ok_tbl s vm); [done|done|by apply map_Forall_insert_2]|].
    do 2 (split; [done|]). split; [intros; apply lookup_insert_eq|]. split; [|by split].
    intros k Hne. rewrite decide_False by set_solver. by rewrite lookup_insert_ne by congruence.
  - exists (if s_room (sh_tbl s) <=? 0 then vm else delete (s_ident key) vm).
    split; [by apply on_tbl_ok|]. split.
    { apply (shm_ok_tbl s vm); [done| |]; destruct (_ <=? 0); try done; [by rewrite fmap_delete|by apply vals_delete]. }
    do 2 (split; [done|]). split; [done|]. split.
    + intros k Hne. rewrite decide_False by set_solver. destruct (_ <=? 0); [done|].
      by rewrite lookup_delete_ne by congruence.
    + split; intros _; destruct (_ <=? 0); [done| |by left|apply kept_delete]. rewrite fmap_delete.
      eapply Z.le_lt_trans; [apply s_load_delete|done].
Qed.

(** ** Eviction *)

Lemma evict_ok fuel key v s vm (ret : bool) :
  shm_ok s vm -> blen key < 65536 -> blen v < 2 ^ 32 ->
  (ret = true -> vm !! s_ident key = Some v) ->
  (ret = false -> s_errno (sh_tbl s) = ENOBUFS /\ s_load (with_code <$> vm) key < 2 ^ 15 - 1) ->
  (length (lru_keys (the_lru s)) < fuel)%nat ->
  exists (r : bool) s' vm' ev, evict fuel key (with_code v) ret s = Some (r, s') /\ shm_ok s' vm' /\
    lru_keys (the_lru s) = lru_keys (the_lru s') ++ ev /\ evicted (s_ident key) ev vm vm' /\
    (r = true -> vm' !! s_ident key = Some v) /\ (r = false -> lru_keys (the_lru s') = [] /\ kept (s_ident key) vm vm') /\
    (ret = true -> r = true /\ ev = []).
Proof.
  revert s vm ret. induction fuel as [|fuel IH]; intros s vm ret Hok Hk Hv Ht Hf Hlen; [lia|].
  cbn [evict]. unfold get_errno at 1. rewrite (SM_bind_Some _ _ _ (s_errno (sh_tbl s)) s) by done.
  assert (Hid : evicted (s_ident key) [] vm vm).
  { intros k _. by rewrite decide_False by set_solver. }
  destruct ret.
  { exists true, s, vm, []. rewrite app_nil_r. cbn [negb andb]. repeat (split; [done|]). done. }
  destruct (Hf eq_refl) as [He Hload]. rewrite He, Z.eqb_refl. cbn [negb andb].
  rewrite (SM_bind_Some _ _ _ _ _ (getInstance_ok s)). cbv zeta.
  set (l := the_lru s) in *. set (s1 := mkShm (sh_tbl s) (Some l)).
  pose proof Hok as [Hr Hvs Hlru Hnil]. fold l in Hlru, Hnil.
  assert (Hok1 : shm_ok s1 vm) by (by split).
  destruct (s_set_errno_ok 0 (sh_tbl s) _ Hr) as (t2 & Hse & _ & Hr2 & _).
  erewrite SM_bind_Some; [|by apply on_tbl_ok]. cbn [lruInstance s1].
  assert (Hok2 : shm_ok (mkShm t2 (Some l)) vm) by (by apply (shm_ok_tbl s1 vm)).
  destruct (decide (lru_keys l = [])) as [Eks|Nks].
  - (* nothing left to evict *)
    assert (Hno : getRemoveKey l = []).
    { unfold getRemoveKey. unfold lru_keys in Eks. by destruct (lruMem l). }
    rewrite Hno. erewrite SM_bind_Some.
    2:{ unfold hash_tbl_remove. rewrite (SM_bind_Some _ _ _ _ _ (shm_not_null _ vm Hok2)). done. }
    cbn [Z.eqb QCONF_ERR_PARAM QCONF_OK]. exists false, (mkShm t2 (Some l)), vm, []. rewrite app_nil_r.
    do 5 (split; [done|]). split; [|done]. split; [done|by left].
  - destruct (exists_last Nks) as (ks & k0 & Eks).
    assert (Hk0 : getRemoveKey l = k0).
    { unfold getRemoveKey. unfold lru_keys in Eks. destruct (last (lruMem l)) as [[i k']|] eqn:El.
      - apply (f_equal last) in Eks. rewrite last_snoc, fmap_last, El in Eks. by injection Eks.
      - apply last_None in El. by rewrite El in Eks; destruct ks. }
    rewrite Hk0. assert (Hk0n : k0 <> []) by (intros ->; apply Hnil; rewrite Eks; apply elem_of_app; right; by apply list_elem_of_singleton).
    destruct (hash_tbl_remove_ok k0 _ vm Hok2 Hk0n) as (t3 & Hrm & Hr3).
    erewrite SM_bind_Some; [|exact Hrm]. cbn [Z.eqb QCONF_OK lruInstance].
    assert (Hok3 : shm_ok (mkShm t3 (Some l)) (delete (s_ident k0) vm)).
    { apply (shm_ok_tbl (mkShm t2 (Some l)) vm); [done|done|by apply vals_delete]. }
    destruct (removeKey_ok (mkShm t3 (Some l)) ks k0 Hlru Eks) as (l4 & Hrk & Hl4 & Ek4).
    erewrite SM_bind_Some; [|exact Hrk]. cbn [sh_tbl].
    assert (Hok4 : shm_ok (mkShm t3 (Some l4)) (delete (s_ident k0) vm)).
    { destruct Hok3 as [? ? _ _]. split; try done. change (the_lru _) with l4. rewrite Ek4.
      intros Hin. apply Hnil. rewrite Eks. apply elem_of_app. by left. }
    destruct (put_coded key v (mkShm t3 (Some l4)) _ Hok4 Hk Hv) as (r & t5 & vm5 & Hput & Hok5 & _ & He5 & Ht5 & Hev5 & Hl5 & Hkept5).
    { rewrite fmap_delete. eapply Z.le_lt_trans; [apply s_load_delete|done]. }
    erewrite SM_bind_Some; [|exact Hput]. cbn [lruInstance] in *.
    destruct (IH (mkShm t5 (Some l4)) vm5 r Hok5 Hk Hv Ht5) as (r' & s' & vm' & ev & Hrun & Hok' & Hks & Hev & Htr & Hfl & Hfirst).
    { intros ->. cbn. auto. }
    { change (the_lru _) with l4. rewrite Ek4. rewrite Eks, length_app in Hlen. simpl in Hlen. lia. }
    change (the_lru (mkShm t5 (Some l4))) with l4 in *. rewrite Ek4 in Hks.
    exists r', s', vm', (ev ++ [k0]). split; [exact Hrun|]. split; [done|].
    split; [by rewrite Eks, Hks, <- app_assoc|]. split.
    2:{ split; [done|]. split; [|done]. intros ->. destruct (Hfl eq_refl) as [? Hk']. split; [done|].
        destruct r; [by destruct (Hfirst eq_refl)|]. apply (kept_trans _ _ (delete (s_ident k0) vm)); [apply kept_delete|].
        by apply (kept_trans _ _ vm5); [apply Hkept5|]. }
    intros k Hne. rewrite (Hev k Hne), (Hev5 k Hne), fmap_app. clear -k0.
    rewrite (decide_False (P := k ∈ s_ident <$> [])) by apply not_elem_of_nil.
    rewrite lookup_delete. destruct (decide (k ∈ s_ident <$> ev)) as [Hi|Hi].
    + rewrite decide_True; [done|]. apply elem_of_app. by left.
    + destruct (decide (s_ident k0 = k)) as [<-|Hd].
      * rewrite decide_True; [done|]. apply elem_of_app. right. by apply list_elem_of_singleton.
      * rewrite decide_False; [done|]. rewrite elem_of_app. intros [?|Hin]; [done|].
        apply list_elem_of_singleton in Hin. congruence.
Qed.

(** The three outcomes of storing a value. *)
Definition set_outcome key val s vm ret s' vm' ev : Prop :=
  (ret = QCONF_ERR_SAME_VALUE /\ vm !! s_ident key = Some val /\ vm' = vm /\ ev = [] /\
     lru_keys (the_lru s') = lru_keys (the_lru s)) \/
  (ret = QCONF_OK /\ vm' !! s_ident key = Some val /\
     exists ks, lru_keys (the_lru s) = ks ++ ev /\ lru_keys (the_lru s') = visited key ks) \/
  (ret = QCONF_ERR_TBL_SET /\ lru_keys (the_lru s') = [] /\ lru_keys (the_lru s) = ev /\ kept (s_ident key) vm vm').

Lemma hash_tbl_set_ok key val s vm :
  shm_ok s vm -> key <> [] -> blen key < 65536 -> blen val < 2 ^ 32 ->
  s_load (with_code <$> vm) key < 2 ^ 15 - 1 ->
  exists ret s' vm' ev, hash_tbl_set key val s = Some (ret, s') /\ shm_ok s' vm' /\
    set_outcome key val s vm ret s' vm' ev /\ evicted (s_ident key) ev vm vm' /\
    (slots_for (blen (with_code val)) <= s_room (sh_tbl s) -> ev = [] /\ ret <> QCONF_ERR_TBL_SET).
Proof.
  intros Hok Hkn Hk Hv Hload. unfold hash_tbl_set.
  rewrite (SM_bind_Some _ _ _ _ _ (shm_not_null s vm Hok)). rewrite bool_decide_nil by done. cbn [orb].
  destruct (hash_tbl_get_ok key [] s vm Hok Hkn) as (t1 & Hget & Hr1 & Hroom1 & _).
  erewrite SM_bind_Some; [|exact Hget]. set (s1 := mkShm t1 (lruInstance s)).
  assert (Hok1 : shm_ok s1 vm) by (apply (shm_ok_tbl s vm); [done|done|apply Hok]).
  assert (Hsame : evicted (s_ident key) [] vm vm).
  { intros k _. by rewrite decide_False by apply not_elem_of_nil. }
  destruct (decide (vm !! s_ident key = Some val)) as [Esame|Nsame].
  { rewrite Esame. cbn [Z.eqb QCONF_OK andb]. rewrite bool_decide_eq_true_2 by done.
    exists QCONF_ERR_SAME_VALUE, s1, vm, []. do 2 (split; [done|]). split; [left; done|]. split; [done|]. done. }
  match goal with |- context [let '(a, b) := ?m in _] => destruct m as [ret0 v0] eqn:Em end.
  assert (Hneq : (ret0 =? QCONF_OK) && bool_decide (val = v0) = false).
  { apply andb_false_iff. destruct (vm !! s_ident key) as [w|]; injection Em as <- <-; [right|by left].
    apply bool_decide_eq_false. congruence. }
  rewrite Hneq. unfold hash_tbl_set_. rewrite decide_False by done.
  destruct (put_coded key val s1 vm Hok1 Hk Hv Hload) as (r & t2 & vm2 & Hput & Hok2 & Hroom & He & Ht & Hev & Hl2 & Hkept2).
  erewrite SM_bind_Some; [|exact Hput]. set (s2 := mkShm t2 (lruInstance s1)) in *.
  unfold lru_length at 1. rewrite (SM_bind_Some _ _ _ _ s2 eq_refl).
  set (n := match lruInstance s2 with Some l => length (lruMem l) | None => 0%nat end).
  assert (Hn : length (lru_keys (the_lru s2)) = n).
  { unfold n, lru_keys, the_lru. rewrite length_fmap. by destruct (lruInstance s2). }
  destruct (evict_ok (S (S n)) key val s2 vm2 r Hok2 Hk Hv Ht) as (r' & s3 & vm3 & ev & Hrun & Hok3 & Hks & Hev3 & Ht3 & Hf3 & Hrr);
    [intros ->; by auto|lia|].
  erewrite SM_bind_Some; [|exact Hrun].
  assert (Hevs : evicted (s_ident key) ev vm vm3).
  { intros k Hne. rewrite (Hev3 k Hne), (Hev k Hne). by rewrite (decide_False (P := k ∈ s_ident <$> [])) by apply not_elem_of_nil. }
  change (the_lru s2) with (the_lru s) in Hks.
  destruct r'.
  - destruct (visitKey_ok key s3 (sk_lru _ _ Hok3)) as (l4 & Hvis & Hl4 & Hk4).
    erewrite SM_bind_Some; [|exact Hvis]. exists QCONF_OK, (mkShm (sh_tbl s3) (Some l4)), vm3, ev. split; [done|].
    split.
    { destruct Hok3 as [? ? ? Hnil]. split; try done. change (the_lru _) with l4. rewrite Hk4. unfold visited.
      destruct (decide (key = QCONF_KEY_TYPE_LOCAL_IDC)); [done|]. rewrite not_elem_of_cons, list_elem_of_filter. split; [congruence|]. by intros [_ ?]. }
    split; [right; left; split; [done|]; split; [by apply Ht3|]; by exists (lru_keys (the_lru s3))|].
    split; [done|]. intros Hfit. split; [|done]. apply Hrr, Hroom. cbn. by rewrite Hroom1.
  - exists QCONF_ERR_TBL_SET, s3, vm3, ev. do 2 (split; [done|]). split; [right; right|].
    { destruct (Hf3 eq_refl) as [Eks Hkept3]. split; [done|]. split; [done|]. split; [by rewrite Hks, Eks|].
      destruct r; [by destruct (Hrr eq_refl)|]. by apply (kept_trans _ _ vm2); [apply Hkept2|]. }
    split; [done|]. intros Hfit. assert (r = true) as Er by (apply Hroom; cbn; by rewrite Hroom1).
    by destruct (Hrr Er) as [? _].
Qed.

(** C2. [hash_tbl_set] always returns (the eviction loop ends), and one of three things happened: the value
    was already there and nothing changed; the value is stored and is what [hash_tbl_get] now returns,
    the key is the most recently used one, and at most the least recently used keys were evicted; or
    the table could not take the value even with every evictable key gone, and the key then has its old
    value or none. Every other key keeps its value, and nothing is evicted while the value's slots are
    free. *)
Theorem hash_tbl_set_correct key val s vm :
  shm_ok s vm -> key <> [] -> blen key < 65536 -> blen val < 2 ^ 32 ->
  s_load (with_code <$> vm) key < 2 ^ 15 - 1 ->
  exists ret s' vm' ev, hash_tbl_set key val s = Some (ret, s') /\ shm_ok s' vm' /\
    set_outcome key val s vm ret s' vm' ev /\ evicted (s_ident key) ev vm vm' /\
    (slots_for (blen (with_code val)) <= s_room (sh_tbl s) -> ev = [] /\ ret <> QCONF_ERR_TBL_SET) /\
    (ret <> QCONF_ERR_TBL_SET -> exists s2, hash_tbl_get key [] s' = Some ((QCONF_OK, val), s2)).
Proof.
  intros Hok Hkn Hk Hv Hload. destruct (hash_tbl_set_ok key val s vm Hok Hkn Hk Hv Hload)
    as (ret & s' & vm' & ev & Hrun & Hok' & Hout & Hev & Hroom).
  exists ret, s', vm', ev. do 5 (split; [done|]). intros Hne.
  destruct (hash_tbl_get_ok key [] s' vm' Hok' Hkn) as (t' & Hget & _). exists (mkShm t' (lruInstance s')).
  rewrite Hget. destruct Hout as [(_ & Hl & -> & _)|[(_ & Hl & _)|(-> & _)]]; [by rewrite Hl|by rewrite Hl|done].
Qed.

(** The local idc is never evicted: storing any other key leaves the value of the key "a" as it is. *)
Theorem local_idc_not_evicted key val s vm :
  shm_ok s vm -> key <> [] -> blen key < 65536 -> blen val < 2 ^ 32 ->
  s_load (with_code <$> vm) key < 2 ^ 15 - 1 -> key <> QCONF_KEY_TYPE_LOCAL_IDC ->
  exists ret s' vm', hash_tbl_set key val s = Some (ret, s') /\ shm_ok s' vm' /\
    vm' !! s_ident QCONF_KEY_TYPE_LOCAL_IDC = vm !! s_ident QCONF_KEY_TYPE_LOCAL_IDC.
Proof.
  intros Hok Hkn Hk Hv Hload Hidc. destruct (hash_tbl_set_ok key val s vm Hok Hkn Hk Hv Hload)
    as (ret & s' & vm' & ev & Hrun & Hok' & Hout & Hev & _).
  exists ret, s', vm'. do 2 (split; [done|]).
  assert (Hinj : forall k, s_ident QCONF_KEY_TYPE_LOCAL_IDC = s_ident k -> QCONF_KEY_TYPE_LOCAL_IDC = k).
  { intros k. by apply s_ident_inj. }
  rewrite Hev by (intros E; by apply Hidc; rewrite (Hinj key E)). rewrite decide_False; [done|].
  intros (k & Ek & Hin)%list_elem_of_fmap. apply Hinj in Ek as <-.
  assert (Hsub : QCONF_KEY_TYPE_LOCAL_IDC ∈ lru_keys (the_lru s)).
  { destruct Hout as [(_ & _ & _ & -> & _)|[(_ & _ & ks & -> & _)|(_ & _ & -> & _)]]; [by apply elem_of_nil in Hin| |done].
    apply elem_of_app. by right. }
  destruct Hok as [_ _ Hl _]. by destruct Hl.
Qed.

Lemma blen_localidc idc : blen idc < 256 -> blen (localidc_to_tblval QCONF_KEY_TYPE_LOCAL_IDC idc) < 2 ^ 32.
Proof.
  intros Hi. unfold localidc_to_tblval, qconf_append_idc. rewrite append_field, app_nil_l, blen_app, blen_field.
  change (blen QCONF_KEY_TYPE_LOCAL_IDC) with 1. width.
Qed.

Lemma update_localidc_ok idc s vm :
  shm_ok s vm -> idc <> [] -> blen idc < 256 ->
  s_load (with_code <$> vm) QCONF_KEY_TYPE_LOCAL_IDC < 2 ^ 15 - 1 ->
  let tv := localidc_to_tblval QCONF_KEY_TYPE_LOCAL_IDC idc in
  exists ret s' vm' ev, qconf_update_localidc idc s = Some (ret, s') /\ shm_ok s' vm' /\ evicted (s_ident QCONF_KEY_TYPE_LOCAL_IDC) ev vm vm' /\
    ((ret = QCONF_OK /\ vm' !! s_ident QCONF_KEY_TYPE_LOCAL_IDC = Some tv) \/
     (ret = QCONF_ERR_TBL_SET /\ kept (s_ident QCONF_KEY_TYPE_LOCAL_IDC) vm vm')).
Proof.
  intros Hok Hn Hi Hload. cbn zeta. set (key := QCONF_KEY_TYPE_LOCAL_IDC) in *.
  set (tv := localidc_to_tblval key idc).
  destruct (hash_tbl_set_ok key tv s vm Hok ltac:(done) ltac:(done) (blen_localidc idc Hi) Hload) as (ret & s' & vm' & ev & Hrun & Hok' & Hout & Hev & _).
  exists (if ret =? QCONF_ERR_SAME_VALUE then QCONF_OK else ret), s', vm', ev. split; [|split; [done|split; [done|]]].
  - unfold qconf_update_localidc. rewrite (SM_bind_Some _ _ _ _ _ (shm_not_null s vm Hok)).
    rewrite bool_decide_nil by done. cbn [orb].
    change (serialize_to_tblkey QCONF_DATA_TYPE_LOCAL_IDC [] []) with (QCONF_OK, key). cbv beta iota zeta.
    erewrite SM_bind_Some; [|exact Hrun]. done.
  - destruct Hout as [(-> & Hl & -> & _)|[(-> & Hl & _)|(-> & _ & _ & Hk)]]; [by left|by left|by right].
Qed.

Lemma get_localidc_ok idc old s vm :
  shm_ok s vm -> blen idc < 256 -> vm !! s_ident QCONF_KEY_TYPE_LOCAL_IDC = Some (localidc_to_tblval QCONF_KEY_TYPE_LOCAL_IDC idc) ->
  exists s2, qconf_get_localidc old s = Some ((QCONF_OK, idc), s2).
Proof.
  intros Hok Hi Hl. set (key := QCONF_KEY_TYPE_LOCAL_IDC) in *.
  destruct (hash_tbl_get_ok key [] s vm Hok ltac:(done)) as (t2 & Hget & _). rewrite Hl in Hget.
  exists (mkShm t2 (lruInstance s)). unfold qconf_get_localidc.
  rewrite (SM_bind_Some _ _ _ _ _ (shm_not_null s vm Hok)).
  change (serialize_to_tblkey QCONF_DATA_TYPE_LOCAL_IDC [] []) with (QCONF_OK, key). cbv beta iota zeta.
  erewrite SM_bind_Some; [|exact Hget].
  cbn [Z.eqb QCONF_OK]. unfold tblval_to_localidc, localidc_to_tblval, qconf_append_idc, qconf_sub_idc.
  rewrite append_field, app_nil_l, sub_first by width. cbn [Z.eqb negb].
  change key with (QCONF_DATA_TYPE_LOCAL_IDC :: []). by rewrite type_at_field.
Qed.

(** After [qconf_update_localidc] returned success, [qconf_get_localidc] returns that idc. *)
Theorem localidc_roundtrip idc s vm :
  shm_ok s vm -> idc <> [] -> blen idc < 256 ->
  s_load (with_code <$> vm) QCONF_KEY_TYPE_LOCAL_IDC < 2 ^ 15 - 1 ->
  exists ret s', qconf_update_localidc idc s = Some (ret, s') /\ (ret = QCONF_OK \/ ret = QCONF_ERR_TBL_SET) /\
    (ret = QCONF_OK -> exists s2, qconf_get_localidc [] s' = Some ((QCONF_OK, idc), s2)).
Proof.
  intros Hok Hn Hi Hload. destruct (update_localidc_ok idc s vm Hok Hn Hi Hload) as (ret & s' & vm' & ev & Hrun & Hok' & _ & Hout).
  exists ret, s'. split; [done|]. destruct Hout as [[-> Hl]|[-> _]]; (split; [auto|]); [|done].
  intros _. by eapply get_localidc_ok.
Qed.
End Table.

(** ** The order of eviction *)

Section Order.
Context {T : Type} `{Store T}.

Fixpoint visit_all (ks : list bytes) : SM (shm T) unit :=
  match ks with [] => mret tt | k :: ks' => visitKey k;; visit_all ks' end.

Lemma visit_all_ok ks (s : shm T) :
  lru_ok (the_lru s) ->
  exists s', visit_all ks s = Some (tt, s') /\ lru_ok (the_lru s') /\ sh_tbl s' = sh_tbl s /\
    lru_keys (the_lru s') = foldl (fun l k => visited k l) (lru_keys (the_lru s)) ks.
Proof.
  revert s. induction ks as [|k ks IH]; intros s Hok; [by exists s|]. cbn [visit_all foldl].
  destruct (visitKey_ok k s Hok) as (l' & Hv & Hl' & Hk').
  destruct (IH (mkShm (sh_tbl s) (Some l')) Hl') as (s' & Hrun & Hok' & Ht & Hks).
  exists s'. erewrite SM_bind_Some; [|exact Hv]. split; [done|]. split; [done|]. split; [done|].
  rewrite Hks. change (the_lru (mkShm (sh_tbl s) (Some l'))) with l'. by rewrite Hk'.
Qed.

(** However keys are visited, the iterators of the list stay valid, the list holds every visited key
    once (the local idc excepted) with the last visited key first, and [removeKey] takes the key at the
    other end. *)
Theorem lru_visit_remove ks k (s : shm T) :
  lru_ok (the_lru s) -> k <> QCONF_KEY_TYPE_LOCAL_IDC ->
  exists s1, visit_all (ks ++ [k]) s = Some (tt, s1) /\ lru_ok (the_lru s1) /\ sh_tbl s1 = sh_tbl s /\
    head (lru_keys (the_lru s1)) = Some k /\ NoDup (lru_keys (the_lru s1)) /\
    (forall x, x ∈ lru_keys (the_lru s1) <-> x ∈ lru_keys (the_lru s) \/ (x ∈ ks ++ [k] /\ x <> QCONF_KEY_TYPE_LOCAL_IDC)) /\
    exists s2 out rest, removeKey s1 = Some (out, s2) /\ lru_keys (the_lru s1) = rest ++ [out] /\
      lru_keys (the_lru s2) = rest /\ lru_ok (the_lru s2).
Proof.
  intros Hok Hk. destruct (visit_all_ok (ks ++ [k]) s Hok) as (s1 & Hrun & Hok1 & Ht & Hks).
  exists s1. do 3 (split; [done|]).
  assert (Hmem : forall vs l0 x, x ∈ foldl (fun l k => visited k l) l0 vs <->
                   x ∈ l0 \/ (x ∈ vs /\ x <> QCONF_KEY_TYPE_LOCAL_IDC)).
  { clear. induction vs as [|v vs IH]; intros l0 x; cbn [foldl].
    - split; [by left|]. intros [?|[?%elem_of_nil _]]; done.
    - rewrite IH. unfold visited. case_decide as E.
      + rewrite elem_of_cons. naive_solver.
      + rewrite !elem_of_cons, list_elem_of_filter. destruct (decide (x = v)); naive_solver. }
  assert (Hhd : lru_keys (the_lru s1) = k :: filter (fun x => x <> k) (foldl (fun l k => visited k l) (lru_keys (the_lru s)) ks)).
  { rewrite Hks, foldl_app. cbn [foldl]. unfold visited at 1. by rewrite decide_False. }
  split; [by rewrite Hhd|]. split; [apply Hok1|]. split; [intros x; rewrite Hks; apply Hmem|].
  destruct (exists_last (l := lru_keys (the_lru s1))) as (rest & out & El); [by rewrite Hhd|].
  destruct (removeKey_ok s1 rest out Hok1 El) as (l2 & Hrm & Hl2 & Ek2).
  by exists (mkShm (sh_tbl s1) (Some l2)), out, rest.
Qed.
End Order.

(** ** Witnesses on a table of 40 slots *)

Section Witnesses.
Import HashArr.

Definition demo_shm : shm hstate := mkShm (HS 0 (Some (Tbl 40 0 0 (replicate (Z.to_nat 40) zero_slot)))) None.

#[local] Lemma r40 : 0 < 40 < 2 ^ 31.
Proof. lia. Qed.

#[local] Instance laws40 : StoreLaws hstate := hasharr_laws 40 r40.

Lemma demo_shm_ok : shm_ok demo_shm ∅.
Proof.
  split; [|apply map_Forall_empty|apply new_LRU_ok|apply not_elem_of_nil].
  rewrite fmap_empty. eexists. split; [reflexivity|]. split; [reflexivity|].
  apply (HashArrMap.empty_tbl_ok 40). lia.
Qed.

Lemma demo_load key : s_load (with_code <$> (∅ : gmap kid bytes)) key < 2 ^ 15 - 1.
Proof. eapply Z.le_lt_trans; [apply s_load_size|]. rewrite fmap_empty, map_size_empty. reflexivity. Qed.

Lemma hash_tbl_set_correct_witness :
  exists ret s', hash_tbl_set (str "2k") (str "value") demo_shm = Some (ret, s') /\
    exists s2, hash_tbl_get (str "2k") [] s' = Some ((QCONF_OK, str "value"), s2).
Proof.
  destruct (hash_tbl_set_correct (str "2k") (str "value") demo_shm ∅ demo_shm_ok) as
    (ret & s' & vm' & ev & Hrun & _ & _ & _ & Hroom & Hget); [discriminate|reflexivity|reflexivity|apply demo_load|].
  exists ret, s'. split; [exact Hrun|]. apply Hget. apply Hroom. vm_compute. discriminate.
Defined.

Lemma local_idc_not_evicted_witness :
  exists ret s' vm', hash_tbl_set (str "2k") (str "value") demo_shm = Some (ret, s') /\ shm_ok s' vm' /\
    vm' !! s_ident QCONF_KEY_TYPE_LOCAL_IDC = (∅ : gmap kid bytes) !! s_ident QCONF_KEY_TYPE_LOCAL_IDC.
Proof.
  apply (local_idc_not_evicted (str "2k") (str "value") demo_shm ∅ demo_shm_ok);
    [discriminate|reflexivity|reflexivity|apply demo_load|discriminate].
Defined.

Lemma localidc_roundtrip_witness :
  exists ret s', qconf_update_localidc (str "beijing") demo_shm = Some (ret, s') /\
    (ret = QCONF_OK -> exists s2, qconf_get_localidc [] s' = Some ((QCONF_OK, str "beijing"), s2)).
Proof.
  destruct (localidc_roundtrip (str "beijing") demo_shm ∅ demo_shm_ok) as (ret & s' & Hrun & _ & Hget);
    [discriminate|reflexivity|apply demo_load|]. exists ret, s'. exact (conj Hrun Hget).
Defined.

Lemma lru_visit_remove_witness :
  exists s1, visit_all [str "2a"; str "2b"; str "2a"] demo_shm = Some (tt, s1) /\
    head (lru_keys (the_lru s1)) = Some (str "2a").
Proof.
  destruct (lru_visit_remove [str "2a"; str "2b"] (str "2a") demo_shm new_LRU_ok) as (s1 & Hrun & _ & _ & Hhd & _);
    [discriminate|]. exists s1. exact (conj Hrun Hhd).
Defined.
End Witnesses.
