(* ===== verification/ShmWalk.v ===== *)
(** * The types of the table, and the walk over it

    A value of the table ends in its own key, behind a byte for its type. [typed] says which values are
    well formed. On a table of such values the walk ([hash_tbl_getnext]) gives every key in full, although
    the slots keep only its first bytes and its digest, and the agent that starts on the table of its
    predecessor finds every key for its LRU list. One damaged value is enough to stop it. *)

From S2P Require Import Prelude Common HashArr HashArrInv HashArrPut HashArrThm Format FormatThm Store Shm ShmThm.

Module ShmWalk.
Import Format Shm.

(** ** Well-formed values *)

Definition path_key (dt : byte) (idc path : bytes) : bytes := (serialize_to_tblkey dt idc path).2.
Definition is_vector (dt : byte) : Prop := dt = QCONF_DATA_TYPE_SERVICE \/ dt = QCONF_DATA_TYPE_BATCH_NODE.

(** [typed key v]: [v] is a value of the type of [key], and ends in [key]. *)
Inductive typed : bytes -> bytes -> Prop :=
  | typed_node idc path val :
      key_ok QCONF_DATA_TYPE_NODE idc path -> path <> [] -> blen val < 2 ^ 32 ->
      typed (path_key QCONF_DATA_TYPE_NODE idc path) (nodeval_to_tblval (path_key QCONF_DATA_TYPE_NODE idc path) val)
  | typed_vector dt idc path vs :
      is_vector dt -> key_ok dt idc path -> path <> [] -> Forall node_ok vs -> blen vs < 65536 ->
      typed (path_key dt idc path) (vector_val vs (path_key dt idc path))
  | typed_localidc idc :
      blen idc < 256 -> typed QCONF_KEY_TYPE_LOCAL_IDC (localidc_to_tblval QCONF_KEY_TYPE_LOCAL_IDC idc).

Lemma vector_has_path dt : is_vector dt -> has_path dt = true.
Proof. by intros [->| ->]. Qed.

Lemma keys_differ dt idc path dt' idc' path' :
  has_path dt = true -> has_path dt' = true -> blen idc < 256 -> blen path < 65536 -> blen idc' < 256 -> blen path' < 65536 ->
  path_key dt idc path = path_key dt' idc' path' -> dt = dt' /\ idc = idc' /\ path = path'.
Proof.
  intros Hd Hd' Hi Hp Hi' Hp' E. pose proof (key_read dt idc path x00 [] [] Hd Hi Hp) as R1.
  pose proof (key_read dt' idc' path' x00 [] [] Hd' Hi' Hp') as R2. unfold path_key in E. rewrite E, R2 in R1. by injection R1 as -> -> ->.
Qed.

Lemma local_idc_key dt idc path : has_path dt = true -> path_key dt idc path <> QCONF_KEY_TYPE_LOCAL_IDC.
Proof.
  intros Hd E. unfold path_key in E. destruct (serialize_head dt idc path) as (tl & Ht). rewrite Ht in E. injection E as -> _. done.
Qed.

(** What a value of a given type is. *)
Lemma typed_node_inv idc path v :
  key_ok QCONF_DATA_TYPE_NODE idc path -> typed (path_key QCONF_DATA_TYPE_NODE idc path) v ->
  exists val, blen val < 2 ^ 32 /\ v = nodeval_to_tblval (path_key QCONF_DATA_TYPE_NODE idc path) val.
Proof.
  intros (Hi & Hp & _) Ht. remember (path_key QCONF_DATA_TYPE_NODE idc path) as key eqn:E.
  destruct Ht as [idc' path' val (Hi' & Hp' & _) _ Hv|dt idc' path' vs Hdt (Hi' & Hp' & _) _ Hvs Hl|idc' Hi'].
  - apply keys_differ in E as (_ & -> & ->); try done. by exists val.
  - apply keys_differ in E as (-> & _ & _); try done; [by destruct Hdt|by apply vector_has_path].
  - symmetry in E. by apply local_idc_key in E.
Qed.

Lemma typed_vector_inv dt idc path v :
  is_vector dt -> key_ok dt idc path -> typed (path_key dt idc path) v ->
  exists vs, Forall node_ok vs /\ blen vs < 65536 /\ v = vector_val vs (path_key dt idc path).
Proof.
  intros Hdt (Hi & Hp & _) Ht. pose proof (vector_has_path dt Hdt) as Hd.
  remember (path_key dt idc path) as key eqn:E.
  destruct Ht as [idc' path' val (Hi' & Hp' & _) _ Hv|dt' idc' path' vs Hdt' (Hi' & Hp' & _) _ Hvs Hl|idc' Hi'].
  - apply keys_differ in E as (<- & _ & _); try done. by destruct Hdt.
  - apply keys_differ in E as (-> & -> & ->); try done; [by exists vs|by apply vector_has_path].
  - symmetry in E. by apply local_idc_key in E.
Qed.

(** The head of a key, which its slot keeps, and the value give the key back. *)
Lemma typed_read key v :
  typed key v -> exists dt idc path, get_data_type (take 32 key) = dt /\ key_of_val dt v = (QCONF_OK, (idc, path)) /\
    path_key dt idc path = key /\
    (key = QCONF_KEY_TYPE_LOCAL_IDC \/ (key <> QCONF_KEY_TYPE_LOCAL_IDC /\ path <> [] /\ deserialize_from_tblkey key x00 [] [] = (QCONF_OK, (dt, idc, path)))).
Proof.
  intros Ht. assert (Hhd : forall dt idc path, get_data_type (take 32 (path_key dt idc path)) = dt).
  { intros dt idc path. unfold path_key. by destruct (serialize_head dt idc path) as (tl & ->). }
  destruct Ht as [idc path val Hk Hne Hv|dt idc path vs Hdt Hk Hne Hvs Hl|idc Hi]; [pose proof Hk as (Hi & Hp & _)..|].
  - exists QCONF_DATA_TYPE_NODE, idc, path. split; [apply Hhd|].
    destruct (tblval_scalar_roundtrip idc path val [] [] [] Hi Hp) as [Hr _]. unfold key_of_val. rewrite decide_True by done.
    destruct (Hr Hv) as [_ E]. unfold path_key. rewrite E. do 2 (split; [done|]). right. split; [by apply local_idc_key|]. split; [done|].
    by apply key_read.
  - exists dt, idc, path. split; [apply Hhd|]. pose proof (vector_has_path dt Hdt) as Hd.
    destruct (vector_read dt idc path vs (SV 0 []) [] [] Hk Hd Hvs Hl) as [_ E]. unfold key_of_val, path_key. split.
    + destruct Hdt as [->| ->]; cbn [decide]; rewrite E; reflexivity.
    + split; [done|]. right. split; [by apply local_idc_key|]. split; [done|]. by apply key_read.
  - exists QCONF_DATA_TYPE_LOCAL_IDC, [], []. repeat (split; [done|]). by left.
Qed.

(** Keys with the same identity and the same value are equal. *)
Lemma typed_same key key' v : typed key v -> typed key' v -> take 32 key = take 32 key' -> key = key'.
Proof.
  intros Ht Ht' E. destruct (typed_read _ _ Ht) as (dt & idc & path & Hd & Hr & <- & _).
  destruct (typed_read _ _ Ht') as (dt' & idc' & path' & Hd' & Hr' & <- & _). rewrite E, Hd' in Hd. subst dt'.
  rewrite Hr in Hr'. by injection Hr' as -> ->.
Qed.

Section Walk.
Context {T : Type} `{StoreLaws T}.
Implicit Types (s : shm T) (vm : gmap kid bytes) (key : bytes) (items : list (bytes * bytes)).

(** Every value is well formed for its key. *)
Definition table_typed vm : Prop := forall (k : kid) (v : bytes), vm !! k = Some v -> exists key, k = s_ident key /\ typed key v.

(** An entry of the table, and how it is stored. *)
Definition coded (e : bytes * bytes) : kid * bytes := (s_ident e.1, with_code e.2).
Definition entry_ok (e : bytes * bytes) : Prop := typed e.1 e.2 /\ blen e.2 < 2 ^ 32.

Lemma ident_take key key' : s_ident key = s_ident key' -> take 32 key = take 32 key'.
Proof. intros E. by rewrite <- !s_ident_name, E. Qed.

(** A walk over a typed table meets every key once. *)
Lemma typed_walk (t : T) vm :
  s_rep t ((with_code : bytes -> bytes) <$> vm) -> map_Forall (fun _ (v : bytes) => blen v < 2 ^ 32) vm -> table_typed vm ->
  exists items : list (bytes * bytes), s_walk t 0 (coded <$> items) /\ Forall entry_ok items /\
    (forall key v, (key, v) ∈ items <-> typed key v /\ vm !! s_ident key = Some v).
Proof.
  intros Hr Hv Ht. destruct (s_walk_all t _ Hr) as (kvs & Hw & Hp).
  assert (Hall : Forall (fun kv => exists e, kv = coded e /\ (entry_ok e /\ vm !! s_ident e.1 = Some e.2)) kvs).
  { apply Forall_forall. intros [k cv] Hin. rewrite Hp in Hin. apply elem_of_map_to_list in Hin.
    rewrite lookup_fmap in Hin. destruct (vm !! k) as [v|] eqn:E; [|done]. cbn in Hin. injection Hin as <-.
    destruct (Ht _ _ E) as (key & -> & Hty). exists (key, v). split; [done|]. split; [|done]. split; [done|]. by apply (Hv _ _ E). }
  apply Forall_exists_fmap in Hall as (items & -> & Hall). exists items. split; [done|].
  split; [by eapply Forall_impl; [done|]; intros e [? _]|]. intros key v. split.
  - intros Hin. eapply Forall_forall in Hall; [|done]. destruct Hall as [[Hty _] Hl]. done.
  - intros [Hty Hl]. assert (Hin : (s_ident key, with_code v) ∈ coded <$> items).
    { rewrite Hp. apply elem_of_map_to_list. by rewrite lookup_fmap, Hl. }
    apply list_elem_of_fmap in Hin as ([key' v'] & E & Hin). injection E as Ek _. cbn [fst snd] in *.
    pose proof Hin as Hin'. eapply Forall_forall in Hin'; [|done]. destruct Hin' as [[Hty' _] Hl']. cbn [fst snd] in *.
    rewrite <- Ek, Hl in Hl'. injection Hl' as <-. by rewrite (typed_same key key' v Hty Hty' (ident_take _ _ Ek)).
Qed.

(** One step of the walk. *)
Lemma getnext_typed (tblkey tblval : bytes) (idx : Z) items s (m : gmap kid bytes) :
  s_rep (sh_tbl s) m -> s_walk (sh_tbl s) idx (coded <$> items) -> Forall entry_ok items -> 0 <= idx <= s_max ->
  exists t', s_rep t' m /\ s_same (sh_tbl s) t' /\
    match items with
    | [] => hash_tbl_getnext tblkey tblval idx s = Some ((QCONF_ERR_TBL_END, (tblkey, tblval, s_max + 1)), mkShm t' (lruInstance s))
    | (key, v) :: items' => exists idx', idx < idx' <= s_max /\ s_walk t' idx' (coded <$> items') /\
        hash_tbl_getnext tblkey tblval idx s = Some ((QCONF_OK, (key, v, idx')), mkShm t' (lruInstance s))
    end.
Proof.
  intros Hr Hw Hall Hi. destruct (s_getnext_ok _ _ _ _ Hr Hw Hi) as (t' & Hr' & Hsame & Hstep). exists t'. do 2 (split; [done|]).
  unfold hash_tbl_getnext, tbl_is_null. erewrite SM_bind_Some by (unfold gets; by rewrite (s_not_null _ _ Hr)).
  destruct items as [|[key v] items]; cbn [fmap list_fmap coded fst snd] in Hstep.
  - destruct Hstep as [Hg He]. rewrite (SM_bind_Some _ _ _ _ _ (on_tbl_ok _ _ _ _ Hg)). cbv beta iota.
    unfold get_errno. erewrite SM_bind_Some by done. destruct (s_size_ok _ _ Hr') as (u & Hs & _).
    rewrite (SM_bind_Some _ _ _ _ _ (on_tbl_ok (T := T) _ (mkShm t' (lruInstance s)) _ _ Hs)). cbv beta iota. cbn [sh_tbl lruInstance].
    by rewrite He, !Z.eqb_refl.
  - destruct Hstep as (idx' & Hi' & Hw' & Hg). exists idx'. do 2 (split; [done|]).
    rewrite (SM_bind_Some _ _ _ _ _ (on_tbl_ok _ _ _ _ Hg)). cbv beta iota.
    apply Forall_cons in Hall as [[Hty Hlen] _]. cbn [fst snd] in *. rewrite (SM_bind_Some _ _ _ _ _ (verify_stored v _ Hlen)). cbv beta iota.
    cbn [Z.eqb QCONF_OK negb]. rewrite s_ident_name. destruct (typed_read key v Hty) as (dt & idc & path & Hd & Hk & Hkey & _).
    rewrite Hd, Hk. cbn [Z.eqb QCONF_OK]. unfold path_key in Hkey. by rewrite Hkey.
Qed.

Lemma visited_elem key k ks : k ∈ visited key ks <-> k ∈ ks \/ (k = key /\ key <> QCONF_KEY_TYPE_LOCAL_IDC).
Proof.
  unfold visited. destruct (decide (key = QCONF_KEY_TYPE_LOCAL_IDC)); [tauto|]. rewrite elem_of_cons, list_elem_of_filter.
  destruct (decide (k = key)) as [->|]; tauto.
Qed.

Lemma typed_nonempty key v : typed key v -> key <> [].
Proof.
  intros Ht. destruct (typed_read key v Ht) as (dt & idc & path & _ & _ & <- & _). unfold path_key.
  by destruct (serialize_head dt idc path) as (tl & ->).
Qed.

(** The loop visits every key but the local idc. *)
Lemma init_loop_ok items (fuel : nat) (tblkey tblval : bytes) (idx : Z) s vm :
  shm_ok s vm -> s_walk (sh_tbl s) idx (coded <$> items) -> Forall entry_ok items -> 0 <= idx <= s_max ->
  (Z.to_nat (s_max - idx) < fuel)%nat ->
  exists s', init_loop fuel s_max tblkey tblval idx s = Some (true, s') /\ shm_ok s' vm /\
    (forall key, key ∈ lru_keys (the_lru s') <-> key ∈ lru_keys (the_lru s) \/ (key ∈ items.*1 /\ key <> QCONF_KEY_TYPE_LOCAL_IDC)).
Proof.
  revert fuel tblkey tblval idx s. induction items as [|[key v] items IH]; intros fuel tblkey tblval idx s Hok Hw Hall Hi Hf;
    (destruct fuel as [|fuel]; [lia|]); cbn [init_loop]; pose proof Hok as [Hr Hv Hl Hn];
    destruct (getnext_typed tblkey tblval idx _ s _ Hr Hw Hall Hi) as (t' & Hr' & _ & Hg).
  - assert (Hnil : forall key, key ∈ ([] : list (bytes * bytes)).*1 <-> False) by (intros key; apply elem_of_nil).
    destruct (Z.ltb_spec idx s_max).
    + rewrite (SM_bind_Some _ _ _ _ _ Hg). cbv beta iota. cbn [Z.eqb QCONF_ERR_TBL_END QCONF_OK].
      destruct fuel as [|fuel]; [lia|]. cbn [init_loop]. destruct (Z.ltb_spec (s_max + 1) s_max); [lia|].
      exists (mkShm t' (lruInstance s)). split; [done|]. split; [by apply (shm_ok_tbl s vm)|]. intros key. rewrite Hnil. tauto.
    + exists s. split; [done|]. split; [done|]. intros key. rewrite Hnil. tauto.
  - destruct Hg as (idx' & Hi' & Hw' & Hg). destruct (Z.ltb_spec idx s_max); [|lia].
    rewrite (SM_bind_Some _ _ _ _ _ Hg). cbv beta iota. cbn [Z.eqb QCONF_OK]. apply Forall_cons in Hall as [[Hty _] Hall]. cbn [fst snd] in Hty.
    set (s1 := mkShm t' (lruInstance s)). assert (Hok1 : shm_ok s1 vm) by by apply (shm_ok_tbl s vm).
    assert (Hvis : exists s2, (let '(_, (_, _, path)) := deserialize_from_tblkey key x00 [] [] in
        if decide (path = []) then mret tt else visitKey key) s1 = Some (tt, s2) /\ sh_tbl s2 = t' /\ shm_ok s2 vm /\
        (forall k, k ∈ lru_keys (the_lru s2) <-> k ∈ lru_keys (the_lru s) \/ (k = key /\ key <> QCONF_KEY_TYPE_LOCAL_IDC))).
    { destruct (typed_read key v Hty) as (dt & idc & path & _ & _ & _ & [->|(Hne & Hp & ->)]).
      - cbn [deserialize_from_tblkey QCONF_KEY_TYPE_LOCAL_IDC]. exists s1. split; [done|]. split; [done|]. split; [done|]. intros k. tauto.
      - rewrite decide_False by done. destruct (visitKey_ok key s1 Hl) as (l' & Hvk & Hl' & Ek).
        exists (mkShm t' (Some l')). split; [done|]. split; [done|]. split; [|intros k; change (the_lru (mkShm t' (Some l'))) with l'; rewrite Ek; apply visited_elem].
        split; [done|done|done|]. change (the_lru (mkShm t' (Some l'))) with l'. rewrite Ek, visited_elem. intros [?|[E _]]; [done|].
        by apply (typed_nonempty _ _ Hty). }
    destruct Hvis as (s2 & Hvis & <- & Hok2 & Hks).
    destruct (IH fuel key v idx' s2 Hok2 Hw' Hall ltac:(lia) ltac:(lia)) as (s' & Hrun & Hok' & Hks').
    exists s'. split; [|split; [done|]].
    + destruct (deserialize_from_tblkey key x00 [] []) as [r0 [[dt0 idc0] path0]]. by rewrite (SM_bind_Some _ _ _ _ _ Hvis).
    + intros k. rewrite Hks', Hks. cbn [fmap list_fmap]. rewrite elem_of_cons. cbn [fst]. 
      destruct (decide (k = key)) as [->|]; tauto.
Qed.

Lemma get_count_ok s vm : shm_ok s vm -> exists n u, hash_tbl_get_count s = Some ((n, s_max, u), s).
Proof.
  intros Hok. unfold hash_tbl_get_count. rewrite (SM_bind_Some _ _ _ _ _ (shm_not_null s vm Hok)).
  destruct (s_size_ok _ _ (sk_rep _ _ Hok)) as (u & Hs & _). do 2 eexists. rewrite (on_tbl_ok _ _ _ _ Hs). by destruct s.
Qed.

(** Start-up on the table of a predecessor. *)
Lemma initLruMem_ok s vm :
  shm_ok s vm -> lruInstance s = None -> table_typed vm ->
  exists s', initLruMem s = Some (true, s') /\ shm_ok s' vm /\
    (forall key, key ∈ lru_keys (the_lru s') <-> key <> QCONF_KEY_TYPE_LOCAL_IDC /\ exists v, typed key v /\ vm !! s_ident key = Some v).
Proof.
  intros Hok Hnone Ht. destruct (get_count_ok s vm Hok) as (n & u & Hc).
  destruct (typed_walk _ _ (sk_rep _ _ Hok) (sk_vals _ _ Hok) Ht) as (items & Hw & Hall & Hin). pose proof s_max_pos as Hpos.
  destruct (init_loop_ok items (S (Z.to_nat s_max)) [] [] 0 s vm Hok Hw Hall ltac:(lia) ltac:(lia)) as (s' & Hrun & Hok' & Hks).
  exists s'. unfold initLruMem. rewrite (SM_bind_Some _ _ _ _ _ Hc). split; [done|]. split; [done|]. intros key. rewrite Hks.
  unfold the_lru at 1. rewrite Hnone. cbn [default from_option id lru_keys new_LRU lruMem fmap list_fmap].
  assert (Hk : key ∈ items.*1 <-> exists v, typed key v /\ vm !! s_ident key = Some v).
  { rewrite list_elem_of_fmap. split.
    - intros ([k v] & -> & Hi). exists v. by apply Hin.
    - intros (v & Hv). exists (key, v). split; [done|]. by apply Hin. }
  rewrite Hk. rewrite elem_of_nil. tauto.
Qed.

(** The readers of the walk have few codes. *)
Lemma sub_idc_path_code tv pos idc path : (sub_idc_path tv pos idc path).1 <> QCONF_ERR_TBL_END.
Proof. unfold sub_idc_path. repeat case_match; done. Qed.

Lemma sub_nodes_code alloc n i tv pos nodes : (sub_nodes alloc n i tv pos nodes).1.1 <> QCONF_ERR_TBL_END.
Proof. revert i pos nodes. induction n as [|n IH]; intros i pos nodes; cbn [sub_nodes]; [done|]. repeat case_match; done. Qed.

Lemma vectorval_code dt tv nodes idc path : (tblval_to_vectorval (fun _ => true) dt tv nodes idc path).1 <> QCONF_ERR_TBL_END.
Proof.
  unfold tblval_to_vectorval. assert (Hv : (qconf_sub_vectorval (fun _ => true) tv 0 nodes).1.1 <> QCONF_ERR_TBL_END).
  { unfold qconf_sub_vectorval. repeat case_match; try done. apply sub_nodes_code. }
  destruct (qconf_sub_vectorval _ _ _ _) as [[r pos] ns]. destruct (negb (r =? QCONF_OK)); [done|]. destruct (negb _); [done|].
  pose proof (sub_idc_path_code tv (pos + 1) idc path) as Hc. by destruct (sub_idc_path _ _ _ _) as [? [? ?]].
Qed.

Lemma key_of_val_code dt v : (key_of_val dt v).1 <> QCONF_ERR_TBL_END.
Proof.
  unfold key_of_val. repeat case_decide; try done.
  - unfold tblval_to_nodeval_key. destruct (sub_ret QCONF_VALUE_SIZE_LEN v 0 []) as [E|E]; unfold qconf_sub_nodeval;
      destruct (qconf_string_sub _ _ _ _) as [[r pos] ns]; cbn [fst snd] in E; [injection E as ->|subst r; done].
    cbn [Z.eqb QCONF_OK negb]. destruct (negb _); [done|]. pose proof (sub_idc_path_code v (pos + 1) [] []) as Hc.
    by destruct (sub_idc_path _ _ _ _) as [? [? ?]].
  - pose proof (vectorval_code QCONF_DATA_TYPE_SERVICE v (SV 0 []) [] []) as Hc. by destruct (tblval_to_vectorval _ _ _ _ _ _) as [? [[? ?] ?]].
  - pose proof (vectorval_code QCONF_DATA_TYPE_BATCH_NODE v (SV 0 []) [] []) as Hc. by destruct (tblval_to_vectorval _ _ _ _ _ _) as [? [[? ?] ?]].
  - unfold tblval_to_idcval. repeat case_match; by simplify_eq.
Qed.

(** A value that does not carry its code. *)
Definition damaged (cv : bytes) : Prop := forall v, qconf_verify cv <> Some (QCONF_OK, v).

(** One step of the walk over a table of values with a length: it succeeds only on a sound value. *)
Lemma getnext_any (tblkey tblval : bytes) (idx : Z) (k : kid) (cv : bytes) (kvs : list (kid * bytes)) s (m : gmap kid bytes) :
  s_rep (sh_tbl s) m -> s_walk (sh_tbl s) idx ((k, cv) :: kvs) -> 0 <= idx <= s_max -> 4 <= blen cv ->
  exists (ret : Z) (key v : bytes) (idx' : Z) t', hash_tbl_getnext tblkey tblval idx s = Some ((ret, (key, v, idx')), mkShm t' (lruInstance s)) /\
    idx < idx' <= s_max /\ s_rep t' m /\ s_walk t' idx' kvs /\ ret <> QCONF_ERR_TBL_END /\ (ret = QCONF_OK -> ~ damaged cv).
Proof.
  intros Hr Hw Hi Hlen. destruct (s_getnext_ok _ _ _ _ Hr Hw Hi) as (t' & Hr' & Hsame & idx' & Hi' & Hw' & Hg).
  unfold hash_tbl_getnext, tbl_is_null. erewrite SM_bind_Some by (unfold gets; by rewrite (s_not_null _ _ Hr)).
  cbv beta iota. rewrite (SM_bind_Some _ _ _ _ _ (on_tbl_ok _ _ _ _ Hg)). cbv beta iota. unfold mbind, SM_bind, verify.
  destruct (qconf_verify cv) as [[c v]|] eqn:Ev; cycle 1.
  { exfalso. revert Ev. unfold qconf_verify. destruct (Z.ltb_spec (blen cv) (Z.of_nat QCONF_VALUE_SIZE_LEN)); [width|]. repeat case_match; done. }
  assert (Hc : c = QCONF_OK \/ c = QCONF_ERR_TBL_DATA_MESS).
  { revert Ev. unfold qconf_verify. repeat case_match; try done; intros [= <- _]; auto. }
  cbn [mret SM_ret]. destruct Hc as [->| ->]; cbn [Z.eqb QCONF_OK QCONF_ERR_TBL_DATA_MESS negb].
  - pose proof (key_of_val_code (get_data_type (kid_name k)) v) as Hcode.
    destruct (key_of_val (get_data_type (kid_name k)) v) as [c2 [idc path]].
    destruct (Z.eqb_spec c2 QCONF_OK) as [->|Hne]; do 5 eexists; (split; [reflexivity|]); do 4 (split; [done|]); intros Hret Hd;
      [by apply (Hd v)|done].
  - do 5 eexists. split; [reflexivity|]. by do 4 (split; [done|]).
Qed.

(** One damaged value, and the loop fails. *)
Lemma init_loop_damaged (kvs : list (kid * bytes)) (fuel : nat) (tblkey tblval : bytes) (idx : Z) s (m : gmap kid bytes) :
  s_rep (sh_tbl s) m -> s_walk (sh_tbl s) idx kvs -> 0 <= idx <= s_max -> lru_ok (the_lru s) -> Forall (fun kv => 4 <= blen kv.2) kvs ->
  Exists (fun kv => damaged kv.2) kvs -> (Z.to_nat (s_max - idx) < fuel)%nat ->
  exists s', init_loop fuel s_max tblkey tblval idx s = Some (false, s').
Proof.
  intros Hr Hw Hi Hl Hall Hbad. revert fuel tblkey tblval idx s Hr Hw Hi Hl. induction kvs as [|[k cv] kvs IH]; [by apply Exists_nil in Hbad|].
  apply Forall_cons in Hall as [Hlen Hall]. cbn [snd] in Hlen.
  intros fuel tblkey tblval idx s Hr Hw Hi Hl Hf. destruct fuel as [|fuel]; [lia|]. cbn [init_loop].
  destruct (getnext_any tblkey tblval _ _ _ _ _ _ Hr Hw Hi Hlen) as (ret & key & v & idx' & t' & Hg & Hi' & Hr' & Hw' & Hend & Hsound).
  destruct (Z.ltb_spec idx s_max); [|lia]. rewrite (SM_bind_Some _ _ _ _ _ Hg). cbv beta iota.
  destruct (Z.eqb_spec ret QCONF_OK) as [->|Hne].
  - apply Exists_cons in Hbad as [Hbad|Hbad]; [by destruct (Hsound eq_refl)|].
    destruct (deserialize_from_tblkey key x00 [] []) as [r0 [[dt0 idc0] path0]]. set (s1 := mkShm t' (lruInstance s)).
    assert (Hv : exists s2, (if decide (path0 = []) then mret tt else visitKey key) s1 = Some (tt, s2) /\ sh_tbl s2 = t' /\ lru_ok (the_lru s2)).
    { case_decide; [by exists s1|]. destruct (visitKey_ok key s1 Hl) as (l' & Hvk & Hl' & _). by exists (mkShm t' (Some l')). }
    destruct Hv as (s2 & Hv & <- & Hl2). rewrite (SM_bind_Some _ _ _ _ _ Hv). apply (IH Hall Hbad); try done; lia.
  - destruct (Z.eqb_spec ret QCONF_ERR_TBL_END) as [->|]; [done|]. by eexists.
Qed.

Lemma initLruMem_damaged s (m : gmap kid bytes) (k : kid) (cv : bytes) :
  s_rep (sh_tbl s) m -> lru_ok (the_lru s) -> map_Forall (fun _ (v : bytes) => 4 <= blen v) m -> m !! k = Some cv -> damaged cv ->
  exists s', initLruMem s = Some (false, s').
Proof.
  intros Hr Hl Hall Hk Hd. pose proof s_max_pos as Hpos. destruct (s_size_ok _ _ Hr) as (u & Hs & _).
  assert (Hc : hash_tbl_get_count s = Some ((Z.of_nat (size m), s_max, u), s)).
  { unfold hash_tbl_get_count, tbl_is_null. erewrite SM_bind_Some by (unfold gets; by rewrite (s_not_null _ _ Hr)).
    cbv beta iota. rewrite (on_tbl_ok _ _ _ _ Hs). by destruct s. }
  unfold initLruMem. rewrite (SM_bind_Some _ _ _ _ _ Hc). destruct (s_walk_all _ _ Hr) as (kvs & Hw & Hp).
  apply (init_loop_damaged kvs _ _ _ _ _ m); [done|done|lia|done| | |lia].
  - apply Forall_forall. intros [k' cv'] Hin. rewrite Hp in Hin. apply elem_of_map_to_list in Hin. by apply (Hall _ _ Hin).
  - apply Exists_exists. exists (k, cv). split; [|done]. rewrite Hp. by apply elem_of_map_to_list.
Qed.
End Walk.
End ShmWalk.
