(* ===== verification/Race.v ===== *)
(** * Reading the table while it is written

    There is no lock between the agent, which writes the table, and the clients, which read it. Here the
    reader of [qhasharr.c] is written with every access to the shared memory as a step of its own: [mem n]
    is the table as the [n]-th access finds it, and between two accesses anything may have been stored.
    A field is read at once, the bytes of a block one by one.

    Whatever sane fields the writers store, the reader ends and stays inside the memory it may touch; in a
    table that nobody writes it returns what [HashArr.qhasharr_get] returns. *)

From S2P Require Import Prelude Common HashArr HashArrInv HashArrSpec HashArrMap Format FormatThm Store Shm ShmThm.

Module Race.
Import HashArr Format Shm.

Section Reader.
Context `{KeyDigest} (mem : nat -> qhasharr_t) (malloc_ok : Z -> bool).

(** The number of accesses so far. *)
Abbreviation RM := (SM nat).

Definition rd {A} (f : qhasharr_slot -> A) (i : Z) : RM A := fun n =>
  match slot_at (mem n) i with Some s => Some (f s, S n) | None => None end.

Definition rd_max : RM Z := fun n => Some (maxslots (mem n), S n).

(** [memcpy] and [memcmp] from a slot, a byte at a time, inside the union. *)
Fixpoint rd_bytes (len : nat) (i : Z) (off : nat) : RM bytes :=
  match len with
  | O => mret []
  | S len' =>
      b ← rd (fun s => sl_data s !! off) i;
      match b with
      | Some b => bs ← rd_bytes len' i (S off); mret (b :: bs)
      | None => undefined
      end
  end.

(** The key comparison of [_get_idx]. *)
Definition race_same_key (key : bytes) (idx : Z) : RM bool :=
  keylen ← rd (fun s => pair_keylen (sl_data s)) idx;
  if blen key =? keylen then
    if (length key <=? Q_HASHARR_KEYSIZE)%nat then
      k ← rd_bytes (length key) idx OFF_KEY; mret (bool_decide (key = k))
    else
      k ← rd_bytes Q_HASHARR_KEYSIZE idx OFF_KEY;
      if bool_decide (take Q_HASHARR_KEYSIZE key = k) then
        md5 ← rd_bytes 16 idx OFF_KEYMD5; mret (bool_decide (key_md5 key = md5))
      else mret false
  else mret false.

Definition race_same_hash (hash idx : Z) : RM bool :=
  h ← rd sl_hash idx;
  if h =? hash then
    c ← rd sl_count idx;
    if 0 <? c then mret true else c ← rd sl_count idx; mret (c =? -1)
  else mret false.

Fixpoint race_idx_loop (fuel : nat) (key : bytes) (hash count idx : Z) : RM Z :=
  match fuel with
  | O => undefined
  | S fuel' =>
      lead ← rd sl_count hash;
      if count <? lead then
        same_hash ← race_same_hash hash idx;
        found ← (if (same_hash : bool) then race_same_key key idx else mret false);
        if (found : bool) then mret idx else
        let count := if (same_hash : bool) then count + 1 else count in
        max ← rd_max;
        let idx := idx + 1 in
        let idx := if max <=? idx then 0 else idx in
        if idx =? hash then mret (-1) else race_idx_loop fuel' key hash count idx
      else mret (-1)
  end.

(** [_get_idx]; a round per slot is enough. *)
Definition race_idx (fuel : nat) (key : bytes) (hash : Z) : RM Z :=
  lead ← rd sl_count hash;
  if 0 <? lead then race_idx_loop fuel key hash 0 hash else mret (-1).

(** The two loops of [_get_data]: each field is read again each time the code names it. *)
Fixpoint race_size (fuel : nat) (newidx valsize loop_count : Z) : RM (option Z) :=
  match fuel with
  | O => undefined
  | S fuel' =>
      if newidx =? -1 then mret (Some valsize) else
      size ← rd sl_size newidx;
      let valsize := u64 (valsize + size) in
      link ← rd sl_link newidx;
      if link =? -1 then mret (Some valsize) else
      let loop_count := loop_count + 1 in
      max ← rd_max;
      if max <? loop_count then mret None else
      link ← rd sl_link newidx;
      race_size fuel' link valsize loop_count
  end.

Fixpoint race_copy (fuel : nat) (newidx vp valsize loop_count : Z) (value : bytes) : RM (option bytes) :=
  match fuel with
  | O => undefined
  | S fuel' =>
      if (vp <? valsize) && negb (newidx =? -1) then
        vsize ← rd sl_size newidx;
        if valsize <? vp + vsize then mret None else
        count ← rd sl_count newidx;
        chunk ← rd_bytes (Z.to_nat vsize) newidx (if count =? -2 then 0%nat else OFF_VALUE);
        value ← mem_store vp chunk value;
        let vp := vp + vsize in
        link ← rd sl_link newidx;
        if link =? -1 then mret (Some value) else
        let loop_count := loop_count + 1 in
        max ← rd_max;
        if max <? loop_count then mret None else
        link ← rd sl_link newidx;
        race_copy fuel' link vp valsize loop_count value
      else mret (Some value)
  end.

Definition race_data (fuel : nat) (idx : Z) : RM (option bytes) :=
  if idx <? 0 then mret None else
  vs ← race_size fuel idx 0 0;
  match vs with
  | None => mret None
  | Some valsize =>
      if malloc_ok valsize then race_copy fuel idx 0 valsize 0 (replicate (Z.to_nat valsize) x00) else mret None
  end.

(** [qhasharr_get]; the loops get the rounds that [HashArr] gives them. *)
Definition race_get (key : bytes) : RM (option bytes) :=
  max ← rd_max;
  if max =? 0 then mret None else
  modulus ← rd_max;
  idx ← race_idx (S (Z.to_nat modulus)) key (bucket_of key modulus);
  if idx <? 0 then mret None else race_data (S (S (Z.to_nat modulus))) idx.

(** [hash_tbl_get]: what was read is copied before it is verified. *)
Definition race_tbl_get (key val : bytes) : RM (Z * bytes) :=
  if decide (key = []) then mret (QCONF_ERR_PARAM, val) else
  raw ← race_get key;
  match raw with
  | None => mret (QCONF_ERR_NOT_FOUND, val)
  | Some raw => match qconf_verify raw with Some r => mret r | None => undefined end
  end.
End Reader.

(** ** Sane tables *)

(** A slot whose link is an index or the end mark, and whose size is that of a block. Nothing is said of the
    chains: links may form cycles, and a size may belong to an earlier use of the slot. *)
Definition sane_slot (M : Z) (s : qhasharr_slot) : Prop :=
  -1 <= sl_link s < M /\ 0 <= sl_size s <= Z.of_nat SLOT_DATA_SIZE /\ length (sl_data s) = SLOT_DATA_SIZE.

Definition sane (M : Z) (t : qhasharr_t) : Prop :=
  maxslots t = M /\ blen (slots t) = M /\ Forall (sane_slot M) (slots t).

Lemma sane_slot_at M t i s : sane M t -> slot_at t i = Some s -> sane_slot M s /\ 0 <= i < M.
Proof.
  intros (_ & Hb & Hs). unfold slot_at. case_decide; [|done]. intros Hl. split; [by eapply Forall_lookup_1|].
  apply lookup_lt_Some in Hl. unfold blen in Hb. lia.
Qed.

Lemma sane_in M t i : sane M t -> 0 <= i < M -> exists s, slot_at t i = Some s /\ sane_slot M s.
Proof.
  intros Ht Hi. destruct (slot_at t i) as [s|] eqn:E; [exists s; split; [done|by eapply sane_slot_at]|].
  destruct Ht as (_ & Hb & _). unfold slot_at in E. rewrite decide_True in E by lia.
  apply lookup_ge_None in E. unfold blen in Hb. lia.
Qed.

(** ** A reader among writers *)

Section Safe.
Context `{KeyDigest} (mem : nat -> qhasharr_t) (malloc_ok : Z -> bool) (M : Z).
Context (HM : 0 < M < 2 ^ 31) (Hmem : forall n, sane M (mem n)).

(** Commands that end, with a result of which [Q] holds, however late they start. *)
Definition ends {A} (c : SM nat A) (Q : A -> Prop) : Prop := forall n, exists a n', c n = Some (a, n') /\ Q a.

Lemma ends_ret {A} (a : A) (Q : A -> Prop) : Q a -> ends (mret a) Q.
Proof. intros HQ n. by exists a, n. Qed.

Lemma ends_bind {A B} (c : SM nat A) (f : A -> SM nat B) P Q :
  ends c P -> (forall a, P a -> ends (f a) Q) -> ends (c ≫= f) Q.
Proof.
  intros Hc Hf n. destruct (Hc n) as (a & n1 & E & Ha). destruct (Hf a Ha n1) as (b & n2 & E2 & Hb).
  exists b, n2. by rewrite (SM_bind_Some _ _ _ _ _ E).
Qed.

Lemma ends_weaken {A} (c : SM nat A) (P Q : A -> Prop) : ends c P -> (forall a, P a -> Q a) -> ends c Q.
Proof. intros Hc HPQ n. destruct (Hc n) as (a & n' & E & Ha). exists a, n'. auto. Qed.

Lemma ends_rd {A} (f : qhasharr_slot -> A) i : 0 <= i < M -> ends (rd mem f i) (fun a => exists s, a = f s /\ sane_slot M s).
Proof.
  intros Hi n. destruct (sane_in M (mem n) i (Hmem n) Hi) as (s & Hs & Hok). exists (f s), (S n).
  unfold rd. rewrite Hs. eauto.
Qed.

Lemma ends_max : ends (rd_max mem) (fun m => m = M).
Proof. intros n. exists M, (S n). unfold rd_max. by destruct (Hmem n) as (-> & _). Qed.

Lemma ends_bytes len i off : 0 <= i < M -> (off + len <= SLOT_DATA_SIZE)%nat -> ends (rd_bytes mem len i off) (fun bs => length bs = len).
Proof.
  intros Hi. revert off. induction len as [|len IH]; intros off Hl; cbn [rd_bytes]; [by apply ends_ret|].
  eapply ends_bind; [by apply ends_rd|]. intros ? (s & -> & _ & _ & Hd).
  destruct (lookup_lt_is_Some_2 (sl_data s) off ltac:(lia)) as [b ->].
  eapply ends_bind; [apply IH; lia|]. intros bs Hbs. apply ends_ret. cbn. by rewrite Hbs.
Qed.

Lemma ends_same_key key idx : 0 <= idx < M -> ends (race_same_key mem key idx) (fun _ => True).
Proof.
  intros Hi. unfold race_same_key. eapply ends_bind; [by apply ends_rd|]. intros keylen _.
  destruct (blen key =? keylen); [|by apply ends_ret].
  destruct (Nat.leb_spec (length key) Q_HASHARR_KEYSIZE).
  - eapply ends_bind; [apply ends_bytes; [done|unfold OFF_KEY, Q_HASHARR_KEYSIZE, SLOT_DATA_SIZE in *; lia]|]. intros. by apply ends_ret.
  - eapply ends_bind; [apply ends_bytes; [done|unfold OFF_KEY, Q_HASHARR_KEYSIZE, SLOT_DATA_SIZE in *; lia]|]. intros k _.
    case_bool_decide; [|by apply ends_ret].
    eapply ends_bind; [apply ends_bytes; [done|unfold OFF_KEYMD5, SLOT_DATA_SIZE in *; lia]|]. intros. by apply ends_ret.
Qed.

Lemma ends_same_hash hash idx : 0 <= idx < M -> ends (race_same_hash mem hash idx) (fun _ => True).
Proof.
  intros Hi. unfold race_same_hash. eapply ends_bind; [by apply ends_rd|]. intros h _. destruct (h =? hash); [|by apply ends_ret].
  eapply ends_bind; [by apply ends_rd|]. intros c _. destruct (0 <? c); [by apply ends_ret|].
  eapply ends_bind; [by apply ends_rd|]. intros. by apply ends_ret.
Qed.

(** The scan of the slots goes round once: it is at the slot [dist] steps before the one it began with. *)
Lemma ends_idx_loop fuel key hash count idx dist :
  0 <= hash < M -> 0 <= idx < M -> 1 <= dist <= M -> (idx + dist = hash \/ idx + dist = hash + M) -> dist <= Z.of_nat fuel ->
  ends (race_idx_loop mem fuel key hash count idx) (fun i => -1 <= i < M).
Proof.
  intros Hh. revert count idx dist. induction fuel as [|fuel IH]; intros count idx dist Hi Hd Hdist Hf; [lia|]. cbn [race_idx_loop].
  eapply ends_bind; [by apply ends_rd|]. intros lead _. destruct (count <? lead); [|apply ends_ret; lia].
  eapply ends_bind; [by apply ends_same_hash|]. intros same _.
  eapply (ends_bind _ _ (fun _ => True)); [destruct same; [by apply ends_same_key|by apply ends_ret]|]. intros found _.
  destruct found; [apply ends_ret; lia|]. eapply ends_bind; [apply ends_max|]. intros max ->.
  set (idx' := if M <=? idx + 1 then 0 else idx + 1).
  destruct (Z.eqb_spec idx' hash) as [|Hne]; [apply ends_ret; lia|].
  revert Hne. unfold idx'. destruct (Z.leb_spec M (idx + 1)); intros Hne; apply (IH _ _ (dist - 1)); lia.
Qed.

Lemma ends_idx fuel key hash : 0 <= hash < M -> M <= Z.of_nat fuel -> ends (race_idx mem fuel key hash) (fun i => -1 <= i < M).
Proof.
  intros Hh Hf. unfold race_idx. eapply ends_bind; [by apply ends_rd|]. intros lead _.
  destruct (0 <? lead); [|apply ends_ret; lia]. apply (ends_idx_loop _ _ _ _ _ M); lia.
Qed.

(** At most a block per slot, and one, is added up, however the links change. *)
Definition max_value : Z := Z.of_nat SLOT_DATA_SIZE * (M + 1).

Lemma ends_size fuel newidx valsize lc :
  -1 <= newidx < M -> 0 <= lc <= M -> 0 <= valsize <= Z.of_nat SLOT_DATA_SIZE * lc -> M - lc < Z.of_nat fuel ->
  ends (race_size mem fuel newidx valsize lc) (fun r => forall v, r = Some v -> 0 <= v <= max_value).
Proof.
  revert newidx valsize lc. induction fuel as [|fuel IH]; intros newidx valsize lc Hi Hlc Hv Hf; [lia|]. cbn [race_size].
  assert (Hret : forall v, 0 <= v <= Z.of_nat SLOT_DATA_SIZE * (lc + 1) ->
    ends (mret (Some v) : SM nat _) (fun r => forall v, r = Some v -> 0 <= v <= max_value)).
  { intros v Hle. apply ends_ret. intros ? [= <-]. unfold max_value, SLOT_DATA_SIZE in *. lia. }
  destruct (Z.eqb_spec newidx (-1)); [apply Hret; unfold SLOT_DATA_SIZE in *; lia|].
  eapply ends_bind; [apply ends_rd; lia|]. intros ? (s & -> & _ & Hsz & _).
  assert (Eu : u64 (valsize + sl_size s) = valsize + sl_size s).
  { unfold u64. rewrite Z.mod_small; [done|]. unfold SLOT_DATA_SIZE in *. lia. }
  rewrite Eu. eapply ends_bind; [apply ends_rd; lia|]. intros link _.
  destruct (link =? -1); [apply Hret; unfold SLOT_DATA_SIZE in *; lia|].
  eapply ends_bind; [apply ends_max|]. intros max ->.
  destruct (Z.ltb_spec M (lc + 1)); [by apply ends_ret|].
  eapply ends_bind; [apply ends_rd; lia|]. intros ? (s' & -> & Hl & _).
  apply IH; unfold SLOT_DATA_SIZE in *; lia.
Qed.

(** A write that the check before it keeps inside the allocated block. *)
Lemma ends_store vp chunk block :
  0 <= vp -> vp + blen chunk <= blen block -> ends (mem_store vp chunk block) (fun b => blen b = blen block).
Proof.
  intros Hv Hl. unfold mem_store. destruct (Z.leb_spec 0 vp); [|lia]. destruct (Z.leb_spec (vp + blen chunk) (blen block)); [|lia].
  apply ends_ret. unfold blen in *. rewrite length_mem_write; [done|lia].
Qed.

Lemma ends_copy fuel newidx vp valsize lc value :
  -1 <= newidx < M -> 0 <= lc <= M -> 0 <= vp <= valsize -> blen value = valsize -> M - lc < Z.of_nat fuel ->
  ends (race_copy mem fuel newidx vp valsize lc value) (fun r => forall bs, r = Some bs -> blen bs = valsize).
Proof.
  revert newidx vp lc value. induction fuel as [|fuel IH]; intros newidx vp lc value Hi Hlc Hv Hl Hf; [lia|]. cbn [race_copy].
  destruct (Z.ltb_spec vp valsize); [|apply ends_ret; by intros ? [= <-]].
  destruct (Z.eqb_spec newidx (-1)); [apply ends_ret; by intros ? [= <-]|]. cbn [negb andb].
  eapply ends_bind; [apply ends_rd; lia|]. intros ? (s & -> & _ & Hsz & _).
  destruct (Z.ltb_spec valsize (vp + sl_size s)); [by apply ends_ret|].
  eapply ends_bind; [apply ends_rd; lia|]. intros count _.
  replace (if count =? -2 then 0%nat else OFF_VALUE) with 0%nat by (by destruct (count =? -2)).
  eapply ends_bind; [apply ends_bytes; [lia|unfold SLOT_DATA_SIZE in *; lia]|]. intros chunk Hc.
  eapply ends_bind; [apply ends_store; unfold blen in *; lia|]. intros value' Hl'. cbv beta in Hl'.
  eapply ends_bind; [apply ends_rd; lia|]. intros link _. destruct (link =? -1); [apply ends_ret; intros ? [= <-]; lia|].
  eapply ends_bind; [apply ends_max|]. intros max ->.
  destruct (Z.ltb_spec M (lc + 1)); [by apply ends_ret|].
  eapply ends_bind; [apply ends_rd; lia|]. intros ? (s' & -> & Hlk & _). apply IH; lia.
Qed.

Lemma ends_data fuel idx : -1 <= idx < M -> M < Z.of_nat fuel ->
  ends (race_data mem malloc_ok fuel idx) (fun r => forall bs, r = Some bs -> blen bs <= max_value).
Proof.
  intros Hi Hf. unfold race_data. destruct (idx <? 0); [by apply ends_ret|].
  eapply ends_bind; [apply ends_size; unfold SLOT_DATA_SIZE; lia|]. intros [v|] Hv; [|by apply ends_ret].
  specialize (Hv v eq_refl). destruct (malloc_ok v); [|by apply ends_ret].
  eapply ends_weaken; [apply (ends_copy _ _ _ v); try lia; unfold blen; rewrite length_replicate; lia|].
  intros r Hr bs ->. rewrite (Hr bs eq_refl). lia.
Qed.

Lemma ends_get key : ends (race_get mem malloc_ok key) (fun r => forall bs, r = Some bs -> blen bs <= max_value).
Proof.
  unfold race_get. eapply ends_bind; [apply ends_max|]. intros max ->. destruct (Z.eqb_spec M 0); [lia|].
  eapply ends_bind; [apply ends_max|]. intros max ->.
  assert (Hb : 0 <= bucket_of key M < M) by (unfold bucket_of; apply Z.mod_pos_bound; lia).
  eapply ends_bind; [apply (ends_idx _ _ _ Hb); lia|]. intros i Hi.
  destruct (i <? 0); [by apply ends_ret|]. apply ends_data; [done|lia].
Qed.
End Safe.

(** ** A reader alone *)

Section Quiet.
Context `{KeyDigest} (t : qhasharr_t) (malloc_ok : Z -> bool).
Context (Hdata : forall i s, slot_at t i = Some s -> length (sl_data s) = SLOT_DATA_SIZE).

Abbreviation alone := (fun _ : nat => t).

(** Whenever the command of [HashArr] returns a result, it leaves the table and the reader of accesses
    returns the same. *)
Definition agrees {A} (c : HM A) (r : SM nat A) : Prop := forall e a st n,
  c (HS e (Some t)) = Some (a, st) -> (exists e', st = HS e' (Some t)) /\ exists n', r n = Some (a, n').

Lemma agrees_ret {A} (a : A) : agrees (mret a) (mret a).
Proof. intros e b st n [= <- <-]. eauto. Qed.

Lemma agrees_fail {A} err (a : A) : agrees (fail_with err a) (mret a).
Proof. intros e b st n [= <- <-]. eauto. Qed.

Lemma agrees_bind {A B} (c : HM A) r (f : A -> HM B) g :
  agrees c r -> (forall a, agrees (f a) (g a)) -> agrees (c ≫= f) (r ≫= g).
Proof.
  intros Hc Hf e b st n (a & st1 & E1 & E2)%SM_bind_inv. destruct (Hc _ _ _ n E1) as [(e1 & ->) (n1 & E)].
  rewrite (SM_bind_Some _ _ _ _ _ E). by apply (Hf a e1).
Qed.

Lemma agrees_slot {B} i (f : qhasharr_slot -> HM B) r :
  (forall s, slot_at t i = Some s -> agrees (f s) r) -> agrees (read_slot i ≫= f) r.
Proof.
  intros Hf e b st n (s & st1 & E1 & E2)%SM_bind_inv. unfold read_slot in E1.
  apply SM_bind_inv in E1 as (t' & st2 & [= <- <-] & E1). destruct (slot_at t i) as [s'|] eqn:E; [|done].
  injection E1 as <- <-. by apply (Hf s' eq_refl e).
Qed.

Lemma agrees_max {B} (f : Z -> HM B) r : agrees (f (maxslots t)) r -> agrees (get_maxslots ≫= f) r.
Proof. intros Hf e b st n E. by apply (Hf e). Qed.

(** The reader alone: a command with result [a]. *)
Definition runs {A} (r : SM nat A) (a : A) : Prop := forall n, exists n', r n = Some (a, n').

Lemma runs_ret {A} (a : A) : runs (mret a) a.
Proof. intros n. by exists n. Qed.

Lemma runs_bind {A B} (r : SM nat A) (g : A -> SM nat B) a b : runs r a -> runs (g a) b -> runs (r ≫= g) b.
Proof. intros Hr Hg n. destruct (Hr n) as (n1 & E). rewrite (SM_bind_Some _ _ _ _ _ E). apply Hg. Qed.

Lemma agrees_run {A B} (r : SM nat A) a (c : HM B) g : runs r a -> agrees c (g a) -> agrees c (r ≫= g).
Proof. intros Hr Hc e b st n E. destruct (Hr n) as (n1 & E1). rewrite (SM_bind_Some _ _ _ _ _ E1). by apply (Hc e b st). Qed.

Lemma runs_rd {A} (f : qhasharr_slot -> A) i s : slot_at t i = Some s -> runs (rd alone f i) (f s).
Proof. intros Hs n. exists (S n). unfold rd. by rewrite Hs. Qed.

Lemma runs_max : runs (rd_max alone) (maxslots t).
Proof. intros n. by exists (S n). Qed.

Lemma runs_bytes len i off s : slot_at t i = Some s -> (off + len <= SLOT_DATA_SIZE)%nat ->
  runs (rd_bytes alone len i off) (sub_bytes off len (sl_data s)).
Proof.
  intros Hs. revert off. induction len as [|len IH]; intros off Hl; cbn [rd_bytes]; [apply runs_ret|].
  pose proof (Hdata i s Hs) as Hd. destruct (lookup_lt_is_Some_2 (sl_data s) off ltac:(lia)) as [b Hb].
  eapply runs_bind; [by apply runs_rd|]. rewrite Hb. eapply runs_bind; [apply IH; lia|].
  unfold sub_bytes. rewrite (drop_S (sl_data s) b off Hb). apply runs_ret.
Qed.

Lemma runs_same_key key idx s : slot_at t idx = Some s -> runs (race_same_key alone key idx) (same_key key s).
Proof.
  intros Hs. unfold race_same_key, same_key. eapply runs_bind; [by apply runs_rd|].
  destruct (blen key =? pair_keylen (sl_data s)); [cbn [andb]|apply runs_ret].
  destruct (Nat.leb_spec (length key) Q_HASHARR_KEYSIZE).
  - eapply runs_bind; [apply runs_bytes; [done|unfold OFF_KEY, Q_HASHARR_KEYSIZE, SLOT_DATA_SIZE in *; lia]|].
    unfold pair_key, sub_bytes. rewrite take_take, Nat.min_l by done. apply runs_ret.
  - eapply runs_bind; [apply runs_bytes; [done|unfold OFF_KEY, Q_HASHARR_KEYSIZE, SLOT_DATA_SIZE in *; lia]|].
    change (sub_bytes OFF_KEY Q_HASHARR_KEYSIZE (sl_data s)) with (pair_key (sl_data s)).
    destruct (bool_decide (take Q_HASHARR_KEYSIZE key = pair_key (sl_data s))); cbn [andb]; [|apply runs_ret].
    eapply runs_bind; [apply runs_bytes; [done|unfold OFF_KEYMD5, SLOT_DATA_SIZE in *; lia]|]. apply runs_ret.
Qed.

Lemma runs_same_hash hash idx s : slot_at t idx = Some s ->
  runs (race_same_hash alone hash idx) ((sl_hash s =? hash) && ((0 <? sl_count s) || (sl_count s =? -1))).
Proof.
  intros Hs. unfold race_same_hash. eapply runs_bind; [by apply runs_rd|]. destruct (sl_hash s =? hash); [|apply runs_ret].
  eapply runs_bind; [by apply runs_rd|]. destruct (0 <? sl_count s); [apply runs_ret|].
  eapply runs_bind; [by apply runs_rd|]. apply runs_ret.
Qed.

(** ** The loops, alone *)

Lemma agrees_idx_loop fuel key hash count idx :
  agrees (get_idx_loop fuel key hash count idx) (race_idx_loop alone fuel key hash count idx).
Proof.
  revert count idx. induction fuel as [|fuel IH]; intros count idx; [by intros e a st n|]. cbn [get_idx_loop race_idx_loop].
  apply agrees_slot. intros lead Hl. eapply agrees_run; [by apply runs_rd|]. destruct (count <? sl_count lead); [|apply agrees_ret].
  apply agrees_slot. intros s Hs. eapply agrees_run; [by apply runs_same_hash|]. cbv zeta.
  set (same := (sl_hash s =? hash) && _).
  eapply (agrees_run _ (same && same_key key s)); [destruct same; [by apply runs_same_key|apply runs_ret]|].
  destruct (same && same_key key s); [apply agrees_ret|]. apply agrees_max. eapply agrees_run; [apply runs_max|].
  destruct ((if maxslots t <=? idx + 1 then 0 else idx + 1) =? hash); [apply agrees_ret|apply IH].
Qed.

Lemma agrees_size fuel newidx valsize lc : agrees (data_size fuel newidx valsize lc) (race_size alone fuel newidx valsize lc).
Proof.
  revert newidx valsize lc. induction fuel as [|fuel IH]; intros newidx valsize lc; [by intros e a st n|]. cbn [data_size race_size].
  destruct (newidx =? -1); [apply agrees_ret|]. apply agrees_slot. intros s Hs. do 2 (eapply agrees_run; [by apply runs_rd|]). cbv zeta.
  destruct (sl_link s =? -1); [apply agrees_ret|]. apply agrees_max. eapply agrees_run; [apply runs_max|].
  destruct (_ <? _); [apply agrees_ret|]. eapply agrees_run; [by apply runs_rd|]. apply IH.
Qed.

(** The bytes that [HashArr] takes from a slot are those the reader finds. *)
Lemma agrees_chunk {B} i s vsize (f : bytes -> HM B) g : slot_at t i = Some s ->
  (forall bs, agrees (f bs) (g bs)) ->
  agrees (slot_bytes s vsize ≫= f) (rd_bytes alone (Z.to_nat vsize) i (if sl_count s =? -2 then 0%nat else OFF_VALUE) ≫= g).
Proof.
  intros Hs Hf. unfold slot_bytes.
  assert (Hgo : vsize <= Z.of_nat SLOT_DATA_SIZE -> agrees (mret (take (Z.to_nat vsize) (sl_data s)) ≫= f)
    (rd_bytes alone (Z.to_nat vsize) i 0 ≫= g)).
  { intros Hv. eapply agrees_run; [apply runs_bytes; [done|unfold SLOT_DATA_SIZE in *; lia]|]. unfold sub_bytes. rewrite drop_0. apply Hf. }
  destruct (sl_count s =? -2).
  - destruct (Z.leb_spec vsize (Z.of_nat SLOT_DATA_SIZE)); [auto|by intros e a st n].
  - destruct (Z.leb_spec vsize (Z.of_nat Q_HASHARR_VALUESIZE)) as [Hv|]; [|by intros e a st n].
    unfold pair_value, sub_bytes. unfold OFF_VALUE. rewrite drop_0, take_take, Nat.min_l by (unfold Q_HASHARR_VALUESIZE in *; lia).
    apply Hgo. unfold SLOT_DATA_SIZE, Q_HASHARR_VALUESIZE in *. lia.
Qed.

Lemma agrees_store vp chunk block : agrees (mem_store vp chunk block) (mem_store vp chunk block).
Proof.
  intros e a st n. unfold mem_store. destruct (_ && _); [|done]. intros [= <- <-]. eauto.
Qed.

Lemma agrees_copy fuel newidx vp valsize lc value :
  agrees (copy_data fuel newidx vp valsize lc value) (race_copy alone fuel newidx vp valsize lc value).
Proof.
  revert newidx vp lc value. induction fuel as [|fuel IH]; intros newidx vp lc value; [by intros e a st n|]. cbn [copy_data race_copy].
  destruct ((vp <? valsize) && negb (newidx =? -1)); [|apply agrees_ret]. apply agrees_slot. intros s Hs.
  eapply agrees_run; [by apply runs_rd|]. cbv zeta. destruct (valsize <? vp + sl_size s); [apply agrees_ret|].
  eapply agrees_run; [by apply runs_rd|]. apply agrees_chunk; [done|]. intros bs.
  apply agrees_bind; [apply agrees_store|]. intros value'. eapply agrees_run; [by apply runs_rd|].
  destruct (sl_link s =? -1); [apply agrees_ret|]. apply agrees_max. eapply agrees_run; [apply runs_max|].
  destruct (_ <? _); [apply agrees_ret|]. eapply agrees_run; [by apply runs_rd|]. apply IH.
Qed.

Lemma agrees_null {B} (f : bool -> HM B) r : agrees (f false) r -> agrees (tbl_null ≫= f) r.
Proof. intros Hf e b st n E. by apply (Hf e). Qed.

Lemma agrees_idx key hash : agrees (get_idx (Some key) hash) (race_idx alone (S (Z.to_nat (maxslots t))) key hash).
Proof.
  unfold get_idx, race_idx. apply agrees_null, agrees_slot. intros lead Hl. eapply agrees_run; [by apply runs_rd|].
  destruct (0 <? sl_count lead); [|apply agrees_ret]. apply agrees_max, agrees_idx_loop.
Qed.

Lemma agrees_data idx : agrees (get_data malloc_ok idx) (race_data alone malloc_ok (S (S (Z.to_nat (maxslots t)))) idx).
Proof.
  unfold get_data, race_data. destruct (idx <? 0); [apply agrees_fail|]. apply agrees_max, agrees_bind; [apply agrees_size|].
  intros [v|]; [|apply agrees_ret]. destruct (malloc_ok v); [apply agrees_copy|apply agrees_fail].
Qed.

(** What [qhasharr_get] returns, the reader of accesses returns. *)
Lemma agrees_get key : agrees (qhasharr_get malloc_ok (Some key)) (race_get alone malloc_ok key).
Proof.
  unfold qhasharr_get, race_get. apply agrees_null, agrees_max. eapply agrees_run; [apply runs_max|].
  destruct (maxslots t =? 0); [apply agrees_ret|]. eapply agrees_run; [apply runs_max|]. apply agrees_bind; [apply agrees_idx|].
  intros i. destruct (i <? 0); [apply agrees_fail|apply agrees_data].
Qed.
End Quiet.

(** ** Theorems *)

Section Theorems.
Context `{KeyDigest}.

(** C5. A client may read the table while the agent writes it. Whatever sane tables its accesses find, one
    after the other, [qhasharr_get] ends, accesses only memory of the table, copies only into the block it
    allocated (an access or a copy outside of them would be undefined) and returns nothing or at most as many bytes as the table has room for. [hash_tbl_get] then
    reports "not found", or accepts a value that, as it was read, is followed by its verification code, or
    reports a damaged value. The exception are fewer than four bytes: their length field is read past the
    end. *)
Theorem torn_read_safe (mem : nat -> qhasharr_t) malloc_ok M key val n :
  0 < M < 2 ^ 31 -> (forall n, sane M (mem n)) -> key <> [] ->
  exists raw n', race_get mem malloc_ok key n = Some (raw, n') /\
    match raw with
    | None => race_tbl_get mem malloc_ok key val n = Some ((QCONF_ERR_NOT_FOUND, val), n')
    | Some bs => blen bs <= Z.of_nat SLOT_DATA_SIZE * (M + 1) /\
        if blen bs <? Z.of_nat QCONF_VALUE_SIZE_LEN then race_tbl_get mem malloc_ok key val n = None
        else exists ret v, race_tbl_get mem malloc_ok key val n = Some ((ret, v), n') /\
          ((ret = QCONF_OK /\ blen v < 2 ^ 32 /\ exists rest, bs = field QCONF_VALUE_SIZE_LEN v ++ code_of v ++ rest) \/
           (ret = QCONF_ERR_TBL_DATA_MESS /\ v = bs))
    end.
Proof.
  intros HM Hmem Hk. destruct (ends_get mem malloc_ok M HM Hmem key n) as (raw & n' & Hrun & Hlen).
  exists raw, n'. split; [done|]. unfold race_tbl_get. rewrite decide_False by done. rewrite (SM_bind_Some _ _ _ _ _ Hrun).
  destruct raw as [bs|]; [|done]. split; [by apply Hlen|].
  destruct (qconf_verify bs) as [[ret v]|] eqn:Hv; unfold qconf_verify in Hv; destruct (blen bs <? Z.of_nat QCONF_VALUE_SIZE_LEN) eqn:E; try done.
  - exists ret, v. split; [done|]. revert Hv. cbv zeta. repeat case_match; intros [= <- <-]; try (by right); left.
    + split; [done|]. apply verify_accepts. unfold qconf_verify. rewrite E. cbv zeta. by repeat case_match.
    + split; [done|]. apply verify_accepts. unfold qconf_verify. rewrite E. cbv zeta. by repeat case_match.
  - revert Hv. cbv zeta. by repeat case_match.
Qed.

(** C8. In a table that nobody writes, the reader that accesses the memory field by field and byte by byte
    returns exactly what the table holds for the key: the theorems that take a look at the table as one step
    are about this reader too. *)
Theorem quiet_read t vm key val n :
  tbl_ok t (with_code <$> vm) -> map_Forall (fun _ v => blen v < 2 ^ 32) vm -> key <> [] ->
  exists n', race_tbl_get (fun _ => t) (fun _ => true) key val n =
    Some (match vm !! kid_of_key key (maxslots t) with Some v => (QCONF_OK, v) | None => (QCONF_ERR_NOT_FOUND, val) end, n').
Proof.
  intros Hok Hv Hk. destruct t as [M u num l]. cbn [maxslots].
  assert (Hdata : forall i s, slot_at (Tbl M u num l) i = Some s -> length (sl_data s) = SLOT_DATA_SIZE).
  { intros i s Hs. destruct Hok as [[_ Hb _ _ _] _]. by destruct (lb_slot l Hb i s Hs). }
  pose proof (HashArrMap.get_tbl (fun _ => true) 0 M u num l _ key Hok) as Hget. rewrite lookup_fmap in Hget.
  unfold race_tbl_get. rewrite decide_False by done. pose proof (agrees_get _ (fun _ => true) Hdata key 0) as Hag.
  destruct (vm !! kid_of_key key M) as [v|] eqn:Hl; cbn [fmap option_fmap option_map] in Hget;
    destruct (Hag _ _ n Hget) as [_ (n' & Hrun)]; exists n'; rewrite (SM_bind_Some _ _ _ _ _ Hrun); [|done].
  pose proof (verify_code v [] (Hv _ _ Hl)) as E. rewrite app_nil_r in E. by rewrite E.
Qed.
End Theorems.
End Race.
