(* ===== verification/RaceStore.v ===== *)
(** * Every store of the writers

    The operations of [qhasharr.c] that write the table, with each store into the shared memory made
    explicit: a command returns, besides its result, the tables it leaves behind after every single store,
    up to the access that is undefined when there is one. A store is one field of a slot, one byte of its
    union, or a counter ([one_store]); [memcpy] and [memset] of a whole slot go through it in the order of
    the addresses, storing the (aligned) fields each at once.

    These commands do what those of [HashArr] do, and no store makes a sane table ([Race]) other than sane:
    what a reader that runs at the same time relies on. *)

From S2P Require Import Prelude Common HashArr HashArrSeg HashArrInv HashArrSpec HashArrMap HashArrThm Format Store Shm Race.

Module RaceStore.
Import HashArr Race.

Definition TM (A : Type) : Type := hstate -> list qhasharr_t * option (A * hstate).

#[global] Instance TM_ret : MRet TM := fun A a st => ([], Some (a, st)).
#[global] Instance TM_bind : MBind TM := fun A B f r st =>
  match r st with
  | (ts, Some (a, st')) => let '(ts', o) := f a st' in (ts ++ ts', o)
  | (ts, None) => (ts, None)
  end.

(** A command that stores nothing in the table, and one that stores once. *)
Definition silent {A} (c : HM A) : TM A := fun st => ([], c st).
Definition store (c : HM unit) : TM unit := fun st =>
  match c st with
  | Some (u, HS e (Some t)) => ([t], Some (u, HS e (Some t)))
  | o => ([], o)
  end.

(** A field of a slot, a byte of its union. *)
Definition put (i : Z) (f : qhasharr_slot -> qhasharr_slot) : TM unit := store (write_slot i f).

Definition put_byte (i : Z) (p : nat) (b : byte) : TM unit :=
  if (p <? SLOT_DATA_SIZE)%nat then put i (fun s => set_data (<[p := b]> (sl_data s)) s) else silent undefined.

Fixpoint put_bytes (i : Z) (off : nat) (bs : bytes) : TM unit :=
  match bs with
  | [] => mret tt
  | b :: bs' => put_byte i off b;; put_bytes i (S off) bs'
  end.

Definition put_keylen (i len : Z) : TM unit :=
  put i (fun s => set_data (mem_write OFF_KEYLEN (le_bytes 2 len) (sl_data s)) s).

(** [memcpy] from a slot, or [memset], over the whole slot. *)
Definition put_slot (i : Z) (s : qhasharr_slot) : TM unit :=
  put i (set_count (sl_count s));; put i (set_hash (sl_hash s));; put i (set_size (sl_size s));;
  put i (set_link (sl_link s));; put_bytes i 0 (sl_data s).

(** ** The internal operations, store by store *)

Definition w_remove_slot (idx : Z) : TM bool :=
  s ← silent (read_slot idx);
  if sl_count s =? 0 then silent (fail_with EFAULT false) else
  put idx (set_count 0);;
  store (add_used (-1));;
  mret true.

Definition w_copy_slot (idx1 idx2 : Z) : TM bool :=
  s1 ← silent (read_slot idx1);
  if negb (sl_count s1 =? 0) then silent (fail_with EFAULT false) else
  s2 ← silent (read_slot idx2);
  if sl_count s2 =? 0 then silent (fail_with EFAULT false) else
  put_slot idx1 s2;;
  store (add_used 1);;
  mret true.

Fixpoint w_remove_chain (fuel : nat) (idx loop_count : Z) : TM unit :=
  match fuel with
  | O => silent undefined
  | S fuel' =>
      s ← silent (read_slot idx);
      let link := sl_link s in
      w_remove_slot idx;;
      if link =? -1 then mret tt else
      max ← silent get_maxslots;
      let loop_count := loop_count + 1 in
      if max <? loop_count then mret tt else w_remove_chain fuel' link loop_count
  end.

Definition w_remove_data (idx : Z) : TM bool :=
  s ← silent (read_slot idx);
  if sl_count s =? 0 then silent (fail_with EFAULT false) else
  max ← silent get_maxslots;
  w_remove_chain (S (S (Z.to_nat max))) idx 0;;
  store (add_num (-1));;
  mret true.

(** A further block of a value: cleared, filled in, and only then reached from the one before it. *)
Definition w_new_block (tmpidx newidx : Z) : TM unit :=
  put_slot tmpidx zero_slot;;
  put tmpidx (set_count (-2));;
  put tmpidx (set_hash (u32 newidx));;
  put tmpidx (set_link (-1));;
  put tmpidx (set_size 0).

Fixpoint w_put_value (fuel : nat) (idx newidx savesize : Z) (value : bytes) : TM bool :=
  match fuel with
  | O => silent undefined
  | S fuel' =>
      if savesize <? blen value then
        next ← (if 0 <? savesize then
                  tmpidx ← silent (find_empty (newidx + 1));
                  if tmpidx <? 0 then mret None else
                  w_new_block tmpidx newidx;;
                  put newidx (set_link tmpidx);;
                  mret (Some tmpidx)
                else mret (Some newidx));
        match next with
        | None => w_remove_data idx;; silent (fail_with ENOBUFS false)
        | Some newidx =>
            s ← silent (read_slot newidx);
            let copysize := blen value - savesize in
            let ext := sl_count s =? -2 in
            let room := if ext then Z.of_nat SLOT_DATA_SIZE else Z.of_nat Q_HASHARR_VALUESIZE in
            let copysize := if room <? copysize then room else copysize in
            let chunk := take (Z.to_nat copysize) (drop (Z.to_nat savesize) value) in
            put_bytes newidx OFF_VALUE chunk;;
            (if ext then mret tt else store (add_num 1));;
            put newidx (set_size (u8 copysize));;
            store (add_used 1);;
            w_put_value fuel' idx newidx (savesize + copysize) value
        end
      else mret true
  end.

Section WithDigest.
Context `{KeyDigest}.

(** The key and the fields of the slot that is taken. *)
Definition w_store_key (idx hash : Z) (key : bytes) (count : Z) : TM unit :=
  put idx (set_count count);;
  put idx (set_hash hash);;
  put_bytes idx OFF_KEY (take (min (length key) Q_HASHARR_KEYSIZE) key);;
  put_bytes idx OFF_KEYMD5 (key_md5 key);;
  put_keylen idx (blen key);;
  put idx (set_link (-1)).

Definition w_put_data (idx hash : Z) (key value : bytes) (count : Z) : TM bool :=
  s ← silent (read_slot idx);
  if negb (sl_count s =? 0) then silent (fail_with EFAULT false) else
  w_store_key idx hash key count;;
  w_put_value (S (length value)) idx idx 0 value.

(** ** The public operations, store by store *)

Definition w_relink_child (idx : Z) : TM unit :=
  s ← silent (read_slot idx);
  if sl_link s =? -1 then mret tt else put (sl_link s) (set_hash (u32 idx)).

Definition w_qhasharr_remove (key : option bytes) : TM bool :=
  null ← silent tbl_null;
  match null, key with
  | false, Some k =>
      max ← silent get_maxslots;
      if max =? 0 then mret false else
      let hash := bucket_of k max in
      idx ← silent (get_idx (Some k) hash);
      if idx <? 0 then silent (fail_with ENOENT false) else
      s ← silent (read_slot idx);
      if sl_count s =? 1 then
        w_remove_data idx;; mret true
      else if 1 <? sl_count s then
        dup ← silent (find_dup (S (S (Z.to_nat max))) hash idx (idx + 1));
        match dup with
        | None => mret false
        | Some idx2 =>
            s ← silent (read_slot idx);
            let backupcount := sl_count s in
            w_remove_data idx;;
            w_copy_slot idx idx2;;
            w_remove_slot idx2;;
            put idx (set_count (i16 (backupcount - 1)));;
            w_relink_child idx;;
            mret true
        end
      else if sl_count s =? -1 then
        lead ← silent (read_slot (sl_hash s));
        if sl_count lead <=? 1 then silent (fail_with EFAULT false) else
        put (sl_hash s) (fun l => set_count (i16 (sl_count l - 1)) l);;
        w_remove_data idx;;
        mret true
      else silent (fail_with ENOENT false)
  | _, _ => silent (fail_with EINVAL false)
  end.

Fixpoint w_put_rec (fuel : nat) (key value : option bytes) : TM bool :=
  match fuel with
  | O => silent undefined
  | S fuel' =>
      null ← silent tbl_null;
      match null, key, value with
      | false, Some k, Some v =>
          max ← silent get_maxslots;
          if max =? 0 then mret false else
          used ← silent get_usedslots;
          if max <=? used then silent (fail_with ENOBUFS false) else
          let hash := bucket_of k max in
          s ← silent (read_slot hash);
          if sl_count s =? 0 then w_put_data hash hash k v 1
          else if 0 <? sl_count s then
            idx ← silent (get_idx (Some k) hash);
            if 0 <=? idx then
              removed ← w_qhasharr_remove (Some k);
              if (removed : bool) then w_put_rec fuel' (Some k) (Some v) else mret false
            else
              idx ← silent (find_empty hash);
              if idx <? 0 then silent (fail_with ENOBUFS false) else
              stored ← w_put_data idx hash k v (-1);
              if (stored : bool)
              then put hash (fun l => set_count (i16 (sl_count l + 1)) l);; mret true
              else mret false
          else
            idx ← silent (find_empty (hash + 1));
            if idx <? 0 then silent (fail_with ENOBUFS false) else
            w_copy_slot idx hash;;
            w_remove_slot hash;;
            s ← silent (read_slot idx);
            (if sl_count s =? -2 then
               put (sl_hash s) (set_link (i32 idx));; w_relink_child idx
             else if sl_count s =? -1 then w_relink_child idx
             else mret tt);;
            w_put_data hash hash k v 1
      | _, _, _ => silent (fail_with EINVAL false)
      end
  end.

Definition w_qhasharr_put (key value : option bytes) : TM bool := w_put_rec 2 key value.

(** The slots, from the [i]-th on, are cleared. *)
Fixpoint w_clear_slots (n : nat) (i : Z) : TM unit :=
  match n with
  | O => mret tt
  | S n' => put_slot i zero_slot;; w_clear_slots n' (i + 1)
  end.

Definition set_used (u : Z) : HM unit := t ← the_tbl; set_tbl (Tbl (maxslots t) u (num t) (slots t)).
Definition set_num (n : Z) : HM unit := t ← the_tbl; set_tbl (Tbl (maxslots t) (usedslots t) n (slots t)).

Definition w_qhasharr_clear : TM unit :=
  null ← silent tbl_null;
  if null : bool then mret tt else
  t ← silent the_tbl;
  if usedslots t =? 0 then mret tt else
  store (set_used 0);;
  store (set_num 0);;
  w_clear_slots (Z.to_nat (maxslots t)) 0.

Definition w_op (o : op) : TM res :=
  match o with
  | OPut k v => b ← w_qhasharr_put (Some k) (Some v); mret (RBool b)
  | ORemove k => b ← w_qhasharr_remove (Some k); mret (RBool b)
  | OClear => w_qhasharr_clear;; mret RUnit
  | OGet _ | OExist _ | OSize => silent (run_op o)
  end.

Fixpoint w_ops (ops : list op) : TM (list res) :=
  match ops with
  | [] => mret []
  | o :: ops' => r ← w_op o; rs ← w_ops ops'; mret (r :: rs)
  end.
End WithDigest.

(** ** One store, and sequences of stores *)

Inductive one_store (t : qhasharr_t) : qhasharr_t -> Prop :=
  | store_count i s c : slot_at t i = Some s -> one_store t (upd t i (set_count c s))
  | store_hash i s h : slot_at t i = Some s -> one_store t (upd t i (set_hash h s))
  | store_size i s z : slot_at t i = Some s -> one_store t (upd t i (set_size z s))
  | store_link i s k : slot_at t i = Some s -> one_store t (upd t i (set_link k s))
  | store_byte i s p b : slot_at t i = Some s -> (p < SLOT_DATA_SIZE)%nat -> one_store t (upd t i (set_data (<[p := b]> (sl_data s)) s))
  | store_keylen i s len : slot_at t i = Some s -> one_store t (upd t i (set_data (mem_write OFF_KEYLEN (le_bytes 2 len) (sl_data s)) s))
  | store_used u : one_store t (Tbl (maxslots t) u (num t) (slots t))
  | store_num n : one_store t (Tbl (maxslots t) (usedslots t) n (slots t)).

Fixpoint store_chain (t : qhasharr_t) (ts : list qhasharr_t) : Prop :=
  match ts with [] => True | t' :: ts' => one_store t t' /\ store_chain t' ts' end.

Fixpoint final (t : qhasharr_t) (ts : list qhasharr_t) : qhasharr_t :=
  match ts with [] => t | t' :: ts' => final t' ts' end.

Lemma final_app t ts1 ts2 : final t (ts1 ++ ts2) = final (final t ts1) ts2.
Proof. revert t. induction ts1 as [|t1 ts1 IH]; intros t; [done|apply IH]. Qed.

Lemma chain_app t ts1 ts2 : store_chain t ts1 -> store_chain (final t ts1) ts2 -> store_chain t (ts1 ++ ts2).
Proof. revert t. induction ts1 as [|t1 ts1 IH]; intros t; [done|]. intros [? ?] ?. split; [done|by apply IH]. Qed.

Lemma final_forall (P : qhasharr_t -> Prop) t ts : P t -> Forall P ts -> P (final t ts).
Proof. intros Ht Hts. revert t Ht. induction Hts as [|t' ts Ht' _ IH]; intros t Ht; [done|by apply IH]. Qed.

(** ** No store makes a sane table other than sane *)

Section Keeps.
Context `{KeyDigest} (M : Z) (Mpos : 0 < M < 2 ^ 31).

(** The fields that may be anything. *)
Lemma sane_count c s : sane_slot M s -> sane_slot M (set_count c s).
Proof. done. Qed.
Lemma sane_hash h s : sane_slot M s -> sane_slot M (set_hash h s).
Proof. done. Qed.
Lemma sane_link l s : -1 <= l < M -> sane_slot M s -> sane_slot M (set_link l s).
Proof. intros Hl (_ & ? & ?). done. Qed.
Lemma sane_size z s : 0 <= z <= Z.of_nat SLOT_DATA_SIZE -> sane_slot M s -> sane_slot M (set_size z s).
Proof. intros Hz (? & _ & ?). done. Qed.
Lemma sane_data off bs s : (off + length bs <= SLOT_DATA_SIZE)%nat -> sane_slot M s -> sane_slot M (set_data (mem_write off bs (sl_data s)) s).
Proof. intros Hl (? & ? & Hd). split; [done|]. split; [done|]. cbn. rewrite length_mem_write; lia. Qed.
Lemma sane_byte p b s : sane_slot M s -> sane_slot M (set_data (<[p := b]> (sl_data s)) s).
Proof. intros (? & ? & Hd). split; [done|]. split; [done|]. cbn. by rewrite length_insert. Qed.

Lemma sane_zero : sane_slot M zero_slot.
Proof. split; [cbn; lia|]. split; [cbn; unfold SLOT_DATA_SIZE; lia|apply length_replicate]. Qed.

Lemma sane_fresh : sane M (Tbl M 0 0 (replicate (Z.to_nat M) zero_slot)).
Proof.
  split; [done|]. split; [unfold blen; cbn; rewrite length_replicate; lia|]. apply Forall_replicate, sane_zero.
Qed.

Lemma sane_upd t i s : sane M t -> sane_slot M s -> sane M (upd t i s).
Proof.
  intros (Hm & Hb & Hall) Hs. split; [done|]. split; [cbn; unfold blen in *; by rewrite length_insert|]. by apply Forall_insert.
Qed.

(** From a sane table, [r] does what [c] does; it gets there by single stores, and after each of them the
    table is sane. [Q] holds of the result. *)
Definition traces {A} (r : TM A) (c : HM A) (Q : A -> Prop) : Prop := forall e t, sane M t ->
  exists ts, r (HS e (Some t)) = (ts, c (HS e (Some t))) /\ store_chain t ts /\ Forall (sane M) ts /\
    forall a st, c (HS e (Some t)) = Some (a, st) -> (exists e', st = HS e' (Some (final t ts))) /\ Q a.

Lemma tr_ret {A} (a : A) (Q : A -> Prop) : Q a -> traces (mret a) (mret a) Q.
Proof. intros HQ e t Ht. exists []. do 3 (split; [done|]). intros b st [= <- <-]. eauto. Qed.

Lemma tr_undefined {A} (Q : A -> Prop) : traces (silent undefined) undefined Q.
Proof. intros e t Ht. by exists []. Qed.

Lemma tr_bind {A B} r (c : HM A) g (f : A -> HM B) P Q :
  traces r c P -> (forall a, P a -> traces (g a) (f a) Q) -> traces (r ≫= g) (c ≫= f) Q.
Proof.
  intros Hc Hf e t Ht. destruct (Hc e t Ht) as (ts & Er & Hch & Hall & Hres). unfold mbind, TM_bind, SM_bind. rewrite Er.
  destruct (c (HS e (Some t))) as [[a st]|] eqn:Ec; [|by exists ts]. destruct (Hres a st eq_refl) as [(e1 & ->) Ha].
  destruct (Hf a Ha e1 (final t ts) (final_forall _ _ _ Ht Hall)) as (ts' & Er' & Hch' & Hall' & Hres'). rewrite Er'.
  exists (ts ++ ts'). split; [done|]. split; [by apply chain_app|]. split; [by apply Forall_app|]. by rewrite final_app.
Qed.

Lemma tr_weaken {A} r (c : HM A) (P Q : A -> Prop) : traces r c P -> (forall a, P a -> Q a) -> traces r c Q.
Proof.
  intros Hc HPQ e t Ht. destruct (Hc e t Ht) as (ts & ? & ? & ? & Hres). exists ts. do 3 (split; [done|]).
  intros a st E. destruct (Hres a st E). auto.
Qed.

Lemma tr_same {A} r (c c' : HM A) Q :
  traces r c Q -> (forall e t, sane M t -> c (HS e (Some t)) = c' (HS e (Some t))) -> traces r c' Q.
Proof. intros Hc E e t Ht. rewrite <- E by done. by apply Hc. Qed.

(** Commands that only look at the table. *)
Definition looks {A} (c : HM A) (Q : A -> Prop) : Prop := forall e t a st, sane M t ->
  c (HS e (Some t)) = Some (a, st) -> (exists e', st = HS e' (Some t)) /\ Q a.

Lemma tr_silent {A} (c : HM A) Q : looks c Q -> traces (silent c) c Q.
Proof. intros Hc e t Ht. exists []. do 3 (split; [done|]). intros a st E. by apply (Hc e t a st). Qed.

Lemma looks_ret {A} (a : A) (Q : A -> Prop) : Q a -> looks (mret a) Q.
Proof. intros HQ e t b st Ht [= <- <-]. eauto. Qed.

Lemma looks_fail {A} err (a : A) (Q : A -> Prop) : Q a -> looks (fail_with err a) Q.
Proof. intros HQ e t b st Ht [= <- <-]. eauto. Qed.

Lemma looks_bind {A B} (c : HM A) (f : A -> HM B) P Q :
  looks c P -> (forall a, P a -> looks (f a) Q) -> looks (c ≫= f) Q.
Proof.
  intros Hc Hf e t b st Ht (a & st1 & E1 & E2)%SM_bind_inv. destruct (Hc _ _ _ _ Ht E1) as [(e1 & ->) Ha].
  by apply (Hf a Ha e1 t).
Qed.

Lemma looks_max : looks get_maxslots (fun m => m = M).
Proof. intros e t a st Ht [= <- <-]. split; [eauto|by destruct Ht]. Qed.

Lemma looks_used : looks get_usedslots (fun _ => True).
Proof. intros e t a st Ht [= <- <-]. eauto. Qed.

Lemma looks_null : looks tbl_null (fun b => b = false).
Proof. intros e t a st Ht [= <- <-]. eauto. Qed.

Lemma looks_tbl : looks the_tbl (sane M).
Proof. intros e t a st Ht [= <- <-]. eauto. Qed.

Lemma looks_read i : looks (read_slot i) (fun s => sane_slot M s /\ 0 <= i < M).
Proof.
  intros e t a st Ht (t' & st1 & [= <- <-] & E)%SM_bind_inv. destruct (slot_at t i) as [s|] eqn:Es; [|done].
  injection E as <- <-. split; [eauto|by eapply sane_slot_at].
Qed.

Lemma looks_find_loop fuel start idx : looks (find_empty_loop fuel start idx) (fun i => -1 <= i < M).
Proof.
  revert idx. induction fuel as [|fuel IH]; intros idx; [by intros e t a st|]. cbn [find_empty_loop].
  eapply looks_bind; [apply looks_read|]. intros s [_ Hi]. destruct (sl_count s =? 0); [apply looks_ret; lia|].
  eapply looks_bind; [apply looks_max|]. intros max ->. destruct (_ =? start); [apply looks_ret; lia|]. apply IH.
Qed.

Lemma looks_find_empty i : looks (find_empty i) (fun i => -1 <= i < M).
Proof.
  unfold find_empty. eapply looks_bind; [apply looks_max|]. intros max ->. destruct (M <=? 0); [apply looks_ret; lia|apply looks_find_loop].
Qed.

Lemma looks_idx_loop fuel key hash count idx : looks (get_idx_loop fuel key hash count idx) (fun _ => True).
Proof.
  revert count idx. induction fuel as [|fuel IH]; intros count idx; [by intros e t a st|]. cbn [get_idx_loop].
  eapply looks_bind; [apply looks_read|]. intros lead _. destruct (_ <? _); [|by apply looks_ret].
  eapply looks_bind; [apply looks_read|]. intros s _. destruct (_ && same_key key s); [by apply looks_ret|].
  eapply looks_bind; [apply looks_max|]. intros max _. set (i := if max <=? idx + 1 then 0 else idx + 1).
  destruct (i =? hash); [by apply looks_ret|]. apply IH.
Qed.

Lemma looks_idx key hash : looks (get_idx (Some key) hash) (fun _ => True).
Proof.
  unfold get_idx. eapply looks_bind; [apply looks_null|]. intros ? ->.
  eapply looks_bind; [apply looks_read|]. intros lead _. destruct (_ <? _); [|by apply looks_ret].
  eapply looks_bind; [apply looks_max|]. intros max _. apply looks_idx_loop.
Qed.

Lemma looks_find_dup fuel hash idx idx2 : looks (find_dup fuel hash idx idx2) (fun _ => True).
Proof.
  revert idx2. induction fuel as [|fuel IH]; intros idx2; [by intros e t a st|]. cbn [find_dup].
  eapply looks_bind; [apply looks_max|]. intros max _. set (i := if max <=? idx2 then 0 else idx2).
  destruct (i =? idx); [by apply looks_fail|]. eapply looks_bind; [apply looks_read|]. intros s _.
  destruct (_ && _); [by apply looks_ret|]. apply IH.
Qed.

Lemma looks_get malloc_ok key : looks (qhasharr_get malloc_ok (Some key)) (fun _ => True).
Proof.
  intros e t a st Ht E. split; [|done]. assert (Hd : forall i s, slot_at t i = Some s -> length (sl_data s) = SLOT_DATA_SIZE).
  { intros i s Hs. by apply (sane_slot_at M t i s). }
  destruct (agrees_get t malloc_ok Hd key e a st 0%nat E) as [(e' & ->) _]. eauto.
Qed.

Lemma looks_exist key : looks (qhasharr_exist (Some key)) (fun _ => True).
Proof.
  unfold qhasharr_exist. eapply looks_bind; [apply looks_null|]. intros ? ->. eapply looks_bind; [apply looks_max|]. intros max ->.
  destruct (M =? 0); [by apply looks_ret|]. eapply looks_bind; [apply looks_idx|]. intros. by apply looks_ret.
Qed.
Create HintDb looks.
#[local] Hint Resolve looks_ret looks_fail looks_max looks_used looks_null looks_tbl looks_read looks_find_empty looks_idx looks_find_dup looks_get looks_exist : looks.

(** ** Single stores, and what several of them make up *)

Lemma tr_store (c : HM unit) :
  (forall e t, sane M t -> c (HS e (Some t)) = None \/
    exists t', c (HS e (Some t)) = Some (tt, HS e (Some t')) /\ sane M t' /\ one_store t t') ->
  traces (store c) c (fun _ => True).
Proof.
  intros Hc e t Ht. unfold store. destruct (Hc e t Ht) as [E|(t' & E & Ht' & Ho)]; rewrite E; [by exists []|].
  exists [t']. split; [done|]. split; [done|]. split; [by constructor|]. intros a st [= <- <-]. split; [by exists e|done].
Qed.

Lemma tr_counters u n :
  (forall t, one_store t (Tbl (maxslots t) (u t) (n t) (slots t))) ->
  traces (store (t ← the_tbl; set_tbl (Tbl (maxslots t) (u t) (n t) (slots t)))) (t ← the_tbl; set_tbl (Tbl (maxslots t) (u t) (n t) (slots t))) (fun _ => True).
Proof.
  intros Ho. apply tr_store. intros e t Ht. right. eexists. split; [done|]. split; [|apply Ho]. by destruct Ht as (? & ? & ?).
Qed.

Lemma tr_used_add d : traces (store (add_used d)) (add_used d) (fun _ => True).
Proof. apply (tr_counters (fun t => i32 (usedslots t + d)) num). constructor. Qed.
Lemma tr_num_add d : traces (store (add_num d)) (add_num d) (fun _ => True).
Proof. apply (tr_counters usedslots (fun t => i32 (num t + d))). constructor. Qed.
Lemma tr_used_set u : traces (store (set_used u)) (set_used u) (fun _ => True).
Proof. apply (tr_counters (fun _ => u) num). constructor. Qed.
Lemma tr_num_set n : traces (store (set_num n)) (set_num n) (fun _ => True).
Proof. apply (tr_counters usedslots (fun _ => n)). constructor. Qed.

(** Commands that write one slot of the table. *)
Abbreviation slot_traces r i f := (traces r (write_slot i f) (fun _ => 0 <= i < M)).

Lemma write_run i f e t : write_slot i f (HS e (Some t)) =
  match slot_at t i with Some s => Some (tt, HS e (Some (upd t i (f s)))) | None => None end.
Proof. unfold write_slot, the_tbl, mbind, SM_bind. cbn [h_tbl]. by destruct (slot_at t i). Qed.

Lemma tr_put i f :
  (forall s, sane_slot M s -> sane_slot M (f s)) -> (forall t s, slot_at t i = Some s -> one_store t (upd t i (f s))) ->
  slot_traces (put i f) i f.
Proof.
  intros Hf Ho. unfold put. intros e t Ht. unfold store. rewrite !write_run. destruct (slot_at t i) as [s|] eqn:Es; [|by exists []].
  destruct (sane_slot_at M t i s Ht Es) as [Hs Hi]. exists [upd t i (f s)]. split; [done|]. split; [split; [by apply Ho|done]|].
  split; [constructor; [apply sane_upd; auto|done]|]. intros a st [= <- <-]. split; [by exists e|done].
Qed.

Lemma tr_fuse i r1 r2 f g h :
  slot_traces r1 i f -> (0 <= i < M -> slot_traces r2 i g) -> (forall s, sane_slot M s -> g (f s) = h s) ->
  slot_traces (r1;; r2) i h.
Proof.
  intros H1 H2 Hh. apply (tr_same _ (write_slot i f;; write_slot i g)); [by eapply tr_bind|].
  intros e t Ht. unfold mbind, SM_bind. rewrite !write_run. destruct (slot_at t i) as [s|] eqn:Es; [|done].
  destruct (sane_slot_at M t i s Ht Es) as [Hs Hi]. rewrite write_run.
  assert (Eu : slot_at (upd t i (f s)) i = Some (f s)).
  { unfold slot_at in *. rewrite decide_True in * by lia. cbn [slots upd]. apply list_lookup_insert_eq. by eapply lookup_lt_Some. }
  rewrite Eu, (Hh s Hs). do 4 f_equal. unfold upd. cbn [slots maxslots usedslots num]. by rewrite list_insert_insert_eq.
Qed.

Lemma tr_put_count i c : slot_traces (put i (set_count c)) i (set_count c).
Proof. apply tr_put; [done|]. intros. by constructor. Qed.
Lemma tr_put_hash i h : slot_traces (put i (set_hash h)) i (set_hash h).
Proof. apply tr_put; [done|]. intros. by constructor. Qed.
Lemma tr_put_link i k : -1 <= k < M -> slot_traces (put i (set_link k)) i (set_link k).
Proof. intros. apply tr_put; [intros; by apply sane_link|]. intros. by constructor. Qed.
Lemma tr_put_size i z : 0 <= z <= Z.of_nat SLOT_DATA_SIZE -> slot_traces (put i (set_size z)) i (set_size z).
Proof. intros. apply tr_put; [intros; by apply sane_size|]. intros. by constructor. Qed.
Lemma tr_put_counts i f : slot_traces (put i (fun l => set_count (f l) l)) i (fun l => set_count (f l) l).
Proof. apply tr_put; [done|]. intros. by constructor. Qed.

Lemma mem_write_byte off b bs d : (off + S (length bs) <= length d)%nat ->
  mem_write (S off) bs (<[off := b]> d) = mem_write off (b :: bs) d.
Proof.
  intros Hl. assert (Ht : length (take off d) = off) by (rewrite length_take; lia).
  unfold mem_write. rewrite insert_take_drop by lia.
  assert (E1 : S off = (length (take off d) + 1)%nat) by lia. rewrite E1 at 1. rewrite take_app_add.
  assert (E2 : (S off + length bs)%nat = (length (take off d) + S (length bs))%nat) by lia. rewrite E2, drop_app_add.
  cbn [take drop length]. rewrite drop_drop, <- app_assoc. cbn [app].
  by replace (S off + length bs)%nat with (off + S (length bs))%nat by lia.
Qed.

Lemma tr_put_bytes i off bs : 0 <= i < M -> (off + length bs <= SLOT_DATA_SIZE)%nat ->
  slot_traces (put_bytes i off bs) i (fun s => set_data (mem_write off bs (sl_data s)) s).
Proof.
  intros Hi. revert off. induction bs as [|b bs IH]; intros off Hl; cbn [put_bytes length] in *.
  - apply (tr_same _ (mret tt)); [by apply tr_ret|]. intros e t Ht. rewrite write_run. destruct (sane_in M t i Ht Hi) as (s & Es & _).
    rewrite Es. unfold mret, SM_ret. do 4 f_equal. unfold mem_write. cbn [length app]. rewrite Nat.add_0_r, take_drop.
    unfold slot_at in Es. rewrite decide_True in Es by lia. destruct t as [m u n l]. unfold upd. cbn [slots maxslots usedslots num] in *.
    by destruct s; rewrite list_insert_id.
  - eapply tr_fuse; [|intros _; apply IH; lia|].
    + unfold put_byte. destruct (Nat.ltb_spec off SLOT_DATA_SIZE); [|lia]. apply tr_put; [intros; by apply sane_byte|]. intros. by constructor.
    + intros s (_ & _ & Hd). unfold set_data. cbn [sl_data sl_count sl_hash sl_size sl_link]. rewrite mem_write_byte by lia. done.
Qed.

Lemma mem_write_whole bs d : length bs = length d -> mem_write 0 bs d = bs.
Proof. intros E. unfold mem_write. rewrite take_0, drop_ge, app_nil_r by (simpl; lia). done. Qed.

Lemma tr_put_slot i s : sane_slot M s -> slot_traces (put_slot i s) i (fun _ => s).
Proof.
  intros (Hl & Hz & Hd). unfold put_slot.
  eapply tr_fuse; [apply tr_put_count|intros Hi|]; [|intros x Hx; instantiate (1 := fun x => Slot (sl_count x) (sl_hash s) (sl_size s) (sl_link s) (sl_data s)); by destruct s].
  eapply tr_fuse; [apply tr_put_hash|intros _|]; [|intros x Hx; instantiate (1 := fun x => Slot (sl_count x) (sl_hash x) (sl_size s) (sl_link s) (sl_data s)); done].
  eapply tr_fuse; [by apply tr_put_size|intros _|]; [|intros x Hx; instantiate (1 := fun x => Slot (sl_count x) (sl_hash x) (sl_size x) (sl_link s) (sl_data s)); done].
  eapply tr_fuse; [by apply tr_put_link|intros _; apply tr_put_bytes; [done|lia]|]. intros x (_ & _ & Hx).
  unfold set_data, set_link. cbn [sl_data sl_count sl_hash sl_size sl_link]. by rewrite mem_write_whole by lia.
Qed.

(** ** The operations *)

Ltac tr_look := eapply tr_bind; [apply tr_silent; auto with looks|].

Lemma tr_fail {A} err (a : A) (Q : A -> Prop) : Q a -> traces (silent (fail_with err a)) (fail_with err a) Q.
Proof. intros. by apply tr_silent, looks_fail. Qed.

Lemma tr_remove_slot idx : traces (w_remove_slot idx) (remove_slot idx) (fun _ => True).
Proof.
  unfold w_remove_slot, remove_slot. tr_look. intros s _. destruct (sl_count s =? 0); [by apply tr_fail|].
  eapply tr_bind; [apply tr_put_count|]. intros _ _. eapply tr_bind; [apply tr_used_add|]. intros. by apply tr_ret.
Qed.

Lemma tr_copy_slot i j : traces (w_copy_slot i j) (copy_slot i j) (fun _ => 0 <= i < M).
Proof.
  unfold w_copy_slot, copy_slot. tr_look. intros s1 [_ Hi]. destruct (negb _); [by apply tr_fail|].
  tr_look. intros s2 [Hs _]. destruct (_ =? 0); [by apply tr_fail|].
  eapply tr_bind; [by apply tr_put_slot|]. intros _ _. eapply tr_bind; [apply tr_used_add|]. intros. by apply tr_ret.
Qed.

Lemma tr_remove_chain fuel idx lc : traces (w_remove_chain fuel idx lc) (remove_chain fuel idx lc) (fun _ => True).
Proof.
  revert idx lc. induction fuel as [|fuel IH]; intros idx lc; [apply tr_undefined|]. cbn [w_remove_chain remove_chain].
  tr_look. intros s _. eapply tr_bind; [apply tr_remove_slot|]. intros _ _.
  destruct (_ =? -1); [by apply tr_ret|]. tr_look. intros max _. destruct (_ <? _); [by apply tr_ret|]. apply IH.
Qed.

Lemma tr_remove_data idx : traces (w_remove_data idx) (remove_data idx) (fun _ => True).
Proof.
  unfold w_remove_data, remove_data. tr_look. intros s _. destruct (_ =? 0); [by apply tr_fail|].
  tr_look. intros max _. eapply tr_bind; [apply tr_remove_chain|]. intros _ _.
  eapply tr_bind; [apply tr_num_add|]. intros. by apply tr_ret.
Qed.

Lemma tr_relink i : traces (w_relink_child i) (relink_child i) (fun _ => True).
Proof.
  unfold w_relink_child, relink_child. tr_look. intros s _. destruct (_ =? -1); [by apply tr_ret|].
  eapply tr_weaken; [apply tr_put_hash|done].
Qed.

Lemma tr_new_block tmpidx newidx :
  slot_traces (w_new_block tmpidx newidx) tmpidx (fun _ => Slot (-2) (u32 newidx) 0 (-1) zero_data).
Proof.
  unfold w_new_block. eapply tr_fuse; [apply tr_put_slot, sane_zero|intros Hi|intros x Hx; instantiate (1 := fun x => Slot (-2) (u32 newidx) 0 (-1) (sl_data x)); done].
  eapply tr_fuse; [apply tr_put_count|intros _|intros x Hx; instantiate (1 := fun x => Slot (sl_count x) (u32 newidx) 0 (-1) (sl_data x)); done].
  eapply tr_fuse; [apply tr_put_hash|intros _|intros x Hx; instantiate (1 := fun x => Slot (sl_count x) (sl_hash x) 0 (-1) (sl_data x)); done].
  eapply tr_fuse; [apply tr_put_link; lia|intros _; apply tr_put_size; unfold SLOT_DATA_SIZE; lia|]. done.
Qed.

Lemma tr_put_value fuel idx newidx savesize value : 0 <= savesize ->
  traces (w_put_value fuel idx newidx savesize value) (put_value fuel idx newidx savesize value) (fun _ => True).
Proof.
  revert newidx savesize. induction fuel as [|fuel IH]; intros newidx savesize Hs; [apply tr_undefined|]. cbn [w_put_value put_value].
  destruct (Z.ltb_spec savesize (blen value)); [|by apply tr_ret].
  eapply (tr_bind _ _ _ _ (fun _ => True)).
  { destruct (0 <? savesize); [|by apply tr_ret]. tr_look. intros i Hi. cbv beta in Hi.
    destruct (Z.ltb_spec i 0); [by apply tr_ret|]. eapply tr_bind; [apply tr_new_block|]. intros _ _.
    eapply tr_bind; [apply tr_put_link; lia|]. intros. by apply tr_ret. }
  intros [i|] _; [|eapply tr_bind; [apply tr_remove_data|]; intros; by apply tr_fail].
  tr_look. intros s [_ Hi]. cbv zeta.
  set (room := if sl_count s =? -2 then Z.of_nat SLOT_DATA_SIZE else Z.of_nat Q_HASHARR_VALUESIZE).
  set (copysize := if room <? blen value - savesize then room else blen value - savesize).
  assert (Hroom : 0 < room <= Z.of_nat SLOT_DATA_SIZE).
  { unfold room, SLOT_DATA_SIZE, Q_HASHARR_VALUESIZE. destruct (_ =? -2); lia. }
  assert (Hc : 0 < copysize <= Z.of_nat SLOT_DATA_SIZE) by (unfold copysize; destruct (Z.ltb_spec room (blen value - savesize)); lia).
  eapply tr_bind; [apply tr_put_bytes; [done|]; rewrite length_take; unfold OFF_VALUE; lia|]. intros _ _.
  eapply (tr_bind _ _ _ _ (fun _ => True)); [destruct (_ =? -2); [by apply tr_ret|apply tr_num_add]|]. intros _ _.
  eapply tr_bind; [apply tr_put_size; unfold u8; rewrite Z.mod_small; unfold SLOT_DATA_SIZE in *; lia|].
  intros _ _. eapply tr_bind; [apply tr_used_add|]. intros _ _. apply IH. lia.
Qed.

Lemma write_length off bs d : (off + length bs <= SLOT_DATA_SIZE)%nat -> length d = SLOT_DATA_SIZE -> length (mem_write off bs d) = SLOT_DATA_SIZE.
Proof. intros. rewrite length_mem_write; lia. Qed.

Lemma length_stored_key key d : length d = SLOT_DATA_SIZE -> length (store_key key d) = SLOT_DATA_SIZE.
Proof.
  intros Hd. unfold store_key. apply write_length; [rewrite length_le_bytes; unfold OFF_KEYLEN, SLOT_DATA_SIZE; lia|].
  apply write_length; [rewrite key_md5_length; unfold OFF_KEYMD5, SLOT_DATA_SIZE; lia|]. apply write_length; [|done].
  rewrite length_take. unfold OFF_KEY, Q_HASHARR_KEYSIZE, SLOT_DATA_SIZE. lia.
Qed.

Lemma tr_put_keylen i len :
  slot_traces (put_keylen i len) i (fun s => set_data (mem_write OFF_KEYLEN (le_bytes 2 len) (sl_data s)) s).
Proof.
  apply tr_put; [intros; apply sane_data; [rewrite length_le_bytes; unfold OFF_KEYLEN, SLOT_DATA_SIZE; lia|done]|]. intros. by constructor.
Qed.

Lemma tr_store_key idx hash key count :
  slot_traces (w_store_key idx hash key count) idx (fun s => Slot count hash (sl_size s) (-1) (store_key key (sl_data s))).
Proof.
  unfold w_store_key.
  eapply tr_fuse; [apply tr_put_count|intros Hi|intros x Hx; instantiate (1 := fun x => Slot (sl_count x) hash (sl_size x) (-1) (store_key key (sl_data x))); done].
  eapply tr_fuse; [apply tr_put_hash|intros _|intros x Hx; instantiate (1 := fun x => Slot (sl_count x) (sl_hash x) (sl_size x) (-1) (store_key key (sl_data x))); done].
  eapply tr_fuse; [apply tr_put_bytes; [done|rewrite length_take; unfold OFF_KEY, Q_HASHARR_KEYSIZE, SLOT_DATA_SIZE; lia]|intros _|].
  2:{ intros x Hx. instantiate (1 := fun x => Slot (sl_count x) (sl_hash x) (sl_size x) (-1)
        (mem_write OFF_KEYLEN (le_bytes 2 (blen key)) (mem_write OFF_KEYMD5 (key_md5 key) (sl_data x)))). done. }
  eapply tr_fuse; [apply tr_put_bytes; [done|rewrite key_md5_length; unfold OFF_KEYMD5, SLOT_DATA_SIZE; lia]|intros _|].
  2:{ intros x Hx. instantiate (1 := fun x => Slot (sl_count x) (sl_hash x) (sl_size x) (-1)
        (mem_write OFF_KEYLEN (le_bytes 2 (blen key)) (sl_data x))). done. }
  eapply tr_fuse; [apply tr_put_keylen|intros _; apply tr_put_link; lia|]. done.
Qed.

Lemma tr_put_data idx hash key value count : traces (w_put_data idx hash key value count) (put_data idx hash key value count) (fun _ => True).
Proof.
  unfold w_put_data, put_data. tr_look. intros s _. destruct (negb _); [by apply tr_fail|].
  eapply tr_bind; [apply tr_store_key|intros _ _; apply tr_put_value; lia].
Qed.

(** Removing the head of a bucket that has other keys: one of them takes its place. *)
Lemma tr_move idx idx2 c :
  traces (w_remove_data idx;; w_copy_slot idx idx2;; w_remove_slot idx2;; put idx (set_count c);; w_relink_child idx;; mret true)
    (remove_data idx;; copy_slot idx idx2;; remove_slot idx2;; write_slot idx (set_count c);; relink_child idx;; mret true) (fun _ => True).
Proof.
  eapply tr_bind; [apply tr_remove_data|]. intros _ _. eapply tr_bind; [apply tr_copy_slot|]. intros _ _.
  eapply tr_bind; [apply tr_remove_slot|]. intros _ _. eapply tr_bind; [apply tr_put_count|]. intros _ _.
  eapply tr_bind; [apply tr_relink|]. intros. by apply tr_ret.
Qed.

Lemma tr_remove key : traces (w_qhasharr_remove (Some key)) (qhasharr_remove (Some key)) (fun _ => True).
Proof.
  unfold w_qhasharr_remove, qhasharr_remove. tr_look. intros ? ->. tr_look. intros max ->.
  destruct (M =? 0); [by apply tr_ret|]. tr_look. intros idx _. destruct (idx <? 0); [by apply tr_fail|].
  tr_look. intros s _. destruct (sl_count s =? 1).
  { eapply tr_bind; [apply tr_remove_data|]. intros. by apply tr_ret. }
  destruct (1 <? sl_count s).
  { tr_look. intros [idx2|] _; [|by apply tr_ret]. tr_look. intros s' _. apply tr_move. }
  destruct (sl_count s =? -1); [|by apply tr_fail]. tr_look. intros lead _.
  destruct (_ <=? 1); [by apply tr_fail|]. eapply tr_bind; [apply tr_put_counts|]. intros _ _.
  eapply tr_bind; [apply tr_remove_data|]. intros. by apply tr_ret.
Qed.

(** Making room in a slot that a foreign key occupies. *)
Lemma tr_make_room idx hash k v :
  traces (w_copy_slot idx hash;; w_remove_slot hash;; s ← silent (read_slot idx);
      (if sl_count s =? -2 then put (sl_hash s) (set_link (i32 idx));; w_relink_child idx
       else if sl_count s =? -1 then w_relink_child idx else mret tt);; w_put_data hash hash k v 1)
    (copy_slot idx hash;; remove_slot hash;; s ← read_slot idx;
      (if sl_count s =? -2 then write_slot (sl_hash s) (set_link (i32 idx));; relink_child idx
       else if sl_count s =? -1 then relink_child idx else mret tt);; put_data hash hash k v 1) (fun _ => True).
Proof.
  eapply tr_bind; [apply tr_copy_slot|]. intros ? Hi. cbv beta in Hi. eapply tr_bind; [apply tr_remove_slot|]. intros _ _.
  tr_look. intros s _. eapply (tr_bind _ _ _ _ (fun _ => True)); [|intros _ _; apply tr_put_data].
  destruct (sl_count s =? -2).
  - eapply tr_bind; [apply tr_put_link; rewrite i32_small by lia; lia|]. intros _ _. apply tr_relink.
  - destruct (sl_count s =? -1); [apply tr_relink|by apply tr_ret].
Qed.

Lemma tr_put_rec fuel key value : traces (w_put_rec fuel (Some key) (Some value)) (put_rec fuel (Some key) (Some value)) (fun _ => True).
Proof.
  induction fuel as [|fuel IH]; [apply tr_undefined|]. cbn [w_put_rec put_rec]. tr_look. intros ? ->.
  tr_look. intros max ->. destruct (M =? 0); [by apply tr_ret|].
  tr_look. intros used _. destruct (M <=? used); [by apply tr_fail|].
  tr_look. intros s _. destruct (sl_count s =? 0); [apply tr_put_data|].
  destruct (0 <? sl_count s).
  - tr_look. intros idx _. destruct (0 <=? idx).
    { eapply tr_bind; [apply tr_remove|]. intros [] _; [done|by apply tr_ret]. }
    tr_look. intros i _. destruct (i <? 0); [by apply tr_fail|].
    eapply tr_bind; [apply tr_put_data|]. intros [] _; [|by apply tr_ret].
    eapply tr_bind; [apply tr_put_counts|]. intros. by apply tr_ret.
  - tr_look. intros i _. destruct (i <? 0); [by apply tr_fail|]. apply tr_make_room.
Qed.

(** Clearing the slots one by one clears them all. *)
Definition clear_from (n : nat) (i : Z) : HM unit :=
  t ← the_tbl;
  set_tbl (Tbl (maxslots t) (usedslots t) (num t) (take (Z.to_nat i) (slots t) ++ replicate n zero_slot ++ drop (Z.to_nat i + n) (slots t))).

Lemma clear_step n i e t : sane M t -> 0 <= i -> i + Z.of_nat (S n) <= M ->
  (write_slot i (fun _ => zero_slot);; clear_from n (i + 1)) (HS e (Some t)) = clear_from (S n) i (HS e (Some t)).
Proof.
  intros Ht Hi Hn. destruct (sane_in M t i Ht ltac:(lia)) as (s & Es & _). destruct Ht as (_ & Hb & _).
  unfold mbind at 1, SM_bind at 1. rewrite write_run, Es. unfold clear_from, the_tbl, set_tbl, modify, mbind, SM_bind. cbn [h_tbl h_errno upd slots maxslots usedslots num].
  unfold slot_at in Es. rewrite decide_True in Es by lia. apply lookup_lt_Some in Es.
  do 5 f_equal. rewrite insert_take_drop by done. replace (Z.to_nat (i + 1)) with (S (Z.to_nat i)) by lia.
  assert (Hl : length (take (Z.to_nat i) (slots t)) = Z.to_nat i) by (rewrite length_take; lia).
  assert (E1 : S (Z.to_nat i) = (length (take (Z.to_nat i) (slots t)) + 1)%nat) by lia. rewrite E1 at 1. rewrite take_app_add.
  assert (E2 : (S (Z.to_nat i) + n)%nat = (length (take (Z.to_nat i) (slots t)) + S n)%nat) by lia. rewrite E2, drop_app_add.
  cbn [take drop replicate app]. rewrite drop_drop, <- app_assoc. cbn [app].
  by replace (S (Z.to_nat i) + n)%nat with (Z.to_nat i + S n)%nat by lia.
Qed.

Lemma tr_clear_slots n i : 0 <= i -> i + Z.of_nat n <= M -> traces (w_clear_slots n i) (clear_from n i) (fun _ => True).
Proof.
  revert i. induction n as [|n IH]; intros i Hi Hn; cbn [w_clear_slots].
  - apply (tr_same _ (mret tt)); [by apply tr_ret|]. intros e [m u k l] Ht. unfold clear_from, the_tbl, set_tbl, modify, mbind, SM_bind, mret, SM_ret.
    cbn [h_tbl h_errno slots maxslots usedslots num replicate app]. by rewrite Nat.add_0_r, take_drop.
  - apply (tr_same _ (write_slot i (fun _ => zero_slot);; clear_from n (i + 1))); [|intros; by apply clear_step].
    eapply tr_bind; [apply tr_put_slot, sane_zero|]. intros _ _. apply IH; lia.
Qed.

Lemma tr_clear : traces w_qhasharr_clear qhasharr_clear (fun _ => True).
Proof.
  apply (tr_same _ (null ← tbl_null; if null : bool then mret tt else t ← the_tbl; if usedslots t =? 0 then mret tt else
    set_used 0;; set_num 0;; clear_from (Z.to_nat (maxslots t)) 0)).
  - unfold w_qhasharr_clear. tr_look. intros ? ->. tr_look. intros t Ht. cbv beta in Ht. destruct (usedslots t =? 0); [by apply tr_ret|].
    eapply tr_bind; [apply tr_used_set|]. intros _ _. eapply tr_bind; [apply tr_num_set|]. intros _ _.
    destruct Ht as (-> & _). apply tr_clear_slots; lia.
  - intros e [m u k l] (Hm & Hb & _). cbn [maxslots slots] in *. unfold qhasharr_clear, clear_from, set_used, set_num, the_tbl, tbl_null, gets, set_tbl, modify, mbind, SM_bind.
    cbn [h_tbl h_errno slots maxslots usedslots num]. destruct (u =? 0); [done|]. cbn [h_tbl h_errno slots maxslots usedslots num Z.to_nat take Nat.add app].
    rewrite drop_ge, app_nil_r by (unfold blen in Hb; lia). done.
Qed.

Lemma tr_op o : traces (w_op o) (run_op o) (fun _ => True).
Proof.
  destruct o as [k v|k|k|k| |]; cbn [w_op]; try (apply tr_silent; cbn [run_op]).
  - eapply tr_bind; [apply tr_put_rec|]. intros. by apply tr_ret.
  - eapply looks_bind; [apply looks_get|]. intros. by apply looks_ret.
  - eapply tr_bind; [apply tr_remove|]. intros. by apply tr_ret.
  - eapply looks_bind; [apply looks_exist|]. intros. by apply looks_ret.
  - intros e t a st Ht [= <- <-]. eauto.
  - eapply tr_bind; [apply tr_clear|]. intros. by apply tr_ret.
Qed.

Lemma tr_ops ops : traces (w_ops ops) (run_ops ops) (fun _ => True).
Proof.
  induction ops as [|o ops IH]; cbn [w_ops run_ops]; [by apply tr_ret|]. eapply tr_bind; [apply tr_op|]. intros r _.
  eapply tr_bind; [apply IH|]. intros. by apply tr_ret.
Qed.
End Keeps.

(** ** The theorem *)

Section Safe.
Context `{KeyDigest}.

(** C7. From any sane table, however its chains look, every sequence of calls of the table's operations does
    what [run_ops] says by a chain of single stores, each of one field, one byte of a slot's union or one
    counter, and after every single store the table is sane: links are indices or the end mark and sizes
    those of a block. If the run comes to an undefined access, this holds of all stores before it; from a
    table that stores a map, values that are not empty, keys of at most 65535 bytes and fewer than 32768
    keys and calls never do. So a client whose accesses fall between the stores in any way reads safely:
    [qhasharr_get] ends, defined, with nothing or at most as many bytes as the table has room for. *)
Theorem writers_keep_sane M ops e t :
  0 < M < 2 ^ 31 -> sane M t ->
  exists ts, w_ops ops (HS e (Some t)) = (ts, run_ops ops (HS e (Some t))) /\ store_chain t ts /\ Forall (sane M) ts /\
    (forall rs st, run_ops ops (HS e (Some t)) = Some (rs, st) -> h_tbl st = Some (final t ts)) /\
    (forall m, tbl_ok t m -> forallb op_ok ops = true -> Z.of_nat (size m) + blen ops < 2 ^ 15 ->
      is_Some (run_ops ops (HS e (Some t)))) /\
    forall malloc_ok key (moment : nat -> nat) n, exists raw n',
      race_get (fun k => default t ((t :: ts) !! moment k)) malloc_ok key n = Some (raw, n') /\
      forall bs, raw = Some bs -> blen bs <= Z.of_nat SLOT_DATA_SIZE * (M + 1).
Proof.
  intros HM Ht. destruct (tr_ops M HM ops e t Ht) as (ts & Er & Hch & Hall & Hres). exists ts. do 3 (split; [done|]). split; [|split].
  - intros rs st E. by destruct (Hres _ _ E) as [(e' & ->) _].
  - intros m Hok Hops Hlen. destruct t as [M' u n l]. pose proof (run_ops_ok ops e M' u n l m Hok Hops Hlen) as Hrun.
    destruct (spec_ops M' ops m e) as [[rs m'] e']. destruct Hrun as (u' & n' & l' & Hrun & _).
    rewrite Hrun. by eexists.
  - intros malloc_ok key moment n.
    assert (Hmem : forall k, sane M (default t ((t :: ts) !! moment k))).
    { intros k. destruct ((t :: ts) !! moment k) as [t'|] eqn:E; [|done]. cbn [default].
      assert (Hf : Forall (sane M) (t :: ts)) by by constructor. by eapply Forall_lookup_1. }
    destruct (ends_get _ malloc_ok M HM Hmem key n) as (raw & n' & Hrun & Hb). by exists raw, n'.
Qed.
End Safe.

(** A value of four slots is stored over a shorter one, a second key is stored, the first is removed and
    the table is cleared: in all some 1900 stores. A client that reads while they happen gets an answer. *)
Lemma writers_keep_sane_witness :
  let ops := [OPut (str "k") (replicate 50 x61); OPut (str "k") (replicate 400 x62); OPut (str "j") [x63]; ORemove (str "k"); OClear] in
  let t := Tbl 5 0 0 (replicate 5 zero_slot) in
  exists ts rs st, w_ops ops (HS 0 (Some t)) = (ts, Some (rs, st)) /\ rs = [RBool true; RBool true; RBool true; RBool true; RUnit] /\
    Forall (sane 5) ts /\ length ts = 1913%nat /\
    exists raw n', race_get (fun k => default t ((t :: ts) !! (7 * k)%nat)) (fun _ => true) (str "k") 0%nat = Some (raw, n').
Proof.
  intros ops t. pose proof (writers_keep_sane 5 ops 0 t (conj eq_refl eq_refl) (sane_fresh 5 (conj eq_refl eq_refl)))
    as (ts & Hw & _ & Hall & _ & Hdef & Hread).
  exists ts. assert (E : w_ops ops (HS 0 (Some t)) = (ts, run_ops ops (HS 0 (Some t)))) by exact Hw.
  destruct (run_ops ops (HS 0 (Some t))) as [[rs st]|] eqn:Er; [|vm_compute in Er; discriminate Er].
  exists rs, st. split; [exact Hw|]. split; [vm_compute in Er; injection Er as <- _; reflexivity|]. split; [exact Hall|]. split.
  - change ts with (ts, Some (rs, st)).1. rewrite <- Hw. vm_compute. reflexivity.
  - destruct (Hread (fun _ => true) (str "k") (fun k => (7 * k)%nat) 0%nat) as (raw & n' & Hr & _). exists raw, n'. exact Hr.
Defined.
End RaceStore.
