(* ===== verification/RaceWrite.v ===== *)
(** * Writing the table while it is read

    What a reader can see that comes in between the stores of one call of [qhasharr_put]: a value that is
    partly the old and partly the new one, and a key whose value is not there yet. ([RaceStore] shows that
    it reads safely all the same.) *)

From S2P Require Import Prelude Common HashArr HashArrSeg HashArrInv HashArrOps HashArrSpec HashArrMap HashArrThm Format FormatThm Store Shm ShmThm Race RaceStore.

Module RaceWrite.
Import HashArr Format Shm Race RaceStore.

(** ** What the verification does not see

    A key alone in its bucket, with a value that fits its slot, is overwritten. The call first removes the
    key, then stores it again, copies the value over the old one, and sets the size last. *)

Section Torn.
Context `{KeyDigest}.

(** [qhasharr_put] up to the point where [a] bytes of the value are copied, and what is left to do. *)
Definition put_begin (key value : bytes) (h : Z) (a : nat) : HM unit :=
  qhasharr_remove (Some key);;
  write_slot h (fun s => Slot 1 h (sl_size s) (-1) (store_key key (sl_data s)));;
  write_slot h (fun s => set_data (mem_write OFF_VALUE (take a value) (sl_data s)) s).

Definition put_finish (value : bytes) (h : Z) (a : nat) : HM bool :=
  write_slot h (fun s => set_data (mem_write a (drop a value) (sl_data s)) s);;
  add_num 1;;
  write_slot h (set_size (u8 (blen value)));;
  add_used 1;;
  mret true.

Context (M u n : Z) (l : list qhasharr_slot) (key : bytes) (sz : Z) (d : bytes).
Abbreviation h := (bucket_of key M).
Abbreviation s0 := (Slot 1 h sz (-1) d).

(** The key is the first of its bucket, alone in it, and its slot holds [sz] bytes of [d]. *)
Record alone_in : Prop := {
  al_max : 0 < M < 2 ^ 31;
  al_slot : sat l h = Some s0;
  al_key : same_key key s0 = true;
  al_data : length d = SLOT_DATA_SIZE
}.

Context (Hal : alone_in).

(** The slots while [a] bytes are copied. *)
Definition half (value : bytes) (a : nat) : list qhasharr_slot :=
  lupd l h (Slot 1 h sz (-1) (mem_write OFF_VALUE (take a value) (store_key key d))).

Lemma bucket_in : 0 <= h < M.
Proof. destruct Hal as [Hm _ _ _]. unfold bucket_of. apply Z.mod_pos_bound. lia. Qed.

Lemma idx_alone e : get_idx (Some key) h (st e M u n l) = Some (h, st e M u n l).
Proof.
  destruct Hal as [Hm Hs Hk _]. unfold get_idx. do 2 hstep. cbn [sl_count Z.ltb Z.compare]. hstep. cbn [get_idx_loop].
  hstep. cbn [sl_count Z.ltb Z.compare]. hstep. cbn [sl_hash sl_count]. rewrite Z.eqb_refl. cbn [Z.ltb Z.compare orb andb]. by rewrite Hk.
Qed.

Lemma remove_alone e :
  qhasharr_remove (Some key) (st e M u n l) = Some (true, st e M (i32 (u - 1)) (i32 (n - 1)) (lupd l h (Slot 0 h sz (-1) d))).
Proof.
  pose proof bucket_in as Hh. pose proof Hal as [Hm Hs Hk _]. unfold qhasharr_remove. do 2 hstep. destruct (Z.eqb_spec M 0); [lia|].
  erewrite SM_bind_Some; [|apply idx_alone]. destruct (Z.ltb_spec h 0); [lia|]. hstep. cbn [sl_count Z.eqb Pos.eqb].
  unfold remove_data. erewrite SM_bind_Some; [reflexivity|]. hstep. cbn [sl_count Z.eqb]. hstep.
  erewrite SM_bind_Some; [|cbn [remove_chain]; hstep; erewrite SM_bind_Some; [|unfold remove_slot; hstep; cbn [sl_count Z.eqb]; do 2 hstep; reflexivity]; reflexivity].
  hstep. reflexivity.
Qed.

Lemma lupd_lupd (k : list qhasharr_slot) i s s' : lupd (lupd k i s) i s' = lupd k i s'.
Proof. unfold lupd. by rewrite list_insert_insert_eq. Qed.

Lemma sat_h s : sat (lupd l h s) h = Some s.
Proof. destruct Hal as [_ Hs _ _]. by apply (sat_lupd_eq _ _ _ s0). Qed.

Lemma put_begin_ok e value a :
  put_begin key value h a (st e M u n l) = Some (tt, st e M (i32 (u - 1)) (i32 (n - 1)) (half value a)).
Proof.
  unfold put_begin. erewrite SM_bind_Some; [|apply remove_alone]. pose proof (sat_h (Slot 0 h sz (-1) d)) as E1. hstep.
  rewrite lupd_lupd. cbn [sl_size sl_data]. pose proof (sat_h (Slot 1 h sz (-1) (store_key key d))) as E2.
  rewrite (write_slot_ok _ _ _ _ _ _ _ _ E2). by rewrite lupd_lupd.
Qed.

Lemma write_twice (a : nat) (v dat : bytes) :
  (a <= length v)%nat -> (length v <= length dat)%nat ->
  mem_write a (drop a v) (mem_write 0 (take a v) dat) = mem_write 0 v dat.
Proof.
  intros Ha Hl. assert (Et : length (take a v) = a) by (rewrite length_take; lia).
  unfold mem_write. rewrite !take_0, !app_nil_l, !Nat.add_0_l, Et, length_drop.
  rewrite take_app_length' by done. rewrite drop_app_ge by lia. rewrite Et, drop_drop, app_assoc, take_drop.
  do 2 f_equal. lia.
Qed.

(** The slots after the call. *)
Definition written (value : bytes) : list qhasharr_slot :=
  lupd l h (Slot 1 h (blen value) (-1) (mem_write OFF_VALUE value (store_key key d))).

Lemma put_alone e value :
  0 < u < M -> 0 < blen value <= Z.of_nat Q_HASHARR_VALUESIZE ->
  qhasharr_put (Some key) (Some value) (st e M u n l) = Some (true, st e M (i32 (i32 (u - 1) + 1)) (i32 (i32 (n - 1) + 1)) (written value)).
Proof.
  intros Hu Hv. pose proof bucket_in as Hh. pose proof Hal as [Hm Hs Hk Hd]. unfold qhasharr_put. cbn [put_rec].
  do 2 hstep. destruct (Z.eqb_spec M 0); [lia|]. hstep. destruct (Z.leb_spec M u); [lia|]. hstep. cbn [sl_count Z.eqb Z.ltb Z.compare].
  erewrite SM_bind_Some; [|apply idx_alone]. destruct (Z.leb_spec 0 h); [|lia]. erewrite SM_bind_Some; [|apply remove_alone]. cbv iota.
  pose proof (sat_h (Slot 0 h sz (-1) d)) as E1. do 2 hstep. destruct (Z.eqb_spec M 0); [lia|]. hstep. rewrite (i32_small (u - 1)) by lia.
  destruct (Z.leb_spec M (u - 1)); [lia|]. hstep. cbn [sl_count Z.eqb]. unfold put_data. hstep. cbn [sl_count Z.eqb negb]. hstep.
  rewrite lupd_lupd. cbn [sl_size sl_data]. pose proof (sat_h (Slot 1 h sz (-1) (store_key key d))) as E2.
  cbn [put_value]. destruct (Z.ltb_spec 0 (blen value)); [|lia]. cbn [Z.ltb Z.compare]. erewrite SM_bind_Some; [|reflexivity]. cbv beta iota.
  hstep. cbn [sl_count Z.eqb]. rewrite Z.sub_0_r. destruct (Z.ltb_spec (Z.of_nat Q_HASHARR_VALUESIZE) (blen value)); [lia|].
  hstep. rewrite lupd_lupd. cbn [sl_data]. change (Z.to_nat 0) with 0%nat. rewrite drop_0.
  rewrite take_ge by (unfold blen; lia). set (sv := set_data _ _). pose proof (sat_h sv) as E3. do 3 hstep.
  rewrite lupd_lupd. destruct (length value) as [|k] eqn:El; [unfold blen in *; lia|]. cbn [put_value].
  destruct (Z.ltb_spec (0 + blen value) (blen value)); [lia|]. unfold written, sv, set_size, set_data. cbn [sl_count sl_hash sl_link sl_data].
  rewrite u8_small by (unfold Q_HASHARR_VALUESIZE in *; lia). done.
Qed.

(** Wherever the copying is cut, the two parts make up the call. *)
Lemma put_splits e value a :
  0 < u < M -> (a <= length value)%nat -> 0 < blen value <= Z.of_nat Q_HASHARR_VALUESIZE ->
  (put_begin key value h a;; put_finish value h a) (st e M u n l) = qhasharr_put (Some key) (Some value) (st e M u n l).
Proof.
  intros Hu Ha Hv. pose proof Hal as [Hm Hs Hk Hd]. pose proof (length_stored_key key d Hd) as Hkd.
  erewrite SM_bind_Some; [|apply put_begin_ok]. rewrite put_alone by done. unfold put_finish.
  assert (Eh : sat (half value a) h = Some (Slot 1 h sz (-1) (mem_write OFF_VALUE (take a value) (store_key key d)))) by apply sat_h.
  hstep. unfold half. rewrite lupd_lupd. unfold set_data. cbn [sl_count sl_hash sl_link sl_data sl_size].
  rewrite write_twice by (try done; rewrite Hkd; unfold blen, Q_HASHARR_VALUESIZE, SLOT_DATA_SIZE in *; lia).
  set (sv := Slot _ _ _ _ _). pose proof (sat_h sv) as E3. do 3 hstep. rewrite lupd_lupd. unfold written, sv, set_size.
  cbn [sl_count sl_hash sl_link sl_data]. rewrite u8_small by (unfold Q_HASHARR_VALUESIZE in *; lia). done.
Qed.

(** ** A reader in between *)

Section Between.
Context (mem : nat -> qhasharr_t).

Lemma rd_at {A} (f : qhasharr_slot -> A) i k s : slot_at (mem k) i = Some s -> rd mem f i k = Some (f s, S k).
Proof. intros Hs. unfold rd. by rewrite Hs. Qed.

(** The bytes [bs] that the accesses from the [k]-th on find. *)
Lemma bytes_from len i off k bs :
  length bs = len ->
  (forall j b, bs !! j = Some b -> exists s, slot_at (mem (k + j)) i = Some s /\ sl_data s !! (off + j)%nat = Some b) ->
  rd_bytes mem len i off k = Some (bs, (k + len)%nat).
Proof.
  revert off k bs. induction len as [|len IH]; intros off k [|b bs] Hl Hat; try done; cbn [rd_bytes].
  - by rewrite Nat.add_0_r.
  - destruct (Hat 0%nat b eq_refl) as (s & Hs & Hb). rewrite Nat.add_0_r in *.
    erewrite SM_bind_Some; [|by apply rd_at]. rewrite Hb. erewrite SM_bind_Some.
    2:{ apply (IH (S off) (S k) bs); [by injection Hl|]. intros j c Hc. destruct (Hat (S j) c Hc) as (s' & Hs' & Hc').
        exists s'. by replace (S k + j)%nat with (k + S j)%nat by lia; replace (S off + j)%nat with (off + S j)%nat by lia. }
    unfold mret, SM_ret. do 2 f_equal. lia.
Qed.

(** Part of a slot that does not change meanwhile. *)
Lemma bytes_still len i off k s :
  (off + len <= length (sl_data s))%nat -> (forall j, (k <= j < k + len)%nat -> slot_at (mem j) i = Some s) ->
  rd_bytes mem len i off k = Some (sub_bytes off len (sl_data s), (k + len)%nat).
Proof.
  intros Hl Hs. apply bytes_from; [apply sub_bytes_length; lia|]. intros j b Hb. exists s.
  unfold sub_bytes in Hb. pose proof (lookup_lt_Some _ _ _ Hb) as Hj. rewrite length_take in Hj.
  split; [apply Hs; lia|]. rewrite lookup_take_lt, lookup_drop in Hb by lia. done.
Qed.

(** How many accesses comparing the key takes, when it is the same. *)
Definition key_reads : nat := if (length key <=? Q_HASHARR_KEYSIZE)%nat then S (length key) else 49.

Lemma same_key_still k s i :
  same_key key s = true -> length (sl_data s) = SLOT_DATA_SIZE ->
  (forall j, (k <= j < k + key_reads)%nat -> slot_at (mem j) i = Some s) ->
  race_same_key mem key i k = Some (true, (k + key_reads)%nat).
Proof.
  unfold same_key, race_same_key, key_reads. intros Hk Hd Hs. unfold OFF_KEY, OFF_KEYMD5, Q_HASHARR_KEYSIZE, SLOT_DATA_SIZE in *. apply andb_true_iff in Hk as [Hkl Hk].
  destruct (Nat.leb_spec (length key) 32) as [Hle|Hgt].
  - erewrite SM_bind_Some; [|apply rd_at, Hs; lia]. rewrite Hkl. apply bool_decide_eq_true in Hk.
    erewrite SM_bind_Some; [|apply (bytes_still _ _ _ _ s); [lia|intros; apply Hs; lia]].
    unfold mret, SM_ret. do 2 f_equal; [|lia]. apply bool_decide_eq_true_2. rewrite Hk at 1. unfold pair_key, sub_bytes.
    by rewrite take_take, Nat.min_l by done.
  - erewrite SM_bind_Some; [|apply rd_at, Hs; lia]. rewrite Hkl. apply andb_true_iff in Hk as [Hk1 Hk2].
    erewrite SM_bind_Some; [|apply (bytes_still _ _ _ _ s); [lia|intros; apply Hs; lia]].
    change (sub_bytes 96 32 (sl_data s)) with (pair_key (sl_data s)). rewrite Hk1.
    erewrite SM_bind_Some; [|apply (bytes_still _ _ _ _ s); [lia|intros; apply Hs; lia]].
    change (sub_bytes 130 16 (sl_data s)) with (pair_keymd5 (sl_data s)). rewrite Hk2. unfold mret, SM_ret. do 2 f_equal. lia.
Qed.

(** The reader comes to the bytes of the slot after this many accesses. *)
Definition bytes_at : nat := 10 + key_reads.

Lemma reader_arrives malloc_ok bs s :
  (forall j, maxslots (mem j) = M) -> (forall j, (j < bytes_at)%nat -> slot_at (mem j) h = Some s0) ->
  0 < sz <= Z.of_nat SLOT_DATA_SIZE -> malloc_ok sz = true -> length bs = Z.to_nat sz ->
  rd_bytes mem (Z.to_nat sz) h 0 bytes_at = Some (bs, (bytes_at + Z.to_nat sz)%nat) ->
  slot_at (mem (bytes_at + Z.to_nat sz)%nat) h = Some s -> sl_link s = -1 ->
  exists k', race_get mem malloc_ok key 0%nat = Some (Some bs, k').
Proof.
  intros Hmax Hst Hz Hmal Hlen Hbs Hend Hlink. pose proof bucket_in as Hh. pose proof Hal as [Hm Hs Hk Hd]. unfold bytes_at in *.
  assert (Hrd : forall {A} (f : qhasharr_slot -> A) j, (j < 10 + key_reads)%nat -> rd mem f h j = Some (f s0, S j)).
  { intros A f j Hj. by apply rd_at, Hst. }
  assert (Hmx : forall j, rd_max mem j = Some (M, S j)) by (intros j; unfold rd_max; by rewrite Hmax).
  assert (Hix : race_idx mem (S (Z.to_nat M)) key h 2%nat = Some (h, (6 + key_reads)%nat)).
  { unfold race_idx. erewrite SM_bind_Some; [|apply Hrd; lia]. cbn [sl_count Z.ltb Z.compare race_idx_loop].
    erewrite SM_bind_Some; [|apply Hrd; lia]. cbn [sl_count Z.ltb Z.compare]. erewrite SM_bind_Some.
    2:{ unfold race_same_hash. erewrite SM_bind_Some; [|apply Hrd; lia]. cbn [sl_hash]. rewrite Z.eqb_refl.
        erewrite SM_bind_Some; [|apply Hrd; lia]. cbn [sl_count Z.ltb Z.compare]. reflexivity. }
    cbv beta iota. erewrite SM_bind_Some; [|apply (same_key_still 6 s0); [done|done|intros; apply Hst; lia]]. done. }
  eexists. unfold race_get. erewrite SM_bind_Some; [|apply Hmx]. destruct (Z.eqb_spec M 0); [lia|].
  erewrite SM_bind_Some; [|apply Hmx]. erewrite SM_bind_Some; [|exact Hix]. destruct (Z.ltb_spec h 0); [lia|].
  unfold race_data. destruct (Z.ltb_spec h 0); [lia|]. erewrite SM_bind_Some.
  2:{ cbn [race_size]. destruct (Z.eqb_spec h (-1)); [lia|]. do 2 (erewrite SM_bind_Some; [|apply Hrd; lia]). cbn [sl_link sl_size Z.eqb Pos.eqb]. reflexivity. }
  assert (Eu : u64 (0 + sz) = sz) by (unfold u64; rewrite Z.mod_small; unfold SLOT_DATA_SIZE in *; lia). rewrite Eu, Hmal.
  cbn [race_copy]. destruct (Z.ltb_spec 0 sz); [|lia]. destruct (Z.eqb_spec h (-1)); [lia|]. cbn [negb andb].
  erewrite SM_bind_Some; [|apply Hrd; lia]. cbn [sl_size]. destruct (Z.ltb_spec sz (0 + sz)); [lia|].
  erewrite SM_bind_Some; [|apply Hrd; lia]. cbn [sl_count Z.eqb]. unfold OFF_VALUE. erewrite SM_bind_Some; [|exact Hbs].
  erewrite SM_bind_Some; [|apply mem_store_ok; unfold blen; rewrite ?length_replicate; lia].
  erewrite SM_bind_Some; [|by apply rd_at]. rewrite Hlink. cbn [Z.eqb Pos.eqb]. unfold mret, SM_ret. do 3 f_equal.
  unfold mem_write. change (Z.to_nat 0) with 0%nat. rewrite take_0, drop_ge by (rewrite length_replicate; lia). by rewrite app_nil_r.
Qed.
End Between.
End Torn.

(** ** A mixed value *)

Lemma short_code v : blen v <= NEED_MD5_TBLLEN -> with_code v = le_bytes 4 (blen v) ++ v ++ v.
Proof.
  intros Hv. rewrite with_code_eq by (unfold NEED_MD5_TBLLEN in *; lia). unfold code_of, field.
  destruct (Z.ltb_spec NEED_MD5_TBLLEN (blen v)); [lia|]. by rewrite <- app_assoc.
Qed.

Lemma short_code_length v : blen v <= NEED_MD5_TBLLEN -> length (with_code v) = (4 + 2 * length v)%nat.
Proof. intros Hv. rewrite short_code, !length_app, length_le_bytes by done. lia. Qed.

Lemma short_code_lookup v p : blen v <= NEED_MD5_TBLLEN ->
  with_code v !! p = if decide (p < 4)%nat then le_bytes 4 (blen v) !! p
                     else if decide (p < 4 + length v)%nat then v !! (p - 4)%nat else v !! (p - 4 - length v)%nat.
Proof.
  intros Hv. rewrite short_code by done. destruct (decide (p < 4)%nat).
  - apply lookup_app_l. rewrite length_le_bytes. lia.
  - rewrite lookup_app_r; rewrite length_le_bytes; [|lia]. destruct (decide (p < 4 + length v)%nat).
    + apply lookup_app_l. lia.
    + rewrite lookup_app_r by lia. done.
Qed.

Lemma mixed_length i (old new : bytes) : length old = length new -> (i <= length old)%nat -> length (take i old ++ drop i new) = length old.
Proof. intros. rewrite length_app, length_take, length_drop. lia. Qed.

(** Which bytes of a mixed value with its code are those of the old value, and which those of the new. *)
Lemma mixed_code_lookup i (old new : bytes) p :
  length old = length new -> blen old <= NEED_MD5_TBLLEN -> (i <= length old)%nat ->
  with_code (take i old ++ drop i new) !! p =
    if decide (p < 4 + i \/ 4 + length old <= p < 4 + length old + i)%nat then with_code old !! p else with_code new !! p.
Proof.
  intros Hl Hs Hi. pose proof (mixed_length i old new Hl Hi) as Hm. assert (Hb : blen (take i old ++ drop i new) = blen old) by (unfold blen; by rewrite Hm).
  assert (Hbn : blen new = blen old) by (unfold blen; by rewrite Hl).
  rewrite !short_code_lookup by lia. rewrite Hm, Hb, Hbn, <- Hl.
  assert (Hx : forall q, (q < i)%nat -> (take i old ++ drop i new) !! q = old !! q).
  { intros q Hq. rewrite lookup_app_l by (rewrite length_take; lia). by apply lookup_take_lt. }
  assert (Hy : forall q, (i <= q)%nat -> (take i old ++ drop i new) !! q = new !! q).
  { intros q Hq. rewrite lookup_app_r; rewrite length_take, Nat.min_l by done; [|lia]. rewrite lookup_drop. f_equal. lia. }
  destruct (decide (p < 4)%nat); [by case_decide|]. destruct (decide (p < 4 + length old)%nat).
  - case_decide; [apply Hx; lia|apply Hy; lia].
  - case_decide; [apply Hx; lia|apply Hy; lia].
Qed.

Lemma write_lookup_before off src dst p : (p < off)%nat -> (off <= length dst)%nat -> mem_write off src dst !! p = dst !! p.
Proof. intros. unfold mem_write. rewrite lookup_app_l by (rewrite length_take; lia). by apply lookup_take_lt. Qed.

Section Mixed.
Context `{KeyDigest}.

Lemma store_key_value key d p : length d = SLOT_DATA_SIZE -> (p < OFF_KEY)%nat -> store_key key d !! p = d !! p.
Proof.
  intros Hd Hp. pose proof (key_md5_length key). unfold store_key, OFF_KEY, OFF_KEYLEN, OFF_KEYMD5, SLOT_DATA_SIZE in *.
  assert (Hk : length (mem_write 96 (take (min (length key) Q_HASHARR_KEYSIZE) key) d) = 146%nat).
  { apply write_length; [|done]. rewrite length_take. unfold Q_HASHARR_KEYSIZE, SLOT_DATA_SIZE. lia. }
  assert (Hm : length (mem_write 130 (key_md5 key) (mem_write 96 (take (min (length key) Q_HASHARR_KEYSIZE) key) d)) = 146%nat).
  { apply write_length; [|done]. unfold SLOT_DATA_SIZE. lia. }
  rewrite !write_lookup_before by lia. done.
Qed.

(** The bytes of the slot while the new value is copied over the old one. *)
Lemma half_lookup key value d a p :
  length d = SLOT_DATA_SIZE -> (a <= length value)%nat -> (p < OFF_KEY)%nat ->
  mem_write OFF_VALUE (take a value) (store_key key d) !! p = if decide (p < a)%nat then value !! p else d !! p.
Proof.
  intros Hd Ha Hp. unfold mem_write, OFF_VALUE. rewrite take_0, app_nil_l. destruct (decide (p < a)%nat).
  - rewrite lookup_app_l by (rewrite length_take; lia). by apply lookup_take_lt.
  - assert (Et : length (take a value) = a) by (rewrite length_take; lia). rewrite lookup_app_r by lia. rewrite Et, lookup_drop.
    replace (0 + a + (p - a))%nat with p by lia. by apply store_key_value.
Qed.

(** C6. The verification code does not rule out mixed values. While one call of [qhasharr_put] replaces the
    value of a key by another of the same length, both short enough for one slot, a client that reads the
    key can get, for any position, the old value up to the position and the new value after it, accepted as
    correct: it reads the beginning before the call, goes on when the value, but not yet its copy that
    serves as the code, is overwritten, and reads the end of the code after the call has written that. *)
Theorem torn_value_accepted M u n l key old new d e i val :
  length old = length new -> (4 + 2 * length old <= Q_HASHARR_VALUESIZE)%nat -> key <> [] -> 0 < u < M ->
  alone_in M l key (blen (with_code old)) d -> take (length (with_code old)) d = with_code old -> (i <= length old)%nat ->
  let h := bucket_of key M in
  (forall a, (a <= length (with_code new))%nat ->
    (put_begin key (with_code new) h a;; put_finish (with_code new) h a) (st e M u n l) =
      qhasharr_put (Some key) (Some (with_code new)) (st e M u n l)) /\
  exists t1 t2 n1 n2 k',
    put_begin key (with_code new) h (4 + length old) (st e M u n l) = Some (tt, HS e (Some t1)) /\
    put_begin key (with_code new) h (4 + 2 * length old) (st e M u n l) = Some (tt, HS e (Some t2)) /\ (n1 <= n2)%nat /\
    race_tbl_get (fun k => if decide (k < n1)%nat then Tbl M u n l else if decide (k < n2)%nat then t1 else t2)
      (fun _ => true) key val 0%nat = Some ((QCONF_OK, take i old ++ drop i new), k').
Proof.
  cbv zeta. intros Hl Hsz Hne Hu Hal Hd Hi. pose proof Hal as [HM Hs Hk Hlen]. unfold Q_HASHARR_VALUESIZE in Hsz.
  assert (Ho : blen old <= NEED_MD5_TBLLEN) by (unfold blen, NEED_MD5_TBLLEN; lia).
  assert (Hn : blen new <= NEED_MD5_TBLLEN) by (unfold blen, NEED_MD5_TBLLEN; lia).
  pose proof (short_code_length old Ho) as Elo. pose proof (short_code_length new Hn) as Eln.
  split; [intros a Ha; apply (put_splits M u n l key _ d Hal e); [done|done|unfold blen, Q_HASHARR_VALUESIZE; lia]|].
  set (h := bucket_of key M) in *. set (sz := blen (with_code old)) in *. set (w := take i old ++ drop i new).
  assert (Hw : blen w <= NEED_MD5_TBLLEN) by (unfold w, blen; rewrite mixed_length by done; exact Ho).
  pose proof (short_code_length w Hw) as Elw. unfold w in Elw at 2. rewrite (mixed_length i old new Hl Hi) in Elw.
  assert (Esz : Z.to_nat sz = (4 + 2 * length old)%nat) by (unfold sz, blen; lia).
  set (mid a := Tbl M (i32 (u - 1)) (i32 (n - 1)) (half M l key sz d (with_code new) a)).
  assert (Hmid : forall a, slot_at (mid a) h = Some (Slot 1 h sz (-1) (mem_write OFF_VALUE (take a (with_code new)) (store_key key d)))).
  { intros a. by apply (sat_h M l key sz d Hal). }
  set (n1 := (bytes_at key + (4 + i))%nat). set (n2 := (bytes_at key + (4 + length old + i))%nat).
  set (mem k := if decide (k < n1)%nat then Tbl M u n l else if decide (k < n2)%nat then mid (4 + length old)%nat else mid (4 + 2 * length old)%nat).
  destruct (reader_arrives M l key sz d Hal mem (fun _ => true) (with_code w)
    (Slot 1 h sz (-1) (mem_write OFF_VALUE (take (4 + 2 * length old) (with_code new)) (store_key key d)))) as (k' & Hrun); try done.
  - intros j. unfold mem. by repeat case_decide.
  - intros j Hj. unfold mem. rewrite decide_True by (unfold n1; lia). exact Hs.
  - unfold sz, SLOT_DATA_SIZE, blen. lia.
  - lia.
  - apply bytes_from; [lia|]. intros j b Hb. pose proof (lookup_lt_Some _ _ _ Hb) as Hj. unfold w in Hb. rewrite mixed_code_lookup in Hb by done.
    assert (Hdj : forall c, with_code old !! j = Some c -> d !! j = Some c).
    { intros c Hc. rewrite <- Hd in Hc. rewrite lookup_take_lt in Hc by lia. done. }
    unfold mem. fold h. destruct (decide (bytes_at key + j < n1)%nat).
    { eexists. split; [exact Hs|]. cbn [sl_data]. rewrite Nat.add_0_l. apply Hdj. rewrite decide_True in Hb by (unfold n1 in *; lia). done. }
    destruct (decide (bytes_at key + j < n2)%nat); (eexists; split; [apply Hmid|]); cbn [sl_data]; rewrite Nat.add_0_l;
      (rewrite half_lookup; [|done|lia|unfold OFF_KEY; lia]); unfold n1, n2 in *.
    + destruct (decide (j < 4 + length old)%nat); [|apply Hdj]; [rewrite decide_False in Hb by lia|rewrite decide_True in Hb by lia]; done.
    + rewrite decide_True by lia. rewrite decide_False in Hb by lia. done.
  - unfold mem. rewrite decide_False by (unfold n1; lia). rewrite decide_False by (unfold n2; lia). apply Hmid.
  - exists (mid (4 + length old)%nat), (mid (4 + 2 * length old)%nat), n1, n2, k'.
    do 2 (split; [by apply put_begin_ok|]). split; [unfold n1, n2; lia|]. fold mem.
    unfold race_tbl_get. rewrite decide_False by done. rewrite (SM_bind_Some _ _ _ _ _ Hrun).
    pose proof (verify_code w []) as E. rewrite app_nil_r in E. rewrite E by (unfold NEED_MD5_TBLLEN in *; lia). done.
Qed.

(** C38. A key is stored for the first time, in a slot that was not used before. The call marks the slot as
    used and writes the key, and only after the value its size. A client that reads the key in between
    finds it with a value of no bytes at all, and [hash_tbl_get] reads the length of that value past its
    end. *)
Theorem first_store_overread M u n l key value hash link d e val k :
  0 < M < 2 ^ 31 -> u < M -> key <> [] -> blen key < 65536 ->
  (forall i s, sat l i = Some s -> length (sl_data s) = SLOT_DATA_SIZE) ->
  let h := bucket_of key M in
  sat l h = Some (Slot 0 hash 0 link d) ->
  let begin := write_slot h (fun s => Slot 1 h (sl_size s) (-1) (store_key key (sl_data s))) in
  qhasharr_put (Some key) (Some value) (st e M u n l) = (begin;; put_value (S (length value)) h h 0 value) (st e M u n l) /\
  exists t1 k', begin (st e M u n l) = Some (tt, HS e (Some t1)) /\
    race_get (fun _ => t1) (fun _ => true) key k = Some (Some [], k') /\
    race_tbl_get (fun _ => t1) (fun _ => true) key val k = None.
Proof.
  cbv zeta. intros HM Hu Hne Hk Hdata Hs. set (h := bucket_of key M) in *.
  assert (Hh : 0 <= h < M) by (apply Z.mod_pos_bound; lia). pose proof (Hdata _ _ Hs) as Hd. cbn [sl_data] in Hd. split.
  - unfold qhasharr_put. cbn [put_rec]. do 2 hstep. destruct (Z.eqb_spec M 0); [lia|]. hstep. destruct (Z.leb_spec M u); [lia|]. hstep.
    cbn [sl_count Z.eqb]. unfold put_data. hstep. done.
  - set (s1 := Slot 1 h 0 (-1) (store_key key d)). set (t1 := Tbl M u n (lupd l h s1)).
    pose proof (length_stored_key key d Hd) as Hd1.
    assert (Hal : alone_in M (lupd l h s1) key 0 (store_key key d)).
    { split; [done|by apply (sat_lupd_eq _ _ _ _ Hs)| |done]. apply (same_key_kid key M); [done|done|].
      rewrite <- (store_key_kid key M 1 0 (-1) d [] Hd Hk ltac:(cbn; lia)). done. }
    assert (Hq : qhasharr_get (fun _ => true) (Some key) (st e M u n (lupd l h s1)) = Some (Some [], st e M u n (lupd l h s1))).
    { pose proof (al_slot _ _ _ _ _ Hal) as Hs1. fold h in Hs1. unfold qhasharr_get. do 2 hstep. destruct (Z.eqb_spec M 0); [lia|].
      erewrite SM_bind_Some; [|apply (idx_alone M u n _ key 0 _ Hal)]. fold h. destruct (Z.ltb_spec h 0); [lia|].
      unfold get_data. destruct (Z.ltb_spec h 0); [lia|]. hstep. cbn [data_size]. destruct (Z.eqb_spec h (-1)); [lia|].
      erewrite SM_bind_Some; [|hstep; reflexivity]. reflexivity. }
    assert (Hd' : forall i s, slot_at t1 i = Some s -> length (sl_data s) = SLOT_DATA_SIZE).
    { intros i s Hi. change (sat (lupd l h s1) i = Some s) in Hi. rewrite (sat_lupd _ _ _ _ _ Hs) in Hi.
      destruct (decide (i = h)); [by injection Hi as <-|by apply (Hdata i)]. }
    destruct (agrees_get t1 (fun _ => true) Hd' key e _ _ k Hq) as [_ (k' & Hrun)]. exists t1, k'.
    split; [by rewrite (write_slot_ok _ _ _ _ _ _ _ _ Hs)|]. split; [done|].
    unfold race_tbl_get. rewrite decide_False by done. by rewrite (SM_bind_Some _ _ _ _ _ Hrun).
Qed.
End Mixed.

(** ** Witnesses *)

Section Witnesses.

Definition fresh4 : list qhasharr_slot := replicate 4 zero_slot.
Definition torn_key : bytes := str "2bj/a".
Definition torn_data : bytes := mem_write OFF_VALUE (with_code (str "10.1:80")) (store_key torn_key zero_data).
Definition torn_slots : list qhasharr_slot :=
  lupd fresh4 (bucket_of torn_key 4) (Slot 1 (bucket_of torn_key 4) (blen (with_code (str "10.1:80"))) (-1) torn_data).

Lemma torn_alone : alone_in 4 torn_slots torn_key (blen (with_code (str "10.1:80"))) torn_data.
Proof. split; [lia|vm_compute; reflexivity..]. Qed.

(** The address of the old value with the port of the new one. *)
Lemma torn_value_accepted_witness :
  exists t1 t2 n1 n2 k',
    race_tbl_get (fun k => if decide (k < n1)%nat then Tbl 4 1 1 torn_slots else if decide (k < n2)%nat then t1 else t2)
      (fun _ => true) torn_key [] 0%nat = Some ((QCONF_OK, str "10.1:90"), k').
Proof.
  destruct (torn_value_accepted 4 1 1 torn_slots torn_key (str "10.1:80") (str "10.2:90") torn_data 0 5 [])
    as (_ & t1 & t2 & n1 & n2 & k' & _ & _ & _ & Hrun);
    [reflexivity|apply Nat.leb_le; reflexivity|discriminate|lia|apply torn_alone|vm_compute; reflexivity|apply Nat.leb_le; reflexivity|].
  exists t1, t2, n1, n2, k'. exact Hrun.
Defined.

Lemma first_store_overread_witness :
  exists t1, race_tbl_get (fun _ => t1) (fun _ => true) torn_key [] 0%nat = None.
Proof.
  destruct (first_store_overread 4 0 0 fresh4 torn_key (with_code (str "v")) 0 0 zero_data 0 [] 0%nat)
    as (_ & t1 & k' & _ & _ & Hrun);
    [lia|lia|discriminate|reflexivity| |vm_compute; reflexivity|].
  - intros i s Hs. pose proof (sat_range _ _ _ Hs) as Hr. apply (sane_slot_at 4 (Tbl 4 0 0 fresh4) i s (sane_fresh 4 (conj eq_refl eq_refl)) Hs).
  - exists t1. exact Hrun.
Defined.

(** Between any two accesses the table is emptied or filled again. *)
Definition flicker (n : nat) : qhasharr_t := if Nat.even n then Tbl 4 1 1 torn_slots else Tbl 4 0 0 fresh4.

Lemma flicker_sane n : sane 4 (flicker n).
Proof.
  unfold flicker. destruct (Nat.even n); [|apply (sane_fresh 4); lia]. split; [done|]. split; [vm_compute; reflexivity|].
  apply Forall_lookup. intros k s Hs. unfold sane_slot.
  do 4 (destruct k as [|k]; [vm_compute in Hs; injection Hs as <-; split; [split; vm_compute; congruence|]; split; [split; vm_compute; congruence|reflexivity]|]).
  apply lookup_lt_Some in Hs. vm_compute in Hs. lia.
Qed.

Lemma torn_read_safe_witness :
  exists raw n', race_get flicker (fun _ => true) torn_key 0%nat = Some (raw, n') /\
    match raw with Some bs => blen bs <= 146 * 5 | None => True end.
Proof.
  destruct (torn_read_safe flicker (fun _ => true) 4 torn_key [] 0%nat (conj eq_refl eq_refl) flicker_sane ltac:(discriminate))
    as (raw & n' & Hrun & Hres).
  exists raw, n'. split; [exact Hrun|]. destruct raw as [bs|]; [apply Hres|exact I].
Defined.

Lemma quiet_read_witness :
  exists n', race_tbl_get (fun _ => Tbl 4 0 0 fresh4) (fun _ => true) torn_key (str "old") 0%nat =
    Some ((QCONF_ERR_NOT_FOUND, str "old"), n').
Proof.
  destruct (quiet_read (Tbl 4 0 0 fresh4) ∅ torn_key (str "old") 0%nat) as (n' & Hrun);
    [rewrite fmap_empty; apply (HashArrMap.empty_tbl_ok 4); lia|apply map_Forall_empty|discriminate|].
  exists n'. rewrite lookup_empty in Hrun. exact Hrun.
Defined.
End Witnesses.
End RaceWrite.
