(* ===== verification/Sys.v ===== *)
(** * System calls and the message queue ([src/base/qconf_msg.cc])

    The operating system is a class of operations on its state [W]; a call returns its result and
    [errno]. Sleeping lets other processes run, which may change the shared table [T] as well. *)

From S2P Require Import Prelude Common.

Class OS (W T : Type) := {
  os_shmget : Z -> Z -> Z -> SM W (Z * Z);        (* key, size, flags; id or -1, errno *)
  os_shmat : Z -> Z -> SM W (bool * Z);            (* id, flags; attached?, errno *)
  os_msgget : Z -> Z -> SM W (Z * Z);             (* key, flags; id or -1, errno *)
  os_msgsnd : Z -> bytes -> SM W (Z * Z);         (* id, text; 0 or -1, errno *)
  os_msgrcv : Z -> Z -> SM W (option bytes * Z);   (* id, size; text or -1, errno *)
  os_usleep : Z -> W * T -> W * T;
  os_rand : SM W Z
}.

(** The system calls that the theorems rely on always return. *)
Class OSTotal (W T : Type) `{OS W T} := {
  shmget_total : forall k z f o, exists r o', os_shmget (T := T) k z f o = Some (r, o');
  shmat_total : forall i f o, exists r o', os_shmat (T := T) i f o = Some (r, o');
  msgget_total : forall k f o, exists r o', os_msgget (T := T) k f o = Some (r, o');
  msgsnd_total : forall i m o, exists r o', os_msgsnd (T := T) i m o = Some (r, o');
  msgrcv_total : forall i n o, exists r o', os_msgrcv (T := T) i n o = Some (r, o');
  rand_total : forall o, exists r o', os_rand (T := T) o = Some (r, o') /\ 0 <= r
}.

Module Msg.
Section WithOS.
Context {W T : Type} `{OS W T}.

(** The state of a process: the system and the shared table. *)
Abbreviation PM := (SM (W * T)).

Definition sys {A} (c : SM W A) : PM A := fun s =>
  match c (fst s) with Some (a, o) => Some (a, (o, snd s)) | None => None end.

Definition usleep (us : Z) : PM unit := fun s => Some (tt, os_usleep us s).

Definition PERMS : Z := 438 (* 0666 *).
Definition IPC_CREAT : Z := 512 (* 01000 *).
Definition IPC_EXCL : Z := 1024 (* 02000 *).

Definition init_msg_queue (key : Z) : PM (Z * Z) :=
  '(msqid, _) ← sys (os_msgget (T := T) key PERMS);
  mret (if msqid =? -1 then QCONF_ERR_MSGGET else QCONF_OK, msqid).

Definition create_msg_queue (key : Z) : PM (Z * Z) :=
  '(msqid, _) ← sys (os_msgget (T := T) key (Z.lor PERMS IPC_CREAT));
  mret (if msqid =? -1 then QCONF_ERR_MSGGET else QCONF_OK, msqid).

(** The loop of [send_msg]. *)
Fixpoint send_loop (fuel : nat) (msqid : Z) (msg : bytes) (try_send_times : Z) : PM Z :=
  match fuel with
  | O => undefined
  | S fuel' =>
      '(ret, errno) ← sys (os_msgsnd (T := T) msqid msg);
      if ret =? 0 then mret QCONF_OK else
      if errno =? EAGAIN then
        if try_send_times <? QCONF_MAX_SEND_MSG_TIMES
        then usleep 5000;; send_loop fuel' msqid msg (try_send_times + 1)
        else mret QCONF_ERR_MSGFULL
      else mret QCONF_ERR_MSGSND
  end.

Definition send_msg (msqid : Z) (msg : bytes) : PM Z :=
  if decide (msg = []) then mret QCONF_ERR_PARAM else
  if QCONF_MAX_MSG_LEN <=? blen msg then mret QCONF_ERR_E2BIG else
  send_loop 3 msqid msg 1.

Definition receive_msg (msqid : Z) (msg : bytes) : PM (Z * bytes) :=
  '(r, errno) ← sys (os_msgrcv (T := T) msqid QCONF_MAX_MSG_LEN);
  match r with
  | None => mret (if errno =? EIDRM then QCONF_ERR_MSGIDRM else QCONF_ERR_MSGRCV, msg)
  | Some text => mret (QCONF_OK, text)
  end.

(** ** Theorems *)

Lemma sys_ok {A} (c : SM W A) s a o : c (fst s) = Some (a, o) -> sys c s = Some (a, (o, snd s)).
Proof. intros E. unfold sys. by rewrite E. Qed.

(** How many sends the loop makes, and what it reports. *)
Fixpoint sends (n : nat) (msqid : Z) (msg : bytes) (s : W * T) : list (Z * Z) :=
  match n with
  | O => []
  | S n' => match os_msgsnd (T := T) msqid msg (fst s) with
            | None => []
            | Some (r, o) =>
                if (fst r =? 0) || negb (snd r =? EAGAIN) then [r]
                else r :: sends n' msqid msg (os_usleep 5000 (o, snd s))
            end
  end.

Definition send_verdict (rs : list (Z * Z)) : Z :=
  match last rs with
  | Some (r, e) => if r =? 0 then QCONF_OK else if e =? EAGAIN then QCONF_ERR_MSGFULL else QCONF_ERR_MSGSND
  | None => QCONF_ERR_MSGSND
  end.

Lemma send_verdict_cons x rs : rs <> [] -> send_verdict (x :: rs) = send_verdict rs.
Proof. intros Hne. destruct rs as [|y rs]; done. Qed.

Lemma sends_ne `{!OSTotal W T} n msqid msg s : sends (S n) msqid msg s <> [].
Proof.
  cbn [sends]. destruct (msgsnd_total msqid msg (fst s)) as (r & o & ->).
  by destruct ((fst r =? 0) || negb (snd r =? EAGAIN)).
Qed.

Lemma send_loop_ok `{!OSTotal W T} n msqid msg s :
  exists s', send_loop (S n) msqid msg (3 - Z.of_nat n) s = Some (send_verdict (sends (S n) msqid msg s), s').
Proof.
  revert s. induction n as [|n IH]; intros s; cbn [send_loop];
    destruct (msgsnd_total msqid msg (fst s)) as ([r e] & o & Hs);
    (erewrite SM_bind_Some; [|by apply sys_ok]); cbn [sends]; rewrite Hs; cbn [fst snd].
  - destruct (Z.eqb_spec r 0) as [->|Hr]; [by eexists|]. destruct (Z.eqb_spec e EAGAIN) as [->|He].
    + cbn [orb negb]. change (3 - Z.of_nat 0 <? QCONF_MAX_SEND_MSG_TIMES) with false.
      eexists. unfold send_verdict. cbn [last mret SM_ret]. destruct (Z.eqb_spec r 0); [done|]. by rewrite Z.eqb_refl.
    + cbn [orb negb]. eexists. unfold send_verdict. cbn [last mret SM_ret].
      destruct (Z.eqb_spec r 0); [done|]. by destruct (Z.eqb_spec e EAGAIN).
  - destruct (Z.eqb_spec r 0) as [->|Hr]; [by eexists|]. destruct (Z.eqb_spec e EAGAIN) as [->|He].
    + cbn [orb negb]. destruct (Z.ltb_spec (3 - Z.of_nat (S n)) QCONF_MAX_SEND_MSG_TIMES);
        [|unfold QCONF_MAX_SEND_MSG_TIMES in *; lia].
      rewrite (SM_bind_Some (usleep 5000) _ _ tt (os_usleep 5000 (o, snd s))) by done.
      replace (3 - Z.of_nat (S n) + 1) with (3 - Z.of_nat n) by lia.
      destruct (IH (os_usleep 5000 (o, snd s))) as (s' & Hrun). exists s'. etrans; [exact Hrun|]. do 2 f_equal.
      symmetry. apply send_verdict_cons, sends_ne.
    + cbn [orb negb]. eexists. unfold send_verdict. cbn [last mret SM_ret].
      destruct (Z.eqb_spec r 0); [done|]. by destruct (Z.eqb_spec e EAGAIN).
Qed.

(** [send_msg] always returns. An empty message and one of 2048 bytes or more are refused without a
    system call; otherwise it sends the message, again after a pause while the queue is full, at most
    three times in all, and reports the last outcome. *)
Theorem send_msg_bounded `{!OSTotal W T} msqid msg s :
  exists s' ret, send_msg msqid msg s = Some (ret, s') /\
    if (blen msg =? 0) || (QCONF_MAX_MSG_LEN <=? blen msg)
    then s' = s /\ ret = if blen msg =? 0 then QCONF_ERR_PARAM else QCONF_ERR_E2BIG
    else ret = send_verdict (sends 3 msqid msg s) /\ (length (sends 3 msqid msg s) <= 3)%nat.
Proof.
  unfold send_msg. destruct (decide (msg = [])) as [->|Hn].
  { exists s, QCONF_ERR_PARAM. done. }
  assert (blen msg <> 0) by (by rewrite blen_0). destruct (Z.eqb_spec (blen msg) 0); [done|]. cbn [orb].
  destruct (QCONF_MAX_MSG_LEN <=? blen msg); [by exists s, QCONF_ERR_E2BIG|].
  destruct (send_loop_ok 2 msqid msg s) as (s' & Hrun). exists s'. eexists. split; [exact Hrun|]. split; [done|].
  assert (Hle : forall n s, (length (sends n msqid msg s) <= n)%nat).
  { clear. induction n as [|n IH]; intros s; cbn [sends]; [done|].
    destruct (os_msgsnd msqid msg (fst s)) as [[r o]|]; [|simpl; lia].
    destruct ((fst r =? 0) || negb (snd r =? EAGAIN)); cbn [length]; [lia|]. specialize (IH (os_usleep 5000 (o, snd s))). lia. }
  apply Hle.
Qed.
End WithOS.

(** Run a system call whose outcome is known. *)
Ltac run_sys := erewrite SM_bind_Some; [|by apply sys_ok]; cbv beta iota; cbn [fst snd].

(** ** A system with one queue of bounded length, whose reader runs while a process sleeps *)
Section Fifo.
Context {T : Type} (cap : nat) (reader : list bytes * T -> list bytes * T).

Definition fifo_os : OS (list bytes) T := {|
  os_shmget _ _ _ := mret (7, 0);
  os_shmat _ _ := mret (true, 0);
  os_msgget _ _ := mret (5, 0);
  os_msgsnd _ m := fun q => if (length q <? cap)%nat then Some ((0, 0), q ++ [m]) else Some ((-1, EAGAIN), q);
  os_msgrcv _ _ := fun q => match q with [] => Some ((None, EAGAIN), q) | m :: q' => Some ((Some m, 0), q') end;
  os_usleep _ s := reader s;
  os_rand := mret 4
|}.

Lemma fifo_total : @OSTotal _ _ fifo_os.
Proof.
  split; intros; cbn; repeat case_match; eauto. do 2 eexists. split; [reflexivity|lia].
Qed.
End Fifo.

Lemma send_msg_bounded_witness :
  let os := fifo_os (T := unit) 1 (fun s => (tail (fst s), snd s)) in
  exists s' ret, @send_msg _ _ os 5 (str "k") ([str "old"], tt) = Some (ret, s') /\
    (ret = @send_verdict (@sends _ _ os 3 5 (str "k") ([str "old"], tt)) /\
     (length (@sends _ _ os 3 5 (str "k") ([str "old"], tt)) <= 3)%nat).
Proof.
  apply (@send_msg_bounded _ _ (fifo_os (T := unit) 1 (fun s => (tail (fst s), snd s))) (fifo_total _ _) 5 (str "k") ([str "old"], tt)).
Defined.
End Msg.
