(* ===== verification/ShmInit.v ===== *)
(** * Creating and attaching the shared segment ([create_hash_tbl], [init_hash_tbl] of
    [src/base/qconf_shm.cc])

    The pointer [tbl] is the boolean that says whether it is non-NULL; what it then points to is the
    table component of the state. *)

From S2P Require Import Prelude Common HashArr HashArrSpec HashArrThm Sys.

Module ShmInit.
Import HashArr Msg.

Section Attach.
Context {W T : Type} `{OS W T}.

Definition init_hash_tbl (tbl : bool) (shmkey mode flags : Z) : SM (W * T) (Z * bool) :=
  '(shmid, _) ← sys (os_shmget (T := T) shmkey 0 mode);
  if shmid =? -1 then mret (QCONF_ERR_SHMGET, tbl) else
  '(ok, _) ← sys (os_shmat (T := T) shmid flags);
  if (ok : bool) then mret (QCONF_OK, true) else mret (QCONF_ERR_SHMAT, false).
End Attach.

Section Create.
Context {W : Type} `{OS W hstate}.

(** [qhasharr] lays the table out in the new segment. *)
Definition layout (memsize : Z) : SM (W * hstate) bool := fun s =>
  let '(t, e) := qhasharr false memsize (h_errno (snd s)) in
  match t with
  | Some t => Some (true, (fst s, HS e (Some t)))
  | None => Some (false, (fst s, HS e (h_tbl (snd s))))
  end.

Definition create_hash_tbl (maxSlotsNum : Z) (tbl : bool) (shmkey mode : Z) : SM (W * hstate) (Z * bool) :=
  let memsize := qhasharr_calculate_memsize maxSlotsNum in
  '(shmid, errno) ← sys (os_shmget (T := hstate) shmkey memsize (Z.lor (Z.lor IPC_CREAT IPC_EXCL) mode));
  if shmid =? -1 then
    if errno =? EEXIST then init_hash_tbl tbl shmkey mode 0 else mret (QCONF_ERR_SHMGET, tbl)
  else
    '(ok, _) ← sys (os_shmat (T := hstate) shmid 0);
    if negb ok then mret (QCONF_ERR_SHMAT, tbl) else
    ok ← layout memsize;
    mret (if (ok : bool) then QCONF_OK else QCONF_ERR_SHMINIT, ok).

(** On success the agent holds a table: a new segment is laid out as an empty table of exactly the
    configured number of slots, an existing one is attached as it is, so that the values survive a
    restart of the agent; on failure the table is not touched. *)
Theorem create_hash_tbl_ok `{!OSTotal W hstate} maxSlotsNum tbl shmkey mode s :
  1 <= maxSlotsNum <= 10000000 ->
  exists ret tbl' s', create_hash_tbl maxSlotsNum tbl shmkey mode s = Some ((ret, tbl'), s') /\
    (ret = QCONF_OK -> tbl' = true /\
       (snd s' = snd s \/ exists t, h_tbl (snd s') = Some t /\ maxslots t = maxSlotsNum /\ tbl_ok t ∅)) /\
    (ret <> QCONF_OK -> snd s' = snd s /\ (ret = QCONF_ERR_SHMGET \/ ret = QCONF_ERR_SHMAT)).
Proof.
  intros Hm. unfold create_hash_tbl.
  destruct (shmget_total shmkey (qhasharr_calculate_memsize maxSlotsNum) (Z.lor (Z.lor IPC_CREAT IPC_EXCL) mode) (fst s))
    as ([id e] & o & Hg).
  assert (Hbad : forall r (b : bool) (s' : W * hstate), r <> QCONF_OK -> snd s' = snd s -> r = QCONF_ERR_SHMGET \/ r = QCONF_ERR_SHMAT ->
    exists ret tbl' s'', Some ((r, b), s') = Some ((ret, tbl'), s'') /\
    (ret = QCONF_OK -> tbl' = true /\
       (snd s'' = snd s \/ exists t, h_tbl (snd s'') = Some t /\ maxslots t = maxSlotsNum /\ tbl_ok t ∅)) /\
    (ret <> QCONF_OK -> snd s'' = snd s /\ (ret = QCONF_ERR_SHMGET \/ ret = QCONF_ERR_SHMAT))).
  { intros r b s' Hne E Hr. exists r, b, s'. split; [done|]. split; [done|]. by auto. }
  run_sys. destruct (id =? -1).
  - destruct (e =? EEXIST); [|by apply Hbad; auto].
    unfold init_hash_tbl. destruct (shmget_total shmkey 0 mode o) as ([id2 e2] & o2 & Hg2).
    run_sys. destruct (id2 =? -1); [by apply Hbad; auto|].
    destruct (shmat_total id2 0 o2) as ([ok e3] & o3 & Hg3). run_sys.
    destruct ok; [|by apply Hbad; auto]. do 3 eexists. split; [reflexivity|]. split; [|done]. intros _. split; [done|by left].
  - destruct (shmat_total id 0 o) as ([ok e3] & o3 & Hg3). run_sys.
    destruct ok; cbn [negb]; [|by apply Hbad; auto].
    destruct (memsize_created maxSlotsNum (h_errno (snd s)) Hm) as (t & Ht & Hmax & Hok).
    erewrite SM_bind_Some; [|unfold layout; cbn [fst snd]; rewrite Ht; reflexivity].
    do 3 eexists. split; [reflexivity|]. split; [|done]. intros _. split; [done|]. right. by exists t.
Qed.
End Create.

Lemma create_hash_tbl_ok_witness :
  let os := fifo_os (T := hstate) 1 id in
  exists ret tbl' s', @create_hash_tbl _ os 40 false 1 438 ([], HS 0 None) = Some ((ret, tbl'), s') /\
    (ret = QCONF_OK -> tbl' = true /\
       (snd s' = HS 0 None \/ exists t, h_tbl (snd s') = Some t /\ maxslots t = 40 /\ tbl_ok t ∅)) /\
    (ret <> QCONF_OK -> snd s' = HS 0 None /\ (ret = QCONF_ERR_SHMGET \/ ret = QCONF_ERR_SHMAT)).
Proof.
  apply (@create_hash_tbl_ok _ (fifo_os 1 id) (fifo_total 1 id) 40 false 1 438 ([], HS 0 None)). lia.
Defined.
End ShmInit.
