(* ===== verification/Driver.v ===== *)
(** * The client library ([src/driver/c++/src/driver_api.cc], [qconf.cc], [driver_common.cc])

    A process that reads configuration holds two handles, the attached table and the message queue. A
    read looks the key up in the table; when it is not there the process asks the agent for it with a
    message and, unless told not to wait, looks again every 5 ms. Logging is left out. *)

From S2P Require Import Prelude Common Text Format HashArrInv Store Shm Sys ShmInit.

Module Driver.
Import Format Shm Msg ShmInit.

Definition QCONF_INVALID_SEM_ID : Z := -1.
Definition SHM_RDONLY : Z := 4096 (* 010000 *).

(** ** Paths *)

Definition delim : byte := x2f.

(** The code and the new contents of [real_path]; [None] is a read outside [path]. *)
Definition get_node_path (path real_path : bytes) : option (Z * bytes) :=
  if blen path =? 0 then Some (QCONF_ERR_PARAM, real_path) else
  match skip_front delim (S (length path)) path 0 (blen path - 1) with
  | None => None
  | Some start_pos =>
      match skip_back delim (S (length path)) path start_pos (blen path - 1) with
      | None => None
      | Some end_pos =>
          if end_pos <? start_pos then Some (QCONF_ERR_PARAM, real_path)
          else Some (QCONF_OK, delim :: sub_bytes (Z.to_nat start_pos) (Z.to_nat (end_pos + 1 - start_pos)) path)
      end
  end.

(** ** The process *)

Section WithTable.
Context {W T : Type} `{OS W T} `{Store T}.
Variable alloc_ok : Z -> bool.

Record proc := mkProc {
  pr_sys : W;
  pr_tbl : T;
  qconf_hashtbl : bool;    (* the pointer is not NULL *)
  qconf_msqid : Z
}.

Abbreviation DM := (SM proc).

(** A system call, or sleeping. *)
Definition sysm {A} (c : SM (W * T) A) : DM A := fun p =>
  match c (pr_sys p, pr_tbl p) with
  | Some (a, (w, t)) => Some (a, mkProc w t (qconf_hashtbl p) (qconf_msqid p))
  | None => None
  end.

(** A call of the table code; every one returns [null] for a NULL table. *)
Definition tblm {A} (null : A) (c : SM (shm T) A) : DM A := fun p =>
  if qconf_hashtbl p then
    match c (mkShm (pr_tbl p) None) with
    | Some (a, s) => Some (a, mkProc (pr_sys p) (sh_tbl s) (qconf_hashtbl p) (qconf_msqid p))
    | None => None
    end
  else Some (null, p).

Definition set_tbl (b : bool) : DM unit := modify (fun p => mkProc (pr_sys p) (pr_tbl p) b (qconf_msqid p)).
Definition set_msqid (i : Z) : DM unit := modify (fun p => mkProc (pr_sys p) (pr_tbl p) (qconf_hashtbl p) i).

Definition init_shm : DM Z :=
  tbl ← gets qconf_hashtbl;
  if (tbl : bool) then mret QCONF_OK else
  '(ret, tbl) ← sysm (init_hash_tbl tbl QCONF_DEFAULT_SHM_KEY 292 (* 0444 *) SHM_RDONLY);
  set_tbl tbl;;
  mret ret.

Definition init_msg : DM Z :=
  msqid ← gets qconf_msqid;
  if negb (msqid =? QCONF_INVALID_SEM_ID) then mret QCONF_OK else
  '(ret, msqid) ← sysm (init_msg_queue QCONF_DEFAULT_MSG_QUEUE_KEY);
  set_msqid msqid;;
  mret ret.

Definition init_qconf_env : DM Z :=
  ret ← init_shm;
  if negb (ret =? QCONF_OK) then mret ret else init_msg.

(** ** Looking a key up *)

Definition send_msg_to_agent (msqid : Z) (idc path : bytes) (data_type : byte) : DM Z :=
  let '(_, tblkey) := serialize_to_tblkey data_type idc path in
  sysm (send_msg msqid tblkey).

Definition tbl_get (tblkey tblval : bytes) : DM (Z * bytes) :=
  tblm (QCONF_ERR_PARAM, tblval) (hash_tbl_get tblkey tblval).

(** The loop that waits for the agent, [n] more times. *)
Fixpoint wait_loop (n : nat) (tblkey tblval : bytes) (ret : Z) : DM (Z * bytes) :=
  match n with
  | O => mret (ret, tblval)
  | S n' =>
      sysm (usleep 5000);;
      '(ret, tblval) ← tbl_get tblkey tblval;
      if ret =? QCONF_OK then mret (ret, tblval) else wait_loop n' tblkey tblval ret
  end.

Definition local_idc (idc : bytes) : DM (Z * bytes) :=
  if decide (idc = []) then tblm (QCONF_ERR_PARAM, idc) (qconf_get_localidc idc) else mret (QCONF_OK, idc).

Definition qconf_get_ (path tblval : bytes) (dtype : byte) (idc : bytes) (flags : Z) : DM (Z * bytes) :=
  ret ← init_qconf_env;
  if negb (ret =? QCONF_OK) then mret (ret, tblval) else
  '(ret, tmp_idc) ← local_idc idc;
  if negb (ret =? QCONF_OK) then mret (ret, tblval) else
  let '(ret, tblkey) := serialize_to_tblkey dtype tmp_idc path in
  if negb (ret =? QCONF_OK) then mret (ret, tblval) else
  '(ret, tblval) ← tbl_get tblkey tblval;
  if ret =? QCONF_OK then mret (ret, tblval) else
  msqid ← gets qconf_msqid;
  ret_snd ← send_msg_to_agent msqid tmp_idc path dtype;
  if negb (ret_snd =? QCONF_OK) then mret (ret_snd, tblval) else
  if flags =? QCONF_NOWAIT then mret (ret, tblval) else
  wait_loop QCONF_MAX_GET_TIMES tblkey tblval ret.

(** ** Values, services and batches *)

Definition qconf_get (path buf idc : bytes) (flags : Z) : DM (Z * bytes) :=
  if decide (path = []) then mret (QCONF_ERR_PARAM, buf) else
  '(ret, tblval) ← qconf_get_ path [] QCONF_DATA_TYPE_NODE idc flags;
  if negb (ret =? QCONF_OK) then mret (ret, buf) else mret (tblval_to_nodeval tblval buf).

Definition qconf_get_children (path : bytes) (nodes : string_vector_t) (idc : bytes) (flags : Z) : DM (Z * string_vector_t) :=
  if decide (path = []) then mret (QCONF_ERR_PARAM, nodes) else
  '(ret, tblval) ← qconf_get_ path [] QCONF_DATA_TYPE_SERVICE idc flags;
  if negb (ret =? QCONF_OK) then mret (ret, nodes) else mret (tblval_to_chdnodeval alloc_ok tblval nodes).

Definition qconf_get_batchnode_keys (path : bytes) (nodes : string_vector_t) (idc : bytes) (flags : Z)
    : DM (Z * string_vector_t) :=
  if decide (path = []) then mret (QCONF_ERR_PARAM, nodes) else
  '(ret, tblval) ← qconf_get_ path [] QCONF_DATA_TYPE_BATCH_NODE idc flags;
  if negb (ret =? QCONF_OK) then mret (ret, nodes) else mret (tblval_to_batchnodeval alloc_ok tblval nodes).

(** [struct qconf_batch_nodes]: an array of keys and values, NULL where nothing was stored. *)
Record qconf_batch_nodes := mkBatch { bn_count : Z; bn_nodes : option (list (option bytes * option bytes)) }.

Definition free_qconf_batch_nodes : qconf_batch_nodes := mkBatch 0 None.

Definition init_qconf_batch_nodes (bnodes : option qconf_batch_nodes) : Z * option qconf_batch_nodes :=
  match bnodes with None => (QCONF_ERR_PARAM, None) | Some _ => (QCONF_OK, Some (mkBatch 0 None)) end.

(** Freeing walks over [count] elements of the array. *)
Definition destroy_qconf_batch_nodes (bnodes : option qconf_batch_nodes) : option (Z * option qconf_batch_nodes) :=
  match bnodes with
  | None => Some (QCONF_ERR_PARAM, None)
  | Some b => if bn_count b <=? blen (default [] (bn_nodes b)) then Some (QCONF_OK, Some free_qconf_batch_nodes) else None
  end.

(** The loop of [qconf_get_batchnode]: [done] holds the elements stored so far; the rest of the
    array is still NULL. *)
Fixpoint batch_loop (path idc : bytes) (flags : Z) (data : list (option bytes)) (buf : bytes)
    (done : list (option bytes * option bytes)) (count : Z) : DM (Z * qconf_batch_nodes) :=
  match data with
  | [] => mret (QCONF_OK, mkBatch count (Some done))
  | None :: _ => undefined
  | Some node :: data' =>
      let child_path := path ++ [delim] ++ c_str node in
      '(ret, buf) ← qconf_get child_path buf idc flags;
      if ret =? QCONF_OK then
        let value := take (Z.to_nat (blen buf + 1)) (c_str buf) in
        if alloc_ok (blen value + 1)
        then batch_loop path idc flags data' buf (done ++ [(Some node, Some value)]) count
        else mret (QCONF_ERR_MEM, free_qconf_batch_nodes)
      else mret (ret, free_qconf_batch_nodes)
  end.

Definition SIZEOF_QCONF_NODE : Z := 16.

Definition qconf_get_batchnode (path : bytes) (bnodes : qconf_batch_nodes) (idc : bytes) (flags : Z)
    : DM (Z * qconf_batch_nodes) :=
  if decide (path = []) then mret (QCONF_ERR_PARAM, bnodes) else
  '(ret, nodes) ← qconf_get_batchnode_keys path (SV 0 []) idc flags;
  if ret =? QCONF_OK then
    if sv_count nodes =? 0 then mret (ret, mkBatch 0 None) else
    if negb (alloc_ok (sv_count nodes * SIZEOF_QCONF_NODE)) then mret (QCONF_ERR_MEM, mkBatch 0 None) else
    batch_loop path idc flags (sv_data nodes) [] [] (sv_count nodes)
  else mret (ret, bnodes).

(** ** The C interface ([qconf.cc])

    A [char *] argument is the string before its NUL, [None] for NULL; an output buffer is the memory
    it points to, and a write past its end is undefined. *)

Definition c_path (path : option bytes) : option bytes :=
  match path with Some (c :: s) => Some (c :: s) | _ => None end.

Definition c_idc (idc : option bytes) : bytes := default [] idc.

(** [memcpy(buf, s, len); buf[len] = '\0']. *)
Definition store_cstr (buf s : bytes) : DM bytes :=
  match buf_write buf (s ++ [x00]) with Some b => mret b | None => undefined end.

Definition node_path (path : bytes) : DM (Z * bytes) :=
  match get_node_path path [] with Some r => mret r | None => undefined end.

Definition qconf_get_conf_ (path buf : option bytes) (buf_len : Z) (idc : option bytes) (flags : Z)
    : DM (Z * option bytes) :=
  match c_path path, buf with
  | Some path, Some buf =>
      '(ret, real_path) ← node_path path;
      if negb (ret =? QCONF_OK) then mret (ret, Some buf) else
      '(ret, tmp_buf) ← qconf_get real_path [] (c_idc idc) flags;
      if negb (ret =? QCONF_OK) then mret (ret, Some buf) else
      if buf_len <=? blen tmp_buf then mret (QCONF_ERR_BUF_NOT_ENOUGH, Some buf) else
      buf ← store_cstr buf tmp_buf;
      mret (ret, Some buf)
  | _, _ => mret (QCONF_ERR_PARAM, buf)
  end.

(** [init_string_vector] and [destroy_string_vector] both leave the empty vector. *)
Definition init_string_vector (nodes : option string_vector_t) : Z * option string_vector_t :=
  match nodes with None => (QCONF_ERR_PARAM, None) | Some _ => (QCONF_OK, Some (SV 0 [])) end.

Definition destroy_string_vector (nodes : option string_vector_t) : Z * option string_vector_t :=
  match nodes with None => (QCONF_ERR_PARAM, None) | Some _ => (QCONF_OK, Some (SV 0 [])) end.

Definition reset_vector (nodes : string_vector_t) : string_vector_t :=
  if sv_count nodes =? 0 then nodes else SV 0 [].

Definition qconf_get_allhost_ (path : option bytes) (nodes : option string_vector_t) (idc : option bytes) (flags : Z)
    : DM (Z * option string_vector_t) :=
  match c_path path, nodes with
  | Some path, Some nodes =>
      '(ret, real_path) ← node_path path;
      if negb (ret =? QCONF_OK) then mret (ret, Some nodes) else
      '(ret, nodes) ← qconf_get_children real_path (reset_vector nodes) (c_idc idc) flags;
      mret (ret, Some nodes)
  | _, _ => mret (QCONF_ERR_PARAM, nodes)
  end.

Definition qconf_get_batch_keys_ (path : option bytes) (nodes : option string_vector_t) (idc : option bytes) (flags : Z)
    : DM (Z * option string_vector_t) :=
  match c_path path, nodes with
  | Some path, Some nodes =>
      '(ret, real_path) ← node_path path;
      if negb (ret =? QCONF_OK) then mret (ret, Some nodes) else
      '(ret, nodes) ← qconf_get_batchnode_keys real_path (reset_vector nodes) (c_idc idc) flags;
      mret (ret, Some nodes)
  | _, _ => mret (QCONF_ERR_PARAM, nodes)
  end.

Definition qconf_get_batch_conf_ (path : option bytes) (bnodes : option qconf_batch_nodes) (idc : option bytes) (flags : Z)
    : DM (Z * option qconf_batch_nodes) :=
  match c_path path, bnodes with
  | Some path, Some bnodes =>
      '(ret, real_path) ← node_path path;
      if negb (ret =? QCONF_OK) then mret (ret, Some bnodes) else
      match (if bn_count bnodes =? 0 then Some (QCONF_OK, Some bnodes) else destroy_qconf_batch_nodes (Some bnodes)) with
      | Some (_, Some bnodes) =>
          '(ret, bnodes) ← qconf_get_batchnode real_path bnodes (c_idc idc) flags;
          mret (ret, Some bnodes)
      | _ => undefined
      end
  | _, _ => mret (QCONF_ERR_PARAM, bnodes)
  end.

Definition qconf_get_host_ (path buf : option bytes) (buf_len : Z) (idc : option bytes) (flags : Z)
    : DM (Z * option bytes) :=
  match c_path path, buf with
  | Some _, Some buf =>
      '(ret, nodes) ← qconf_get_allhost_ path (Some (SV 0 [])) idc flags;
      if negb (ret =? QCONF_OK) then mret (ret, Some buf) else
      let nodes := default (SV 0 []) nodes in
      if sv_count nodes =? 0 then buf ← store_cstr buf []; mret (ret, Some buf) else
      rnd ← sysm (sys (os_rand (T := T)));
      let r := rnd mod sv_count nodes in
      match sv_data nodes !! Z.to_nat r with
      | Some (Some node) =>
          if buf_len <=? strlen node then mret (QCONF_ERR_BUF_NOT_ENOUGH, Some buf) else
          buf ← store_cstr buf (c_str node);
          mret (ret, Some buf)
      | _ => undefined
      end
  | _, _ => mret (QCONF_ERR_PARAM, buf)
  end.

(** The exported functions fix whether the call waits. *)
Definition qconf_get_conf path buf buf_len idc := qconf_get_conf_ path buf buf_len idc QCONF_WAIT.
Definition qconf_aget_conf path buf buf_len idc := qconf_get_conf_ path buf buf_len idc QCONF_NOWAIT.
Definition qconf_get_batch_conf path bnodes idc := qconf_get_batch_conf_ path bnodes idc QCONF_WAIT.
Definition qconf_aget_batch_conf path bnodes idc := qconf_get_batch_conf_ path bnodes idc QCONF_NOWAIT.
Definition qconf_get_batch_keys path nodes idc := qconf_get_batch_keys_ path nodes idc QCONF_WAIT.
Definition qconf_aget_batch_keys path nodes idc := qconf_get_batch_keys_ path nodes idc QCONF_NOWAIT.
Definition qconf_get_allhost path nodes idc := qconf_get_allhost_ path nodes idc QCONF_WAIT.
Definition qconf_aget_allhost path nodes idc := qconf_get_allhost_ path nodes idc QCONF_NOWAIT.
Definition qconf_get_host path buf buf_len idc := qconf_get_host_ path buf buf_len idc QCONF_WAIT.
Definition qconf_aget_host path buf buf_len idc := qconf_get_host_ path buf buf_len idc QCONF_NOWAIT.

Definition qconf_init : DM Z := init_qconf_env.
Definition qconf_destroy : DM Z := mret QCONF_OK.

End WithTable.
Arguments proc : clear implicits.
End Driver.
