(* ===== verification/DriverThm.v ===== *)
(** * Theorems about the client library *)

From S2P Require Import Prelude Common Text HashArr HashArrInv HashArrPut Format FormatThm Store Shm ShmThm Sys ShmInit Driver.
Import Format Shm Msg ShmInit Driver.

(** ** Path normalization *)

Abbreviation slashes := (run delim).

Abbreviation core_path := (core delim).

Lemma get_node_path_core m core n r :
  core_path core -> get_node_path (slashes m ++ core ++ slashes n) r = Some (QCONF_OK, delim :: core).
Proof.
  intros (Hn & Hh & Hl). unfold get_node_path. pose proof (blen_nonneg core). assert (blen core <> 0) by (by rewrite blen_0).
  destruct (Z.eqb_spec (blen (slashes m ++ core ++ slashes n)) 0) as [E|_];
    [rewrite !blen_app, !blen_run in E; lia|].
  assert (Hlen : (length (slashes m ++ core ++ slashes n) = m + length core + n)%nat).
  { rewrite !length_app. unfold run. rewrite !length_replicate. lia. }
  rewrite Hlen. assert (Hb : blen (slashes m ++ core ++ slashes n) - 1 = blen (slashes m ++ core) + Z.of_nat n - 1).
  { rewrite !blen_app, !blen_run. lia. }
  rewrite (skip_front_ok _ _ 0 m); [|done|by destruct core|lia|intros; rewrite Hb, blen_app, blen_run; lia].
  rewrite Hb. replace (slashes m ++ core ++ slashes n) with ((slashes m ++ core) ++ slashes n ++ [])
    by (by rewrite app_nil_r, <- app_assoc).
  rewrite skip_back_ok; [|by destruct (slashes m); [|done]| |lia|rewrite blen_app, blen_run; lia].
  - rewrite blen_app, blen_run, Nat.add_0_l. destruct (Z.ltb_spec (Z.of_nat m + blen core - 1) (Z.of_nat m)); [lia|].
    do 3 f_equal. rewrite <- app_assoc. replace (Z.to_nat (Z.of_nat m)) with (Z.to_nat (blen (slashes m))) by (rewrite blen_run; lia).
    replace (Z.to_nat (Z.of_nat m + blen core - 1 + 1 - Z.of_nat m)) with (length core) by (unfold blen; lia). apply sub_bytes_at.
  - rewrite last_app. by destruct (last core) eqn:E; [|apply last_None in E].
Qed.

Lemma get_node_path_slashes n r : get_node_path (slashes n) r = Some (QCONF_ERR_PARAM, r).
Proof.
  unfold get_node_path. rewrite blen_run. destruct n as [|n]; [done|].
  destruct (Z.eqb_spec (Z.of_nat (S n)) 0); [lia|].
  assert (Hl : length (slashes (S n)) = S n) by apply length_replicate. rewrite Hl.
  pose proof (skip_front_ok delim (S (S n)) 0 (S n) [] (Z.of_nat (S n) - 1)) as Hf. rewrite app_nil_r, Nat.add_0_l in Hf.
  change (Z.of_nat 0) with 0 in Hf. rewrite Hf by (cbn; try done; lia). cbn [skip_back]. rewrite <- (run_snoc delim n).
  replace (Z.of_nat (S n) - 1) with (blen (slashes n)) by (rewrite blen_run; lia). rewrite char_at_app.
  cbn [head default]. rewrite blen_run. destruct (Z.leb_spec (Z.of_nat (S n)) (Z.of_nat n)); [lia|].
  rewrite andb_false_r. destruct (Z.ltb_spec (Z.of_nat n) (Z.of_nat (S n))); [done|lia].
Qed.

(** [get_node_path] never reads outside the path. A path of slashes only is refused; any other path is
    turned into its core with exactly one slash before it, whatever slashes surrounded it, so that all
    spellings of a path give the same table key and normalizing again changes nothing. *)
Theorem get_node_path_normal (path r : bytes) :
  (exists n, path = slashes n /\ get_node_path path r = Some (QCONF_ERR_PARAM, r)) \/
  (exists m core n, core_path core /\ path = slashes m ++ core ++ slashes n /\
     get_node_path path r = Some (QCONF_OK, delim :: core) /\
     get_node_path (delim :: core) r = Some (QCONF_OK, delim :: core)).
Proof.
  destruct (run_forms delim path) as [(n & ->)|(m & core & n & Hc & ->)].
  - left. exists n. split; [done|apply get_node_path_slashes].
  - right. exists m, core, n. repeat (split; [try done; by apply get_node_path_core|]).
    pose proof (get_node_path_core 1 core 0 r Hc) as E. cbn in E. by rewrite app_nil_r in E.
Qed.

(** ** Processes and tables *)

Section Driver.
Context {W T : Type} `{OS W T} `{!OSTotal W T} `{StoreLaws T}.
Implicit Types (p : proc W T) (vm : gmap kid bytes).

(** Two views of a system with its table that no other process can tell apart. *)
Definition seq (s s' : W * T) : Prop := fst s = fst s' /\ s_same (snd s) (snd s').

#[global] Instance seq_equiv : Equivalence seq.
Proof.
  pose proof s_same_equiv as [Hr Hs Ht]. split.
  - intros s. by split.
  - intros s s' [E1 E2]. split; [done|by apply Hs].
  - intros s1 s2 s3 [E1 E2] [E3 E4]. split; [congruence|by apply (Ht _ (snd s2))].
Qed.

(** What runs while a process sleeps does not see the [errno] of the sleeper. *)
Class OSLocal : Prop := usleep_proper us :: Proper (seq ==> seq) (os_usleep us).

Context `{!OSLocal}.

Definition tbl_holds (t : T) vm : Prop :=
  s_rep t (with_code <$> vm) /\ map_Forall (fun _ v => blen v < 2 ^ 32) vm.

Lemma holds_same t t' vm : s_same t t' -> tbl_holds t vm -> tbl_holds t' vm.
Proof. intros E [Hr Hv]. split; [by apply (s_rep_same t)|done]. Qed.

Definition ready p : Prop := qconf_hashtbl p = true /\ qconf_msqid p <> QCONF_INVALID_SEM_ID.

Definition with_tbl p (t : T) : proc W T := mkProc (pr_sys p) t (qconf_hashtbl p) (qconf_msqid p).

Lemma ready_with_tbl p t : ready p -> ready (with_tbl p t).
Proof. done. Qed.

Lemma with_tbl_twice p t t' : with_tbl (with_tbl p t) t' = with_tbl p t'.
Proof. done. Qed.

Lemma holds_shm t vm : tbl_holds t vm -> shm_ok (mkShm t None) vm.
Proof. intros [Hr Hv]. split; [done|done|apply new_LRU_ok|apply not_elem_of_nil]. Qed.

Lemma tblm_ok {A} (null : A) c p a s :
  ready p -> c (mkShm (pr_tbl p) None) = Some (a, s) -> tblm null c p = Some (a, with_tbl p (sh_tbl s)).
Proof. intros [Hr _] E. unfold tblm, with_tbl. by rewrite Hr, E. Qed.

Lemma tbl_get_ok key val p vm :
  ready p -> tbl_holds (pr_tbl p) vm -> key <> [] ->
  exists t', tbl_get key val p =
      Some (match vm !! s_ident key with Some v => (QCONF_OK, v) | None => (QCONF_ERR_NOT_FOUND, val) end, with_tbl p t') /\
    s_same (pr_tbl p) t'.
Proof.
  intros Hp Hh Hk. destruct (hash_tbl_get_ok key val _ vm (holds_shm _ _ Hh) Hk) as (t' & Hg & _ & _ & Hs).
  exists t'. split; [|done]. unfold tbl_get. by rewrite (tblm_ok _ _ _ _ _ Hp Hg).
Qed.

Lemma init_ready p : ready p -> init_qconf_env p = Some (QCONF_OK, p).
Proof.
  intros [Hp1 Hp2]. unfold init_qconf_env, init_shm, init_msg.
  erewrite SM_bind_Some; [|unfold gets; erewrite SM_bind_Some; [|reflexivity]; rewrite Hp1; reflexivity].
  cbn [Z.eqb QCONF_OK negb]. erewrite SM_bind_Some; [|reflexivity].
  by rewrite (proj2 (Z.eqb_neq _ _) Hp2).
Qed.

(** The idc a request is for: the given one, or the local one that the table holds. *)
Definition idc_of vm (idc idc' : bytes) : Prop :=
  if decide (idc = [])
  then exists tv, vm !! s_ident QCONF_KEY_TYPE_LOCAL_IDC = Some tv /\ tblval_to_localidc tv [] = (QCONF_OK, idc')
  else idc' = idc.

Lemma local_idc_ok idc idc' p vm :
  ready p -> tbl_holds (pr_tbl p) vm -> idc_of vm idc idc' ->
  exists t', local_idc idc p = Some ((QCONF_OK, idc'), with_tbl p t') /\ s_same (pr_tbl p) t'.
Proof.
  intros Hp Hh Hi. unfold local_idc, idc_of in *. destruct (decide (idc = [])) as [->|].
  - destruct Hi as (tv & Hl & Htv). pose proof (holds_shm _ _ Hh) as Hok.
    destruct (hash_tbl_get_ok QCONF_KEY_TYPE_LOCAL_IDC [] _ vm Hok ltac:(done)) as (t' & Hg & _ & _ & Hs).
    exists t'. split; [|done]. rewrite Hl in Hg. rewrite (tblm_ok _ _ p (QCONF_OK, idc') (mkShm t' None)); [done|done|].
    unfold qconf_get_localidc. rewrite (SM_bind_Some _ _ _ _ _ (shm_not_null _ vm Hok)).
    change (serialize_to_tblkey QCONF_DATA_TYPE_LOCAL_IDC [] []) with (QCONF_OK, QCONF_KEY_TYPE_LOCAL_IDC).
    cbv beta iota zeta. rewrite (SM_bind_Some _ _ _ _ _ Hg). cbv beta iota. cbn [Z.eqb QCONF_OK]. by rewrite Htv.
  - rewrite Hi. exists (pr_tbl p). split; [by destruct p|done].
Qed.

(** What happens after a key was not found. *)
Definition ask (tblkey tblval : bytes) (flags : Z) : SM (proc W T) (Z * bytes) :=
  msqid ← gets qconf_msqid;
  ret_snd ← sysm (send_msg msqid tblkey);
  if negb (ret_snd =? QCONF_OK) then mret (ret_snd, tblval) else
  if flags =? QCONF_NOWAIT then mret (QCONF_ERR_NOT_FOUND, tblval) else
  wait_loop QCONF_MAX_GET_TIMES tblkey tblval QCONF_ERR_NOT_FOUND.

Lemma get_lookup path tv dtype idc idc' flags p vm :
  ready p -> tbl_holds (pr_tbl p) vm -> idc_of vm idc idc' -> has_path dtype = true ->
  let key := (serialize_to_tblkey dtype idc' path).2 in
  exists t', s_same (pr_tbl p) t' /\
    qconf_get_ path tv dtype idc flags p =
      match vm !! s_ident key with
      | Some v => Some ((QCONF_OK, v), with_tbl p t')
      | None => ask key tv flags (with_tbl p t')
      end.
Proof.
  intros Hp Hh Hi Hd. cbn zeta. unfold qconf_get_. rewrite (SM_bind_Some _ _ _ _ _ (init_ready p Hp)).
  cbv beta iota. cbn [Z.eqb QCONF_OK negb].
  destruct (local_idc_ok idc idc' p vm Hp Hh Hi) as (t1 & Hl & Hs1). rewrite (SM_bind_Some _ _ _ _ _ Hl).
  cbv beta iota. cbn [Z.eqb QCONF_OK negb]. unfold send_msg_to_agent, serialize_to_tblkey. rewrite Hd. cbv beta iota.
  cbn [Z.eqb QCONF_OK negb snd]. set (key := qconf_append_path _ _).
  destruct (tbl_get_ok key tv (with_tbl p t1) vm) as (t2 & Hg & Hs2); [done|by apply (holds_same (pr_tbl p))|done|].
  exists t2. split; [etrans; [apply Hs1|apply Hs2]|]. rewrite (SM_bind_Some _ _ _ _ _ Hg).
  destruct (vm !! s_ident key); done.
Qed.

(** Sending does not look at the table. *)
Lemma send_loop_same f n msqid msg s s' :
  seq s s' -> (n < f)%nat ->
  exists ret o o', send_loop (T := T) f msqid msg (3 - Z.of_nat n) s = Some (ret, o) /\
    send_loop f msqid msg (3 - Z.of_nat n) s' = Some (ret, o') /\ seq o o'.
Proof.
  revert n s s'. induction f as [|f IH]; intros n s s' Hs Hn; [lia|]. cbn [send_loop]. pose proof Hs as [E1 E2].
  destruct (msgsnd_total msqid msg (fst s)) as ([r e] & o & Hsnd). pose proof Hsnd as Hsnd'. rewrite E1 in Hsnd'.
  rewrite (SM_bind_Some _ _ _ _ _ (sys_ok _ _ _ _ Hsnd)), (SM_bind_Some _ _ _ _ _ (sys_ok _ _ _ _ Hsnd')).
  cbv beta iota. assert (Ho : seq (o, snd s) (o, snd s')) by by split.
  destruct (r =? 0); [by do 3 eexists|]. destruct (e =? EAGAIN); [|by do 3 eexists].
  destruct (Z.ltb_spec (3 - Z.of_nat n) QCONF_MAX_SEND_MSG_TIMES); [|by do 3 eexists].
  unfold QCONF_MAX_SEND_MSG_TIMES in *.
  rewrite (SM_bind_Some (usleep 5000) _ _ tt (os_usleep 5000 (o, snd s))) by done.
  rewrite (SM_bind_Some (usleep 5000) _ _ tt (os_usleep 5000 (o, snd s'))) by done.
  destruct n as [|n]; [lia|]. replace (3 - Z.of_nat (S n) + 1) with (3 - Z.of_nat n) by lia.
  apply IH; [by apply usleep_proper|lia].
Qed.

Lemma send_msg_same msqid msg s s' :
  seq s s' ->
  exists ret o o', send_msg (T := T) msqid msg s = Some (ret, o) /\ send_msg msqid msg s' = Some (ret, o') /\ seq o o'.
Proof.
  intros Hs. unfold send_msg. destruct (decide (msg = [])); [by do 3 eexists|].
  destruct (QCONF_MAX_MSG_LEN <=? blen msg); [by do 3 eexists|]. apply (send_loop_same 3 2); [done|lia].
Qed.

(** The system after [n] pauses. *)
Fixpoint env (n : nat) (s : W * T) : W * T :=
  match n with O => s | S n' => env n' (os_usleep 5000 s) end.

(** [v] is what the table of the system holds under [key]. *)
Definition sees (s : W * T) (key : bytes) (v : option bytes) : Prop :=
  exists vm, tbl_holds (snd s) vm /\ vm !! s_ident key = v.

Lemma sees_same s s' key v : seq s s' -> sees s key v -> sees s' key v.
Proof. intros [_ E] (vm & Hh & Hv). exists vm. split; [by apply (holds_same (snd s))|done]. Qed.

(** One round of the waiting loop. *)
Lemma wait_round n key tv ret p s v :
  ready p -> key <> [] -> seq s (pr_sys p, pr_tbl p) -> sees (os_usleep 5000 s) key v ->
  exists p', wait_loop (S n) key tv ret p =
      match v with Some v => Some ((QCONF_OK, v), p') | None => wait_loop n key tv QCONF_ERR_NOT_FOUND p' end /\
    ready p' /\ seq (os_usleep 5000 s) (pr_sys p', pr_tbl p').
Proof.
  intros Hp Hk Hs Hv. cbn [wait_loop].
  assert (E : seq (os_usleep 5000 s) (os_usleep 5000 (pr_sys p, pr_tbl p))) by by apply usleep_proper.
  apply (sees_same _ _ _ _ E) in Hv as (vm & Hh & Hv). destruct (os_usleep 5000 (pr_sys p, pr_tbl p)) as [w t] eqn:Eu.
  set (p1 := mkProc w t (qconf_hashtbl p) (qconf_msqid p)).
  rewrite (SM_bind_Some (sysm (usleep 5000)) _ _ tt p1) by (unfold sysm, usleep; by rewrite Eu).
  destruct (tbl_get_ok key tv p1 vm Hp Hh Hk) as (t' & Hg & Hs'). rewrite (SM_bind_Some _ _ _ _ _ Hg). rewrite Hv.
  exists (with_tbl p1 t'). split; [by destruct v|]. split; [done|]. etrans; [exact E|]. by split.
Qed.

Lemma wait_hit k n key tv ret p s v :
  ready p -> key <> [] -> seq s (pr_sys p, pr_tbl p) -> (k < n)%nat ->
  (forall j, (1 <= j <= k)%nat -> sees (env j s) key None) -> sees (env (S k) s) key (Some v) ->
  exists p', wait_loop n key tv ret p = Some ((QCONF_OK, v), p') /\ ready p' /\ pr_sys p' = fst (env (S k) s).
Proof.
  intros Hp Hk. revert n ret p s Hp. induction k as [|k IH]; intros [|n] ret p s Hp Hs Hn Hno Hv; try lia.
  - destruct (wait_round n key tv ret p s (Some v) Hp Hk Hs Hv) as (p' & Hr & Hp' & Hs'). exists p'. split; [done|]. by split; [|destruct Hs'].
  - destruct (wait_round n key tv ret p s None Hp Hk Hs (Hno 1%nat ltac:(lia))) as (p1 & Hr & Hp' & Hs').
    rewrite Hr. apply (IH n _ p1 (os_usleep 5000 s)); try done; [lia|]. intros j Hj. apply (Hno (S j)). lia.
Qed.

Lemma wait_miss n key tv p s :
  ready p -> key <> [] -> seq s (pr_sys p, pr_tbl p) ->
  (forall j, (1 <= j <= n)%nat -> sees (env j s) key None) ->
  exists p', wait_loop n key tv QCONF_ERR_NOT_FOUND p = Some ((QCONF_ERR_NOT_FOUND, tv), p') /\ pr_sys p' = fst (env n s).
Proof.
  intros Hp Hk. revert p s Hp. induction n as [|n IH]; intros p s Hp Hs Hno.
  - exists p. split; [done|]. by destruct Hs.
  - destruct (wait_round n key tv QCONF_ERR_NOT_FOUND p s None Hp Hk Hs (Hno 1%nat ltac:(lia))) as (p1 & Hr & Hp' & Hs').
    rewrite Hr. apply (IH p1 (os_usleep 5000 s)); try done. intros j Hj. apply (Hno (S j)). lia.
Qed.

Lemma key_ne dtype idc path : (serialize_to_tblkey dtype idc path).2 <> [].
Proof. destruct (serialize_head dtype idc path) as (tl & ->). done. Qed.

(** Asking the agent, when the message could be sent. *)
Lemma ask_sent key tv flags p t' s1 :
  ready p -> s_same (pr_tbl p) t' -> send_msg (qconf_msqid p) key (pr_sys p, pr_tbl p) = Some (QCONF_OK, s1) ->
  exists p1, ready p1 /\ seq s1 (pr_sys p1, pr_tbl p1) /\
    ask key tv flags (with_tbl p t') =
      if flags =? QCONF_NOWAIT then Some ((QCONF_ERR_NOT_FOUND, tv), p1)
      else wait_loop QCONF_MAX_GET_TIMES key tv QCONF_ERR_NOT_FOUND p1.
Proof.
  intros Hp Hs Hsend. assert (E : seq (pr_sys p, pr_tbl p) (pr_sys p, t')) by by split.
  destruct (send_msg_same (qconf_msqid p) key _ _ E) as (ret & o & [w t] & H1' & H2' & Ho).
  assert (ret = QCONF_OK /\ o = s1) as [-> ->] by (rewrite H1' in Hsend; by injection Hsend).
  exists (mkProc w t (qconf_hashtbl p) (qconf_msqid p)). do 2 (split; [done|]). unfold ask.
  erewrite SM_bind_Some; [|reflexivity]. cbn [qconf_msqid with_tbl].
  rewrite (SM_bind_Some (sysm _) _ _ QCONF_OK (mkProc w t (qconf_hashtbl p) (qconf_msqid p)))
    by (unfold sysm; cbn [pr_sys pr_tbl with_tbl]; by rewrite H2').
  cbn [Z.eqb QCONF_OK negb]. by destruct (flags =? QCONF_NOWAIT).
Qed.

(** A key that the table holds is returned at once: the value is the stored one, no message is sent
    and the process does not sleep (the system is as before), whether or not the caller would wait. *)
Theorem qconf_get_hit path tv dtype idc idc' flags p vm v :
  ready p -> tbl_holds (pr_tbl p) vm -> idc_of vm idc idc' -> has_path dtype = true ->
  vm !! s_ident (serialize_to_tblkey dtype idc' path).2 = Some v ->
  exists t', qconf_get_ path tv dtype idc flags p = Some ((QCONF_OK, v), with_tbl p t') /\ tbl_holds t' vm.
Proof.
  intros Hp Hh Hi Hd Hv. destruct (get_lookup path tv dtype idc idc' flags p vm Hp Hh Hi Hd) as (t' & Hs & Hrun).
  rewrite Hv in Hrun. exists t'. split; [done|by apply (holds_same (pr_tbl p))].
Qed.

(** A key that the table does not hold: the agent is sent the key, and a caller that waits enters the loop. *)
Lemma miss_asks path tv dtype idc idc' flags p vm s1 :
  let key := (serialize_to_tblkey dtype idc' path).2 in
  ready p -> tbl_holds (pr_tbl p) vm -> idc_of vm idc idc' -> has_path dtype = true ->
  vm !! s_ident key = None ->
  send_msg (qconf_msqid p) key (pr_sys p, pr_tbl p) = Some (QCONF_OK, s1) ->
  exists p1, ready p1 /\ seq s1 (pr_sys p1, pr_tbl p1) /\
    qconf_get_ path tv dtype idc flags p =
      if flags =? QCONF_NOWAIT then Some ((QCONF_ERR_NOT_FOUND, tv), p1)
      else wait_loop QCONF_MAX_GET_TIMES key tv QCONF_ERR_NOT_FOUND p1.
Proof.
  cbn zeta. intros Hp Hh Hi Hd Hv Hsend. destruct (get_lookup path tv dtype idc idc' flags p vm Hp Hh Hi Hd) as (t' & Hs & ->).
  rewrite Hv. by apply ask_sent.
Qed.

(** C31. For a key that the table does not hold the agent is sent one message, the key itself. A caller
    that does not wait then gets "not found". A caller that waits gets the value as soon as a look at the
    table finds it, within 100 pauses of 5 ms, and "not found" after exactly 100 pauses otherwise. *)
Theorem qconf_get_miss path tv dtype idc idc' flags p vm s1 :
  let key := (serialize_to_tblkey dtype idc' path).2 in
  ready p -> tbl_holds (pr_tbl p) vm -> idc_of vm idc idc' -> has_path dtype = true ->
  vm !! s_ident key = None ->
  send_msg (qconf_msqid p) key (pr_sys p, pr_tbl p) = Some (QCONF_OK, s1) ->
  (flags = QCONF_NOWAIT ->
     exists p', qconf_get_ path tv dtype idc flags p = Some ((QCONF_ERR_NOT_FOUND, tv), p') /\ pr_sys p' = fst s1) /\
  (flags <> QCONF_NOWAIT -> forall k v, (k < 100)%nat ->
     (forall j, (1 <= j <= k)%nat -> sees (env j s1) key None) -> sees (env (S k) s1) key (Some v) ->
     exists p', qconf_get_ path tv dtype idc flags p = Some ((QCONF_OK, v), p') /\ pr_sys p' = fst (env (S k) s1)) /\
  (flags <> QCONF_NOWAIT -> (forall j, (1 <= j <= 100)%nat -> sees (env j s1) key None) ->
     exists p', qconf_get_ path tv dtype idc flags p = Some ((QCONF_ERR_NOT_FOUND, tv), p') /\ pr_sys p' = fst (env 100 s1)).
Proof.
  cbn zeta. intros Hp Hh Hi Hd Hv Hsend.
  destruct (miss_asks path tv dtype idc idc' flags p vm s1 Hp Hh Hi Hd Hv Hsend) as (p1 & Hp1 & Hs1 & Hrun).
  pose proof (key_ne dtype idc' path) as Hk. split; [|split].
  - intros ->. exists p1. split; [done|]. by destruct Hs1.
  - intros Hf k v Hlt Hno Hsee. rewrite (proj2 (Z.eqb_neq _ _) Hf) in Hrun.
    destruct (wait_hit k 100 _ tv QCONF_ERR_NOT_FOUND p1 s1 v Hp1 Hk Hs1 Hlt Hno Hsee) as (p' & Hw & _ & He).
    exists p'. by rewrite Hrun.
  - intros Hf Hno. rewrite (proj2 (Z.eqb_neq _ _) Hf) in Hrun.
    destruct (wait_miss 100 _ tv p1 s1 Hp1 Hk Hs1 Hno) as (p' & Hw & He). exists p'. by rewrite Hrun.
Qed.

(** ** The C interface *)

Lemma node_path_core m core n p :
  core_path core -> node_path (slashes m ++ core ++ slashes n) p = Some ((QCONF_OK, delim :: core), p).
Proof. intros Hc. unfold node_path. by rewrite get_node_path_core. Qed.

Lemma c_path_core m core n : core_path core -> c_path (Some (slashes m ++ core ++ slashes n)) = Some (slashes m ++ core ++ slashes n).
Proof. intros (Hc & _). destruct m; [|done]. cbn. by destruct core. Qed.

Lemma store_cstr_ok buf v p :
  (length v < length buf)%nat -> store_cstr buf v p = Some (v ++ [x00] ++ drop (S (length v)) buf, p).
Proof.
  intros Hl. unfold store_cstr, buf_write. rewrite length_app. cbn [length].
  destruct (Nat.leb_spec (length v + 1) (length buf)); [|lia]. unfold mem_write. cbn [take app].
  rewrite length_app, Nat.add_1_r, <- app_assoc. done.
Qed.

(** [qconf_get_conf_] never writes outside the caller's buffer: for every path with a core it looks up
    the normalized path, and with a value shorter than [buf_len] leaves exactly the value and a NUL at the
    start of the buffer; in every other case it returns the error code and leaves the buffer alone. *)
Theorem qconf_get_conf_buffer m core n buf buf_len idc flags p :
  core_path core -> 0 <= buf_len <= blen buf ->
  qconf_get_conf_ (Some (slashes m ++ core ++ slashes n)) (Some buf) buf_len idc flags p =
    match qconf_get (delim :: core) [] (c_idc idc) flags p with
    | None => None
    | Some ((ret, v), p') =>
        Some (if negb (ret =? QCONF_OK) then (ret, Some buf)
              else if buf_len <=? blen v then (QCONF_ERR_BUF_NOT_ENOUGH, Some buf)
              else (ret, Some (v ++ [x00] ++ drop (S (length v)) buf)), p')
    end.
Proof.
  intros Hc Hb. unfold qconf_get_conf_. rewrite c_path_core by done.
  rewrite (SM_bind_Some _ _ _ _ _ (node_path_core m core n p Hc)). cbv beta iota. cbn [Z.eqb QCONF_OK negb].
  unfold mbind, SM_bind. destruct (qconf_get (delim :: core) [] (c_idc idc) flags p) as [[[ret v] p']|]; [|done].
  destruct (ret =? QCONF_OK); [|done]. cbn [negb]. destruct (Z.leb_spec buf_len (blen v)); [done|].
  rewrite store_cstr_ok; [done|]. unfold blen in *. lia.
Qed.

Lemma idc_given vm idc : idc <> [] -> idc_of vm idc idc.
Proof. intros. unfold idc_of. by rewrite decide_False. Qed.

Lemma nodeval_back idc path v buf :
  blen v < 2 ^ 32 -> tblval_to_nodeval (nodeval_to_tblval (serialize_to_tblkey QCONF_DATA_TYPE_NODE idc path).2 v) buf = (QCONF_OK, v).
Proof.
  intros Hv. destruct (serialize_head QCONF_DATA_TYPE_NODE idc path) as (tl & ->).
  unfold tblval_to_nodeval, nodeval_to_tblval, qconf_append_nodeval, qconf_sub_nodeval.
  rewrite append_field, app_nil_l, sub_first by width. cbn [Z.eqb QCONF_OK negb]. by rewrite type_at_field.
Qed.

(** From the value in the table to the value of the node. *)
Lemma qconf_get_value path buf idc flags p p' v :
  path <> [] -> blen v < 2 ^ 32 ->
  qconf_get_ path [] QCONF_DATA_TYPE_NODE idc flags p =
    Some ((QCONF_OK, nodeval_to_tblval (serialize_to_tblkey QCONF_DATA_TYPE_NODE idc path).2 v), p') ->
  qconf_get path buf idc flags p = Some ((QCONF_OK, v), p').
Proof.
  intros Hn Hv Hrun. unfold qconf_get. rewrite decide_False by done. rewrite (SM_bind_Some _ _ _ _ _ Hrun). cbv beta iota.
  cbn [Z.eqb QCONF_OK negb]. unfold mret, SM_ret. by rewrite nodeval_back.
Qed.

Lemma qconf_get_hit_value path buf idc flags p vm v :
  ready p -> tbl_holds (pr_tbl p) vm -> idc <> [] -> path <> [] -> blen v < 2 ^ 32 ->
  vm !! s_ident (serialize_to_tblkey QCONF_DATA_TYPE_NODE idc path).2 =
    Some (nodeval_to_tblval (serialize_to_tblkey QCONF_DATA_TYPE_NODE idc path).2 v) ->
  exists t', qconf_get path buf idc flags p = Some ((QCONF_OK, v), with_tbl p t') /\ tbl_holds t' vm.
Proof.
  intros Hp Hh Hi Hn Hv Hl. destruct (get_lookup path [] QCONF_DATA_TYPE_NODE idc idc flags p vm Hp Hh (idc_given _ _ Hi) eq_refl)
    as (t' & Hs & Hrun). rewrite Hl in Hrun. exists t'. split; [|by apply (holds_same (pr_tbl p))].
  apply qconf_get_value; [done|done|]. by rewrite Hrun.
Qed.

(** A client reads what the table holds, for any spelling of the path. *)
Lemma read_stored idc m core n val t vm w msqid buf buf_len :
  tbl_holds t vm -> core_path core -> idc <> [] -> blen val < 2 ^ 32 ->
  vm !! s_ident (serialize_to_tblkey QCONF_DATA_TYPE_NODE idc (delim :: core)).2 =
    Some (nodeval_to_tblval (serialize_to_tblkey QCONF_DATA_TYPE_NODE idc (delim :: core)).2 val) ->
  msqid <> QCONF_INVALID_SEM_ID -> blen val < buf_len <= blen buf ->
  exists t', qconf_get_conf (Some (slashes m ++ core ++ slashes n)) (Some buf) buf_len (Some idc) (mkProc w t true msqid) =
      Some ((QCONF_OK, Some (val ++ [x00] ++ drop (S (length val)) buf)), mkProc w t' true msqid).
Proof.
  intros Hh Hc Hi Hv Hl Hq Hb. set (p := mkProc w t true msqid : proc W T).
  destruct (qconf_get_hit_value (delim :: core) [] idc QCONF_WAIT p vm val) as (t' & Hg & _); try done.
  exists t'. unfold qconf_get_conf, qconf_get_conf_. rewrite c_path_core by done.
  rewrite (SM_bind_Some _ _ _ _ _ (node_path_core m core n p Hc)). cbv beta iota. cbn [Z.eqb QCONF_OK negb].
  change (c_idc (Some idc)) with idc. rewrite (SM_bind_Some _ _ _ _ _ Hg). cbv beta iota. cbn [Z.eqb QCONF_OK negb].
  destruct (Z.leb_spec buf_len (blen val)); [lia|].
  rewrite (SM_bind_Some _ _ _ _ _ (store_cstr_ok buf val (with_tbl p t') ltac:(unfold blen in *; lia))). done.
Qed.

(** End to end: after the agent stored the value of a node (and the table had room for it), a client
    that asks for any spelling of the path gets exactly that value with a NUL in its buffer, at once and
    without a message. *)
Theorem publish_then_read idc m core n val s vm w msqid buf buf_len :
  let key := (serialize_to_tblkey QCONF_DATA_TYPE_NODE idc (delim :: core)).2 in
  shm_ok s vm -> core_path core -> idc <> [] -> blen key < 65536 -> blen val < 2 ^ 31 ->
  s_load (with_code <$> vm) key < 2 ^ 15 - 1 ->
  slots_for (blen (with_code (nodeval_to_tblval key val))) <= s_room (sh_tbl s) ->
  msqid <> QCONF_INVALID_SEM_ID -> blen val < buf_len <= blen buf ->
  exists ret s' t', hash_tbl_set key (nodeval_to_tblval key val) s = Some (ret, s') /\
    (ret = QCONF_OK \/ ret = QCONF_ERR_SAME_VALUE) /\
    qconf_get_conf (Some (slashes m ++ core ++ slashes n)) (Some buf) buf_len (Some idc)
        (mkProc w (sh_tbl s') true msqid) =
      Some ((QCONF_OK, Some (val ++ [x00] ++ drop (S (length val)) buf)), mkProc w t' true msqid).
Proof.
  cbn zeta. intros Hok Hc Hi Hk Hv Hload Hroom Hq Hb. set (key := (serialize_to_tblkey _ _ _).2) in *.
  pose proof (blen_nonneg val). set (tv := nodeval_to_tblval key val) in *.
  assert (Htv : blen tv < 2 ^ 32).
  { unfold tv, nodeval_to_tblval, qconf_append_nodeval. rewrite append_field, app_nil_l, blen_app, blen_field. width. }
  destruct (hash_tbl_set_ok key tv s vm Hok (key_ne _ _ _) Hk Htv Hload) as (ret & s' & vm' & ev & Hrun & Hok' & Hout & _ & Hnoev).
  destruct (Hnoev Hroom) as [_ Hne].
  assert (Hl : vm' !! s_ident key = Some tv /\ (ret = QCONF_OK \/ ret = QCONF_ERR_SAME_VALUE)).
  { destruct Hout as [(-> & Hl & -> & _)|[(-> & Hl & _)|(-> & _)]]; [by auto|by auto|done]. }
  destruct Hl as [Hl Hret]. assert (Hh : tbl_holds (sh_tbl s') vm') by (destruct Hok'; by split).
  destruct (read_stored idc m core n val (sh_tbl s') vm' w msqid buf buf_len) as (t' & Hg); try done; [lia|].
  by exists ret, s', t'.
Qed.

(** ** Services and batches *)

Abbreviation alloc := (fun _ : Z => true).

(** The table holds the vector [vs] under the key of the path. *)
Definition holds_vector vm (dtype : byte) (idc path : bytes) (vs : list bytes) : Prop :=
  key_ok dtype idc path /\ Forall node_ok vs /\ blen vs < 65536 /\
  vm !! s_ident (serialize_to_tblkey dtype idc path).2 = Some (vector_val vs (serialize_to_tblkey dtype idc path).2).

Lemma get_vector dtype path idc flags p vm vs nodes :
  ready p -> tbl_holds (pr_tbl p) vm -> idc <> [] -> has_path dtype = true -> holds_vector vm dtype idc path vs ->
  exists t' tblval, qconf_get_ path [] dtype idc flags p = Some ((QCONF_OK, tblval), with_tbl p t') /\ tbl_holds t' vm /\
    tblval_to_vector alloc dtype tblval nodes = (QCONF_OK, SV (blen vs) (Some <$> vs)).
Proof.
  intros Hp Hh Hi Hd (Hk & Hall & Hb & Hl).
  destruct (get_lookup path [] dtype idc idc flags p vm Hp Hh (idc_given _ _ Hi) Hd) as (t' & Hs & Hrun).
  rewrite Hl in Hrun. exists t'. eexists. split; [exact Hrun|]. split; [by apply (holds_same (pr_tbl p))|].
  by apply (vector_read dtype idc path vs nodes [] []).
Qed.

Lemma get_children_ok path idc flags p vm vs nodes :
  ready p -> tbl_holds (pr_tbl p) vm -> idc <> [] -> path <> [] -> holds_vector vm QCONF_DATA_TYPE_SERVICE idc path vs ->
  exists t', qconf_get_children alloc path nodes idc flags p = Some ((QCONF_OK, SV (blen vs) (Some <$> vs)), with_tbl p t').
Proof.
  intros Hp Hh Hi Hn Hv. destruct (get_vector QCONF_DATA_TYPE_SERVICE path idc flags p vm vs nodes Hp Hh Hi eq_refl Hv) as (t' & tv & Hrun & _ & Hd).
  exists t'. unfold qconf_get_children. rewrite decide_False by done. rewrite (SM_bind_Some _ _ _ _ _ Hrun). cbv beta iota.
  cbn [Z.eqb QCONF_OK negb]. unfold tblval_to_chdnodeval. by rewrite Hd.
Qed.

Lemma get_batchnodes_ok path idc flags p vm vs nodes :
  ready p -> tbl_holds (pr_tbl p) vm -> idc <> [] -> path <> [] -> holds_vector vm QCONF_DATA_TYPE_BATCH_NODE idc path vs ->
  exists t', qconf_get_batchnode_keys alloc path nodes idc flags p = Some ((QCONF_OK, SV (blen vs) (Some <$> vs)), with_tbl p t') /\
    tbl_holds t' vm.
Proof.
  intros Hp Hh Hi Hn Hv. destruct (get_vector QCONF_DATA_TYPE_BATCH_NODE path idc flags p vm vs nodes Hp Hh Hi eq_refl Hv) as (t' & tv & Hrun & Hh' & Hd).
  exists t'. split; [|done]. unfold qconf_get_batchnode_keys. rewrite decide_False by done. rewrite (SM_bind_Some _ _ _ _ _ Hrun). cbv beta iota.
  cbn [Z.eqb QCONF_OK negb]. unfold tblval_to_batchnodeval. by rewrite Hd.
Qed.

Lemma c_str_node v : node_ok v -> c_str v = v.
Proof. intros [Hn _]. by apply c_str_no_nul. Qed.

Lemma up_nodes_elem ns fl v : v ∈ up_nodes ns fl -> v ∈ ns.
Proof.
  revert fl. induction ns as [|x ns IH]; intros [|f fl]; cbn [up_nodes]; try (by intros ?%elem_of_nil).
  rewrite elem_of_cons. destruct (f =? STATUS_UP); [rewrite elem_of_cons|]; naive_solver.
Qed.

(** A host of the stored vector, whole. *)
Lemma get_host_ok idc m core n up p vm buf buf_len flags :
  ready p -> tbl_holds (pr_tbl p) vm -> core_path core -> idc <> [] ->
  holds_vector vm QCONF_DATA_TYPE_SERVICE idc (delim :: core) up ->
  0 < buf_len <= blen buf -> Forall (fun v => blen v < buf_len) up ->
  exists p' v, qconf_get_host_ alloc (Some (slashes m ++ core ++ slashes n)) (Some buf) buf_len (Some idc) flags p =
      Some ((QCONF_OK, Some (v ++ [x00] ++ drop (S (length v)) buf)), p') /\
    if decide (up = []) then v = [] else v ∈ up.
Proof.
  intros Hp Hh Hc Hi Hv Hb Hshort. pose proof Hv as (_ & Hup & Hle & _).
  destruct (get_children_ok (delim :: core) idc flags p vm up (SV 0 [])) as (t' & Hg); [done..|].
  unfold qconf_get_host_, qconf_get_allhost_. rewrite c_path_core by done.
  erewrite SM_bind_Some; [|rewrite (SM_bind_Some _ _ _ _ _ (node_path_core m core n p Hc)); cbv beta iota;
    cbn [Z.eqb QCONF_OK negb]; change (c_idc (Some idc)) with idc; change (reset_vector (SV 0 [])) with (SV 0 []);
    rewrite (SM_bind_Some _ _ _ _ _ Hg); reflexivity].
  cbv beta iota. cbn [Z.eqb QCONF_OK negb default id from_option sv_count sv_data]. pose proof (blen_nonneg up).
  destruct (decide (up = [])) as [Eu|Hne].
  - rewrite Eu, blen_nil, Z.eqb_refl. exists (with_tbl p t'), [].
    rewrite (SM_bind_Some _ _ _ _ _ (store_cstr_ok buf [] (with_tbl p t') ltac:(cbn; unfold blen in *; lia))). done.
  - destruct (Z.eqb_spec (blen up) 0) as [E|_]; [by apply blen_0 in E|]. assert (blen up <> 0) by (by rewrite blen_0).
    destruct (rand_total (pr_sys p)) as (rnd & o & Hr & Hr0).
    set (p2 := mkProc o t' (qconf_hashtbl p) (qconf_msqid p)).
    rewrite (SM_bind_Some (sysm (sys os_rand)) _ _ rnd p2) by (unfold sysm, sys; cbn; by rewrite Hr).
    pose proof (Z.mod_pos_bound rnd (blen up) ltac:(lia)) as Hm. rewrite list_lookup_fmap.
    destruct (lookup_lt_is_Some_2 up (Z.to_nat (rnd mod blen up)) ltac:(unfold blen in *; lia)) as (v & Hl).
    rewrite Hl. cbn [fmap option_fmap option_map]. pose proof (list_elem_of_lookup_2 _ _ _ Hl) as Hin.
    assert (Hvok : node_ok v) by (by eapply Forall_forall in Hup).
    assert (Hvs : blen v < buf_len) by (by eapply Forall_forall in Hshort).
    unfold strlen. rewrite c_str_node by done. destruct (Z.leb_spec buf_len (blen v)); [lia|].
    exists p2, v. rewrite (SM_bind_Some _ _ _ _ _ (store_cstr_ok buf v p2 ltac:(unfold blen in *; lia))). done.
Qed.

(** [qconf_get_host_] returns one of the hosts of the service that are up, whole and with a NUL, in a
    buffer longer than it; a host that is not up is never returned. Without any host that is up the buffer
    holds the empty string. *)
Theorem qconf_get_host_up idc m core n ns fl p vm buf buf_len flags tblval :
  let key := (serialize_to_tblkey QCONF_DATA_TYPE_SERVICE idc (delim :: core)).2 in
  ready p -> tbl_holds (pr_tbl p) vm -> core_path core -> idc <> [] -> key_ok QCONF_DATA_TYPE_SERVICE idc (delim :: core) ->
  Forall node_ok ns -> length fl = length ns -> blen ns < 65536 ->
  chdnodeval_to_tblval key (SV (blen ns) (Some <$> ns)) fl = Some tblval -> vm !! s_ident key = Some tblval ->
  0 < buf_len <= blen buf -> Forall (fun v => blen v < buf_len) ns ->
  exists p' v, qconf_get_host_ alloc (Some (slashes m ++ core ++ slashes n)) (Some buf) buf_len (Some idc) flags p =
      Some ((QCONF_OK, Some (v ++ [x00] ++ drop (S (length v)) buf)), p') /\
    if decide (up_nodes ns fl = []) then v = [] else v ∈ up_nodes ns fl.
Proof.
  cbn zeta. intros Hp Hh Hc Hi Hk Hall Hfl Hlen Hset Hl Hb Hshort.
  rewrite service_written in Hset by done. injection Hset as <-. pose proof (blen_up_nodes ns fl).
  apply (get_host_ok idc m core n _ p vm); try done; [by split; [|split; [apply up_nodes_sub|split; [lia|]]]|].
  rewrite List.Forall_forall in *. intros v Hv. apply Hshort. apply list_elem_of_In. apply list_elem_of_In in Hv. by eapply up_nodes_elem.
Qed.

(** The table holds the values [vals] of the children [ns] of a path. *)
Definition holds_children vm (idc path : bytes) (kvs : list (bytes * bytes)) : Prop :=
  Forall (fun kv => node_ok kv.1 /\ (x00 ∉ kv.2) /\ blen kv.2 < 2 ^ 32 /\
    let key := (serialize_to_tblkey QCONF_DATA_TYPE_NODE idc (path ++ [delim] ++ kv.1)).2 in
    vm !! s_ident key = Some (nodeval_to_tblval key kv.2)) kvs.

Definition batch_of (kv : bytes * bytes) : option bytes * option bytes := (Some kv.1, Some kv.2).

Lemma batch_loop_ok kvs path idc flags buf acc count p vm :
  ready p -> tbl_holds (pr_tbl p) vm -> idc <> [] -> holds_children vm idc path kvs ->
  exists t', batch_loop alloc path idc flags (Some <$> kvs.*1) buf acc count p =
      Some ((QCONF_OK, mkBatch count (Some (acc ++ (batch_of <$> kvs)))), with_tbl p t').
Proof.
  intros Hp Hh Hi Hall. revert p buf acc Hp Hh. induction Hall as [|[k v] kvs (Hk & Hn & Hv & Hl) Hall IH]; intros p buf acc Hp Hh.
  - exists (pr_tbl p). cbn. rewrite app_nil_r. by destruct p.
  - cbn [fmap list_fmap batch_loop fst snd] in *. rewrite c_str_node by done.
    destruct (qconf_get_hit_value (path ++ [delim] ++ k) buf idc flags p vm v) as (t1 & Hg & Hh1); try done; [by destruct path|].
    rewrite (SM_bind_Some _ _ _ _ _ Hg). cbv beta iota. cbn [Z.eqb QCONF_OK]. rewrite c_str_no_nul by done.
    rewrite take_ge by (unfold blen; lia).
    destruct (IH (with_tbl p t1) v (acc ++ [(Some k, Some v)]) Hp Hh1) as (t2 & Hrun). exists t2. rewrite Hrun.
    by rewrite <- app_assoc.
Qed.

(** A batch whose children and their values the table holds is returned complete and in order, without
    a message, each child with its value. *)
Theorem qconf_get_batch_complete idc m core n kvs p vm flags :
  let path := delim :: core in
  ready p -> tbl_holds (pr_tbl p) vm -> core_path core -> idc <> [] ->
  holds_vector vm QCONF_DATA_TYPE_BATCH_NODE idc path kvs.*1 -> holds_children vm idc path kvs ->
  exists t', qconf_get_batch_conf_ alloc (Some (slashes m ++ core ++ slashes n)) (Some (mkBatch 0 None)) (Some idc) flags p =
    Some ((QCONF_OK, Some (mkBatch (blen kvs) (if decide (kvs = []) then None else Some (batch_of <$> kvs)))), with_tbl p t').
Proof.
  cbn zeta. intros Hp Hh Hc Hi Hv Hch. set (path := delim :: core) in *.
  destruct (get_batchnodes_ok path idc flags p vm _ (SV 0 []) Hp Hh Hi ltac:(done) Hv) as (t' & Hkeys & Hh').
  destruct (batch_loop_ok kvs path idc flags [] [] (blen kvs) (with_tbl p t') vm Hp Hh' Hi Hch) as (t2 & Hloop).
  assert (Hlen : blen kvs.*1 = blen kvs) by (unfold blen; by rewrite length_fmap). rewrite Hlen in Hkeys.
  assert (Hb : exists t3, qconf_get_batchnode alloc path (mkBatch 0 None) idc flags p =
    Some ((QCONF_OK, mkBatch (blen kvs) (if decide (kvs = []) then None else Some (batch_of <$> kvs))), with_tbl p t3)).
  { unfold qconf_get_batchnode. rewrite decide_False by done. rewrite (SM_bind_Some _ _ _ _ _ Hkeys). cbv beta iota.
    cbn [Z.eqb QCONF_OK negb sv_count sv_data]. destruct (decide (kvs = [])) as [->|Hne].
    - by exists t'.
    - destruct (Z.eqb_spec (blen kvs) 0) as [E|_]; [by apply blen_0 in E|]. exists t2. by rewrite Hloop. }
  destruct Hb as (t3 & Hb). exists t3. unfold qconf_get_batch_conf_. rewrite c_path_core by done.
  rewrite (SM_bind_Some _ _ _ _ _ (node_path_core m core n p Hc)). cbv beta iota. cbn [Z.eqb QCONF_OK negb bn_count].
  change (c_idc (Some idc)) with idc. fold path. by rewrite (SM_bind_Some _ _ _ _ _ Hb).
Qed.
End Driver.

(** ** Witnesses on a table of 40 slots *)

Section Witnesses.
Import HashArr.

#[local] Existing Instance laws40.

(** The table after the agent stored one more value. *)
Definition after (key val : bytes) (s : shm hstate) : shm hstate :=
  match hash_tbl_set key val s with Some (_, s') => s' | None => s end.

Lemma after_ok key val s vm :
  shm_ok s vm -> key <> [] -> blen key < 65536 -> blen val < 2 ^ 32 ->
  slots_for (blen (with_code val)) <= s_room (sh_tbl s) ->
  exists vm', shm_ok (after key val s) vm' /\ vm' !! s_ident key = Some val /\
    forall k, k <> s_ident key -> vm' !! k = vm !! k.
Proof.
  intros Hok Hkn Hk Hv Hroom.
  assert (Hload : s_load (with_code <$> vm) key < 2 ^ 15 - 1).
  { destruct (s_size_ok _ _ (sk_rep _ _ Hok)) as (u & _ & Hu). pose proof (s_load_size (with_code <$> vm) key).
    assert (s_max = 40) by reflexivity. lia. }
  destruct (hash_tbl_set_ok key val s vm Hok Hkn Hk Hv Hload) as (ret & s' & vm' & ev & Hrun & Hok' & Hout & Hev & Hno).
  destruct (Hno Hroom) as [-> Hne]. exists vm'. unfold after. rewrite Hrun. split; [done|]. split.
  - destruct Hout as [(_ & Hl & -> & _)|[(_ & Hl & _)|(-> & _)]]; done.
  - intros k Hkk. rewrite (Hev k Hkk). by rewrite decide_False by apply not_elem_of_nil.
Qed.

Definition node_key (path : bytes) : bytes := (serialize_to_tblkey QCONF_DATA_TYPE_NODE (str "bj") path).2.
Definition demo_val : bytes := nodeval_to_tblval (node_key (str "/a")) (str "10.0.0.1").
Definition demo_one : shm hstate := after (node_key (str "/a")) demo_val demo_shm.

Lemma demo_one_ok : exists vm, shm_ok demo_one vm /\ vm !! s_ident (node_key (str "/a")) = Some demo_val.
Proof.
  destruct (after_ok (node_key (str "/a")) demo_val demo_shm ∅ demo_shm_ok) as (vm & Hok & Hl & _);
    [discriminate|reflexivity|reflexivity|vm_compute; discriminate|]. by exists vm.
Qed.

Lemma shm_holds (s : shm hstate) vm : shm_ok s vm -> tbl_holds (sh_tbl s) vm.
Proof. intros [? ? _ _]. by split. Qed.

(** The agent answers the first message by storing the value. *)
Definition agent_reader (s : list bytes * hstate) : list bytes * hstate :=
  match s with ([], t) => ([], t) | (_ :: q, _) => (q, sh_tbl demo_one) end.

#[local] Instance demo_os : OS (list bytes) hstate := fifo_os 8 agent_reader.
#[local] Instance demo_os_total : OSTotal (list bytes) hstate := fifo_total 8 agent_reader.
#[local] Instance demo_os_local : OSLocal.
Proof. intros us [q t] [q' t'] [E1 E2]. cbn in *. subst q'. destruct q; by split. Qed.

Lemma qconf_get_hit_witness :
  exists t', qconf_get_ (str "/a") [] QCONF_DATA_TYPE_NODE (str "bj") QCONF_WAIT (mkProc [] (sh_tbl demo_one) true 5) =
    Some ((QCONF_OK, demo_val), mkProc [] t' true 5).
Proof.
  destruct demo_one_ok as (vm & Hok & Hl).
  destruct (qconf_get_hit (str "/a") [] QCONF_DATA_TYPE_NODE (str "bj") (str "bj") QCONF_WAIT
    (mkProc [] (sh_tbl demo_one) true 5) vm demo_val) as (t' & Hrun & _);
    [by split|by apply shm_holds|reflexivity|reflexivity|exact Hl|]. exists t'. exact Hrun.
Defined.

Lemma qconf_get_miss_witness :
  exists p', qconf_get_ (str "/a") [] QCONF_DATA_TYPE_NODE (str "bj") QCONF_WAIT (mkProc [] (sh_tbl demo_shm) true 5) =
    Some ((QCONF_OK, demo_val), p').
Proof.
  destruct (qconf_get_miss (str "/a") [] QCONF_DATA_TYPE_NODE (str "bj") (str "bj") QCONF_WAIT
    (mkProc [] (sh_tbl demo_shm) true 5) ∅ ([node_key (str "/a")], sh_tbl demo_shm)) as (_ & Hwait & _);
    [by split|apply shm_holds, demo_shm_ok|reflexivity|reflexivity|apply lookup_empty|reflexivity|].
  destruct (Hwait ltac:(discriminate) 0%nat demo_val) as (p' & Hrun & _); [lia|intros; lia| |by exists p'].
  destruct demo_one_ok as (vm & Hok & Hl). exists vm. split; [by apply shm_holds|exact Hl].
Defined.

Lemma core_a : core_path (str "a").
Proof. repeat split; discriminate. Qed.

Lemma qconf_get_conf_buffer_witness :
  exists t', qconf_get_conf_ (Some (str "//a/")) (Some (replicate 16 xff)) 16 (Some (str "bj")) QCONF_NOWAIT
      (mkProc [] (sh_tbl demo_one) true 5) =
    Some ((QCONF_OK, Some (str "10.0.0.1" ++ [x00] ++ replicate 7 xff)), mkProc [] t' true 5).
Proof.
  destruct demo_one_ok as (vm & Hok & Hl).
  destruct (qconf_get_hit_value (str "/a") [] (str "bj") QCONF_NOWAIT (mkProc [] (sh_tbl demo_one) true 5) vm (str "10.0.0.1"))
    as (t' & Hg & _); [by split|by apply shm_holds|discriminate|discriminate|reflexivity|exact Hl|].
  exists t'. rewrite (qconf_get_conf_buffer 2 (str "a") 1 (replicate 16 xff) 16 (Some (str "bj")) QCONF_NOWAIT
    (mkProc [] (sh_tbl demo_one) true 5) core_a);
    [|split; vm_compute; discriminate].
  change (delim :: str "a") with (str "/a"). change (c_idc (Some (str "bj"))) with (str "bj"). rewrite Hg. reflexivity.
Defined.

Lemma publish_then_read_witness :
  exists ret s' t', hash_tbl_set (node_key (str "/a")) demo_val demo_shm = Some (ret, s') /\
    qconf_get_conf (Some (str "//a/")) (Some (replicate 16 xff)) 16 (Some (str "bj")) (mkProc [] (sh_tbl s') true 5) =
      Some ((QCONF_OK, Some (str "10.0.0.1" ++ [x00] ++ replicate 7 xff)), mkProc [] t' true 5).
Proof.
  destruct (publish_then_read (str "bj") 2 (str "a") 1 (str "10.0.0.1") demo_shm ∅ [] 5 (replicate 16 xff) 16 demo_shm_ok core_a)
    as (ret & s' & t' & Hset & _ & Hget);
    [discriminate|reflexivity|reflexivity|apply demo_load|vm_compute; discriminate|discriminate|split; [reflexivity|vm_compute; discriminate]|].
  exists ret, s', t'. exact (conj Hset Hget).
Defined.

(** A service with one host up and one down. *)
Definition svc_key : bytes := (serialize_to_tblkey QCONF_DATA_TYPE_SERVICE (str "bj") (str "/s")).2.
Definition svc_val : bytes := vector_val [str "h1:80"] svc_key.
Definition demo_svc : shm hstate := after svc_key svc_val demo_shm.

Lemma nodes_ok_dec (ns : list bytes) :
  forallb (fun v => bool_decide (x00 ∉ v) && (blen v <? 65536)) ns = true -> Forall node_ok ns.
Proof.
  intros Hb. apply Forall_forall. intros v Hv. rewrite forallb_forall in Hb.
  apply list_elem_of_In, Hb, andb_true_iff in Hv as [Hn%bool_decide_eq_true Hl%Z.ltb_lt]. done.
Qed.

Lemma qconf_get_host_up_witness :
  exists p' v, qconf_get_host_ (fun _ => true) (Some (str "/s")) (Some (replicate 16 xff)) 16 (Some (str "bj")) QCONF_WAIT
      (mkProc [] (sh_tbl demo_svc) true 5) = Some ((QCONF_OK, Some (v ++ [x00] ++ drop (S (length v)) (replicate 16 xff))), p') /\
    v ∈ [str "h1:80"].
Proof.
  destruct (after_ok svc_key svc_val demo_shm ∅ demo_shm_ok) as (vm & Hok & Hl & _);
    [discriminate|reflexivity|reflexivity|vm_compute; discriminate|].
  apply (qconf_get_host_up (str "bj") 1 (str "s") 0 [str "h1:80"; str "h2:80"] [STATUS_UP; STATUS_DOWN]
    (mkProc [] (sh_tbl demo_svc) true 5) vm (replicate 16 xff) 16 QCONF_WAIT svc_val).
  - by split.
  - by apply shm_holds.
  - repeat split; discriminate.
  - discriminate.
  - split; [|split; [|left]]; reflexivity.
  - by apply nodes_ok_dec.
  - reflexivity.
  - reflexivity.
  - reflexivity.
  - exact Hl.
  - split; [reflexivity|vm_compute; discriminate].
  - by repeat constructor.
Defined.

(** A batch with two children. *)
Definition batch_key : bytes := (serialize_to_tblkey QCONF_DATA_TYPE_BATCH_NODE (str "bj") (str "/b")).2.
Definition batch_val : bytes := vector_val [str "x"; str "y"] batch_key.
Definition child_val (path v : bytes) : bytes := nodeval_to_tblval (node_key path) v.
Definition demo_batch1 : shm hstate := after batch_key batch_val demo_shm.
Definition demo_batch2 : shm hstate := after (node_key (str "/b/x")) (child_val (str "/b/x") (str "1")) demo_batch1.
Definition demo_batch3 : shm hstate := after (node_key (str "/b/y")) (child_val (str "/b/y") (str "2")) demo_batch2.

Lemma demo_batch_ok : exists vm, shm_ok demo_batch3 vm /\ vm !! s_ident batch_key = Some batch_val /\
  vm !! s_ident (node_key (str "/b/x")) = Some (child_val (str "/b/x") (str "1")) /\
  vm !! s_ident (node_key (str "/b/y")) = Some (child_val (str "/b/y") (str "2")).
Proof.
  destruct (after_ok batch_key batch_val demo_shm ∅ demo_shm_ok) as (vm1 & Hok1 & Hl1 & _);
    [discriminate|reflexivity|reflexivity|vm_compute; discriminate|].
  destruct (after_ok (node_key (str "/b/x")) (child_val (str "/b/x") (str "1")) demo_batch1 vm1 Hok1) as (vm2 & Hok2 & Hl2 & Hf2);
    [discriminate|reflexivity|reflexivity|vm_compute; discriminate|].
  destruct (after_ok (node_key (str "/b/y")) (child_val (str "/b/y") (str "2")) demo_batch2 vm2 Hok2) as (vm3 & Hok3 & Hl3 & Hf3);
    [discriminate|reflexivity|reflexivity|vm_compute; discriminate|].
  assert (Hne : forall k k', blen k <= 32 -> k <> k' -> s_ident k <> s_ident k') by (intros k k' Hk Hn E; by apply Hn, s_ident_inj).
  exists vm3. split; [done|]. rewrite (Hf3 (s_ident batch_key)), (Hf2 (s_ident batch_key)), (Hf3 (s_ident (node_key (str "/b/x"))));
    [done|apply Hne; vm_compute; discriminate..].
Qed.

Lemma qconf_get_batch_complete_witness :
  exists t', qconf_get_batch_conf_ (fun _ => true) (Some (str "/b")) (Some (mkBatch 0 None)) (Some (str "bj")) QCONF_WAIT
      (mkProc [] (sh_tbl demo_batch3) true 5) =
    Some ((QCONF_OK, Some (mkBatch 2 (Some [(Some (str "x"), Some (str "1")); (Some (str "y"), Some (str "2"))]))),
          mkProc [] t' true 5).
Proof.
  destruct demo_batch_ok as (vm & Hok & Hb & Hx & Hy).
  apply (qconf_get_batch_complete (str "bj") 1 (str "b") 0 [(str "x", str "1"); (str "y", str "2")]
    (mkProc [] (sh_tbl demo_batch3) true 5) vm QCONF_WAIT).
  - by split.
  - by apply shm_holds.
  - repeat split; discriminate.
  - discriminate.
  - split; [split; [|split; [|left]]; reflexivity|]. split; [by apply nodes_ok_dec|]. split; [reflexivity|exact Hb].
  - assert (Hnode : forall v, forallb (fun v => bool_decide (x00 ∉ v) && (blen v <? 65536)) [v] = true -> node_ok v /\ (x00 ∉ v)).
    { intros v Hv. apply nodes_ok_dec, Forall_cons in Hv as [Hv _]. split; [done|apply Hv]. }
    repeat constructor; cbn [fst snd]; try (by apply Hnode); [exact Hx|exact Hy].
Defined.
End Witnesses.
