(* ===== verification/Shell.v ===== *)
(** * The command line client ([src/driver/sh/qconf.cc])

    [main] reads a command, a path and an optional idc, calls the client library and prints the answer, a
    line per value. The result is the exit code and the text on the standard output. *)

From S2P Require Import Prelude Common Text HashArr HashArrInv HashArrPut Format FormatThm Store Shm ShmThm Sys ShmInit Driver DriverThm.

Module Shell.
Import Format Shm Msg ShmInit Driver.

Definition QCONF_CONF_BUF_MAX_LEN : Z := 1024 * 1024.
Definition QCONF_HOST_BUF_MAX_LEN : Z := 256.

Definition CMD_GET_CONF : bytes := str "get_conf".
Definition CMD_GET_HOST : bytes := str "get_host".
Definition CMD_GET_ALLHOST : bytes := str "get_allhost".
Definition CMD_GET_BATCH_CONF : bytes := str "get_batch_conf".
Definition CMD_GET_BATCH_KEYS : bytes := str "get_batch_keys".
Definition CMD_VERSION : bytes := str "version".
Definition QCONF_SHELL_VERSION : bytes := str "1.2.2".

Definition line (s : bytes) : bytes := s ++ [x0a].

Definition show_usage : bytes := flat_map line
  [str "usage: qconf command key [idc]";
   str "       command: can be one of below commands:";
   str "                version         : get qconf version";
   str "                get_conf        : get configure value";
   str "                get_host        : get one service";
   str "                get_allhost     : get all services available";
   str "                get_batch_keys  : get all children keys";
   str "       key    : the path of your configure items";
   str "       idc    : query from current idc if be omitted";
   str "example: ";
   str "       qconf get_conf " ++ [x22] ++ str "demo/conf" ++ [x22];
   str "       qconf get_conf " ++ [x22] ++ str "demo/conf" ++ [x22] ++ str " " ++ [x22] ++ str "corp" ++ [x22] ++ str " "].

Section WithTable.
Context {W T : Type} `{OS W T} `{Store T}.
Variable alloc_ok : Z -> bool.
Abbreviation DM := (SM (proc W T)).

(** [printf] of a code that says that a call failed. *)
Definition failed (text : bytes) (ret : Z) : bytes := line (text ++ str "! ret:" ++ print_dec ret).

(** The loop that prints the entries of a vector. *)
Fixpoint print_loop (n i : nat) (data : list (option bytes)) : option bytes :=
  match n with
  | O => Some []
  | S n' =>
      match data !! i with
      | Some (Some node) => option_map (app (line (c_str node))) (print_loop n' (S i) data)
      | _ => None
      end
  end.

(** The branches of [main]. [value] is what the local buffer holds before the call. *)
Definition get_conf (path value : bytes) (idc : option bytes) : DM (Z * bytes) :=
  '(ret, value) ← qconf_get_conf (Some path) (Some value) QCONF_CONF_BUF_MAX_LEN idc;
  if negb (ret =? QCONF_OK) then mret (ret, failed (str "[ERROR]Failed to get conf") ret) else
  mret (ret, line (c_str (default [] value))).

Definition get_host (path : bytes) (idc : option bytes) : DM (Z * bytes) :=
  '(ret, host) ← qconf_get_host alloc_ok (Some path) (Some (replicate (Z.to_nat QCONF_HOST_BUF_MAX_LEN) x00)) QCONF_HOST_BUF_MAX_LEN idc;
  if negb (ret =? QCONF_OK) then mret (ret, failed (str "[ERROR]Failed to get get host") ret) else
  mret (ret, line (c_str (default [] host))).

(** Both lists: [get] is the call, [init_text] and [text] what is printed when a call fails. *)
Definition get_list (get : option string_vector_t -> DM (Z * option string_vector_t)) (init_text text : bytes) : DM (Z * bytes) :=
  let '(ret, nodes) := init_string_vector (Some (SV 0 [])) in
  if negb (ret =? QCONF_OK) then mret (ret, failed init_text ret) else
  '(ret, nodes) ← get nodes;
  if negb (ret =? QCONF_OK) then mret (ret, failed text ret) else
  let nodes := default (SV 0 []) nodes in
  match print_loop (Z.to_nat (sv_count nodes)) 0 (sv_data nodes) with
  | Some out => mret (ret, out)
  | None => undefined
  end.

Definition get_allhost (path : bytes) (idc : option bytes) : DM (Z * bytes) :=
  get_list (fun nodes => qconf_get_allhost alloc_ok (Some path) nodes idc)
    (str "[ERROR]Failed to init string vector") (str "[ERROR]Failed to get all services").
Definition get_batch_keys (path : bytes) (idc : option bytes) : DM (Z * bytes) :=
  get_list (fun nodes => qconf_get_batch_keys alloc_ok (Some path) nodes idc)
    (str "[ERROR]Faield to init string vector") (str "[ERROR]Failed to get batch keys").

Definition run_command (command path value : bytes) (idc : option bytes) : DM (Z * bytes) :=
  if decide (command = CMD_GET_CONF) then get_conf path value idc
  else if decide (command = CMD_GET_HOST) then get_host path idc
  else if decide (command = CMD_GET_ALLHOST) then get_allhost path idc
  else if decide (command = CMD_GET_BATCH_KEYS) then get_batch_keys path idc
  else mret (QCONF_OK, show_usage).

(** [argv] with the name of the program; every argument is a C string. *)
Definition main (argv : list bytes) (value : bytes) : DM (Z * bytes) :=
  match argv with
  | [] | [_] => mret (QCONF_ERR_OTHER, show_usage)
  | _ :: command :: rest =>
      if decide (command = CMD_VERSION) then mret (QCONF_OK, line (str "Version : " ++ QCONF_SHELL_VERSION)) else
      match rest with
      | [] => mret (QCONF_ERR_OTHER, show_usage)
      | path :: rest' =>
          ret ← qconf_init;
          if negb (ret =? QCONF_OK) then mret (ret, failed (str "[ERROR] Failed to init qconf") ret) else
          let idc := match rest' with [idc] => Some idc | _ => None end in
          run_command command path value idc
      end
  end.
End WithTable.

(** ** What the commands print *)

Section Laws.
Context {W T : Type} `{OS W T} `{!OSTotal W T} `{StoreLaws T} `{!OSLocal}.
Implicit Types (p : proc W T) (vm : gmap kid bytes).
Abbreviation alloc := (fun _ : Z => true).

(** A process that has not attached yet: it either ends up with both handles or reports an error, and does
    not change the table. *)
Lemma init_total p :
  exists ret p', init_qconf_env p = Some (ret, p') /\ pr_tbl p' = pr_tbl p /\ (ret = QCONF_OK -> ready p').
Proof.
  assert (Hmsg : forall p, exists ret p', init_msg p = Some (ret, p') /\ pr_tbl p' = pr_tbl p /\ qconf_hashtbl p' = qconf_hashtbl p /\
    (ret = QCONF_OK -> qconf_msqid p' <> QCONF_INVALID_SEM_ID)).
  { intros p0. unfold init_msg. erewrite SM_bind_Some; [|reflexivity].
    destruct (Z.eqb_spec (qconf_msqid p0) QCONF_INVALID_SEM_ID) as [E|E]; cbn [negb]; [|by exists QCONF_OK, p0].
    destruct (msgget_total QCONF_DEFAULT_MSG_QUEUE_KEY PERMS (pr_sys p0)) as ([id e] & o & Hg).
    erewrite SM_bind_Some; [|unfold sysm, init_msg_queue; run_sys; reflexivity]. cbv beta iota.
    erewrite SM_bind_Some; [|reflexivity]. eexists _, _. split; [reflexivity|]. split; [done|]. split; [done|]. cbn [qconf_msqid].
    unfold QCONF_INVALID_SEM_ID. by destruct (Z.eqb_spec id (-1)). }
  unfold init_qconf_env.
  assert (Hshm : exists ret p', init_shm p = Some (ret, p') /\ pr_tbl p' = pr_tbl p /\ (ret = QCONF_OK -> qconf_hashtbl p' = true)).
  { unfold init_shm. erewrite SM_bind_Some; [|reflexivity]. destruct (qconf_hashtbl p) eqn:E; [by exists QCONF_OK, p|].
    destruct (shmget_total QCONF_DEFAULT_SHM_KEY 0 292 (pr_sys p)) as ([id e] & o & Hg).
    destruct (shmat_total id SHM_RDONLY o) as ([ok e2] & o2 & Ha).
    destruct (Z.eqb_spec id (-1)) as [Ei|Ei].
    - erewrite SM_bind_Some; [|unfold sysm, init_hash_tbl; run_sys; rewrite (proj2 (Z.eqb_eq _ _) Ei); reflexivity]. cbv beta iota.
      erewrite SM_bind_Some; [|reflexivity]. eexists _, _. by split.
    - destruct ok;
        (erewrite SM_bind_Some; [|unfold sysm, init_hash_tbl; run_sys; rewrite (proj2 (Z.eqb_neq _ _) Ei); run_sys; reflexivity]);
        cbv beta iota; (erewrite SM_bind_Some; [|reflexivity]); eexists _, _; by split. }
  destruct Hshm as (ret & p1 & Hr1 & Et1 & Htbl). rewrite (SM_bind_Some _ _ _ _ _ Hr1).
  destruct (Z.eqb_spec ret QCONF_OK) as [->|Hne]; cbn [negb]; [|by exists ret, p1].
  destruct (Hmsg p1) as (ret & p2 & Hr2 & Et2 & Eh & Hid). exists ret, p2. split; [done|]. split; [by rewrite Et2|].
  intros E. split; [by rewrite Eh; auto|by auto].
Qed.

Lemma print_loop_ok vs pre :
  Forall node_ok vs -> print_loop (length vs) (length pre) (Some <$> pre ++ vs) = Some (flat_map line vs).
Proof.
  intros Hvs. revert pre. induction Hvs as [|v vs Hv Hvs IH]; intros pre; [done|]. cbn [length print_loop flat_map].
  rewrite list_lookup_fmap, lookup_app_r, Nat.sub_diag by done. cbn [lookup list_lookup fmap option_fmap option_map].
  specialize (IH (pre ++ [v])). rewrite length_app, Nat.add_1_r, <- app_assoc in IH. cbn [app] in IH.
  cbn [fmap list_fmap] in *. rewrite IH. cbn [option_map]. by rewrite c_str_node.
Qed.

Lemma list_printed vs get t1 t2 p p' :
  Forall node_ok vs -> get (Some (SV 0 [])) p = Some ((QCONF_OK, Some (SV (blen vs) (Some <$> vs))), p') ->
  get_list (W := W) (T := T) get t1 t2 p = Some ((QCONF_OK, flat_map line vs), p').
Proof.
  intros Hvs Hg. unfold get_list, init_string_vector. cbn [Z.eqb QCONF_OK negb]. rewrite (SM_bind_Some _ _ _ _ _ Hg). cbv beta iota.
  cbn [Z.eqb QCONF_OK negb default id from_option sv_count sv_data]. pose proof (print_loop_ok vs [] Hvs) as E. cbn [length app] in E.
  unfold blen. by rewrite Nat2Z.id, E.
Qed.

Lemma allhost_ok idc m core n p vm vs flags :
  ready p -> tbl_holds (pr_tbl p) vm -> core_path core -> idc <> [] -> holds_vector vm QCONF_DATA_TYPE_SERVICE idc (delim :: core) vs ->
  exists p', qconf_get_allhost_ alloc (Some (slashes m ++ core ++ slashes n)) (Some (SV 0 [])) (Some idc) flags p =
    Some ((QCONF_OK, Some (SV (blen vs) (Some <$> vs))), p').
Proof.
  intros Hp Hh Hc Hi Hv. destruct (get_children_ok (delim :: core) idc flags p vm vs (SV 0 [])) as (t' & Hg); try done.
  exists (with_tbl p t'). unfold qconf_get_allhost_. rewrite c_path_core by done.
  rewrite (SM_bind_Some _ _ _ _ _ (node_path_core m core n p Hc)). cbv beta iota. cbn [Z.eqb QCONF_OK negb].
  change (c_idc (Some idc)) with idc. change (reset_vector (SV 0 [])) with (SV 0 []). by rewrite (SM_bind_Some _ _ _ _ _ Hg).
Qed.

Lemma batch_keys_ok idc m core n p vm vs flags :
  ready p -> tbl_holds (pr_tbl p) vm -> core_path core -> idc <> [] -> holds_vector vm QCONF_DATA_TYPE_BATCH_NODE idc (delim :: core) vs ->
  exists p', qconf_get_batch_keys_ alloc (Some (slashes m ++ core ++ slashes n)) (Some (SV 0 [])) (Some idc) flags p =
    Some ((QCONF_OK, Some (SV (blen vs) (Some <$> vs))), p').
Proof.
  intros Hp Hh Hc Hi Hv. destruct (get_batchnodes_ok (delim :: core) idc flags p vm vs (SV 0 [])) as (t' & Hg & _); try done.
  exists (with_tbl p t'). unfold qconf_get_batch_keys_. rewrite c_path_core by done.
  rewrite (SM_bind_Some _ _ _ _ _ (node_path_core m core n p Hc)). cbv beta iota. cbn [Z.eqb QCONF_OK negb].
  change (c_idc (Some idc)) with idc. change (reset_vector (SV 0 [])) with (SV 0 []). by rewrite (SM_bind_Some _ _ _ _ _ Hg).
Qed.

(** A known command with a path and an idc. *)
Lemma main_runs name cmd path idc value p p1 :
  cmd <> CMD_VERSION -> init_qconf_env p = Some (QCONF_OK, p1) ->
  main alloc [name; cmd; path; idc] value p = run_command alloc cmd path value (Some idc) p1.
Proof.
  intros Hc Hi. unfold main. rewrite decide_False by done. unfold qconf_init. by rewrite (SM_bind_Some _ _ _ _ _ Hi).
Qed.

(** The command line client, run in a fresh process, either fails to attach and prints the error and
    returns its code, or attaches and prints what the table holds for the path, in any spelling: for a node
    its value, for a service all its hosts, each on a line, or one of them, for a batch the names of its
    children; the exit code is then success. *)
Theorem shell_prints (name idc core value : bytes) (m n : nat) p vm :
  let path := slashes m ++ core ++ slashes n in
  let real := delim :: core in
  let key := (serialize_to_tblkey QCONF_DATA_TYPE_NODE idc real).2 in
  tbl_holds (pr_tbl p) vm -> core_path core -> idc <> [] -> blen value = QCONF_CONF_BUF_MAX_LEN ->
  exists ret p1, init_qconf_env p = Some (ret, p1) /\
    (ret <> QCONF_OK -> forall cmd, cmd <> CMD_VERSION ->
       main alloc [name; cmd; path; idc] value p = Some ((ret, failed (str "[ERROR] Failed to init qconf") ret), p1)) /\
    (ret = QCONF_OK ->
       (forall val, vm !! s_ident key = Some (nodeval_to_tblval key val) -> (x00 ∉ val) -> blen val < QCONF_CONF_BUF_MAX_LEN ->
          exists p', main alloc [name; CMD_GET_CONF; path; idc] value p = Some ((QCONF_OK, line val), p')) /\
       (forall vs, holds_vector vm QCONF_DATA_TYPE_SERVICE idc real vs ->
          (exists p', main alloc [name; CMD_GET_ALLHOST; path; idc] value p = Some ((QCONF_OK, flat_map line vs), p')) /\
          (Forall (fun v => blen v < QCONF_HOST_BUF_MAX_LEN) vs -> vs <> [] ->
             exists v p', v ∈ vs /\ main alloc [name; CMD_GET_HOST; path; idc] value p = Some ((QCONF_OK, line v), p'))) /\
       (forall vs, holds_vector vm QCONF_DATA_TYPE_BATCH_NODE idc real vs ->
          exists p', main alloc [name; CMD_GET_BATCH_KEYS; path; idc] value p = Some ((QCONF_OK, flat_map line vs), p'))).
Proof.
  cbn zeta. intros Hh Hc Hi Hval. destruct (init_total p) as (ret & p1 & Hinit & Et & Hready). exists ret, p1. split; [done|]. split.
  { intros Hne cmd Hcmd. unfold main. rewrite decide_False by done. unfold qconf_init. rewrite (SM_bind_Some _ _ _ _ _ Hinit).
    by rewrite (proj2 (Z.eqb_neq _ _) Hne). }
  intros ->. specialize (Hready eq_refl). rewrite <- Et in Hh. destruct p1 as [w t tb qid]. destruct Hready as [Htb Hid]. cbn in Htb, Hid. subst tb.
  assert (Hp : ready (mkProc w t true qid)) by done. split; [|split].
  - intros val Hl Hz Hlen. destruct (read_stored idc m core n val t vm w qid value QCONF_CONF_BUF_MAX_LEN) as (t' & Hg); try done;
      [unfold QCONF_CONF_BUF_MAX_LEN in *; lia|by split; [|lia]|].
    exists (mkProc w t' true qid). rewrite (main_runs name CMD_GET_CONF _ _ _ _ _ ltac:(done) Hinit).
    change (run_command alloc CMD_GET_CONF) with (fun path value idc => get_conf (W := W) (T := T) path value idc). cbv beta. unfold get_conf.
    rewrite (SM_bind_Some _ _ _ _ _ Hg). cbv beta iota. cbn [Z.eqb QCONF_OK negb default id from_option app]. by rewrite c_str_app.
  - intros vs Hvs. pose proof Hvs as (_ & Hall & _). split.
    + destruct (allhost_ok idc m core n (mkProc w t true qid) vm vs QCONF_WAIT) as (p' & Hg); try done. exists p'.
      rewrite (main_runs name CMD_GET_ALLHOST _ _ _ _ _ ltac:(done) Hinit). by apply list_printed.
    + intros Hshort Hne. destruct (get_host_ok idc m core n vs (mkProc w t true qid) vm (replicate (Z.to_nat QCONF_HOST_BUF_MAX_LEN) x00)
        QCONF_HOST_BUF_MAX_LEN QCONF_WAIT) as (p' & v & Hg & Hv); try done.
      rewrite decide_False in Hv by done. exists v, p'. split; [done|]. rewrite (main_runs name CMD_GET_HOST _ _ _ _ _ ltac:(done) Hinit).
      change (run_command alloc CMD_GET_HOST) with (fun path (value : bytes) idc => get_host (W := W) (T := T) alloc path idc). cbv beta. unfold get_host, qconf_get_host.
      rewrite (SM_bind_Some _ _ _ _ _ Hg). cbv beta iota. cbn [Z.eqb QCONF_OK negb default id from_option app].
      rewrite c_str_app; [done|]. assert (Hok : node_ok v) by by eapply Forall_forall in Hall. apply Hok.
  - intros vs Hvs. pose proof Hvs as (_ & Hall & _).
    destruct (batch_keys_ok idc m core n (mkProc w t true qid) vm vs QCONF_WAIT) as (p' & Hg); try done. exists p'.
    rewrite (main_runs name CMD_GET_BATCH_KEYS _ _ _ _ _ ltac:(done) Hinit). by apply list_printed.
Qed.
End Laws.

(** ** Witness: a fresh process and a table with one node *)

Section Witness.
Import HashArr.
#[local] Existing Instance laws40.
#[local] Instance shell_os : OS (list bytes) hstate := fifo_os 10 id.
#[local] Instance shell_os_total : OSTotal (list bytes) hstate := fifo_total 10 id.
#[local] Instance shell_os_local : OSLocal.
Proof. intros us s s' Hs. exact Hs. Qed.

Lemma fresh_ok (t : hstate) : exists p, init_qconf_env (mkProc [] t false QCONF_INVALID_SEM_ID) = Some (QCONF_OK, p).
Proof. eexists. reflexivity. Qed.

Lemma some_buffer : exists value : bytes, blen value = QCONF_CONF_BUF_MAX_LEN.
Proof. exists (replicate (Z.to_nat QCONF_CONF_BUF_MAX_LEN) x00). unfold blen. by rewrite length_replicate, Z2Nat.id. Qed.

Lemma shell_prints_witness :
  exists value p', main (fun _ => true) [str "qconf"; CMD_GET_CONF; str "//a/"; str "bj"] value
      (mkProc [] (sh_tbl demo_one) false QCONF_INVALID_SEM_ID) = Some ((QCONF_OK, line (str "10.0.0.1")), p').
Proof.
  destruct demo_one_ok as (vm & Hok & Hl). destruct some_buffer as (value & Hv). exists value.
  pose proof (shm_holds _ _ Hok) as Hh. clear Hok. revert Hh. generalize (sh_tbl demo_one). intros t Hh.
  destruct (shell_prints (str "qconf") (str "bj") (str "a") value 2 1 (mkProc [] t false QCONF_INVALID_SEM_ID) vm Hh core_a)
    as (ret & p1 & Hinit & _ & Hrun); [discriminate|exact Hv|].
  destruct (fresh_ok t) as (p2 & Hfresh). rewrite Hfresh in Hinit. injection Hinit as E _.
  destruct (Hrun (eq_sym E)) as (Hconf & _). apply (Hconf (str "10.0.0.1") Hl); [apply (bool_decide_unpack _); vm_compute; exact I|reflexivity].
Defined.
End Witness.
End Shell.
