(* ===== verification/Daemon.v ===== *)
(** * Running in the background ([src/agent/qconf_daemon.cc])

    The agent detaches from its terminal, takes the lock of its pid file and forks a child that does the
    work; the parent waits for the child and forks a new one whenever it dies. Calls on processes and files
    are a class of operations on the state of the system; logging is left out. *)

From S2P Require Import Prelude Common Text.

(** How a child ended, as the macros on the status of [waitpid] tell. *)
Inductive wstatus :=
  | WExited (code : Z)
  | WSignaled (sig : Z)
  | WStopped
  | WOther.

Inductive handler := SIG_DFL | SIG_IGN | Forward | Handler.

Class Procs (W : Type) := {
  sys_fork : SM W Z;                               (* -1, 0 in the child, or the pid of the child *)
  sys_setsid : SM W Z;
  sys_getpid : SM W Z;
  sys_getppid : SM W Z;
  sys_waitpid : Z -> SM W (Z * wstatus * Z);       (* pid or -1, status, errno *)
  sys_signal : Z -> handler -> SM W unit;
  sys_kill : Z -> Z -> SM W unit;                  (* pid (0: the group), signal *)
  sys_sleep : Z -> SM W Z;                         (* what is left of the seconds *)
  sys_umask : Z -> SM W unit;
  sys_open : bytes -> Z -> Z -> SM W Z;            (* name, flags, mode; descriptor or -1 *)
  sys_lockf : Z -> SM W Z;                         (* a try for the lock of the whole file: 0 or -1 *)
  sys_dup2 : Z -> Z -> SM W unit;
  sys_close : Z -> SM W unit;
  sys_rewrite : Z -> bytes -> SM W unit;           (* lseek to the start, and write *)
  sys_unlink : bytes -> SM W unit;
  sys_open_max : SM W Z
}.

(** A function of this file either returns or ends the process. *)
Inductive outcome (A : Type) := Returns (a : A) | Exits (code : Z).
Arguments Returns {A} a.
Arguments Exits {A} code.

Module Daemon.

Definition QCONF_EXIT_NORMAL : Z := 50.
Definition QCONF_ERR_LOCK : Z := 53.
Definition EXIT_SUCCESS : Z := 0.
Definition EXIT_FAILURE : Z := 1.
Definition O_RDWR : Z := 2.
Definition O_CREAT : Z := 64.
Definition O_TRUNC : Z := 512.
Definition SIGHUP : Z := 1.
Definition SIGINT : Z := 2.
Definition SIGUSR1 : Z := 10.
Definition SIGUSR2 : Z := 12.
Definition SIGPIPE : Z := 13.
Definition SIGTERM : Z := 15.

Section WithProcs.
Context {W : Type} `{Procs W}.
Abbreviation PM := (SM W).

Fixpoint set_signals (sigs : list Z) (h : handler) : PM unit :=
  match sigs with
  | [] => mret tt
  | sig :: sigs' => sys_signal sig h;; set_signals sigs' h
  end.

(** The loop that closes the descriptors from [fd] down to 3; [n] of them. *)
Fixpoint close_loop (n : nat) (fd : Z) : PM unit :=
  match n with
  | O => mret tt
  | S n' => sys_close fd;; close_loop n' (fd - 1)
  end.

Definition daemonize : PM (outcome unit) :=
  pid ← sys_fork;
  if pid <? 0 then mret (Exits EXIT_FAILURE) else
  if 0 <? pid then mret (Exits EXIT_SUCCESS) else
  sid ← sys_setsid;
  if sid <? 0 then mret (Exits EXIT_FAILURE) else
  sys_signal SIGHUP SIG_IGN;;
  pid ← sys_fork;
  if pid <? 0 then mret (Exits EXIT_FAILURE) else
  if 0 <? pid then mret (Exits EXIT_SUCCESS) else
  sys_umask 0;;
  fd ← sys_open (str "/dev/null") O_RDWR 0;
  (if fd =? -1 then mret tt else
     sys_dup2 fd 0;;
     sys_dup2 fd 1;;
     sys_dup2 fd 2;;
     if 3 <=? fd then sys_close fd else mret tt);;
  max ← sys_open_max;
  close_loop (Z.to_nat (max - 2)) max;;
  mret (Returns tt).

Definition signal_forward (sig : Z) : PM unit := sys_signal sig SIG_IGN;; sys_kill 0 sig.

Definition check_proc_exist (pid_file : bytes) : PM (Z * Z) :=
  pid_fd ← sys_open pid_file (Z.lor (Z.lor O_RDWR O_TRUNC) O_CREAT) 420 (* 0644 *);
  if -1 =? pid_fd then mret (QCONF_ERR_OPEN, pid_fd) else
  ret ← sys_lockf pid_fd;
  if -1 =? ret then mret (QCONF_ERR_LOCK, pid_fd) else
  mret (QCONF_OK, pid_fd).

Definition write_pid (fd chd_pid : Z) : PM unit := sys_rewrite fd (take 31 (print_dec chd_pid)).

(** The inner loop: it forks until there is one child. The child leaves with [inl], the parent goes on with
    the number of children and the pid. *)
Fixpoint spawn_loop (fuel : nat) (nprocs child_pid : Z) : PM (Z + Z * Z) :=
  match fuel with
  | O => undefined
  | S fuel' =>
      if nprocs <? 1 then
        pid ← sys_fork;
        if pid =? 0 then mret (inl QCONF_OK)
        else if pid <? 0 then mret (inl QCONF_ERR_OTHER)
        else
          set_signals [SIGPIPE; SIGINT; SIGTERM; SIGHUP; SIGUSR1; SIGUSR2] Forward;;
          spawn_loop fuel' (nprocs + 1) pid
      else mret (inr (nprocs, child_pid))
  end.

(** What the parent does before it forks again. *)
Definition restart_later : PM unit :=
  set_signals [SIGINT; SIGTERM; SIGHUP] SIG_DFL;;
  sys_sleep 1;;
  mret tt.

(** The wait for the child: [inl] to return, [inr] with the number of children and the pid to go on. *)
Definition wait_child (pid_file : bytes) (pid_fd nprocs child_pid : Z) : PM (Z + Z * Z) :=
  if child_pid =? -1 then mret (inr (nprocs, child_pid)) else
  write_pid pid_fd child_pid;;
  '(exit_pid, exit_status, _) ← sys_waitpid child_pid;
  if exit_pid =? child_pid then
    match exit_status with
    | WExited code =>
        if 0 =? code then sys_unlink pid_file;; mret (inl QCONF_EXIT_NORMAL)
        else restart_later;; mret (inr (nprocs - 1, -1))
    | WSignaled sig => restart_later;; mret (inr (nprocs - 1, -1))
    | WStopped | WOther => mret (inr (nprocs, child_pid))
    end
  else mret (inr (nprocs, child_pid)).

(** The outer loop, [fuel] rounds of it. *)
Fixpoint keepalive_loop (fuel : nat) (pid_file : bytes) (pid_fd nprocs child_pid : Z) : PM Z :=
  match fuel with
  | O => undefined
  | S fuel' =>
      r ← spawn_loop 2 nprocs child_pid;
      match r with
      | inl ret => mret ret
      | inr (nprocs, child_pid) =>
          r ← wait_child pid_file pid_fd nprocs child_pid;
          match r with
          | inl ret => mret ret
          | inr (nprocs, child_pid) => keepalive_loop fuel' pid_file pid_fd nprocs child_pid
          end
      end
  end.

Definition qconf_agent_daemon_keepalive (fuel : nat) (pid_file : bytes) : PM (outcome Z) :=
  d ← daemonize;
  match d with
  | Exits code => mret (Exits code)
  | Returns _ =>
      '(ret, pid_fd) ← check_proc_exist pid_file;
      if negb (ret =? QCONF_OK) then mret (Returns ret) else
      ret ← keepalive_loop fuel pid_file pid_fd 0 (-1);
      mret (Returns ret)
  end.
End WithProcs.
End Daemon.
