(* ===== verification/DaemonThm.v ===== *)
(** * Keeping the agent alive

    The parent of the agent restarts it after every death but a clean exit, and what it does to its pid
    file. *)

From S2P Require Import Prelude Common Text Daemon.

(** The life of a child as its parent sees it: the calls of [waitpid] that a signal interrupts, with their
    [errno], and how it ends. *)
Record life := mkLife { interruptions : list Z; death : wstatus }.

(** The documented behaviour. [quiet w ls]: there is no child, and those that will be forked live [ls].
    [running w pid es d ls]: the child [pid] is there, [waitpid] will be interrupted by [es] before it
    reports [d], and later children live [ls]. The calls on signals, time and files change neither. *)
Class ProcsLaws (W : Type) `{Procs W} := {
  quiet : W -> list life -> Prop;
  running : W -> Z -> list Z -> wstatus -> list life -> Prop;
  file_text : W -> bytes -> option bytes;
  same_lives (w w' : W) : Prop :=
    (forall ls, quiet w ls -> quiet w' ls) /\ (forall pid es d ls, running w pid es d ls -> running w' pid es d ls);
  fork_ok : forall w l ls, quiet w (l :: ls) ->
    exists pid w', sys_fork w = Some (pid, w') /\ 0 < pid /\ running w' pid (interruptions l) (death l) ls /\ file_text w' = file_text w;
  wait_interrupted : forall w pid e es d ls, running w pid (e :: es) d ls ->
    exists st w', sys_waitpid pid w = Some ((-1, st, e), w') /\ running w' pid es d ls;
  wait_dead : forall w pid d ls, running w pid [] d ls ->
    exists e w', sys_waitpid pid w = Some ((pid, d, e), w') /\ quiet w' ls;
  signal_ok : forall sig h w, exists w', sys_signal sig h w = Some (tt, w') /\ same_lives w w';
  sleep_ok : forall n w, exists left w', sys_sleep n w = Some (left, w') /\ same_lives w w';
  rewrite_ok : forall fd s w, exists w', sys_rewrite fd s w = Some (tt, w') /\ same_lives w w';
  unlink_ok : forall f w, exists w', sys_unlink f w = Some (tt, w') /\ same_lives w w' /\ file_text w' f = None;
  open_ok : forall f flags mode w, exists fd w', sys_open f flags mode w = Some (fd, w') /\
    (fd <> -1 -> Z.testbit flags 9 = true -> file_text w' f = Some []);
  lockf_ok : forall fd w, exists r w', sys_lockf fd w = Some (r, w') /\ (r = 0 \/ r = -1) /\ file_text w' = file_text w
}.

Module DaemonThm.
Import Daemon.

Section Laws.
Context {W : Type} `{ProcsLaws W}.
Implicit Types (w : W) (ls : list life).

Lemma same_lives_trans w1 w2 w3 : same_lives w1 w2 -> same_lives w2 w3 -> same_lives w1 w3.
Proof. intros [Q1 R1] [Q2 R2]. split; auto. Qed.

Lemma set_signals_ok sigs h w : exists w', set_signals sigs h w = Some (tt, w') /\ same_lives w w'.
Proof.
  revert w. induction sigs as [|sig sigs IH]; intros w; [by exists w|]. cbn [set_signals].
  destruct (signal_ok sig h w) as (w1 & Hr1 & Hs1). destruct (IH w1) as (w2 & Hr2 & Hs2). exists w2.
  rewrite (SM_bind_Some _ _ _ _ _ Hr1). split; [done|]. by apply (same_lives_trans _ w1).
Qed.

Lemma restart_later_ok w : exists w', restart_later w = Some (tt, w') /\ same_lives w w'.
Proof.
  unfold restart_later. destruct (set_signals_ok [SIGINT; SIGTERM; SIGHUP] SIG_DFL w) as (w1 & Hr1 & Hs1).
  destruct (sleep_ok 1 w1) as (n & w2 & Hr2 & Hs2). exists w2. rewrite (SM_bind_Some _ _ _ _ _ Hr1), (SM_bind_Some _ _ _ _ _ Hr2).
  split; [done|]. by apply (same_lives_trans _ w1).
Qed.

(** With no child, a new one is forked. *)
Lemma spawn_ok w l ls :
  quiet w (l :: ls) ->
  exists pid w', spawn_loop 2 0 (-1) w = Some (inr (1, pid), w') /\ 0 < pid /\ running w' pid (interruptions l) (death l) ls.
Proof.
  intros Hq. destruct (fork_ok w l ls Hq) as (pid & w1 & Hf & Hp & Hrun & _).
  destruct (set_signals_ok [SIGPIPE; SIGINT; SIGTERM; SIGHUP; SIGUSR1; SIGUSR2] Forward w1) as (w2 & Hr2 & [_ Hs2]).
  exists pid, w2. split; [|by split; [|apply Hs2]]. cbn [spawn_loop]. change (0 <? 1) with true. cbv beta iota.
  rewrite (SM_bind_Some _ _ _ _ _ Hf). destruct (Z.eqb_spec pid 0); [lia|]. destruct (Z.ltb_spec pid 0); [lia|].
  by rewrite (SM_bind_Some _ _ _ _ _ Hr2).
Qed.

(** A child is there already. *)
Lemma spawn_none fuel pid w : spawn_loop (S fuel) 1 pid w = Some (inr (1, pid), w).
Proof. done. Qed.

(** An end that makes the parent fork again. *)
Definition abnormal (d : wstatus) : Prop :=
  match d with WExited code => code <> 0 | WSignaled _ => True | WStopped | WOther => False end.

Lemma wait_again w pid_file fd pid e es d ls :
  0 < pid -> running w pid (e :: es) d ls ->
  exists w', wait_child pid_file fd 1 pid w = Some (inr (1, pid), w') /\ running w' pid es d ls.
Proof.
  intros Hp Hr. unfold wait_child. destruct (Z.eqb_spec pid (-1)); [lia|].
  destruct (rewrite_ok fd (take 31 (print_dec pid)) w) as (w1 & Hw1 & [_ Hs1]). unfold write_pid. rewrite (SM_bind_Some _ _ _ _ _ Hw1).
  destruct (wait_interrupted w1 pid e es d ls (Hs1 _ _ _ _ Hr)) as (st & w2 & Hw2 & Hr2). rewrite (SM_bind_Some _ _ _ _ _ Hw2).
  cbv beta iota. destruct (Z.eqb_spec (-1) pid); [lia|]. by exists w2.
Qed.

Lemma wait_end w pid_file fd pid d ls :
  0 < pid -> running w pid [] d ls ->
  exists r w', wait_child pid_file fd 1 pid w = Some (r, w') /\ quiet w' ls /\
    (abnormal d -> r = inr (0, -1)) /\ (d = WExited 0 -> r = inl QCONF_EXIT_NORMAL /\ file_text w' pid_file = None).
Proof.
  intros Hp Hr. unfold wait_child. destruct (Z.eqb_spec pid (-1)); [lia|].
  destruct (rewrite_ok fd (take 31 (print_dec pid)) w) as (w1 & Hw1 & [_ Hs1]). unfold write_pid. rewrite (SM_bind_Some _ _ _ _ _ Hw1).
  destruct (wait_dead w1 pid d ls (Hs1 _ _ _ _ Hr)) as (e & w2 & Hw2 & Hq2). rewrite (SM_bind_Some _ _ _ _ _ Hw2).
  cbv beta iota. rewrite Z.eqb_refl. destruct (restart_later_ok w2) as (w3 & Hw3 & [Hs3 _]).
  destruct d as [code|sig| |]; cbn [abnormal].
  - destruct (Z.eqb_spec 0 code) as [<-|Hne].
    + destruct (unlink_ok pid_file w2) as (w4 & Hw4 & [Hs4 _] & Hnone). exists (inl QCONF_EXIT_NORMAL), w4.
      rewrite (SM_bind_Some _ _ _ _ _ Hw4). split; [done|]. split; [by apply Hs4|]. by split.
    + exists (inr (0, -1)), w3. rewrite (SM_bind_Some _ _ _ _ _ Hw3). split; [done|]. split; [by apply Hs3|]. split; [done|].
      intros [= ->]. done.
  - exists (inr (0, -1)), w3. rewrite (SM_bind_Some _ _ _ _ _ Hw3). split; [done|]. split; [by apply Hs3|]. by split.
  - by exists (inr (1, pid)), w2.
  - by exists (inr (1, pid)), w2.
Qed.

(** The rounds of a child: one for each interruption, and the last one. *)
Lemma child_rounds fuel w pid_file fd pid es d ls :
  0 < pid -> running w pid es d ls ->
  exists r w', keepalive_loop (S (length es) + fuel) pid_file fd 1 pid w =
      (match r with inl ret => mret ret | inr (n, p) => keepalive_loop fuel pid_file fd n p end) w' /\ quiet w' ls /\
    (abnormal d -> r = inr (0, -1)) /\ (d = WExited 0 -> r = inl QCONF_EXIT_NORMAL /\ file_text w' pid_file = None).
Proof.
  intros Hp. revert w. induction es as [|e es IH]; intros w Hr; cbn [length Nat.add keepalive_loop];
    rewrite (SM_bind_Some _ _ _ _ _ (spawn_none 1 pid w)); cbv beta iota.
  - destruct (wait_end w pid_file fd pid d ls Hp Hr) as (r & w' & Hw & Hrest). exists r, w'.
    rewrite (SM_bind_Some _ _ _ _ _ Hw). split; [|done]. by destruct r as [|[? ?]].
  - destruct (wait_again w pid_file fd pid e es d ls Hp Hr) as (w1 & Hw & Hr1). rewrite (SM_bind_Some _ _ _ _ _ Hw). cbv beta iota.
    apply (IH w1 Hr1).
Qed.

(** From no child to the end of the next one. *)
Lemma life_rounds fuel w pid_file fd l ls :
  quiet w (l :: ls) ->
  exists r w', keepalive_loop (S (length (interruptions l)) + fuel) pid_file fd 0 (-1) w =
      (match r with inl ret => mret ret | inr (n, p) => keepalive_loop fuel pid_file fd n p end) w' /\ quiet w' ls /\
    (abnormal (death l) -> r = inr (0, -1)) /\ (death l = WExited 0 -> r = inl QCONF_EXIT_NORMAL /\ file_text w' pid_file = None).
Proof.
  intros Hq. destruct (spawn_ok w l ls Hq) as (pid & w1 & Hs & Hp & Hr).
  destruct (child_rounds fuel w1 pid_file fd pid (interruptions l) (death l) ls Hp Hr) as (r & w' & Hrun & Hrest).
  exists r, w'. split; [|done]. rewrite <- Hrun. cbn [Nat.add keepalive_loop].
  by rewrite (SM_bind_Some _ _ _ _ _ Hs), (SM_bind_Some _ _ _ _ _ (spawn_none 1 pid w1)).
Qed.

(** The rounds of the loop that some lives take. *)
Definition rounds_of (ls : list life) : nat := sum_list ((fun l => S (length (interruptions l))) <$> ls).

Lemma keepalive_ok fuel w pid_file fd pre l rest :
  quiet w (pre ++ l :: rest) -> Forall (fun l => abnormal (death l)) pre -> death l = WExited 0 ->
  exists w', keepalive_loop (rounds_of (pre ++ [l]) + fuel) pid_file fd 0 (-1) w = Some (QCONF_EXIT_NORMAL, w') /\ quiet w' rest /\
    file_text w' pid_file = None.
Proof.
  intros Hq Hpre Hl. revert w Hq. induction Hpre as [|l0 pre Hl0 Hpre IH]; intros w Hq.
  - destruct (life_rounds (0 + fuel) w pid_file fd l rest Hq) as (r & w' & Hrun & Hq' & _ & Hend). destruct (Hend Hl) as [-> Hnone].
    exists w'. split; [|done]. change (rounds_of ([] ++ [l]) + fuel)%nat with (S (length (interruptions l)) + 0 + fuel)%nat.
    by rewrite <- Nat.add_assoc, Hrun.
  - destruct (life_rounds (rounds_of (pre ++ [l]) + fuel) w pid_file fd l0 (pre ++ l :: rest) Hq) as (r & w1 & Hrun & Hq1 & Hab & _).
    rewrite (Hab Hl0) in Hrun. destruct (IH w1 Hq1) as (w' & Hr' & Hrest). exists w'. split; [|done].
    change (rounds_of ((l0 :: pre) ++ [l]) + fuel)%nat with (S (length (interruptions l0)) + rounds_of (pre ++ [l]) + fuel)%nat.
    by rewrite <- Nat.add_assoc, Hrun.
Qed.

(** C32. The parent keeps the agent alive: it forks a child, and after every death by a signal or with a
    non-zero exit code it forks the next one, however often its waiting is interrupted; when a child exits
    with zero it removes the pid file and returns, and forks no more. *)
Theorem keepalive_restarts fuel w pid_file fd pre l rest :
  quiet w (pre ++ l :: rest) -> Forall (fun l => abnormal (death l)) pre -> death l = WExited 0 ->
  exists w', keepalive_loop (rounds_of (pre ++ [l]) + fuel) pid_file fd 0 (-1) w = Some (QCONF_EXIT_NORMAL, w') /\ quiet w' rest /\
    file_text w' pid_file = None.
Proof. apply keepalive_ok. Qed.

(** The child leaves the loop at once and goes on to do the work. *)
Lemma child_returns fuel w w' pid_file fd :
  sys_fork w = Some (0, w') -> keepalive_loop (S fuel) pid_file fd 0 (-1) w = Some (QCONF_OK, w').
Proof.
  intros Hf. cbn [keepalive_loop]. erewrite SM_bind_Some; [|cbn [spawn_loop]; change (0 <? 1) with true; cbv beta iota;
    rewrite (SM_bind_Some _ _ _ _ _ Hf); reflexivity]. done.
Qed.

(** Whoever tries to start a second agent empties the pid file of the first one: the file is truncated when
    it is opened, before its lock is tried. *)
Theorem check_proc_truncates pid_file w :
  exists ret fd w', check_proc_exist pid_file w = Some ((ret, fd), w') /\
    (ret = QCONF_OK \/ ret = QCONF_ERR_OPEN \/ ret = QCONF_ERR_LOCK) /\
    (ret = QCONF_ERR_LOCK -> file_text w' pid_file = Some []).
Proof.
  unfold check_proc_exist. destruct (open_ok pid_file (Z.lor (Z.lor O_RDWR O_TRUNC) O_CREAT) 420 w) as (fd & w1 & Ho & Htr).
  rewrite (SM_bind_Some _ _ _ _ _ Ho). destruct (Z.eqb_spec (-1) fd) as [E|Hne]; [exists QCONF_ERR_OPEN, fd, w1; split; [done|]; split; [auto|done]|].
  destruct (lockf_ok fd w1) as (r & w2 & Hl & _ & Et). rewrite (SM_bind_Some _ _ _ _ _ Hl).
  destruct (Z.eqb_spec (-1) r).
  - exists QCONF_ERR_LOCK, fd, w2. split; [done|]. split; [auto|]. intros _. rewrite Et. by apply Htr.
  - exists QCONF_OK, fd, w2. split; [done|]. split; [auto|done].
Qed.
End Laws.

(** ** A system in memory: one child at a time, files without locks *)

Record world := mkWorld {
  w_lives : list life;
  w_child : option (list Z * wstatus);
  w_files : gmap bytes bytes
}.

Definition the_pid : Z := 100.

#[export] Instance mem_procs : Procs world := {|
  sys_fork := fun w =>
    match w_child w, w_lives w with
    | None, l :: ls => Some (the_pid, mkWorld ls (Some (interruptions l, death l)) (w_files w))
    | _, _ => Some (-1, w)
    end;
  sys_setsid := mret 1;
  sys_getpid := mret 99;
  sys_getppid := mret 1;
  sys_waitpid pid := fun w =>
    match w_child w with
    | Some (e :: es, d) => Some ((-1, WOther, e), mkWorld (w_lives w) (Some (es, d)) (w_files w))
    | Some ([], d) => Some ((the_pid, d, 0), mkWorld (w_lives w) None (w_files w))
    | None => Some ((-1, WOther, 10), w)
    end;
  sys_signal _ _ := mret tt;
  sys_kill _ _ := mret tt;
  sys_sleep _ := mret 0;
  sys_umask _ := mret tt;
  sys_open f flags _ := fun w =>
    Some (3, mkWorld (w_lives w) (w_child w) (if Z.testbit flags 9 then <[f := []]> (w_files w) else w_files w));
  sys_lockf _ := mret 0;
  sys_dup2 _ _ := mret tt;
  sys_close _ := mret tt;
  sys_rewrite _ _ := mret tt;
  sys_unlink f := fun w => Some (tt, mkWorld (w_lives w) (w_child w) (delete f (w_files w)));
  sys_open_max := mret 8
|}.

#[export] Program Instance mem_procs_laws : ProcsLaws world := {|
  quiet w ls := w_child w = None /\ w_lives w = ls;
  running w pid es d ls := pid = the_pid /\ w_child w = Some (es, d) /\ w_lives w = ls;
  file_text w f := w_files w !! f
|}.
Next Obligation. intros [lv ch fs] l ls [E1 E2]. cbn in *. subst. exists the_pid. eexists. by split_and!. Qed.
Next Obligation. intros [lv ch fs] pid e es d ls (-> & E2 & E3). cbn in *. subst. do 2 eexists. by split_and!. Qed.
Next Obligation. intros [lv ch fs] pid d ls (-> & E2 & E3). cbn in *. subst. do 2 eexists. by split_and!. Qed.
Next Obligation. intros sig h w. by exists w. Qed.
Next Obligation. intros n w. by exists 0, w. Qed.
Next Obligation. intros fd s w. by exists w. Qed.
Next Obligation. intros f [lv ch fs]. eexists. split; [done|]. split; [by split|]. apply lookup_delete_eq. Qed.
Next Obligation. intros f flags mode [lv ch fs]. exists 3. eexists. split; [done|]. intros _ E. cbn [w_files]. rewrite E. apply lookup_insert_eq. Qed.
Next Obligation. intros fd w. exists 0, w. auto. Qed.

Lemma keepalive_restarts_witness :
  let w := mkWorld [mkLife [4; 4] (WSignaled 11); mkLife [] (WExited 71); mkLife [4] (WExited 0)] None ∅ in
  exists w', keepalive_loop 6 (str "pid") 3 0 (-1) w = Some (QCONF_EXIT_NORMAL, w') /\ quiet w' [].
Proof.
  intros w. destruct (keepalive_restarts 0 w (str "pid") 3 [mkLife [4; 4] (WSignaled 11); mkLife [] (WExited 71)] (mkLife [4] (WExited 0)) [])
    as (w' & Hrun & Hq & _); [split; reflexivity|constructor; [exact I|constructor; [discriminate|constructor]]|reflexivity|].
  exists w'. exact (conj Hrun Hq).
Defined.
End DaemonThm.
