(* ===== verification/Config.v ===== *)
(** * The agent's configuration ([src/agent/qconf_config.cc])

    Two maps are filled from the lines of [agent.conf] and [idc.conf]: general settings, and the
    ZooKeeper addresses of each data centre. A file is its bytes ([None] when it cannot be opened), name
    resolution is a parameter, logging is left out. *)

From S2P Require Import Prelude Common Text.

Module Config.

(** ** Numbers: [strtol] with base 0 *)

Definition digit_in (base : Z) (b : byte) : option Z :=
  let c := b2z b in
  let v := if (48 <=? c) && (c <=? 57) then c - 48
           else if (97 <=? c) && (c <=? 122) then c - 87
           else if (65 <=? c) && (c <=? 90) then c - 55 else base in
  if v <? base then Some v else None.

Fixpoint read_base (base : Z) (s : bytes) (acc : Z) : Z * bytes :=
  match s with
  | b :: s' => match digit_in base b with Some d => read_base base s' (base * acc + d) | None => (acc, s) end
  | [] => (acc, [])
  end.

Definition starts_digit (base : Z) (s : bytes) : bool :=
  match s with b :: _ => bool_decide (is_Some (digit_in base b)) | [] => false end.

(** The base the prefix selects, and the digits. *)
Definition number_base (s : bytes) : Z * bytes :=
  match s with
  | b0 :: b1 :: s' =>
      if bool_decide (b0 = x30) && bool_decide (b1 = x78 \/ b1 = x58) && starts_digit 16 s' then (16, s')
      else if decide (b0 = x30) then (8, s) else (10, s)
  | b0 :: [] => if decide (b0 = x30) then (8, s) else (10, s)
  | [] => (10, s)
  end.

(** The value, whether it was out of range, and what follows; the whole text follows when there is no
    number. *)
Definition strtol (cnt : bytes) : Z * bool * bytes :=
  let s := skip_spaces cnt in
  let '(neg, s) := match s with
                   | b :: s' => if decide (b = x2d) then (true, s') else if decide (b = x2b) then (false, s') else (false, s)
                   | [] => (false, []) end in
  let '(base, s) := number_base s in
  if starts_digit base s then
    let '(n, rest) := read_base base s 0 in
    let n := if neg : bool then - n else n in
    (clamp64 n, (n <? LLONG_MIN) || (LLONG_MAX <? n), rest)
  else (0, false, cnt).

Definition get_integer (cnt : bytes) (integer : Z) : Z * Z :=
  if decide (cnt = []) then (QCONF_ERR_PARAM, integer) else
  let '(value, erange, endptr) := strtol (c_str cnt) in
  if ((value =? LLONG_MAX) || (value =? LLONG_MIN)) && erange then (QCONF_ERR_OUT_OF_RANGE, integer) else
  if decide (cnt = endptr) then (QCONF_ERR_NOT_NUMBER, integer) else
  if negb (blen endptr =? 0) then (QCONF_ERR_OTHRE_CHARACTER, integer) else
  (QCONF_OK, value).

(** ** Trimming *)

Definition space : byte := x20.

(** [None] is a read outside [cnt]. *)
Definition strtrim (cnt : bytes) : option bytes :=
  if decide (cnt = []) then Some cnt else
  match skip_front space (S (length cnt)) cnt 0 (blen cnt - 1) with
  | None => None
  | Some begin =>
      match skip_back space (S (length cnt)) cnt begin (blen cnt - 1) with
      | None => None
      | Some last => if last <? begin then Some []
                     else Some (sub_bytes (Z.to_nat begin) (Z.to_nat (last + 1 - begin)) cnt)
      end
  end.

(** ** Addresses *)

(** The length of the run of decimal digits at the start. *)
Fixpoint digit_run (s : bytes) : nat :=
  match s with
  | b :: s' => match digit_val b with Some _ => S (digit_run s') | None => 0 end
  | [] => 0
  end.

(** [[0-9]{1,n}] and then the character [c]; the expression fixes what ends a run of digits. *)
Definition digits_then (n : nat) (c : byte) (s : bytes) : option bytes :=
  let k := digit_run s in
  if ((1 <=? k) && (k <=? n))%nat && bool_decide (s !! k = Some c) then Some (drop (S k) s) else None.

(** The regular expression [^([0-9]{1,3}\.){3}([0-9]{1,3}){1}:[0-9]{1,5}$]. *)
Definition ip_port_regex (s : bytes) : bool :=
  match digits_then 3 x2e s with
  | None => false
  | Some s => match digits_then 3 x2e s with
    | None => false
    | Some s => match digits_then 3 x2e s with
      | None => false
      | Some s => match digits_then 3 x3a s with
        | None => false
        | Some s => let k := digit_run s in ((1 <=? k) && (k <=? 5) && (k =? length s))%nat
        end
      end
    end
  end.

Definition is_ip_port (item : bytes) : Z :=
  if decide (item = []) then QCONF_ERR_PARAM else
  if ip_port_regex (c_str item) then QCONF_OK else QCONF_ERR_OTHER.

(** [string::find] of a character: the text before it and from it on. *)
Fixpoint split_at (c : byte) (s : bytes) : option (bytes * bytes) :=
  match s with
  | [] => None
  | b :: s' => if decide (b = c) then Some ([], s)
               else match split_at c s' with Some (l, r) => Some (b :: l, r) | None => None end
  end.

(** [getline] with a delimiter, until the end of the stream. *)
Fixpoint getlines (c : byte) (fuel : nat) (s : bytes) : list bytes :=
  match fuel, s with
  | S fuel', _ :: _ => match split_at c s with
                       | Some (l, r) => l :: getlines c fuel' (drop 1 r)
                       | None => [s]
                       end
  | _, _ => []
  end.

Section WithResolver.
(** [get_first_host_by_name]: the address of a name as text. *)
Variable resolve : bytes -> option bytes.

Definition get_first_host_by_name (domain ip_address : bytes) : Z * bytes :=
  match resolve (c_str domain) with Some ip => (QCONF_OK, ip) | None => (QCONF_ERR_OTHER, ip_address) end.

Definition is_domain_port (item : bytes) : Z :=
  if decide (item = []) then QCONF_ERR_PARAM else
  match split_at x3a item with
  | None => QCONF_ERR_OTHER
  | Some (domain, port) =>
      let '(ret, ip_address) := get_first_host_by_name domain [] in
      if negb (ret =? QCONF_OK) then QCONF_ERR_OTHER else
      if negb (is_ip_port (ip_address ++ port) =? QCONF_OK) then QCONF_ERR_OTHER else QCONF_OK
  end.

Definition is_valid_idc (idc value : bytes) : Z :=
  if decide (idc = []) then QCONF_ERR_PARAM else
  if decide (value = []) then QCONF_ERR_PARAM else
  if forallb (fun a => (is_domain_port a =? QCONF_OK) || (is_ip_port a =? QCONF_OK)) (getlines x2c (length value) value)
  then QCONF_OK else QCONF_ERR_INVALID_IP.

Definition is_valid_conf (key value : bytes) : Z :=
  if decide (key = []) then QCONF_ERR_PARAM else
  if decide (value = []) then QCONF_ERR_PARAM else QCONF_OK.

(** ** Loading *)

Record conf := mkConf { agent_conf_map : gmap bytes bytes; idc_conf_map : gmap bytes bytes }.

Definition QCONF_LINE_MAX_LEN : nat := 1024.

(** [fgets] with a buffer of [n] bytes: up to [n - 1] bytes, through the first LF. *)
Fixpoint fgets (n : nat) (s : bytes) : bytes * bytes :=
  match n, s with
  | S (S _ as n'), b :: s' => if decide (b = x0a) then ([b], s') else let '(l, r) := fgets n' s' in (b :: l, r)
  | _, _ => ([], s)
  end.

(** [map::insert] keeps an existing entry. *)
Definition map_insert (m : gmap bytes bytes) (k v : bytes) : gmap bytes bytes :=
  match m !! k with Some _ => m | None => <[k := v]> m end.

Definition is_prefix (p s : bytes) : bool := bool_decide (take (length p) s = p).

(** One line, as [fgets] delivers it. [None] is a write outside the line. *)
Definition load_line (buf : bytes) (c : conf) : option conf :=
  let line := c_str buf in
  match line with
  | [] => Some c
  | b :: _ =>
      if decide (b = x23 \/ b = x0a) then Some c else
      let line := removelast line in
      match split_at x3d line with
      | None => Some c
      | Some (key, rest) =>
          match strtrim key, strtrim (drop 1 rest) with
          | Some key, Some value =>
              if is_prefix (str "zookeeper.") key then
                let idc := drop 10 key in
                if is_valid_idc idc value =? QCONF_OK
                then Some (mkConf (agent_conf_map c) (map_insert (idc_conf_map c) idc value)) else Some c
              else
                if is_valid_conf key value =? QCONF_OK
                then Some (mkConf (map_insert (agent_conf_map c) key value) (idc_conf_map c)) else Some c
          | _, _ => None
          end
      end
  end.

Fixpoint load_lines (fuel : nat) (file : bytes) (c : conf) : option conf :=
  match fuel, file with
  | S fuel', _ :: _ =>
      let '(line, rest) := fgets QCONF_LINE_MAX_LEN file in
      match load_line line c with Some c' => load_lines fuel' rest c' | None => None end
  | O, _ :: _ => None
  | _, [] => Some c
  end.

Definition load_conf_ (conf_path : bytes) (file : option bytes) (c : conf) : option (Z * conf) :=
  if decide (conf_path = []) then Some (QCONF_ERR_PARAM, c) else
  match file with
  | None => Some (QCONF_ERR_OPEN, c)
  | Some s => match load_lines (length s) s c with Some c' => Some (QCONF_OK, c') | None => None end
  end.

Definition QCONF_KEY_LOCAL_IDC : bytes := str "local_idc".

Definition load_localidc_conf_ (localidc_path : bytes) (file : option bytes) (c : conf) : Z * conf :=
  if decide (localidc_path = []) then (QCONF_ERR_PARAM, c) else
  match file with
  | None => (QCONF_ERR_OPEN, c)
  | Some [] => (QCONF_ERR_READ, c)
  | Some s =>
      let idc_buf := c_str (fgets (Z.to_nat QCONF_MAX_BUF_LEN) s).1 in
      if blen idc_buf =? 0 then (QCONF_ERR_NULL_LOCAL_IDC, c) else
      let idc_buf := if decide (last idc_buf = Some x0a) then removelast idc_buf else idc_buf in
      (QCONF_OK, mkConf (map_insert (agent_conf_map c) QCONF_KEY_LOCAL_IDC idc_buf) (idc_conf_map c))
  end.

(** The files of the agent directory. *)
Definition qconf_load_conf (files : bytes -> option bytes) (agent_dir localidc : bytes) (c : conf) : option (Z * conf) :=
  let agent_conf_path := agent_dir ++ str "/conf/agent.conf" in
  let idc_conf_path := agent_dir ++ str "/conf/idc.conf" in
  let localidc_path := agent_dir ++ str "/conf/localidc" in
  match load_conf_ agent_conf_path (files agent_conf_path) c with
  | None => None
  | Some (ret, c) =>
      if negb (ret =? QCONF_OK) then Some (ret, c) else
      match load_conf_ idc_conf_path (files idc_conf_path) c with
      | None => None
      | Some (ret, c) =>
          if negb (ret =? QCONF_OK) then Some (ret, c) else
          if decide (localidc = []) then Some (load_localidc_conf_ localidc_path (files localidc_path) c)
          else Some (QCONF_OK, mkConf (map_insert (agent_conf_map c) QCONF_KEY_LOCAL_IDC localidc) (idc_conf_map c))
      end
  end.

Definition get_agent_conf (c : conf) (key value : bytes) : Z * bytes :=
  if decide (key = []) then (QCONF_ERR_PARAM, value) else
  match agent_conf_map c !! key with None => (QCONF_ERR_NOT_FOUND, value) | Some v => (QCONF_OK, v) end.

Definition get_idc_conf (c : conf) (idc value : bytes) : Z * bytes :=
  if decide (idc = []) then (QCONF_ERR_PARAM, value) else
  match idc_conf_map c !! idc with None => (QCONF_ERR_NOT_FOUND, value) | Some v => (QCONF_OK, v) end.

Definition qconf_destroy_conf_map (c : conf) : conf := mkConf ∅ ∅.

(** ** Theorems *)

Lemma strtrim_core m c n : core space c -> strtrim (run space m ++ c ++ run space n) = Some c.
Proof.
  intros (Hn & Hh & Hl). unfold strtrim. pose proof (blen_nonneg c). assert (blen c <> 0) by (by rewrite blen_0).
  rewrite decide_False by (intros E; apply (f_equal blen) in E; rewrite !blen_app, !blen_run, blen_nil in E; lia).
  assert (Hlen : (length (run space m ++ c ++ run space n) = m + length c + n)%nat).
  { rewrite !length_app. unfold run. rewrite !length_replicate. lia. }
  rewrite Hlen. assert (Hb : blen (run space m ++ c ++ run space n) - 1 = blen (run space m ++ c) + Z.of_nat n - 1).
  { rewrite !blen_app, !blen_run. lia. }
  rewrite (skip_front_ok _ _ 0 m); [|done|by destruct c|lia|intros; rewrite Hb, blen_app, blen_run; lia].
  rewrite Hb. replace (run space m ++ c ++ run space n) with ((run space m ++ c) ++ run space n ++ [])
    by (by rewrite app_nil_r, <- app_assoc).
  rewrite skip_back_ok; [|by destruct (run space m); [|done]| |lia|rewrite blen_app, blen_run; lia].
  - rewrite blen_app, blen_run, Nat.add_0_l. destruct (Z.ltb_spec (Z.of_nat m + blen c - 1) (Z.of_nat m)); [lia|].
    f_equal. rewrite <- app_assoc. replace (Z.to_nat (Z.of_nat m)) with (length (run space m)) by (unfold run; rewrite length_replicate; lia).
    replace (Z.to_nat (Z.of_nat m + blen c - 1 + 1 - Z.of_nat m)) with (length c) by (unfold blen; lia).
    unfold sub_bytes. by rewrite drop_app_length, take_app_length.
  - rewrite last_app. by destruct (last c) eqn:E; [|apply last_None in E].
Qed.

Lemma strtrim_spaces n : strtrim (run space n) = Some [].
Proof.
  unfold strtrim. destruct n as [|n]; [done|]. rewrite decide_False by done.
  assert (Hl : length (run space (S n)) = S n) by apply length_replicate. rewrite Hl, blen_run.
  pose proof (skip_front_ok space (S (S n)) 0 (S n) [] (Z.of_nat (S n) - 1)) as Hf. rewrite app_nil_r, Nat.add_0_l in Hf.
  change (Z.of_nat 0) with 0 in Hf. rewrite Hf by (cbn; try done; lia). cbn [skip_back]. rewrite <- (run_snoc space n).
  replace (Z.of_nat (S n) - 1) with (blen (run space n)) by (rewrite blen_run; lia). rewrite char_at_app.
  cbn [head default]. rewrite blen_run. destruct (Z.leb_spec (Z.of_nat (S n)) (Z.of_nat n)); [lia|].
  rewrite andb_false_r. destruct (Z.ltb_spec (Z.of_nat n) (Z.of_nat (S n))); [done|lia].
Qed.

Lemma strtrim_total s : exists r, strtrim s = Some r /\ (r = [] \/ core space r).
Proof.
  destruct (run_forms space s) as [(n & ->)|(m & c & n & Hc & ->)].
  - exists []. split; [apply strtrim_spaces|by left].
  - exists c. split; [by apply strtrim_core|by right].
Qed.

(** Every entry of the old maps is still there. *)
Definition extends (c c' : conf) : Prop :=
  agent_conf_map c ⊆ agent_conf_map c' /\ idc_conf_map c ⊆ idc_conf_map c'.

Lemma map_insert_extends m k v : m ⊆ map_insert m k v.
Proof. unfold map_insert. destruct (m !! k) eqn:E; [done|by apply insert_subseteq]. Qed.

(** Settings and idcs with an empty name or value never enter the maps. *)
Definition clean (c : conf) : Prop :=
  map_Forall (fun k v => k <> [] /\ v <> []) (agent_conf_map c) /\
  map_Forall (fun k v => k <> [] /\ is_valid_idc k v = QCONF_OK) (idc_conf_map c).

Lemma map_insert_clean P m k v : map_Forall P m -> P k v -> map_Forall P (map_insert m k v).
Proof. intros Hm Hp. unfold map_insert. destruct (m !! k); [done|by apply map_Forall_insert_2]. Qed.

Lemma load_line_ok buf c : clean c -> exists c', load_line buf c = Some c' /\ extends c c' /\ clean c'.
Proof.
  intros Hc. assert (Hid : extends c c) by by split. unfold load_line. destruct (c_str buf) as [|b line]; [by exists c|].
  destruct (decide (b = x23 \/ b = x0a)); [by exists c|].
  destruct (split_at x3d (removelast (b :: line))) as [[key rest]|]; [|by exists c].
  destruct (strtrim_total key) as (k & -> & _). destruct (strtrim_total (drop 1 rest)) as (v & -> & _).
  destruct (is_prefix (str "zookeeper.") k).
  - destruct (Z.eqb_spec (is_valid_idc (drop 10 k) v) QCONF_OK) as [E|]; [|by exists c].
    eexists. split; [done|]. split; [by split; [|apply map_insert_extends]|]. destruct Hc as [H1 H2]. split; [done|].
    apply map_insert_clean; [done|]. split; [|done]. intros Ek. rewrite Ek in E. done.
  - destruct (Z.eqb_spec (is_valid_conf k v) QCONF_OK) as [E|]; [|by exists c].
    eexists. split; [done|]. split; [by split; [apply map_insert_extends|]|]. destruct Hc as [H1 H2]. split; [|done].
    apply map_insert_clean; [done|]. unfold is_valid_conf in E. by destruct (decide (k = [])), (decide (v = [])).
Qed.

Lemma fgets_cons n b s :
  fgets (S (S n)) (b :: s) = if decide (b = x0a) then ([b], s) else let '(l, r) := fgets (S n) s in (b :: l, r).
Proof. done. Qed.

Lemma fgets_le n s : (length (fgets n s).2 <= length s)%nat.
Proof.
  revert s. induction n as [|[|n] IH]; intros s; [done|done|]. destruct s as [|b s]; [done|]. rewrite fgets_cons.
  destruct (decide (b = x0a)); [simpl; lia|]. specialize (IH s). destruct (fgets (S n) s) as [l r]. simpl in *. lia.
Qed.

Lemma fgets_shrinks n s : (2 <= n)%nat -> s <> [] -> (length (fgets n s).2 < length s)%nat.
Proof.
  intros Hn Hs. destruct n as [|[|n]]; [lia|lia|]. destruct s as [|b s]; [done|]. rewrite fgets_cons.
  destruct (decide (b = x0a)); [simpl; lia|]. pose proof (fgets_le (S n) s) as Hle. destruct (fgets (S n) s) as [l r]. simpl in *. lia.
Qed.

Lemma load_lines_ok fuel file c :
  (length file <= fuel)%nat -> clean c -> exists c', load_lines fuel file c = Some c' /\ extends c c' /\ clean c'.
Proof.
  revert file c. induction fuel as [|fuel IH]; intros file c Hf Hc.
  - destruct file; [by exists c|simpl in Hf; lia].
  - destruct file as [|b file]; [by exists c|]. cbn [load_lines].
    pose proof (fgets_shrinks QCONF_LINE_MAX_LEN (b :: file) ltac:(unfold QCONF_LINE_MAX_LEN; lia) ltac:(done)) as Hs.
    destruct (fgets QCONF_LINE_MAX_LEN (b :: file)) as [line rest]. cbn [snd] in Hs.
    destruct (load_line_ok line c Hc) as (c1 & -> & [E1 E2] & Hc1).
    destruct (IH rest c1) as (c2 & -> & [E3 E4] & Hc2); [simpl in *; lia|done|]. exists c2. split; [done|]. split; [|done].
    split; by etrans.
Qed.

(** Loading a configuration file always returns and never reads or writes outside a line, whatever the
    file contains. It only adds settings (the first value of a name wins), and every idc it adds has a
    name and a list of addresses that were checked. *)
Theorem load_conf_total conf_path file c :
  clean c -> exists ret c', load_conf_ conf_path file c = Some (ret, c') /\ extends c c' /\ clean c' /\
    (ret = QCONF_OK <-> conf_path <> [] /\ is_Some file).
Proof.
  intros Hc. assert (Hid : extends c c) by by split. unfold load_conf_. destruct (decide (conf_path = [])) as [->|Hp].
  - exists QCONF_ERR_PARAM, c. do 3 (split; [done|]). split; [done|]. by intros [? _].
  - destruct file as [s|].
    + destruct (load_lines_ok (length s) s c ltac:(done) Hc) as (c' & -> & He & Hc'). exists QCONF_OK, c'.
      do 3 (split; [done|]). split; [|done]. by eauto.
    + exists QCONF_ERR_OPEN, c. do 3 (split; [done|]). split; [done|]. by intros [_ [? ?]].
Qed.

(** ** Reading back a written file *)

(** A name or value as a user writes it: no LF or NUL, and no surrounding blanks. *)
Definition word (s : bytes) : Prop := core space s /\ (x0a ∉ s) /\ (x00 ∉ s).

Definition setting_line (e : bytes * bytes * (nat * nat)) : bytes :=
  let '(k, v, (i, j)) := e in k ++ run space i ++ x3d :: run space j ++ v ++ [x0a].

Definition setting_ok (e : bytes * bytes * (nat * nat)) : Prop :=
  let '(k, v, (i, j)) := e in
  word k /\ word v /\ (x3d ∉ k) /\ head k <> Some x23 /\ is_prefix (str "zookeeper.") k = false /\
  (length (setting_line e) < QCONF_LINE_MAX_LEN)%nat.

Lemma fgets_line n l rest :
  (x0a ∉ l) -> (S (length l) < n)%nat -> fgets n (l ++ x0a :: rest) = (l ++ [x0a], rest).
Proof.
  revert n. induction l as [|b l IH]; intros n Hn Hl; (destruct n as [|[|n]]; [simpl in Hl; lia..|]); cbn [app]; rewrite fgets_cons.
  - by rewrite decide_True.
  - apply not_elem_of_cons in Hn as [Hb Hn]. rewrite decide_False by congruence.
    rewrite (IH (S n)); [done|done|simpl in Hl; lia].
Qed.

Lemma split_at_first c l r : (c ∉ l) -> split_at c (l ++ c :: r) = Some (l, c :: r).
Proof.
  induction l as [|b l IH]; intros Hn; cbn [app split_at]; [by rewrite decide_True|].
  apply not_elem_of_cons in Hn as [Hb Hn]. rewrite decide_False by congruence. by rewrite IH.
Qed.

Lemma not_elem_run (b : byte) n : b <> space -> b ∉ run space n.
Proof. intros Hb Hin. unfold run in Hin. apply elem_of_replicate in Hin as [? _]. done. Qed.

Lemma load_setting e c :
  setting_ok e -> load_line (setting_line e) c = Some (mkConf (map_insert (agent_conf_map c) e.1.1 e.1.2) (idc_conf_map c)).
Proof.
  destruct e as [[k v] [i j]]. intros ((Hck & Hkl & Hkn) & (Hcv & Hvl & Hvn) & Heq & Hh & Hz & _). cbn [fst snd setting_line].
  set (body := k ++ run space i ++ x3d :: run space j ++ v).
  assert (Hline : k ++ run space i ++ x3d :: run space j ++ v ++ [x0a] = body ++ [x0a]).
  { unfold body. repeat (rewrite <- app_assoc || rewrite <- app_comm_cons). done. }
  assert (Hbn : x00 ∉ body ++ [x0a]).
  { unfold body. rewrite !elem_of_app, elem_of_cons, elem_of_app, list_elem_of_singleton.
    pose proof (not_elem_run x00 i ltac:(done)). pose proof (not_elem_run x00 j ltac:(done)). naive_solver. }
  unfold load_line. rewrite Hline, c_str_no_nul by done.
  assert (Hhd : exists b tl, body ++ [x0a] = b :: tl /\ b <> x23 /\ b <> x0a).
  { unfold body. destruct k as [|b k]; [by destruct Hck|]. eexists b, _. split; [done|].
    apply not_elem_of_cons in Hkl as [? _]. cbn in Hh. split; congruence. }
  destruct Hhd as (b & tl & Eb & Hb1 & Hb2). rewrite Eb. rewrite decide_False by tauto. rewrite <- Eb.
  rewrite removelast_last. unfold body. rewrite app_assoc, split_at_first
    by (rewrite not_elem_of_app; split; [done|by apply not_elem_run]).
  change (drop 1 (x3d :: run space j ++ v)) with (run space j ++ v).
  assert (Ev : strtrim (run space j ++ v) = Some v).
  { rewrite <- (app_nil_r v) at 1. apply (strtrim_core j v 0 Hcv). }
  rewrite (strtrim_core 0 k i Hck : strtrim (k ++ run space i) = Some k), Ev, Hz.
  unfold is_valid_conf. rewrite !decide_False by (destruct Hck, Hcv; done). done.
Qed.

(** A file of settings is read back: each line gives its name and value without the blanks around the
    equals sign, in order, the first value of a repeated name being kept. *)
Theorem load_conf_roundtrip conf_path entries c :
  conf_path <> [] -> Forall setting_ok entries ->
  load_conf_ conf_path (Some (flat_map setting_line entries)) c =
    Some (QCONF_OK, mkConf (foldl (fun m e => map_insert m e.1.1 e.1.2) (agent_conf_map c) entries) (idc_conf_map c)).
Proof.
  intros Hp Hall. unfold load_conf_. rewrite decide_False by done.
  assert (Hload : forall fuel c, (length (flat_map setting_line entries) <= fuel)%nat ->
    load_lines fuel (flat_map setting_line entries) c =
      Some (mkConf (foldl (fun m e => map_insert m e.1.1 e.1.2) (agent_conf_map c) entries) (idc_conf_map c)));
    [|by rewrite Hload].
  clear c. induction Hall as [|e entries He Hall IH]; intros fuel c Hf; cbn [flat_map foldl] in *.
  { destruct fuel; by destruct c. }
  assert (Hne : exists b tl, setting_line e = b :: tl).
  { destruct e as [[k v] [i j]]. destruct He as (((Hk & _) & _) & _). destruct k; [done|]. by eexists _, _. }
  destruct Hne as (b & tl & Ee). rewrite length_app in Hf. destruct fuel as [|fuel]; [rewrite Ee in Hf; simpl in Hf; lia|].
  assert (Hg : fgets QCONF_LINE_MAX_LEN (setting_line e ++ flat_map setting_line entries) =
                 (setting_line e, flat_map setting_line entries)).
  { destruct e as [[k v] [i j]]. destruct He as ((Hck & Hkl & _) & (_ & Hvl & _) & _ & _ & _ & Hlen). unfold setting_line in *.
    set (body := k ++ run space i ++ x3d :: run space j ++ v).
    assert (Hline : k ++ run space i ++ x3d :: run space j ++ v ++ [x0a] = body ++ [x0a]).
    { unfold body. repeat (rewrite <- app_assoc || rewrite <- app_comm_cons). done. }
    rewrite Hline in *. rewrite <- app_assoc. cbn [app]. apply fgets_line; [|rewrite length_app in Hlen; simpl in Hlen; lia].
    unfold body. rewrite !elem_of_app, elem_of_cons, elem_of_app.
    pose proof (not_elem_run x0a i ltac:(done)). pose proof (not_elem_run x0a j ltac:(done)). naive_solver. }
  rewrite Ee in Hg |- *. cbn [app load_lines] in *. rewrite Hg. rewrite <- Ee, (load_setting e c He), IH; [done|].
  rewrite Ee in Hf. simpl in Hf. lia.
Qed.
End WithResolver.

Lemma load_conf_total_witness :
  exists ret c', load_conf_ (fun _ => None) (str "f") (Some (str "a=b")) (mkConf ∅ ∅) = Some (ret, c') /\
    clean (fun _ => None) c'.
Proof.
  destruct (load_conf_total (fun _ => None) (str "f") (Some (str "a=b")) (mkConf ∅ ∅)) as (ret & c' & Hrun & _ & Hc & _);
    [split; apply map_Forall_empty|]. exists ret, c'. exact (conj Hrun Hc).
Defined.

Lemma load_conf_roundtrip_witness :
  load_conf_ (fun _ => None) (str "f") (Some (str "log_level = 4" ++ [x0a])) (mkConf ∅ ∅) =
    Some (QCONF_OK, mkConf (map_insert ∅ (str "log_level") (str "4")) ∅).
Proof.
  apply (load_conf_roundtrip (fun _ => None) (str "f") [(str "log_level", str "4", (1%nat, 1%nat))] (mkConf ∅ ∅)); [discriminate|].
  constructor; [|constructor]. unfold setting_ok, word, core. repeat split;
    try discriminate; try (apply (bool_decide_unpack _); vm_compute; exact I); vm_compute; lia.
Defined.
End Config.
