(* ===== verification/Dump.v ===== *)
(** * The dump file ([src/agent/qconf_dump.cc])

    A copy of the table in a gdbm file, read when ZooKeeper cannot be reached. gdbm and the two file
    system calls are a class of operations on a state [G]; the laws say what the code relies on: the open
    database is a map from keys to values. The mutex of the file makes each operation one step. *)

From S2P Require Import Prelude Common Store Shm Format.

Definition GDBM_WRCREAT : Z := 2.
Definition GDBM_NEWDB : Z := 3.
Definition GDBM_ITEM_NOT_FOUND : Z := 15.

Class Gdbm (G : Type) := {
  fs_access : bytes -> SM G Z;                     (* 0, or -1 *)
  fs_mkdir : bytes -> Z -> SM G Z;                 (* 0, or -1 *)
  gdbm_open : bytes -> Z -> SM G bool;             (* file, flags; is the handle non-NULL? *)
  gdbm_setopt : SM G Z;
  gdbm_close : SM G unit;
  gdbm_fetch : bytes -> SM G (option bytes);
  gdbm_store : bytes -> bytes -> SM G Z;           (* GDBM_REPLACE *)
  gdbm_delete : bytes -> SM G (Z * Z);             (* result, gdbm_errno *)
  gdbm_sync : SM G Z
}.

(** The documented behaviour of an open database. *)
Class GdbmLaws (G : Type) `{Gdbm G} := {
  db_rep : G -> gmap bytes bytes -> Prop;
  gdbm_fetch_ok : forall k g m, db_rep g m -> exists g', gdbm_fetch k g = Some (m !! k, g') /\ db_rep g' m;
  gdbm_store_ok : forall k v g m, db_rep g m ->
    exists r g', gdbm_store k v g = Some (r, g') /\ db_rep g' (if r =? 0 then <[k := v]> m else m);
  gdbm_delete_ok : forall k g m, db_rep g m ->
    exists r e g', gdbm_delete k g = Some ((r, e), g') /\ db_rep g' (if r =? 0 then delete k m else m) /\
      (r <> 0 -> e = GDBM_ITEM_NOT_FOUND -> m !! k = None);
  gdbm_sync_ok : forall g m, db_rep g m -> exists r g', gdbm_sync g = Some (r, g') /\ db_rep g' m;
  gdbm_close_ok : forall g m, db_rep g m -> exists g', gdbm_close g = Some (tt, g');
  gdbm_open_new : forall f g, exists r g', gdbm_open f GDBM_NEWDB g = Some (r, g') /\ (r = true -> db_rep g' ∅);
  gdbm_setopt_ok : forall g m, db_rep g m -> exists r g', gdbm_setopt g = Some (r, g') /\ db_rep g' m
}.

Module Dump.
Import Format Shm.

Section WithGdbm.
Context {G : Type} `{Gdbm G}.

(** [_qconf_dump_file], whether [_qconf_dbf] is non-NULL, and the file system. *)
Record dump := mkDump { qconf_dump_file : bytes; qconf_dbf : bool; dump_fs : G }.

Abbreviation DUM := (SM dump).

Definition on_fs {A} (c : SM G A) : DUM A := fun d =>
  match c (dump_fs d) with Some (a, g) => Some (a, mkDump (qconf_dump_file d) (qconf_dbf d) g) | None => None end.

Definition set_dbf (b : bool) : DUM unit := modify (fun d => mkDump (qconf_dump_file d) b (dump_fs d)).
Definition set_dump_file (f : bytes) : DUM unit := modify (fun d => mkDump f (qconf_dbf d) (dump_fs d)).

(** [assert(NULL != _qconf_dbf)]. *)
Definition assert_open : DUM unit := fun d => if qconf_dbf d then Some (tt, d) else None.

Definition qconf_init_dbf_ (flags : Z) : DUM Z :=
  file ← gets qconf_dump_file;
  if decide (file = []) then mret QCONF_ERR_OPEN_DUMP else
  dbf ← on_fs (gdbm_open file flags);
  set_dbf dbf;;
  if negb dbf then mret QCONF_ERR_OPEN_DUMP else
  ret ← on_fs gdbm_setopt;
  if negb (ret =? 0) then mret QCONF_ERR_OPEN_DUMP else mret QCONF_OK.

Definition qconf_init_dbf : DUM Z := qconf_init_dbf_ GDBM_WRCREAT.

Definition QCONF_DUMP_DIR : bytes := str "/dumps".
Definition QCONF_DUMP_PATH : bytes := str "/_dump.gdbm".

Definition qconf_init_dump_file (agent_dir : bytes) : DUM Z :=
  let dir := agent_dir ++ QCONF_DUMP_DIR in
  set_dump_file dir;;
  a ← on_fs (fs_access dir);
  m ← (if a =? -1 then on_fs (fs_mkdir dir 493 (* 0755 *)) else mret 0);
  if m =? -1 then mret QCONF_ERR_MKDIR else
  set_dump_file (dir ++ QCONF_DUMP_PATH);;
  qconf_init_dbf.

Definition qconf_destroy_dbf : DUM unit :=
  dbf ← gets qconf_dbf;
  if (dbf : bool) then on_fs gdbm_close;; set_dbf false else mret tt.

Definition qconf_dump_get (tblkey tblval : bytes) : DUM (Z * bytes) :=
  if decide (tblkey = []) then mret (QCONF_ERR_PARAM, tblval) else
  assert_open;;
  v ← on_fs (gdbm_fetch tblkey);
  match v with None => mret (QCONF_ERR_NOT_FOUND, tblval) | Some v => mret (QCONF_OK, v) end.

Definition qconf_dump_set (tblkey tblval : bytes) : DUM Z :=
  if decide (tblkey = []) then mret QCONF_ERR_PARAM else
  assert_open;;
  ret ← on_fs (gdbm_store tblkey tblval);
  if negb (ret =? 0) then mret QCONF_ERR_WRITE_DUMP else
  on_fs gdbm_sync;;
  mret QCONF_OK.

Definition qconf_dump_delete (tblkey : bytes) : DUM Z :=
  if decide (tblkey = []) then mret QCONF_ERR_PARAM else
  assert_open;;
  '(ret, gdbm_errno) ← on_fs (gdbm_delete tblkey);
  if negb (ret =? 0) && negb (gdbm_errno =? GDBM_ITEM_NOT_FOUND) then mret QCONF_ERR_DEL_DUMP else
  on_fs gdbm_sync;;
  mret QCONF_OK.

Definition qconf_dump_clear : DUM Z :=
  qconf_destroy_dbf;;
  qconf_init_dbf_ GDBM_NEWDB.

(** ** Dumping the whole table *)

Section DumpTable.
Context {T : Type} `{Store T}.

Definition on_shm {A} (c : SM (shm T) A) : SM (shm T * dump) A := fun s =>
  match c (fst s) with Some (a, t) => Some (a, (t, snd s)) | None => None end.
Definition on_dump {A} (c : DUM A) : SM (shm T * dump) A := fun s =>
  match c (snd s) with Some (a, d) => Some (a, (fst s, d)) | None => None end.

Fixpoint dump_loop (fuel : nat) (max_slots : Z) (tblkey tblval : bytes) (idx ret : Z) : SM (shm T * dump) Z :=
  match fuel with
  | O => undefined
  | S fuel' =>
      if idx <? max_slots then
        '(ret, (tblkey, tblval, idx)) ← on_shm (hash_tbl_getnext tblkey tblval idx);
        if ret =? QCONF_OK then
          ret ← on_dump (qconf_dump_set tblkey tblval);
          if negb (ret =? QCONF_OK) then mret ret else dump_loop fuel' max_slots tblkey tblval idx ret
        else if ret =? QCONF_ERR_TBL_END then dump_loop fuel' max_slots tblkey tblval idx QCONF_OK
        else dump_loop fuel' max_slots tblkey tblval idx ret
      else mret ret
  end.

Definition qconf_dump_tbl : SM (shm T * dump) Z :=
  null ← on_shm tbl_is_null;
  if (null : bool) then mret QCONF_ERR_PARAM else
  '(_, max_slots, _) ← on_shm hash_tbl_get_count;
  dump_loop (S (Z.to_nat max_slots)) max_slots [] [] 0 QCONF_OK.
End DumpTable.

(** ** Theorems *)

Lemma on_fs_ok {A} (c : SM G A) d a g :
  c (dump_fs d) = Some (a, g) -> on_fs c d = Some (a, mkDump (qconf_dump_file d) (qconf_dbf d) g).
Proof. intros E. unfold on_fs. by rewrite E. Qed.

(** The dump is open and holds [m]. *)
Definition dump_ok `{!GdbmLaws G} (d : dump) (m : gmap bytes bytes) : Prop :=
  qconf_dbf d = true /\ qconf_dump_file d <> [] /\ db_rep (dump_fs d) m.

Section Laws.
Context `{!GdbmLaws G}.

Lemma assert_open_ok d m : dump_ok d m -> assert_open d = Some (tt, d).
Proof. intros (Ho & _). unfold assert_open. by rewrite Ho. Qed.

Lemma dump_get_ok key val d m :
  dump_ok d m -> key <> [] ->
  exists d', qconf_dump_get key val d =
      Some (match m !! key with Some v => (QCONF_OK, v) | None => (QCONF_ERR_NOT_FOUND, val) end, d') /\ dump_ok d' m.
Proof.
  intros Hd Hk. pose proof Hd as (Ho & Hf & Hr). unfold qconf_dump_get. rewrite decide_False by done.
  rewrite (SM_bind_Some _ _ _ _ _ (assert_open_ok d m Hd)).
  destruct (gdbm_fetch_ok key (dump_fs d) m Hr) as (g' & Hg & Hr'). rewrite (SM_bind_Some _ _ _ _ _ (on_fs_ok _ _ _ _ Hg)).
  exists (mkDump (qconf_dump_file d) (qconf_dbf d) g'). split; [by destruct (m !! key)|done].
Qed.

Lemma dump_sync_ok f m g : f <> [] -> db_rep g m ->
  exists d', (on_fs gdbm_sync;; mret QCONF_OK) (mkDump f true g) = Some (QCONF_OK, d') /\ dump_ok d' m.
Proof.
  intros Hf Hr. destruct (gdbm_sync_ok g m Hr) as (r & g' & Hg & Hr').
  exists (mkDump f true g'). split; [|done].
  by rewrite (SM_bind_Some _ _ _ _ _ (on_fs_ok _ (mkDump f true g) _ _ Hg)).
Qed.

Lemma dump_set_ok key val d m :
  dump_ok d m -> key <> [] ->
  exists ret d', qconf_dump_set key val d = Some (ret, d') /\
    ((ret = QCONF_OK /\ dump_ok d' (<[key := val]> m)) \/ (ret = QCONF_ERR_WRITE_DUMP /\ dump_ok d' m)).
Proof.
  intros Hd Hk. pose proof Hd as (Ho & Hf & Hr). unfold qconf_dump_set. rewrite decide_False by done.
  rewrite (SM_bind_Some _ _ _ _ _ (assert_open_ok d m Hd)).
  destruct (gdbm_store_ok key val (dump_fs d) m Hr) as (r & g' & Hg & Hr'). rewrite (SM_bind_Some _ _ _ _ _ (on_fs_ok _ _ _ _ Hg)).
  rewrite Ho. destruct (r =? 0); cbn [negb].
  - destruct (dump_sync_ok _ _ g' Hf Hr') as (d' & Hs & Hd'). exists QCONF_OK, d'. split; [done|by left].
  - eexists _, _. split; [done|]. right. done.
Qed.

Lemma dump_delete_ok key d m :
  dump_ok d m -> key <> [] ->
  exists ret d', qconf_dump_delete key d = Some (ret, d') /\
    ((ret = QCONF_OK /\ dump_ok d' (delete key m)) \/ (ret = QCONF_ERR_DEL_DUMP /\ dump_ok d' m)).
Proof.
  intros Hd Hk. pose proof Hd as (Ho & Hf & Hr). unfold qconf_dump_delete. rewrite decide_False by done.
  rewrite (SM_bind_Some _ _ _ _ _ (assert_open_ok d m Hd)).
  destruct (gdbm_delete_ok key (dump_fs d) m Hr) as (r & e & g' & Hg & Hr' & Hnf).
  rewrite (SM_bind_Some _ _ _ _ _ (on_fs_ok _ _ _ _ Hg)). rewrite Ho.
  destruct (Z.eqb_spec r 0) as [_|Hne]; cbn [negb andb].
  - destruct (dump_sync_ok _ _ g' Hf Hr') as (d' & Hs & Hd'). exists QCONF_OK, d'. split; [done|by left].
  - destruct (Z.eqb_spec e GDBM_ITEM_NOT_FOUND) as [E|]; cbn [negb].
    + destruct (dump_sync_ok _ _ g' Hf Hr') as (d' & Hs & Hd'). exists QCONF_OK, d'. split; [done|]. left.
      split; [done|]. by rewrite delete_id by auto.
    + eexists _, _. split; [done|]. by right.
Qed.

Lemma dump_clear_ok d m :
  dump_ok d m ->
  exists ret d', qconf_dump_clear d = Some (ret, d') /\ (ret = QCONF_OK -> dump_ok d' ∅) /\
    (ret <> QCONF_OK -> ret = QCONF_ERR_OPEN_DUMP).
Proof.
  intros (Ho & Hf & Hr). unfold qconf_dump_clear, qconf_destroy_dbf.
  destruct (gdbm_close_ok _ m Hr) as (g1 & Hc). set (d1 := mkDump (qconf_dump_file d) false g1).
  rewrite (SM_bind_Some _ _ _ tt d1).
  2:{ erewrite SM_bind_Some; [|reflexivity]. rewrite Ho. by rewrite (SM_bind_Some _ _ _ _ _ (on_fs_ok _ _ _ _ Hc)). }
  unfold qconf_init_dbf_. erewrite SM_bind_Some; [|reflexivity]. cbn [qconf_dump_file d1]. rewrite decide_False by done.
  destruct (gdbm_open_new (qconf_dump_file d) g1) as (r & g2 & Ho2 & Hnew).
  rewrite (SM_bind_Some _ _ _ _ _ (on_fs_ok _ d1 _ _ Ho2)).
  erewrite SM_bind_Some; [|reflexivity]. destruct r; cbn [negb]; [|by eexists _, _].
  destruct (gdbm_setopt_ok g2 ∅ (Hnew eq_refl)) as (r3 & g3 & Hs3 & Hr3).
  rewrite (SM_bind_Some _ _ _ _ _ (on_fs_ok _ (mkDump (qconf_dump_file d) true g2) _ _ Hs3)).
  destruct (r3 =? 0); cbn [negb]; by eexists _, _.
Qed.

(** The dump is a map: on an open dump, reading returns exactly the stored value or "not found"; storing
    and deleting either succeed, and change exactly that key (deleting an absent key succeeds), or report
    an error and change nothing; a successful clear leaves it empty and usable. The [assert] on the handle
    never fails. *)
Theorem dump_is_map key val old d m :
  dump_ok d m -> key <> [] ->
  (exists d', qconf_dump_get key old d =
      Some (match m !! key with Some v => (QCONF_OK, v) | None => (QCONF_ERR_NOT_FOUND, old) end, d') /\ dump_ok d' m) /\
  (exists ret d', qconf_dump_set key val d = Some (ret, d') /\
    ((ret = QCONF_OK /\ dump_ok d' (<[key := val]> m)) \/ (ret = QCONF_ERR_WRITE_DUMP /\ dump_ok d' m))) /\
  (exists ret d', qconf_dump_delete key d = Some (ret, d') /\
    ((ret = QCONF_OK /\ dump_ok d' (delete key m)) \/ (ret = QCONF_ERR_DEL_DUMP /\ dump_ok d' m))) /\
  (exists ret d', qconf_dump_clear d = Some (ret, d') /\ (ret = QCONF_OK -> dump_ok d' ∅)).
Proof.
  intros Hd Hk. split; [by apply dump_get_ok|]. split; [by apply dump_set_ok|]. split; [by apply dump_delete_ok|].
  destruct (dump_clear_ok d m Hd) as (ret & d' & Hrun & Hok & _). by exists ret, d'.
Qed.
End Laws.
End WithGdbm.
Arguments dump G : clear implicits.

(** ** A database in memory *)

#[export] Instance mem_gdbm : Gdbm (gmap bytes bytes) := {|
  fs_access _ := mret 0;
  fs_mkdir _ _ := mret 0;
  gdbm_open _ flags := fun m => Some (true, if flags =? GDBM_NEWDB then ∅ else m);
  gdbm_setopt := mret 0;
  gdbm_close := mret tt;
  gdbm_fetch k := fun m => Some (m !! k, m);
  gdbm_store k v := fun m => Some (0, <[k := v]> m);
  gdbm_delete k := fun m => Some (match m !! k with Some _ => (0, 0) | None => (-1, GDBM_ITEM_NOT_FOUND) end, delete k m);
  gdbm_sync := mret 0
|}.

#[export] Program Instance mem_gdbm_laws : GdbmLaws (gmap bytes bytes) := {| db_rep g m := g = m |}.
Next Obligation. intros k g m ->. by exists m. Qed.
Next Obligation. intros k v g m ->. by exists 0, (<[k := v]> m). Qed.
Next Obligation.
  intros k g m ->. cbn. destruct (m !! k) as [v|] eqn:E; eexists _, _, _; (split; [done|]).
  - by split.
  - split; [by rewrite delete_id|done].
Qed.
Next Obligation. intros g m ->. by exists 0, m. Qed.
Next Obligation. intros g m ->. by exists m. Qed.
Next Obligation. intros f g. by exists true, ∅. Qed.
Next Obligation. intros g m ->. by exists 0, m. Qed.

Lemma dump_is_map_witness :
  exists ret d', qconf_dump_set (str "2k") (str "v") (mkDump (str "f") true (∅ : gmap bytes bytes)) = Some (ret, d') /\
    ((ret = QCONF_OK /\ dump_ok d' (<[str "2k" := str "v"]> ∅)) \/ (ret = QCONF_ERR_WRITE_DUMP /\ dump_ok d' ∅)).
Proof.
  apply (dump_is_map (str "2k") (str "v") [] (mkDump (str "f") true (∅ : gmap bytes bytes)) ∅); [|discriminate].
  split; [reflexivity|]. split; [discriminate|reflexivity].
Defined.
End Dump.
