(* ===== verification/NodeBuf.v ===== *)
(** * The buffers that nodes are read into ([zk_get_node_buf_] of [src/agent/qconf_zoo.cc])

    A thread has a buffer of its own, allocated when it first reads a node and freed when it ends. Everything
    else that reads nodes takes the result of [zk_get_node_buf_] as an argument (is it NULL?); here is how it
    comes about, and why it may be an argument that does not change. *)

From S2P Require Import Prelude Common.

Module NodeBuf.

(** A thread and a block of memory are numbers. *)
Abbreviation tid := nat.
Abbreviation block := nat.

(** Whether [init_once_routine_] has run; the key, when the system made one; the value of the key in each
    thread; the blocks that are allocated. *)
Record mem := mkMem {
  _qconf_once_control : bool; _qconf_safe_key : option (tid -> option block); nb_live : gset block
}.

Definition set_slot (t : tid) (b : option block) (f : tid -> option block) : tid -> option block :=
  fun u => if decide (u = t) then b else f u.

(** What the system answers during a call. *)
Record answers := mkAnswers {
  pthread_once_ret : Z; pthread_key_create_ret : Z; calloc_ret : option block; pthread_setspecific_ret : Z
}.

(** The result of [pthread_key_create] is not looked at. *)
Definition init_once_routine_ (a : answers) : SM mem unit :=
  modify (fun m => mkMem true (if pthread_key_create_ret a =? 0 then Some (fun _ => None) else None) (nb_live m)).

(** A key that was never made must not be used. *)
Definition pthread_getspecific (t : tid) : SM mem (option block) :=
  m ← get_st; match _qconf_safe_key m with Some f => mret (f t) | None => undefined end.

Definition pthread_setspecific (a : answers) (t : tid) (b : block) : SM mem Z :=
  m ← get_st;
  match _qconf_safe_key m with
  | None => undefined
  | Some f =>
      (if pthread_setspecific_ret a =? 0
       then put_st (mkMem (_qconf_once_control m) (Some (set_slot t (Some b) f)) (nb_live m)) else mret tt);;
      mret (pthread_setspecific_ret a)
  end.

(** The system gives only a block that is not in use. *)
Definition calloc (a : answers) : SM mem (option block) :=
  m ← get_st;
  match calloc_ret a with
  | None => mret None
  | Some b =>
      if decide (b ∈ nb_live m) then undefined
      else put_st (mkMem (_qconf_once_control m) (_qconf_safe_key m) ({[b]} ∪ nb_live m));; mret (Some b)
  end.

(** Freeing a block that is not allocated is undefined. *)
Definition free (b : block) : SM mem unit :=
  m ← get_st;
  if decide (b ∈ nb_live m) then put_st (mkMem (_qconf_once_control m) (_qconf_safe_key m) (nb_live m ∖ {[b]}))
  else undefined.

Definition destroy_safe_key_ (b : block) : SM mem unit := free b.

Definition zk_get_node_buf_ (a : answers) (t : tid) : SM mem (option block) :=
  m ← get_st;
  (if _qconf_once_control m then mret tt else if pthread_once_ret a =? 0 then init_once_routine_ a else mret tt);;
  if negb (pthread_once_ret a =? 0) then mret None else
  buf ← pthread_getspecific t;
  match buf with
  | Some b => mret (Some b)
  | None =>
      c ← calloc a;
      match c with
      | None => mret None
      | Some b =>
          ret ← pthread_setspecific a t b;
          if ret =? 0 then mret (Some b) else free b;; mret None
      end
  end.

(** A thread ends: the system clears the value of the key and calls the destructor with what it was. *)
Definition thread_ends (t : tid) : SM mem unit :=
  m ← get_st;
  match _qconf_safe_key m with
  | None => mret tt
  | Some f =>
      match f t with
      | None => mret tt
      | Some b => put_st (mkMem (_qconf_once_control m) (Some (set_slot t None f)) (nb_live m));; destroy_safe_key_ b
      end
  end.

(** ** Who owns which block *)

Inductive act := Reads (t : tid) (a : answers) | Ends (t : tid).

(** What a well-behaved system answers: the key is made, and a block that it gives is not in use. *)
Definition fair (m : mem) (x : act) : Prop :=
  match x with
  | Reads _ a => pthread_key_create_ret a = 0 /\ (forall b, calloc_ret a = Some b -> b ∉ nb_live m)
  | Ends _ => True
  end.

(** One action, with the block that a reading thread got. *)
Definition act_step (x : act) : SM mem (option block) :=
  match x with Reads t a => zk_get_node_buf_ a t | Ends t => thread_ends t;; mret None end.

Definition start : mem := mkMem false None ∅.

Definition slot (m : mem) (t : tid) : option block := f ← _qconf_safe_key m; f t.

(** Each block belongs to exactly one thread, and each thread's block is allocated. *)
Record owned (m : mem) : Prop := {
  ow_once : _qconf_once_control m = true <-> is_Some (_qconf_safe_key m);
  ow_live : forall b, b ∈ nb_live m <-> exists t, slot m t = Some b;
  ow_one : forall t u b, slot m t = Some b -> slot m u = Some b -> t = u
}.

Lemma start_owned : owned start.
Proof. split; [by split; [|intros []]| |done]. intros b. split; [set_solver|by intros []]. Qed.

Inductive reached : mem -> Prop :=
  | reached_start : reached start
  | reached_step m x r m' : reached m -> fair m x -> act_step x m = Some (r, m') -> reached m'.

Ltac run_calls := cbv [mbind mret SM_bind SM_ret get_st put_st modify undefined]; cbn.

(** Changing the value of the key in one thread. *)
Lemma set_slot_eq t b f : set_slot t b f t = b.
Proof. unfold set_slot. by rewrite decide_True. Qed.

Lemma set_slot_ne t u b f : u <> t -> set_slot t b f u = f u.
Proof. intros Hn. unfold set_slot. by rewrite decide_False. Qed.

(** What one action promises about the threads' blocks. *)
Definition promise (x : act) (m : mem) (r : option block) (m' : mem) : Prop :=
  match x with
  | Reads t a =>
      (forall b, slot m t = Some b -> pthread_once_ret a = 0 -> r = Some b /\ m' = m) /\
      (forall b, r = Some b -> slot m' t = Some b) /\ (r = None -> nb_live m' = nb_live m) /\
      (forall u, u <> t -> slot m' u = slot m u)
  | Ends t => slot m' t = None /\ forall u, u <> t -> slot m' u = slot m u
  end.

(** A thread that has no block takes one that nobody has. *)
Lemma take_owned f t b live :
  owned (mkMem true (Some f) live) -> f t = None -> b ∉ live ->
  owned (mkMem true (Some (set_slot t (Some b) f)) ({[b]} ∪ live)).
Proof.
  intros [_ Hl Ho] Hf Hb. unfold slot in *. cbn in *. split; cbn; [by split|..].
  - intros c. rewrite elem_of_union, elem_of_singleton, Hl. split.
    + intros [->|[u Hu]]; [exists t; apply set_slot_eq|exists u]. rewrite set_slot_ne; [done|]. intros ->. congruence.
    + intros [u Hu]. destruct (decide (u = t)) as [->|Hn]; [rewrite set_slot_eq in Hu; left; congruence|].
      rewrite set_slot_ne in Hu by done. right. by exists u.
  - assert (Hne : forall u, f u <> Some b) by (intros u Hu; apply Hb, Hl; by exists u).
    intros u v c. unfold set_slot. destruct (decide (u = t)), (decide (v = t)); intros Hu Hv; try congruence.
    by apply (Ho u v c).
Qed.

(** A thread gives its block back. *)
Lemma give_owned f t b live :
  owned (mkMem true (Some f) live) -> f t = Some b -> owned (mkMem true (Some (set_slot t None f)) (live ∖ {[b]})).
Proof.
  intros [_ Hl Ho] Hf. unfold slot in *. cbn in *. split; cbn; [by split|..].
  - intros c. rewrite elem_of_difference, elem_of_singleton, Hl. split.
    + intros [[u Hu] Hn]. exists u. rewrite set_slot_ne; [done|]. intros ->. congruence.
    + intros [u Hu]. destruct (decide (u = t)) as [->|Hn]; [by rewrite set_slot_eq in Hu|].
      rewrite set_slot_ne in Hu by done. split; [by exists u|]. intros ->. by apply Hn, (Ho u t b).
  - intros u v c. unfold set_slot. destruct (decide (u = t)), (decide (v = t)); try done. by apply Ho.
Qed.

(** The call after [pthread_once] succeeded. *)
Lemma get_buf f live t a :
  let m := mkMem true (Some f) live in
  owned m -> (forall b, calloc_ret a = Some b -> b ∉ live) -> pthread_once_ret a = 0 ->
  exists r m', zk_get_node_buf_ a t m = Some (r, m') /\ owned m' /\ promise (Reads t a) m r m'.
Proof.
  intros m Hm Hc Ho. unfold zk_get_node_buf_, pthread_getspecific, calloc, pthread_setspecific, free, promise, m.
  run_calls. rewrite Ho. cbn. destruct (f t) as [b|] eqn:Hf; cbn.
  { exists (Some b), m. split; [done|]. split; [done|]. unfold slot. cbn. rewrite ?Hf. split_and!; try done; congruence. }
  destruct (calloc_ret a) as [b|] eqn:Ha; cbn.
  2: { exists None, m. unfold slot. cbn. rewrite ?Hf. split; [done|]. split; [done|]. split_and!; try done; congruence. }
  rewrite decide_False by by apply Hc. cbn. destruct (pthread_setspecific_ret a =? 0) eqn:Es; cbn; rewrite Es.
  - eexists (Some b), _. split; [done|]. split; [apply take_owned; auto|]. unfold slot. cbn. rewrite ?Hf.
    split_and!; try done; [intros c [= <-]; apply set_slot_eq|intros u Hu; by apply set_slot_ne].
  - rewrite decide_True by set_solver. cbn.
    assert (E : ({[b]} ∪ live) ∖ {[b]} = live) by (apply set_eq; intros c; specialize (Hc b eq_refl); set_solver).
    rewrite E. exists None, m. unfold slot. cbn. rewrite ?Hf. split; [done|]. split; [done|]. split_and!; try done; congruence.
Qed.

Lemma act_owned m x : owned m -> fair m x -> exists r m', act_step x m = Some (r, m') /\ owned m' /\ promise x m r m'.
Proof.
  intros Hm Hx. pose proof Hm as [H1 H2 H3]. destruct m as [once [f|] live]; cbn in H1.
  all: assert (Eo : once = true \/ once = false) by (destruct once; auto).
  - destruct Eo as [->| ->]; [|by pose proof (proj2 H1 ltac:(by eexists))]. destruct x as [t a|t].
    + destruct Hx as [Hk Hc]. destruct (Z.eq_dec (pthread_once_ret a) 0) as [Ho|Ho]; [by apply get_buf|].
      exists None, (mkMem true (Some f) live). apply Z.eqb_neq in Ho as Ho'. cbn. unfold zk_get_node_buf_, init_once_routine_. run_calls. rewrite Ho'.
      split; [done|]. split; [done|]. split_and!; done.
    + cbn. unfold thread_ends, destroy_safe_key_, free. run_calls. destruct (f t) as [b|] eqn:Hf; cbn.
      * rewrite decide_True by (apply H2; by exists t). eexists None, _. split; [done|]. split; [by apply give_owned|].
        unfold slot. cbn. split; [apply set_slot_eq|intros u Hu; by apply set_slot_ne].
      * exists None. eexists. split; [done|]. split; [done|]. by split.
  - destruct Eo as [->| ->]; [by destruct (proj1 H1 eq_refl)|]. destruct x as [t a|t].
    + destruct Hx as [Hk Hc]. destruct (Z.eq_dec (pthread_once_ret a) 0) as [Ho|Ho].
      * assert (Hm' : owned (mkMem true (Some (fun _ => None)) live)) by (split; [by split|exact H2|done]).
        destruct (get_buf _ live t a Hm' Hc Ho) as (r & m' & E & Hr & _ & P2 & P3 & P4). exists r, m'.
        split; [|split; [done|]; by split_and!].
        rewrite <- E. cbn. unfold zk_get_node_buf_, init_once_routine_. run_calls. by rewrite Ho, Hk.
      * exists None. eexists. apply Z.eqb_neq in Ho as Ho'. cbn. unfold zk_get_node_buf_, init_once_routine_. run_calls. rewrite Ho'.
        split; [done|]. split; [done|]. split_and!; done.
    + exists None. eexists. split; [done|]. split; [done|]. by split.
Qed.

Lemma reached_owned m : reached m -> owned m.
Proof.
  induction 1 as [|m x r m' _ IH Hx E]; [apply start_owned|]. destruct (act_owned m x IH Hx) as (r' & m1 & E' & Hm & _). congruence.
Qed.

(** Reading nodes never leaks, shares or frees a block twice: whatever threads read and end in whatever order,
    and whichever allocations fail, no call is undefined, the allocated blocks are exactly those of the threads,
    no two threads have the same one, and a thread that has one gets the same again. *)
Theorem node_buffers m x :
  reached m -> fair m x ->
  (exists r m', act_step x m = Some (r, m') /\ promise x m r m') /\
  (forall b, b ∈ nb_live m <-> exists t, slot m t = Some b) /\ (forall t u b, slot m t = Some b -> slot m u = Some b -> t = u).
Proof.
  intros Hr Hx. pose proof (reached_owned m Hr) as Hm. split; [|split; apply Hm].
  destruct (act_owned m x Hm Hx) as (r & m' & E & _ & Hp). by exists r, m'.
Qed.

(** Without a key the first thread that reads uses one that was never made. *)
Lemma key_not_made t a :
  pthread_once_ret a = 0 -> pthread_key_create_ret a <> 0 -> zk_get_node_buf_ a t start = None.
Proof.
  intros Ho Hk%Z.eqb_neq. unfold zk_get_node_buf_, init_once_routine_, pthread_getspecific. run_calls. by rewrite Ho, Hk.
Qed.
End NodeBuf.
