(* ===== verification/Zoo.v ===== *)
(** * Access to ZooKeeper ([src/agent/qconf_zoo.cc])

    The client library of ZooKeeper is a class of operations on a state [K]; a handle is its address, 0
    when it is NULL. The wrappers retry a call at most [QCONF_GET_RETRIES] times, sort children, and read
    the status of services. *)

From S2P Require Import Prelude Common Text Format Config NodeBuf.
From Stdlib Require Import Sorting.Sorted.

(** ** The client library *)

Definition ZOK : Z := 0.
Definition ZMARSHALLINGERROR : Z := -5.
Definition ZBADARGUMENTS : Z := -8.
Definition ZINVALIDSTATE : Z := -9.
Definition ZNONODE : Z := -101.
Definition ZNOCHILDRENFOREPHEMERALS : Z := -108.
Definition ZNODEEXISTS : Z := -110.
Definition ZNOTEMPTY : Z := -111.
Definition ZOO_EPHEMERAL : Z := 1.

Class Zk (K : Type) := {
  zookeeper_init : bytes -> Z -> SM K Z;                          (* host list, timeout; handle *)
  zookeeper_close : Z -> SM K unit;
  zoo_state : Z -> SM K Z;
  zoo_get : Z -> bytes -> bool -> SM K (Z * option bytes);        (* handle, path, watch; data, absent for length -1 *)
  zoo_create : Z -> bytes -> bytes -> Z -> SM K Z;                (* handle, path, value, flags *)
  zoo_get_children : Z -> bytes -> bool -> SM K (Z * list bytes);  (* handle, path, watch; names *)
  zoo_exists : Z -> bytes -> bool -> SM K Z                       (* handle, path, watch *)
}.

(** The calls of the programs that write: setting and deleting a node of any version, and creating one
    with a sequence number, which gives the path that was created. *)
Class ZkWrite (K : Type) := {
  zoo_set : Z -> bytes -> bytes -> SM K Z;
  zoo_delete : Z -> bytes -> SM K Z;
  zoo_create_seq : Z -> bytes -> bytes -> Z -> SM K (Z * bytes)
}.

(** The documented behaviour. An open handle is a session with a cluster, which holds a tree of nodes with
    values of at most 1 MB; other clients do not change it during a call. A call may also fail: reading has no effect on the
    tree then, while a node may have been created although the reply was lost. [zk_serves] names the tree
    that the servers of a host list hold. *)
Class ZkLaws (K : Type) `{Zk K} := {
  zk_tree : K -> Z -> gmap bytes bytes -> Prop;
  zk_serves : K -> bytes -> gmap bytes bytes -> Prop;
  zk_tree_small : forall k zh m, zk_tree k zh m -> map_Forall (fun _ v => blen v < QCONF_MAX_VALUE_SIZE) m;
  zoo_get_ok : forall zh p w k m, zk_tree k zh m ->
    exists ret d k', zoo_get zh p w k = Some ((ret, d), k') /\ zk_tree k' zh m /\
      (ret = ZOK -> m !! p = Some (default [] d)) /\ (ret = ZNONODE -> m !! p = None);
  zoo_create_ok : forall zh p v f k m, zk_tree k zh m ->
    exists ret k' m', zoo_create zh p v f k = Some (ret, k') /\ zk_tree k' zh m' /\
      (m' = m \/ (m !! p = None /\ m' = <[p := v]> m)) /\ (ret = ZOK \/ ret = ZNODEEXISTS -> is_Some (m' !! p));
  zoo_get_children_ok : forall zh p w k m, zk_tree k zh m ->
    exists ret names k', zoo_get_children zh p w k = Some ((ret, names), k') /\ zk_tree k' zh m /\
      (ret = ZOK -> NoDup names /\ forall n, n ∈ names <-> n <> [] /\ (x2f ∉ n) /\ (x00 ∉ n) /\ is_Some (m !! (p ++ [x2f] ++ n))) /\
      (ret = ZNONODE -> m !! p = None);
  zoo_exists_ok : forall zh p w k m, zk_tree k zh m ->
    exists ret k', zoo_exists zh p w k = Some (ret, k') /\ zk_tree k' zh m /\
      (ret = ZOK -> is_Some (m !! p)) /\ (ret = ZNONODE -> m !! p = None);
  zoo_state_ok : forall zh k m, zk_tree k zh m -> exists st k', zoo_state zh k = Some (st, k') /\ zk_tree k' zh m;
  zookeeper_init_ok : forall h t k m, zk_serves k h m ->
    exists zh k', zookeeper_init h t k = Some (zh, k') /\ (zh <> 0 -> zk_tree k' zh m);
  zookeeper_close_ok : forall zh k, zh <> 0 ->
    exists k', zookeeper_close zh k = Some (tt, k') /\ forall h m, zk_serves k h m -> zk_serves k' h m
}.

Module Zoo.
Import Format Config.

Section WithZk.
Context {K : Type} `{Zk K}.
Abbreviation ZM := (SM K).

(** A [for] loop over attempts: [op] is the call, [decide_ret] the [switch] on its result, which returns
    or continues; [last] is the result after the last attempt. *)
Fixpoint retry {A B} (n : nat) (op : ZM A) (decide_ret : A -> option B) (last : B) : ZM B :=
  match n with
  | O => mret last
  | S n' => r ← op; match decide_ret r with Some b => mret b | None => retry n' op decide_ret last end
  end.

Definition transient (ret : Z) : bool := (ret =? ZINVALIDSTATE) || (ret =? ZMARSHALLINGERROR).

(** Whether the thread has its buffer, the result of [NodeBuf.zk_get_node_buf_]: once it has, it keeps it
    ([NodeBuf.node_buffers]). *)
Variable zk_get_node_buf_ : bool.

Definition zk_get_node (zh : Z) (path buf : bytes) (watcher : bool) : ZM (Z * bytes) :=
  if negb zk_get_node_buf_ then mret (QCONF_ERR_MEM, buf) else
  retry QCONF_GET_RETRIES (zoo_get zh (c_str path) watcher)
    (fun '(ret, data) =>
       if ret =? ZOK then Some (QCONF_OK, default [] data)
       else if ret =? ZNONODE then Some (QCONF_NODE_NOT_EXIST, buf)
       else if transient ret then None
       else Some (QCONF_ERR_ZOO_FAILED, buf))
    (QCONF_ERR_ZOO_FAILED, buf).

Definition zk_create_node (zh : Z) (path value : bytes) (flags : Z) : ZM Z :=
  retry QCONF_GET_RETRIES (zoo_create zh (c_str path) value flags)
    (fun ret =>
       if ret =? ZOK then Some QCONF_OK
       else if ret =? ZNODEEXISTS then Some QCONF_NODE_EXIST
       else if (ret =? ZNONODE) || (ret =? ZNOCHILDRENFOREPHEMERALS) || (ret =? ZBADARGUMENTS) then Some QCONF_ERR_ZOO_FAILED
       else None)
    QCONF_ERR_ZOO_FAILED.

Definition zk_exists (zh : Z) (path : bytes) : ZM Z :=
  retry QCONF_GET_RETRIES (zoo_exists zh (c_str path) true)
    (fun ret =>
       if ret =? ZOK then Some QCONF_OK
       else if ret =? ZNONODE then Some QCONF_NODE_NOT_EXIST
       else if transient ret then None
       else Some QCONF_ERR_ZOO_FAILED)
    QCONF_ERR_ZOO_FAILED.

(** ** Children, in the order of [strcmp] *)

Fixpoint strcmp (a b : bytes) : Z :=
  match a, b with
  | [], [] => 0
  | [], _ :: _ => -1
  | _ :: _, [] => 1
  | x :: a', y :: b' => if b2z x =? b2z y then strcmp a' b' else if b2z x <? b2z y then -1 else 1
  end.

Definition children_node_cmp (s1 s2 : bytes) : Z := strcmp (c_str s1) (c_str s2).

(** [qsort] *)
Fixpoint insert_node (x : bytes) (l : list bytes) : list bytes :=
  match l with
  | [] => [x]
  | y :: l' => if children_node_cmp x y <=? 0 then x :: l else y :: insert_node x l'
  end.
Definition sort_nodes (l : list bytes) : list bytes := foldr insert_node [] l.

Definition vector_of (l : list bytes) : string_vector_t := SV (blen l) (Some <$> l).

Definition zk_get_chdnodes (zh : Z) (path : bytes) (nodes : string_vector_t) : ZM (Z * string_vector_t) :=
  if (zh =? 0) || bool_decide (path = []) then mret (QCONF_ERR_PARAM, nodes) else
  retry QCONF_GET_RETRIES (zoo_get_children zh (c_str path) true)
    (fun '(ret, names) =>
       if ret =? ZOK then Some (QCONF_OK, vector_of (sort_nodes names))
       else if ret =? ZNONODE then Some (QCONF_NODE_NOT_EXIST, nodes)
       else if transient ret then None
       else Some (QCONF_ERR_ZOO_FAILED, nodes))
    (QCONF_ERR_ZOO_FAILED, nodes).

Definition zk_get_service_status (zh : Z) (path : bytes) (status : Z) : ZM (Z * Z) :=
  if (zh =? 0) || bool_decide (path = []) then mret (QCONF_ERR_PARAM, status) else
  '(ret, buf) ← zk_get_node zh path [] true;
  if ret =? QCONF_OK then
    let '(_, value) := get_integer buf STATUS_UNKNOWN in
    if (value =? STATUS_UP) || (value =? STATUS_DOWN) || (value =? STATUS_OFFLINE)
    then mret (QCONF_OK, value) else mret (QCONF_ERR_OTHER, status)
  else mret (QCONF_ERR_OTHER, status).

(** The loop over the children; [status] is the vector so far, [rest] its zero entries. *)
Fixpoint status_loop (zh : Z) (path : bytes) (data : list (option bytes)) (status : list Z) : ZM (Z * list Z) :=
  match data with
  | [] => mret (QCONF_OK, status)
  | None :: _ => undefined
  | Some node :: data' =>
      let child_path := path ++ [x2f] ++ c_str node in
      '(ret, s) ← zk_get_service_status zh child_path 0;
      if negb (ret =? QCONF_OK) then mret (QCONF_ERR_OTHER, status ++ replicate (length data) 0) else
      status_loop zh path data' (status ++ [s])
  end.

Definition zk_get_chdnodes_with_status (zh : Z) (path : bytes) (nodes : string_vector_t) (status : list Z)
    : ZM (Z * string_vector_t * list Z) :=
  if (zh =? 0) || bool_decide (path = []) then mret (QCONF_ERR_PARAM, nodes, status) else
  '(ret, nodes) ← zk_get_chdnodes zh path nodes;
  if ret =? QCONF_OK then
    '(ret, status) ← status_loop zh path (sv_data nodes) [];
    mret (ret, nodes, status)
  else mret (ret, nodes, status).

(** ** Registering the agent *)

(** The positions of the slashes after the first character, in order. *)
Fixpoint slashes_from (pos : nat) (s : bytes) : list nat :=
  match s with
  | [] => []
  | b :: s' => if decide (b = x2f) then pos :: slashes_from (S pos) s' else slashes_from (S pos) s'
  end.

Fixpoint create_prefixes (zh : Z) (path : bytes) (positions : list nat) : ZM bool :=
  match positions with
  | [] => mret true
  | pos :: rest =>
      ret ← zk_create_node zh (take pos path) [] 0;
      if negb (ret =? QCONF_OK) && negb (ret =? QCONF_NODE_EXIST) then mret false else create_prefixes zh path rest
  end.

Definition zk_register_ephemeral (zh : Z) (path value : bytes) : ZM Z :=
  if (zh =? 0) || bool_decide (path = []) || bool_decide (value = []) then mret QCONF_ERR_PARAM else
  ok ← create_prefixes zh path (slashes_from 1 (drop 1 path));
  if negb ok then mret QCONF_ERR_ZOO_FAILED else
  ret ← zk_create_node zh path value ZOO_EPHEMERAL;
  mret (if ret =? QCONF_NODE_EXIST then QCONF_OK else ret).

(** ** Theorems *)

(** Calls that keep an invariant [I] of the state, repeated: what the last one decides is the result. *)
Lemma retry_ok {A B} (I : K -> Prop) (R : A -> K -> Prop) (n : nat) (op : ZM A) (f : A -> option B) (last : B) s :
  I s -> (forall s, I s -> exists a s', op s = Some (a, s') /\ I s' /\ R a s') ->
  exists b s', retry n op f last s = Some (b, s') /\ I s' /\ (b = last \/ exists a, R a s' /\ f a = Some b).
Proof.
  intros Hs Hop. revert s Hs. induction n as [|n IH]; intros s Hs.
  - exists last, s. by auto.
  - destruct (Hop s Hs) as (a & s1 & Ha & Hs1 & Hr). cbn [retry]. rewrite (SM_bind_Some _ _ _ _ _ Ha).
    destruct (f a) as [b|] eqn:E; [|by apply IH]. exists b, s1. by eauto 6.
Qed.

Context `{!ZkLaws K}.

Lemma zk_get_node_ok zh path buf w s m :
  zk_tree s zh m -> (x00 ∉ path) ->
  exists ret v s', zk_get_node zh path buf w s = Some ((ret, v), s') /\ zk_tree s' zh m /\
    (ret = QCONF_OK -> m !! path = Some v) /\ (ret = QCONF_NODE_NOT_EXIST -> m !! path = None) /\
    (ret <> QCONF_OK -> v = buf) /\
    (ret = QCONF_OK \/ ret = QCONF_NODE_NOT_EXIST \/ ret = QCONF_ERR_ZOO_FAILED \/ ret = QCONF_ERR_MEM).
Proof.
  intros Hs Hp. unfold zk_get_node. rewrite c_str_no_nul by done.
  destruct zk_get_node_buf_; cbn [negb]; [|exists QCONF_ERR_MEM, buf, s; split_and!; try done; auto].
  set (f := fun '(ret, data) => _).
  destruct (retry_ok (fun k => zk_tree k zh m)
    (fun a _ => (a.1 = ZOK -> m !! path = Some (default [] a.2)) /\ (a.1 = ZNONODE -> m !! path = None))
    QCONF_GET_RETRIES (zoo_get zh path w) f (QCONF_ERR_ZOO_FAILED, buf) s Hs) as ([ret v] & s' & Hrun & Hs' & Hres).
  { intros k Hk. destruct (zoo_get_ok zh path w k m Hk) as (ret & d & k' & ? & ? & ? & ?). exists (ret, d), k'. auto. }
  exists ret, v, s'. split; [done|]. split; [done|].
  destruct Hres as [[= -> ->]|([zr d] & (H1 & H2) & E)]; [split_and!; try done; auto|]. unfold f in E. cbn [fst snd] in *.
  destruct (Z.eqb_spec zr ZOK) as [Ez|_]; [injection E as <- <-; split_and!; try done; auto|].
  destruct (Z.eqb_spec zr ZNONODE) as [Ez|_]; [injection E as <- <-; split_and!; try done; auto|].
  destruct (transient zr); [done|]. injection E as <- <-. split_and!; try done; auto.
Qed.

(** The nodes of [m] are still there in [m'], with their values. *)
Definition grows (m m' : gmap bytes bytes) : Prop := m ⊆ m'.

Lemma grows_refl m : grows m m.
Proof. by unfold grows. Qed.

Lemma grows_trans m1 m2 m3 : grows m1 m2 -> grows m2 m3 -> grows m1 m3.
Proof. unfold grows. by intros -> ->. Qed.

Lemma grows_some m m' p : grows m m' -> is_Some (m !! p) -> is_Some (m' !! p).
Proof. intros Hg (v & Hv). exists v. by apply (lookup_weaken m). Qed.

Lemma zk_create_node_ok zh path value flags s m :
  zk_tree s zh m -> (x00 ∉ path) ->
  exists ret s' m', zk_create_node zh path value flags s = Some (ret, s') /\ zk_tree s' zh m' /\ grows m m' /\
    (ret = QCONF_OK \/ ret = QCONF_NODE_EXIST -> is_Some (m' !! path)) /\
    (ret = QCONF_OK \/ ret = QCONF_NODE_EXIST \/ ret = QCONF_ERR_ZOO_FAILED).
Proof.
  intros Hs Hp. unfold zk_create_node. rewrite c_str_no_nul by done.
  match goal with |- context [retry _ _ ?g _] => set (f := g) end.
  destruct (retry_ok (fun k => exists m', zk_tree k zh m' /\ grows m m')
    (fun r k => exists m', zk_tree k zh m' /\ grows m m' /\ (r = ZOK \/ r = ZNODEEXISTS -> is_Some (m' !! path)))
    QCONF_GET_RETRIES (zoo_create zh path value flags) f QCONF_ERR_ZOO_FAILED s) as (ret & s' & Hrun & (m0 & Hm0 & Hg0) & Hres).
  { exists m. split; [done|apply grows_refl]. }
  { intros k (mk & Hk & Hg). destruct (zoo_create_ok zh path value flags k mk Hk) as (ret & k' & mk' & Hc & Hk' & Hmk & He).
    assert (Hg' : grows m mk').
    { apply (grows_trans _ mk); [done|]. destruct Hmk as [->|[Hn ->]]; [apply grows_refl|by apply insert_subseteq]. }
    exists ret, k'. split; [done|]. split; [by exists mk'|]. by exists mk'. }
  exists ret, s'. destruct Hres as [->|(zr & (m' & Hm' & Hg' & Hex) & E)]; [exists m0; split_and!; auto; by intros [?|?]|].
  exists m'. do 3 (split; [done|]). unfold f in E.
  destruct (Z.eqb_spec zr ZOK) as [Ez|_]; [injection E as <-; auto|].
  destruct (Z.eqb_spec zr ZNODEEXISTS) as [Ez|_]; [injection E as <-; auto|].
  destruct ((zr =? ZNONODE) || (zr =? ZNOCHILDRENFOREPHEMERALS) || (zr =? ZBADARGUMENTS)); [|done]. injection E as <-.
  split; [by intros [?|?]|auto].
Qed.

Lemma create_prefixes_ok zh path positions s m :
  zk_tree s zh m -> (x00 ∉ path) ->
  exists ok s' m', create_prefixes zh path positions s = Some (ok, s') /\ zk_tree s' zh m' /\ grows m m' /\
    (ok = true -> Forall (fun pos => is_Some (m' !! take pos path)) positions).
Proof.
  intros Hs Hp. revert s m Hs. induction positions as [|pos rest IH]; intros s m Hs.
  - exists true, s, m. split; [done|]. split; [done|]. split; [apply grows_refl|done].
  - cbn [create_prefixes]. destruct (zk_create_node_ok zh (take pos path) [] 0 s m Hs) as (ret & s1 & m1 & Hrun & Hs1 & Hg1 & Hex & _).
    { intros Hin. apply Hp. apply list_elem_of_lookup in Hin as (i & Hi). apply lookup_take_Some in Hi as [Hi _]. by eapply list_elem_of_lookup_2. }
    rewrite (SM_bind_Some _ _ _ _ _ Hrun). destruct (Z.eqb_spec ret QCONF_OK) as [E|], (Z.eqb_spec ret QCONF_NODE_EXIST) as [E'|];
      cbn [negb andb]; try (exists false, s1, m1; done).
    all: destruct (IH s1 m1 Hs1) as (ok & s2 & m2 & Hr2 & Hs2 & Hg2 & Hall); exists ok, s2, m2; split; [done|];
      split; [done|]; split; [by apply (grows_trans _ m1)|]; intros Hok; constructor; [apply (grows_some m1); [done|apply Hex; auto]|by apply Hall].
Qed.

(** What other components rely on: registering returns and disturbs no other node. *)
Lemma zk_register_grows zh path value s m :
  zk_tree s zh m -> (x00 ∉ path) ->
  exists ret s' m', zk_register_ephemeral zh path value s = Some (ret, s') /\ zk_tree s' zh m' /\ grows m m'.
Proof.
  intros Hs Hp. unfold zk_register_ephemeral.
  destruct ((zh =? 0) || bool_decide (path = []) || bool_decide (value = [])); [by eexists _, s, m|].
  destruct (create_prefixes_ok zh path (slashes_from 1 (drop 1 path)) s m Hs Hp) as (ok & s1 & m1 & Hr1 & Hs1 & Hg1 & _).
  rewrite (SM_bind_Some _ _ _ _ _ Hr1). destruct ok; cbn [negb]; [|by eexists _, s1, m1].
  destruct (zk_create_node_ok zh path value ZOO_EPHEMERAL s1 m1 Hs1 Hp) as (ret & s2 & m2 & Hr2 & Hs2 & Hg2 & _).
  rewrite (SM_bind_Some _ _ _ _ _ Hr2). eexists _, s2, m2. split; [done|]. split; [done|]. by apply (grows_trans _ m1).
Qed.

Lemma zk_exists_ok zh path s m :
  zk_tree s zh m ->
  exists ret s', zk_exists zh path s = Some (ret, s') /\ zk_tree s' zh m /\
    (ret = QCONF_OK \/ ret = QCONF_NODE_NOT_EXIST \/ ret = QCONF_ERR_ZOO_FAILED).
Proof.
  intros Hs. unfold zk_exists.
  match goal with |- context [retry _ _ ?f _] => destruct (retry_ok (fun k => zk_tree k zh m) (fun _ _ => True) QCONF_GET_RETRIES
    (zoo_exists zh (c_str path) true) f QCONF_ERR_ZOO_FAILED s Hs) as (ret & s' & Hrun & Hs' & Hres) end.
  { intros q Hq. destruct (zoo_exists_ok zh (c_str path) true q m Hq) as (r & q' & ? & ? & _). by exists r, q'. }
  exists ret, s'. split; [done|]. split; [done|]. destruct Hres as [->|(zr & _ & E)]; [auto|].
  destruct (zr =? ZOK); [injection E as <-; auto|]. destruct (zr =? ZNONODE); [injection E as <-; auto|].
  destruct (transient zr); [done|]. injection E as <-. auto.
Qed.

(** Registering the agent: when it reports success, the agent's own node and every one of its ancestors
    exist in ZooKeeper, and no other node has changed. *)
Theorem register_creates_path zh path value s m :
  zk_tree s zh m -> (x00 ∉ path) ->
  exists ret s' m', zk_register_ephemeral zh path value s = Some (ret, s') /\ zk_tree s' zh m' /\ grows m m' /\
    (ret = QCONF_OK -> is_Some (m' !! path) /\
       Forall (fun pos => is_Some (m' !! take pos path)) (slashes_from 1 (drop 1 path))).
Proof.
  intros Hs Hp. unfold zk_register_ephemeral.
  destruct ((zh =? 0) || bool_decide (path = []) || bool_decide (value = [])).
  { exists QCONF_ERR_PARAM, s, m. split; [done|]. split; [done|]. split; [apply grows_refl|done]. }
  destruct (create_prefixes_ok zh path (slashes_from 1 (drop 1 path)) s m Hs Hp) as (ok & s1 & m1 & Hr1 & Hs1 & Hg1 & Hall).
  rewrite (SM_bind_Some _ _ _ _ _ Hr1). destruct ok; cbn [negb]; [|by exists QCONF_ERR_ZOO_FAILED, s1, m1].
  destruct (zk_create_node_ok zh path value ZOO_EPHEMERAL s1 m1 Hs1 Hp) as (ret & s2 & m2 & Hr2 & Hs2 & Hg2 & Hex & _).
  rewrite (SM_bind_Some _ _ _ _ _ Hr2). eexists _, s2, m2. split; [done|]. split; [done|].
  split; [by apply (grows_trans _ m1)|]. intros Hret. split.
  - apply Hex. destruct (Z.eqb_spec ret QCONF_NODE_EXIST); auto.
  - eapply List.Forall_impl; [|by apply Hall]. intros pos Hpos. by apply (grows_some m1).
Qed.

(** ** Sorting *)

Lemma strcmp_eq a b : strcmp a b = 0 <-> a = b.
Proof.
  revert b. induction a as [|x a IH]; intros [|y b]; cbn [strcmp]; try done.
  destruct (Z.eqb_spec (b2z x) (b2z y)) as [E%b2z_inj|Hne].
  - rewrite IH. split; [by intros ->; rewrite E|by intros [= _ ->]].
  - split; [by destruct (b2z x <? b2z y)|]. intros [= -> _]. done.
Qed.

Lemma strcmp_antisym a b : strcmp a b <= 0 -> strcmp b a <= 0 -> a = b.
Proof.
  revert b. induction a as [|x a IH]; intros [|y b]; cbn [strcmp]; try lia; [done|].
  rewrite (Z.eqb_sym (b2z y)). destruct (Z.eqb_spec (b2z x) (b2z y)) as [E%b2z_inj|Hne].
  - intros H1 H2. rewrite E. f_equal. by apply IH.
  - destruct (Z.ltb_spec (b2z x) (b2z y)), (Z.ltb_spec (b2z y) (b2z x)); lia.
Qed.

Lemma strcmp_trans a b c : strcmp a b <= 0 -> strcmp b c <= 0 -> strcmp a c <= 0.
Proof.
  revert b c. induction a as [|x a IH]; intros [|y b] [|z c]; cbn [strcmp]; try lia.
  destruct (Z.eqb_spec (b2z x) (b2z y)), (Z.eqb_spec (b2z y) (b2z z)), (Z.eqb_spec (b2z x) (b2z z));
    try (destruct (Z.ltb_spec (b2z x) (b2z y))); try (destruct (Z.ltb_spec (b2z y) (b2z z)));
    try (destruct (Z.ltb_spec (b2z x) (b2z z))); try lia. apply IH.
Qed.

Lemma strcmp_total a b : strcmp a b <= 0 \/ strcmp b a <= 0.
Proof.
  revert b. induction a as [|x a IH]; intros [|y b]; cbn [strcmp]; try lia.
  rewrite (Z.eqb_sym (b2z y)). destruct (Z.eqb_spec (b2z x) (b2z y)); [apply IH|].
  destruct (Z.ltb_spec (b2z x) (b2z y)), (Z.ltb_spec (b2z y) (b2z x)); lia.
Qed.

Definition name_le (a b : bytes) : Prop := children_node_cmp a b <= 0.

Lemma insert_node_perm x l : insert_node x l ≡ₚ x :: l.
Proof.
  induction l as [|y l IH]; cbn [insert_node]; [done|]. destruct (children_node_cmp x y <=? 0); [done|].
  rewrite IH. apply Permutation_swap.
Qed.

Lemma sort_nodes_perm l : sort_nodes l ≡ₚ l.
Proof. induction l as [|x l IH]; [done|]. cbn [sort_nodes foldr]. by rewrite insert_node_perm, IH. Qed.

Lemma insert_node_sorted x l : StronglySorted name_le l -> StronglySorted name_le (insert_node x l).
Proof.
  induction 1 as [|y l Hs IH Hall]; cbn [insert_node]; [by repeat constructor|].
  destruct (Z.leb_spec (children_node_cmp x y) 0) as [Hle|Hgt].
  - constructor; [by constructor|]. constructor; [done|].
    eapply List.Forall_impl; [|exact Hall]. intros z Hz. by apply (strcmp_trans _ (c_str y)).
  - constructor; [done|]. rewrite insert_node_perm. constructor; [|done].
    destruct (strcmp_total (c_str x) (c_str y)); [unfold children_node_cmp in Hgt; lia|done].
Qed.

Lemma sort_nodes_sorted l : StronglySorted name_le (sort_nodes l).
Proof. induction l as [|x l IH]; [constructor|]. by apply insert_node_sorted. Qed.

Lemma sorted_unique l k :
  StronglySorted name_le l -> StronglySorted name_le k -> Forall (fun n => x00 ∉ n) l -> l ≡ₚ k -> l = k.
Proof.
  revert k. induction l as [|x l IH]; intros k Hl Hk Hn Hp; [by apply Permutation_nil_l in Hp|].
  destruct k as [|y k]; [by apply Permutation_nil_r in Hp|]. assert (Hn' : Forall (fun n => x00 ∉ n) (y :: k)) by by rewrite <- Hp.
  inversion_clear Hl as [|? ? Hsl Hal]. inversion_clear Hk as [|? ? Hsk Hak].
  assert (Hxy : name_le x y).
  { assert (Hin : y ∈ x :: l) by (rewrite Hp; left). apply elem_of_cons in Hin as [->|Hin].
    - unfold name_le, children_node_cmp. assert (strcmp (c_str x) (c_str x) = 0) by by apply strcmp_eq. lia.
    - rewrite List.Forall_forall in Hal. apply Hal. by apply list_elem_of_In. }
  assert (Hyx : name_le y x).
  { assert (Hin : x ∈ y :: k) by (rewrite <- Hp; left). apply elem_of_cons in Hin as [->|Hin].
    - unfold name_le, children_node_cmp. assert (strcmp (c_str y) (c_str y) = 0) by by apply strcmp_eq. lia.
    - rewrite List.Forall_forall in Hak. apply Hak. by apply list_elem_of_In. }
  apply Forall_cons in Hn as [Hx Hn]. apply Forall_cons in Hn' as [Hy _].
  assert (x = y) as <-.
  { pose proof (strcmp_antisym _ _ Hxy Hyx) as E. by rewrite !c_str_no_nul in E. }
  f_equal. apply IH; try done. by apply Permutation_cons_inv in Hp.
Qed.

(** The children of a node are delivered in [strcmp] order, so the result does not depend on the order in
    which ZooKeeper returns them: two replies with the same names give the same vector, hence the same
    table value. *)
Theorem chdnodes_canonical (names names' : list bytes) :
  names ≡ₚ names' -> Forall (fun n => x00 ∉ n) names ->
  vector_of (sort_nodes names) = vector_of (sort_nodes names') /\
  StronglySorted name_le (sort_nodes names) /\ sort_nodes names ≡ₚ names.
Proof.
  intros Hp Hn. split; [|split; [apply sort_nodes_sorted|apply sort_nodes_perm]]. f_equal.
  apply sorted_unique; [apply sort_nodes_sorted..| |].
  - by rewrite sort_nodes_perm.
  - by rewrite !sort_nodes_perm.
Qed.
(** ** Children and their status *)

(** The names of the children of a node. *)
Definition children_of (m : gmap bytes bytes) (path : bytes) (names : list bytes) : Prop :=
  NoDup names /\ forall n, n ∈ names <-> n <> [] /\ (x2f ∉ n) /\ (x00 ∉ n) /\ is_Some (m !! (path ++ [x2f] ++ n)).

Lemma zk_get_chdnodes_ok zh path nodes s m :
  zk_tree s zh m -> (x00 ∉ path) ->
  exists ret v s', zk_get_chdnodes zh path nodes s = Some ((ret, v), s') /\ zk_tree s' zh m /\
    (ret = QCONF_OK -> exists names, children_of m path names /\ v = vector_of (sort_nodes names)) /\
    (ret = QCONF_NODE_NOT_EXIST -> m !! path = None) /\
    (ret = QCONF_OK \/ ret = QCONF_NODE_NOT_EXIST \/ ret = QCONF_ERR_ZOO_FAILED \/ ret = QCONF_ERR_PARAM).
Proof.
  intros Hs Hp. unfold zk_get_chdnodes. rewrite c_str_no_nul by done.
  destruct ((zh =? 0) || bool_decide (path = [])); [exists QCONF_ERR_PARAM, nodes, s; split_and!; try done; auto|].
  set (f := fun '(ret, names) => _).
  destruct (retry_ok (fun k => zk_tree k zh m)
    (fun a _ => (a.1 = ZOK -> children_of m path a.2) /\ (a.1 = ZNONODE -> m !! path = None))
    QCONF_GET_RETRIES (zoo_get_children zh path true) f (QCONF_ERR_ZOO_FAILED, nodes) s Hs) as ([ret v] & s' & Hrun & Hs' & Hres).
  { intros k Hk. destruct (zoo_get_children_ok zh path true k m Hk) as (ret & d & k' & ? & ? & ? & ?). exists (ret, d), k'. auto. }
  exists ret, v, s'. split; [done|]. split; [done|].
  destruct Hres as [[= -> ->]|([zr d] & (H1 & H2) & E)]; [split_and!; try done; auto|]. unfold f in E. cbn [fst snd] in *.
  destruct (Z.eqb_spec zr ZOK) as [Ez|_]; [injection E as <- <-; split_and!; try done; eauto|].
  destruct (Z.eqb_spec zr ZNONODE) as [Ez|_]; [injection E as <- <-; split_and!; try done; auto|].
  destruct (transient zr); [done|]. injection E as <- <-. split_and!; try done; auto.
Qed.

(** The status a service node's value stands for. *)
Definition status_of (v : bytes) (st : Z) : Prop :=
  (get_integer v STATUS_UNKNOWN).2 = st /\ (st = STATUS_UP \/ st = STATUS_DOWN \/ st = STATUS_OFFLINE).

Lemma service_status_ok zh path st0 s m :
  zk_tree s zh m -> (x00 ∉ path) ->
  exists ret st s', zk_get_service_status zh path st0 s = Some ((ret, st), s') /\ zk_tree s' zh m /\
    (ret = QCONF_OK -> exists v, m !! path = Some v /\ status_of v st).
Proof.
  intros Hs Hp. unfold zk_get_service_status. destruct ((zh =? 0) || bool_decide (path = [])); [by exists QCONF_ERR_PARAM, st0, s|].
  destruct (zk_get_node_ok zh path [] true s m Hs Hp) as (ret & v & s' & Hrun & Hs' & Hok & _).
  rewrite (SM_bind_Some _ _ _ _ _ Hrun). cbv beta iota. destruct (Z.eqb_spec ret QCONF_OK) as [E|]; [|by exists QCONF_ERR_OTHER, st0, s'].
  destruct (get_integer v STATUS_UNKNOWN) as [r value] eqn:Eg.
  destruct ((value =? STATUS_UP) || (value =? STATUS_DOWN) || (value =? STATUS_OFFLINE)) eqn:Es; [|by exists QCONF_ERR_OTHER, st0, s'].
  exists QCONF_OK, value, s'. split; [done|]. split; [done|]. intros _. exists v. split; [by apply Hok|]. split; [by rewrite Eg|].
  rewrite !orb_true_iff, !Z.eqb_eq in Es. tauto.
Qed.

Lemma status_loop_ok zh path names sts s m :
  zk_tree s zh m -> (x00 ∉ path) -> Forall (fun n => x00 ∉ n) names ->
  exists ret sts' s', status_loop zh path (Some <$> names) sts s = Some ((ret, sts'), s') /\ zk_tree s' zh m /\
    (ret = QCONF_OK \/ ret = QCONF_ERR_OTHER) /\
    (ret = QCONF_OK -> exists new, sts' = sts ++ new /\
       Forall2 (fun n st => exists v, m !! (path ++ [x2f] ++ n) = Some v /\ status_of v st) names new).
Proof.
  intros Hs Hp Hn. revert sts s Hs. induction Hn as [|n names Hn Hall IH]; intros sts s Hs; cbn [fmap list_fmap status_loop].
  - exists QCONF_OK, sts, s. split; [done|]. split; [done|]. split; [by left|]. intros _. exists []. by rewrite app_nil_r.
  - rewrite c_str_no_nul by done.
    destruct (service_status_ok zh (path ++ [x2f] ++ n) 0 s m Hs) as (ret & st & s1 & Hrun & Hs1 & Hok).
    { rewrite !not_elem_of_app. split; [done|]. split; [|done]. by rewrite list_elem_of_singleton. }
    rewrite (SM_bind_Some _ _ _ _ _ Hrun). cbv beta iota. destruct (Z.eqb_spec ret QCONF_OK) as [E|]; cbn [negb];
      [|eexists QCONF_ERR_OTHER, _, s1; split; [reflexivity|]; split; [done|]; split; [by right|done]].
    destruct (IH (sts ++ [st]) s1 Hs1) as (ret2 & sts2 & s2 & Hr2 & Hs2 & Hc2 & Hok2). exists ret2, sts2, s2. do 3 (split; [done|]).
    intros E2. destruct (Hok2 E2) as (new & -> & Hf). exists (st :: new). rewrite <- app_assoc. split; [done|]. constructor; auto.
Qed.

Lemma chdnodes_with_status_ok zh path nodes sts s m :
  zk_tree s zh m -> (x00 ∉ path) ->
  exists ret v sts' s', zk_get_chdnodes_with_status zh path nodes sts s = Some ((ret, v, sts'), s') /\ zk_tree s' zh m /\
    (ret = QCONF_OK -> exists names, children_of m path names /\ v = vector_of (sort_nodes names) /\
       Forall2 (fun n st => exists val, m !! (path ++ [x2f] ++ n) = Some val /\ status_of val st) (sort_nodes names) sts') /\
    (ret = QCONF_NODE_NOT_EXIST -> m !! path = None).
Proof.
  intros Hs Hp. unfold zk_get_chdnodes_with_status.
  destruct ((zh =? 0) || bool_decide (path = [])); [by exists QCONF_ERR_PARAM, nodes, sts, s|].
  destruct (zk_get_chdnodes_ok zh path nodes s m Hs Hp) as (ret & v & s1 & Hrun & Hs1 & Hok & Hno & _).
  rewrite (SM_bind_Some _ _ _ _ _ Hrun). cbv beta iota. destruct (Z.eqb_spec ret QCONF_OK) as [E|Hne]; [|by exists ret, v, sts, s1].
  destruct (Hok E) as (names & Hch & ->). cbn [sv_data vector_of].
  destruct (status_loop_ok zh path (sort_nodes names) [] s1 m Hs1 Hp) as (ret2 & sts2 & s2 & Hr2 & Hs2 & Hc2 & Hok2).
  { rewrite sort_nodes_perm. apply Forall_forall. intros n Hn. by apply Hch in Hn as (_ & _ & ? & _). }
  rewrite (SM_bind_Some _ _ _ _ _ Hr2). exists ret2, (vector_of (sort_nodes names)), sts2, s2. split; [done|]. split; [done|]. split.
  - intros E2. destruct (Hok2 E2) as (new & -> & Hf). exists names. done.
  - intros E2. destruct Hc2 as [Hc|Hc]; by rewrite Hc in E2.
Qed.

(** Whenever the children of a service are read with their status, the names are all the children of
    the node and each status is the one its value spells, one of up, down and offline; a child with any
    other value makes the whole call fail. *)
Theorem chdnodes_with_status zh path nodes sts s m :
  zk_tree s zh m -> (x00 ∉ path) ->
  exists ret v sts' s', zk_get_chdnodes_with_status zh path nodes sts s = Some ((ret, v, sts'), s') /\ zk_tree s' zh m /\
    (ret = QCONF_OK -> exists names, children_of m path names /\ v = vector_of (sort_nodes names) /\
       Forall2 (fun n st => exists val, m !! (path ++ [x2f] ++ n) = Some val /\ status_of val st) (sort_nodes names) sts') /\
    (ret = QCONF_NODE_NOT_EXIST -> m !! path = None).
Proof. apply chdnodes_with_status_ok. Qed.

(** ** The children in order, and their status *)

(** The children of a node in the order in which they are delivered; and the status each one spells. *)
Definition sorted_children (m : gmap bytes bytes) (path : bytes) (names : list bytes) : Prop :=
  children_of m path names /\ StronglySorted name_le names.
Definition statuses (m : gmap bytes bytes) (path : bytes) (names : list bytes) (sts : list Z) : Prop :=
  Forall2 (fun n st => exists v, m !! (path ++ [x2f] ++ n) = Some v /\ status_of v st) names sts.

Lemma sort_children m path names : children_of m path names -> sorted_children m path (sort_nodes names).
Proof.
  intros [Hd Hc]. split; [split|apply sort_nodes_sorted]; [by rewrite sort_nodes_perm|].
  intros n. by rewrite sort_nodes_perm.
Qed.

Lemma children_no_nul m path names : children_of m path names -> Forall (fun n => x00 ∉ n) names.
Proof. intros [_ Hc]. apply Forall_forall. intros n Hn. by apply Hc in Hn as (_ & _ & ? & _). Qed.

Lemma sorted_children_unique m path names names' :
  sorted_children m path names -> sorted_children m path names' -> names = names'.
Proof.
  intros [Hc Hs] [Hc' Hs']. apply sorted_unique; [done|done|by eapply children_no_nul|].
  apply NoDup_Permutation; [apply Hc|apply Hc'|]. intros n. destruct Hc as [_ Hc], Hc' as [_ Hc']. by rewrite Hc, Hc'.
Qed.

Lemma statuses_unique m path names sts sts' : statuses m path names sts -> statuses m path names sts' -> sts = sts'.
Proof.
  intros H1. revert sts'. induction H1 as [|n st names sts (v & Hv & [<- _]) _ IH]; intros sts' H2; inversion H2 as [|? st' ? ? (v' & Hv' & [<- _])].
  - done.
  - rewrite Hv in Hv'. injection Hv' as ->. f_equal. by apply IH.
Qed.

(** ** A session that is up

    While it lasts ([I]), reading ends in a value, in names or in the answer that there is no such node. *)
Record session_up (zh : Z) (I : K -> Prop) : Prop := {
  up_get : forall k p, I k -> exists ret d k', zoo_get zh p true k = Some ((ret, d), k') /\ (ret = ZOK \/ ret = ZNONODE) /\ I k';
  up_children : forall k p, I k ->
    exists ret ns k', zoo_get_children zh p true k = Some ((ret, ns), k') /\ (ret = ZOK \/ ret = ZNONODE) /\ I k'
}.

Section Up.
Variables (zh : Z) (I : K -> Prop) (m : gmap bytes bytes).
Hypotheses (Hup : session_up zh I) (Hbuf : zk_get_node_buf_ = true) (Hzh : zh <> 0).

Lemma get_node_up path buf v s :
  I s -> zk_tree s zh m -> (x00 ∉ path) -> m !! path = Some v ->
  exists s', zk_get_node zh path buf true s = Some ((QCONF_OK, v), s') /\ zk_tree s' zh m /\ I s'.
Proof.
  intros Hi Ht Hp Hv. destruct (up_get _ _ Hup s path Hi) as (ret & d & s' & Hget & Hret & Hi').
  destruct (zoo_get_ok zh path true s m Ht) as (r & d' & k & Hget' & Ht' & Hok & Hno).
  rewrite Hget in Hget'. injection Hget' as <- <- <-. exists s'.
  unfold zk_get_node. rewrite Hbuf, c_str_no_nul by done. cbn [negb QCONF_GET_RETRIES retry].
  rewrite (SM_bind_Some _ _ _ _ _ Hget). destruct Hret as [->| ->]; [|by rewrite Hno in Hv].
  rewrite Hok in Hv by done. by injection Hv as <-.
Qed.

Lemma service_status_up path st0 v st s :
  I s -> zk_tree s zh m -> (x00 ∉ path) -> path <> [] -> m !! path = Some v -> status_of v st ->
  exists s', zk_get_service_status zh path st0 s = Some ((QCONF_OK, st), s') /\ zk_tree s' zh m /\ I s'.
Proof.
  intros Hi Ht Hp Hne Hv [Hg Hst]. destruct (get_node_up path [] v s Hi Ht Hp Hv) as (s' & Hget & Ht' & Hi').
  exists s'. split; [|done]. unfold zk_get_service_status. destruct (Z.eqb_spec zh 0); [done|].
  rewrite bool_decide_eq_false_2 by done. cbn [orb]. rewrite (SM_bind_Some _ _ _ _ _ Hget). cbv beta iota.
  cbn [Z.eqb QCONF_OK]. destruct (get_integer v STATUS_UNKNOWN) as [r value]. cbn [snd] in Hg. subst value.
  replace ((st =? STATUS_UP) || (st =? STATUS_DOWN) || (st =? STATUS_OFFLINE)) with true; [done|].
  symmetry. rewrite !orb_true_iff, !Z.eqb_eq. tauto.
Qed.

Lemma status_loop_up path names new sts s :
  I s -> zk_tree s zh m -> (x00 ∉ path) -> Forall (fun n => x00 ∉ n) names -> statuses m path names new ->
  exists s', status_loop zh path (Some <$> names) sts s = Some ((QCONF_OK, sts ++ new), s') /\ zk_tree s' zh m /\ I s'.
Proof.
  intros Hi Ht Hp Hn Hst. revert sts s Hi Ht Hn. induction Hst as [|n st names new (v & Hv & Hs) _ IH]; intros sts s Hi Ht Hn.
  - exists s. by rewrite app_nil_r.
  - apply Forall_cons in Hn as [Hn0 Hn]. cbn [fmap list_fmap status_loop]. rewrite c_str_no_nul by done.
    destruct (service_status_up (path ++ [x2f] ++ n) 0 v st s) as (s1 & Hr1 & Ht1 & Hi1); try done.
    { rewrite !not_elem_of_app. split; [done|]. split; [|done]. by rewrite list_elem_of_singleton. }
    { by destruct path. }
    rewrite (SM_bind_Some _ _ _ _ _ Hr1). cbv beta iota. cbn [Z.eqb QCONF_OK negb].
    destruct (IH (sts ++ [st]) s1 Hi1 Ht1 Hn) as (s2 & Hr2 & ?). exists s2. by rewrite Hr2, <- app_assoc.
Qed.

Lemma chdnodes_up path nodes s :
  I s -> zk_tree s zh m -> (x00 ∉ path) -> path <> [] -> is_Some (m !! path) ->
  exists names s', zk_get_chdnodes zh path nodes s = Some ((QCONF_OK, vector_of names), s') /\ zk_tree s' zh m /\ I s' /\
    sorted_children m path names.
Proof.
  intros Hi Ht Hp Hne [v Hv]. destruct (up_children _ _ Hup s path Hi) as (ret & ns & s' & Hget & Hret & Hi').
  destruct (zoo_get_children_ok zh path true s m Ht) as (r & ns' & k & Hget' & Ht' & Hok & Hno).
  rewrite Hget in Hget'. injection Hget' as <- <- <-.
  unfold zk_get_chdnodes. destruct (Z.eqb_spec zh 0); [done|]. rewrite bool_decide_eq_false_2, c_str_no_nul by done.
  cbn [orb QCONF_GET_RETRIES retry]. rewrite (SM_bind_Some _ _ _ _ _ Hget). destruct Hret as [->| ->]; [|by rewrite Hno in Hv].
  exists (sort_nodes ns), s'. do 3 (split; [done|]). apply sort_children. by apply Hok.
Qed.

Lemma chdnodes_with_status_up path nodes sts0 names sts s :
  I s -> zk_tree s zh m -> (x00 ∉ path) -> path <> [] -> is_Some (m !! path) ->
  sorted_children m path names -> statuses m path names sts ->
  exists s', zk_get_chdnodes_with_status zh path nodes sts0 s = Some ((QCONF_OK, vector_of names, sts), s') /\ zk_tree s' zh m /\ I s'.
Proof.
  intros Hi Ht Hp Hne Hm Hc Hst. destruct (chdnodes_up path nodes s) as (names' & s1 & Hr1 & Ht1 & Hi1 & Hc'); try done.
  assert (names' = names) as -> by by eapply sorted_children_unique.
  destruct (status_loop_up path names sts [] s1) as (s2 & Hr2 & ?); try done; [by eapply children_no_nul, Hc|].
  exists s2. split; [|done]. unfold zk_get_chdnodes_with_status. destruct (Z.eqb_spec zh 0); [done|].
  rewrite bool_decide_eq_false_2 by done. cbn [orb]. rewrite (SM_bind_Some _ _ _ _ _ Hr1). cbv beta iota.
  cbn [Z.eqb QCONF_OK vector_of sv_data]. by rewrite (SM_bind_Some _ _ _ _ _ Hr2).
Qed.

(** A child that spells no status makes the call fail. *)
Lemma chdnodes_with_status_bad path nodes sts0 s :
  I s -> zk_tree s zh m -> (x00 ∉ path) -> path <> [] -> is_Some (m !! path) ->
  (forall names sts, sorted_children m path names -> ~ statuses m path names sts) ->
  exists v sts s', zk_get_chdnodes_with_status zh path nodes sts0 s = Some ((QCONF_ERR_OTHER, v, sts), s') /\ zk_tree s' zh m.
Proof.
  intros Hi Ht Hp Hne Hm Hbad. destruct (chdnodes_up path nodes s) as (names & s1 & Hr1 & Ht1 & Hi1 & Hc); try done.
  destruct (status_loop_ok zh path names [] s1 m Ht1 Hp) as (ret & sts & s2 & Hr2 & Ht2 & Hret & Hok); [by eapply children_no_nul, Hc|].
  exists (vector_of names), sts, s2. split; [|done]. unfold zk_get_chdnodes_with_status. destruct (Z.eqb_spec zh 0); [done|].
  rewrite bool_decide_eq_false_2 by done. cbn [orb]. rewrite (SM_bind_Some _ _ _ _ _ Hr1). cbv beta iota.
  cbn [Z.eqb QCONF_OK vector_of sv_data]. rewrite (SM_bind_Some _ _ _ _ _ Hr2). destruct Hret as [E| ->]; [|done].
  destruct (Hok E) as (new & -> & Hst). by destruct (Hbad names new Hc).
Qed.
End Up.
End WithZk.

(** ** A ZooKeeper in memory: a tree, and calls that always go through *)

Definition is_child (path q : bytes) : bool :=
  bool_decide (take (length path + 1) q = path ++ [x2f]) && (length path + 1 <? length q)%nat &&
  bool_decide (x2f ∉ drop (length path + 1) q) && bool_decide (x00 ∉ drop (length path + 1) q).

Definition child_names (m : gmap bytes bytes) (path : bytes) : list bytes :=
  (fun kv => drop (length path + 1) kv.1) <$> filter (fun kv => is_child path kv.1 = true) (map_to_list m).

#[export] Instance mem_zk : Zk (gmap bytes bytes) := {|
  zookeeper_init _ _ := mret 1;
  zookeeper_close _ := mret tt;
  zoo_state _ := mret 3;
  zoo_get _ p _ := fun m => Some (match m !! p with Some v => (ZOK, Some v) | None => (ZNONODE, None) end, m);
  zoo_create _ p v _ := fun m =>
    match m !! p with
    | Some _ => Some (ZNODEEXISTS, m)
    | None => if blen v <? QCONF_MAX_VALUE_SIZE then Some (ZOK, <[p := v]> m) else Some (ZBADARGUMENTS, m)
    end;
  zoo_get_children _ p _ := fun m => Some (match m !! p with Some _ => (ZOK, child_names m p) | None => (ZNONODE, []) end, m);
  zoo_exists _ p _ := fun m => Some (match m !! p with Some _ => ZOK | None => ZNONODE end, m)
|}.

#[export] Instance mem_write : ZkWrite (gmap bytes bytes) := {|
  zoo_set _ p v := fun m =>
    match m !! p with
    | Some _ => if blen v <? QCONF_MAX_VALUE_SIZE then Some (ZOK, <[p := v]> m) else Some (ZBADARGUMENTS, m)
    | None => Some (ZNONODE, m)
    end;
  zoo_delete _ p := fun m =>
    match m !! p with
    | Some _ => if decide (child_names m p = []) then Some (ZOK, delete p m) else Some (ZNOTEMPTY, m)
    | None => Some (ZNONODE, m)
    end;
  zoo_create_seq _ p v _ := fun m => let q := p ++ str "0000000001" in Some ((ZOK, q), <[q := v]> m)
|}.

Lemma is_child_eq path q :
  is_child path q = true <-> exists n, q = path ++ [x2f] ++ n /\ n <> [] /\ (x2f ∉ n) /\ (x00 ∉ n).
Proof.
  unfold is_child. rewrite !andb_true_iff, !bool_decide_eq_true, Nat.ltb_lt. split.
  - intros (((Ht & Hl) & Hs) & Hz). exists (drop (length path + 1) q). split.
    + rewrite app_assoc, <- Ht. by rewrite take_drop.
    + split; [|done]. intros E. apply (f_equal length) in E. rewrite length_drop in E. simpl in E. lia.
  - intros (n & -> & Hn & Hs & Hz). replace (length path + 1)%nat with (length (path ++ [x2f])) by (rewrite length_app; simpl; lia).
    rewrite app_assoc, take_app_length, drop_app_length. split_and!; try done. rewrite !length_app. simpl. destruct n; [done|simpl; lia].
Qed.

Lemma child_names_ok m path : children_of m path (child_names m path).
Proof.
  assert (Hd : forall n, drop (length path + 1) (path ++ [x2f] ++ n) = n).
  { intros n. replace (length path + 1)%nat with (length (path ++ [x2f])) by (rewrite length_app; simpl; lia).
    by rewrite app_assoc, drop_app_length. }
  split.
  - unfold child_names. apply NoDup_fmap_2_strong.
    + intros [q v] [q' v'] (Hc & Hq)%list_elem_of_filter (Hc' & Hq')%list_elem_of_filter E. cbn [fst] in *.
      apply is_child_eq in Hc as (n & -> & _). apply is_child_eq in Hc' as (n' & -> & _). rewrite !Hd in E. subst n'.
      apply elem_of_map_to_list in Hq, Hq'. congruence.
    + apply NoDup_filter, NoDup_map_to_list.
  - intros n. unfold child_names. rewrite list_elem_of_fmap. split.
    + intros ([q v] & -> & (Hc & Hq)%list_elem_of_filter). cbn [fst] in *. apply is_child_eq in Hc as (n' & -> & ? & ? & ?).
      rewrite Hd. apply elem_of_map_to_list in Hq. split_and!; try done.
    + intros (Hn & Hs & Hz & (v & Hv)). exists (path ++ [x2f] ++ n, v). cbn [fst]. rewrite Hd. split; [done|].
      apply list_elem_of_filter. split; [|by apply elem_of_map_to_list]. apply is_child_eq. by exists n.
Qed.

Definition small_tree (m : gmap bytes bytes) : Prop := map_Forall (fun _ v => blen v < QCONF_MAX_VALUE_SIZE) m.

#[export] Program Instance mem_zk_laws : ZkLaws (gmap bytes bytes) :=
  {| zk_tree k zh m := k = m /\ small_tree m; zk_serves k h m := k = m /\ small_tree m |}.
Next Obligation. by intros k zh m [-> ?]. Qed.
Next Obligation. intros zh p w k m [-> Hm]. cbn. destruct (m !! p) eqn:E; eexists _, _, m; by split_and!. Qed.
Next Obligation.
  intros zh p v f k m [-> Hm]. cbn. destruct (m !! p) eqn:E; [|destruct (Z.ltb_spec (blen v) QCONF_MAX_VALUE_SIZE)];
    eexists _, _, _; (split; [done|]).
  - split; [done|]. split; auto.
  - split; [by split; [|apply map_Forall_insert_2]|]. split; auto. intros _. rewrite lookup_insert_eq. by eexists.
  - split; [done|]. split; [auto|]. by intros [?|?].
Qed.
Next Obligation.
  intros zh p w k m [-> Hm]. cbn. destruct (m !! p) eqn:E; eexists _, _, m; (split; [done|]); split; try done; split; try done.
  intros _. apply child_names_ok.
Qed.
Next Obligation.
  intros zh p w k m [-> Hm]. cbn. destruct (m !! p) eqn:E; eexists _, m; split_and!; try done.
Qed.
Next Obligation. intros zh k m [-> Hm]. by exists 3, m. Qed.
Next Obligation. intros h t k m [-> Hm]. by exists 1, m. Qed.
Next Obligation. intros zh k _. by exists k. Qed.

(** A closed tree: its values are short by computation. *)
Ltac small_tree := split; [reflexivity|apply (bool_decide_unpack _); vm_compute; exact I].

Lemma chdnodes_canonical_witness :
  vector_of (sort_nodes [str "b"; str "a"]) = vector_of (sort_nodes [str "a"; str "b"]).
Proof.
  apply (chdnodes_canonical [str "b"; str "a"] [str "a"; str "b"]).
  - apply Permutation_swap.
  - repeat constructor; apply (bool_decide_unpack _); vm_compute; exact I.
Defined.

Lemma register_creates_path_witness :
  exists ret s' m', zk_register_ephemeral 1 (str "/a/b") (str "1.0") (∅ : gmap bytes bytes) = Some (ret, s') /\ zk_tree s' 1 m' /\
    (ret = QCONF_OK -> is_Some (m' !! str "/a/b")).
Proof.
  destruct (register_creates_path 1 (str "/a/b") (str "1.0") (∅ : gmap bytes bytes) ∅) as (ret & s' & m' & Hrun & Hs & _ & Hok);
    [small_tree|apply (bool_decide_unpack _); vm_compute; exact I|].
  exists ret, s', m'. split; [exact Hrun|]. split; [exact Hs|]. intros E. apply (Hok E).
Defined.

Lemma chdnodes_with_status_witness :
  let m : gmap bytes bytes := {[ str "/s" := []; str "/s/h" := str "0" ]} in
  exists ret v sts s', zk_get_chdnodes_with_status true 1 (str "/s") (SV 0 []) [] m = Some ((ret, v, sts), s') /\
    (ret = QCONF_OK -> exists names, children_of m (str "/s") names /\ v = vector_of (sort_nodes names)).
Proof.
  intros m. destruct (chdnodes_with_status true 1 (str "/s") (SV 0 []) [] m m) as (ret & v & sts & s' & Hrun & _ & Hok & _);
    [small_tree|apply (bool_decide_unpack _); vm_compute; exact I|].
  exists ret, v, sts, s'. split; [exact Hrun|]. intros E. destruct (Hok E) as (names & Hc & Hv & _). exists names. exact (conj Hc Hv).
Defined.
End Zoo.
