(* ===== verification/Gray.v ===== *)
(** * Gray release ([src/agent/qconf_gray.cc])

    An operator can give single machines a value of their own: the machine's notify node names a list of
    nodes with their gray values. The gray values override ZooKeeper until the notify node is deleted. *)

From S2P Require Import Prelude Common Text Format FormatThm Config Zoo.

Module Gray.
Import Format Zoo.

(** [std::map] and [std::set] of strings are walked in the order of their keys. *)
Definition in_order (l : list bytes) : list bytes :=
  foldr (fix ins x l := match l with [] => [x] | y :: l' => if strcmp x y <=? 0 then x :: l else y :: ins x l' end) [] l.

Lemma in_order_perm l : in_order l ≡ₚ l.
Proof.
  induction l as [|x l IH]; [done|]. cbn [in_order foldr]. fold (in_order l). rewrite <- IH at 2. generalize (in_order l) as k.
  induction k as [|y k IHk]; [done|]. destruct (strcmp x y <=? 0); [done|]. rewrite IHk. apply Permutation_swap.
Qed.

Record gray := mkGray { notify_node : bytes; gray_nodes : gmap bytes bytes }.

Definition QCONF_NOTIFY_CLIENT_PREFIX : bytes := str "/qconf/__qconf_notify/client".
Definition QCONF_NOTIFY_CONTENT_PREFIX : bytes := str "/qconf/__qconf_notify/content".

Definition is_notify_node (g : gray) (node_path : bytes) : bool := bool_decide (node_path = notify_node g).

Definition is_gray_node (g : gray) (mkey mval : bytes) : bool * bytes :=
  match gray_nodes g !! mkey with Some v => (true, v) | None => (false, mval) end.

(** [map::insert] keeps the value of a key that is already there. *)
Definition gray_nodes_set (nodes : list (bytes * bytes)) (m : gmap bytes bytes) : gmap bytes bytes :=
  foldl (fun m kv => match m !! kv.1 with Some _ => m | None => <[kv.1 := kv.2]> m end) m nodes.

Definition gray_nodes_get (m : gmap bytes bytes) (nodes : list (bytes * bytes)) : list (bytes * bytes) :=
  nodes ++ ((fun k => (k, default [] (m !! k))) <$> in_order (elements (dom m))).

Section WithZk.
Context {K : Type} `{Zk K}.
Variable buf_ok : bool.
Variable hostname : bytes.

Abbreviation GM := (SM (gray * K)).

Definition on_zk {A} (c : SM K A) : GM A := fun s =>
  match c (snd s) with Some (a, k) => Some (a, (fst s, k)) | None => None end.
Definition get_gray : GM gray := gets fst.
Definition set_gray (g : gray) : GM unit := modify (fun s => (g, snd s)).

Definition get_notify_path : GM unit :=
  g ← get_gray;
  set_gray (mkGray (QCONF_NOTIFY_CLIENT_PREFIX ++ str "/" ++ c_str hostname) (gray_nodes g)).

Definition need_notify_path : GM unit :=
  g ← get_gray;
  if decide (notify_node g = []) then get_notify_path else mret tt.

Definition watch_notify_node (zh : Z) : GM Z :=
  need_notify_path;;
  g ← get_gray;
  on_zk (zk_exists zh (notify_node g)).

(** The loop that collects the content nodes; it ends at the first index that does not exist. *)
Fixpoint content_loop (fuel : nat) (zh : Z) (pfx : bytes) (index : Z) (content : bytes) : GM (Z * bytes) :=
  match fuel with
  | O => undefined
  | S fuel' =>
      let content_node := pfx ++ str "_" ++ print_dec index in
      '(ret, tmp_content) ← on_zk (zk_get_node buf_ok zh content_node [] false);
      if ret =? QCONF_OK then content_loop fuel' zh pfx (index + 1) (content ++ tmp_content)
      else if ret =? QCONF_NODE_NOT_EXIST then mret (QCONF_OK, content)
      else mret (QCONF_ERR_OTHER, content)
  end.

(** The loop over the gray nodes of the content. *)
Fixpoint parse_nodes (vnodes : list bytes) (idc : bytes) (nodes : list (bytes * bytes)) : Z * list (bytes * bytes) :=
  match vnodes with
  | [] => (QCONF_OK, nodes)
  | i :: rest =>
      let '(ret, (gray_val, _, gray_path)) := tblval_to_nodeval_key i [] [] [] in
      if negb (ret =? QCONF_OK) then (QCONF_ERR_OTHER, nodes) else
      let tblkey := (serialize_to_tblkey QCONF_DATA_TYPE_NODE idc gray_path).2 in
      parse_nodes rest idc (nodes ++ [(tblkey, nodeval_to_tblval tblkey gray_val)])
  end.

Definition read_notify_content (fuel : nat) (zh : Z) (notify_id idc : bytes) (nodes : list (bytes * bytes))
    : GM (Z * list (bytes * bytes)) :=
  if decide (notify_id = []) then mret (QCONF_ERR_PARAM, nodes) else
  let pfx := QCONF_NOTIFY_CONTENT_PREFIX ++ str "/" ++ notify_id in
  '(ret, content) ← content_loop fuel zh pfx 0 [];
  if negb (ret =? QCONF_OK) then mret (QCONF_ERR_OTHER, nodes) else
  let '(ret, vnodes) := tblval_to_graynodeval content in
  if negb (ret =? QCONF_OK) then mret (QCONF_ERR_OTHER, nodes) else
  mret (parse_nodes (in_order (elements vnodes)) idc nodes).

Definition gray_process (fuel : nat) (zh : Z) (idc : bytes) (nodes : list (bytes * bytes)) : GM (Z * list (bytes * bytes)) :=
  if (zh =? 0) || bool_decide (idc = []) then mret (QCONF_ERR_PARAM, nodes) else
  need_notify_path;;
  g ← get_gray;
  '(ret, notify_id) ← on_zk (zk_get_node buf_ok zh (notify_node g) [] true);
  if ret =? QCONF_OK then
    '(ret, nodes) ← read_notify_content fuel zh notify_id idc nodes;
    if negb (ret =? QCONF_OK) then mret (QCONF_ERR_GRAY_GET_NOTIFY_CONTENT, nodes) else
    g ← get_gray;
    set_gray (mkGray (notify_node g) (gray_nodes_set nodes (gray_nodes g)));;
    mret (QCONF_OK, nodes)
  else if ret =? QCONF_NODE_NOT_EXIST then
    watch_notify_node zh;;
    g ← get_gray;
    let nodes := gray_nodes_get (gray_nodes g) nodes in
    set_gray (mkGray (notify_node g) ∅);;
    mret (QCONF_OK, nodes)
  else mret (QCONF_ERR_GRAY_GET_NOTIFY_NODE, nodes).

(** ** Theorems *)

Lemma on_zk_ok {A} (c : SM K A) g k a k' : c k = Some (a, k') -> on_zk c (g, k) = Some (a, (g, k')).
Proof. intros E. unfold on_zk. cbn. by rewrite E. Qed.

(** A gray node as the operator writes it: its own idc, its path, its value. *)
Record gray_entry := GE { ge_idc : bytes; ge_path : bytes; ge_val : bytes }.
Definition entry_ok (e : gray_entry) : Prop := blen (ge_idc e) < 256 /\ blen (ge_path e) < 65536 /\ blen (ge_val e) < 2 ^ 31.
Definition entry_bytes (e : gray_entry) : bytes :=
  nodeval_to_tblval (serialize_to_tblkey QCONF_DATA_TYPE_NODE (ge_idc e) (ge_path e)).2 (ge_val e).
Definition entry_node (idc : bytes) (e : gray_entry) : bytes * bytes :=
  let key := (serialize_to_tblkey QCONF_DATA_TYPE_NODE idc (ge_path e)).2 in (key, nodeval_to_tblval key (ge_val e)).

Lemma entry_read e : entry_ok e -> tblval_to_nodeval_key (entry_bytes e) [] [] [] = (QCONF_OK, (ge_val e, ge_idc e, ge_path e)).
Proof.
  intros (Hi & Hp & Hv). unfold entry_bytes, tblval_to_nodeval_key, nodeval_to_tblval, qconf_append_nodeval, qconf_sub_nodeval.
  rewrite append_field, app_nil_l, sub_first by width. cbn [Z.eqb negb QCONF_OK].
  set (key := (serialize_to_tblkey QCONF_DATA_TYPE_NODE (ge_idc e) (ge_path e)).2).
  assert (Ht : type_at (field QCONF_VALUE_SIZE_LEN (ge_val e) ++ key) (blen (field QCONF_VALUE_SIZE_LEN (ge_val e))) QCONF_DATA_TYPE_NODE = true).
  { unfold key. destruct (serialize_head QCONF_DATA_TYPE_NODE (ge_idc e) (ge_path e)) as (tl & ->). apply type_at_field. }
  rewrite Ht. cbn [negb]. unfold key. rewrite sub_idc_path_key; [done| |done]. split; [done|]. split; [done|by left].
Qed.

Lemma parse_nodes_ok es idc nodes :
  Forall entry_ok es -> parse_nodes (entry_bytes <$> es) idc nodes = (QCONF_OK, nodes ++ (entry_node idc <$> es)).
Proof.
  intros Hall. revert nodes. induction Hall as [|e es He Hall IH]; intros nodes; cbn [fmap list_fmap parse_nodes].
  - by rewrite app_nil_r.
  - rewrite entry_read by done. cbn [Z.eqb negb QCONF_OK]. rewrite IH, <- app_assoc. done.
Qed.

Context `{!ZkLaws K}.

Definition content_path (pfx : bytes) (i : Z) : bytes := pfx ++ str "_" ++ print_dec i.

(** The content nodes from index [i] on hold [chunks], and there are no more. *)
Fixpoint content_at (m : gmap bytes bytes) (pfx : bytes) (i : Z) (chunks : list bytes) : Prop :=
  match chunks with
  | [] => m !! content_path pfx i = None
  | c :: chunks' => m !! content_path pfx i = Some c /\ content_at m pfx (i + 1) chunks'
  end.

Lemma content_loop_ok fuel zh pfx i acc chunks g k m :
  zk_tree k zh m -> (x00 ∉ pfx) -> content_at m pfx i chunks -> (length chunks < fuel)%nat ->
  exists ret c k', content_loop fuel zh pfx i acc (g, k) = Some ((ret, c), (g, k')) /\ zk_tree k' zh m /\
    (ret = QCONF_OK -> c = acc ++ concat chunks).
Proof.
  intros Hk Hp. revert fuel i acc k Hk. induction chunks as [|c chunks IH]; intros fuel i acc k Hk Hc Hf;
    (destruct fuel as [|fuel]; [simpl in Hf; lia|]); cbn [content_loop];
    (destruct (zk_get_node_ok buf_ok zh (content_path pfx i) [] false k m Hk) as (ret & v & k1 & Hrun & Hk1 & Hok & Hno & Hbuf & Hcodes);
      [unfold content_path; rewrite !not_elem_of_app; split; [done|]; split; [by apply (bool_decide_unpack _)|apply print_no_nul]|]);
    unfold content_path in Hrun; rewrite (SM_bind_Some _ _ _ _ _ (on_zk_ok _ g _ _ _ Hrun)); cbv beta iota; cbn [content_at] in Hc.
  - destruct (Z.eqb_spec ret QCONF_OK) as [E|_]; [rewrite (Hok E) in Hc; done|].
    destruct (ret =? QCONF_NODE_NOT_EXIST); eexists _, _, k1; (split; [done|]); split; try done. intros _. by rewrite app_nil_r.
  - destruct Hc as [Hc Hrest]. destruct (Z.eqb_spec ret QCONF_OK) as [E|_].
    + rewrite (Hok E) in Hc. injection Hc as ->.
      destruct (IH fuel (i + 1) (acc ++ c) k1 Hk1 Hrest) as (ret2 & c2 & k2 & Hr2 & Hk2 & Hc2); [simpl in Hf; lia|].
      exists ret2, c2, k2. split; [done|]. split; [done|]. intros E2. rewrite (Hc2 E2). cbn [concat]. by rewrite app_assoc.
    + destruct (Z.eqb_spec ret QCONF_NODE_NOT_EXIST) as [E|_]; [rewrite (Hno E) in Hc; done|]. eexists _, _, k1. split; [done|]. by split.
Qed.

(** What was overridden keeps its value; the nodes come below, the first one of a key before the others. *)
Lemma gray_nodes_set_eq nodes m : gray_nodes_set nodes m = m ∪ list_to_map nodes.
Proof.
  revert m. induction nodes as [|[k v] nodes IH]; intros m; [cbn; by rewrite map_union_empty|].
  cbn [gray_nodes_set foldl fst snd]. fold (gray_nodes_set nodes (match m !! k with Some _ => m | None => <[k := v]> m end)).
  rewrite IH. cbn [list_to_map foldr fst snd]. apply map_eq. intros q. rewrite !lookup_union. destruct (m !! k) as [w|] eqn:Ek;
    (destruct (decide (q = k)) as [->|Hq]; [rewrite Ek, ?lookup_insert_eq; by destruct (list_to_map (M := gmap bytes bytes) nodes !! k)|by rewrite ?lookup_insert_ne by congruence]).
Qed.

(** A list of gray nodes in the form that [tblval_to_graynodeval] reads. *)
Definition gray_content (es : list gray_entry) : bytes :=
  le_bytes QCONF_VECTOR_COUNT_LEN (blen es) ++ gray_fields (entry_bytes <$> es).

Lemma gray_content_read es :
  Forall entry_ok es -> blen es < 65536 -> tblval_to_graynodeval (gray_content es) = (QCONF_OK, list_to_set (entry_bytes <$> es)).
Proof.
  intros Hall Hb. pose proof (gray_read (entry_bytes <$> es) []) as E. unfold gray_content.
  rewrite app_nil_r in E. replace (blen es) with (blen (entry_bytes <$> es)) by (unfold blen; by rewrite length_fmap).
  apply E; [unfold blen in *; by rewrite length_fmap|]. apply Forall_fmap. eapply Forall_impl; [exact Hall|].
  intros e (Hi & Hp & Hv). change (blen (entry_bytes e) < 2 ^ 32). unfold entry_bytes, nodeval_to_tblval, qconf_append_nodeval, serialize_to_tblkey.
  change (has_path QCONF_DATA_TYPE_NODE) with true. cbn [snd]. unfold qconf_append_path, qconf_append_idc.
  rewrite !append_field, !blen_app, !blen_field, blen_cons, !blen_nil. width.
Qed.

Lemma need_notify_path_ok g k : notify_node g <> [] -> need_notify_path (g, k) = Some (tt, (g, k)).
Proof. intros Hn. unfold need_notify_path, get_gray. erewrite SM_bind_Some; [|reflexivity]. cbn [fst]. by rewrite decide_False. Qed.

Lemma watch_notify_ok zh g k m :
  notify_node g <> [] -> zk_tree k zh m ->
  exists ret k', watch_notify_node zh (g, k) = Some (ret, (g, k')) /\ zk_tree k' zh m /\
    (ret = QCONF_OK \/ ret = QCONF_NODE_NOT_EXIST \/ ret = QCONF_ERR_ZOO_FAILED).
Proof.
  intros Hn Hk. unfold watch_notify_node. rewrite (SM_bind_Some _ _ _ _ _ (need_notify_path_ok g k Hn)).
  erewrite SM_bind_Some; [|reflexivity]. cbn [fst]. destruct (zk_exists_ok zh (notify_node g) k m Hk) as (ret & k' & Hrun & Hk' & Hres).
  exists ret, k'. split; [by apply on_zk_ok|done].
Qed.

(** Whether or not the notify path is known yet. *)
Lemma watch_notify_total zh g k m :
  zk_tree k zh m ->
  exists ret g' k', watch_notify_node zh (g, k) = Some (ret, (g', k')) /\ zk_tree k' zh m /\ gray_nodes g' = gray_nodes g.
Proof.
  intros Hk. destruct (decide (notify_node g = [])) as [E|Hn].
  - unfold watch_notify_node, need_notify_path, get_gray. erewrite SM_bind_Some;
      [|erewrite SM_bind_Some; [|reflexivity]; cbn [fst]; rewrite decide_True by done; unfold get_notify_path, get_gray;
        erewrite SM_bind_Some; [|reflexivity]; reflexivity].
    erewrite SM_bind_Some; [|reflexivity]. cbn [fst snd gray_nodes].
    set (g' := mkGray _ _). destruct (zk_exists_ok zh (notify_node g') k m Hk) as (ret & k' & Hrun & Hk' & _).
    exists ret, g', k'. split; [by apply on_zk_ok|done].
  - destruct (watch_notify_ok zh g k m Hn Hk) as (ret & k' & Hrun & Hk' & _). by exists ret, g, k'.
Qed.

Section Process.
Variables (fuel : nat) (zh : Z) (idc : bytes) (g : gray) (k : K) (m : gmap bytes bytes).
Hypotheses (Hk : zk_tree k zh m) (Hz : zh <> 0) (Hi : idc <> []) (Hn : notify_node g <> []) (Hnz : x00 ∉ notify_node g).

(** What [gray_process] does once it has read the notify node. *)
Lemma gray_start :
  exists ret id k1, zk_tree k1 zh m /\ (ret = QCONF_OK -> m !! notify_node g = Some id) /\
    (ret = QCONF_NODE_NOT_EXIST -> m !! notify_node g = None) /\
    gray_process fuel zh idc [] (g, k) =
    (if ret =? QCONF_OK then
      '(ret, nodes) ← read_notify_content fuel zh id idc [];
      if negb (ret =? QCONF_OK) then mret (QCONF_ERR_GRAY_GET_NOTIFY_CONTENT, nodes) else
      g ← get_gray; set_gray (mkGray (notify_node g) (gray_nodes_set nodes (gray_nodes g)));; mret (QCONF_OK, nodes)
    else if ret =? QCONF_NODE_NOT_EXIST then
      watch_notify_node zh;; g ← get_gray; let nodes := gray_nodes_get (gray_nodes g) [] in
      set_gray (mkGray (notify_node g) ∅);; mret (QCONF_OK, nodes)
    else mret (QCONF_ERR_GRAY_GET_NOTIFY_NODE, [])) (g, k1).
Proof.
  destruct (zk_get_node_ok buf_ok zh (notify_node g) [] true k m Hk Hnz) as (ret & id & k1 & Hrun & Hk1 & Hok & Hno & _ & _).
  exists ret, id, k1. do 3 (split; [done|]). unfold gray_process.
  rewrite (proj2 (Z.eqb_neq _ _) Hz), bool_decide_eq_false_2 by done. cbn [orb].
  rewrite (SM_bind_Some _ _ _ _ _ (need_notify_path_ok g k Hn)). erewrite SM_bind_Some; [|reflexivity]. cbn [fst].
  by rewrite (SM_bind_Some _ _ _ _ _ (on_zk_ok _ g _ _ _ Hrun)).
Qed.

Definition gray_applied (notify_id : bytes) (chunks : list bytes) (es : list gray_entry) : Prop :=
  m !! notify_node g = Some notify_id -> (x00 ∉ notify_id) -> notify_id <> [] ->
  content_at m (QCONF_NOTIFY_CONTENT_PREFIX ++ str "/" ++ notify_id) 0 chunks ->
  tblval_to_graynodeval (concat chunks) = (QCONF_OK, list_to_set (entry_bytes <$> es)) ->
  Forall entry_ok es -> NoDup (entry_bytes <$> es) -> (length chunks < fuel)%nat ->
  exists ret nodes g' k', gray_process fuel zh idc [] (g, k) = Some ((ret, nodes), (g', k')) /\ zk_tree k' zh m /\
    (ret = QCONF_OK -> nodes ≡ₚ entry_node idc <$> es /\ g' = mkGray (notify_node g) (gray_nodes g ∪ list_to_map nodes)) /\
    (ret <> QCONF_OK -> g' = g).

Lemma gray_applies notify_id chunks es : gray_applied notify_id chunks es.
Proof.
  destruct gray_start as (ret & id & k1 & Hk1 & Hok & Hno & Hstart). unfold gray_applied. rewrite Hstart. clear Hstart.
  intros Hm Hiz Hine Hcont Hcat Hes Hnd Hfuel.
  destruct (Z.eqb_spec ret QCONF_OK) as [E|Hne].
  + rewrite (Hok E) in Hm. injection Hm as ->. unfold read_notify_content. rewrite decide_False by done.
    destruct (content_loop_ok fuel zh (QCONF_NOTIFY_CONTENT_PREFIX ++ str "/" ++ notify_id) 0 [] chunks g k1 m Hk1) as
      (ret2 & c & k2 & Hr2 & Hk2 & Hc2); [|done|done|].
    { rewrite !not_elem_of_app. split; [by apply (bool_decide_unpack _)|]. split; [by apply (bool_decide_unpack _)|done]. }
    destruct (Z.eqb_spec ret2 QCONF_OK) as [E2|Hne2].
    * rewrite (Hc2 E2), app_nil_l in Hr2.
      destruct (@Permutation_map_inv _ _ entry_bytes (in_order (elements (list_to_set (C := gset bytes) (entry_bytes <$> es)))) es) as (es' & Ees & Hpe).
      { by rewrite in_order_perm, elements_list_to_set. }
      assert (Hread : parse_nodes (in_order (elements (list_to_set (C := gset bytes) (entry_bytes <$> es)))) idc [] =
                        (QCONF_OK, entry_node idc <$> es')).
      { rewrite Ees. apply (parse_nodes_ok es' idc []). by rewrite <- Hpe. }
      assert (Hnodes : (entry_node idc <$> es') ≡ₚ (entry_node idc <$> es)) by by rewrite <- Hpe.
      exists QCONF_OK, (entry_node idc <$> es'), (mkGray (notify_node g) (gray_nodes_set (entry_node idc <$> es') (gray_nodes g))), k2.
      split; [|split; [done|split; [|done]]].
      { erewrite SM_bind_Some; [|rewrite (SM_bind_Some _ _ _ _ _ Hr2); rewrite E2; cbn [Z.eqb negb QCONF_OK];
          rewrite Hcat; cbn [Z.eqb negb QCONF_OK]; rewrite Hread; reflexivity]. done. }
      intros _. split; [done|]. by rewrite gray_nodes_set_eq.
    * exists QCONF_ERR_GRAY_GET_NOTIFY_CONTENT, [], g, k2. split; [|by split].
      erewrite SM_bind_Some; [|rewrite (SM_bind_Some _ _ _ _ _ Hr2); rewrite (proj2 (Z.eqb_neq _ _) Hne2); reflexivity]. done.
  + destruct (Z.eqb_spec ret QCONF_NODE_NOT_EXIST) as [E|_]; [rewrite (Hno E) in Hm; done|].
    eexists _, _, g, k1. split; [done|]. by split.
Qed.

Lemma gray_withdraws :
  m !! notify_node g = None ->
  exists ret nodes g' k', gray_process fuel zh idc [] (g, k) = Some ((ret, nodes), (g', k')) /\ zk_tree k' zh m /\
    (ret = QCONF_OK -> gray_nodes g' = ∅ /\ forall key v, (key, v) ∈ nodes <-> gray_nodes g !! key = Some v) /\
    (ret <> QCONF_OK -> gray_nodes g' = gray_nodes g).
Proof.
  destruct gray_start as (ret & id & k1 & Hk1 & Hok & Hno & Hstart). rewrite Hstart. clear Hstart.
  intros Hm. destruct (Z.eqb_spec ret QCONF_OK) as [E|Hne]; [rewrite (Hok E) in Hm; done|].
  destruct (Z.eqb_spec ret QCONF_NODE_NOT_EXIST) as [E|_]; [|by eexists _, _, g, k1].
  destruct (watch_notify_ok zh g k1 m Hn Hk1) as (r2 & k2 & Hw & Hk2 & _).
  rewrite (SM_bind_Some _ _ _ _ _ Hw). exists QCONF_OK, (gray_nodes_get (gray_nodes g) []), (mkGray (notify_node g) ∅), k2. split; [reflexivity|]. split; [done|]. split; [|done].
  intros _. split; [done|]. intros key v. cbn [fst]. unfold gray_nodes_get. rewrite app_nil_l, list_elem_of_fmap. split.
  + intros (q & [= -> ->] & Hq). rewrite in_order_perm, elem_of_elements, elem_of_dom in Hq. destruct Hq as [w Hw']. by rewrite Hw'.
  + intros Hl. exists key. rewrite Hl. split; [done|]. rewrite in_order_perm, elem_of_elements, elem_of_dom. by eexists.
Qed.
End Process.

End WithZk.

End Gray.
