(* ===== verification/Script.v ===== *)
(** * Scripts that run when a node changes ([src/agent/qconf_script.cc])

    The script of a path is the file named after it, or after its closest ancestor that has one. The
    calls into the system are a class of operations on its state, shared with the feedback. *)

From S2P Require Import Prelude Common Text.

Class Host (W : Type) := {
  host_sigaction : SM W unit;
  host_pipe : SM W Z;                              (* 0, or negative *)
  host_fork : bytes -> SM W Z;                     (* the child runs the text with sh -c; pid, or negative *)
  host_select : Z * Z -> SM W (Z * Z * (Z * Z));   (* time left in s and us; result, errno, time left *)
  host_close : SM W unit;
  host_kill : Z -> SM W unit;                      (* SIGKILL to a process, or to a group when negative *)
  host_readable : bytes -> SM W bool;              (* access for reading *)
  host_read : bytes -> SM W (option bytes);        (* the whole file; None when it cannot be opened *)
  host_name : SM W (option bytes);                 (* gethostname *)
  host_sockname : Z -> SM W (option bytes);        (* the local address of a ZooKeeper handle, as text *)
  host_time : SM W Z;
  curl_perform : bytes -> SM W (Z * list bytes);   (* post the text; code, the pieces of the answer *)
  host_usleep : Z -> SM W unit
}.

(** The files of the machine, as the lookup of scripts sees them. *)
Class HostFiles (W : Type) `{Host W} := {
  host_files : W -> gmap bytes bytes -> Prop;
  host_readable_ok : forall f w m, host_files w m ->
    exists w', host_readable f w = Some (bool_decide (is_Some (m !! f)), w') /\ host_files w' m;
  host_read_ok : forall f w m, host_files w m -> exists w', host_read f w = Some (m !! f, w') /\ host_files w' m
}.

Module Script.
Section WithHost.
Context {W : Type} `{Host W}.
Abbreviation WM := (SM W).

Definition QCONF_SCRIPT_DIR : bytes := str "/script/".
Definition QCONF_SCRIPT_SEPARATOR : byte := x23.
Definition QCONF_SCRIPT_SUFFIX : bytes := str ".sh".

(** The new [_qconf_script_dir]. *)
Definition qconf_init_script_dir (agent_dir : bytes) : bytes := agent_dir ++ QCONF_SCRIPT_DIR.

(** ** Finding the script of a path *)

Definition script_content_read (path script : bytes) : WM (Z * bytes) :=
  if decide (path = []) then mret (QCONF_ERR_PARAM, script) else
  content ← host_read (c_str path);
  match content with
  | None => mret (QCONF_ERR_OTHER, script)
  | Some content => mret (QCONF_OK, content)
  end.

(** The search: the path of the file that was found, and [script_path]. *)
Fixpoint search_loop (fuel : nat) (script_path : bytes) (index : nat) : WM (option bytes) :=
  match fuel with
  | O => undefined
  | S fuel' =>
      let script_path := take index script_path in
      let file_path := script_path ++ QCONF_SCRIPT_SUFFIX in
      ok ← host_readable (c_str file_path);
      if (ok : bool) then mret (Some file_path) else
      match rfind QCONF_SCRIPT_SEPARATOR script_path with
      | Some index => search_loop fuel' script_path index
      | None => mret None
      end
  end.

Definition find_script (qconf_script_dir path script : bytes) : WM (Z * bytes) :=
  match path with
  | [] => mret (QCONF_ERR_PARAM, script)
  | c :: path' =>
      if decide (qconf_script_dir = []) then mret (QCONF_ERR_SCRIPT_DIR_NOT_INIT, script) else
      let tmp_path := if decide (c = x2f) then path' else path in
      let tmp_path := (fun b => if decide (b = x2f) then QCONF_SCRIPT_SEPARATOR else b) <$> tmp_path in
      let script_path := qconf_script_dir ++ tmp_path in
      file ← search_loop (S (length script_path)) script_path (length script_path);
      match file with
      | None => mret (QCONF_ERR_SCRIPT_NOT_EXIST, script)
      | Some file_path =>
          '(ret, script) ← script_content_read file_path script;
          if negb (ret =? QCONF_OK) then mret (QCONF_ERR_FAILED_READ_FILE, script) else mret (QCONF_OK, script)
      end
  end.

(** ** Running a script *)

(** The loop on [select]; its result when it leaves the loop. *)
Fixpoint select_loop (fuel : nat) (timeout : Z * Z) : WM Z :=
  match fuel with
  | O => undefined
  | S fuel' =>
      '(rv, errno, timeout) ← host_select timeout;
      if rv =? -1 then if errno =? EINTR then select_loop fuel' timeout else mret rv
      else mret rv
  end.

Definition execute_script (fuel : nat) (script : bytes) (mtimeout : Z) : WM Z :=
  if decide (script = []) then mret QCONF_ERR_PARAM else
  let timeout := (Z.quot mtimeout 1000, Z.rem mtimeout 1000 * 1000) in
  host_sigaction;;
  p ← host_pipe;
  if p <? 0 then mret QCONF_ERR_OTHER else
  pid ← host_fork (c_str script);
  if pid <? 0 then mret QCONF_ERR_OTHER else
  host_close;;
  rv ← select_loop fuel timeout;
  host_close;;
  if negb (rv =? -1) && negb (rv =? 0) then mret QCONF_OK else
  host_kill (- pid);;
  if rv =? 0 then mret QCONF_ERR_SCRIPT_TIMEOUT else mret QCONF_ERR_OTHER.

(** ** Theorems *)

(** The names a path can take its script from: its own, and those of its ancestors. *)
Definition cut (s q : bytes) : Prop := q = s \/ exists r, s = q ++ QCONF_SCRIPT_SEPARATOR :: r.

Lemma cut_last a b q : (QCONF_SCRIPT_SEPARATOR ∉ b) ->
  cut (a ++ QCONF_SCRIPT_SEPARATOR :: b) q <-> q = a ++ QCONF_SCRIPT_SEPARATOR :: b \/ cut a q.
Proof.
  intros Hb. split; intros [->|Hc]; [by left| |by left|].
  - right. destruct Hc as (r & E). apply app_eq_inv in E as [(k & -> & E)|(k & -> & E)].
    + destruct k as [|x k]; [left; by rewrite app_nil_r|]. injection E as <- ->. right. by exists k.
    + destruct k as [|x k]; [left; by rewrite app_nil_r|]. injection E as <- ->. set_solver.
  - right. destruct Hc as [->|(r & ->)]; [by exists b|]. eexists. by rewrite <- app_assoc.
Qed.

Lemma cut_none s q : (QCONF_SCRIPT_SEPARATOR ∉ s) -> cut s q <-> q = s.
Proof. intros Hs. split; [intros [->|(r & ->)]; [done|set_solver]|by left]. Qed.

Lemma cut_app dir p q : (QCONF_SCRIPT_SEPARATOR ∉ dir) -> cut (dir ++ p) q <-> exists q', q = dir ++ q' /\ cut p q'.
Proof.
  intros Hd. split.
  - intros [->|(r & E)]; [exists p; split; [done|by left]|]. apply app_eq_inv in E as [(k & -> & E)|(k & -> & E)].
    + destruct k as [|x k]; [exists []; rewrite !app_nil_r; split; [done|right; by exists r]|]. injection E as <- ->. set_solver.
    + exists k. split; [done|]. right. by exists r.
  - intros (q' & -> & [->|(r & ->)]); [by left|]. right. exists r. by rewrite app_assoc.
Qed.

Context `{!HostFiles W}.

(** [q] is the closest of the names of [s] that has a file. *)
Definition closest (m : gmap bytes bytes) (s q : bytes) : Prop :=
  cut s q /\ is_Some (m !! (q ++ QCONF_SCRIPT_SUFFIX)) /\
  forall q', cut s q' -> (length q < length q')%nat -> m !! (q' ++ QCONF_SCRIPT_SUFFIX) = None.

Lemma search_loop_ok fuel sp index w m :
  host_files w m -> (x00 ∉ take index sp) -> (length (take index sp) < fuel)%nat ->
  exists r w', search_loop fuel sp index w = Some (r, w') /\ host_files w' m /\
    match r with
    | Some f => exists q, f = q ++ QCONF_SCRIPT_SUFFIX /\ closest m (take index sp) q
    | None => forall q, cut (take index sp) q -> m !! (q ++ QCONF_SCRIPT_SUFFIX) = None
    end.
Proof.
  intros Hw Hz Hf. remember (take index sp) as s eqn:Es. revert w s sp index Es Hw Hz Hf.
  induction fuel as [|fuel IH]; intros w s sp index Es Hw Hz Hf; [lia|]. cbn [search_loop]. rewrite <- Es.
  assert (Hzs : x00 ∉ s ++ QCONF_SCRIPT_SUFFIX).
  { rewrite not_elem_of_app. split; [done|]. apply (bool_decide_unpack _). vm_compute. exact I. }
  rewrite c_str_no_nul by done. destruct (host_readable_ok (s ++ QCONF_SCRIPT_SUFFIX) w m Hw) as (w1 & Hr & Hw1).
  rewrite (SM_bind_Some _ _ _ _ _ Hr). case_bool_decide as Hex.
  { eexists _, w1. split; [done|]. split; [done|]. exists s. split; [done|]. split; [by left|]. split; [done|].
    intros q' [->|(r & ->)] Hl; [lia|]. rewrite length_app in Hl. simpl in Hl. lia. }
  apply eq_None_not_Some in Hex. pose proof (rfind_spec QCONF_SCRIPT_SEPARATOR s) as Hs.
  destruct (rfind QCONF_SCRIPT_SEPARATOR s) as [i|].
  - destruct Hs as (a & b & E & Hb & ->). assert (Ea : a = take (length a) s) by (by rewrite E, take_app_length).
    destruct (IH w1 a s (length a) Ea Hw1) as (r & w2 & Hrun & Hw2 & Hres).
    { rewrite E in Hz. set_solver. }
    { rewrite E, length_app in Hf. simpl in Hf. lia. }
    exists r, w2. split; [done|]. split; [done|]. destruct r as [f|].
    + destruct Hres as (q & -> & Hc & He & Hfar). exists q. split; [done|]. rewrite E in *. split; [apply cut_last; auto|].
      split; [done|]. intros q' Hq' Hl. apply cut_last in Hq' as [->|Hq']; auto.
    + intros q Hq. rewrite E in *. apply cut_last in Hq as [->|Hq]; auto.
  - eexists None, w1. split; [done|]. split; [done|]. intros q Hq. apply cut_none in Hq as ->; done.
Qed.

(** The name of a path among the scripts: without the first slash, with the other slashes replaced. *)
Definition script_name (path : bytes) : bytes :=
  (fun b => if decide (b = x2f) then QCONF_SCRIPT_SEPARATOR else b) <$>
    (match path with c :: path' => if decide (c = x2f) then path' else path | [] => [] end).

Lemma script_name_no_nul path : (x00 ∉ path) -> x00 ∉ script_name path.
Proof.
  intros Hz (b & Eb & Hb)%list_elem_of_fmap. destruct (decide (b = x2f)); [done|]. subst b. apply Hz.
  destruct path as [|c path]; [done|]. destruct (decide (c = x2f)); set_solver.
Qed.

(** The script of a path is the file of the path itself, or of its closest ancestor that has one; a path
    without any is reported as such. The search always ends. *)
Theorem find_script_closest dir path script w m :
  host_files w m -> path <> [] -> dir <> [] -> (QCONF_SCRIPT_SEPARATOR ∉ dir) -> (x00 ∉ dir) -> (x00 ∉ path) ->
  exists ret c w', find_script dir path script w = Some ((ret, c), w') /\ host_files w' m /\
    ((ret = QCONF_OK /\ exists q, cut (script_name path) q /\ m !! (dir ++ q ++ QCONF_SCRIPT_SUFFIX) = Some c /\
        forall q', cut (script_name path) q' -> (length q < length q')%nat -> m !! (dir ++ q' ++ QCONF_SCRIPT_SUFFIX) = None) \/
     (ret = QCONF_ERR_SCRIPT_NOT_EXIST /\ c = script /\
        forall q, cut (script_name path) q -> m !! (dir ++ q ++ QCONF_SCRIPT_SUFFIX) = None)).
Proof.
  intros Hw Hp Hd Hsep Hdz Hpz. pose proof (script_name_no_nul path Hpz) as Hnz.
  destruct path as [|c path']; [done|]. unfold find_script. rewrite decide_False by done.
  match goal with |- context [dir ++ ?n] => change n with (script_name (c :: path')) end. set (name := script_name (c :: path')) in *.
  set (s := dir ++ name). destruct (search_loop_ok (S (length s)) s (length s) w m Hw) as (r & w1 & Hrun & Hw1 & Hres);
    rewrite ?take_ge by done; [|lia|].
  { unfold s. rewrite not_elem_of_app. done. }
  rewrite take_ge in Hres by done. rewrite (SM_bind_Some _ _ _ _ _ Hrun). destruct r as [f|].
  - destruct Hres as (q & -> & Hc & (v & Hv) & Hfar). apply cut_app in Hc as (q0 & -> & Hc); [|done].
    unfold script_content_read. rewrite decide_False by (by destruct dir). rewrite <- app_assoc in *.
    rewrite c_str_no_nul.
    2: { rewrite !not_elem_of_app. split; [done|]. split; [|apply (bool_decide_unpack _); vm_compute; exact I].
         destruct Hc as [->|(r & E)]; [done|]. rewrite E in Hnz. set_solver. }
    destruct (host_read_ok (dir ++ q0 ++ QCONF_SCRIPT_SUFFIX) w1 m Hw1) as (w2 & Hr & Hw2).
    erewrite SM_bind_Some; [|rewrite (SM_bind_Some _ _ _ _ _ Hr), Hv; reflexivity]. exists QCONF_OK, v, w2. split; [done|].
    split; [done|]. left. split; [done|]. exists q0. split; [done|]. split; [done|]. intros q' Hq' Hl.
    rewrite app_assoc. apply Hfar; [apply cut_app; eauto|]. rewrite !length_app. lia.
  - exists QCONF_ERR_SCRIPT_NOT_EXIST, script, w1. split; [done|]. split; [done|]. right. split; [done|]. split; [done|].
    intros q Hq. rewrite app_assoc. apply Hres, cut_app; eauto.
Qed.
End WithHost.

(** ** A machine with a fixed set of files *)

Section MemHost.
Context {W : Type} (files : gmap bytes bytes).

Definition mem_host : Host W := {|
  host_sigaction := mret tt;
  host_pipe := mret 0;
  host_fork _ := mret 100;
  host_select tv := mret (1, 0, tv);
  host_close := mret tt;
  host_kill _ := mret tt;
  host_readable f := mret (bool_decide (is_Some (files !! f)));
  host_read f := mret (files !! f);
  host_name := mret (Some (str "h"));
  host_sockname _ := mret (Some (str "10.0.0.9"));
  host_time := mret 1700000000;
  curl_perform _ := mret (0, [str "0"]);
  host_usleep _ := mret tt
|}.

Definition mem_host_files : @HostFiles W mem_host.
Proof. refine (@Build_HostFiles W mem_host (fun _ m => files = m) _ _); intros f w m <-; by exists w. Defined.
End MemHost.

Lemma find_script_closest_witness :
  let files : gmap bytes bytes := {[ str "/q/script/a.sh" := str "reload" ]} in
  exists ret c w', @find_script unit (mem_host files) (str "/q/script/") (str "/a/b/c") [] tt = Some ((ret, c), w') /\
    ret <> QCONF_ERR_SCRIPT_NOT_EXIST.
Proof.
  intros files. destruct (@find_script_closest unit (mem_host files) (mem_host_files files) (str "/q/script/") (str "/a/b/c") [] tt files)
    as (ret & c & w' & Hrun & _ & Hres);
    [reflexivity|discriminate|discriminate|apply (bool_decide_unpack _); vm_compute; exact I..|].
  exists ret, c, w'. split; [exact Hrun|]. intros E. destruct Hres as [[E' _]|(_ & _ & Hno)]; [rewrite E' in E; discriminate E|].
  specialize (Hno (str "a")). assert (Hc : cut (script_name (str "/a/b/c")) (str "a")) by (right; exists (str "b#c"); vm_compute; reflexivity).
  specialize (Hno Hc). vm_compute in Hno. discriminate Hno.
Defined.
End Script.
