(* ===== verification/Feedback.v ===== *)
(** * Reporting changes to a server ([src/agent/qconf_feedback.cc])

    After a change the agent posts a line of text that says which node of which idc it now serves, with
    the MD5 of the value. The post goes through the curl library, which hands the answer to
    [write_callback] in pieces. *)

From S2P Require Import Prelude Common Text Md5 Format Script.

(** Setting curl up. *)
Class CurlSetup (W : Type) := {
  curl_global_init : SM W Z;
  curl_easy_init : SM W bool;                      (* whether there is a handle *)
  curl_setopt_url : bytes -> SM W unit;
  curl_setopt_post : SM W unit;
  curl_easy_cleanup : SM W unit;
  curl_global_cleanup : SM W unit
}.

Module Feedback.
Import Format.

(** [fb_val]: a table value and, for a service or a batch, its children as text. *)
Record fb_val := mkFbVal { fb_tblval : bytes; fb_chds : bytes }.

(** Whether [_curl] is non-NULL, and [_feedback_buf]. *)
Record feedback := mkFeedback { fb_curl : bool; feedback_buf : bytes }.

Definition CURLE_OK : Z := 0.
Definition QCONF_FB_RESULT : bytes := str "0".

(** ** The text of the children *)

Fixpoint chdval_loop (n i : nat) (data : list (option bytes)) (status : list Z) (value : bytes) : option bytes :=
  match n with
  | O => Some value
  | S n' =>
      match data !! i, status !! i with
      | Some (Some node), Some st =>
          chdval_loop n' (S i) data status (value ++ c_str node ++ str "#" ++ [z2b (st + 48)] ++ str ",")
      | _, _ => None
      end
  end.

(** [resize] to one less, unless it is empty. *)
Definition drop_last (value : bytes) : bytes := take (length value - 1) value.

Definition feedback_generate_chdval (chdnodes : string_vector_t) (status : list Z) (value : bytes) : option bytes :=
  drop_last <$> chdval_loop (Z.to_nat (sv_count chdnodes)) 0 (sv_data chdnodes) status value.

Fixpoint batchval_loop (n i : nat) (data : list (option bytes)) (value : bytes) : option bytes :=
  match n with
  | O => Some value
  | S n' =>
      match data !! i with
      | Some (Some node) => batchval_loop n' (S i) data (value ++ c_str node ++ str ",")
      | _ => None
      end
  end.

Definition feedback_generate_batchval (batchnodes : string_vector_t) (value : bytes) : option bytes :=
  drop_last <$> batchval_loop (Z.to_nat (sv_count batchnodes)) 0 (sv_data batchnodes) value.

(** [ss >> content]: the first word of the stream. *)
Fixpoint first_word (s : bytes) : bytes :=
  match s with
  | [] => []
  | b :: s' => if is_space b then [] else b :: first_word s'
  end.

Section WithHost.
Context {W : Type} `{Host W}.
Abbreviation FM := (SM (feedback * W)).

Definition on_host {A} (c : SM W A) : FM A := fun s =>
  match c (snd s) with Some (a, w) => Some (a, (fst s, w)) | None => None end.
Definition set_buf (b : bytes) : FM unit := modify (fun s => (mkFeedback (fb_curl (fst s)) b, snd s)).

Definition feedback_generate_content (ip : bytes) (data_type : byte) (idc path : bytes) (fbval : fb_val) (content : bytes)
    : FM (Z * bytes) :=
  if bool_decide (ip = []) || bool_decide (idc = []) || bool_decide (path = []) then mret (QCONF_ERR_PARAM, content) else
  hostname ← on_host host_name;
  match hostname with
  | None => mret (QCONF_ERR_OTHER, content)
  | Some hostname =>
      let value := if decide (data_type = QCONF_DATA_TYPE_NODE) then Some (tblval_to_nodeval (fb_tblval fbval) []).2
                   else if bool_decide (data_type = QCONF_DATA_TYPE_SERVICE) || bool_decide (data_type = QCONF_DATA_TYPE_BATCH_NODE)
                   then Some (fb_chds fbval) else None in
      match value with
      | None => mret (QCONF_ERR_PARAM, content)
      | Some value =>
          let value_md5_str := Md5.qhashmd5_bin_to_hex (Md5.md5_of value) in
          time ← on_host host_time;
          mret (QCONF_OK, first_word (skip_spaces (
            str "hostname=" ++ c_str hostname ++ str "&ip=" ++ ip ++ str "&node_whole=" ++ path ++
            str "&value_md5=" ++ value_md5_str ++ str "&idc=" ++ idc ++
            str "&update_time=" ++ print_dec time ++ str "&data_type=" ++ [data_type])))
      end
  end.

Definition get_feedback_ip (zh : Z) (ip_str : bytes) : FM (Z * bytes) :=
  if zh =? 0 then mret (QCONF_ERR_PARAM, ip_str) else
  ip ← on_host (host_sockname zh);
  match ip with Some ip => mret (QCONF_OK, ip) | None => mret (QCONF_ERR_OTHER, ip_str) end.

(** One piece of the answer. *)
Definition write_callback (buffer : bytes) : FM unit :=
  s ← get_st;
  set_buf (feedback_buf (fst s) ++ buffer).

Fixpoint callbacks (pieces : list bytes) : FM unit :=
  match pieces with
  | [] => mret tt
  | p :: pieces' => write_callback p;; callbacks pieces'
  end.

(** The attempts; [None] when none of them ended the loop. *)
Fixpoint post_loop (n : nat) (content : bytes) : FM (option Z) :=
  match n with
  | O => mret None
  | S n' =>
      '(curlcode, pieces) ← on_host (curl_perform (c_str content));
      callbacks pieces;;
      if curlcode =? CURLE_OK then
        s ← get_st;
        if decide (QCONF_FB_RESULT = feedback_buf (fst s)) then mret (Some QCONF_OK) else mret (Some QCONF_ERR_OTHER)
      else on_host (host_usleep 50000);; post_loop n' content
  end.

Definition feedback_process (content : bytes) : FM Z :=
  s ← get_st;
  if negb (fb_curl (fst s)) then mret QCONF_ERR_OTHER else
  set_buf [];;
  r ← post_loop QCONF_FB_RETRIES content;
  mret (match r with Some ret => ret | None => QCONF_ERR_FB_TIMEOUT end).

(** ** Setting up *)

Section Setup.
Context `{!CurlSetup W}.

Definition set_curl (b : bool) : FM unit := modify (fun s => (mkFeedback b (feedback_buf (fst s)), snd s)).

Definition qconf_init_feedback (url : bytes) : FM Z :=
  ret ← on_host curl_global_init;
  if negb (ret =? CURLE_OK) then mret QCONF_ERR_OTHER else
  curl ← on_host curl_easy_init;
  set_curl curl;;
  if negb curl then mret QCONF_ERR_OTHER else
  on_host (curl_setopt_url (c_str url));;
  on_host curl_setopt_post;;
  mret QCONF_OK.

(** The pointer keeps its value. *)
Definition qconf_destroy_feedback : FM unit :=
  on_host curl_easy_cleanup;;
  on_host curl_global_cleanup.
End Setup.

(** ** Theorems *)

Lemma on_host_ok {A} (c : SM W A) fb w a w' : c w = Some (a, w') -> on_host c (fb, w) = Some (a, (fb, w')).
Proof. intros E. unfold on_host. cbn. by rewrite E. Qed.

Lemma callbacks_ok pieces fb w :
  callbacks pieces (fb, w) = Some (tt, (mkFeedback (fb_curl fb) (feedback_buf fb ++ concat pieces), w)).
Proof.
  revert fb. induction pieces as [|p pieces IH]; intros fb; cbn [callbacks concat].
  - rewrite app_nil_r. by destruct fb.
  - erewrite SM_bind_Some; [|reflexivity]. rewrite IH. cbn. by rewrite app_assoc.
Qed.
End WithHost.

(** The text is the children with their status, joined by commas. *)
Fixpoint join (sep : bytes) (l : list bytes) : bytes :=
  match l with
  | [] => []
  | [x] => x
  | x :: l' => x ++ sep ++ join sep l'
  end.

Lemma drop_last_join (value : bytes) l :
  drop_last (value ++ flat_map (fun x => x ++ str ",") l) =
    if decide (l = []) then drop_last value else value ++ join (str ",") l.
Proof.
  assert (Hsnoc : forall v x, drop_last (v ++ [x]) = v).
  { intros v x. unfold drop_last. rewrite length_app. simpl. rewrite Nat.add_sub. by rewrite take_app_length. }
  destruct (decide (l = [])) as [->|Hne]; [by cbn; rewrite app_nil_r|].
  revert value. induction l as [|x l IH]; intros value; [done|]. cbn [flat_map].
  destruct l as [|y l]; [cbn [flat_map join]; rewrite app_nil_r, app_assoc; apply Hsnoc|].
  rewrite app_assoc, IH by done. cbn [join]. by rewrite <- !app_assoc.
Qed.

Definition child_text (name : bytes) (st : Z) : bytes := name ++ str "#" ++ [z2b (st + 48)].

Lemma chdval_loop_ok names sts pre_n pre_s value :
  length pre_n = length pre_s -> length names = length sts -> Forall (fun n => x00 ∉ n) names ->
  chdval_loop (length names) (length pre_n) (Some <$> pre_n ++ names) (pre_s ++ sts) value =
    Some (value ++ flat_map (fun x => x ++ str ",") (zip_with child_text names sts)).
Proof.
  revert sts pre_n pre_s value. induction names as [|n names IH]; intros [|st sts] pre_n pre_s value Hl Hn Hz; try done.
  { cbn. by rewrite app_nil_r. }
  apply Forall_cons in Hz as [Hn0 Hz]. cbn [length chdval_loop zip_with flat_map].
  rewrite fmap_app, lookup_app_r, length_fmap, Nat.sub_diag by (rewrite length_fmap; lia). cbn [fmap list_fmap lookup list_lookup].
  rewrite Hl, lookup_app_r, Nat.sub_diag, <- Hl by lia. cbn [lookup list_lookup].
  specialize (IH sts (pre_n ++ [n]) (pre_s ++ [st]) (value ++ child_text n st ++ str ",")).
  rewrite !length_app in IH. cbn [length] in IH. rewrite Nat.add_1_r in IH. rewrite c_str_no_nul by done.
  rewrite <- !app_assoc, fmap_app in IH. cbn [app] in IH. cbn [length] in Hn. unfold child_text in *.
  rewrite <- !app_assoc in IH. etrans; [apply IH|]; [simpl; lia|by injection Hn|done|]. by rewrite <- !app_assoc.
Qed.

Lemma feedback_chdval_text names sts :
  length names = length sts -> Forall (fun n => x00 ∉ n) names ->
  feedback_generate_chdval (SV (blen names) (Some <$> names)) sts [] = Some (join (str ",") (zip_with child_text names sts)).
Proof.
  intros Hl Hz. unfold feedback_generate_chdval. cbn [sv_count sv_data]. unfold blen. rewrite Nat2Z.id.
  pose proof (chdval_loop_ok names sts [] [] [] eq_refl Hl Hz) as E. cbn [length app] in E. rewrite E.
  change (Some (drop_last ([] ++ flat_map (fun x => x ++ str ",") (zip_with child_text names sts))) =
    Some (join (str ",") (zip_with child_text names sts))). rewrite drop_last_join.
  by destruct (zip_with child_text names sts).
Qed.
Lemma batchval_loop_ok names pre value :
  Forall (fun n => x00 ∉ n) names ->
  batchval_loop (length names) (length pre) (Some <$> pre ++ names) value = Some (value ++ flat_map (fun x => x ++ str ",") names).
Proof.
  intros Hz. revert pre value. induction Hz as [|n names Hn Hz IH]; intros pre value; [by cbn; rewrite app_nil_r|].
  cbn [length batchval_loop flat_map]. rewrite fmap_app, lookup_app_r, length_fmap, Nat.sub_diag by (rewrite length_fmap; lia).
  cbn [fmap list_fmap lookup list_lookup]. rewrite c_str_no_nul by done. specialize (IH (pre ++ [n]) (value ++ n ++ str ",")).
  rewrite length_app, Nat.add_1_r, <- (app_assoc pre) in IH. cbn [app] in IH.
  rewrite fmap_app in IH. etrans; [apply IH|]. by rewrite <- !app_assoc.
Qed.

Lemma feedback_batchval_text names :
  Forall (fun n => x00 ∉ n) names -> feedback_generate_batchval (SV (blen names) (Some <$> names)) [] = Some (join (str ",") names).
Proof.
  intros Hz. unfold feedback_generate_batchval. cbn [sv_count sv_data]. unfold blen. rewrite Nat2Z.id.
  pose proof (batchval_loop_ok names [] [] Hz) as E. cbn [length app] in E. rewrite E.
  change (Some (drop_last ([] ++ flat_map (fun x => x ++ str ",") names)) = Some (join (str ",") names)).
  rewrite drop_last_join. by destruct names.
Qed.
End Feedback.
