(* ===== verification/Agent.v ===== *)
(** * The state of the agent ([src/agent/qconf_watcher.cc], its global variables)

    The table, the dump, the ZooKeeper client, the gray nodes, the configuration and the system, as the
    components model them, and the watcher's own variables: the settings, the maps between handles and
    the idc they belong to, and the queues between its threads. Each mutex guards one of the variables;
    the operations below are its critical sections. *)

From S2P Require Import Prelude Common Text Format Store Shm Sys Config Dump Zoo Gray Script Feedback.

Module Agent.
Import Format Shm Msg Config Dump Zoo Gray Feedback.

(** A queue without duplicates: [need] in order, [exist] its elements. *)
Record queue := mkQueue { q_need : list bytes; q_exist : gset bytes }.
Definition no_queue : queue := mkQueue [] ∅.

Record settings := mkSettings {
  msg_queue_id : Z;
  register_node_path : bytes;
  recv_timeout : Z;
  scexec_timeout : Z;
  stop_watcher_setting : bool;
  fb_enable : bool;
  finish_process_tbl_sleep_setting : bool;
  watcher_local_idc : bytes;
  qconf_script_dir : bytes;
  feedback_ip : bytes
}.

Record handles := mkHandles { ht_idchost_handle : gmap bytes Z; ht_handle_idchost : gmap Z bytes }.

Record queues := mkQueues {
  watch_nodes : queue;
  pending_nodes : gset bytes;
  gray_idcs : queue;
  need_trigger_nodes : list bytes;
  exist_trigger_nodes : gmap bytes fb_val
}.

(** ** The queues *)

(** The part of [add_watcher_node] and [add_gray_idc] under the mutex. *)
Definition enqueue (key : bytes) (q : queue) : queue :=
  if decide (key ∈ q_exist q) then q else mkQueue (q_need q ++ [key]) ({[key]} ∪ q_exist q).

(** The part of [deque_process] and [do_gray_process] under the mutex: the empty string when the queue is
    empty. *)
Definition dequeue (q : queue) : bytes * queue :=
  match q_need q with
  | [] => ([], q)
  | key :: need => (key, mkQueue need (q_exist q ∖ {[key]}))
  end.

Section Agent.
Context {T G K W : Type} `{Store T} `{Gdbm G} `{Zk K} `{OS W T} `{Host W}.

Record agent := mkAgent {
  a_shm : shm T; a_dump : dump G; a_zk : K; a_gray : gray; a_conf : conf; a_sys : W; a_fb : feedback;
  a_set : settings; a_ht : handles; a_q : queues
}.

Abbreviation AM := (SM agent).

(** The parts of the state, replaced. *)
Definition with_shm (s : agent) (x : shm T) : agent :=
  mkAgent x (a_dump s) (a_zk s) (a_gray s) (a_conf s) (a_sys s) (a_fb s) (a_set s) (a_ht s) (a_q s).
Definition with_dump (s : agent) (x : dump G) : agent :=
  mkAgent (a_shm s) x (a_zk s) (a_gray s) (a_conf s) (a_sys s) (a_fb s) (a_set s) (a_ht s) (a_q s).
Definition with_gray (s : agent) (g : gray) (k : K) : agent :=
  mkAgent (a_shm s) (a_dump s) k g (a_conf s) (a_sys s) (a_fb s) (a_set s) (a_ht s) (a_q s).
Definition with_sys (s : agent) (fb : feedback) (w : W) : agent :=
  mkAgent (a_shm s) (a_dump s) (a_zk s) (a_gray s) (a_conf s) w fb (a_set s) (a_ht s) (a_q s).
Definition with_set (s : agent) (x : settings) : agent :=
  mkAgent (a_shm s) (a_dump s) (a_zk s) (a_gray s) (a_conf s) (a_sys s) (a_fb s) x (a_ht s) (a_q s).
Definition with_ht (s : agent) (x : handles) : agent :=
  mkAgent (a_shm s) (a_dump s) (a_zk s) (a_gray s) (a_conf s) (a_sys s) (a_fb s) (a_set s) x (a_q s).
Definition with_q (s : agent) (x : queues) : agent :=
  mkAgent (a_shm s) (a_dump s) (a_zk s) (a_gray s) (a_conf s) (a_sys s) (a_fb s) (a_set s) (a_ht s) x.

Definition on_shm {A} (c : SM (shm T) A) : AM A := fun s =>
  match c (a_shm s) with Some (r, x) => Some (r, with_shm s x) | None => None end.
Definition on_dump {A} (c : SM (dump G) A) : AM A := fun s =>
  match c (a_dump s) with Some (r, x) => Some (r, with_dump s x) | None => None end.
Definition on_gray {A} (c : SM (gray * K) A) : AM A := fun s =>
  match c (a_gray s, a_zk s) with Some (r, (g, k)) => Some (r, with_gray s g k) | None => None end.
Definition on_zk {A} (c : SM K A) : AM A := fun s =>
  match c (a_zk s) with Some (r, k) => Some (r, with_gray s (a_gray s) k) | None => None end.
Definition on_fb {A} (c : SM (feedback * W) A) : AM A := fun s =>
  match c (a_fb s, a_sys s) with Some (r, (fb, w)) => Some (r, with_sys s fb w) | None => None end.
Definition on_host {A} (c : SM W A) : AM A := fun s =>
  match c (a_sys s) with Some (r, w) => Some (r, with_sys s (a_fb s) w) | None => None end.
Definition on_msg {A} (c : SM (W * T) A) : AM A := fun s =>
  match c (a_sys s, sh_tbl (a_shm s)) with
  | Some (r, (w, t)) => Some (r, with_sys (with_shm s (mkShm t (lruInstance (a_shm s)))) (a_fb s) w)
  | None => None
  end.
Definition upd_set (f : settings -> settings) : AM unit := modify (fun s => with_set s (f (a_set s))).
Definition upd_ht (f : handles -> handles) : AM unit := modify (fun s => with_ht s (f (a_ht s))).
Definition on_q {A} (f : queues -> A * queues) : AM A := fun s => let '(r, q) := f (a_q s) in Some (r, with_q s q).

Definition set_msg_queue_id (v : Z) (g : settings) : settings :=
  mkSettings v (register_node_path g) (recv_timeout g) (scexec_timeout g) (stop_watcher_setting g) (fb_enable g)
    (finish_process_tbl_sleep_setting g) (watcher_local_idc g) (qconf_script_dir g) (feedback_ip g).
Definition set_register_node_path (v : bytes) (g : settings) : settings :=
  mkSettings (msg_queue_id g) v (recv_timeout g) (scexec_timeout g) (stop_watcher_setting g) (fb_enable g)
    (finish_process_tbl_sleep_setting g) (watcher_local_idc g) (qconf_script_dir g) (feedback_ip g).
Definition set_recv_timeout (v : Z) (g : settings) : settings :=
  mkSettings (msg_queue_id g) (register_node_path g) v (scexec_timeout g) (stop_watcher_setting g) (fb_enable g)
    (finish_process_tbl_sleep_setting g) (watcher_local_idc g) (qconf_script_dir g) (feedback_ip g).
Definition set_scexec_timeout (v : Z) (g : settings) : settings :=
  mkSettings (msg_queue_id g) (register_node_path g) (recv_timeout g) v (stop_watcher_setting g) (fb_enable g)
    (finish_process_tbl_sleep_setting g) (watcher_local_idc g) (qconf_script_dir g) (feedback_ip g).
Definition set_stop (v : bool) (g : settings) : settings :=
  mkSettings (msg_queue_id g) (register_node_path g) (recv_timeout g) (scexec_timeout g) v (fb_enable g)
    (finish_process_tbl_sleep_setting g) (watcher_local_idc g) (qconf_script_dir g) (feedback_ip g).
Definition set_fb_enable (v : bool) (g : settings) : settings :=
  mkSettings (msg_queue_id g) (register_node_path g) (recv_timeout g) (scexec_timeout g) (stop_watcher_setting g) v
    (finish_process_tbl_sleep_setting g) (watcher_local_idc g) (qconf_script_dir g) (feedback_ip g).
Definition set_finish (v : bool) (g : settings) : settings :=
  mkSettings (msg_queue_id g) (register_node_path g) (recv_timeout g) (scexec_timeout g) (stop_watcher_setting g) (fb_enable g)
    v (watcher_local_idc g) (qconf_script_dir g) (feedback_ip g).
Definition set_local_idc (v : bytes) (g : settings) : settings :=
  mkSettings (msg_queue_id g) (register_node_path g) (recv_timeout g) (scexec_timeout g) (stop_watcher_setting g) (fb_enable g)
    (finish_process_tbl_sleep_setting g) v (qconf_script_dir g) (feedback_ip g).
Definition set_feedback_ip (v : bytes) (g : settings) : settings :=
  mkSettings (msg_queue_id g) (register_node_path g) (recv_timeout g) (scexec_timeout g) (stop_watcher_setting g) (fb_enable g)
    (finish_process_tbl_sleep_setting g) (watcher_local_idc g) (qconf_script_dir g) v.

(** ** Operations on the queues *)

Definition set_watch (w : queue) (q : queues) : queues :=
  mkQueues w (pending_nodes q) (gray_idcs q) (need_trigger_nodes q) (exist_trigger_nodes q).
Definition set_pending (p : gset bytes) (q : queues) : queues :=
  mkQueues (watch_nodes q) p (gray_idcs q) (need_trigger_nodes q) (exist_trigger_nodes q).
Definition set_gray_idcs (g : queue) (q : queues) : queues :=
  mkQueues (watch_nodes q) (pending_nodes q) g (need_trigger_nodes q) (exist_trigger_nodes q).
Definition set_trigger (need : list bytes) (exist : gmap bytes fb_val) (q : queues) : queues :=
  mkQueues (watch_nodes q) (pending_nodes q) (gray_idcs q) need exist.

Definition add_watcher_node (key : bytes) : AM unit :=
  if decide (key = []) then mret tt else on_q (fun q => (tt, set_watch (enqueue key (watch_nodes q)) q)).

Definition add_gray_idc (key : bytes) : AM unit :=
  if decide (key = []) then mret tt else on_q (fun q => (tt, set_gray_idcs (enqueue key (gray_idcs q)) q)).

Definition take_watch_node : AM bytes :=
  on_q (fun q => let '(key, w) := dequeue (watch_nodes q) in (key, set_watch w q)).

Definition take_gray_idc : AM bytes :=
  on_q (fun q => let '(key, w) := dequeue (gray_idcs q) in (key, set_gray_idcs w q)).

Definition add_pending_node (tblkey : bytes) : AM unit :=
  on_q (fun q => (tt, set_pending ({[tblkey]} ∪ pending_nodes q) q)).
Definition del_pending_node (tblkey : bytes) : AM unit :=
  on_q (fun q => (tt, set_pending (pending_nodes q ∖ {[tblkey]}) q)).
Definition pending_node_exist (tblkey : bytes) : AM bool :=
  on_q (fun q => (bool_decide (tblkey ∈ pending_nodes q), q)).

Definition push_trigger (mkey : bytes) (mval : fb_val) (q : queues) : queues :=
  match exist_trigger_nodes q !! mkey with
  | Some _ => q
  | None => set_trigger (need_trigger_nodes q ++ [mkey]) (<[mkey := mval]> (exist_trigger_nodes q)) q
  end.

Definition add_change_trigger_node (tblkey tblval : bytes) (trigger_type : byte) (fb_chds : bytes) : AM Z :=
  if decide (tblkey = []) then mret QCONF_ERR_OTHER else
  on_q (fun q => (QCONF_OK, push_trigger (trigger_type :: tblkey) (mkFbVal tblval fb_chds) q)).

(** The part of [change_trigger_process] under the mutex; the iterator that [find] returns is read without
    a test, [None] when there is no such entry. *)
Definition take_trigger : AM (bytes * fb_val) := fun s =>
  match need_trigger_nodes (a_q s) with
  | [] => Some (([], mkFbVal [] []), s)
  | mkey :: need =>
      match exist_trigger_nodes (a_q s) !! mkey with
      | None => None
      | Some mval => on_q (fun q => ((mkey, mval), set_trigger need (delete mkey (exist_trigger_nodes q)) q)) s
      end
  end.

(** ** The handle maps ([lock_ht_find], [lock_ht_update], [lock_ht_delete], [lock_ht_keys]) *)

Definition lock_ht_find {A B} `{Countable A} (ht : gmap A B) (key : A) (val : B) : Z * B :=
  match ht !! key with Some v => (QCONF_OK, v) | None => (QCONF_ERR_OTHER, val) end.

Definition ih_find (key : bytes) : AM (Z * Z) := gets (fun s => lock_ht_find (ht_idchost_handle (a_ht s)) key 0).
Definition hi_find (key : Z) : AM (Z * bytes) := gets (fun s => lock_ht_find (ht_handle_idchost (a_ht s)) key []).
Definition ih_update (key : bytes) (val : Z) : AM unit :=
  upd_ht (fun h => mkHandles (<[key := val]> (ht_idchost_handle h)) (ht_handle_idchost h)).
Definition hi_update (key : Z) (val : bytes) : AM unit :=
  upd_ht (fun h => mkHandles (ht_idchost_handle h) (<[key := val]> (ht_handle_idchost h))).
Definition ih_delete (key : bytes) : AM unit :=
  upd_ht (fun h => mkHandles (delete key (ht_idchost_handle h)) (ht_handle_idchost h)).
Definition hi_delete (key : Z) : AM unit :=
  upd_ht (fun h => mkHandles (ht_idchost_handle h) (delete key (ht_handle_idchost h))).
Definition lock_ht_keys : AM (list bytes) := gets (fun s => in_order (elements (dom (ht_idchost_handle (a_ht s))))).
End Agent.
Arguments agent T G K W : clear implicits.
End Agent.
