(* ===== verification/Watcher.v ===== *)
(** * The watcher ([src/agent/qconf_watcher.cc])

    The threads of the agent: the main thread takes table keys from a queue, reads them from ZooKeeper
    with a watch and writes the table; the message thread enqueues what clients ask for; the callback of
    the ZooKeeper client enqueues what changed; the trigger thread writes the dump and runs scripts and
    the feedback; the gray thread applies gray releases; the assistant thread compares the whole table
    with ZooKeeper now and then. The body of each loop is one definition. Feedback is compiled in
    ([QCONF_CURL_ENABLE]), as the build file has it; [QCONF_INTERNAL] is a variable. Log messages are
    left out. *)

From S2P Require Import Prelude Common Text HashArr Format Store Shm Sys ShmInit Config Dump Zoo Gray Script Feedback Agent.

Module Watcher.
Import Format Shm Msg Config Dump Zoo Gray Script Feedback Agent.

(** Events and states of the client library. *)
Definition CREATED_EVENT_DEF : Z := 1.
Definition DELETED_EVENT_DEF : Z := 2.
Definition CHANGED_EVENT_DEF : Z := 3.
Definition CHILD_EVENT_DEF : Z := 4.
Definition SESSION_EVENT_DEF : Z := -1.
Definition ZOO_EXPIRED_SESSION_STATE : Z := -112.
Definition ZOO_CONNECTED_STATE : Z := 3.

Definition QCONF_AGENT_VERSION : bytes := str "1.0.2".
Definition QCONF_STOP_MSG : bytes := str "__STOP__".
Definition QCONF_PREFIX : bytes := str "/qconf/".

Section Watcher.
Context {T G K W : Type} `{Store T} `{Gdbm G} `{Zk K} `{OS W T} `{Host W}.

(** The buffer of [zk_get_node_buf_], the host name, whether paths have a prefix, and a bound on the loops
    whose length the environment decides (content nodes of a gray release, interrupted system calls). *)
Variables (buf_ok : bool) (hostname : bytes) (QCONF_INTERNAL : bool) (fuel : nat).

Abbreviation AM := (SM (agent T G K W)).

(** ** Settings *)

Definition qconf_clear_shm_tbl : AM unit := on_shm hash_tbl_clear;; mret tt.

Definition qconf_init_msg_key : AM Z :=
  '(ret, id) ← on_msg (create_msg_queue QCONF_DEFAULT_MSG_QUEUE_KEY);
  upd_set (set_msg_queue_id id);;
  mret ret.

Definition qconf_thread_exit : AM unit :=
  upd_set (set_stop true);;
  id ← gets (fun s => msg_queue_id (a_set s));
  on_msg (send_msg id QCONF_STOP_MSG);;
  mret tt.

Definition qconf_init_rgs_node_pfx (node_prefix : bytes) : AM unit :=
  h ← on_host host_name;
  upd_set (set_register_node_path (node_prefix ++ str "/" ++ c_str (default [] h))).

Definition qconf_init_recv_timeout (timeout : Z) : AM unit :=
  upd_set (set_recv_timeout (if timeout <? 1000 then 1000 else timeout)).

Definition qconf_init_fb_flg (enable_flags : bool) : AM unit := upd_set (set_fb_enable enable_flags).

Definition qconf_init_local_idc (idc : bytes) : AM Z :=
  upd_set (set_local_idc idc);;
  on_shm (qconf_update_localidc idc).

Definition qconf_init_scexec_timeout (timeout : Z) : AM unit :=
  let t := if timeout <? 500 then 500 else timeout in
  upd_set (set_scexec_timeout (if 30000 <? t then 30000 else t)).

(** ** Handles *)

Fixpoint close_all (ks : list bytes) : AM unit :=
  match ks with
  | [] => mret tt
  | idc_host :: ks' =>
      '(_, zh) ← ih_find idc_host;
      on_zk (zookeeper_close zh);;
      ih_update idc_host 0;;
      close_all ks'
  end.

Definition qconf_destroy_zk : AM unit := ks ← lock_ht_keys; close_all ks.

Definition init_env_for_zk (zh : Z) (idc_host idc : bytes) : AM unit :=
  hi_update zh idc_host;;
  ih_update idc_host zh;;
  state ← on_zk (zoo_state zh);
  if negb (state =? ZOO_CONNECTED_STATE) then mret tt else
  node_path ← gets (fun s => register_node_path (a_set s));
  on_zk (zk_register_ephemeral zh node_path QCONF_AGENT_VERSION);;
  ret ← on_gray (watch_notify_node hostname zh);
  if ret =? QCONF_OK then add_gray_idc idc else mret tt.

Definition get_zhandle_by_idc (idc : bytes) : AM Z :=
  if decide (idc = []) then mret 0 else
  c ← gets a_conf;
  let '(ret, host) := get_idc_conf c idc [] in
  if negb (ret =? QCONF_OK) then mret 0 else
  let idc_host := serialize_to_idc_host idc host in
  '(_, zh) ← ih_find idc_host;
  if zh =? 0 then
    timeout ← gets (fun s => recv_timeout (a_set s));
    zh ← on_zk (zookeeper_init (c_str host) timeout);
    if zh =? 0 then mret 0 else
    init_env_for_zk zh idc_host idc;;
    mret zh
  else mret zh.

Definition get_idc_by_zhandle (zh : Z) (idc host : bytes) : AM (Z * (bytes * bytes)) :=
  '(ret, idc_host) ← hi_find zh;
  if negb (ret =? QCONF_OK) then mret (QCONF_ERR_OTHER, (idc, host)) else
  let '(_, r) := deserialize_from_idc_host idc_host idc host in
  mret (QCONF_OK, r).

Definition watcher_reconnect_to_zookeeper (zh : Z) : AM Z :=
  if zh =? 0 then mret QCONF_ERR_OTHER else
  '(ret, idc_host) ← hi_find zh;
  if ret =? QCONF_OK then
    hi_delete zh;;
    ih_delete idc_host;;
    on_zk (zookeeper_close zh);;
    let '(_, (idc, host)) := deserialize_from_idc_host idc_host [] [] in
    timeout ← gets (fun s => recv_timeout (a_set s));
    hthandle ← on_zk (zookeeper_init (c_str host) timeout);
    if negb (hthandle =? 0) then
      init_env_for_zk hthandle idc_host idc;;
      upd_set (set_finish true);;
      mret QCONF_OK
    else mret QCONF_ERR_OTHER
  else mret QCONF_ERR_OTHER.

(** ** Events *)

(** The test that the handlers make before they enqueue a key. *)
Definition node_known (tblkey : bytes) : AM bool :=
  pending ← pending_node_exist tblkey;
  if (pending : bool) then mret true else on_shm (hash_tbl_exist tblkey).

Definition add_if_known (tblkey : bytes) : AM unit :=
  known ← node_known tblkey;
  if (known : bool) then add_watcher_node tblkey else mret tt.

Definition process_deleted_event (idc path : bytes) : AM unit :=
  add_if_known (serialize_to_tblkey QCONF_DATA_TYPE_NODE idc path).2;;
  add_if_known (serialize_to_tblkey QCONF_DATA_TYPE_SERVICE idc path).2;;
  add_if_known (serialize_to_tblkey QCONF_DATA_TYPE_BATCH_NODE idc path).2.

Definition process_created_event (idc path : bytes) : AM unit := mret tt.

(** The second test asks for the key of the child in the pending set, but for the key of the parent in the
    table. *)
Definition process_changed_event (idc path : bytes) : AM unit :=
  let tblkey := (serialize_to_tblkey QCONF_DATA_TYPE_NODE idc path).2 in
  add_if_known tblkey;;
  match rfind x2f path with
  | None => mret tt
  | Some pos =>
      let parent_tblkey := (serialize_to_tblkey QCONF_DATA_TYPE_SERVICE idc (take pos path)).2 in
      pending ← pending_node_exist tblkey;
      known ← (if (pending : bool) then mret true else on_shm (hash_tbl_exist parent_tblkey));
      if (known : bool) then add_watcher_node parent_tblkey else mret tt
  end.

Definition process_child_event (idc path : bytes) : AM unit :=
  add_if_known (serialize_to_tblkey QCONF_DATA_TYPE_SERVICE idc path).2;;
  add_if_known (serialize_to_tblkey QCONF_DATA_TYPE_BATCH_NODE idc path).2.

(** The branch of [global_watcher] for a session that is connected. *)
Definition session_connected (zh : Z) : AM unit :=
  '(ret, idc_host) ← hi_find zh;
  if ret =? QCONF_OK then
    let '(_, (idc, host)) := deserialize_from_idc_host idc_host [] [] in
    init_env_for_zk zh idc_host idc;;
    upd_set (set_finish true)
  else mret tt.

Definition global_watcher (zh type state : Z) (path : bytes) : AM unit :=
  '(ret, (idc, host)) ← get_idc_by_zhandle zh [] [];
  if negb (ret =? QCONF_OK) then mret tt else
  g ← gets a_gray;
  (if ((type =? CREATED_EVENT_DEF) || (type =? DELETED_EVENT_DEF)) && is_notify_node g path
   then add_gray_idc idc else mret tt);;
  if type =? SESSION_EVENT_DEF then
    if state =? ZOO_EXPIRED_SESSION_STATE then watcher_reconnect_to_zookeeper zh;; mret tt
    else if state =? ZOO_CONNECTED_STATE then session_connected zh
    else mret tt
  else if type =? CHILD_EVENT_DEF then process_child_event idc path
  else if type =? CREATED_EVENT_DEF then process_created_event idc path
  else if type =? DELETED_EVENT_DEF then process_deleted_event idc path
  else if type =? CHANGED_EVENT_DEF then process_changed_event idc path
  else mret tt.

(** ** The main thread *)

Definition same_is_ok (ret : Z) : Z := if ret =? QCONF_ERR_SAME_VALUE then QCONF_OK else ret.

(** Writing a value that was read, and removing a key whose node is gone. *)
Definition publish (tblkey tblval fb : bytes) : AM Z :=
  ret ← on_shm (hash_tbl_set tblkey tblval);
  (if ret =? QCONF_OK then add_change_trigger_node tblkey tblval QCONF_TRIGGER_TYPE_ADD_OR_MODIFY fb;; mret tt else mret tt);;
  mret (same_is_ok ret).

Definition withdraw (tblkey : bytes) : AM Z :=
  ret ← on_shm (hash_tbl_remove tblkey);
  add_change_trigger_node tblkey [] QCONF_TRIGGER_TYPE_REMOVE [];;
  mret ret.

(** The [switch] of [process_node] on the result of [zk_get_node]. *)
Definition finish_node (tblkey : bytes) (ret : Z) (val : bytes) : AM Z :=
  if ret =? QCONF_OK then publish tblkey (nodeval_to_tblval tblkey val) []
  else if ret =? QCONF_NODE_NOT_EXIST then withdraw tblkey
  else mret ret.

Definition process_node (zh : Z) (tblkey path : bytes) : AM Z :=
  '(ret, val) ← on_zk (zk_get_node buf_ok zh path [] true);
  finish_node tblkey ret val.

(** The text of the children, when feedback is on and the value was new. *)
Definition publish_children (tblkey tblval : bytes) (fb_text : option bytes) : AM Z :=
  ret ← on_shm (hash_tbl_set tblkey tblval);
  (if ret =? QCONF_OK then
     enabled ← gets (fun s => fb_enable (a_set s));
     fb ← (if (enabled : bool) then (match fb_text with Some t => mret t | None => undefined end) else mret []);
     add_change_trigger_node tblkey tblval QCONF_TRIGGER_TYPE_ADD_OR_MODIFY fb;; mret tt
   else mret tt);;
  mret (same_is_ok ret).

Definition process_service (zh : Z) (tblkey path : bytes) : AM Z :=
  '(ret, chdnodes, status) ← on_zk (zk_get_chdnodes_with_status buf_ok zh path (SV 0 []) []);
  if ret =? QCONF_OK then
    match chdnodeval_to_tblval tblkey chdnodes status with
    | None => undefined
    | Some tblval => publish_children tblkey tblval (feedback_generate_chdval chdnodes status [])
    end
  else if ret =? QCONF_NODE_NOT_EXIST then withdraw tblkey
  else mret ret.

Definition process_batch (zh : Z) (tblkey path : bytes) : AM Z :=
  '(ret, nodes) ← on_zk (zk_get_chdnodes zh path (SV 0 []));
  if ret =? QCONF_OK then
    match batchnodeval_to_tblval tblkey nodes with
    | None => undefined
    | Some tblval => publish_children tblkey tblval (feedback_generate_batchval nodes [])
    end
  else if ret =? QCONF_NODE_NOT_EXIST then withdraw tblkey
  else mret ret.

(** A key that a gray release overrides. *)
Definition set_gray_value (tblkey gray_value : bytes) : AM Z :=
  ret ← on_shm (hash_tbl_set tblkey gray_value);
  (if ret =? QCONF_OK then add_change_trigger_node tblkey gray_value QCONF_TRIGGER_TYPE_ADD_OR_MODIFY [];; mret tt else mret tt);;
  if negb (ret =? QCONF_OK) && negb (ret =? QCONF_ERR_SAME_VALUE) then mret QCONF_ERR_GRAY_FAKE_SHM_FAILED else mret QCONF_OK.

(** The fallback when ZooKeeper failed. *)
Definition read_dump (tblkey : bytes) : AM Z :=
  '(ret, tblval) ← on_dump (qconf_dump_get tblkey []);
  if negb (ret =? QCONF_OK) then mret QCONF_ERR_OTHER else
  ret ← on_shm (hash_tbl_set tblkey tblval);
  mret (same_is_ok ret).

Definition set_watcher_and_update_tbl (tblkey : bytes) : AM Z :=
  g ← gets a_gray;
  let '(is_gray, gray_value) := is_gray_node g tblkey [] in
  if (is_gray : bool) then set_gray_value tblkey gray_value else
  let '(_, (data_type, idc, path)) := deserialize_from_tblkey tblkey QCONF_DATA_TYPE_UNKNOWN [] [] in
  zh ← get_zhandle_by_idc idc;
  ret ← (if negb (zh =? 0) then
           if decide (data_type = QCONF_DATA_TYPE_NODE) then process_node zh tblkey path
           else if decide (data_type = QCONF_DATA_TYPE_SERVICE) then process_service zh tblkey path
           else if decide (data_type = QCONF_DATA_TYPE_BATCH_NODE) then process_batch zh tblkey path
           else mret QCONF_ERR_DATA_TYPE
         else mret QCONF_ERR_OTHER);
  if ret =? QCONF_ERR_ZOO_FAILED then read_dump tblkey else mret ret.

(** One round of [deque_process]; the thread waits while the queue is empty. *)
Definition deque_step : AM unit :=
  tblkey ← take_watch_node;
  add_pending_node tblkey;;
  (if decide (tblkey = []) then mret tt else set_watcher_and_update_tbl tblkey;; mret tt);;
  del_pending_node tblkey.

(** ** The assistant thread *)

Definition diff_with_zk (tblkey tblval : bytes) : AM bool :=
  let '(_, (data_type, idc, path)) := deserialize_from_tblkey tblkey QCONF_DATA_TYPE_UNKNOWN [] [] in
  if bool_decide (data_type = QCONF_DATA_TYPE_ZK_HOST) || bool_decide (data_type = QCONF_DATA_TYPE_LOCAL_IDC) then mret false else
  zh ← get_zhandle_by_idc idc;
  if zh =? 0 then mret false else
  if decide (data_type = QCONF_DATA_TYPE_NODE) then
    '(ret, zkval) ← on_zk (zk_get_node buf_ok zh path [] true);
    if ret =? QCONF_NODE_NOT_EXIST then mret true else
    mret ((ret =? QCONF_OK) && negb (bool_decide (tblval = nodeval_to_tblval tblkey zkval)))
  else if decide (data_type = QCONF_DATA_TYPE_SERVICE) then
    '(ret, chdnodes, status) ← on_zk (zk_get_chdnodes_with_status buf_ok zh path (SV 0 []) []);
    if ret =? QCONF_NODE_NOT_EXIST then mret true else
    if ret =? QCONF_OK then
      match chdnodeval_to_tblval tblkey chdnodes status with
      | None => undefined
      | Some tblval_new => mret (negb (bool_decide (tblval = tblval_new)))
      end
    else mret false
  else if decide (data_type = QCONF_DATA_TYPE_BATCH_NODE) then
    '(ret, chdnodes) ← on_zk (zk_get_chdnodes zh path (SV 0 []));
    if ret =? QCONF_NODE_NOT_EXIST then mret true else
    if ret =? QCONF_OK then
      match batchnodeval_to_tblval tblkey chdnodes with
      | None => undefined
      | Some tblval_new => mret (negb (bool_decide (tblval = tblval_new)))
      end
    else mret false
  else mret false.

(** The loop over the table. *)
Fixpoint scan_loop (n : nat) (max_slots : Z) (tblkey tblval : bytes) (idx : Z) : AM unit :=
  match n with
  | O => undefined
  | S n' =>
      stop ← gets (fun s => stop_watcher_setting (a_set s));
      if (idx <? max_slots) && negb stop then
        '(ret, (tblkey, tblval, idx)) ← on_shm (hash_tbl_getnext tblkey tblval idx);
        (if ret =? QCONF_OK then
           on_dump (qconf_dump_set tblkey tblval);;
           differs ← diff_with_zk tblkey tblval;
           if (differs : bool) then add_watcher_node tblkey else mret tt
         else mret tt);;
        scan_loop n' max_slots tblkey tblval idx
      else mret tt
  end.

(** The loop over the handles. The keys of the map are pairs of an idc and its hosts. *)
Fixpoint notify_loop (idcs : list bytes) : AM unit :=
  match idcs with
  | [] => mret tt
  | cidc :: idcs' =>
      '(ret, zh) ← ih_find cidc;
      (if (ret =? QCONF_OK) && negb (zh =? 0) then
         ret ← on_gray (watch_notify_node hostname zh);
         if ret =? QCONF_OK then add_gray_idc cidc else mret tt
       else mret tt);;
      notify_loop idcs'
  end.

Definition process_tbl : AM Z :=
  '(_, max_slots, _) ← on_shm hash_tbl_get_count;
  scan_loop (S (Z.to_nat max_slots)) max_slots [] [] 0;;
  idcs ← lock_ht_keys;
  notify_loop idcs;;
  mret QCONF_OK.

(** The pause of the assistant thread, in steps of 10 ms; it ends early when a session was renewed. *)
Fixpoint sleep_loop (n : nat) : AM unit :=
  match n with
  | O => mret tt
  | S n' =>
      stop ← gets (fun s => stop_watcher_setting (a_set s));
      finish ← gets (fun s => finish_process_tbl_sleep_setting (a_set s));
      if negb stop && negb finish then on_msg (usleep 10000);; sleep_loop n' else mret tt
  end.

Definition msleep_interval (msecond : Z) : AM unit :=
  sleep_loop (Z.to_nat (Z.quot msecond 10));;
  upd_set (set_finish false).

(** One round of [assist_watcher_process]; false when the thread ends. *)
Definition assist_step (interval : Z) : AM bool :=
  msleep_interval interval;;
  stop ← gets (fun s => stop_watcher_setting (a_set s));
  if (stop : bool) then mret false else process_tbl;; mret true.

(** ** The message thread *)

Variant verdict := Continue | Break | ExitProcess.

Definition msg_step (key : bytes) : AM (verdict * bytes) :=
  id ← gets (fun s => msg_queue_id (a_set s));
  '(ret, key) ← on_msg (receive_msg id key);
  stop ← gets (fun s => stop_watcher_setting (a_set s));
  if (stop : bool) then mret (Break, key) else
  if ret =? QCONF_OK then add_watcher_node key;; mret (Continue, key)
  else if ret =? QCONF_ERR_MSGIDRM then
    ret ← qconf_init_msg_key;
    mret (if ret =? QCONF_OK then Continue else ExitProcess, key)
  else mret (Continue, key).

(** ** The trigger thread *)

Definition trigger_dump (tblkey tblval : bytes) (trigger_type : byte) : AM unit :=
  if decide (tblkey = []) then mret tt
  else if decide (trigger_type = QCONF_TRIGGER_TYPE_ADD_OR_MODIFY) then on_dump (qconf_dump_set tblkey tblval);; mret tt
  else if decide (trigger_type = QCONF_TRIGGER_TYPE_REMOVE) then on_dump (qconf_dump_delete tblkey);; mret tt
  else mret tt.

Definition script_head (path_no_prefix idc : bytes) (data_type trigger_type : byte) : bytes :=
  str "qconf_path=" ++ path_no_prefix ++ str ";qconf_idc=" ++ idc ++ str ";qconf_type=" ++ [data_type] ++
  str ";qconf_event=" ++ [trigger_type] ++ str ";".

Definition trigger_script (data_type : byte) (idc path : bytes) (trigger_type : byte) : AM unit :=
  if bool_decide (idc = []) || bool_decide (path = []) then mret tt else
  let path_no_prefix :=
    if QCONF_INTERNAL && bool_decide (take (length QCONF_PREFIX) path = QCONF_PREFIX)
    then drop (length QCONF_PREFIX) path else path in
  let head := script_head path_no_prefix idc data_type trigger_type in
  dir ← gets (fun s => qconf_script_dir (a_set s));
  '(ret, content) ← on_host (find_script dir path_no_prefix []);
  if negb (ret =? QCONF_OK) then mret tt else
  timeout ← gets (fun s => scexec_timeout (a_set s));
  on_host (execute_script fuel (head ++ content) timeout);;
  mret tt.

Definition trigger_feedback (data_type : byte) (idc path tblkey : bytes) (mval : fb_val) (trigger_type : byte) : AM unit :=
  if bool_decide (idc = []) || bool_decide (path = []) then mret tt else
  zh ← get_zhandle_by_idc idc;
  if zh =? 0 then mret tt else
  ip ← gets (fun s => feedback_ip (a_set s));
  '(ret, ip) ← (if decide (ip = []) then on_fb (get_feedback_ip zh ip) else mret (QCONF_OK, ip));
  upd_set (set_feedback_ip ip);;
  if negb (ret =? QCONF_OK) then mret tt else
  '(ret, content) ← on_fb (feedback_generate_content ip data_type idc path mval []);
  if ret =? QCONF_OK then
    ret ← on_fb (feedback_process content);
    if ret =? QCONF_ERR_FB_TIMEOUT
    then add_change_trigger_node tblkey (fb_tblval mval) QCONF_TRIGGER_TYPE_RESET (fb_chds mval);; mret tt
    else mret tt
  else mret tt.

(** One round of [change_trigger_process]. *)
Definition trigger_step : AM unit :=
  '(mkey, mval) ← take_trigger;
  match mkey with
  | [] => mret tt
  | trigger_type :: tblkey =>
      let '(_, (data_type, idc, path)) := deserialize_from_tblkey tblkey x00 [] [] in
      let tblval := fb_tblval mval in
      (if bool_decide (trigger_type = QCONF_TRIGGER_TYPE_ADD_OR_MODIFY) || bool_decide (trigger_type = QCONF_TRIGGER_TYPE_REMOVE) then
         trigger_script data_type idc path trigger_type;;
         trigger_dump tblkey tblval trigger_type
       else mret tt);;
      enabled ← gets (fun s => fb_enable (a_set s));
      if negb (bool_decide (trigger_type = QCONF_TRIGGER_TYPE_REMOVE)) && enabled
      then trigger_feedback data_type idc path tblkey mval trigger_type else mret tt
  end.

(** ** The gray thread *)

Fixpoint add_all (nodes : list (bytes * bytes)) : AM unit :=
  match nodes with
  | [] => mret tt
  | kv :: nodes' => add_watcher_node kv.1;; add_all nodes'
  end.

(** One round of [do_gray_process]. *)
Definition gray_step : AM unit :=
  gray_idc ← take_gray_idc;
  if decide (gray_idc = []) then mret tt else
  zh ← get_zhandle_by_idc gray_idc;
  '(_, nodes) ← on_gray (gray_process buf_ok hostname fuel zh gray_idc []);
  add_all nodes.
End Watcher.

(** ** Start *)

Section Init.
Import HashArr.
Context {G K W : Type} `{OS W hstate}.

Definition qconf_init_shm_tbl (maxSlotsNum : Z) : SM (agent hstate G K W) Z :=
  '(ret, _) ← on_msg (ShmInit.create_hash_tbl maxSlotsNum false QCONF_DEFAULT_SHM_KEY 420 (* 0644 *));
  if ret =? QCONF_OK then
    initRet ← on_shm (initLruMem (T := hstate));
    mret (if (initRet : bool) then ret else QCONF_ERR_MEM)
  else mret ret.
End Init.
End Watcher.
