(* ===== verification/WatcherQueue.v ===== *)
(** * The queues of the watcher under every interleaving

    The threads of the agent touch the queues only in critical sections. [qstep] is the relation of all
    of them; every operation of the watcher moves the queues along it, so what holds of all its
    sequences holds however the threads are interleaved. *)

From S2P Require Import Prelude Common Text HashArr Format Store Shm ShmThm Sys Config Dump Zoo Gray Script Feedback Agent Watcher.

Create HintDb locked.

Module WatcherQueue.
Import Format Shm Msg Config Dump Zoo Gray Script Feedback Agent Watcher.

(** ** A queue without duplicates *)

Record queue_ok (q : queue) : Prop := {
  qo_nodup : NoDup (q_need q);
  qo_exist : forall k, k ∈ q_exist q <-> k ∈ q_need q;
  qo_nil : [] ∉ q_need q
}.

Lemma no_queue_ok : queue_ok no_queue.
Proof. split; [apply NoDup_nil_2|set_solver|set_solver]. Qed.

Lemma enqueue_elem key q k : queue_ok q -> k ∈ q_need (enqueue key q) <-> k = key \/ k ∈ q_need q.
Proof.
  intros [_ He _]. unfold enqueue. destruct (decide (key ∈ q_exist q)) as [Hin|]; [|set_solver].
  rewrite He in Hin. naive_solver.
Qed.

Lemma enqueue_ok key q : key <> [] -> queue_ok q -> queue_ok (enqueue key q).
Proof.
  intros Hk Hq. pose proof (fun k => enqueue_elem key q k Hq) as Hel. destruct Hq as [Hn He Hz]. unfold enqueue in *.
  destruct (decide (key ∈ q_exist q)) as [Hin|Hin]; [done|]. split; cbn [q_need q_exist] in *.
  - apply NoDup_app. split; [done|]. split; [|apply NoDup_singleton]. intros x Hx ->%list_elem_of_singleton. by apply Hin, He.
  - intros k. rewrite Hel, elem_of_union, elem_of_singleton, He. done.
  - rewrite Hel. naive_solver.
Qed.

Lemma dequeue_ok q : queue_ok q -> queue_ok (dequeue q).2 /\
  ((q_need q = [] /\ dequeue q = ([], q)) \/ (exists key, q_need q = key :: q_need (dequeue q).2 /\ (dequeue q).1 = key /\ key <> [])).
Proof.
  intros Hq. pose proof Hq as [Hn He Hz]. unfold dequeue. destruct (q_need q) as [|key need] eqn:E; [by split; [|left]|].
  apply NoDup_cons in Hn as [Hk Hn]. cbn [fst snd q_need q_exist]. split; [|right; exists key; set_solver]. split; [done| |set_solver].
  intros k. cbn [q_exist q_need]. rewrite elem_of_difference, elem_of_singleton, He. set_solver.
Qed.

(** ** All the queues *)

Record trigger_ok (q : queues) : Prop := {
  to_nodup : NoDup (need_trigger_nodes q);
  to_exist : forall k, is_Some (exist_trigger_nodes q !! k) <-> k ∈ need_trigger_nodes q;
  to_nil : [] ∉ need_trigger_nodes q
}.

Record queues_ok (q : queues) : Prop := {
  qs_watch : queue_ok (watch_nodes q);
  qs_gray : queue_ok (gray_idcs q);
  qs_trigger : trigger_ok q
}.

Definition no_queues : queues := mkQueues no_queue ∅ no_queue [] ∅.

Lemma no_queues_ok : queues_ok no_queues.
Proof.
  split; [apply no_queue_ok..|]. split; cbn; [apply NoDup_nil_2| |set_solver]. intros k. rewrite lookup_empty. split; [by intros []|set_solver].
Qed.

Lemma push_trigger_ok mkey mval q : mkey <> [] -> trigger_ok q -> trigger_ok (push_trigger mkey mval q).
Proof.
  intros Hk [Hn He Hz]. unfold push_trigger. destruct (exist_trigger_nodes q !! mkey) as [v|] eqn:E; [done|].
  assert (Hno : mkey ∉ need_trigger_nodes q) by (rewrite <- He, E; by intros []).
  split; cbn [need_trigger_nodes exist_trigger_nodes set_trigger].
  - apply NoDup_app. split; [done|]. split; [|apply NoDup_singleton]. by intros x Hx ->%list_elem_of_singleton.
  - intros k. rewrite elem_of_app, list_elem_of_singleton, <- He. destruct (decide (k = mkey)) as [->|Hne].
    + rewrite lookup_insert_eq. split; [by right|by eexists].
    + rewrite lookup_insert_ne by done. tauto.
  - set_solver.
Qed.

Lemma pop_trigger_ok mkey need q :
  need_trigger_nodes q = mkey :: need -> trigger_ok q -> trigger_ok (set_trigger need (delete mkey (exist_trigger_nodes q)) q).
Proof.
  intros E [Hn He Hz]. rewrite E in *. apply NoDup_cons in Hn as [Hk Hn]. split; cbn [need_trigger_nodes exist_trigger_nodes set_trigger].
  - done.
  - intros k. rewrite lookup_delete_is_Some, He, elem_of_cons. split; [naive_solver|]. intros Hin. split; [by intros <-|by right].
  - set_solver.
Qed.

(** ** Critical sections *)

Inductive qstep : queues -> queues -> Prop :=
  | q_add_watch key q : key <> [] -> qstep q (set_watch (enqueue key (watch_nodes q)) q)
  | q_take_watch q : qstep q (set_watch (dequeue (watch_nodes q)).2 q)
  | q_add_gray key q : key <> [] -> qstep q (set_gray_idcs (enqueue key (gray_idcs q)) q)
  | q_take_gray q : qstep q (set_gray_idcs (dequeue (gray_idcs q)).2 q)
  | q_pending p q : qstep q (set_pending p q)
  | q_add_trigger mkey mval q : mkey <> [] -> qstep q (push_trigger mkey mval q)
  | q_take_trigger mkey need q : need_trigger_nodes q = mkey :: need ->
      qstep q (set_trigger need (delete mkey (exist_trigger_nodes q)) q).

Lemma qstep_ok q q' : qstep q q' -> queues_ok q -> queues_ok q'.
Proof.
  intros Hs [Hw Hg Ht].
  assert (Ht' : forall w p g, trigger_ok (mkQueues w p g (need_trigger_nodes q) (exist_trigger_nodes q))).
  { intros w p g. destruct Ht. by split. }
  destruct Hs; split; try done; try apply Ht'; cbn [watch_nodes gray_idcs set_watch set_gray_idcs set_pending set_trigger];
    eauto using enqueue_ok, push_trigger_ok, pop_trigger_ok; try by apply dequeue_ok.
  all: unfold push_trigger; by destruct (exist_trigger_nodes q !! mkey).
Qed.

Lemma qsteps_ok q q' : rtc qstep q q' -> queues_ok q -> queues_ok q'.
Proof. induction 1; eauto using qstep_ok. Qed.

Lemma watch_queue_steps q q' : rtc qstep q q' -> queue_ok (watch_nodes q) -> queue_ok (watch_nodes q').
Proof.
  induction 1 as [|q q1 q2 Hs _ IH]; [done|]. intros Hw. apply IH.
  destruct Hs as [| | | | |mkey mval q|]; cbn [watch_nodes set_watch]; try done; [by apply enqueue_ok|by apply dequeue_ok|].
  unfold push_trigger. by destruct (exist_trigger_nodes q !! mkey).
Qed.

(** ** Every operation moves along critical sections *)

Section Rounds.
Context {T G K W : Type} `{Store T} `{Gdbm G} `{Zk K} `{OS W T} `{Host W}.
Variables (buf_ok : bool) (hostname : bytes) (QCONF_INTERNAL : bool) (fuel : nat).
Abbreviation AM := (SM (agent T G K W)).

Definition locked {A} (c : AM A) : Prop := forall s r s', c s = Some (r, s') -> rtc qstep (a_q s) (a_q s').

Lemma locked_ret {A} (a : A) : locked (mret a).
Proof. intros s r s' [= <- <-]. done. Qed.
Lemma locked_undefined {A} : locked (undefined : AM A).
Proof. intros s r s'. done. Qed.
Lemma locked_gets {A} (f : agent T G K W -> A) : locked (gets f).
Proof. intros s r s' [= <- <-]. done. Qed.
Lemma locked_bind {A B} (c : AM A) (f : A -> AM B) : locked c -> (forall a, locked (f a)) -> locked (c ≫= f).
Proof. intros Hc Hf s r s' (a & s1 & Hs1 & Hs2)%SM_bind_inv. etrans; [by eapply Hc|by eapply Hf]. Qed.
Lemma locked_same {A} (c : AM A) : (forall s r s', c s = Some (r, s') -> a_q s' = a_q s) -> locked c.
Proof. intros Hc s r s' E. by rewrite (Hc _ _ _ E). Qed.
Lemma locked_on_shm {A} (c : SM (shm T) A) : locked (on_shm c).
Proof. apply locked_same. unfold on_shm. intros s r s'. destruct (c (a_shm s)) as [[]|]; [|done]. by intros [= _ <-]. Qed.
Lemma locked_on_dump {A} (c : SM (dump G) A) : locked (on_dump c).
Proof. apply locked_same. unfold on_dump. intros s r s'. destruct (c (a_dump s)) as [[]|]; [|done]. by intros [= _ <-]. Qed.
Lemma locked_on_gray {A} (c : SM (gray * K) A) : locked (on_gray c).
Proof. apply locked_same. unfold on_gray. intros s r s'. destruct (c _) as [[? []]|]; [|done]. by intros [= _ <-]. Qed.
Lemma locked_on_zk {A} (c : SM K A) : locked (on_zk c).
Proof. apply locked_same. unfold on_zk. intros s r s'. destruct (c _) as [[]|]; [|done]. by intros [= _ <-]. Qed.
Lemma locked_on_fb {A} (c : SM (feedback * W) A) : locked (on_fb c).
Proof. apply locked_same. unfold on_fb. intros s r s'. destruct (c _) as [[? []]|]; [|done]. by intros [= _ <-]. Qed.
Lemma locked_on_host {A} (c : SM W A) : locked (on_host c).
Proof. apply locked_same. unfold on_host. intros s r s'. destruct (c _) as [[]|]; [|done]. by intros [= _ <-]. Qed.
Lemma locked_on_msg {A} (c : SM (W * T) A) : locked (on_msg c).
Proof. apply locked_same. unfold on_msg. intros s r s'. destruct (c _) as [[? []]|]; [|done]. by intros [= _ <-]. Qed.
Lemma locked_upd_set f : locked (upd_set f).
Proof. by intros s r s' [= <- <-]. Qed.
Lemma locked_upd_ht f : locked (upd_ht f).
Proof. by intros s r s' [= <- <-]. Qed.
Lemma locked_on_q {A} (f : queues -> A * queues) : (forall q, rtc qstep q (f q).2) -> locked (on_q f).
Proof. intros Hf s r s'. unfold on_q. specialize (Hf (a_q s)). destruct (f (a_q s)) as [a q]. by intros [= <- <-]. Qed.

Hint Resolve locked_ret locked_undefined locked_gets locked_on_shm locked_on_dump locked_on_gray locked_on_zk locked_on_fb
  locked_on_host locked_on_msg locked_upd_set locked_upd_ht : locked.

(** Walk through a command: its binds, tests and calls. *)
Ltac locked :=
  repeat first
    [ progress intros
    | solve [eauto with locked]
    | simple apply locked_bind
    | progress cbn beta iota zeta
    | match goal with
      | |- locked (let '_ := ?x in _) => destruct x
      | |- locked (if ?b then _ else _) => destruct b
      | |- locked (match ?x with _ => _ end) => destruct x
      end ].

Lemma locked_add_watcher_node key : locked (add_watcher_node key).
Proof.
  unfold add_watcher_node. destruct (decide (key = [])); [apply locked_ret|]. apply locked_on_q. intros q. apply rtc_once. by constructor.
Qed.
Lemma locked_add_gray_idc key : locked (add_gray_idc key).
Proof.
  unfold add_gray_idc. destruct (decide (key = [])); [apply locked_ret|]. apply locked_on_q. intros q. apply rtc_once. by constructor.
Qed.
Lemma locked_take_watch_node : locked take_watch_node.
Proof.
  apply locked_on_q. intros q. pose proof (q_take_watch q) as Hq. destruct (dequeue (watch_nodes q)). by apply rtc_once.
Qed.
Lemma locked_take_gray_idc : locked take_gray_idc.
Proof.
  apply locked_on_q. intros q. pose proof (q_take_gray q) as Hq. destruct (dequeue (gray_idcs q)). by apply rtc_once.
Qed.
Lemma locked_add_pending key : locked (add_pending_node key).
Proof. apply locked_on_q. intros q. apply rtc_once. constructor. Qed.
Lemma locked_del_pending key : locked (del_pending_node key).
Proof. apply locked_on_q. intros q. apply rtc_once. constructor. Qed.
Lemma locked_pending_exist key : locked (pending_node_exist key).
Proof. apply locked_on_q. intros q. done. Qed.
Lemma locked_add_trigger key val t fb : locked (add_change_trigger_node key val t fb).
Proof.
  unfold add_change_trigger_node. destruct (decide (key = [])); [apply locked_ret|]. apply locked_on_q. intros q.
  apply rtc_once. by constructor.
Qed.
Lemma locked_take_trigger : locked take_trigger.
Proof.
  intros s r s'. unfold take_trigger. destruct (need_trigger_nodes (a_q s)) as [|mkey need] eqn:E; [by intros [= _ <-]|].
  destruct (exist_trigger_nodes (a_q s) !! mkey); [|done]. intros [= _ <-]. apply rtc_once. by constructor.
Qed.

Hint Resolve locked_add_watcher_node locked_add_gray_idc locked_take_watch_node locked_take_gray_idc locked_add_pending
  locked_del_pending locked_pending_exist locked_add_trigger locked_take_trigger : locked.

Lemma locked_init_env zh idc_host idc : locked (init_env_for_zk hostname zh idc_host idc).
Proof. unfold init_env_for_zk, hi_update, ih_update. locked. Qed.
Hint Resolve locked_init_env : locked.

Lemma locked_get_zhandle idc : locked (get_zhandle_by_idc hostname idc).
Proof. unfold get_zhandle_by_idc, ih_find. locked. Qed.
Hint Resolve locked_get_zhandle : locked.

Lemma locked_add_if_known key : locked (add_if_known key).
Proof. unfold add_if_known, node_known. locked. Qed.
Hint Resolve locked_add_if_known : locked.

Lemma locked_global_watcher zh type state path : locked (global_watcher hostname zh type state path).
Proof.
  unfold global_watcher, get_idc_by_zhandle, hi_find, watcher_reconnect_to_zookeeper, session_connected, process_child_event,
    process_created_event, process_deleted_event, process_changed_event, hi_find, hi_delete, ih_delete. locked.
Qed.

Lemma locked_publish key val fb : locked (publish key val fb).
Proof. unfold publish. locked. Qed.
Lemma locked_withdraw key : locked (withdraw key).
Proof. unfold withdraw. locked. Qed.
Lemma locked_publish_children key val fb : locked (publish_children key val fb).
Proof. unfold publish_children. locked. Qed.
Hint Resolve locked_publish locked_withdraw locked_publish_children : locked.

Lemma locked_set_watcher key : locked (set_watcher_and_update_tbl buf_ok hostname key).
Proof.
  unfold set_watcher_and_update_tbl, set_gray_value, process_node, finish_node, process_service, process_batch, read_dump. locked.
Qed.
Hint Resolve locked_set_watcher : locked.

Lemma locked_deque_step : locked (deque_step buf_ok hostname).
Proof. unfold deque_step. locked. Qed.

Lemma locked_msg_step key : locked (msg_step key).
Proof. unfold msg_step, qconf_init_msg_key. locked. Qed.

Lemma locked_trigger_step : locked (trigger_step hostname QCONF_INTERNAL fuel).
Proof. unfold trigger_step, trigger_script, trigger_dump, trigger_feedback. locked. Qed.

Lemma locked_add_all nodes : locked (add_all nodes).
Proof. induction nodes; cbn [add_all]; locked. Qed.
Hint Resolve locked_add_all : locked.

Lemma locked_gray_step : locked (gray_step buf_ok hostname fuel).
Proof. unfold gray_step. locked. Qed.

Lemma locked_diff key val : locked (diff_with_zk buf_ok hostname key val).
Proof. unfold diff_with_zk. locked. Qed.
Hint Resolve locked_diff : locked.

Lemma locked_process_tbl : locked (process_tbl buf_ok hostname).
Proof.
  assert (Hs : forall n max key val idx, locked (scan_loop buf_ok hostname n max key val idx)).
  { induction n; intros; cbn [scan_loop]; locked. }
  assert (Hn : forall idcs, locked (notify_loop hostname idcs)).
  { induction idcs; cbn [notify_loop]; unfold ih_find; locked. }
  unfold process_tbl, lock_ht_keys. locked.
Qed.
Hint Resolve locked_process_tbl : locked.

Lemma locked_assist_step interval : locked (assist_step buf_ok hostname interval).
Proof.
  assert (Hs : forall n, locked (sleep_loop n)) by (induction n; cbn [sleep_loop]; locked).
  unfold assist_step, msleep_interval. locked.
Qed.

(** ** Rounds of the threads *)

(** A round of one of the threads, a callback, or a step of the world around the agent, which does not
    reach its queues. *)
Inductive round : agent T G K W -> agent T G K W -> Prop :=
  | round_main s s' : deque_step buf_ok hostname s = Some (tt, s') -> round s s'
  | round_msg key r s s' : msg_step key s = Some (r, s') -> round s s'
  | round_trigger s s' : trigger_step hostname QCONF_INTERNAL fuel s = Some (tt, s') -> round s s'
  | round_gray s s' : gray_step buf_ok hostname fuel s = Some (tt, s') -> round s s'
  | round_assist interval r s s' : assist_step buf_ok hostname interval s = Some (r, s') -> round s s'
  | round_event zh type state path s s' : global_watcher hostname zh type state path s = Some (tt, s') -> round s s'
  | round_env s s' : a_q s' = a_q s -> round s s'.

Lemma round_locked s s' : round s s' -> rtc qstep (a_q s) (a_q s').
Proof.
  destruct 1 as [? ? E|? ? ? ? E|? ? E|? ? E|? ? ? ? E|? ? ? ? ? ? E|? ? ->];
    [by eapply locked_deque_step|by eapply locked_msg_step|by eapply locked_trigger_step|by eapply locked_gray_step
    |by eapply locked_assist_step|by eapply locked_global_watcher|done].
Qed.

Lemma rounds_locked s s' : rtc round s s' -> rtc qstep (a_q s) (a_q s').
Proof. induction 1 as [|? ? ? Hr _ IH]; [done|]. etrans; [by apply round_locked|done]. Qed.

(** C14. However the threads of the agent are interleaved, down to their critical sections, every queue
    holds each key once and no empty key, its set holds exactly the queued keys, and the trigger thread
    finds the entry of every key it takes: the iterator that it reads without a test is never the end of
    the map. Every round of every thread changes the queues only through these critical sections. *)
Theorem queues_interleaved s s' q :
  a_q s = no_queues -> rtc round s s' -> rtc qstep (a_q s') q ->
  queues_ok q /\ rtc qstep no_queues q /\ forall x : agent T G K W, a_q x = q -> exists r x', take_trigger x = Some (r, x').
Proof.
  intros E Hr Hq. apply rounds_locked in Hr. rewrite E in Hr. assert (Hall : rtc qstep no_queues q) by by etrans.
  pose proof (qsteps_ok _ _ Hall no_queues_ok) as Hok. split; [done|]. split; [done|]. intros x Ex.
  unfold take_trigger. rewrite Ex. destruct (need_trigger_nodes q) as [|mkey need] eqn:En; [by eexists _, _|].
  assert (Hs : is_Some (exist_trigger_nodes q !! mkey)) by (apply Hok; rewrite En; by left).
  destruct Hs as (mval & ->). by eexists _, _.
Qed.
End Rounds.

(** ** An agent with a table of 40 slots, a machine without scripts and an empty ZooKeeper *)

Section Demo.
Import HashArr.

#[export] Instance quiet_os : OS (list bytes) hstate := fifo_os 10 id.
#[export] Instance demo_host : Host (list bytes) := mem_host ∅.

Definition demo_settings : settings := mkSettings 5 (str "/qconf/__agent/h") 3000 3000 false false false (str "bj") (str "/q/script/") [].
Definition demo_conf : conf := mkConf ∅ {[ str "bj" := str "10.0.0.1:2181" ]}.

(** The handle of the idc is open. *)
Definition demo_host_list : bytes := str "10.0.0.1:2181".
Definition demo_idc_host : bytes := serialize_to_idc_host (str "bj") demo_host_list.
Definition demo_handles : handles := mkHandles {[ demo_idc_host := 1 ]} {[ 1 := demo_idc_host ]}.

Definition demo_agent (tree : gmap bytes bytes) (w : list bytes) (q : queues) : agent hstate (gmap bytes bytes) (gmap bytes bytes) (list bytes) :=
  mkAgent demo_shm (mkDump (str "d") true ∅) tree (mkGray [] ∅) demo_conf w (mkFeedback true []) demo_settings demo_handles q.

Lemma queues_interleaved_witness :
  exists q, queues_ok q /\ watch_nodes q = enqueue (str "2k") no_queue.
Proof.
  set (q := set_watch (enqueue (str "2k") no_queue) no_queues). exists q. split; [|reflexivity].
  destruct (queues_interleaved true (str "h") false 5 (demo_agent ∅ [] no_queues) (demo_agent ∅ [] no_queues) q) as [Hok _];
    [reflexivity|apply rtc_refl|apply rtc_once; apply (q_add_watch (str "2k") no_queues); discriminate|exact Hok].
Defined.
End Demo.
End WatcherQueue.
