(* ===== verification/Lock.v ===== *)
(** * Mutexes, conditions and the threads that meet at a queue ([src/agent/qconf_lock.cc], [qconf_watcher.cc])

    [_watch_nodes_mutex] guards the queue of the main thread: any number of threads put keys into it
    ([add_watcher_node]), the main thread waits for them on [_watch_nodes_cond] ([deque_process]), and
    [qconf_thread_exit], which also runs in a handler of signals, asks it to end. The queue of gray idcs is
    made of the same statements ([add_gray_idc], [do_gray_process]). Every statement that touches what the
    threads share is a step of its own here; elsewhere a critical section is one step, and [LockThm] shows
    that it may be. *)

From S2P Require Import Prelude Common Config Agent.

Module Lock.
Import Agent.

(** ** [qconf_lock.cc] over the calls of the system

    A thread is a number. A call of [pthread_mutex_lock] that would wait is not a step yet ([None]); a call
    that a thread must not make has no result, and [PthreadCall] would end the process. *)

Abbreviation tid := nat.

Record Mutex := mkMutex { mu_owner : option tid }.
Record CondVar := mkCondVar { cv_waiters : list tid }.

(** [PthreadCall]: the process goes on only when the call reported no error. *)
Definition PthreadCall {A} (result : Z) (a : A) : option A := if result =? 0 then Some a else None.

Definition EPERM : Z := 1.

Definition mutex_lock (t : tid) (m : Mutex) : option Mutex :=
  match mu_owner m with None => PthreadCall 0 (mkMutex (Some t)) | Some _ => None end.

Definition mutex_unlock (t : tid) (m : Mutex) : option Mutex :=
  PthreadCall (if decide (mu_owner m = Some t) then 0 else EPERM) (mkMutex None).

(** [CondVar::Wait] in two steps: the mutex is released and the thread waits; once it was woken it takes
    the mutex again. *)
Definition cond_wait_begin (t : tid) (m : Mutex) (c : CondVar) : option (Mutex * CondVar) :=
  m' ← mutex_unlock t m; Some (m', mkCondVar (t :: cv_waiters c)).

Definition cond_wait_end (t : tid) (m : Mutex) (c : CondVar) : option Mutex :=
  if decide (t ∈ cv_waiters c) then None else mutex_lock t m.

Definition cond_signal_all (c : CondVar) : CondVar := mkCondVar [].

(** ** The threads *)

(** Where the consumer is in [deque_process]. *)
Inductive cpc :=
  | CTest                    (* the outer test *)
  | CLock
  | CLoop                    (* the inner test, first half: has the agent been stopped? *)
  | CSize                    (* the inner test, second half: is the queue empty? *)
  | CWait
  | CBlocked
  | CTake                    (* the test before the key is taken *)
  | CFront
  | CPop (key : bytes)
  | CErase (key : bytes)
  | CUnlock (key : bytes)
  | CWork (key : bytes)      (* outside: the key is processed *)
  | CDone.

(** Where a producer is in [add_watcher_node]. *)
Inductive ppc :=
  | PIdle
  | PLock (key : bytes)
  | PFind (key : bytes)
  | PPush (key : bytes)
  | PInsert (key : bytes)
  | PSignal
  | PUnlock.

(** Where [qconf_thread_exit] is. *)
Inductive spc := SStart | SSignal | SEnd.

(** What the threads share, where each is, and, for the theorems, the keys put into and taken from the
    queue so far. Producer [i] is thread [S i]; the consumer is thread 0. *)
Record sys := mkSys {
  y_mu : Mutex; y_cv : CondVar; y_need : list bytes; y_exist : gset bytes; y_stop : bool;
  y_c : cpc; y_p : list ppc; y_s : spc; y_added : list bytes; y_taken : list bytes
}.

Definition init (producers : nat) : sys :=
  mkSys (mkMutex None) (mkCondVar []) [] ∅ false CTest (replicate producers PIdle) SStart [] [].

Definition set_c (c : cpc) (s : sys) : sys :=
  mkSys (y_mu s) (y_cv s) (y_need s) (y_exist s) (y_stop s) c (y_p s) (y_s s) (y_added s) (y_taken s).
Definition set_p (i : nat) (p : ppc) (s : sys) : sys :=
  mkSys (y_mu s) (y_cv s) (y_need s) (y_exist s) (y_stop s) (y_c s) (<[i := p]> (y_p s)) (y_s s) (y_added s) (y_taken s).
Definition set_mu (m : Mutex) (s : sys) : sys :=
  mkSys m (y_cv s) (y_need s) (y_exist s) (y_stop s) (y_c s) (y_p s) (y_s s) (y_added s) (y_taken s).
Definition set_cv (c : CondVar) (s : sys) : sys :=
  mkSys (y_mu s) c (y_need s) (y_exist s) (y_stop s) (y_c s) (y_p s) (y_s s) (y_added s) (y_taken s).
Definition set_exist (x : gset bytes) (s : sys) : sys :=
  mkSys (y_mu s) (y_cv s) (y_need s) x (y_stop s) (y_c s) (y_p s) (y_s s) (y_added s) (y_taken s).
Definition push_back (key : bytes) (s : sys) : sys :=
  mkSys (y_mu s) (y_cv s) (y_need s ++ [key]) (y_exist s) (y_stop s) (y_c s) (y_p s) (y_s s) (y_added s ++ [key]) (y_taken s).
Definition pop_front (key : bytes) (s : sys) : sys :=
  mkSys (y_mu s) (y_cv s) (tail (y_need s)) (y_exist s) (y_stop s) (y_c s) (y_p s) (y_s s) (y_added s) (y_taken s ++ [key]).
Definition set_stop (b : bool) (x : spc) (s : sys) : sys :=
  mkSys (y_mu s) (y_cv s) (y_need s) (y_exist s) b (y_c s) (y_p s) x (y_added s) (y_taken s).

(** A statement of [deque_process]. *)
Definition deque_process_step (s : sys) : option sys :=
  match y_c s with
  | CTest => Some (set_c (if y_stop s then CDone else CLock) s)
  | CLock => m ← mutex_lock 0 (y_mu s); Some (set_c CLoop (set_mu m s))
  | CLoop => Some (set_c (if y_stop s then CTake else CSize) s)
  | CSize => Some (set_c (if decide (y_need s = []) then CWait else CTake) s)
  | CWait => '(m, c) ← cond_wait_begin 0 (y_mu s) (y_cv s); Some (set_c CBlocked (set_mu m (set_cv c s)))
  | CBlocked => m ← cond_wait_end 0 (y_mu s) (y_cv s); Some (set_c CLoop (set_mu m s))
  | CTake => Some (set_c (if decide (y_need s = []) then CUnlock [] else CFront) s)
  | CFront => match y_need s with key :: _ => Some (set_c (CPop key) s) | [] => None end
  | CPop key => Some (set_c (CErase key) (pop_front key s))
  | CErase key => Some (set_c (CUnlock key) (set_exist (y_exist s ∖ {[key]}) s))
  | CUnlock key => m ← mutex_unlock 0 (y_mu s); Some (set_c (CWork key) (set_mu m s))
  | CWork _ => Some (set_c CTest s)
  | CDone => None
  end.

(** A statement of [add_watcher_node], called with [key] when the producer is idle. *)
Definition add_watcher_node_step (i : nat) (key : bytes) (s : sys) : option sys :=
  p ← y_p s !! i;
  match p with
  | PIdle => Some (set_p i (if decide (key = []) then PIdle else PLock key) s)
  | PLock key => m ← mutex_lock (S i) (y_mu s); Some (set_p i (PFind key) (set_mu m s))
  | PFind key => Some (set_p i (if decide (key ∈ y_exist s) then PUnlock else PPush key) s)
  | PPush key => Some (set_p i (PInsert key) (push_back key s))
  | PInsert key => Some (set_p i PSignal (set_exist ({[key]} ∪ y_exist s) s))
  | PSignal => Some (set_p i PUnlock (set_cv (cond_signal_all (y_cv s)) s))
  | PUnlock => m ← mutex_unlock (S i) (y_mu s); Some (set_p i PIdle (set_mu m s))
  end.

(** A statement of [qconf_thread_exit]: it takes no mutex. *)
Definition qconf_thread_exit_step (s : sys) : option sys :=
  match y_s s with
  | SStart => Some (set_stop true SSignal s)
  | SSignal => Some (set_cv (cond_signal_all (y_cv s)) (set_stop (y_stop s) SEnd s))
  | SEnd => None
  end.

(** Whose turn it is. A waiting thread may also wake up for no reason. *)
Inductive turn := Consumer | Producer (i : nat) (key : bytes) | Stopper | Spurious.

Definition step (a : turn) (s : sys) : option sys :=
  match a with
  | Consumer => deque_process_step s
  | Producer i key => add_watcher_node_step i key s
  | Stopper => qconf_thread_exit_step s
  | Spurious => Some (set_cv (cond_signal_all (y_cv s)) s)
  end.

Fixpoint run (acts : list turn) (s : sys) : option sys :=
  match acts with [] => Some s | a :: acts' => s' ← step a s; run acts' s' end.

(** ** What a queue is when its operations are single steps *)

Inductive qop := Enqueue (key : bytes) | Dequeue.

(** The keys taken, and the queue afterwards. *)
Fixpoint replay (ops : list qop) (q : queue) : list bytes * queue :=
  match ops with
  | [] => ([], q)
  | Enqueue key :: ops' => replay ops' (enqueue key q)
  | Dequeue :: ops' =>
      let '(key, q') := dequeue q in
      let '(keys, q'') := replay ops' q' in
      (if decide (key = []) then keys else key :: keys, q'')
  end.
End Lock.
