(* ===== verification/LockThm.v ===== *)
(** * The threads at the queue under every interleaving

    The invariant of all the steps of [Lock]; that a critical section is as good as one step; that the
    consumer takes a key that was put into the queue; when a request to end is heard, and when not. *)

From S2P Require Import Prelude Common Config Agent Watcher WatcherQueue Lock.

Module LockThm.
Import Agent WatcherQueue Lock.

Definition owner (s : sys) : option tid := mu_owner (y_mu s).

(** The statements between taking and giving back the mutex. *)
Definition c_holds (c : cpc) : bool :=
  match c with CLoop | CSize | CWait | CTake | CFront | CPop _ | CErase _ | CUnlock _ => true | _ => false end.
Definition p_holds (p : ppc) : bool :=
  match p with PFind _ | PPush _ | PInsert _ | PSignal | PUnlock => true | _ => false end.

(** The queue as the thread inside, if any, will leave it: a key that was pushed counts as a member, one that
    was popped does not. *)
Definition committed (s : sys) : queue := mkQueue (y_need s)
  (match owner s with
   | None => y_exist s
   | Some O => match y_c s with CErase key => y_exist s ∖ {[key]} | _ => y_exist s end
   | Some (S i) => match y_p s !! i with Some (PInsert key) => {[key]} ∪ y_exist s | _ => y_exist s end
   end).

(** What a thread has found out and still relies on. *)
Definition c_knows (s : sys) : Prop :=
  match y_c s with
  | CWait => y_need s = []
  | CFront => y_need s <> []
  | CPop key => head (y_need s) = Some key
  | _ => True
  end.
Definition p_knows (s : sys) (p : ppc) : Prop :=
  match p with
  | PLock key | PFind key => key <> []
  | PPush key | PInsert key => key <> [] /\ key ∉ y_exist s
  | _ => True
  end.

(** A producer that will still wake the consumer. *)
Definition will_signal (s : sys) : Prop := exists i p, y_p s !! i = Some p /\ match p with PInsert _ | PSignal => True | _ => False end.

Record inv (s : sys) : Prop := {
  iv_c : c_holds (y_c s) = true <-> owner s = Some O;
  iv_p : forall i p, y_p s !! i = Some p -> p_holds p = true <-> owner s = Some (S i);
  iv_in : forall i, owner s = Some (S i) -> is_Some (y_p s !! i);
  iv_queue : queue_ok (committed s);
  iv_log : y_added s = y_taken s ++ y_need s;
  iv_cknow : c_knows s;
  iv_pknow : forall i p, y_p s !! i = Some p -> p_knows s p;
  iv_waiters : forall t, t ∈ cv_waiters (y_cv s) -> t = O /\ y_c s = CBlocked;
  iv_sleep : O ∈ cv_waiters (y_cv s) -> y_need s = [] \/ will_signal s
}.

Lemma init_inv n : inv (init n).
Proof.
  assert (Hp : forall i p, replicate n PIdle !! i = Some p -> p = PIdle) by by intros i p [-> _]%lookup_replicate.
  split; try done.
  - intros i p ->%Hp. done.
  - apply no_queue_ok.
  - intros i p ->%Hp. done.
  - intros t Ht. cbn in Ht. by apply not_elem_of_nil in Ht.
  - intros _. by left.
Qed.

Lemma committed_free s : owner s = None -> committed s = mkQueue (y_need s) (y_exist s).
Proof. intros E. unfold committed. by rewrite E. Qed.

(** A producer's place after a step of that producer. *)
Lemma moved (l : list ppc) i p0 p j q :
  l !! i = Some p0 -> <[i := p]> l !! j = Some q -> (j = i /\ q = p) \/ (j <> i /\ l !! j = Some q).
Proof.
  intros Hi Hj. destruct (decide (j = i)) as [->|Hne].
  - rewrite list_lookup_insert_eq in Hj by by eapply lookup_lt_Some. injection Hj as <-. by left.
  - rewrite list_lookup_insert_ne in Hj by done. by right.
Qed.

(** One step moves the committed queue by at most one of its operations. *)
Definition moves (s s' : sys) : Prop :=
  exists ops, replay ops (committed s) = (drop (length (y_taken s)) (y_taken s'), committed s') /\
    y_taken s' = y_taken s ++ drop (length (y_taken s)) (y_taken s').

Lemma stays s s' : y_taken s' = y_taken s -> committed s' = committed s -> moves s s'.
Proof. intros Et Ec. exists []. cbn. rewrite Et, Ec, drop_all, app_nil_r. done. Qed.

(** ** The consumer *)

(** A step of the consumer inside, or outside, that changes its place only. *)
Lemma c_moves s c :
  inv s -> c_holds c = c_holds (y_c s) -> y_c s <> CBlocked ->
  (forall key, y_c s <> CErase key) -> (forall key, c <> CErase key) -> c_knows (set_c c s) -> inv (set_c c s) /\ moves s (set_c c s).
Proof.
  intros Hi Hc Hb He Hne Hk. pose proof Hi as [I1 I2 I3 I4 I5 I6 I7 I8 I9].
  assert (Ec : committed (set_c c s) = committed s).
  { unfold committed, owner. cbn. destruct (mu_owner (y_mu s)) as [[|i]|]; [|done|done].
    destruct (y_c s) eqn:E; try (by destruct (He _ eq_refl)); destruct c; try done; by destruct (Hne _ eq_refl). }
  split; [|by apply stays]. split; try done.
  - cbn. by rewrite Hc.
  - by rewrite Ec.
  - intros t Ht. by destruct (I8 t Ht).
Qed.

Lemma c_lock s :
  inv s -> owner s = None -> c_holds (y_c s) = false -> O ∉ cv_waiters (y_cv s) ->
  inv (set_c CLoop (set_mu (mkMutex (Some O)) s)) /\ moves s (set_c CLoop (set_mu (mkMutex (Some O)) s)).
Proof.
  intros [I1 I2 I3 I4 I5 I6 I7 I8 I9] Ho Hc Hw. rewrite committed_free in I4 by done. split; [|apply stays; [done|by rewrite (committed_free s)]].
  split; try done.
  - intros i p Hp. rewrite (I2 i p Hp), Ho. done.
  - intros t Ht. destruct (I8 t Ht) as [-> _]. done.
Qed.

Lemma c_unlock s c cv :
  inv s -> owner s = Some O -> (forall key, y_c s <> CErase key) -> c_holds c = false ->
  (forall t, t ∈ cv_waiters cv -> t = O /\ c = CBlocked) -> (O ∈ cv_waiters cv -> y_need s = []) ->
  inv (set_c c (set_mu (mkMutex None) (set_cv cv s))) /\ moves s (set_c c (set_mu (mkMutex None) (set_cv cv s))).
Proof.
  intros [I1 I2 I3 I4 I5 I6 I7 I8 I9] Ho He Hc Hw Hn.
  assert (Ec : committed s = mkQueue (y_need s) (y_exist s)).
  { unfold committed. rewrite Ho. destruct (y_c s); try done. by destruct (He key). }
  split; [|apply stays; [done|by rewrite Ec]]. split; try done.
  - cbn. by rewrite Hc.
  - intros i p Hp. rewrite (I2 i p Hp), Ho. done.
  - rewrite Ec in I4. done.
  - unfold c_knows. cbn. by destruct c.
  - intros Hin. left. by apply Hn.
Qed.

Lemma mutex_lock_Some t m m' : mutex_lock t m = Some m' -> mu_owner m = None /\ m' = mkMutex (Some t).
Proof. unfold mutex_lock. destruct (mu_owner m); [done|]. by intros [= <-]. Qed.

Lemma mutex_unlock_Some t m m' : mutex_unlock t m = Some m' -> mu_owner m = Some t /\ m' = mkMutex None.
Proof. unfold mutex_unlock, PthreadCall. destruct (decide (mu_owner m = Some t)); [|done]. by intros [= <-]. Qed.

Lemma taken_more (s : sys) key : drop (length (y_taken s)) (y_taken s ++ [key]) = [key].
Proof. apply drop_app_length. Qed.

Lemma c_pop s key :
  inv s -> y_c s = CPop key -> (exists need, y_need s = key :: need) -> O ∉ cv_waiters (y_cv s) ->
  inv (set_c (CErase key) (pop_front key s)) /\ moves s (set_c (CErase key) (pop_front key s)).
Proof.
  intros [I1 I2 I3 I4 I5 I6 I7 I8 I9] Ec (need & En) Hw. assert (Ho : owner s = Some O) by (by apply I1; rewrite Ec).
  assert (E : committed s = mkQueue (key :: need) (y_exist s)) by (unfold committed; by rewrite Ho, Ec, En).
  assert (E' : committed (set_c (CErase key) (pop_front key s)) = mkQueue need (y_exist s ∖ {[key]})).
  { unfold committed, owner in *. cbn. by rewrite Ho, En. }
  rewrite E in I4. assert (Hk : key <> []) by (intros ->; destruct I4 as [_ _ Hz]; apply Hz; cbn; set_solver). split.
  - split; try done.
    + rewrite E'. by destruct (dequeue_ok _ I4).
    + cbn. rewrite I5, En. by rewrite <- app_assoc.
    + intros t Ht. by destruct (I8 t Ht) as [-> _].
  - exists [Dequeue]. rewrite E, E'. cbn. rewrite decide_False by done. by rewrite taken_more.
Qed.

Lemma c_erase s key :
  inv s -> y_c s = CErase key -> O ∉ cv_waiters (y_cv s) ->
  inv (set_c (CUnlock key) (set_exist (y_exist s ∖ {[key]}) s)) /\ moves s (set_c (CUnlock key) (set_exist (y_exist s ∖ {[key]}) s)).
Proof.
  intros [I1 I2 I3 I4 I5 I6 I7 I8 I9] Ec Hw. assert (Ho : owner s = Some O) by (by apply I1; rewrite Ec).
  assert (E : committed (set_c (CUnlock key) (set_exist (y_exist s ∖ {[key]}) s)) = committed s).
  { unfold committed, owner in *. cbn. by rewrite Ho, Ec. }
  split; [|by apply stays]. split; try done.
  - by rewrite E.
  - intros i p Hp. specialize (I7 i p Hp). destruct p; try done; cbn in *; set_solver.
  - intros t Ht. by destruct (I8 t Ht) as [-> _].
Qed.

Lemma consumer_step s s' : inv s -> deque_process_step s = Some s' -> inv s' /\ moves s s'.
Proof.
  intros Hi. pose proof Hi as [I1 I2 I3 I4 I5 I6 I7 I8 I9]. unfold deque_process_step. unfold c_knows in I6.
  assert (Hout : forall t, y_c s <> CBlocked -> t ∉ cv_waiters (y_cv s)) by (intros t Hn Ht; by destruct (I8 t Ht)).
  destruct (y_c s) as [| | | | | | | |key|key|key|key|] eqn:Ec; try done.
  - intros [= <-]. apply c_moves; rewrite ?Ec; try done; by destruct (y_stop s).
  - intros (m & [Ho ->]%mutex_lock_Some & [= <-])%bind_Some. apply c_lock; [done|done|by rewrite Ec|by apply Hout].
  - intros [= <-]. apply c_moves; rewrite ?Ec; try done; by destruct (y_stop s).
  - intros [= <-]. apply c_moves; rewrite ?Ec; try done; unfold c_knows; by destruct (decide (y_need s = [])).
  - intros ([m c] & (m' & [Ho ->]%mutex_unlock_Some & [= <- <-])%bind_Some & [= <-])%bind_Some.
    apply c_unlock; [done|done|by rewrite Ec|done| |by intros _].
    intros t [->|Ht]%elem_of_cons; [done|]. by destruct (Hout t).
  - intros (m & E & [= <-])%bind_Some. unfold cond_wait_end in E. destruct (decide _); [done|].
    apply mutex_lock_Some in E as [Ho ->]. by apply c_lock; rewrite ?Ec.
  - intros [= <-]. apply c_moves; rewrite ?Ec; try done; unfold c_knows; by destruct (decide (y_need s = [])).
  - destruct (y_need s) as [|key need] eqn:En; [done|]. intros [= <-].
    apply c_moves; rewrite ?Ec; try done. unfold c_knows. cbn. by rewrite En.
  - intros [= <-]. apply c_pop; [done|done|by destruct (y_need s); [|injection I6 as ->; eexists]|by apply Hout].
  - intros [= <-]. apply c_erase; [done|done|by apply Hout].
  - intros (m & [Ho ->]%mutex_unlock_Some & [= <-])%bind_Some.
    pose proof (c_unlock s (CWork key) (y_cv s) Hi Ho) as Hu. assert (E : set_cv (y_cv s) s = s) by by destruct s.
    rewrite E in Hu. apply Hu; [by rewrite Ec|done| |]; [intros t Ht|intros Ht]; by destruct (Hout _ ltac:(done) Ht).
  - intros [= <-]. by apply c_moves; rewrite ?Ec.
Qed.

(** ** The producers *)

Definition signals (p : ppc) : bool := match p with PInsert _ | PSignal => true | _ => false end.

Lemma set_p_at s i p0 p : y_p s !! i = Some p0 -> <[i := p]> (y_p s) !! i = Some p.
Proof. intros Hp. apply list_lookup_insert_eq. by eapply lookup_lt_Some. Qed.

Lemma will_signal_other s i p0 p : y_p s !! i = Some p0 -> signals p0 = false -> will_signal s -> will_signal (set_p i p s).
Proof.
  intros Hp Hs (j & q & Hq & Hm). exists j, q. split; [|done]. cbn. rewrite list_lookup_insert_ne; [done|].
  intros ->. rewrite Hp in Hq. injection Hq as ->. by destruct q.
Qed.

Lemma will_signal_now s i p0 p : y_p s !! i = Some p0 -> signals p = true -> will_signal (set_p i p s).
Proof. intros Hp Hs. exists i, p. split; [by eapply set_p_at|by destruct p]. Qed.

(** A producer that is inside keeps the others, and the consumer, out. *)
Lemma inside_alone s i p0 j q : inv s -> y_p s !! i = Some p0 -> p_holds p0 = true -> y_p s !! j = Some q -> p_holds q = true -> j = i.
Proof. intros Hi Hp Hh Hq Hh'. apply (iv_p s Hi i p0 Hp) in Hh. apply (iv_p s Hi j q Hq) in Hh'. congruence. Qed.

Lemma p_moves s i p0 p :
  inv s -> y_p s !! i = Some p0 -> p_holds p = p_holds p0 -> signals p0 = false -> signals p = false -> p_knows s p ->
  inv (set_p i p s) /\ moves s (set_p i p s).
Proof.
  intros Hi Hp Hh Hs0 Hs Hk. pose proof Hi as [I1 I2 I3 I4 I5 I6 I7 I8 I9].
  assert (Ec : committed (set_p i p s) = committed s).
  { unfold committed, owner. cbn. destruct (mu_owner (y_mu s)) as [[|j]|]; [done| |done]. destruct (decide (j = i)) as [->|Hne].
    - rewrite (set_p_at s i p0 p Hp), Hp. by destruct p, p0.
    - by rewrite list_lookup_insert_ne. }
  split; [|by apply stays]. split; try done.
  - intros j q [[-> ->]|[_ Hq]]%(moved _ _ _ _ _ _ Hp); [rewrite Hh|]; by apply I2.
  - intros j Hj. cbn. apply lookup_lt_is_Some_2. rewrite length_insert. by apply lookup_lt_is_Some_1, I3.
  - by rewrite Ec.
  - intros j q [[-> ->]|[_ Hq]]%(moved _ _ _ _ _ _ Hp); [done|by apply (I7 j)].
  - intros Hw. destruct (I9 Hw) as [?|Hws]; [by left|right]. by eapply will_signal_other.
Qed.

Lemma p_lock s i key :
  inv s -> y_p s !! i = Some (PLock key) -> owner s = None ->
  inv (set_p i (PFind key) (set_mu (mkMutex (Some (S i))) s)) /\ moves s (set_p i (PFind key) (set_mu (mkMutex (Some (S i))) s)).
Proof.
  intros Hi Hp Ho. pose proof Hi as [I1 I2 I3 I4 I5 I6 I7 I8 I9]. rewrite committed_free in I4 by done.
  assert (Ec : committed (set_p i (PFind key) (set_mu (mkMutex (Some (S i))) s)) = committed s).
  { rewrite (committed_free s) by done. unfold committed, owner. cbn. by rewrite (set_p_at s i _ _ Hp). }
  split; [|by apply stays]. split; try done.
  - cbn. rewrite I1, Ho. done.
  - intros j q [[-> ->]|[Hne Hq]]%(moved _ _ _ _ _ _ Hp); [done|]. rewrite (I2 j q Hq), Ho. cbn. split; [done|]. by intros [= ->].
  - intros j [= ->]. cbn. rewrite (set_p_at s j _ _ Hp). by eexists.
  - rewrite Ec, committed_free; done.
  - intros j q [[-> ->]|[_ Hq]]%(moved _ _ _ _ _ _ Hp); [exact (I7 _ _ Hp)|by apply (I7 j)].
  - intros Hw. destruct (I9 Hw) as [?|Hws]; [by left|right]. by eapply (will_signal_other (set_mu _ s)).
Qed.

Lemma p_unlock s i :
  inv s -> y_p s !! i = Some PUnlock -> owner s = Some (S i) ->
  inv (set_p i PIdle (set_mu (mkMutex None) s)) /\ moves s (set_p i PIdle (set_mu (mkMutex None) s)).
Proof.
  intros Hi Hp Ho. pose proof Hi as [I1 I2 I3 I4 I5 I6 I7 I8 I9].
  assert (Ec : committed s = mkQueue (y_need s) (y_exist s)) by (unfold committed; by rewrite Ho, Hp).
  split; [|apply stays; [done|by rewrite Ec]]. split; try done.
  - cbn. rewrite I1, Ho. done.
  - intros j q [[-> ->]|[Hne Hq]]%(moved _ _ _ _ _ _ Hp); [done|]. rewrite (I2 j q Hq), Ho. split; [|done]. by intros [= ->].
  - rewrite Ec in I4. done.
  - intros j q [[-> ->]|[_ Hq]]%(moved _ _ _ _ _ _ Hp); [done|by apply (I7 j)].
  - intros Hw. destruct (I9 Hw) as [?|Hws]; [by left|right]. by eapply (will_signal_other (set_mu _ s)).
Qed.

Lemma p_push s i key :
  inv s -> y_p s !! i = Some (PPush key) ->
  inv (set_p i (PInsert key) (push_back key s)) /\ moves s (set_p i (PInsert key) (push_back key s)).
Proof.
  intros Hi Hp. pose proof Hi as [I1 I2 I3 I4 I5 I6 I7 I8 I9]. assert (Ho : owner s = Some (S i)) by (by apply (I2 i _ Hp)).
  destruct (I7 i _ Hp) as [Hk Hx].
  assert (Ec : committed s = mkQueue (y_need s) (y_exist s)) by (unfold committed; by rewrite Ho, Hp).
  assert (Ec' : committed (set_p i (PInsert key) (push_back key s)) = enqueue key (committed s)).
  { rewrite Ec. unfold committed, enqueue, owner in *. cbn. by rewrite Ho, (set_p_at s i _ _ Hp), decide_False. }
  assert (Hn : c_holds (y_c s) = false) by (destruct (c_holds (y_c s)); [|done]; rewrite (proj1 I1 eq_refl) in Ho; done).
  split.
  - split; try done.
    + intros j q [[-> ->]|[_ Hq]]%(moved _ _ _ _ _ _ Hp); [done|by apply I2].
    + intros j Hj. cbn. apply lookup_lt_is_Some_2. rewrite length_insert. by apply lookup_lt_is_Some_1, I3.
    + rewrite Ec'. by apply enqueue_ok.
    + cbn. rewrite I5. by rewrite <- app_assoc.
    + unfold c_knows. cbn. by destruct (y_c s).
    + intros j q [[-> ->]|[_ Hq]]%(moved _ _ _ _ _ _ Hp); [done|exact (I7 j q Hq)].
    + intros _. right. by eapply (will_signal_now (push_back key s)).
  - exists [Enqueue key]. cbn. rewrite drop_all, app_nil_r, Ec'. done.
Qed.

Lemma p_insert s i key :
  inv s -> y_p s !! i = Some (PInsert key) ->
  inv (set_p i PSignal (set_exist ({[key]} ∪ y_exist s) s)) /\ moves s (set_p i PSignal (set_exist ({[key]} ∪ y_exist s) s)).
Proof.
  intros Hi Hp. pose proof Hi as [I1 I2 I3 I4 I5 I6 I7 I8 I9]. assert (Ho : owner s = Some (S i)) by (by apply (I2 i _ Hp)).
  assert (Ec : committed (set_p i PSignal (set_exist ({[key]} ∪ y_exist s) s)) = committed s).
  { unfold committed, owner in *. cbn. by rewrite Ho, (set_p_at s i _ _ Hp), Hp. }
  split; [|by apply stays]. split; try done.
  - intros j q [[-> ->]|[_ Hq]]%(moved _ _ _ _ _ _ Hp); [done|by apply I2].
  - intros j Hj. cbn. apply lookup_lt_is_Some_2. rewrite length_insert. by apply lookup_lt_is_Some_1, I3.
  - by rewrite Ec.
  - intros j q [[-> ->]|[Hne Hq]]%(moved _ _ _ _ _ _ Hp); [done|]. specialize (I7 j q Hq).
    destruct q; try done; destruct Hne; by eapply (inside_alone s).
  - intros _. right. by eapply (will_signal_now (set_exist _ s)).
Qed.

(** Waking everyone. *)
Lemma wake_inv s : inv s -> inv (set_cv (cond_signal_all (y_cv s)) s) /\ moves s (set_cv (cond_signal_all (y_cv s)) s).
Proof.
  intros [I1 I2 I3 I4 I5 I6 I7 I8 I9]. split; [|by apply stays]. split; try done; cbn; intros; by apply not_elem_of_nil in H || (exfalso; set_solver).
Qed.

Lemma p_signal s i :
  inv s -> y_p s !! i = Some PSignal ->
  inv (set_p i PUnlock (set_cv (cond_signal_all (y_cv s)) s)) /\ moves s (set_p i PUnlock (set_cv (cond_signal_all (y_cv s)) s)).
Proof.
  intros Hi Hp. pose proof Hi as [I1 I2 I3 I4 I5 I6 I7 I8 I9]. assert (Ho : owner s = Some (S i)) by (by apply (I2 i _ Hp)).
  assert (Ec : committed (set_p i PUnlock (set_cv (cond_signal_all (y_cv s)) s)) = committed s).
  { unfold committed, owner in *. cbn. by rewrite Ho, (set_p_at s i _ _ Hp), Hp. }
  split; [|by apply stays]. split; try done.
  - intros j q [[-> ->]|[_ Hq]]%(moved _ _ _ _ _ _ Hp); [done|by apply I2].
  - intros j Hj. cbn. apply lookup_lt_is_Some_2. rewrite length_insert. by apply lookup_lt_is_Some_1, I3.
  - by rewrite Ec.
  - intros j q [[-> ->]|[_ Hq]]%(moved _ _ _ _ _ _ Hp); [done|exact (I7 j q Hq)].
  - intros t Ht. cbn in Ht. by apply not_elem_of_nil in Ht.
  - intros Ht. cbn in Ht. by apply not_elem_of_nil in Ht.
Qed.

Lemma producer_step s s' i key : inv s -> add_watcher_node_step i key s = Some s' -> inv s' /\ moves s s'.
Proof.
  intros Hi. pose proof Hi as [I1 I2 I3 I4 I5 I6 I7 I8 I9]. unfold add_watcher_node_step. intros (p & Hp & E)%bind_Some.
  destruct p as [|k|k|k|k| |].
  - injection E as <-. eapply p_moves; try done; by destruct (decide (key = [])).
  - apply bind_Some in E as (m & [Ho ->]%mutex_lock_Some & [= <-]). by apply p_lock.
  - injection E as <-. pose proof (I7 i _ Hp) as Hk. eapply p_moves; try done; by destruct (decide (k ∈ y_exist s)).
  - injection E as <-. by apply p_push.
  - injection E as <-. by apply p_insert.
  - injection E as <-. by apply p_signal.
  - apply bind_Some in E as (m & [Ho ->]%mutex_unlock_Some & [= <-]). by apply p_unlock.
Qed.

Lemma stopper_step s s' : inv s -> qconf_thread_exit_step s = Some s' -> inv s' /\ moves s s'.
Proof.
  intros Hi. unfold qconf_thread_exit_step. destruct (y_s s); [| |done]; intros [= <-].
  - destruct Hi as [I1 I2 I3 I4 I5 I6 I7 I8 I9]. split; [|by apply stays]. by split.
  - assert (Hs : inv (set_stop (y_stop s) SEnd s)) by (destruct Hi; by split). apply (wake_inv _ Hs).
Qed.

Lemma step_ok a s s' : inv s -> step a s = Some s' -> inv s' /\ moves s s'.
Proof.
  destruct a; cbn [step]; [apply consumer_step|apply producer_step|apply stopper_step|].
  intros Hi [= <-]. by apply wake_inv.
Qed.

(** ** Runs *)

Lemma replay_app ops1 ops2 q :
  replay (ops1 ++ ops2) q = ((replay ops1 q).1 ++ (replay ops2 (replay ops1 q).2).1, (replay ops2 (replay ops1 q).2).2).
Proof.
  revert q. induction ops1 as [|[key|] ops1 IH]; intros q; [cbn; by destruct (replay ops2 q)|apply IH|]. cbn [replay app].
  destruct (dequeue q) as [key q1]. rewrite IH. destruct (replay ops1 q1) as [keys q2]. cbn [fst snd]. by destruct (decide (key = [])).
Qed.

Lemma moves_trans s1 s2 s3 : moves s1 s2 -> moves s2 s3 -> moves s1 s3.
Proof.
  intros (o1 & E1 & T1) (o2 & E2 & T2). rewrite T1 in E2, T2. set (k1 := drop (length (y_taken s1)) (y_taken s2)) in *.
  set (k2 := drop (length (y_taken s1 ++ k1)) (y_taken s3)) in *.
  assert (E : drop (length (y_taken s1)) (y_taken s3) = k1 ++ k2) by (by rewrite T2, <- app_assoc, drop_app_length).
  exists (o1 ++ o2). rewrite replay_app, E1. cbn [fst snd]. rewrite E2, E. split; [done|]. by rewrite app_assoc.
Qed.

Lemma run_ok acts s s' : inv s -> run acts s = Some s' -> inv s' /\ moves s s'.
Proof.
  revert s. induction acts as [|a acts IH]; intros s Hi.
  - intros [= <-]. split; [done|by apply stays].
  - intros (s1 & E1 & E2)%bind_Some. destruct (step_ok a s s1 Hi E1) as [Hi1 Hm1].
    destruct (IH s1 Hi1 E2) as [Hi' Hm]. split; [done|by eapply moves_trans].
Qed.

Lemma taken_grows acts s s' : inv s -> run acts s = Some s' -> (length (y_taken s) <= length (y_taken s'))%nat.
Proof. intros Hi E. destruct (run_ok acts s s' Hi E) as [_ (ops & _ & ->)]. rewrite length_app. lia. Qed.

(** C16. However the statements of the threads interleave, a critical section is as good as a single step:
    the keys that the consumer has taken, and the queue, are those that some sequence of the operations
    [enqueue] and [dequeue] gives, each as one step; the queue and its set agree whenever nobody is inside;
    at most one thread is inside; and the keys put into the queue are those taken, in the same order,
    followed by those that are left: each is taken once. *)
Theorem sections_atomic n acts s :
  run acts (init n) = Some s ->
  (exists ops, replay ops no_queue = (y_taken s, committed s)) /\ queue_ok (committed s) /\
  (owner s = None -> committed s = mkQueue (y_need s) (y_exist s)) /\
  (forall i p, y_p s !! i = Some p -> p_holds p = true ->
     c_holds (y_c s) = false /\ forall j q, y_p s !! j = Some q -> p_holds q = true -> j = i) /\
  y_added s = y_taken s ++ y_need s.
Proof.
  intros E. destruct (run_ok acts _ _ (init_inv n) E) as [Hi (ops & Hr & _)]. pose proof Hi as [I1 I2 I3 I4 I5 I6 I7 I8 I9].
  split; [by exists ops|]. split; [done|]. split; [apply committed_free|]. split; [|done]. intros i p Hp Hh. split.
  - apply (I2 i p Hp) in Hh. destruct (c_holds (y_c s)); [|done]. rewrite (proj1 I1 eq_refl) in Hh. done.
  - intros j q Hq Hh'. by eapply (inside_alone s i p).
Qed.

(** ** No key is forgotten *)

Definition is_consumer (a : turn) : bool := match a with Consumer => true | _ => false end.
Definition consumer_turns (acts : list turn) : nat := length (filter (fun a => is_consumer a = true) acts).

Lemma turns_cons a acts : consumer_turns (a :: acts) = if is_consumer a then S (consumer_turns acts) else consumer_turns acts.
Proof. unfold consumer_turns. rewrite filter_cons. by destruct a. Qed.

(** How many statements the consumer has before it takes a key, when there is one. *)
Definition to_take (c : cpc) : nat :=
  match c with
  | CDone | CWait => 0 | CPop _ => 1 | CFront => 2 | CTake => 3 | CSize => 4 | CLoop => 5 | CBlocked | CLock => 6
  | CTest => 7 | CWork _ => 8 | CUnlock _ => 9 | CErase _ => 10
  end.

Lemma consumer_nearer s s' : inv s -> y_need s <> [] -> deque_process_step s = Some s' ->
  (length (y_taken s) < length (y_taken s'))%nat \/ y_c s' = CDone \/ ((to_take (y_c s') < to_take (y_c s))%nat /\ y_need s' <> []).
Proof.
  intros Hi Hn. pose proof (iv_cknow s Hi) as Hk. unfold c_knows in Hk. unfold deque_process_step.
  destruct (y_c s) as [| | | | | | | |key|key|key|key|]; try done.
  - intros [= <-]. cbn. destruct (y_stop s); [by right; left|]. right; right. split; [cbn; lia|done].
  - intros (m & _ & [= <-])%bind_Some. right; right. split; [cbn; lia|done].
  - intros [= <-]. right; right. split; [cbn; destruct (y_stop s); cbn; lia|done].
  - intros [= <-]. right; right. split; [|done]. cbn. rewrite decide_False by done. cbn. lia.
  - intros (m & _ & [= <-])%bind_Some. right; right. split; [cbn; lia|done].
  - intros [= <-]. right; right. split; [|done]. cbn. rewrite decide_False by done. cbn. lia.
  - destruct (y_need s) eqn:E; [done|]. intros [= <-]. right; right. split; [cbn; lia|]. cbn. by rewrite E.
  - intros [= <-]. left. cbn. rewrite length_app. cbn. lia.
  - intros [= <-]. right; right. split; [cbn; lia|done].
  - intros (m & _ & [= <-])%bind_Some. right; right. split; [cbn; lia|done].
  - intros [= <-]. right; right. split; [cbn; lia|done].
Qed.

(** The others do not take keys, nor move the consumer. *)
Lemma others_leave a s s' : is_consumer a = false -> step a s = Some s' ->
  y_c s' = y_c s /\ (y_need s <> [] -> y_need s' <> []).
Proof.
  destruct a as [|i key| |]; [done|intros _|intros _|intros _]; cbn [step].
  - intros (p & Hp & E)%bind_Some. destruct p; cbn in E;
      try (apply bind_Some in E as (? & _ & [= <-])); try injection E as <-; try done.
    split; [done|]. cbn. by destruct (y_need s).
  - unfold qconf_thread_exit_step. by destruct (y_s s); [| |done]; intros [= <-].
  - by intros [= <-].
Qed.

Lemma done_stays acts s s' : y_c s = CDone -> run acts s = Some s' -> y_c s' = CDone.
Proof.
  revert s. induction acts as [|a acts IH]; intros s Hd E; [by injection E as <-|].
  cbn [run] in E. apply bind_Some in E as (s1 & E1 & E2). apply (IH s1); [|done]. destruct (is_consumer a) eqn:Ea.
  - destruct a; try done. cbn in E1. unfold deque_process_step in E1. by rewrite Hd in E1.
  - by destruct (others_leave a s s1 Ea E1) as [-> _].
Qed.

Lemma takes acts s s' : inv s -> y_need s <> [] -> run acts s = Some s' -> (to_take (y_c s) <= consumer_turns acts)%nat ->
  (length (y_taken s) < length (y_taken s'))%nat \/ y_c s' = CDone.
Proof.
  revert s. induction acts as [|a acts IH]; intros s Hi Hn E Hc.
  - pose proof (iv_cknow s Hi) as Hk. unfold c_knows in Hk. cbn in Hc. injection E as <-. destruct (y_c s); cbn in Hc; try lia; [done|by right].
  - cbn [run] in E. apply bind_Some in E as (s1 & E1 & E2). destruct (step_ok a s s1 Hi E1) as [Hi1 _]. rewrite turns_cons in Hc.
    pose proof (taken_grows acts s1 s' Hi1 E2) as Hg. destruct (is_consumer a) eqn:Ea.
    + destruct a; try done. destruct (consumer_nearer s s1 Hi Hn E1) as [Ht|[Hd|[Hlt Hn1]]]; [left; lia| |].
      * right. by eapply done_stays.
      * pose proof (step_ok Consumer s s1 Hi E1) as [_ (? & _ & Ht)]. destruct (IH s1 Hi1 Hn1 E2 ltac:(lia)) as [Hl|Hd]; [left|by right].
        rewrite Ht, length_app in Hl. lia.
    + destruct (others_leave a s s1 Ea E1) as [Ec Hn1]. rewrite <- Ec in Hc.
      pose proof (step_ok a s s1 Hi E1) as [_ (? & _ & Ht)]. destruct (IH s1 Hi1 (Hn1 Hn) E2 Hc) as [Hl|Hd]; [left|by right].
      rewrite Ht, length_app in Hl. lia.
Qed.
(** How many statements a producer has before it is outside. *)
Definition to_leave (p : ppc) : nat :=
  match p with PIdle | PLock _ => 0 | PUnlock => 1 | PSignal => 2 | PInsert _ => 3 | PPush _ => 4 | PFind _ => 5 end.

(** The thread that can go on: the one inside, or else the consumer. *)
Definition mover (s : sys) : turn := match owner s with Some (S i) => Producer i [] | _ => Consumer end.
Definition distance (s : sys) : nat :=
  to_take (y_c s) + match owner s with Some (S i) => from_option to_leave O (y_p s !! i) | _ => O end.

Lemma awake s : inv s -> y_need s <> [] -> owner s = None -> O ∉ cv_waiters (y_cv s).
Proof.
  intros Hi Hn Ho Hw. destruct (iv_sleep s Hi Hw) as [?|(i & p & Hp & Hs)]; [done|].
  pose proof (iv_p s Hi i p Hp) as Hh. rewrite Ho in Hh. destruct p; try done; by destruct Hh as [Hh _]; specialize (Hh eq_refl).
Qed.

Lemma consumer_can s : inv s -> y_need s <> [] -> y_c s <> CDone -> (owner s = None \/ owner s = Some O) -> is_Some (deque_process_step s).
Proof.
  intros Hi Hn Hd Ho. pose proof (iv_c s Hi) as Hc. pose proof (awake s Hi Hn) as Hw.
  unfold deque_process_step, cond_wait_end, cond_wait_begin, mutex_lock, mutex_unlock, owner in *.
  destruct (y_c s) as [| | | | | | | |key|key|key|key|] eqn:Ec; try done; cbn [c_holds] in Hc.
  - destruct Ho as [->|E]; [done|]. by apply Hc in E.
  - rewrite decide_True by by apply Hc. by eexists.
  - destruct Ho as [E|E]; [|by apply Hc in E]. rewrite decide_False by by apply Hw. rewrite E. by eexists.
  - destruct (y_need s); [done|]. by eexists.
  - rewrite decide_True by by apply Hc. by eexists.
Qed.

Lemma producer_can s i key : inv s -> owner s = Some (S i) ->
  exists s', add_watcher_node_step i key s = Some s' /\ y_c s' = y_c s /\ y_taken s' = y_taken s /\ (distance s' < distance s)%nat.
Proof.
  intros Hi Ho. destruct (iv_in s Hi i Ho) as [p Hp]. pose proof (proj2 (iv_p s Hi i p Hp) Ho) as Hh.
  assert (Hd : distance s = (to_take (y_c s) + to_leave p)%nat) by (unfold distance; by rewrite Ho, Hp).
  rewrite Hd. unfold add_watcher_node_step, distance, owner in *. rewrite Hp.
  assert (Hs : forall q, <[i := q]> (y_p s) !! i = Some q) by (intros q; by eapply set_p_at).
  destruct p; try done; cbn [mbind option_bind from_option to_leave].
  - eexists. split; [done|]. cbn. rewrite Ho, Hs. destruct (decide _); cbn; repeat split; lia.
  - eexists. split; [done|]. cbn. rewrite Ho, Hs. cbn. repeat split; lia.
  - eexists. split; [done|]. cbn. rewrite Ho, Hs. cbn. repeat split; lia.
  - eexists. split; [done|]. cbn. rewrite Ho, Hs. cbn. repeat split; lia.
  - unfold mutex_unlock. rewrite decide_True by done. cbn. eexists. split; [done|]. cbn. repeat split; lia.
Qed.

Lemma not_producer s : (forall i, owner s <> Some (S i)) -> mover s = Consumer /\ distance s = to_take (y_c s) /\ (owner s = None \/ owner s = Some O).
Proof. intros Hn. unfold mover, distance. destruct (owner s) as [[|i]|]; [auto with lia| |auto with lia]. by destruct (Hn i). Qed.
Lemma consumer_owner s s' : deque_process_step s = Some s' -> owner s' = owner s \/ owner s' = Some O \/ owner s' = None.
Proof.
  unfold deque_process_step, cond_wait_begin, cond_wait_end, owner.
  destruct (y_c s); try (intros [= <-]; by left); try done.
  - intros (m & [_ ->]%mutex_lock_Some & [= <-])%bind_Some. by right; left.
  - intros ([m c] & (m' & [_ ->]%mutex_unlock_Some & [= <- <-])%bind_Some & [= <-])%bind_Some. by right; right.
  - intros (m & E & [= <-])%bind_Some. destruct (decide _); [done|]. apply mutex_lock_Some in E as [_ ->]. by right; left.
  - destruct (y_need s); [done|]. intros [= <-]. by left.
  - intros (m & [_ ->]%mutex_unlock_Some & [= <-])%bind_Some. by right; right.
Qed.

(** One turn of the thread that can go on brings the consumer nearer to the key. *)
Lemma mover_nearer s : inv s -> y_need s <> [] -> y_c s <> CDone ->
  exists s', step (mover s) s = Some s' /\
    ((length (y_taken s) < length (y_taken s'))%nat \/ y_c s' = CDone \/
     (y_c s' <> CDone /\ y_need s' <> [] /\ (distance s' < distance s)%nat)).
Proof.
  intros Hi Hn Hd. assert (Hcase : (exists i, owner s = Some (S i)) \/ forall i, owner s <> Some (S i))
    by (destruct (owner s) as [[|i]|]; [by right|left; by exists i|by right]).
  destruct Hcase as [[i Ho]|Hno].
  - destruct (producer_can s i [] Hi Ho) as (s' & E & Ec & Et & Hl). exists s'. unfold mover. rewrite Ho. split; [done|].
    destruct (others_leave (Producer i []) s s' eq_refl E) as [_ Hn']. right; right. rewrite Ec. auto.
  - destruct (not_producer s) as (-> & Ed & Hf); [exact Hno|].
    destruct (consumer_can s Hi Hn Hd Hf) as [s' E]. exists s'. split; [exact E|].
    destruct (consumer_nearer s s' Hi Hn E) as [?|[?|[Hl Hn']]]; [by left|by right; left|].
    assert (Hcd : y_c s' = CDone \/ y_c s' <> CDone) by (destruct (y_c s'); auto; by right).
    destruct Hcd as [?|Hd']; [by right; left|]. right; right. split; [done|]. split; [done|].
    destruct (not_producer s') as (_ & -> & _); [|by rewrite Ed].
    intros i Ho'. destruct (consumer_owner s s' E) as [E'|[E'|E']]; rewrite E' in Ho'; try done. by destruct Hf as [Hf|Hf]; rewrite Hf in Ho'.
Qed.

(** No call of [add_watcher_node] with a key, and no wake-up for no reason. *)
Definition waits_for_nothing (a : turn) : Prop := match a with Consumer | Producer _ [] => True | _ => False end.

Lemma mover_quiet s : waits_for_nothing (mover s).
Proof. unfold mover. by destruct (owner s) as [[|i]|]. Qed.

Lemma can_take s d : inv s -> y_need s <> [] -> y_c s <> CDone -> (distance s <= d)%nat ->
  exists acts s', run acts s = Some s' /\ (length acts <= S d)%nat /\ Forall waits_for_nothing acts /\
    ((length (y_taken s) < length (y_taken s'))%nat \/ y_c s' = CDone).
Proof.
  revert s. induction d as [|d IH]; intros s Hi Hn Hd Hle; destruct (mover_nearer s Hi Hn Hd) as (s1 & E & Hs1);
    pose proof (step_ok _ s s1 Hi E) as [Hi1 (? & _ & Ht)];
    (destruct Hs1 as [Hl|[Hc|(Hd1 & Hn1 & Hl)]];
     [exists [mover s], s1; cbn [run]; rewrite E; cbn; repeat split; [lia|by constructor; [apply mover_quiet|]|by left]
     |exists [mover s], s1; cbn [run]; rewrite E; cbn; repeat split; [lia|by constructor; [apply mover_quiet|]|by right]|]).
  - lia.
  - destruct (IH s1 Hi1 Hn1 Hd1 ltac:(lia)) as (acts & s' & E' & Hlen & Hq & Hg). exists (mover s :: acts), s'.
    cbn [run]. rewrite E. repeat split; [done|cbn; lia|by constructor; [apply mover_quiet|]|].
    destruct Hg as [Hg|Hg]; [left|by right]. rewrite Ht, length_app in Hg. lia.
Qed.

Lemma distance_bound s : inv s -> (distance s <= 13)%nat.
Proof.
  intros Hi. unfold distance. pose proof (iv_c s Hi) as Hc. destruct (owner s) as [[|i]|] eqn:Ho.
  - destruct (y_c s); cbn; lia.
  - assert (Hn : c_holds (y_c s) = false) by (destruct (c_holds (y_c s)); [by destruct Hc as [Hc _]; specialize (Hc eq_refl)|done]).
    destruct (y_p s !! i) as [[]|]; destruct (y_c s); cbn; try lia; done.
  - destruct (y_c s); cbn; lia.
Qed.

(** C15. No key is forgotten. Whatever the threads have done, as long as a key is in the queue: every run in which
    the consumer has at least ten turns takes a key, or the consumer has seen the request to end; and the
    threads never block each other: from there a run of at most 14 turns, without a wake-up for no reason and
    without a further call, takes one - a signal was sent, or will be, to a consumer that sleeps. *)
Theorem key_is_taken n acts s :
  run acts (init n) = Some s -> y_need s <> [] ->
  (forall acts' s', run acts' s = Some s' -> (10 <= consumer_turns acts')%nat ->
     (length (y_taken s) < length (y_taken s'))%nat \/ y_c s' = CDone) /\
  (y_c s <> CDone -> exists acts' s', run acts' s = Some s' /\ (length acts' <= 14)%nat /\ Forall waits_for_nothing acts' /\
     ((length (y_taken s) < length (y_taken s'))%nat \/ y_c s' = CDone)).
Proof.
  intros E Hn. destruct (run_ok acts _ _ (init_inv n) E) as [Hi _]. split.
  - intros acts' s' E' Hc. apply (takes acts' s s' Hi Hn E'). etrans; [|exact Hc]. by destruct (y_c s); cbn; lia.
  - intros Hd. by apply (can_take s 13 Hi Hn Hd), distance_bound.
Qed.
(** ** The request to end *)

(** The flag is set, and the consumer is not between its test of the flag and its sleep. *)
Definition hears (s : sys) : Prop :=
  y_stop s = true /\
  match y_c s with CSize => y_need s <> [] | CWait => False | CBlocked => O ∉ cv_waiters (y_cv s) | _ => True end.

(** How many statements the consumer has before it ends, once it hears. *)
Definition to_end (c : cpc) : nat :=
  match c with
  | CDone | CWait => 0 | CTest => 1 | CWork _ => 2 | CUnlock _ => 3 | CErase _ => 4 | CPop _ => 5 | CFront => 6 | CTake => 7
  | CLoop | CSize => 8 | CLock | CBlocked => 9
  end.

Lemma consumer_ends s s' : hears s -> deque_process_step s = Some s' -> hears s' /\ (to_end (y_c s') < to_end (y_c s))%nat.
Proof.
  intros [Hs Hc]. unfold deque_process_step, hears. destruct (y_c s) eqn:E; try done.
  - intros [= <-]. cbn. rewrite Hs. cbn. split; [done|lia].
  - intros (m & _ & [= <-])%bind_Some. cbn. split; [done|lia].
  - intros [= <-]. cbn. rewrite Hs. cbn. split; [done|lia].
  - intros [= <-]. cbn. rewrite decide_False by done. cbn. split; [done|lia].
  - intros (m & _ & [= <-])%bind_Some. cbn. split; [done|lia].
  - intros [= <-]. cbn. destruct (decide _); cbn; split; try done; lia.
  - destruct (y_need s); [done|]. intros [= <-]. cbn. split; [done|lia].
  - intros [= <-]. cbn. split; [done|lia].
  - intros [= <-]. cbn. split; [done|lia].
  - intros (m & _ & [= <-])%bind_Some. cbn. split; [done|lia].
  - intros [= <-]. cbn. split; [done|lia].
Qed.

Lemma others_hear a s s' : is_consumer a = false -> hears s -> step a s = Some s' -> hears s'.
Proof.
  intros Ha [Hs Hc] E. destruct (others_leave a s s' Ha E) as [Ec Hn]. unfold hears. rewrite Ec.
  assert (Hs' : y_stop s' = true /\ (forall t, t ∈ cv_waiters (y_cv s') -> t ∈ cv_waiters (y_cv s))).
  { destruct a as [|i key| |]; [done| | |]; cbn [step] in E.
    - apply bind_Some in E as (p & _ & E). destruct p; try (apply bind_Some in E as (? & _ & [= <-])); try (injection E as <-);
        try done. split; [done|]. intros t Ht. cbn in Ht. by apply not_elem_of_nil in Ht.
    - unfold qconf_thread_exit_step in E. destruct (y_s s); [| |done]; injection E as <-; [done|]. split; [done|].
      intros t Ht. cbn in Ht. by apply not_elem_of_nil in Ht.
    - injection E as <-. split; [done|]. intros t Ht. cbn in Ht. by apply not_elem_of_nil in Ht. }
  destruct Hs' as [Hs' Hw]. split; [done|]. destruct (y_c s); try done; [by apply Hn|]. intros Hin. by apply Hc, Hw.
Qed.

(** A request that is heard ends the consumer after at most nine of its statements. *)
Lemma stop_heard acts s s' :
  hears s -> run acts s = Some s' -> (to_end (y_c s) <= consumer_turns acts)%nat -> y_c s' = CDone.
Proof.
  revert s. induction acts as [|a acts IH]; intros s Hh E Hc.
  - injection E as <-. destruct Hh as [_ Hh]. cbn in Hc. by destruct (y_c s); cbn in Hc; try lia.
  - cbn [run] in E. apply bind_Some in E as (s1 & E1 & E2). rewrite turns_cons in Hc. destruct (is_consumer a) eqn:Ea.
    + destruct a; try done. destruct (consumer_ends s s1 Hh E1) as [Hh1 Hl]. apply (IH s1 Hh1 E2). lia.
    + apply (IH s1 (others_hear a s s1 Ea Hh E1) E2). destruct (others_leave a s s1 Ea E1) as [-> _]. lia.
Qed.

Lemma stop_kept acts s s' : y_stop s = true -> run acts s = Some s' -> y_stop s' = true.
Proof.
  revert s. induction acts as [|a acts IH]; intros s Hs E; [by injection E as <-|].
  cbn [run] in E. apply bind_Some in E as (s1 & E1 & E2). apply (IH s1); [|done].
  destruct a; cbn [step] in E1; unfold deque_process_step, add_watcher_node_step, qconf_thread_exit_step in E1;
    repeat (case_match; simplify_option_eq); simplify_eq; done.
Qed.

(** A sleeper whom nobody will wake. *)
Definition asleep (s : sys) : Prop :=
  y_c s = CBlocked /\ O ∈ cv_waiters (y_cv s) /\ y_s s = SEnd /\ forall i p, y_p s !! i = Some p -> p = PIdle.

Lemma asleep_stays acts s s' : asleep s -> Forall waits_for_nothing acts -> run acts s = Some s' -> asleep s'.
Proof.
  revert s. induction acts as [|a acts IH]; intros s Ha Hq E; [by injection E as <-|].
  apply Forall_cons in Hq as [Hq Hqs]. cbn [run] in E. apply bind_Some in E as (s1 & E1 & E2). apply (IH s1); [|done|done].
  clear IH E2. destruct Ha as (Hc & Hw & Hs & Hp). destruct a as [|i key| |]; try done; cbn [step] in E1.
  - unfold deque_process_step, cond_wait_end in E1. rewrite Hc in E1. by rewrite decide_True in E1.
  - destruct key; [|done]. apply bind_Some in E1 as (p & E & E1). pose proof (Hp i p E) as ->. injection E1 as <-.
    split; [done|]. split; [done|]. split; [done|]. intros j q Hq'. cbn in Hq'.
    destruct (moved _ _ _ _ _ _ E Hq') as [[_ ->]|[_ Hj]]; [done|by apply (Hp j)].
Qed.

(** C17. A request to end may be lost. [qconf_thread_exit] sets the flag and signals without the mutex. When it runs
    between the consumer's test of the flag and its wait - as in a handler of a signal that the main thread
    receives there - nobody is waiting yet, and the consumer goes to sleep although the flag is set: unless a
    key is put into the queue, or the wait ends for no reason, it never ends. In every other place it hears:
    ten more statements of its own end it. *)
Theorem stop_may_be_lost n :
  (exists acts s, run acts (init n) = Some s /\ y_stop s = true /\ y_s s = SEnd /\ y_c s = CBlocked /\
     forall acts' s', Forall waits_for_nothing acts' -> run acts' s = Some s' -> y_stop s' = true /\ y_c s' = CBlocked) /\
  (forall s acts s', hears s -> run acts s = Some s' -> (10 <= consumer_turns acts)%nat -> y_c s' = CDone).
Proof.
  split.
  - exists [Consumer; Consumer; Consumer; Stopper; Stopper; Consumer; Consumer].
    eexists. split; [reflexivity|]. do 3 (split; [done|]). intros acts s' Hq E.
    assert (Ha : asleep s'); [|destruct Ha as [Hc _]; split; [|done]].
    + eapply asleep_stays; [|done|exact E]. split; [done|]. split; [by left|]. split; [done|].
      intros i p Hp. cbn in Hp. by apply lookup_replicate in Hp as [-> _].
    + by eapply stop_kept; [|exact E].
  - intros s acts s' Hh E Hc. apply (stop_heard acts s s' Hh E). etrans; [|exact Hc]. by destruct (y_c s); cbn; lia.
Qed.
(** Two producers, and a consumer that sleeps before the first key and is woken by it. *)
Definition demo : list turn :=
  [Consumer; Consumer; Consumer; Consumer; Consumer;
   Producer 0 (str "a"); Producer 1 (str "b"); Producer 0 []; Producer 0 []; Producer 0 []; Producer 0 []; Producer 0 [];
   Producer 0 []; Producer 1 []; Producer 1 []; Producer 1 []; Producer 1 []; Producer 1 []; Producer 1 [];
   Consumer; Consumer; Consumer; Consumer; Consumer; Consumer].
Definition demo_end : sys := from_option id (init 2) (run demo (init 2)).

Lemma demo_runs : run demo (init 2) = Some demo_end.
Proof.
  assert (H : match run demo (init 2) with Some _ => true | None => false end = true) by (vm_compute; reflexivity).
  unfold demo_end. by destruct (run demo (init 2)).
Qed.

Lemma sections_atomic_witness :
  run demo (init 2) = Some demo_end /\ y_taken demo_end = [str "a"] /\ y_need demo_end = [str "b"] /\
  exists ops, replay ops no_queue = (y_taken demo_end, committed demo_end).
Proof.
  split; [exact demo_runs|]. split; [vm_compute; reflexivity|]. split; [vm_compute; reflexivity|].
  exact (proj1 (sections_atomic 2 demo demo_end demo_runs)).
Defined.

Lemma key_is_taken_witness :
  run demo (init 2) = Some demo_end /\ y_need demo_end <> [] /\
  exists acts s, run acts demo_end = Some s /\ (length acts <= 14)%nat /\ Forall waits_for_nothing acts /\
    ((length (y_taken demo_end) < length (y_taken s))%nat \/ y_c s = CDone).
Proof.
  split; [exact demo_runs|]. assert (Hn : y_need demo_end <> []) by (vm_compute; discriminate). split; [exact Hn|].
  apply (proj2 (key_is_taken 2 demo demo_end demo_runs Hn)). vm_compute. discriminate.
Defined.
End LockThm.
