(* ===== verification/WatcherThm.v ===== *)
(** * What the watcher does with a key

    The main thread, from the queue to the table: handles, ZooKeeper, the dump as a fallback, gray
    overrides; and what the callback of the ZooKeeper client enqueues. *)

From S2P Require Import Prelude Common Text HashArr HashArrInv HashArrPut Format FormatThm Store Shm ShmThm Sys Config Dump Zoo Gray Script Feedback Agent Watcher WatcherQueue Driver DriverThm.

Module WatcherThm.
Import Format Shm Msg Config Driver Dump Zoo Gray Script Feedback Agent Watcher WatcherQueue.

(** Run the first command of the goal. *)
Tactic Notation "step" uconstr(lem) := erewrite SM_bind_Some; [|by apply lem]; cbv beta iota.
Ltac step_eq := erewrite SM_bind_Some; [|reflexivity]; cbv beta iota.

Section Laws.
Context {T G K W : Type} `{StoreLaws T} `{GdbmLaws G} `{ZkLaws K} `{OS W T} `{Host W}.
Variables (buf_ok : bool) (hostname : bytes).
Implicit Types (s : agent T G K W) (vm : gmap kid bytes) (m dm : gmap bytes bytes).

(** ** Commands of the components, run in the agent *)

Lemma on_shm_ok {A} (c : SM (shm T) A) s a x : c (a_shm s) = Some (a, x) -> on_shm c s = Some (a, with_shm s x).
Proof. intros E. unfold on_shm. by rewrite E. Qed.
Lemma on_dump_ok {A} (c : SM (dump G) A) s a x : c (a_dump s) = Some (a, x) -> on_dump c s = Some (a, with_dump s x).
Proof. intros E. unfold on_dump. by rewrite E. Qed.
Lemma on_zk_run {A} (c : SM K A) s a k : c (a_zk s) = Some (a, k) -> on_zk c s = Some (a, with_gray s (a_gray s) k).
Proof. intros E. unfold on_zk. by rewrite E. Qed.
Lemma on_gray_ok {A} (c : SM (gray * K) A) s a g k : c (a_gray s, a_zk s) = Some (a, (g, k)) -> on_gray c s = Some (a, with_gray s g k).
Proof. intros E. unfold on_gray. by rewrite E. Qed.

(** ** Handles *)

(** What finding a handle leaves alone: all but the ZooKeeper client, the handle maps, the notify path and
    the queue of gray idcs. *)
Record handle_frame s s' : Prop := {
  hf_shm : a_shm s' = a_shm s;
  hf_dump : a_dump s' = a_dump s;
  hf_conf : a_conf s' = a_conf s;
  hf_set : a_set s' = a_set s;
  hf_gray : gray_nodes (a_gray s') = gray_nodes (a_gray s);
  hf_watch : watch_nodes (a_q s') = watch_nodes (a_q s);
  hf_pending : pending_nodes (a_q s') = pending_nodes (a_q s);
  hf_need : need_trigger_nodes (a_q s') = need_trigger_nodes (a_q s);
  hf_exist : exist_trigger_nodes (a_q s') = exist_trigger_nodes (a_q s)
}.

Lemma handle_frame_refl s : handle_frame s s.
Proof. by split. Qed.

Lemma handle_frame_trans s1 s2 s3 : handle_frame s1 s2 -> handle_frame s2 s3 -> handle_frame s1 s3.
Proof. intros [] []. split; congruence. Qed.

Lemma add_gray_idc_frame idc s : exists s', add_gray_idc idc s = Some (tt, s') /\ handle_frame s s' /\ a_zk s' = a_zk s /\ a_ht s' = a_ht s.
Proof.
  unfold add_gray_idc. destruct (decide (idc = [])); [by exists s; split; [|split; [apply handle_frame_refl|]]|].
  eexists. split; [reflexivity|]. done.
Qed.

Lemma init_env_ok zh idc_host idc s m :
  zk_tree (a_zk s) zh m -> (x00 ∉ register_node_path (a_set s)) ->
  exists s' m', init_env_for_zk hostname zh idc_host idc s = Some (tt, s') /\ zk_tree (a_zk s') zh m' /\ grows m m' /\
    handle_frame s s' /\ ht_idchost_handle (a_ht s') = <[idc_host := zh]> (ht_idchost_handle (a_ht s)).
Proof.
  intros Ht Hz. unfold init_env_for_zk. do 2 step_eq. cbn [a_ht with_ht ht_idchost_handle ht_handle_idchost].
  set (s1 := with_ht _ _). destruct (zoo_state_ok zh (a_zk s) m Ht) as (st & k1 & Hst & Ht1).
  erewrite SM_bind_Some; [|by apply (on_zk_run _ s1)]. set (s2 := with_gray s1 _ k1).
  assert (Hf2 : handle_frame s s2) by by split.
  destruct (negb (st =? ZOO_CONNECTED_STATE)); [exists s2, m; split; [done|]; split; [done|]; split; [apply grows_refl|done]|].
  step_eq. destruct (zk_register_grows zh (register_node_path (a_set s2)) QCONF_AGENT_VERSION k1 m Ht1 Hz) as (r3 & k3 & m3 & Hr3 & Ht3 & Hg3).
  erewrite SM_bind_Some; [|by apply (on_zk_run _ s2)]. set (s3 := with_gray s2 _ k3).
  destruct (watch_notify_total hostname zh (a_gray s3) k3 m3 Ht3) as (r4 & g4 & k4 & Hr4 & Ht4 & Hg4).
  erewrite SM_bind_Some; [|by apply (on_gray_ok _ s3)]. set (s4 := with_gray s3 g4 k4).
  assert (Hf4 : handle_frame s s4) by by split.
  destruct (r4 =? QCONF_OK); [|by exists s4, m3].
  destruct (add_gray_idc_frame idc s4) as (s5 & Hr5 & Hf5 & Ez & Eh). exists s5, m3. split; [done|].
  split; [by rewrite Ez|]. split; [done|]. split; [by apply (handle_frame_trans _ s4)|by rewrite Eh].
Qed.

(** The idc is configured and its ZooKeeper holds [m]. *)
Definition conn s idc host m : Prop :=
  idc_conf_map (a_conf s) !! idc = Some host /\ (x00 ∉ host) /\
  match ht_idchost_handle (a_ht s) !! serialize_to_idc_host idc host with
  | Some zh => if zh =? 0 then zk_serves (a_zk s) host m else zk_tree (a_zk s) zh m
  | None => zk_serves (a_zk s) host m
  end.

Lemma get_zhandle_ok idc host s m :
  idc <> [] -> conn s idc host m -> (x00 ∉ register_node_path (a_set s)) ->
  exists zh s' m', get_zhandle_by_idc hostname idc s = Some (zh, s') /\ (zh <> 0 -> zk_tree (a_zk s') zh m') /\ grows m m' /\
    handle_frame s s' /\
    (forall zh0, ht_idchost_handle (a_ht s) !! serialize_to_idc_host idc host = Some zh0 -> zh0 <> 0 -> zh = zh0 /\ s' = s /\ m' = m).
Proof.
  intros Hi (Hc & Hhz & Ht) Hz. unfold get_zhandle_by_idc. rewrite decide_False by done. step_eq.
  unfold get_idc_conf. rewrite decide_False by done. rewrite Hc. cbn [Z.eqb QCONF_OK negb]. set (ih := serialize_to_idc_host idc host) in *.
  unfold ih_find, lock_ht_find. step_eq.
  assert (Hinit : zk_serves (a_zk s) host m ->
    exists zh s' m', (timeout ← gets (fun s => recv_timeout (a_set s)); zh ← on_zk (zookeeper_init (c_str host) timeout);
       if zh =? 0 then mret 0 else init_env_for_zk hostname zh ih idc;; mret zh) s = Some (zh, s') /\
      (zh <> 0 -> zk_tree (a_zk s') zh m') /\ grows m m' /\ handle_frame s s').
  { intros Hsv. step_eq. rewrite c_str_no_nul by done.
    destruct (zookeeper_init_ok host (recv_timeout (a_set s)) (a_zk s) m Hsv) as (zh & k1 & Hr & Ht1).
    erewrite SM_bind_Some; [|by apply on_zk_run]. destruct (Z.eqb_spec zh 0) as [->|Hne].
    { eexists 0, _, m. split; [done|]. split; [done|]. split; [apply grows_refl|]. by split. }
    destruct (init_env_ok zh ih idc (with_gray s (a_gray s) k1) m) as (s' & m' & Hrun & Ht' & Hg & Hf & _); [by apply Ht1|done|].
    exists zh, s', m'. rewrite (SM_bind_Some _ _ _ _ _ Hrun). split; [done|]. split; [done|]. split; [done|].
    by apply (handle_frame_trans _ (with_gray s (a_gray s) k1)). }
  destruct (ht_idchost_handle (a_ht s) !! ih) as [zh|].
  - revert Ht. destruct (Z.eqb_spec zh 0) as [Ez|Hne]; intros Ht.
    + destruct (Hinit Ht) as (zh' & s' & m' & ? & ? & ? & ?). exists zh', s', m'. do 4 (split; [done|]). by intros zh0 [= <-] ?.
    + exists zh, s, m. split; [done|]. split; [done|]. split; [apply grows_refl|]. split; [apply handle_frame_refl|].
      by intros zh0 [= <-].
  - destruct (Hinit Ht) as (zh' & s' & m' & ? & ? & ? & ?). exists zh', s', m'. by do 4 (split; [done|]).
Qed.

(** ** Writing the table *)

(** What writing a key leaves alone: all but the table and the trigger queue. *)
Record table_frame s s' : Prop := {
  tf_dump : a_dump s' = a_dump s;
  tf_zk : a_zk s' = a_zk s;
  tf_gray : a_gray s' = a_gray s;
  tf_conf : a_conf s' = a_conf s;
  tf_set : a_set s' = a_set s;
  tf_ht : a_ht s' = a_ht s;
  tf_watch : watch_nodes (a_q s') = watch_nodes (a_q s);
  tf_pending : pending_nodes (a_q s') = pending_nodes (a_q s);
  tf_gray_idcs : gray_idcs (a_q s') = gray_idcs (a_q s)
}.

(** Other keys keep their value or are evicted. *)
Definition shrinks key vm vm' : Prop := forall k, k <> s_ident key -> vm' !! k = vm !! k \/ vm' !! k = None.

(** The table takes a value under [key]. *)
Definition fits key vm : Prop := key <> [] /\ blen key < 65536 /\ s_load (with_code <$> vm) key < 2 ^ 15 - 1.

(** Enough slots are free for a value. *)
Definition roomy s val : Prop := slots_for (blen (with_code val)) <= s_room (sh_tbl (a_shm s)).

Lemma table_set_ok key val s vm :
  shm_ok (a_shm s) vm -> fits key vm -> blen val < 2 ^ 32 ->
  exists ret x vm', hash_tbl_set key val (a_shm s) = Some (ret, x) /\ shm_ok x vm' /\ shrinks key vm vm' /\
    ((ret = QCONF_ERR_SAME_VALUE /\ vm' = vm /\ vm !! s_ident key = Some val) \/
     (ret = QCONF_OK /\ vm' !! s_ident key = Some val) \/
     (ret = QCONF_ERR_TBL_SET /\ kept (s_ident key) vm vm' /\ ~ roomy s val)).
Proof.
  intros Hok (Hk & Hl & Hload) Hv. destruct (hash_tbl_set_ok key val (a_shm s) vm Hok Hk Hl Hv Hload)
    as (ret & x & vm' & ev & Hrun & Hok' & Hout & Hev & Hroom). exists ret, x, vm'. split; [done|]. split; [done|]. split.
  - intros k Hne. rewrite (Hev k Hne). destruct (decide _); auto.
  - destruct Hout as [(-> & ? & ? & _)|[(-> & ? & _)|(-> & _ & _ & Hkept)]]; [auto|auto|]. right. right. do 2 (split; [done|]).
    intros Hr. by destruct (Hroom Hr).
Qed.

Lemma trigger_frame key val t fb s :
  exists r s', add_change_trigger_node key val t fb s = Some (r, s') /\ table_frame s s' /\ a_shm s' = a_shm s.
Proof.
  unfold add_change_trigger_node. destruct (decide (key = [])); [by eexists _, s|].
  eexists _, _. split; [reflexivity|]. unfold push_trigger. split; [|done]. by destruct (_ !! _).
Qed.

Lemma publish_ok key val fb s vm :
  shm_ok (a_shm s) vm -> fits key vm -> blen val < 2 ^ 32 ->
  exists ret s' vm', publish key val fb s = Some (ret, s') /\ shm_ok (a_shm s') vm' /\ shrinks key vm vm' /\ table_frame s s' /\
    ((ret = QCONF_OK /\ vm' !! s_ident key = Some val) \/ (ret = QCONF_ERR_TBL_SET /\ kept (s_ident key) vm vm' /\ ~ roomy s val)).
Proof.
  intros Hok Hk Hv. destruct (table_set_ok key val s vm Hok Hk Hv) as (ret & x & vm' & Hrun & Hok' & Hsh & Hout).
  unfold publish. step on_shm_ok. destruct Hout as [(-> & -> & Hl)|[(-> & Hl)|(-> & Hkept & Hn)]].
  - eexists _, (with_shm s x), vm. split; [reflexivity|]. do 2 (split; [done|]). split; [by split|by left].
  - destruct (trigger_frame key val QCONF_TRIGGER_TYPE_ADD_OR_MODIFY fb (with_shm s x)) as (r & s2 & Hr & Hf & Es).
    erewrite SM_bind_Some; [|cbn [Z.eqb QCONF_OK]; rewrite (SM_bind_Some _ _ _ _ _ Hr); reflexivity].
    eexists _, s2, vm'. split; [reflexivity|]. rewrite Es. do 2 (split; [done|]). split; [|by left].
    destruct Hf. by split.
  - eexists _, (with_shm s x), vm'. split; [reflexivity|]. do 2 (split; [done|]). split; [by split|by right].
Qed.

Lemma withdraw_ok key s vm :
  shm_ok (a_shm s) vm -> key <> [] ->
  exists s', withdraw key s = Some (QCONF_OK, s') /\ shm_ok (a_shm s') (delete (s_ident key) vm) /\ table_frame s s'.
Proof.
  intros Hok Hk. destruct (hash_tbl_remove_ok key (a_shm s) vm Hok Hk) as (t' & Hrun & Hr'). unfold withdraw. step on_shm_ok.
  set (s1 := with_shm s _). destruct (trigger_frame key [] QCONF_TRIGGER_TYPE_REMOVE [] s1) as (r & s2 & Hr & Hf & Es).
  rewrite (SM_bind_Some _ _ _ _ _ Hr). exists s2. split; [done|]. rewrite Es. split; [|destruct Hf; by split].
  apply (shm_ok_tbl (a_shm s) vm); [done|done|]. apply vals_delete, Hok.
Qed.

Lemma finish_node_ok key ret val s vm :
  shm_ok (a_shm s) vm -> fits key vm -> blen val < 2 ^ 31 ->
  exists ret' s' vm', finish_node key ret val s = Some (ret', s') /\ shm_ok (a_shm s') vm' /\ shrinks key vm vm' /\ table_frame s s' /\
    (ret = QCONF_OK -> (ret' = QCONF_OK /\ vm' !! s_ident key = Some (nodeval_to_tblval key val)) \/
       (ret' = QCONF_ERR_TBL_SET /\ kept (s_ident key) vm vm' /\ ~ roomy s (nodeval_to_tblval key val))) /\
    (ret = QCONF_NODE_NOT_EXIST -> ret' = QCONF_OK /\ vm' = delete (s_ident key) vm) /\
    (ret <> QCONF_OK -> ret <> QCONF_NODE_NOT_EXIST -> ret' = ret /\ s' = s /\ vm' = vm).
Proof.
  intros Hok Hk Hv. unfold finish_node. destruct (Z.eqb_spec ret QCONF_OK) as [->|Hne].
  - destruct (publish_ok key (nodeval_to_tblval key val) [] s vm Hok Hk) as (ret' & s' & vm' & ? & ? & ? & ? & ?).
    { apply blen_nodeval; [|done]. destruct Hk as (_ & ? & _). lia. }
    exists ret', s', vm'. by split_and!.
  - destruct (Z.eqb_spec ret QCONF_NODE_NOT_EXIST) as [->|Hne2].
    + destruct (withdraw_ok key s vm Hok (proj1 Hk)) as (s' & ? & ? & ?). eexists _, s', _. split; [done|]. split; [done|].
      split; [|by split_and!]. intros k Hk'. left. by apply lookup_delete_ne.
    + exists ret, s, vm. split; [done|]. split; [done|]. split; [by left|]. split; [by split|]. by split_and!.
Qed.

(** ** The fallback on the dump *)

(** What the main thread leaves alone while it processes a key. *)
Record main_frame s s' : Prop := {
  mf_conf : a_conf s' = a_conf s;
  mf_set : a_set s' = a_set s;
  mf_gray : gray_nodes (a_gray s') = gray_nodes (a_gray s);
  mf_watch : watch_nodes (a_q s') = watch_nodes (a_q s);
  mf_pending : pending_nodes (a_q s') = pending_nodes (a_q s)
}.

Lemma main_frame_trans s1 s2 s3 : main_frame s1 s2 -> main_frame s2 s3 -> main_frame s1 s3.
Proof. intros [] []. split; congruence. Qed.
Lemma handle_main s s' : handle_frame s s' -> main_frame s s'.
Proof. intros []. by split. Qed.
Lemma table_main s s' : table_frame s s' -> main_frame s s'.
Proof. intros []. split; congruence. Qed.
Hint Resolve handle_main table_main : core.

Lemma read_dump_ok key s vm dm :
  shm_ok (a_shm s) vm -> dump_ok (a_dump s) dm -> fits key vm -> map_Forall (fun _ v => blen v < 2 ^ 32) dm ->
  exists ret s' vm', read_dump key s = Some (ret, s') /\ shm_ok (a_shm s') vm' /\ dump_ok (a_dump s') dm /\ shrinks key vm vm' /\
    main_frame s s' /\ a_zk s' = a_zk s /\
    (ret = QCONF_OK -> exists tv, dm !! key = Some tv /\ vm' !! s_ident key = Some tv) /\
    (ret <> QCONF_OK -> vm' = vm \/ (ret = QCONF_ERR_TBL_SET /\ kept (s_ident key) vm vm')).
Proof.
  intros Hok Hd Hk Hsz. unfold read_dump. destruct (dump_get_ok key [] (a_dump s) dm Hd (proj1 Hk)) as (d' & Hget & Hd').
  erewrite SM_bind_Some; [|by apply on_dump_ok]. set (s1 := with_dump s d').
  destruct (dm !! key) as [tv|] eqn:E; cbn [Z.eqb QCONF_OK QCONF_ERR_NOT_FOUND negb].
  - destruct (table_set_ok key tv s1 vm Hok Hk (Hsz _ _ E)) as (ret & x & vm' & Hrun & Hok' & Hsh & Hout).
    step on_shm_ok. eexists _, (with_shm s1 x), vm'. split; [reflexivity|]. do 3 (split; [done|]). split; [by split|]. split; [done|].
    destruct Hout as [(-> & -> & Hl)|[(-> & Hl)|(-> & Hkept & _)]]; split; try done; intros; [by exists tv|by exists tv|by right].
  - eexists _, s1, vm. split; [reflexivity|]. do 2 (split; [done|]). split; [by left|]. split; [by split|]. split; [done|]. split; [done|by left].
Qed.

(** ** Processing a key *)

(** The state in which the main thread processes keys of an idc. *)
Record serving s idc host vm m dm : Prop := {
  sv_shm : shm_ok (a_shm s) vm;
  sv_dump : dump_ok (a_dump s) dm;
  sv_vals : map_Forall (fun _ v => blen v < 2 ^ 32) dm;
  sv_conn : conn s idc host m;
  sv_reg : x00 ∉ register_node_path (a_set s)
}.

(** ZooKeeper answers: reading a node gives its value or says that it does not exist. *)
Definition answers s idc host : Prop :=
  buf_ok = true /\ exists zh, ht_idchost_handle (a_ht s) !! serialize_to_idc_host idc host = Some zh /\ zh <> 0 /\
  forall p, exists ret d k, zoo_get zh p true (a_zk s) = Some ((ret, d), k) /\ (ret = ZOK \/ ret = ZNONODE).

Lemma zk_get_node_answers zh path buf s m k :
  zk_tree k zh m -> (x00 ∉ path) ->
  (exists ret d k', zoo_get zh path true k = Some ((ret, d), k') /\ (ret = ZOK \/ ret = ZNONODE)) -> buf_ok = true ->
  exists ret v k', zk_get_node buf_ok zh path buf true k = Some ((ret, v), k') /\ (ret = QCONF_OK \/ ret = QCONF_NODE_NOT_EXIST).
Proof.
  intros Ht Hz (ret & d & k' & Hget & Hret) Hb. unfold zk_get_node. rewrite Hb, c_str_no_nul by done. cbn [negb QCONF_GET_RETRIES retry].
  rewrite (SM_bind_Some _ _ _ _ _ Hget). destruct Hret as [-> | ->]; cbn; eexists _, _, _; split; auto.
Qed.

(** What a successful round leaves in the table under the key of a node. *)
Definition node_outcome key path m vm : Prop :=
  (exists v, m !! path = Some v /\ vm !! s_ident key = Some (nodeval_to_tblval key v)) \/
  (m !! path = None /\ vm !! s_ident key = None).

Lemma node_served_ok idc host path s vm m dm :
  let key := (serialize_to_tblkey QCONF_DATA_TYPE_NODE idc path).2 in
  serving s idc host vm m dm -> idc <> [] -> blen idc < 256 -> blen path < 65000 -> (x00 ∉ path) -> fits key vm ->
  gray_nodes (a_gray s) !! key = None ->
  exists ret s' vm' m', set_watcher_and_update_tbl buf_ok hostname key s = Some (ret, s') /\
    shm_ok (a_shm s') vm' /\ dump_ok (a_dump s') dm /\ grows m m' /\ shrinks key vm vm' /\ main_frame s s' /\
    (ret = QCONF_OK -> node_outcome key path m' vm' \/ exists tv, dm !! key = Some tv /\ vm' !! s_ident key = Some tv) /\
    (ret <> QCONF_OK -> vm' = vm \/ (ret = QCONF_ERR_TBL_SET /\ kept (s_ident key) vm vm')) /\
    (answers s idc host -> m' = m /\ ((ret = QCONF_OK /\ node_outcome key path m vm') \/
       (ret = QCONF_ERR_TBL_SET /\ exists v, m !! path = Some v /\ ~ roomy s (nodeval_to_tblval key v)))).
Proof.
  cbn zeta. set (key := (serialize_to_tblkey QCONF_DATA_TYPE_NODE idc path).2).
  intros [Hok Hd Hdv Hc Hreg] Hi Hil Hpl Hpz Hk Hg. unfold set_watcher_and_update_tbl. step_eq. unfold is_gray_node. rewrite Hg. cbv beta iota.
  unfold key at 1. rewrite key_read by (done || lia). fold key. cbv beta iota.
  destruct (get_zhandle_ok idc host s m Hi Hc Hreg) as (zh & s1 & m1 & Hr1 & Ht1 & Hg1 & Hf1 & Hopen).
  rewrite (SM_bind_Some _ _ _ _ _ Hr1). pose proof Hf1 as [Es1 Ed1 _ _ _ _ _ _ _].
  destruct (Z.eqb_spec zh 0) as [->|Hzh]; cbn [negb].
  { step_eq. exists QCONF_ERR_OTHER, s1, vm, m1. split; [done|]. rewrite Es1, Ed1. do 3 (split; [done|]). split; [by left|].
    split; [by auto|]. split; [done|]. split; [by left|]. intros (_ & zh0 & Hl & Hne & _). by destruct (Hopen zh0 Hl Hne) as (? & _). }
  rewrite decide_True by done. unfold process_node. specialize (Ht1 Hzh).
  destruct (zk_get_node_ok buf_ok zh path [] true (a_zk s1) m1 Ht1 Hpz) as (r2 & v & k2 & Hr2 & Ht2 & Hv1 & Hv2 & Hv3 & Hv4).
  assert (Hlen : blen v < 2 ^ 31).
  { destruct (decide (r2 = QCONF_OK)) as [E|E]; [|rewrite (Hv3 E); done].
    pose proof (zk_tree_small _ _ _ Ht2 _ _ (Hv1 E)) as Hsm. unfold QCONF_MAX_VALUE_SIZE in Hsm. cbv beta in Hsm. lia. }
  set (s2 := with_gray s1 (a_gray s1) k2).
  assert (Hok2 : shm_ok (a_shm s2) vm) by (cbn [s2 with_gray a_shm]; by rewrite Es1).
  destruct (finish_node_ok key r2 v s2 vm Hok2 Hk Hlen) as (r3 & s3 & vm3 & Hr3 & Hok3 & Hsh3 & Hf3 & Hpub & Hgone & Hfail).
  erewrite SM_bind_Some; [|rewrite (SM_bind_Some _ _ _ _ _ (on_zk_run _ s1 _ _ Hr2)); exact Hr3].
  assert (Hf13 : main_frame s s3).
  { apply (main_frame_trans _ s1); [by auto|]. apply (main_frame_trans _ s2); [by split|by auto]. }
  assert (Hd3 : dump_ok (a_dump s3) dm).
  { destruct Hf3 as [E _ _ _ _ _ _ _ _]. rewrite E. cbn [s2 with_gray a_dump]. by rewrite Ed1. }
  assert (Hans : answers s idc host -> m1 = m /\ (r2 = QCONF_OK \/ r2 = QCONF_NODE_NOT_EXIST)).
  { intros (Hb & zh0 & Hl & Hne & Hget). destruct (Hopen zh0 Hl Hne) as (<- & -> & ->). split; [done|].
    destruct (zk_get_node_answers zh path [] s m (a_zk s) Ht1 Hpz (Hget path) Hb) as (r & w & k & Hr & Hres).
    rewrite Hr in Hr2. by injection Hr2 as -> _ _. }
  destruct (decide (r2 = QCONF_OK)) as [E2|N2]; [|destruct (decide (r2 = QCONF_NODE_NOT_EXIST)) as [E2|M2]].
  - assert (Hne3 : r3 <> QCONF_ERR_ZOO_FAILED) by (destruct (Hpub E2) as [[-> _]|(-> & _)]; done).
    destruct (Z.eqb_spec r3 QCONF_ERR_ZOO_FAILED); [done|]. exists r3, s3, vm3, m1. do 6 (split; [done|]). destruct (Hpub E2) as [[-> Hl]|(-> & Hkept & Hn)].
    + assert (Hno : node_outcome key path m1 vm3) by (left; exists v; auto). split; [by auto|]. split; [done|].
      intros Ha. destruct (Hans Ha) as [<- _]. auto.
    + split; [done|]. split; [by auto|]. intros Ha. destruct (Hans Ha) as [<- _]. split; [done|]. right. split; [done|].
      exists v. split; [auto|]. unfold roomy in *. change (a_shm s2) with (a_shm s1) in Hn. by rewrite Es1 in Hn.
  - destruct (Hgone E2) as [-> ->]. cbn [Z.eqb QCONF_OK QCONF_ERR_ZOO_FAILED]. eexists _, s3, _, m1. do 6 (split; [done|]).
    assert (Hno : node_outcome key path m1 (delete (s_ident key) vm)) by (right; split; [auto|apply lookup_delete_eq]).
    split; [by auto|]. split; [done|]. intros Ha. destruct (Hans Ha) as [<- _]. auto.
  - destruct (Hfail N2 M2) as (-> & -> & ->). destruct (Z.eqb_spec r2 QCONF_ERR_ZOO_FAILED) as [E|N].
    + destruct (read_dump_ok key s2 vm dm Hok2) as (r4 & s4 & vm4 & Hr4 & Hok4 & Hd4 & Hsh4 & Hf4 & _ & Hd5 & Hd6); try done.
      exists r4, s4, vm4, m1. do 4 (split; [done|]). split; [done|]. split; [by apply (main_frame_trans _ s2)|].
      split; [by auto|]. split; [done|]. intros Ha. by destruct (Hans Ha) as [_ [?|?]].
    + exists r2, s2, vm, m1. do 6 (split; [done|]). split; [done|]. split; [by left|]. intros Ha. by destruct (Hans Ha) as [_ [?|?]].
Qed.

Lemma gray_served_ok key gv s vm :
  shm_ok (a_shm s) vm -> fits key vm -> gray_nodes (a_gray s) !! key = Some gv -> blen gv < 2 ^ 32 ->
  exists ret s' vm', set_watcher_and_update_tbl buf_ok hostname key s = Some (ret, s') /\ shm_ok (a_shm s') vm' /\ shrinks key vm vm' /\
    table_frame s s' /\
    ((ret = QCONF_OK /\ vm' !! s_ident key = Some gv) \/ (ret = QCONF_ERR_GRAY_FAKE_SHM_FAILED /\ kept (s_ident key) vm vm' /\ ~ roomy s gv)).
Proof.
  intros Hok Hk Hg Hv. unfold set_watcher_and_update_tbl. step_eq. unfold is_gray_node. rewrite Hg. cbv beta iota. unfold set_gray_value.
  destruct (table_set_ok key gv s vm Hok Hk Hv) as (ret & x & vm' & Hrun & Hok' & Hsh & Hout). step on_shm_ok.
  destruct Hout as [(-> & -> & Hl)|[(-> & Hl)|(-> & Hkept & Hn)]].
  - eexists _, (with_shm s x), vm. split; [reflexivity|]. do 2 (split; [done|]). split; [by split|by left].
  - destruct (trigger_frame key gv QCONF_TRIGGER_TYPE_ADD_OR_MODIFY [] (with_shm s x)) as (r & s2 & Hr & Hf & Es).
    erewrite SM_bind_Some; [|cbn [Z.eqb QCONF_OK]; rewrite (SM_bind_Some _ _ _ _ _ Hr); reflexivity].
    eexists _, s2, vm'. split; [reflexivity|]. rewrite Es. do 2 (split; [done|]). split; [|by left]. destruct Hf. by split.
  - eexists _, (with_shm s x), vm'. split; [reflexivity|]. do 2 (split; [done|]). split; [by split|by right].
Qed.

(** C9. Processing the key of a node always returns and disturbs no other key of the table, except that it
    may evict some. A key that a gray release overrides gets its gray value and ZooKeeper is not asked.
    Any other key: on success the table holds the value that the node has in ZooKeeper, or no value when
    ZooKeeper has no such node, or the value of the dump; on failure the table is unchanged, unless it was
    full. While ZooKeeper answers, the dump is not used, and only a full table can make it fail. *)
Theorem node_key_processed idc host path s vm m dm :
  let key := (serialize_to_tblkey QCONF_DATA_TYPE_NODE idc path).2 in
  serving s idc host vm m dm -> idc <> [] -> blen idc < 256 -> blen path < 65000 -> (x00 ∉ path) -> fits key vm ->
  map_Forall (fun _ v => blen v < 2 ^ 32) (gray_nodes (a_gray s)) ->
  exists ret s' vm' m', set_watcher_and_update_tbl buf_ok hostname key s = Some (ret, s') /\
    shm_ok (a_shm s') vm' /\ dump_ok (a_dump s') dm /\ grows m m' /\ shrinks key vm vm' /\
    match gray_nodes (a_gray s) !! key with
    | Some gv => a_zk s' = a_zk s /\
        ((ret = QCONF_OK /\ vm' !! s_ident key = Some gv) \/ (ret = QCONF_ERR_GRAY_FAKE_SHM_FAILED /\ kept (s_ident key) vm vm' /\ ~ roomy s gv))
    | None =>
        (ret = QCONF_OK -> node_outcome key path m' vm' \/ exists tv, dm !! key = Some tv /\ vm' !! s_ident key = Some tv) /\
        (ret <> QCONF_OK -> vm' = vm \/ (ret = QCONF_ERR_TBL_SET /\ kept (s_ident key) vm vm')) /\
        (answers s idc host -> m' = m /\ ((ret = QCONF_OK /\ node_outcome key path m vm') \/
           (ret = QCONF_ERR_TBL_SET /\ exists v, m !! path = Some v /\ ~ roomy s (nodeval_to_tblval key v))))
    end.
Proof.
  cbn zeta. set (key := (serialize_to_tblkey QCONF_DATA_TYPE_NODE idc path).2). intros Hs Hi Hil Hpl Hpz Hk Hgv.
  destruct (gray_nodes (a_gray s) !! key) as [gv|] eqn:Eg.
  - pose proof Hs as [Hok Hd _ _ _].
    destruct (gray_served_ok key gv s vm Hok Hk Eg (Hgv _ _ Eg)) as (ret & s' & vm' & Hrun & Hok' & Hsh & [Ed Ez _ _ _ _ _ _ _] & Hout).
    exists ret, s', vm', m. split; [done|]. split; [done|]. split; [by rewrite Ed|]. split; [apply grows_refl|]. done.
  - destruct (node_served_ok idc host path s vm m dm Hs Hi Hil Hpl Hpz Hk Eg) as (ret & s' & vm' & m' & ? & ? & ? & ? & ? & _ & Hrest).
    by exists ret, s', vm', m'.
Qed.

(** ** A round of the main thread *)

Lemma deque_step_ok key rest s r s3 :
  q_need (watch_nodes (a_q s)) = key :: rest -> key <> [] ->
  let s2 := with_q s (set_pending ({[key]} ∪ pending_nodes (a_q s))
              (set_watch (mkQueue rest (q_exist (watch_nodes (a_q s)) ∖ {[key]})) (a_q s))) in
  set_watcher_and_update_tbl buf_ok hostname key s2 = Some (r, s3) ->
  deque_step buf_ok hostname s = Some (tt, with_q s3 (set_pending (pending_nodes (a_q s3) ∖ {[key]}) (a_q s3))).
Proof.
  intros Hq Hk s2 Hrun. unfold deque_step, take_watch_node. erewrite SM_bind_Some; [|unfold on_q, dequeue; rewrite Hq; reflexivity].
  step_eq. rewrite decide_False by done. erewrite SM_bind_Some; [|erewrite SM_bind_Some; [|exact Hrun]; reflexivity]. done.
Qed.

(** What the message thread and the queue leave alone. *)
Record queue_frame s s' : Prop := {
  qf_shm : a_shm s' = a_shm s;
  qf_dump : a_dump s' = a_dump s;
  qf_zk : a_zk s' = a_zk s;
  qf_gray : a_gray s' = a_gray s;
  qf_conf : a_conf s' = a_conf s;
  qf_set : a_set s' = a_set s;
  qf_ht : a_ht s' = a_ht s
}.

Lemma serving_frame s s' idc host vm m dm : queue_frame s s' -> serving s idc host vm m dm -> serving s' idc host vm m dm.
Proof.
  intros [E1 E2 E3 E4 E5 E6 E7] [? ? ? Hc ?]. split; rewrite ?E1, ?E2, ?E6; try done. unfold conn. by rewrite E3, E5, E7.
Qed.

(** A key that arrives while the queue is empty: the message thread enqueues it, and the main thread
    processes it next. *)
Lemma message_round key s w e :
  key <> [] -> watch_nodes (a_q s) = no_queue -> stop_watcher_setting (a_set s) = false ->
  os_msgrcv (T := T) (msg_queue_id (a_set s)) QCONF_MAX_MSG_LEN (a_sys s) = Some ((Some key, e), w) ->
  exists s1 s2, msg_step [] s = Some ((Continue, key), s1) /\ queue_frame s s2 /\
    forall r s3, set_watcher_and_update_tbl buf_ok hostname key s2 = Some (r, s3) -> main_frame s2 s3 ->
      exists s4, deque_step buf_ok hostname s1 = Some (tt, s4) /\ a_shm s4 = a_shm s3 /\ q_need (watch_nodes (a_q s4)) = [].
Proof.
  intros Hk Hq Hstop Hmsg.
  assert (Hrecv : receive_msg (msg_queue_id (a_set s)) [] (a_sys s, sh_tbl (a_shm s)) = Some ((QCONF_OK, key), (w, sh_tbl (a_shm s)))).
  { unfold receive_msg. erewrite SM_bind_Some; [|by apply sys_ok]. done. }
  set (s0 := with_sys (with_shm s (mkShm (sh_tbl (a_shm s)) (lruInstance (a_shm s)))) (a_fb s) w).
  set (s1 := with_q s0 (set_watch (enqueue key (watch_nodes (a_q s))) (a_q s))).
  assert (Hstep : msg_step [] s = Some ((Continue, key), s1)).
  { unfold msg_step. step_eq. erewrite SM_bind_Some; [|unfold on_msg; rewrite Hrecv; reflexivity]. cbv beta iota. step_eq.
    cbn [with_sys with_shm a_set]. rewrite Hstop. cbn [Z.eqb QCONF_OK]. unfold add_watcher_node. by rewrite decide_False by done. }
  eexists s1, _. split; [done|]. assert (Hneed : q_need (watch_nodes (a_q s1)) = [key]) by (cbn; by rewrite Hq).
  split; [|intros r s3 Hrun Hmf; eexists; split; [exact (deque_step_ok key [] s1 r s3 Hneed Hk Hrun)|]].
  - split; try done. cbn. by destruct (a_shm s).
  - split; [done|]. cbn [a_q with_q watch_nodes set_pending]. by rewrite (mf_watch _ _ Hmf).
Qed.

(** The message thread takes the key of a node, and the main thread reads the node from a ZooKeeper that
    answers and stores it. *)
Lemma request_round idc host path val s vm m dm w e :
  let key := (serialize_to_tblkey QCONF_DATA_TYPE_NODE idc path).2 in
  serving s idc host vm m dm -> answers s idc host -> m !! path = Some val ->
  idc <> [] -> blen idc < 256 -> blen path < 65000 -> (x00 ∉ path) -> fits key vm ->
  gray_nodes (a_gray s) !! key = None -> roomy s (nodeval_to_tblval key val) ->
  watch_nodes (a_q s) = no_queue -> stop_watcher_setting (a_set s) = false ->
  os_msgrcv (T := T) (msg_queue_id (a_set s)) QCONF_MAX_MSG_LEN (a_sys s) = Some ((Some key, e), w) ->
  exists s1 s2 vm', msg_step [] s = Some ((Continue, key), s1) /\ deque_step buf_ok hostname s1 = Some (tt, s2) /\
    q_need (watch_nodes (a_q s2)) = [] /\ tbl_holds (sh_tbl (a_shm s2)) vm' /\
    vm' !! s_ident key = Some (nodeval_to_tblval key val) /\ blen val < 2 ^ 32.
Proof.
  cbn zeta. set (key := (serialize_to_tblkey QCONF_DATA_TYPE_NODE idc path).2).
  intros Hs Ha Hm Hi Hil Hpl Hpz Hk Hg Hroom Hq Hstop Hmsg.
  destruct (message_round key s w e (proj1 Hk) Hq Hstop Hmsg) as (s1 & s2 & Hstep & Hf & Hdeque).
  pose proof Hf as [E1 E2 E3 E4 E5 E6 E7]. pose proof (serving_frame _ _ _ _ _ _ _ Hf Hs) as Hs2.
  assert (Ha2 : answers s2 idc host) by (unfold answers; by rewrite E3, E7).
  destruct (node_served_ok idc host path s2 vm m dm Hs2 Hi Hil Hpl Hpz Hk) as (ret & s3 & vm' & m' & Hrun & Hok3 & _ & _ & _ & Hmf & _ & _ & Hans).
  { by rewrite E4. }
  destruct (Hans Ha2) as (_ & Hres). assert (Hl : vm' !! s_ident key = Some (nodeval_to_tblval key val)).
  { destruct Hres as [(_ & [(v & Hv & Hl)|(Hv & _)])|(_ & v & Hv & Hnr)]; rewrite Hm in Hv; [by injection Hv as ->|done|].
    injection Hv as <-. destruct Hnr. unfold roomy in *. by rewrite E1. }
  destruct (Hdeque ret s3 Hrun Hmf) as (s4 & Hdq & E4s & Hempty). exists s1, s4, vm'. do 3 (split; [done|]).
  split; [rewrite E4s; destruct Hok3; by split|]. split; [done|].
  destruct Hs as [_ _ _ (_ & _ & Ht) _]. destruct Ha as (_ & zh & Hzh & Hne & _). rewrite Hzh in Ht.
  destruct (Z.eqb_spec zh 0); [done|]. pose proof (zk_tree_small _ _ _ Ht _ _ Hm) as Hsm. unfold QCONF_MAX_VALUE_SIZE in Hsm. cbv beta in Hsm. lia.
Qed.

(** A client's request is served. The message thread takes the key from the message queue, the main
    thread reads the node from a ZooKeeper that answers, and a client that then asks for any spelling of
    the path finds the node's value in the table and gets it, with a NUL, in its buffer. *)
Theorem request_served `{!OSTotal W T} `{!OSLocal} idc host nb core na val s vm m dm w e pw msqid buf buf_len :
  let path := delim :: core in
  let key := (serialize_to_tblkey QCONF_DATA_TYPE_NODE idc path).2 in
  serving s idc host vm m dm -> answers s idc host -> m !! path = Some val ->
  core_path core -> idc <> [] -> blen idc < 256 -> blen path < 65000 -> (x00 ∉ path) -> fits key vm ->
  gray_nodes (a_gray s) !! key = None -> roomy s (nodeval_to_tblval key val) ->
  watch_nodes (a_q s) = no_queue -> stop_watcher_setting (a_set s) = false ->
  os_msgrcv (T := T) (msg_queue_id (a_set s)) QCONF_MAX_MSG_LEN (a_sys s) = Some ((Some key, e), w) ->
  msqid <> QCONF_INVALID_SEM_ID -> blen val < buf_len <= blen buf ->
  exists s1 s2 t', msg_step [] s = Some ((Continue, key), s1) /\ deque_step buf_ok hostname s1 = Some (tt, s2) /\
    q_need (watch_nodes (a_q s2)) = [] /\
    qconf_get_conf (Some (slashes nb ++ core ++ slashes na)) (Some buf) buf_len (Some idc)
        (mkProc pw (sh_tbl (a_shm s2)) true msqid) =
      Some ((QCONF_OK, Some (val ++ [x00] ++ drop (S (length val)) buf)), mkProc pw t' true msqid).
Proof.
  cbn zeta. intros Hs Ha Hm Hc Hi Hil Hpl Hpz Hk Hg Hroom Hq Hstop Hmsg Hid Hbuf.
  destruct (request_round idc host (delim :: core) val s vm m dm w e Hs Ha Hm Hi Hil Hpl Hpz Hk Hg Hroom Hq Hstop Hmsg)
    as (s1 & s2 & vm' & Hstep & Hdq & Hempty & Hh & Hl & Hv).
  destruct (read_stored idc nb core na val _ vm' pw msqid buf buf_len Hh Hc Hi Hv Hl Hid Hbuf) as (t' & Hg').
  by exists s1, s2, t'.
Qed.

(** ** Events *)

(** A key that the agent serves or is about to serve. *)
Definition in_table vm key : Prop := is_Some (vm !! s_ident key).
Definition pending s key : Prop := key ∈ pending_nodes (a_q s).
#[export] Instance in_table_dec vm key : Decision (in_table vm key).
Proof. unfold in_table. apply _. Defined.
#[export] Instance pending_dec s key : Decision (pending s key).
Proof. unfold pending. apply _. Defined.

Lemma exist_ok key s vm : shm_ok (a_shm s) vm -> key <> [] -> on_shm (hash_tbl_exist key) s = Some (bool_decide (in_table vm key), s).
Proof.
  intros Hok Hk. assert (Hs : hash_tbl_exist key (a_shm s) = Some (bool_decide (in_table vm key), a_shm s)).
  { unfold hash_tbl_exist. rewrite (SM_bind_Some _ _ _ _ _ (shm_not_null _ vm Hok)). rewrite bool_decide_nil by done. cbn [orb].
    destruct Hok as [Hr _ _ _]. rewrite (on_tbl_ok _ _ _ _ (s_exist_ok key _ _ Hr)). rewrite lookup_fmap. destruct (a_shm s) as [t l].
    cbn [sh_tbl lruInstance]. do 2 f_equal. apply bool_decide_ext. unfold in_table. by rewrite fmap_is_Some. }
  rewrite (on_shm_ok _ _ _ _ Hs). by destruct s.
Qed.

(** The queue after a key was noticed, or not. *)
Definition noticed (b : bool) key s : agent T G K W :=
  if b then with_q s (set_watch (enqueue key (watch_nodes (a_q s))) (a_q s)) else s.

Lemma noticed_elem b key s k :
  queue_ok (watch_nodes (a_q s)) ->
  k ∈ q_need (watch_nodes (a_q (noticed b key s))) <-> k ∈ q_need (watch_nodes (a_q s)) \/ (b = true /\ k = key).
Proof. intros Hq. destruct b; cbn [noticed]; [cbn; rewrite enqueue_elem by done; naive_solver|naive_solver]. Qed.

Lemma noticed_queue_ok b key s : key <> [] -> queue_ok (watch_nodes (a_q s)) -> queue_ok (watch_nodes (a_q (noticed b key s))).
Proof. intros Hk Hq. destruct b; [by apply enqueue_ok|done]. Qed.

Lemma notice (b : bool) key s : key <> [] -> (if b then add_watcher_node key else mret tt) s = Some (tt, noticed b key s).
Proof. intros Hk. destruct b; [|done]. unfold add_watcher_node. by rewrite decide_False by done. Qed.

(** [pending] first, then the table. *)
Lemma known_or key key' s vm :
  shm_ok (a_shm s) vm -> key' <> [] ->
  (pending ← pending_node_exist key; if (pending : bool) then mret true else on_shm (hash_tbl_exist key')) s =
    Some (bool_decide (pending s key) || bool_decide (in_table vm key'), s).
Proof.
  intros Hok Hk. unfold pending_node_exist, on_q. erewrite SM_bind_Some; [|reflexivity].
  assert (E : with_q s (a_q s) = s) by by destruct s. rewrite E. unfold pending.
  destruct (bool_decide (key ∈ pending_nodes (a_q s))); [done|]. by apply exist_ok.
Qed.

Lemma add_if_known_ok key s vm :
  shm_ok (a_shm s) vm -> key <> [] ->
  add_if_known key s = Some (tt, noticed (bool_decide (pending s key) || bool_decide (in_table vm key)) key s).
Proof.
  intros Hok Hk. unfold add_if_known, node_known. rewrite (SM_bind_Some _ _ _ _ _ (known_or key key s vm Hok Hk)). by apply notice.
Qed.

(** Handling an event only adds to the queue of the main thread. *)
Lemma noticed_shm b key s : a_shm (noticed b key s) = a_shm s.
Proof. by destruct b. Qed.
Lemma noticed_pending b key s k : pending (noticed b key s) k <-> pending s k.
Proof. by destruct b. Qed.

Definition nkey idc path : bytes := (serialize_to_tblkey QCONF_DATA_TYPE_NODE idc path).2.
Definition skey idc path : bytes := (serialize_to_tblkey QCONF_DATA_TYPE_SERVICE idc path).2.
Definition bkey idc path : bytes := (serialize_to_tblkey QCONF_DATA_TYPE_BATCH_NODE idc path).2.

(** The keys whose values an event on [path] concerns, and when each is noticed. *)
Definition concerns s vm (type : Z) idc path key : Prop :=
  let known k := pending s k \/ in_table vm k in
  (type = DELETED_EVENT_DEF /\ key ∈ [nkey idc path; skey idc path; bkey idc path] /\ known key) \/
  (type = CHILD_EVENT_DEF /\ key ∈ [skey idc path; bkey idc path] /\ known key) \/
  (type = CHANGED_EVENT_DEF /\
     ((key = nkey idc path /\ known key) \/
      exists pos, rfind x2f path = Some pos /\ key = skey idc (take pos path) /\ (pending s (nkey idc path) \/ in_table vm key))).

(** Only the queue of the main thread may have changed. *)
Definition event_frame s s' : Prop := s' = with_q s (set_watch (watch_nodes (a_q s')) (a_q s)).

Lemma with_q_same s : with_q s (set_watch (watch_nodes (a_q s)) (a_q s)) = s.
Proof. by destruct s as [? ? ? ? ? ? ? ? ? []]. Qed.

Lemma event_frame_refl s : event_frame s s.
Proof. unfold event_frame. by rewrite with_q_same. Qed.

Lemma noticed_frame b key s : event_frame s (noticed b key s).
Proof. destruct b; [done|apply event_frame_refl]. Qed.
Lemma event_frame_trans s1 s2 s3 : event_frame s1 s2 -> event_frame s2 s3 -> event_frame s1 s3.
Proof. unfold event_frame. intros E1 E2. rewrite E2, E1. by destruct s1, s2, s3. Qed.

Lemma known_b k s vm : bool_decide (pending s k) || bool_decide (in_table vm k) = true <-> pending s k \/ in_table vm k.
Proof. by rewrite orb_true_iff, !bool_decide_eq_true. Qed.

(** A sequence of keys, each tested and noticed. *)
Fixpoint add_known (keys : list bytes) : SM (agent T G K W) unit :=
  match keys with
  | [] => mret tt
  | [k] => add_if_known k
  | k :: keys' => add_if_known k;; add_known keys'
  end.

Lemma add_known_cons k keys s : add_known (k :: keys) s = (add_if_known k;; add_known keys) s.
Proof. destruct keys; [|done]. cbn [add_known]. unfold mbind, SM_bind. by destruct (add_if_known k s) as [[[] ?]|]. Qed.

Lemma add_known_ok keys s vm :
  shm_ok (a_shm s) vm -> queue_ok (watch_nodes (a_q s)) -> Forall (fun k => k <> []) keys ->
  exists s', add_known keys s = Some (tt, s') /\ event_frame s s' /\
    forall k, k ∈ q_need (watch_nodes (a_q s')) <->
      k ∈ q_need (watch_nodes (a_q s)) \/ (k ∈ keys /\ (pending s k \/ in_table vm k)).
Proof.
  intros Hok Hq Hks. revert s Hok Hq. induction Hks as [|key keys Hk Hks IH]; intros s Hok Hq.
  { exists s. split; [done|]. split; [apply event_frame_refl|]. intros k. set_solver. }
  rewrite add_known_cons.
  rewrite (SM_bind_Some _ _ _ _ _ (add_if_known_ok key s vm Hok Hk)). set (b := _ || _). set (s1 := noticed b key s).
  destruct (IH s1) as (s' & Hrun & Hf & Hel); [by unfold s1; rewrite noticed_shm|by apply noticed_queue_ok|].
  exists s'. split; [done|]. split; [by apply (event_frame_trans _ s1); [apply noticed_frame|]|]. intros k.
  rewrite Hel. unfold s1. rewrite noticed_elem, noticed_pending, elem_of_cons by done. unfold b. rewrite known_b. naive_solver.
Qed.

Lemma event_keys_ne idc path : Forall (fun k => k <> []) [nkey idc path; skey idc path; bkey idc path].
Proof. repeat constructor; apply key_ne. Qed.

Lemma concerns_changed s vm idc path k :
  concerns s vm CHANGED_EVENT_DEF idc path k <->
    (k = nkey idc path /\ (pending s k \/ in_table vm k)) \/
    exists pos, rfind x2f path = Some pos /\ k = skey idc (take pos path) /\ (pending s (nkey idc path) \/ in_table vm k).
Proof. unfold concerns. split; [by intros [[? _]|[[? _]|[_ ?]]]|auto]. Qed.

Lemma changed_event_ok idc path s vm :
  shm_ok (a_shm s) vm -> queue_ok (watch_nodes (a_q s)) ->
  exists s', process_changed_event idc path s = Some (tt, s') /\ event_frame s s' /\
    forall k, k ∈ q_need (watch_nodes (a_q s')) <-> k ∈ q_need (watch_nodes (a_q s)) \/ concerns s vm CHANGED_EVENT_DEF idc path k.
Proof.
  intros Hok Hq. unfold process_changed_event. fold (nkey idc path). pose proof (key_ne QCONF_DATA_TYPE_NODE idc path : nkey idc path <> []) as Hn.
  rewrite (SM_bind_Some _ _ _ _ _ (add_if_known_ok (nkey idc path) s vm Hok Hn)). set (b := _ || _). set (s1 := noticed b (nkey idc path) s).
  assert (Hok1 : shm_ok (a_shm s1) vm) by (unfold s1; by rewrite noticed_shm).
  assert (Hq1 : queue_ok (watch_nodes (a_q s1))) by by apply noticed_queue_ok.
  assert (Hel1 : forall k, k ∈ q_need (watch_nodes (a_q s1)) <-> k ∈ q_need (watch_nodes (a_q s)) \/
    (k = nkey idc path /\ (pending s k \/ in_table vm k))).
  { intros k. unfold s1. rewrite noticed_elem by done. unfold b. rewrite known_b. naive_solver. }
  destruct (rfind x2f path) as [pos|] eqn:Er.
  - fold (skey idc (take pos path)). pose proof (key_ne QCONF_DATA_TYPE_SERVICE idc (take pos path) : skey idc (take pos path) <> []) as Hs.
    pose proof (known_or (nkey idc path) (skey idc (take pos path)) s1 vm Hok1 Hs) as Hk. unfold mbind, SM_bind in Hk |- *.
    destruct (pending_node_exist (nkey idc path) s1) as [[p s2]|]; [|done]. rewrite Hk. rewrite notice by done.
    eexists. split; [reflexivity|]. split; [apply (event_frame_trans _ s1); apply noticed_frame|]. intros k.
    rewrite noticed_elem, Hel1, orb_true_iff, !bool_decide_eq_true by done. unfold s1 at 1. rewrite noticed_pending, concerns_changed, Er.
    split; [intros [[?|?]|[? ->]]; eauto 8|]. intros [?|[?|(pos' & [= <-] & -> & ?)]]; auto.
  - exists s1. split; [done|]. split; [apply noticed_frame|]. intros k. rewrite Hel1, concerns_changed, Er.
    split; [intros [?|?]; auto|]. intros [?|[?|(? & ? & _)]]; auto; done.
Qed.

(** A gray notify node that comes or goes: its idc is queued for the gray thread. *)
Definition notified (type : Z) idc path s : agent T G K W :=
  if ((type =? CREATED_EVENT_DEF) || (type =? DELETED_EVENT_DEF)) && is_notify_node (a_gray s) path && negb (bool_decide (idc = []))
  then with_q s (set_gray_idcs (enqueue idc (gray_idcs (a_q s))) (a_q s)) else s.

Lemma notified_parts type idc path s :
  let s1 := notified type idc path s in
  a_shm s1 = a_shm s /\ a_zk s1 = a_zk s /\ a_gray s1 = a_gray s /\ a_ht s1 = a_ht s /\
  watch_nodes (a_q s1) = watch_nodes (a_q s) /\ pending_nodes (a_q s1) = pending_nodes (a_q s).
Proof. unfold notified. by destruct (_ && _). Qed.

Lemma events_ok zh type state path idc host s vm :
  shm_ok (a_shm s) vm -> queue_ok (watch_nodes (a_q s)) ->
  ht_handle_idchost (a_ht s) !! zh = Some (serialize_to_idc_host idc host) -> blen idc < 256 -> blen host < 65536 ->
  type <> SESSION_EVENT_DEF ->
  exists s', global_watcher hostname zh type state path s = Some (tt, s') /\ event_frame (notified type idc path s) s' /\
    forall k, k ∈ q_need (watch_nodes (a_q s')) <-> k ∈ q_need (watch_nodes (a_q s)) \/ concerns s vm type idc path k.
Proof.
  intros Hok Hq Hh Hi Hhl Hty. unfold global_watcher, get_idc_by_zhandle, hi_find, lock_ht_find.
  erewrite SM_bind_Some; [|erewrite SM_bind_Some; [|unfold gets; rewrite Hh; reflexivity]; cbv beta iota; cbn [Z.eqb QCONF_OK negb];
    rewrite idc_host_read by done; reflexivity].
  cbv beta iota. cbn [Z.eqb QCONF_OK negb]. step_eq.
  assert (Hnot : (if ((type =? CREATED_EVENT_DEF) || (type =? DELETED_EVENT_DEF)) && is_notify_node (a_gray s) path
    then add_gray_idc idc else mret tt) s = Some (tt, notified type idc path s)).
  { unfold notified. destruct (_ && is_notify_node _ _); cbn [andb]; [|done]. unfold add_gray_idc.
    case_decide; [rewrite bool_decide_eq_true_2 by done|rewrite bool_decide_eq_false_2 by done]; done. }
  rewrite (SM_bind_Some _ _ _ _ _ Hnot). destruct (Z.eqb_spec type SESSION_EVENT_DEF); [done|].
  destruct (notified_parts type idc path s) as (Es & _ & _ & _ & Ew & Ep). set (s1 := notified type idc path s) in *.
  assert (Hok1 : shm_ok (a_shm s1) vm) by by rewrite Es. assert (Hq1 : queue_ok (watch_nodes (a_q s1))) by by rewrite Ew.
  assert (Hcon : forall k, concerns s1 vm type idc path k <-> concerns s vm type idc path k) by (intros k; unfold concerns, pending; by rewrite Ep).
  setoid_rewrite <- Hcon. rewrite <- Ew. clearbody s1. clear Hnot Es Ew Ep Hcon Hok Hq.
  pose proof (event_keys_ne idc path) as Hne.
  assert (Hlist : forall keys, Forall (fun k => k <> []) keys -> exists s', add_known keys s1 = Some (tt, s') /\ event_frame s1 s' /\
    forall k, k ∈ q_need (watch_nodes (a_q s')) <-> k ∈ q_need (watch_nodes (a_q s1)) \/ (k ∈ keys /\ (pending s1 k \/ in_table vm k))).
  { intros keys Hks. by apply add_known_ok. }
  destruct (Z.eqb_spec type CHILD_EVENT_DEF) as [->|Hc];
    [|destruct (Z.eqb_spec type CREATED_EVENT_DEF) as [->|]; [|destruct (Z.eqb_spec type DELETED_EVENT_DEF) as [->|Hd];
      [|destruct (Z.eqb_spec type CHANGED_EVENT_DEF) as [->|Hch]]]].
  - destruct (Hlist [skey idc path; bkey idc path]) as (s' & Hrun & Hf & Hel); [by apply Forall_cons in Hne as [_ Hne]|].
    exists s'. split; [done|]. split; [done|]. intros k. rewrite Hel. unfold concerns. naive_solver.
  - exists s1. split; [done|]. split; [apply event_frame_refl|]. intros k. unfold concerns. naive_solver.
  - destruct (Hlist _ Hne) as (s' & Hrun & Hf & Hel). exists s'. split; [done|]. split; [done|]. intros k. rewrite Hel.
    unfold concerns. naive_solver.
  - by apply changed_event_ok.
  - exists s1. split; [done|]. split; [apply event_frame_refl|]. intros k. unfold concerns. naive_solver.
Qed.

(** ** Events of the session *)

(** What such an event leaves alone: all but the client library, the handles, the notify path, the queue of
    gray idcs and the flag that wakes the assistant thread. *)
Record session_frame s s' : Prop := {
  ss_shm : a_shm s' = a_shm s;
  ss_dump : a_dump s' = a_dump s;
  ss_conf : a_conf s' = a_conf s;
  ss_sys : a_sys s' = a_sys s;
  ss_fb : a_fb s' = a_fb s;
  ss_set : a_set s' = a_set s \/ a_set s' = set_finish true (a_set s);
  ss_gray : gray_nodes (a_gray s') = gray_nodes (a_gray s);
  ss_queues : a_q s' = set_gray_idcs (gray_idcs (a_q s')) (a_q s)
}.

Lemma session_frame_refl s : session_frame s s.
Proof. split; try done; [by left|]. by destruct (a_q s). Qed.

Lemma set_finish_twice b b' g : set_finish b (set_finish b' g) = set_finish b g.
Proof. by destruct g. Qed.

Lemma session_frame_trans s1 s2 s3 : session_frame s1 s2 -> session_frame s2 s3 -> session_frame s1 s3.
Proof.
  intros [E1 E2 E3 E4 E5 E6 E7 E8] [F1 F2 F3 F4 F5 F6 F7 F8]. split; try congruence.
  - destruct E6 as [E6|E6], F6 as [F6|F6]; rewrite F6, E6, ?set_finish_twice; auto.
  - rewrite F8, E8. by destruct (a_q s1), (a_q s2), (a_q s3).
Qed.

(** Commands that change no more, whatever they come to. *)
Definition calm {A} (c : SM (agent T G K W) A) : Prop := forall s r s', c s = Some (r, s') -> session_frame s s'.

Lemma calm_ret {A} (a : A) : calm (mret a).
Proof. intros s r s' [= <- <-]. apply session_frame_refl. Qed.
Lemma calm_gets {A} (f : agent T G K W -> A) : calm (gets f).
Proof. intros s r s' [= <- <-]. apply session_frame_refl. Qed.
Lemma calm_bind {A B} (c : SM (agent T G K W) A) (f : A -> SM _ B) : calm c -> (forall a, calm (f a)) -> calm (c ≫= f).
Proof. intros Hc Hf s r s' (a & s1 & E1 & E2)%SM_bind_inv. eapply session_frame_trans; [by eapply Hc|by eapply Hf]. Qed.
Lemma calm_zk {A} (c : SM K A) : calm (on_zk c).
Proof. intros s r s' E. unfold on_zk in E. destruct (c (a_zk s)) as [[? ?]|]; [|done]. injection E as <- <-. split; try done; [by left|]. cbn. by destruct (a_q s). Qed.
Lemma calm_ht f : calm (upd_ht f).
Proof. intros s r s' [= <- <-]. split; try done; [by left|]. cbn. by destruct (a_q s). Qed.
Lemma calm_finish : calm (upd_set (set_finish true)).
Proof. intros s r s' [= <- <-]. split; try done; [by right|]. cbn. by destruct (a_q s). Qed.
Lemma calm_gray_idc idc : calm (add_gray_idc idc).
Proof. unfold add_gray_idc. case_decide; [apply calm_ret|]. intros s r s' [= <- <-]. split; try done. by left. Qed.

Lemma watch_notify_nodes zh g k r g' k' : watch_notify_node hostname zh (g, k) = Some (r, (g', k')) -> gray_nodes g' = gray_nodes g.
Proof.
  unfold watch_notify_node, need_notify_path. intros (u & [g1 k1] & E1 & E2)%SM_bind_inv.
  assert (Hg1 : gray_nodes g1 = gray_nodes g).
  { apply SM_bind_inv in E1 as (x & [g2 k2] & [= <- <- <-] & E1). destruct (decide _); [|by injection E1 as <- <- <-].
    unfold get_notify_path in E1. revert E1. repeat (unfold mbind, SM_bind, get_gray, set_gray, mret, SM_ret, gets, modify; cbn [fst snd]). intros E1. by simplify_eq. }
  apply SM_bind_inv in E2 as (x & [g2 k2] & [= <- <- <-] & E2). unfold Gray.on_zk in E2. cbn [snd fst] in E2.
  repeat case_match; simplify_eq; done.
Qed.

Lemma calm_notify zh : calm (on_gray (watch_notify_node hostname zh)).
Proof.
  intros s r s' E. unfold on_gray in E. destruct (watch_notify_node hostname zh (a_gray s, a_zk s)) as [[? [g k]]|] eqn:Ew; [|done].
  injection E as <- <-. apply watch_notify_nodes in Ew. split; try done; [by left|]. cbn. by destruct (a_q s).
Qed.

Lemma calm_init_env zh idc_host idc : calm (init_env_for_zk hostname zh idc_host idc).
Proof.
  unfold init_env_for_zk. do 2 (apply calm_bind; [apply calm_ht|intros _]). apply calm_bind; [apply calm_zk|]. intros state.
  destruct (negb _); [apply calm_ret|]. apply calm_bind; [apply calm_gets|]. intros p. apply calm_bind; [apply calm_zk|]. intros _.
  apply calm_bind; [apply calm_notify|]. intros r. destruct (r =? QCONF_OK); [apply calm_gray_idc|apply calm_ret].
Qed.

Lemma calm_reconnect zh : calm (watcher_reconnect_to_zookeeper hostname zh).
Proof.
  unfold watcher_reconnect_to_zookeeper. destruct (zh =? 0); [apply calm_ret|]. apply calm_bind; [apply calm_gets|]. intros [ret ih].
  destruct (ret =? QCONF_OK); [|apply calm_ret]. do 2 (apply calm_bind; [apply calm_ht|intros _]).
  apply calm_bind; [apply calm_zk|intros _]. destruct (deserialize_from_idc_host ih [] []) as [? [idc host]].
  apply calm_bind; [apply calm_gets|]. intros t. apply calm_bind; [apply calm_zk|]. intros hthandle. destruct (negb _); [|apply calm_ret].
  apply calm_bind; [apply calm_init_env|intros _]. apply calm_bind; [apply calm_finish|intros _]. apply calm_ret.
Qed.

Lemma calm_connected zh : calm (session_connected hostname zh).
Proof.
  unfold session_connected. apply calm_bind; [apply calm_gets|]. intros [ret ih]. destruct (ret =? QCONF_OK); [|apply calm_ret].
  destruct (deserialize_from_idc_host ih [] []) as [? [idc host]]. apply calm_bind; [apply calm_init_env|intros _]. apply calm_finish.
Qed.

Lemma calm_session zh state path : calm (global_watcher hostname zh SESSION_EVENT_DEF state path).
Proof.
  unfold global_watcher. apply calm_bind.
  { unfold get_idc_by_zhandle. apply calm_bind; [apply calm_gets|]. intros [ret ih]. destruct (negb _); [apply calm_ret|].
    destruct (deserialize_from_idc_host ih [] []) as [? ?]. apply calm_ret. }
  intros [ret [idc host]]. destruct (negb _); [apply calm_ret|]. apply calm_bind; [apply calm_gets|]. intros g.
  cbn [Z.eqb SESSION_EVENT_DEF CREATED_EVENT_DEF DELETED_EVENT_DEF orb andb]. apply calm_bind; [apply calm_ret|intros _].
  destruct (state =? ZOO_EXPIRED_SESSION_STATE); [apply calm_bind; [apply calm_reconnect|intros; apply calm_ret]|].
  destruct (state =? ZOO_CONNECTED_STATE); [apply calm_connected|apply calm_ret].
Qed.

Lemma session_defined zh state path idc host s m mh :
  ht_handle_idchost (a_ht s) !! zh = Some (serialize_to_idc_host idc host) -> blen idc < 256 -> blen host < 65536 ->
  zh <> 0 -> (x00 ∉ host) -> (x00 ∉ register_node_path (a_set s)) -> zk_tree (a_zk s) zh m -> zk_serves (a_zk s) host mh ->
  exists s', global_watcher hostname zh SESSION_EVENT_DEF state path s = Some (tt, s').
Proof.
  intros Hh Hi Hhl Hz Hhz Hreg Ht Hsv. unfold global_watcher, get_idc_by_zhandle, hi_find, lock_ht_find.
  erewrite SM_bind_Some; [|erewrite SM_bind_Some; [|unfold gets; rewrite Hh; reflexivity]; cbv beta iota; cbn [Z.eqb QCONF_OK negb];
    rewrite idc_host_read by done; reflexivity].
  cbv beta iota. cbn [Z.eqb QCONF_OK negb]. do 2 step_eq. cbn [Z.eqb SESSION_EVENT_DEF Pos.eqb].
  destruct (state =? ZOO_EXPIRED_SESSION_STATE); [|destruct (state =? ZOO_CONNECTED_STATE); [|by eexists]].
  - unfold watcher_reconnect_to_zookeeper. destruct (Z.eqb_spec zh 0); [done|]. unfold hi_find, lock_ht_find.
    destruct (zookeeper_close_ok zh (a_zk s) Hz) as (k1 & Hcl & Hk1).
    set (s1 := with_ht s (mkHandles (delete (serialize_to_idc_host idc host) (ht_idchost_handle (a_ht s))) (delete zh (ht_handle_idchost (a_ht s))))).
    set (s2 := with_gray s1 (a_gray s1) k1).
    destruct (zookeeper_init_ok host (recv_timeout (a_set s)) k1 mh (Hk1 _ _ Hsv)) as (zh' & k2 & Hinit & Ht2). set (s3 := with_gray s2 (a_gray s2) k2).
    destruct (decide (zh' = 0)) as [->|Hne].
    + eexists. erewrite SM_bind_Some; [reflexivity|]. erewrite SM_bind_Some; [|unfold gets; rewrite Hh; reflexivity]. cbv beta iota. cbn [Z.eqb QCONF_OK].
      do 2 step_eq. erewrite SM_bind_Some; [|by apply (on_zk_run _ s1)]. fold s2. rewrite idc_host_read by done. step_eq.
      rewrite c_str_no_nul by done. erewrite SM_bind_Some; [|by apply (on_zk_run _ s2)]. reflexivity.
    + destruct (init_env_ok zh' (serialize_to_idc_host idc host) idc s3 mh) as (s4 & m4 & Hrun & _); [by apply Ht2|done|].
      eexists. erewrite SM_bind_Some; [reflexivity|]. erewrite SM_bind_Some; [|unfold gets; rewrite Hh; reflexivity]. cbv beta iota. cbn [Z.eqb QCONF_OK].
      do 2 step_eq. erewrite SM_bind_Some; [|by apply (on_zk_run _ s1)]. fold s2. rewrite idc_host_read by done. step_eq.
      rewrite c_str_no_nul by done. erewrite SM_bind_Some; [|by apply (on_zk_run _ s2)]. fold s3. destruct (Z.eqb_spec zh' 0); [by destruct Hne|]. cbn [negb].
      rewrite (SM_bind_Some _ _ _ _ _ Hrun). reflexivity.
  - unfold session_connected, hi_find, lock_ht_find. erewrite SM_bind_Some; [|unfold gets; rewrite Hh; reflexivity]. cbv beta iota. cbn [Z.eqb QCONF_OK].
    rewrite idc_host_read by done. destruct (init_env_ok zh (serialize_to_idc_host idc host) idc s m Ht Hreg) as (s4 & m4 & Hrun & _).
    rewrite (SM_bind_Some _ _ _ _ _ Hrun). by eexists.
Qed.

(** C13. The callback of the ZooKeeper client returns for every event of a handle that the agent holds. An
    event for a node adds to the queue of the main thread exactly the keys it concerns and that the agent
    serves or is processing: for a deleted node its three keys, for changed children the service and the
    batch of the node, for a changed value the node and the service it is a child of, and nothing for a
    created node. (The service of a changed child is looked up in the table, or else by the child's own key
    among the pending ones, which is a mistake of the code.) If the node is the notify node and was created
    or deleted, its idc is queued for the gray thread besides. Nothing else of the agent changes. An event of
    the session enqueues no key: it changes only the client library, the handles, the notify path, the
    queue of gray idcs and the flag that wakes the assistant thread. *)
Theorem events_enqueue zh type state path idc host s vm m mh :
  shm_ok (a_shm s) vm -> queue_ok (watch_nodes (a_q s)) ->
  ht_handle_idchost (a_ht s) !! zh = Some (serialize_to_idc_host idc host) -> blen idc < 256 -> blen host < 65536 ->
  zh <> 0 -> (x00 ∉ host) -> (x00 ∉ register_node_path (a_set s)) -> zk_tree (a_zk s) zh m -> zk_serves (a_zk s) host mh ->
  exists s', global_watcher hostname zh type state path s = Some (tt, s') /\
    if decide (type = SESSION_EVENT_DEF) then session_frame s s'
    else event_frame (notified type idc path s) s' /\
      forall k, k ∈ q_need (watch_nodes (a_q s')) <-> k ∈ q_need (watch_nodes (a_q s)) \/ concerns s vm type idc path k.
Proof.
  intros Hok Hq Hh Hi Hhl Hz Hhz Hreg Ht Hsv. destruct (decide (type = SESSION_EVENT_DEF)) as [->|Hne]; [|by apply (events_ok zh type state path idc host)].
  destruct (session_defined zh state path idc host s m mh Hh Hi Hhl Hz Hhz Hreg Ht Hsv) as (s' & Hrun). exists s'. split; [done|].
  by apply (calm_session zh state path s tt).
Qed.
End Laws.

(** ** Witnesses: an agent with one idc whose ZooKeeper holds one node *)

Section Witnesses.
Import HashArr.
#[local] Existing Instance laws40.
#[local] Instance quiet_os_total : OSTotal (list bytes) hstate := fifo_total 10 id.
#[local] Instance quiet_os_local : OSLocal.
Proof. intros us s s' Hs. exact Hs. Qed.

Definition demo_tree : gmap bytes bytes := {[ str "/a" := str "10.0.0.1" ]}.
Definition demo_key : bytes := (serialize_to_tblkey QCONF_DATA_TYPE_NODE (str "bj") (str "/a")).2.

Lemma demo_serving w q : serving (demo_agent demo_tree w q) (str "bj") demo_host_list ∅ demo_tree ∅.
Proof.
  split; [apply demo_shm_ok|split; [reflexivity|split; [discriminate|reflexivity]]|apply map_Forall_empty| |
    apply (bool_decide_unpack _); vm_compute; exact I].
  split; [reflexivity|]. split; [apply (bool_decide_unpack _); vm_compute; exact I|].
  change (match ht_idchost_handle demo_handles !! demo_idc_host with
    | Some zh => if zh =? 0 then zk_serves demo_tree demo_host_list demo_tree else zk_tree demo_tree zh demo_tree
    | None => zk_serves demo_tree demo_host_list demo_tree end).
  replace (ht_idchost_handle demo_handles !! demo_idc_host) with (Some 1) by (vm_compute; reflexivity). small_tree.
Qed.

Lemma demo_fits : fits demo_key ∅.
Proof. split; [discriminate|]. split; [reflexivity|apply demo_load]. Qed.

Lemma demo_answers w q : answers true (demo_agent demo_tree w q) (str "bj") demo_host_list.
Proof.
  split; [reflexivity|]. exists 1. split; [vm_compute; reflexivity|]. split; [discriminate|]. intros p.
  cbn [demo_agent a_zk zoo_get mem_zk]. destruct (demo_tree !! p); eexists _, _, _; (split; [reflexivity|]); auto.
Qed.

Lemma node_key_processed_witness :
  exists ret s' vm', set_watcher_and_update_tbl true (str "h") demo_key (demo_agent demo_tree [] no_queues) = Some (ret, s') /\
    shm_ok (a_shm s') vm' /\
    ((ret = QCONF_OK /\ node_outcome demo_key (str "/a") demo_tree vm') \/ ret = QCONF_ERR_TBL_SET).
Proof.
  destruct (node_key_processed true (str "h") (str "bj") demo_host_list (str "/a") (demo_agent demo_tree [] no_queues) ∅ demo_tree ∅
    (demo_serving _ _)) as (ret & s' & vm' & m' & Hrun & Hok & _ & _ & _ & Hres);
    [discriminate|reflexivity|reflexivity|apply (bool_decide_unpack _); vm_compute; exact I|apply demo_fits|apply map_Forall_empty|].
  exists ret, s', vm'. split; [exact Hrun|]. split; [exact Hok|].
  destruct (proj2 (proj2 Hres) (demo_answers _ _)) as [_ [Hr|[Hr _]]]; [left; exact Hr|right; exact Hr].
Defined.

Lemma request_served_witness :
  exists s1 s2 t', msg_step [] (demo_agent demo_tree [demo_key] no_queues) = Some ((Continue, demo_key), s1) /\
    deque_step true (str "h") s1 = Some (tt, s2) /\
    qconf_get_conf (Some (str "//a/")) (Some (replicate 16 xff)) 16 (Some (str "bj")) (mkProc [] (sh_tbl (a_shm s2)) true 5) =
      Some ((QCONF_OK, Some (str "10.0.0.1" ++ [x00] ++ replicate 7 xff)), mkProc [] t' true 5).
Proof.
  destruct (request_served true (str "h") (str "bj") demo_host_list 2 (str "a") 1 (str "10.0.0.1")
    (demo_agent demo_tree [demo_key] no_queues) ∅ demo_tree ∅ [] 0 [] 5 (replicate 16 xff) 16 (demo_serving _ _) (demo_answers _ _))
    as (s1 & s2 & t' & Hmsg & Hdeq & _ & Hget);
    [vm_compute; reflexivity|apply core_a|discriminate|reflexivity|reflexivity|apply (bool_decide_unpack _); vm_compute; exact I
    |apply demo_fits|reflexivity|vm_compute; discriminate|reflexivity|reflexivity|reflexivity|discriminate|split; [reflexivity|vm_compute; discriminate]|].
  exists s1, s2, t'. split; [exact Hmsg|]. split; [exact Hdeq|exact Hget].
Defined.

Lemma events_enqueue_witness :
  let q := set_pending {[ demo_key ]} no_queues in
  exists s', global_watcher (str "h") 1 CHANGED_EVENT_DEF 3 (str "/a") (demo_agent demo_tree [] q) = Some (tt, s') /\
    demo_key ∈ q_need (watch_nodes (a_q s')).
Proof.
  intros q. destruct (events_enqueue (str "h") 1 CHANGED_EVENT_DEF 3 (str "/a") (str "bj") demo_host_list (demo_agent demo_tree [] q) ∅ demo_tree demo_tree)
    as (s' & Hrun & Hres);
    [apply demo_shm_ok|apply no_queue_ok|vm_compute; reflexivity|reflexivity|reflexivity|discriminate
    |apply (bool_decide_unpack _); vm_compute; exact I|apply (bool_decide_unpack _); vm_compute; exact I|small_tree|small_tree|].
  exists s'. split; [exact Hrun|]. destruct Hres as [_ Hel]. apply Hel. right. right. right. split; [reflexivity|]. left. split; [reflexivity|]. left.
  change (demo_key ∈ ({[ demo_key ]} : gset bytes)). apply elem_of_singleton. reflexivity.
Defined.
End Witnesses.
End WatcherThm.
