(* ===== verification/WatcherServ.v ===== *)
(** * What the watcher does with the keys of services and batches

    The children of a node, read in order (and with their status for a service), become the vector that
    the table holds; a client then gets one of the hosts that ZooKeeper says are up. *)

From S2P Require Import Prelude Common Text HashArr HashArrInv HashArrPut Format FormatThm Store Shm ShmThm ShmWalk Sys Config Dump Zoo Gray Script Feedback Agent Watcher WatcherQueue WatcherThm Driver DriverThm.

Module WatcherServ.
Import Format Shm ShmWalk Msg Config Driver Dump Zoo Gray Script Feedback Agent Watcher WatcherQueue WatcherThm.

Section Laws.
Context {T G K W : Type} `{StoreLaws T} `{GdbmLaws G} `{ZkLaws K} `{OS W T} `{Host W}.
Variables (buf_ok : bool) (hostname : bytes).
Implicit Types (s : agent T G K W) (vm : gmap kid bytes) (m dm : gmap bytes bytes) (key path : bytes).

(** ** Vectors of children *)

Lemma blen_fields_up ns fl : blen (fields (up_nodes ns fl)) <= blen (fields ns).
Proof.
  revert fl. induction ns as [|n ns IH]; intros [|f fl]; cbn [up_nodes]; try (done || apply blen_nonneg).
  specialize (IH fl). destruct (f =? STATUS_UP); unfold fields in *; cbn [flat_map]; rewrite !blen_app; [lia|].
  pose proof (blen_nonneg (field QCONF_HOST_PATH_SIZE_LEN n)). lia.
Qed.

Lemma blen_vector_up ns fl key : blen (vector_val (up_nodes ns fl) key) <= blen (vector_val ns key).
Proof.
  pose proof (blen_fields_up ns fl). unfold vector_val. rewrite !blen_app.
  assert (Hl : forall n, blen (le_bytes QCONF_VECTOR_COUNT_LEN n) = 2) by (intros n; unfold blen; by rewrite length_le_bytes).
  rewrite !Hl. lia.
Qed.

(** The children of a node fit into a table value: the sizes and the count are written in 16 bits, the
    length of the value in 32. *)
Definition vector_fits m path key : Prop :=
  forall names, sorted_children m path names -> Forall node_ok names /\ blen names < 65536 /\ blen (vector_val names key) < 2 ^ 32.

(** What the agent stores for a service and for a batch: the children that are up; all of them. *)
Definition service_list m path (vs : list bytes) : Prop :=
  exists names sts, sorted_children m path names /\ statuses m path names sts /\ vs = up_nodes names sts.
Definition list_of (dt : byte) m path : list bytes -> Prop :=
  if decide (dt = QCONF_DATA_TYPE_SERVICE) then service_list m path else sorted_children m path.

Lemma list_unique (dt : byte) m path (vs vs' : list bytes) : list_of dt m path vs -> list_of dt m path vs' -> vs = vs'.
Proof.
  unfold list_of. destruct (decide _); [|apply sorted_children_unique].
  intros (ns & sts & Hc & Hs & ->) (ns' & sts' & Hc' & Hs' & ->).
  assert (ns = ns') as -> by by eapply sorted_children_unique. f_equal. by eapply statuses_unique.
Qed.

(** What a successful round leaves in the table under the key of a service or a batch. *)
Definition vector_outcome (dt : byte) key path m vm : Prop :=
  (exists vs, list_of dt m path vs /\ vm !! s_ident key = Some (vector_val vs key)) \/
  (m !! path = None /\ vm !! s_ident key = None).

(** ** Writing the vector *)

Lemma publish_children_eq key (val t : bytes) s :
  publish_children key val (Some t) s = publish key val (if fb_enable (a_set s) then t else []) s.
Proof.
  unfold publish_children, publish, mbind, SM_bind, on_shm, gets. destruct (hash_tbl_set key val (a_shm s)) as [[ret x]|]; [|done].
  destruct (ret =? QCONF_OK); [|done]. cbn [with_shm a_set]. by destruct (fb_enable (a_set s)).
Qed.

(** The end of [process_service] and [process_batch]. *)
Definition finish_children key (ret : Z) (tblval fb : option bytes) : SM (agent T G K W) Z :=
  if ret =? QCONF_OK then match tblval with None => undefined | Some tblval => publish_children key tblval fb end
  else if ret =? QCONF_NODE_NOT_EXIST then withdraw key
  else mret ret.

Lemma finish_children_ok key (ret : Z) (tv fb : option bytes) s vm :
  shm_ok (a_shm s) vm -> fits key vm -> (ret = QCONF_OK -> is_Some fb /\ exists val, tv = Some val /\ blen val < 2 ^ 32) ->
  exists ret' s' vm', finish_children key ret tv fb s = Some (ret', s') /\ shm_ok (a_shm s') vm' /\ shrinks key vm vm' /\ table_frame s s' /\
    (ret = QCONF_OK -> exists val, tv = Some val /\ ((ret' = QCONF_OK /\ vm' !! s_ident key = Some val) \/ (ret' = QCONF_ERR_TBL_SET /\ kept (s_ident key) vm vm' /\ ~ roomy s val))) /\
    (ret = QCONF_NODE_NOT_EXIST -> ret' = QCONF_OK /\ vm' = delete (s_ident key) vm) /\
    (ret <> QCONF_OK -> ret <> QCONF_NODE_NOT_EXIST -> ret' = ret /\ s' = s /\ vm' = vm).
Proof.
  intros Hok Hk Hv. unfold finish_children. destruct (Z.eqb_spec ret QCONF_OK) as [->|Hne].
  - destruct (Hv eq_refl) as ([t ->] & val & -> & Hl). rewrite publish_children_eq.
    destruct (publish_ok key val (if fb_enable (a_set s) then t else []) s vm Hok Hk Hl) as (ret' & s' & vm' & ? & ? & ? & ? & ?).
    exists ret', s', vm'. split_and!; try done. intros _. by exists val.
  - destruct (Z.eqb_spec ret QCONF_NODE_NOT_EXIST) as [->|Hne2].
    + destruct (withdraw_ok key s vm Hok (proj1 Hk)) as (s' & ? & ? & ?). eexists _, s', _. split; [done|]. split; [done|].
      split; [|by split_and!]. intros k Hk'. left. by apply lookup_delete_ne.
    + exists ret, s, vm. split; [done|]. split; [done|]. split; [by left|]. split; [by split|]. by split_and!.
Qed.

(** ** Reading ZooKeeper and writing the vector *)

(** The part of [set_watcher_and_update_tbl] for an open handle. *)
Definition process (dt : byte) (zh : Z) key path : SM (agent T G K W) Z :=
  if decide (dt = QCONF_DATA_TYPE_NODE) then process_node buf_ok zh key path
  else if decide (dt = QCONF_DATA_TYPE_SERVICE) then process_service buf_ok zh key path
  else if decide (dt = QCONF_DATA_TYPE_BATCH_NODE) then process_batch zh key path
  else mret QCONF_ERR_DATA_TYPE.

(** What processing a key by [proc] does: [Out] when it succeeds; and what a session that is up makes of it. *)
Definition processed (proc : SM (agent T G K W) Z) key (Out : gmap kid bytes -> Prop) (full : Z -> Prop) s vm : Prop :=
  exists r s' vm', proc s = Some (r, s') /\ shm_ok (a_shm s') vm' /\ shrinks key vm vm' /\ main_frame s s' /\ a_dump s' = a_dump s /\
    (r = QCONF_OK -> Out vm') /\ (r <> QCONF_OK -> vm' = vm \/ (r = QCONF_ERR_TBL_SET /\ kept (s_ident key) vm vm')) /\ full r.

(** A vector that was read, or not. *)
Lemma vector_written key (r : Z) (tv fb : option bytes) s (k : K) vm (Out : gmap kid bytes -> Prop) (full : Z -> Prop) :
  shm_ok (a_shm s) vm -> fits key vm ->
  (r = QCONF_OK -> is_Some fb /\ exists val, tv = Some val /\ blen val < 2 ^ 32 /\
     (forall vm', vm' !! s_ident key = Some val -> Out vm') /\ full QCONF_OK /\ (~ roomy s val -> full QCONF_ERR_TBL_SET)) ->
  (r = QCONF_NODE_NOT_EXIST -> (forall vm', vm' !! s_ident key = None -> Out vm') /\ full QCONF_OK) ->
  (r <> QCONF_OK -> r <> QCONF_NODE_NOT_EXIST -> full r) ->
  processed (fun s => finish_children key r tv fb (with_gray s (a_gray s) k)) key Out full s vm.
Proof.
  intros Hok Hk Hset Hno Helse. set (s1 := with_gray s (a_gray s) k).
  destruct (finish_children_ok key r tv fb s1 vm Hok Hk) as (r' & s' & vm' & Hrun & Hok' & Hsh & Hf & Ha1 & Ha2 & Ha3).
  { intros E. destruct (Hset E) as (? & val & ? & ? & _). eauto. }
  exists r', s', vm'. split; [done|]. split; [done|]. split; [done|].
  assert (Hmf : main_frame s s') by (apply (main_frame_trans _ s1); [by split|by apply table_main]).
  split; [done|]. split; [by destruct Hf|].
  destruct (decide (r = QCONF_OK)) as [E|N1]; [|destruct (decide (r = QCONF_NODE_NOT_EXIST)) as [E|N2]].
  - destruct (Hset E) as (_ & val & -> & _ & Hout & Hf1 & Hf2). destruct (Ha1 E) as (v & [= <-] & [[-> Hl]|(-> & Hkept & Hn)]); [by split_and!; [auto|intros []|]|].
    split; [done|]. split; [by right|by apply Hf2].
  - destruct (Hno E) as (Hout & ?). destruct (Ha2 E) as [-> ->].
    split_and!; [|by intros []|done]. intros _. apply Hout, lookup_delete_eq.
  - destruct (Ha3 N1 N2) as (-> & _ & ->). split; [done|]. split; [by left|by apply Helse].
Qed.
(** What a session that is up makes of a key whose children can be read. *)
Definition readable (dt : byte) (zh : Z) path s m : Prop :=
  buf_ok = true /\ (exists I, session_up zh I /\ I (a_zk s)) /\ is_Some (m !! path) /\ exists vs, list_of dt m path vs.
(** What a session that is up makes of a service with a child that spells no status. *)
Definition unreadable (dt : byte) (zh : Z) path s m : Prop :=
  buf_ok = true /\ (exists I, session_up zh I /\ I (a_zk s)) /\ is_Some (m !! path) /\ forall vs, ~ list_of dt m path vs.
Definition surely (dt : byte) (zh : Z) key path s m (r : Z) : Prop :=
  (readable dt zh path s m ->
   r = QCONF_OK \/ (r = QCONF_ERR_TBL_SET /\ exists vs, list_of dt m path vs /\ ~ roomy s (vector_val vs key))) /\
  (unreadable dt zh path s m -> r = QCONF_ERR_OTHER).

Lemma list_service m path (vs : list bytes) : list_of QCONF_DATA_TYPE_SERVICE m path vs <-> service_list m path vs.
Proof. unfold list_of. by rewrite decide_True. Qed.
Lemma list_batch m path (vs : list bytes) : list_of QCONF_DATA_TYPE_BATCH_NODE m path vs <-> sorted_children m path vs.
Proof. unfold list_of. by rewrite decide_False. Qed.

Lemma vector_stored (dt : byte) key path m (vs : list bytes) vm :
  list_of dt m path vs -> vm !! s_ident key = Some (vector_val vs key) -> vector_outcome dt key path m vm.
Proof. intros. left. by exists vs. Qed.

Lemma service_processed (zh : Z) key path s vm m :
  shm_ok (a_shm s) vm -> fits key vm -> zk_tree (a_zk s) zh m -> zh <> 0 -> (x00 ∉ path) -> path <> [] -> vector_fits m path key ->
  processed (process_service buf_ok zh key path) key (vector_outcome QCONF_DATA_TYPE_SERVICE key path m)
    (surely QCONF_DATA_TYPE_SERVICE zh key path s m) s vm.
Proof.
  intros Hok Hk Ht Hzh Hp Hne Hfit.
  destruct (chdnodes_with_status_ok buf_ok zh path (SV 0 []) [] (a_zk s) m Ht Hp) as (r & v & sts & k & Hrun & Ht' & Hread & Hno).
  assert (Hsure : forall rr, (r = QCONF_OK -> rr = QCONF_OK \/ (rr = QCONF_ERR_TBL_SET /\ exists vs, list_of QCONF_DATA_TYPE_SERVICE m path vs /\ ~ roomy s (vector_val vs key))) ->
    (r <> QCONF_OK -> r <> QCONF_NODE_NOT_EXIST -> rr = r) -> surely QCONF_DATA_TYPE_SERVICE zh key path s m rr).
  { intros rr Hrr Helse. split.
    - intros (Hb & (I & Hup & Hi) & Hm & vs & (names & sts' & Hc & Hst & _)%list_service).
      destruct (chdnodes_with_status_up buf_ok zh I m Hup Hb Hzh path (SV 0 []) [] names sts' (a_zk s)) as (k' & Hrun' & _); try done.
      rewrite Hrun in Hrun'. injection Hrun' as -> _ _ _. auto.
    - intros (Hb & (I & Hup & Hi) & Hm & Hbad).
      destruct (chdnodes_with_status_bad buf_ok zh I m Hup Hzh path (SV 0 []) [] (a_zk s)) as (v' & sts' & k' & Hrun' & _); try done.
      { intros names sts' Hc Hst. apply (Hbad (up_nodes names sts')), list_service. by exists names, sts'. }
      rewrite Hrun in Hrun'. injection Hrun' as -> _ _ _. by apply Helse. }
  set (tv := chdnodeval_to_tblval key v sts). set (fb := feedback_generate_chdval v sts []).
  destruct (vector_written key r tv fb s k vm (vector_outcome QCONF_DATA_TYPE_SERVICE key path m)
    (surely QCONF_DATA_TYPE_SERVICE zh key path s m) Hok Hk) as (r' & s' & vm' & Hfin & Hrest).
  - intros E. destruct (Hread E) as (ns & Hc%sort_children & -> & Hst). set (names := sort_nodes ns) in *.
    destruct (Hfit names Hc) as (Hall & Hlen & Hsize). pose proof (Forall2_length _ _ _ Hst) as Hl.
    assert (Hvs : list_of QCONF_DATA_TYPE_SERVICE m path (up_nodes names sts)) by (apply list_service; by exists names, sts).
    unfold tv, fb, vector_of. rewrite service_written, feedback_chdval_text by (done || by eapply children_no_nul, Hc).
    split; [by eexists|]. exists (vector_val (up_nodes names sts) key). split; [done|].
    split; [pose proof (blen_vector_up names sts key); lia|]. split; [intros; by eapply vector_stored|].
    split; [by apply Hsure; [left|]|]. intros Hn. apply Hsure; [|done]. intros _. right. split; [done|]. by exists (up_nodes names sts).
  - intros E. split; [intros; right; auto|]. by apply Hsure; [intros ->|].
  - intros N1 N2. by apply Hsure.
  - exists r', s', vm'. split; [|done]. unfold process_service. rewrite (SM_bind_Some _ _ _ _ _ (on_zk_run _ s _ _ Hrun)). cbv beta iota.
    rewrite <- Hfin. unfold finish_children, tv, fb. done.
Qed.

Lemma batch_processed (zh : Z) key path s vm m :
  shm_ok (a_shm s) vm -> fits key vm -> zk_tree (a_zk s) zh m -> zh <> 0 -> (x00 ∉ path) -> path <> [] -> vector_fits m path key ->
  processed (process_batch zh key path) key (vector_outcome QCONF_DATA_TYPE_BATCH_NODE key path m)
    (surely QCONF_DATA_TYPE_BATCH_NODE zh key path s m) s vm.
Proof.
  intros Hok Hk Ht Hzh Hp Hne Hfit.
  destruct (zk_get_chdnodes_ok zh path (SV 0 []) (a_zk s) m Ht Hp) as (r & v & k & Hrun & Ht' & Hread & Hno & _).
  assert (Hsure : forall rr, (r = QCONF_OK -> rr = QCONF_OK \/ (rr = QCONF_ERR_TBL_SET /\ exists vs, list_of QCONF_DATA_TYPE_BATCH_NODE m path vs /\ ~ roomy s (vector_val vs key))) ->
    surely QCONF_DATA_TYPE_BATCH_NODE zh key path s m rr).
  { intros rr Hrr. split.
    - intros (Hb & (I & Hup & Hi) & Hm & _).
      destruct (chdnodes_up zh I m Hup Hzh path (SV 0 []) (a_zk s)) as (names & k' & Hrun' & _); try done.
      rewrite Hrun in Hrun'. injection Hrun' as -> _ _. auto.
    - intros (Hb & (I & Hup & Hi) & Hm & Hbad).
      destruct (chdnodes_up zh I m Hup Hzh path (SV 0 []) (a_zk s)) as (names & k' & _ & _ & _ & Hc); try done.
      destruct (Hbad names). by apply list_batch. }
  set (tv := batchnodeval_to_tblval key v). set (fb := feedback_generate_batchval v []).
  destruct (vector_written key r tv fb s k vm (vector_outcome QCONF_DATA_TYPE_BATCH_NODE key path m)
    (surely QCONF_DATA_TYPE_BATCH_NODE zh key path s m) Hok Hk) as (r' & s' & vm' & Hfin & Hrest).
  - intros E. destruct (Hread E) as (ns & Hc%sort_children & ->). set (names := sort_nodes ns) in *.
    destruct (Hfit names Hc) as (Hall & Hlen & Hsize). pose proof (proj2 (list_batch m path names) Hc) as Hvs.
    unfold tv, fb, vector_of. rewrite batch_written, feedback_batchval_text by (done || by eapply children_no_nul, Hc).
    split; [by eexists|]. exists (vector_val names key). split; [done|]. split; [done|]. split; [intros; by eapply vector_stored|].
    split; [apply Hsure; by left|]. intros Hn. apply Hsure. intros _. right. split; [done|]. by exists names.
  - intros E. split; [intros; right; auto|]. apply Hsure. by intros ->.
  - intros N1 N2. apply Hsure. by intros ->.
  - exists r', s', vm'. split; [|done]. unfold process_batch. rewrite (SM_bind_Some _ _ _ _ _ (on_zk_run _ s _ _ Hrun)). cbv beta iota.
    rewrite <- Hfin. unfold finish_children, tv, fb. done.
Qed.

(** ** Processing the key of a service or a batch *)


Lemma vector_processed (dt : byte) (zh : Z) key path s vm m :
  is_vector dt -> shm_ok (a_shm s) vm -> fits key vm -> zk_tree (a_zk s) zh m -> zh <> 0 -> (x00 ∉ path) -> path <> [] ->
  vector_fits m path key ->
  processed (process dt zh key path) key (vector_outcome dt key path m) (surely dt zh key path s m) s vm.
Proof. intros [->| ->] ???????; [by apply service_processed|by apply batch_processed]. Qed.

(** The handle of the idc is open. *)
Definition opened s (idc host : bytes) (zh : Z) : Prop :=
  zh <> 0 /\ ht_idchost_handle (a_ht s) !! serialize_to_idc_host idc host = Some zh.

Lemma vector_served_ok (dt : byte) (idc host path : bytes) (zh : Z) s vm m dm :
  is_vector dt -> let key := path_key dt idc path in
  serving s idc host vm m dm -> opened s idc host zh -> idc <> [] -> blen idc < 256 -> blen path < 65000 -> (x00 ∉ path) ->
  path <> [] -> fits key vm -> vector_fits m path key -> gray_nodes (a_gray s) !! key = None ->
  exists ret s' vm', set_watcher_and_update_tbl buf_ok hostname key s = Some (ret, s') /\
    shm_ok (a_shm s') vm' /\ dump_ok (a_dump s') dm /\ shrinks key vm vm' /\ main_frame s s' /\
    (ret = QCONF_OK -> vector_outcome dt key path m vm' \/ exists tv, dm !! key = Some tv /\ vm' !! s_ident key = Some tv) /\
    (ret <> QCONF_OK -> vm' = vm \/ (ret = QCONF_ERR_TBL_SET /\ kept (s_ident key) vm vm')) /\
    (readable dt zh path s m -> (ret = QCONF_OK /\ vector_outcome dt key path m vm') \/
       (ret = QCONF_ERR_TBL_SET /\ exists vs, list_of dt m path vs /\ ~ roomy s (vector_val vs key))) /\
    (unreadable dt zh path s m -> ret = QCONF_ERR_OTHER /\ vm' = vm).
Proof.
  cbn zeta. intros Hdt. set (key := path_key dt idc path).
  intros [Hok Hd Hdv Hc Hreg] [Hne Hh] Hi Hil Hpl Hpz Hpne Hk Hfit Hg.
  destruct (get_zhandle_ok hostname idc host s m Hi Hc Hreg) as (zh' & s1 & m1 & Hr1 & Ht1 & _ & _ & Hopen).
  destruct (Hopen zh Hh Hne) as (-> & -> & ->). specialize (Ht1 Hne).
  destruct (vector_processed dt zh key path s vm m Hdt Hok Hk Ht1 Hne Hpz Hpne Hfit)
    as (r & s2 & vm2 & Hr2 & Hok2 & Hsh & Hmf & Hd2 & Hout & Hfail & Hsure).
  assert (Hrun : forall r' s', (if r =? QCONF_ERR_ZOO_FAILED then read_dump key else mret r) s2 = Some (r', s') ->
    set_watcher_and_update_tbl buf_ok hostname key s = Some (r', s')).
  { intros r' s' E. unfold set_watcher_and_update_tbl. step_eq. unfold is_gray_node. rewrite Hg. cbv beta iota.
    unfold key at 1, path_key. rewrite key_read by (lia || by destruct Hdt as [->| ->]). fold (path_key dt idc path). fold key. cbv beta iota.
    rewrite (SM_bind_Some _ _ _ _ _ Hr1). destruct (Z.eqb_spec zh 0); [done|]. cbn [negb].
    fold (process dt zh key path). by rewrite (SM_bind_Some _ _ _ _ _ Hr2). }
  destruct (Z.eqb_spec r QCONF_ERR_ZOO_FAILED) as [Ez|Nz].
  - assert (vm2 = vm) as -> by (destruct Hfail as [?|[? _]]; by subst r).
    destruct (read_dump_ok key s2 vm dm Hok2) as (r4 & s4 & vm4 & Hr4 & Hok4 & Hd4 & Hsh4 & Hf4 & _ & Hd5 & Hd6); try done; [by rewrite Hd2|].
    exists r4, s4, vm4. split; [by apply Hrun|]. do 3 (split; [done|]). split; [by apply (main_frame_trans _ s2)|].
    split; [by auto|]. split; [done|]. split; [intros Hr; destruct (proj1 Hsure Hr) as [?|[? _]]; by subst r|].
    intros Hr. pose proof (proj2 Hsure Hr). by subst r.
  - exists r, s2, vm2. split; [by apply Hrun|]. split; [done|]. split; [by rewrite Hd2|]. do 2 (split; [done|]). split; [by auto|].
    split; [done|]. split; [intros Hr; destruct (proj1 Hsure Hr) as [E|?]; auto|].
    intros Hr. pose proof (proj2 Hsure Hr) as E. split; [done|]. subst r. destruct Hfail as [?|[? _]]; done.
Qed.

(** C11. Processing the key of a service or a batch whose cluster is connected always returns and disturbs no
    other key of the table, except that it may evict some. A key that a gray release overrides gets its
    gray value, unless the table is full. For any other key: on success the table holds the children of the
    node in [strcmp] order -- for a service exactly those whose value spells the status up -- or no value
    when ZooKeeper has no such node, or the value of the dump; on failure the table is unchanged, unless it
    was full. When the buffer could be allocated, the session is up and the node exists, the dump is not
    used: if every child of the service spells a status (or it is a batch), only a full table can make it
    fail; if some child does not, it fails with [QCONF_ERR_OTHER] and the table keeps its old value. (The
    handle is open, there are fewer than 65536 children, names and values fit their length fields, and the
    gray and dump values are shorter than 2^32.) *)
Theorem vector_key_processed (dt : byte) (idc host path : bytes) (zh : Z) s vm m dm :
  is_vector dt -> let key := path_key dt idc path in
  serving s idc host vm m dm -> opened s idc host zh -> idc <> [] -> blen idc < 256 -> blen path < 65000 -> (x00 ∉ path) ->
  path <> [] -> fits key vm -> vector_fits m path key ->
  map_Forall (fun _ v => blen v < 2 ^ 32) (gray_nodes (a_gray s)) ->
  exists ret s' vm', set_watcher_and_update_tbl buf_ok hostname key s = Some (ret, s') /\
    shm_ok (a_shm s') vm' /\ dump_ok (a_dump s') dm /\ shrinks key vm vm' /\
    match gray_nodes (a_gray s) !! key with
    | Some gv => (ret = QCONF_OK /\ vm' !! s_ident key = Some gv) \/ (ret = QCONF_ERR_GRAY_FAKE_SHM_FAILED /\ kept (s_ident key) vm vm' /\ ~ roomy s gv)
    | None =>
        (ret = QCONF_OK -> vector_outcome dt key path m vm' \/ exists tv, dm !! key = Some tv /\ vm' !! s_ident key = Some tv) /\
        (ret <> QCONF_OK -> vm' = vm \/ (ret = QCONF_ERR_TBL_SET /\ kept (s_ident key) vm vm')) /\
        (readable dt zh path s m -> (ret = QCONF_OK /\ vector_outcome dt key path m vm') \/
           (ret = QCONF_ERR_TBL_SET /\ exists vs, list_of dt m path vs /\ ~ roomy s (vector_val vs key))) /\
        (unreadable dt zh path s m -> ret = QCONF_ERR_OTHER /\ vm' = vm)
    end.
Proof.
  intros Hdt. cbn zeta. set (key := path_key dt idc path). intros Hs Ho Hi Hil Hpl Hpz Hpne Hk Hfit Hgv.
  destruct (gray_nodes (a_gray s) !! key) as [gv|] eqn:Eg.
  - pose proof Hs as [Hok Hd _ _ _].
    destruct (gray_served_ok buf_ok hostname key gv s vm Hok Hk Eg (Hgv _ _ Eg)) as (ret & s' & vm' & Hrun & Hok' & Hsh & [Ed _ _ _ _ _ _ _ _] & Hout).
    exists ret, s', vm'. split; [done|]. split; [done|]. split; [by rewrite Ed|]. done.
  - destruct (vector_served_ok dt idc host path zh s vm m dm Hdt Hs Ho Hi Hil Hpl Hpz Hpne Hk Hfit Eg)
      as (ret & s' & vm' & ? & ? & ? & ? & _ & Hrest). by exists ret, s', vm'.
Qed.

(** C10. A client's request for a host of a service is served. The message thread takes the key from the
    queue, the main thread reads the children and their status from a ZooKeeper that answers, and a client
    that then asks for a host, with any spelling of the path, gets one whose node spells the status up;
    when no child is up it gets the empty string. *)
Theorem host_served `{!OSTotal W T} `{!OSLocal} (idc host core : bytes) (nb na : nat) (zh : Z) (names : list bytes) (sts : list Z)
    s vm m dm (w : W) (e : Z) (pw : W) (msqid : Z) (buf : bytes) (buf_len : Z) :
  let path := delim :: core in
  let key := path_key QCONF_DATA_TYPE_SERVICE idc path in
  serving s idc host vm m dm -> opened s idc host zh -> readable QCONF_DATA_TYPE_SERVICE zh path s m ->
  sorted_children m path names -> statuses m path names sts ->
  core_path core -> idc <> [] -> blen idc < 256 -> blen path < 65000 -> (x00 ∉ path) -> fits key vm -> vector_fits m path key ->
  gray_nodes (a_gray s) !! key = None -> roomy s (vector_val (up_nodes names sts) key) ->
  watch_nodes (a_q s) = no_queue -> stop_watcher_setting (a_set s) = false ->
  os_msgrcv (T := T) (msg_queue_id (a_set s)) QCONF_MAX_MSG_LEN (a_sys s) = Some ((Some key, e), w) ->
  msqid <> QCONF_INVALID_SEM_ID -> 0 < buf_len <= blen buf -> Forall (fun n => blen n < buf_len) names ->
  exists s1 s2 p' v, msg_step [] s = Some ((Continue, key), s1) /\ deque_step buf_ok hostname s1 = Some (tt, s2) /\
    qconf_get_host (fun _ => true) (Some (slashes nb ++ core ++ slashes na)) (Some buf) buf_len (Some idc)
        (mkProc pw (sh_tbl (a_shm s2)) true msqid) =
      Some ((QCONF_OK, Some (v ++ [x00] ++ drop (S (length v)) buf)), p') /\
    if decide (up_nodes names sts = []) then v = []
    else v ∈ names /\ exists val, m !! (path ++ [x2f] ++ v) = Some val /\ status_of val STATUS_UP.
Proof.
  cbn zeta. set (path := delim :: core). set (key := path_key QCONF_DATA_TYPE_SERVICE idc path).
  intros Hs Ho Hr Hc Hst Hcore Hi Hil Hpl Hpz Hk Hfit Hg Hroom Hq Hstop Hmsg Hid Hbuf Hshort.
  destruct (message_round buf_ok hostname key s w e (proj1 Hk) Hq Hstop Hmsg) as (s1 & s2 & Hstep & Hf & Hdeque).
  pose proof Hf as [E1 E2 E3 E4 E5 E6 E7]. pose proof (serving_frame _ _ _ _ _ _ _ Hf Hs) as Hs2.
  assert (Ho2 : opened s2 idc host zh) by (unfold opened; by rewrite E7).
  assert (Hr2 : readable QCONF_DATA_TYPE_SERVICE zh path s2 m) by (unfold readable; by rewrite E3).
  destruct (vector_served_ok QCONF_DATA_TYPE_SERVICE idc host path zh s2 vm m dm) as
    (ret & s3 & vm' & Hrun & Hok3 & _ & _ & Hmf & _ & _ & Hsure); try done; [by left|by rewrite E4|].
  assert (Hvs : list_of QCONF_DATA_TYPE_SERVICE m path (up_nodes names sts)) by (apply list_service; by exists names, sts).
  assert (Hl : vm' !! s_ident key = Some (vector_val (up_nodes names sts) key)).
  { destruct (proj1 Hsure Hr2) as [(_ & [(vs & Hv & Hl)|(Hm & _)])|(_ & vs & Hv & Hn)].
    - by rewrite (list_unique _ _ _ _ _ Hvs Hv).
    - destruct Hr as (_ & _ & [v Hv] & _). by rewrite Hv in Hm.
    - destruct Hn. rewrite <- (list_unique _ _ _ _ _ Hvs Hv). unfold roomy in *. by rewrite E1. }
  destruct (Hdeque ret s3 Hrun Hmf) as (s4 & Hdq & E4s & _). destruct (Hfit names Hc) as (Hall & Hlen & _).
  pose proof (blen_up_nodes names sts) as Hle.
  destruct (get_host_ok idc nb core na (up_nodes names sts) (mkProc pw (sh_tbl (a_shm s4)) true msqid) vm' buf buf_len QCONF_WAIT)
    as (p' & v & Hget & Hv); try done.
  { rewrite E4s. destruct Hok3. by split. }
  { split; [|split; [by apply up_nodes_sub|split; [lia|done]]]. split; [done|split; [unfold path in Hpl; lia|by left]]. }
  { rewrite List.Forall_forall in *. intros v Hin. apply Hshort. apply list_elem_of_In. apply list_elem_of_In in Hin. by eapply up_nodes_elem. }
  exists s1, s4, p', v. split; [done|]. split; [done|]. split; [done|]. destruct (decide (up_nodes names sts = [])); [done|].
  split; [by eapply up_nodes_elem|]. clear -Hst Hv. induction Hst as [|n st names sts (val & Hn & Hs) _ IH]; [by apply elem_of_nil in Hv|].
  cbn [up_nodes] in Hv. destruct (Z.eqb_spec st STATUS_UP) as [->|]; [|auto]. apply elem_of_cons in Hv as [->|Hv]; eauto.
Qed.
End Laws.
(** ** Witnesses: a service with one host up and one down *)

Section Witnesses.
Import HashArr.
#[local] Existing Instance laws40.
#[local] Instance quiet_os_total : OSTotal (list bytes) hstate := fifo_total 10 id.
#[local] Instance quiet_os_local : OSLocal.
Proof. intros us s s' Hs. exact Hs. Qed.

Definition svc_tree : gmap bytes bytes :=
  {[ str "/s" := []; str "/s/h1:80" := str "0"; str "/s/h2:80" := str "2"; str "/q" := str "x" ]}.
Definition svc_names : list bytes := [str "h1:80"; str "h2:80"].
Definition svc_agent (w : list bytes) : agent hstate (gmap bytes bytes) (gmap bytes bytes) (list bytes) := demo_agent svc_tree w no_queues.
Definition bsvc_key : bytes := path_key QCONF_DATA_TYPE_SERVICE (str "bj") (str "/s").

Lemma svc_serving w : serving (svc_agent w) (str "bj") demo_host_list ∅ svc_tree ∅.
Proof.
  split; [apply demo_shm_ok|split; [reflexivity|split; [discriminate|reflexivity]]|apply map_Forall_empty| |
    apply (bool_decide_unpack _); vm_compute; exact I].
  split; [reflexivity|]. split; [apply (bool_decide_unpack _); vm_compute; exact I|].
  change (match ht_idchost_handle demo_handles !! demo_idc_host with
    | Some zh => if zh =? 0 then zk_serves svc_tree demo_host_list svc_tree else zk_tree svc_tree zh svc_tree
    | None => zk_serves svc_tree demo_host_list svc_tree end).
  replace (ht_idchost_handle demo_handles !! demo_idc_host) with (Some 1) by (vm_compute; reflexivity). small_tree.
Qed.

Lemma svc_sorted : sorted_children svc_tree (str "/s") svc_names.
Proof.
  replace svc_names with (sort_nodes (child_names svc_tree (str "/s"))) by (vm_compute; reflexivity).
  apply sort_children, child_names_ok.
Qed.

Lemma svc_statuses : statuses svc_tree (str "/s") svc_names [STATUS_UP; STATUS_DOWN].
Proof.
  constructor; [exists (str "0")|constructor; [exists (str "2")|constructor]]; (split; [vm_compute; reflexivity|]);
    (split; [vm_compute; reflexivity|]); auto.
Qed.

Lemma svc_opened w : opened (svc_agent w) (str "bj") demo_host_list 1.
Proof. split; [discriminate|]. vm_compute. reflexivity. Qed.

Lemma svc_readable w : readable true QCONF_DATA_TYPE_SERVICE 1 (str "/s") (svc_agent w) svc_tree.
Proof.
  split; [reflexivity|]. split; [|split].
  - exists (fun k => k = svc_tree). split; [|reflexivity]. split; intros k p ->; cbn [zoo_get zoo_get_children mem_zk].
    + destruct (svc_tree !! p); eexists _, _, _; (split; [reflexivity|]); auto.
    + destruct (svc_tree !! p); eexists _, _, _; (split; [reflexivity|]); auto.
  - exists []. vm_compute. reflexivity.
  - exists (up_nodes svc_names [STATUS_UP; STATUS_DOWN]). apply list_service. exists svc_names, [STATUS_UP; STATUS_DOWN].
    split; [apply svc_sorted|]. split; [apply svc_statuses|reflexivity].
Qed.

Lemma svc_fits : vector_fits svc_tree (str "/s") bsvc_key.
Proof.
  intros names Hn. rewrite (sorted_children_unique _ _ _ _ Hn svc_sorted).
  split; [by apply nodes_ok_dec|]. split; reflexivity.
Qed.

Lemma bsvc_fits : fits bsvc_key ∅.
Proof. split; [discriminate|]. split; [reflexivity|apply demo_load]. Qed.

Lemma vector_key_processed_witness :
  exists ret s' vm', set_watcher_and_update_tbl true (str "h") bsvc_key (svc_agent []) = Some (ret, s') /\ shm_ok (a_shm s') vm' /\
    ((ret = QCONF_OK /\ vector_outcome QCONF_DATA_TYPE_SERVICE bsvc_key (str "/s") svc_tree vm') \/ ret = QCONF_ERR_TBL_SET).
Proof.
  destruct (vector_key_processed true (str "h") QCONF_DATA_TYPE_SERVICE (str "bj") demo_host_list (str "/s") 1 (svc_agent []) ∅ svc_tree ∅
    (or_introl eq_refl) (svc_serving _) (svc_opened _)) as (ret & s' & vm' & Hrun & Hok & _ & _ & Hres);
    [discriminate|reflexivity|reflexivity|apply (bool_decide_unpack _); vm_compute; exact I|discriminate|apply bsvc_fits|apply svc_fits
    |apply map_Forall_empty|].
  exists ret, s', vm'. split; [exact Hrun|]. split; [exact Hok|].
  destruct (proj1 (proj2 (proj2 Hres)) (svc_readable _)) as [Hr|[Hr _]]; [left; exact Hr|right; exact Hr].
Defined.

Lemma core_s : core_path (str "s").
Proof. repeat split; discriminate. Qed.

Lemma host_served_witness :
  exists s1 s2 p' v, msg_step [] (svc_agent [bsvc_key]) = Some ((Continue, bsvc_key), s1) /\
    deque_step true (str "h") s1 = Some (tt, s2) /\
    qconf_get_host (fun _ => true) (Some (str "/s/")) (Some (replicate 16 xff)) 16 (Some (str "bj"))
      (mkProc [] (sh_tbl (a_shm s2)) true 5) = Some ((QCONF_OK, Some (v ++ [x00] ++ drop (S (length v)) (replicate 16 xff))), p') /\
    v ∈ svc_names.
Proof.
  destruct (host_served true (str "h") (str "bj") demo_host_list (str "s") 1 1 1 svc_names [STATUS_UP; STATUS_DOWN]
    (svc_agent [bsvc_key]) ∅ svc_tree ∅ [] 0 [] 5 (replicate 16 xff) 16 (svc_serving _) (svc_opened _) (svc_readable _) svc_sorted svc_statuses
    core_s) as (s1 & s2 & p' & v & Hmsg & Hdeq & Hget & Hv);
    [discriminate|reflexivity|reflexivity|apply (bool_decide_unpack _); vm_compute; exact I|apply bsvc_fits|apply svc_fits|reflexivity
    |vm_compute; discriminate|reflexivity|reflexivity|reflexivity|discriminate|split; [reflexivity|vm_compute; discriminate]
    |by repeat constructor|].
  exists s1, s2, p', v. split; [exact Hmsg|]. split; [exact Hdeq|]. split; [exact Hget|]. exact (proj1 Hv).
Defined.
End Witnesses.
End WatcherServ.
