(* ===== verification/TableTypes.v ===== *)
(** * The types of the table

    Every value in the table is a well-formed value of the type that its key names. The agent keeps it so,
    wherever a value comes from (ZooKeeper, a gray release, the dump), and on such a table the readers of
    the driver never meet a malformed value. *)

From S2P Require Import Prelude Common Text HashArr HashArrInv HashArrPut Format FormatThm Store Shm ShmThm ShmWalk Sys Config Dump Zoo Gray Script Feedback Agent Watcher WatcherQueue WatcherThm WatcherServ Driver DriverThm.

Module TableTypes.
Import Format Shm ShmWalk Msg Config Driver Dump Zoo Gray Script Feedback Agent Watcher WatcherQueue WatcherThm WatcherServ.

Section Laws.
Context {T G K W : Type} `{StoreLaws T} `{GdbmLaws G} `{ZkLaws K} `{OS W T} `{Host W}.
Variables (buf_ok : bool) (hostname : bytes).
Implicit Types (s : agent T G K W) (vm : gmap kid bytes) (m dm : gmap bytes bytes) (key path : bytes).

Definition values_typed dm : Prop := forall (key v : bytes), dm !! key = Some v -> typed key v.

(** ** Preservation *)

Lemma typed_write key vm vm' :
  table_typed vm -> shrinks key vm vm' ->
  (forall v, vm' !! s_ident key = Some v -> vm !! s_ident key = Some v \/ typed key v) -> table_typed vm'.
Proof.
  intros Ht Hsh Hk k v Hv. destruct (decide (k = s_ident key)) as [->|Hne].
  - destruct (Hk v Hv) as [?|?]; [by apply Ht|by exists key].
  - destruct (Hsh k Hne) as [E|E]; rewrite E in Hv; [by apply Ht|done].
Qed.

Lemma typed_fail key vm vm' (r : Z) :
  table_typed vm -> shrinks key vm vm' -> vm' = vm \/ (r = QCONF_ERR_TBL_SET /\ kept (s_ident key) vm vm') -> table_typed vm'.
Proof.
  intros Ht Hsh [->|[_ Hk]]; [done|]. apply (typed_write key vm); [done|done|]. intros v Hv.
  destruct Hk as [E|E]; rewrite E in Hv; auto. done.
Qed.

(** The outcome of a successful round is typed. *)
Lemma outcome_typed (dt : byte) (idc path : bytes) m vm vm' :
  is_vector dt -> key_ok dt idc path -> path <> [] -> vector_fits m path (path_key dt idc path) ->
  vector_outcome dt (path_key dt idc path) path m vm' ->
  forall v, vm' !! s_ident (path_key dt idc path) = Some v -> typed (path_key dt idc path) v.
Proof.
  intros Hdt Hk Hne Hfit [(vs & Hvs & Hl)|(_ & Hl)] v Hv; rewrite Hl in Hv; [|done]. injection Hv as <-.
  destruct Hdt as [->| ->].
  - apply list_service in Hvs as (names & sts & Hc & _ & ->). destruct (Hfit names Hc) as (Hall & Hlen & _).
    pose proof (blen_up_nodes names sts). apply typed_vector; [by left|done|done|by apply up_nodes_sub|lia].
  - apply list_batch in Hvs. destruct (Hfit vs Hvs) as (Hall & Hlen & _). apply typed_vector; [by right|done..].
Qed.

Lemma node_outcome_typed (idc path : bytes) m vm' :
  key_ok QCONF_DATA_TYPE_NODE idc path -> path <> [] -> map_Forall (fun _ v => blen v < 2 ^ 32) vm' ->
  node_outcome (nkey idc path) path m vm' ->
  forall v, vm' !! s_ident (nkey idc path) = Some v -> typed (nkey idc path) v.
Proof.
  intros Hk Hne Hvals [(val & _ & Hl)|(_ & Hl)] v Hv; [|by rewrite Hl in Hv]. rewrite Hl in Hv. injection Hv as <-.
  apply typed_node; [done|done|]. pose proof (Hvals _ _ Hl) as Hsz. cbv beta in Hsz.
  unfold nodeval_to_tblval, qconf_append_nodeval in Hsz. rewrite append_field, app_nil_l, blen_app, blen_field in Hsz.
  pose proof (blen_nonneg (nkey idc path)). revert Hsz. width.
Qed.

Lemma path_key_ok (dt : byte) (idc path : bytes) : has_path dt = true -> blen idc < 256 -> blen path < 65000 -> key_ok dt idc path.
Proof. intros. split; [done|]. split; [lia|by left]. Qed.

(** A round for a key that no gray release overrides. *)
Lemma round_typed (dt : byte) (idc host path : bytes) (zh : Z) s vm m dm :
  has_path dt = true -> let key := path_key dt idc path in
  serving s idc host vm m dm -> opened s idc host zh -> idc <> [] -> blen idc < 256 -> blen path < 65000 -> (x00 ∉ path) -> path <> [] ->
  fits key vm -> (is_vector dt -> vector_fits m path key) -> gray_nodes (a_gray s) !! key = None ->
  table_typed vm -> values_typed dm ->
  exists ret s' vm', set_watcher_and_update_tbl buf_ok hostname key s = Some (ret, s') /\
    shm_ok (a_shm s') vm' /\ dump_ok (a_dump s') dm /\ main_frame s s' /\ table_typed vm'.
Proof.
  cbn zeta. intros Hd. set (key := path_key dt idc path). intros Hs Ho Hi Hil Hpl Hpz Hpne Hk Hfit Hg Ht Hdm.
  pose proof (path_key_ok dt idc path Hd Hil Hpl) as Hkey.
  assert (Hdump : forall vm', (exists tv, dm !! key = Some tv /\ vm' !! s_ident key = Some tv) ->
    forall v, vm' !! s_ident key = Some v -> typed key v).
  { intros vm' (tv & Hl & Hl') v Hv. rewrite Hl' in Hv. injection Hv as <-. by apply Hdm. }
  destruct (decide (dt = QCONF_DATA_TYPE_NODE)) as [->|Hn].
  - destruct (node_served_ok buf_ok hostname idc host path s vm m dm) as (ret & s' & vm' & m' & Hrun & Hok & Hd' & _ & Hsh & Hmf & Hout & Hfail & _); try done.
    exists ret, s', vm'. do 4 (split; [done|]). destruct (decide (ret = QCONF_OK)) as [E|E]; [|by apply (typed_fail key vm vm' ret); auto].
    apply (typed_write key vm); [done|done|]. intros v Hv. right. pose proof (sk_vals _ _ Hok) as Hvals.
    destruct (Hout E) as [Ho'|Ho']; [by eapply node_outcome_typed|by eapply Hdump].
  - assert (Hv : is_vector dt).
    { unfold has_path in Hd. apply bool_decide_eq_true in Hd as [?|[?|?]]; [done|by left|by right]. }
    destruct (vector_served_ok buf_ok hostname dt idc host path zh s vm m dm) as (ret & s' & vm' & Hrun & Hok & Hd' & Hsh & Hmf & Hout & Hfail & _);
      try done; [by apply Hfit|].
    exists ret, s', vm'. do 4 (split; [done|]). destruct (decide (ret = QCONF_OK)) as [E|E]; [|by apply (typed_fail key vm vm' ret); auto].
    apply (typed_write key vm); [done|done|]. intros v Hv'. right.
    destruct (Hout E) as [Ho'|Ho']; [by eapply outcome_typed; auto|by eapply Hdump].
Qed.

(** C12. The agent keeps the table well typed. On a table in which every value is a well-formed value of the
    type that its key names, processing the key of a node, a service or a batch always returns and leaves
    such a table, whether ZooKeeper answers, says that there is no such node or fails. The conditions: the
    handle of the data centre is open; the children of the node are fewer than 65536 and their names fit
    their length field (the code writes both in 16 bits without a test); the gray values, which come from
    ZooKeeper, and the values of the dump are well formed too (they are stored as they are), and shorter
    than 2^32. *)
Theorem table_stays_typed (dt : byte) (idc host path : bytes) (zh : Z) s vm m dm :
  has_path dt = true -> let key := path_key dt idc path in
  serving s idc host vm m dm -> opened s idc host zh -> idc <> [] -> blen idc < 256 -> blen path < 65000 -> (x00 ∉ path) -> path <> [] ->
  fits key vm -> (is_vector dt -> vector_fits m path key) ->
  map_Forall (fun _ v => blen v < 2 ^ 32) (gray_nodes (a_gray s)) ->
  table_typed vm -> values_typed dm -> values_typed (gray_nodes (a_gray s)) ->
  exists ret s' vm', set_watcher_and_update_tbl buf_ok hostname key s = Some (ret, s') /\ shm_ok (a_shm s') vm' /\ dump_ok (a_dump s') dm /\
    gray_nodes (a_gray s') = gray_nodes (a_gray s) /\ table_typed vm'.
Proof.
  cbn zeta. intros Hd. set (key := path_key dt idc path). intros Hs Ho Hi Hil Hpl Hpz Hpne Hk Hfit Hgs Ht Hdm Hgt.
  destruct (gray_nodes (a_gray s) !! key) as [gv|] eqn:Eg.
  - pose proof Hs as [Hok Hd' _ _ _].
    destruct (gray_served_ok buf_ok hostname key gv s vm Hok Hk Eg (Hgs _ _ Eg)) as (ret & s' & vm' & Hrun & Hok' & Hsh & [Ed _ Eg' _ _ _ _ _ _] & Hout).
    exists ret, s', vm'. split; [done|]. split; [done|]. split; [by rewrite Ed|]. split; [by rewrite Eg'|].
    apply (typed_write key vm); [done|done|]. intros v Hv. destruct Hout as [[_ Hl]|(_ & [E|E] & _)].
    + rewrite Hl in Hv. injection Hv as <-. right. by apply Hgt.
    + rewrite E in Hv. by left.
    + by rewrite E in Hv.
  - destruct (round_typed dt idc host path zh s vm m dm) as (ret & s' & vm' & Hrun & Hok & Hd' & Hmf & Ht'); try done.
    exists ret, s', vm'. do 3 (split; [done|]). split; [by apply Hmf|done].
Qed.

(** ** Reading *)

Section Reads.
Context `{!OSTotal W T} `{!OSLocal}.

(** The readers never meet a malformed value in a well-typed table: whenever the table has a value for
    the key of a path (and no other key has the same identity), reading the path as a node, the hosts of a
    service and the children of a batch each succeeds, at once and whatever the flags. *)
Theorem typed_table_reads (dt : byte) (idc path : bytes) (flags : Z) (p : proc W T) vm (buf : bytes) (nodes : string_vector_t) :
  let key := path_key dt idc path in
  ready p -> tbl_holds (pr_tbl p) vm -> table_typed vm -> has_path dt = true -> blen idc < 256 -> blen path < 65000 -> idc <> [] -> path <> [] ->
  is_Some (vm !! s_ident key) -> (forall key', s_ident key' = s_ident key -> key' = key) ->
  (dt = QCONF_DATA_TYPE_NODE -> exists v p', qconf_get path buf idc flags p = Some ((QCONF_OK, v), p')) /\
  (dt = QCONF_DATA_TYPE_SERVICE -> exists vs p', qconf_get_children (fun _ => true) path nodes idc flags p =
     Some ((QCONF_OK, SV (blen vs) (Some <$> vs)), p') /\ Forall node_ok vs) /\
  (dt = QCONF_DATA_TYPE_BATCH_NODE -> exists vs p', qconf_get_batchnode_keys (fun _ => true) path nodes idc flags p =
     Some ((QCONF_OK, SV (blen vs) (Some <$> vs)), p') /\ Forall node_ok vs).
Proof.
  cbn zeta. set (key := path_key dt idc path). intros Hp Hh Ht Hd Hi Hpl Hin Hpn [v Hv] Huniq.
  pose proof (path_key_ok dt idc path Hd Hi Hpl) as Hkey.
  destruct (Ht _ _ Hv) as (key' & E & Hty). symmetry in E. apply Huniq in E as ->.
  assert (Hvec : is_vector dt -> exists vs, Forall node_ok vs /\ holds_vector vm dt idc path vs).
  { intros Hdt. destruct (typed_vector_inv dt idc path v Hdt Hkey Hty) as (vs & Hall & Hlen & ->). by exists vs. }
  split_and!; intros ->.
  - destruct (typed_node_inv idc path v Hkey Hty) as (val & Hl & ->).
    destruct (qconf_get_hit_value path buf idc flags p vm val) as (t' & Hg & _); try done. by exists val, (with_tbl p t').
  - destruct Hvec as (vs & Hall & Hvs); [by left|].
    destruct (get_children_ok path idc flags p vm vs nodes) as (t' & Hg); try done. by exists vs, (with_tbl p t').
  - destruct Hvec as (vs & Hall & Hvs); [by right|].
    destruct (get_batchnodes_ok path idc flags p vm vs nodes) as (t' & Hg & _); try done. by exists vs, (with_tbl p t').
Qed.
End Reads.
End Laws.

(** ** Witnesses *)

Section Witnesses.
Import HashArr.
#[local] Existing Instance laws40.
#[local] Instance quiet_os_total : OSTotal (list bytes) hstate := fifo_total 10 id.
#[local] Instance quiet_os_local : OSLocal.
Proof. intros us s s' Hs. exact Hs. Qed.

Lemma no_values : values_typed ∅.
Proof. by intros k v E. Qed.
Lemma no_table : table_typed (∅ : gmap kid bytes).
Proof. by intros k v E. Qed.

Lemma table_stays_typed_witness :
  exists ret s' vm', set_watcher_and_update_tbl true (str "h") bsvc_key (svc_agent []) = Some (ret, s') /\ shm_ok (a_shm s') vm' /\
    table_typed vm'.
Proof.
  destruct (table_stays_typed true (str "h") QCONF_DATA_TYPE_SERVICE (str "bj") demo_host_list (str "/s") 1 (svc_agent []) ∅ svc_tree ∅
    eq_refl (svc_serving _) (svc_opened _)) as (ret & s' & vm' & Hrun & Hok & _ & _ & Ht);
    [discriminate|reflexivity|reflexivity|apply (bool_decide_unpack _); vm_compute; exact I|discriminate|apply bsvc_fits|intros _; apply svc_fits
    |apply map_Forall_empty|exact no_table|exact no_values|exact no_values|].
  exists ret, s', vm'. exact (conj Hrun (conj Hok Ht)).
Defined.

Lemma typed_table_reads_witness :
  exists v p', qconf_get (str "/a") [] (str "bj") QCONF_WAIT (mkProc [] (sh_tbl demo_one) true 5) = Some ((QCONF_OK, v), p').
Proof.
  destruct (after_ok (node_key (str "/a")) demo_val demo_shm ∅ demo_shm_ok) as (vm & Hok & Hl & Hf);
    [discriminate|reflexivity|reflexivity|vm_compute; discriminate|].
  apply (typed_table_reads QCONF_DATA_TYPE_NODE (str "bj") (str "/a") QCONF_WAIT (mkProc [] (sh_tbl demo_one) true 5) vm [] (SV 0 [])).
  - by split.
  - by apply shm_holds.
  - intros k v Hv. destruct (decide (k = s_ident (node_key (str "/a")))) as [->|Hne].
    + exists (node_key (str "/a")). split; [reflexivity|]. rewrite Hl in Hv. injection Hv as <-.
      apply (typed_node (str "bj") (str "/a") (str "10.0.0.1")); [|discriminate|reflexivity]. split; [reflexivity|]. split; [reflexivity|by left].
    + rewrite (Hf k Hne), lookup_empty in Hv. discriminate.
  - reflexivity.
  - reflexivity.
  - reflexivity.
  - discriminate.
  - discriminate.
  - exists demo_val. exact Hl.
  - intros key' E. symmetry in E. symmetry. apply s_ident_inj in E; [exact E|vm_compute; discriminate].
  - reflexivity.
Defined.
End Witnesses.
End TableTypes.
