(* ===== verification/Sync.v ===== *)
(** * No change of a node is lost

    The main thread and the callback of the ZooKeeper client run concurrently with each other, with the
    clients and with whoever changes ZooKeeper. The main thread takes a key, marks it as pending, reads
    the node with a watch, writes the table and unmarks the key: each is a step of its own here, and the
    other steps may come in between. Reads may fail and fall back on the dump, the table may be full, gray
    releases may override keys, sessions may end and be opened again. The invariant says that a value of the
    table is either current and watched, or about to be looked at again, or the agent has not read the node
    successfully in this session. *)

From S2P Require Import Prelude Common Text HashArr HashArrInv HashArrPut Format FormatThm Store Shm ShmThm Sys Config Dump Zoo Gray Script Feedback Agent Watcher WatcherQueue DriverThm WatcherThm.

(** What the ZooKeeper client promises about watches: a read that finds the node leaves a watch. *)
Class ZkWatch (K : Type) `{ZkLaws K} := {
  zk_watched : K -> Z -> bytes -> Prop;
  zoo_get_watch : forall zh p k ret d k', zoo_get zh p true k = Some ((ret, d), k') -> ret = ZOK -> zk_watched k' zh p;
  zoo_get_keeps : forall zh p w k r k' q, zoo_get zh p w k = Some (r, k') -> zk_watched k zh q -> zk_watched k' zh q
}.

Module Sync.
Import Format Shm Msg Config Dump Zoo Gray Script Feedback Agent Watcher WatcherQueue WatcherThm.

(** Where the main thread is. A result it has read is fresh while the session lasts in which it was read. *)
Inductive phase :=
  | Idle
  | Taken (key : bytes)
  | Marked (key : bytes)
  | Got (path : bytes) (ret : Z) (val : bytes) (fresh : bool)
  | Written (key : bytes).

Lemma Taken_inj a b : Taken a = Taken b -> a = b.
Proof. congruence. Qed.
Lemma Marked_inj a b : Marked a = Marked b -> a = b.
Proof. congruence. Qed.

(** The session in which a result was read is over. *)
Definition stale (ph : phase) : phase := match ph with Got path ret val _ => Got path ret val false | _ => ph end.

Section Sync.
Context {T G K W : Type} `{StoreLaws T} `{GdbmLaws G} `{ZkWatch K} `{OS W T} `{Host W}.
Variables (buf_ok : bool) (hostname idc host : bytes).
Implicit Types (s : agent T G K W).
Hypotheses (Hil : blen idc < 256) (Hhl : blen host < 65536).

(** The keys that the agent handles have different identities in the table. *)
Variable in_use : bytes -> Prop.
Hypothesis in_use_inj : forall k k', in_use k -> in_use k' -> s_ident k = s_ident k' -> k = k'.

(** The agent; the handle of the idc's session, 0 when there is none; the tree of its ZooKeeper; the main
    thread; the events of this handle that the client library has yet to deliver; and the nodes that the
    agent does not see: the last time it processed their key it could not read the node, or not store its
    value, or a gray release overrode it, or the session was another one. *)
Record world := mkWorld {
  y_agent : agent T G K W; y_zh : Z; y_tree : gmap bytes bytes; y_phase : phase;
  y_events : list (Z * bytes); y_blind : bytes -> Prop
}.

Definition key_of (path : bytes) : bytes := nkey idc path.
Definition valid (path : bytes) : Prop := (x00 ∉ path) /\ blen path < 65000.

(** An event that tells of a new value, or of the end, of a node. *)
Definition news (evs : list (Z * bytes)) (path : bytes) : Prop :=
  (CHANGED_EVENT_DEF, path) ∈ evs \/ (DELETED_EVENT_DEF, path) ∈ evs.

(** The handle of the idc, and a tree behind it. *)
Definition session s (zh : Z) (m : gmap bytes bytes) : Prop :=
  zh <> 0 -> ht_handle_idchost (a_ht s) !! zh = Some (serialize_to_idc_host idc host) /\ zk_tree (a_zk s) zh m.

(** The rest of [set_watcher_and_update_tbl] after a node was read. *)
Definition settle (key : bytes) (ret : Z) (val : bytes) : SM (agent T G K W) Z :=
  r ← finish_node key ret val; if r =? QCONF_ERR_ZOO_FAILED then read_dump key else mret r.

(** ZooKeeper answered in this session, and what it said is in the table. *)
Definition seen (fresh : bool) (ret r : Z) : bool :=
  fresh && ((ret =? QCONF_OK) || (ret =? QCONF_NODE_NOT_EXIST)) && (r =? QCONF_OK).

Definition marked (seen : bool) (path : bytes) (bl : bytes -> Prop) (p : bytes) : Prop :=
  if decide (p = path) then seen = false else bl p.

Definition dump_sane (d : dump G) : Prop := exists dm, dump_ok d dm /\ map_Forall (fun _ v => blen v < 2 ^ 32) dm.

(** What the other threads leave alone. *)
Record thread_frame s s' : Prop := {
  th_zk : a_zk s' = a_zk s;
  th_ht : a_ht s' = a_ht s;
  th_watch : watch_nodes (a_q s') = watch_nodes (a_q s);
  th_pending : pending_nodes (a_q s') = pending_nodes (a_q s)
}.

Inductive step : world -> world -> Prop :=
  | s_take s zh m evs bl key s' :
      take_watch_node s = Some (key, s') -> key <> [] -> in_use key ->
      step (mkWorld s zh m Idle evs bl) (mkWorld s' zh m (Taken key) evs bl)
  | s_mark s zh m evs bl key s' :
      add_pending_node key s = Some (tt, s') -> step (mkWorld s zh m (Taken key) evs bl) (mkWorld s' zh m (Marked key) evs bl)
  (* a read, successful or not *)
  | s_read s zh m evs bl path ret val s' :
      valid path -> zh <> 0 -> on_zk (zk_get_node buf_ok zh path [] true) s = Some ((ret, val), s') ->
      step (mkWorld s zh m (Marked (key_of path)) evs bl) (mkWorld s' zh m (Got path ret val true) evs bl)
  (* the table is written, from the dump when the read failed; the value may not fit *)
  | s_write s zh m evs bl path ret val fresh r s' :
      (forall vm, shm_ok (a_shm s) vm -> fits (key_of path) vm) -> dump_sane (a_dump s) ->
      settle (key_of path) ret val s = Some (r, s') ->
      step (mkWorld s zh m (Got path ret val fresh) evs bl)
           (mkWorld s' zh m (Written (key_of path)) evs (marked (seen fresh ret r) path bl))
  (* a key that a gray release overrides *)
  | s_gray s zh m evs bl path v r s' :
      valid path -> (forall vm, shm_ok (a_shm s) vm -> fits (key_of path) vm) -> gray_nodes (a_gray s) !! key_of path = Some v -> blen v < 2 ^ 32 ->
      set_watcher_and_update_tbl buf_ok hostname (key_of path) s = Some (r, s') ->
      step (mkWorld s zh m (Marked (key_of path)) evs bl) (mkWorld s' zh m (Written (key_of path)) evs (marked false path bl))
  (* a node for which there is no handle: nothing is read *)
  | s_no_handle s m evs bl path :
      valid path ->
      step (mkWorld s 0 m (Marked (key_of path)) evs bl) (mkWorld s 0 m (Written (key_of path)) evs (marked false path bl))
  (* a key of another kind *)
  | s_other s zh m evs bl key s' :
      (forall path, key <> key_of path) -> thread_frame s s' ->
      (forall vm, shm_ok (a_shm s) vm -> exists vm', shm_ok (a_shm s') vm' /\ shrinks key vm vm') ->
      step (mkWorld s zh m (Marked key) evs bl) (mkWorld s' zh m (Written key) evs bl)
  | s_unmark s zh m evs bl key s' :
      del_pending_node key s = Some (tt, s') -> step (mkWorld s zh m (Written key) evs bl) (mkWorld s' zh m Idle evs bl)
  (* the callback is given an event of a node *)
  | s_event s zh m ph type path evs bl s' :
      zh <> 0 -> global_watcher hostname zh type 0 path s = Some (tt, s') ->
      step (mkWorld s zh m ph ((type, path) :: evs) bl) (mkWorld s' zh m ph evs bl)
  (* someone changes ZooKeeper, or another thread asks it *)
  | s_change s zh m ph evs bl k' m' new :
      (zh <> 0 -> zk_tree k' zh m') ->
      (forall p, m' !! p <> m !! p -> zk_watched (a_zk s) zh p -> news new p) ->
      (forall p, zk_watched (a_zk s) zh p -> zk_watched k' zh p \/ news new p) ->
      Forall (fun e => e.1 <> SESSION_EVENT_DEF) new ->
      step (mkWorld s zh m ph evs bl) (mkWorld (with_gray s (a_gray s) k') zh m' ph (evs ++ new) bl)
  (* the connection is there again, in the same session *)
  | s_connected s zh m ph evs bl path s' m' :
      zh <> 0 -> global_watcher hostname zh SESSION_EVENT_DEF ZOO_CONNECTED_STATE path s = Some (tt, s') ->
      zk_tree (a_zk s') zh m' -> grows m m' -> (forall p, zk_watched (a_zk s) zh p -> zk_watched (a_zk s') zh p) ->
      step (mkWorld s zh m ph evs bl) (mkWorld s' zh m' ph evs bl)
  (* the session is over; the callback opens another one, or fails to *)
  | s_expired s zh m ph evs bl path s' zh' m' :
      zh <> 0 -> global_watcher hostname zh SESSION_EVENT_DEF ZOO_EXPIRED_SESSION_STATE path s = Some (tt, s') ->
      session s' zh' m' ->
      step (mkWorld s zh m ph evs bl) (mkWorld s' zh' m' (stale ph) [] (fun _ => True))
  (* a thread that needs the handle opens a session *)
  | s_connect s m ph evs bl zh' s' m' :
      get_zhandle_by_idc hostname idc s = Some (zh', s') -> session s' zh' m' ->
      step (mkWorld s 0 m ph evs bl) (mkWorld s' zh' m' (stale ph) [] (fun _ => True))
  (* a client, or the assistant or gray thread, asks for a key *)
  | s_request s zh m ph evs bl key s' :
      add_watcher_node key s = Some (tt, s') -> step (mkWorld s zh m ph evs bl) (mkWorld s' zh m ph evs bl)
  (* another thread changes the dump, the gray overrides, the trigger queue and so on *)
  | s_elsewhere s zh m ph evs bl s' :
      a_shm s' = a_shm s -> thread_frame s s' -> step (mkWorld s zh m ph evs bl) (mkWorld s' zh m ph evs bl).

(** ** The invariant *)

(** The key of [path] will be read again. *)
Definition covered (y : world) (path : bytes) : Prop :=
  key_of path ∈ q_need (watch_nodes (a_q (y_agent y))) \/ y_phase y = Taken (key_of path) \/ y_phase y = Marked (key_of path) \/
  news (y_events y) path.

(** The main thread holds a result for [path] that it is about to write. *)
Definition in_hands (y : world) (path : bytes) : Prop := exists ret val fresh, y_phase y = Got path ret val fresh.

(** The value is the node's, and a watch will tell when that changes. *)
Definition current (y : world) (path val : bytes) : Prop :=
  y_tree y !! path = Some val /\ zk_watched (a_zk (y_agent y)) (y_zh y) path.

Definition synced (y : world) (vm : gmap kid bytes) : Prop :=
  forall path tv, valid path -> in_use (key_of path) -> vm !! s_ident (key_of path) = Some tv ->
    covered y path \/ in_hands y path \/ y_blind y path \/
    exists v, current y path v /\ tv = nodeval_to_tblval (key_of path) v.

(** What the main thread has in hand. *)
Definition in_hand (y : world) : Prop :=
  match y_phase y with
  | Taken key => in_use key
  | Marked key => in_use key /\ pending (y_agent y) key
  | Got path ret val fresh => valid path /\ in_use (key_of path) /\ pending (y_agent y) (key_of path) /\ blen val < 2 ^ 31 /\
      (fresh = true -> ret = QCONF_OK -> covered y path \/ current y path val)
  | _ => True
  end.

Record inv (y : world) : Prop := {
  inv_shm : exists vm, shm_ok (a_shm (y_agent y)) vm /\ synced y vm;
  inv_queue : queue_ok (watch_nodes (a_q (y_agent y)));
  inv_session : session (y_agent y) (y_zh y) (y_tree y);
  inv_events : Forall (fun e => e.1 <> SESSION_EVENT_DEF) (y_events y);
  inv_hand : in_hand y
}.

Lemma key_of_inj p p' : valid p -> valid p' -> key_of p = key_of p' -> p = p'.
Proof.
  intros [_ Hp] [_ Hp'] E. pose proof (key_read QCONF_DATA_TYPE_NODE idc p x00 [] [] eq_refl Hil ltac:(lia)) as R.
  pose proof (key_read QCONF_DATA_TYPE_NODE idc p' x00 [] [] eq_refl Hil ltac:(lia)) as R'. unfold key_of, nkey in E. rewrite E in R. congruence.
Qed.

Lemma key_of_ne p : key_of p <> [].
Proof. apply key_ne. Qed.

(** ** Reading with a watch *)

Lemma zk_get_node_watch zh path k0 m ret v k' :
  zk_tree k0 zh m -> (x00 ∉ path) -> zk_get_node buf_ok zh path [] true k0 = Some ((ret, v), k') ->
  (ret = QCONF_OK -> zk_watched k' zh path) /\ forall q, zk_watched k0 zh q -> zk_watched k' zh q.
Proof.
  intros Ht Hz. unfold zk_get_node. rewrite c_str_no_nul by done. destruct buf_ok; cbn [negb]; [|by intros [= <- <- <-]].
  set (f := fun '(r, data) => _). intros Hrun.
  destruct (retry_ok (fun k => zk_tree k zh m /\ forall q, zk_watched k0 zh q -> zk_watched k zh q)
    (fun a k => a.1 = ZOK -> zk_watched k zh path) QCONF_GET_RETRIES (zoo_get zh path true) f (QCONF_ERR_ZOO_FAILED, []) k0)
    as (b & k2 & Hrun2 & (_ & Hkeep) & Hres); [done| |].
  { intros k (Hk & Hkq). destruct (zoo_get_ok zh path true k m Hk) as (r & d & k1 & Hget & Hk1 & _). exists (r, d), k1.
    split; [done|]. split; [split; [done|]|].
    - intros q Hq. eapply zoo_get_keeps; [done|by apply Hkq].
    - cbn. intros Hr. by eapply zoo_get_watch. }
  rewrite Hrun in Hrun2. injection Hrun2 as <- <-. split; [|done]. intros ->.
  destruct Hres as [?|([r d] & Hw & Ef)]; [done|]. unfold f in Ef. destruct (Z.eqb_spec r ZOK) as [->|]; [by apply Hw|].
  destruct (r =? ZNONODE); [done|]. by destruct (transient r).
Qed.

(** ** What the commands of a step do *)

Lemma read_dump_parts key s r s' : read_dump key s = Some (r, s') -> a_zk s' = a_zk s /\ a_ht s' = a_ht s /\ a_q s' = a_q s.
Proof.
  unfold read_dump. intros (x & s1 & E1 & E2)%SM_bind_inv. destruct x as [ret tv]. unfold on_dump in E1.
  destruct (qconf_dump_get _ _ _) as [[? ?]|]; [|done]. injection E1 as _ <-. destruct (negb _); [by injection E2 as <- <-|]. apply SM_bind_inv in E2 as (? & s2 & E2 & [= <- <-]).
  unfold on_shm in E2. destruct (hash_tbl_set _ _ _) as [[? ?]|]; [|done]. by injection E2 as <- <-.
Qed.

Lemma table_thread s s' : table_frame s s' -> thread_frame s s'.
Proof. intros []. by split. Qed.
Lemma thread_frame_refl s : thread_frame s s.
Proof. by split. Qed.
Lemma thread_frame_trans s1 s2 s3 : thread_frame s1 s2 -> thread_frame s2 s3 -> thread_frame s1 s3.
Proof. intros [] []. split; congruence. Qed.

(** Writing the table: other keys are only evicted, and the key is in order when it was seen. *)
Lemma settle_ok key ret val s vm r s' :
  shm_ok (a_shm s) vm -> fits key vm -> dump_sane (a_dump s) -> blen val < 2 ^ 31 -> settle key ret val s = Some (r, s') ->
  thread_frame s s' /\ exists vm', shm_ok (a_shm s') vm' /\ shrinks key vm vm' /\
    (r = QCONF_OK -> ret = QCONF_OK -> vm' !! s_ident key = Some (nodeval_to_tblval key val)) /\
    (r = QCONF_OK -> ret = QCONF_NODE_NOT_EXIST -> vm' !! s_ident key = None).
Proof.
  intros Hok Hfit (dm & Hd & Hdv) Hlen Hrun. destruct (finish_node_ok key ret val s vm Hok Hfit Hlen) as (r1 & s1 & vm1 & Hf & Hok1 & Hsh1 & Htf & Hpub & Hgone & Hsame).
  unfold settle in Hrun. rewrite (SM_bind_Some _ _ _ _ _ Hf) in Hrun. destruct (Z.eqb_spec r1 QCONF_ERR_ZOO_FAILED) as [->|Hne].
  - assert (Hn1 : ret <> QCONF_OK) by (intros E; by destruct (Hpub E) as [[? _]|[? _]]).
    assert (Hn2 : ret <> QCONF_NODE_NOT_EXIST) by (intros E; by destruct (Hgone E)).
    destruct (Hsame Hn1 Hn2) as (_ & -> & ->).
    destruct (read_dump_ok key s vm dm Hok Hd Hfit Hdv) as (r2 & s2 & vm2 & Hrd & Hok2 & _ & Hsh2 & Hmf & _).
    rewrite Hrun in Hrd. injection Hrd as <- <-. destruct (read_dump_parts _ _ _ _ Hrun) as (? & ? & Eq). split; [split; congruence|].
    exists vm2. by split_and!.
  - injection Hrun as <- <-. split; [by apply table_thread|]. exists vm1. split; [done|]. split; [done|]. split.
    + intros -> E. by destruct (Hpub E) as [[_ ?]|[? _]].
    + intros _ E. destruct (Hgone E) as [_ ->]. apply lookup_delete_eq.
Qed.

(** A session event changes neither the table nor the queue of the main thread nor the pending keys. *)
Lemma session_parts s s' : session_frame s s' ->
  a_shm s' = a_shm s /\ watch_nodes (a_q s') = watch_nodes (a_q s) /\ pending_nodes (a_q s') = pending_nodes (a_q s).
Proof. intros [? _ _ _ _ _ _ E]. by rewrite E. Qed.

Lemma calm_get_zhandle : calm (T := T) (G := G) (W := W) (get_zhandle_by_idc hostname idc).
Proof.
  unfold get_zhandle_by_idc. case_decide; [apply calm_ret|]. apply calm_bind; [apply calm_gets|]. intros c.
  destruct (get_idc_conf c idc []) as [ret h]. destruct (negb _); [apply calm_ret|]. cbv zeta. apply calm_bind; [apply calm_gets|]. intros [? zh0].
  destruct (zh0 =? 0); [|apply calm_ret]. apply calm_bind; [apply calm_gets|]. intros t. apply calm_bind; [apply calm_zk|]. intros zh1.
  destruct (zh1 =? 0); [apply calm_ret|]. apply calm_bind; [apply calm_init_env|]. intros. apply calm_ret.
Qed.

(** A connected session keeps its handle. *)
Definition keeps_ht {A} (c : SM (agent T G K W) A) : Prop := forall s r s', c s = Some (r, s') -> a_ht s' = a_ht s.

Lemma keeps_ht_bind {A B} (c : SM (agent T G K W) A) (f : A -> SM _ B) : keeps_ht c -> (forall a, keeps_ht (f a)) -> keeps_ht (c ≫= f).
Proof. intros Hc Hf s r s' (a & s1 & E1 & E2)%SM_bind_inv. etrans; [by eapply Hf|by eapply Hc]. Qed.
Lemma keeps_ht_ret {A} (a : A) : keeps_ht (mret a).
Proof. by intros s r s' [= <- <-]. Qed.
Lemma keeps_ht_gets {A} (f : agent T G K W -> A) : keeps_ht (gets f).
Proof. by intros s r s' [= <- <-]. Qed.
Lemma keeps_ht_zk {A} (c : SM K A) : keeps_ht (on_zk c).
Proof. intros s r s' E. unfold on_zk in E. destruct (c _) as [[? ?]|]; [|done]. by injection E as <- <-. Qed.
Lemma keeps_ht_gray {A} (c : SM (gray * K) A) : keeps_ht (on_gray c).
Proof. intros s r s' E. unfold on_gray in E. destruct (c _) as [[? [? ?]]|]; [|done]. by injection E as <- <-. Qed.

Lemma connected_keeps zh path s s' :
  ht_handle_idchost (a_ht s) !! zh = Some (serialize_to_idc_host idc host) ->
  global_watcher hostname zh SESSION_EVENT_DEF ZOO_CONNECTED_STATE path s = Some (tt, s') ->
  ht_handle_idchost (a_ht s') !! zh = Some (serialize_to_idc_host idc host).
Proof.
  intros Hh. unfold global_watcher, get_idc_by_zhandle, hi_find, lock_ht_find.
  erewrite SM_bind_Some; [|erewrite SM_bind_Some; [|unfold gets; rewrite Hh; reflexivity]; cbv beta iota; cbn [Z.eqb QCONF_OK negb];
    rewrite idc_host_read by done; reflexivity].
  cbv beta iota. cbn [Z.eqb QCONF_OK negb]. do 2 (erewrite SM_bind_Some; [|reflexivity]). cbn [Z.eqb SESSION_EVENT_DEF ZOO_CONNECTED_STATE ZOO_EXPIRED_SESSION_STATE Pos.eqb].
  unfold session_connected, hi_find, lock_ht_find. erewrite SM_bind_Some; [|unfold gets; rewrite Hh; reflexivity]. cbv beta iota. cbn [Z.eqb QCONF_OK].
  rewrite idc_host_read by done. intros (u & s1 & E1 & [= <-])%SM_bind_inv. cbn [with_set a_ht]. revert E1. unfold init_env_for_zk.
  do 2 (erewrite SM_bind_Some; [|reflexivity]). intros E1. set (s2 := with_ht _ _) in E1 at 1.
  assert (Ek : a_ht s1 = a_ht s2).
  { revert E1. apply (keeps_ht_bind (on_zk (zoo_state zh))); [apply keeps_ht_zk|]. intros st. destruct (negb _); [apply keeps_ht_ret|].
    apply keeps_ht_bind; [apply keeps_ht_gets|]. intros p. apply keeps_ht_bind; [apply keeps_ht_zk|]. intros _.
    apply keeps_ht_bind; [apply keeps_ht_gray|]. intros r. destruct (r =? QCONF_OK); [|apply keeps_ht_ret].
    unfold add_gray_idc. case_decide; [apply keeps_ht_ret|]. by intros x y x' [= <- <-]. }
  rewrite Ek. cbn. apply lookup_insert_eq.
Qed.

(** ** Preservation *)

(** What a step may do to the coverage of the keys: keys stay covered or in hand, current values stay current
    or become covered, and the table only loses entries. *)
Lemma synced_step y y' vm vm' :
  synced y vm ->
  (forall p, valid p -> in_use (key_of p) -> is_Some (vm' !! s_ident (key_of p)) -> vm' !! s_ident (key_of p) = vm !! s_ident (key_of p)) ->
  (forall p, valid p -> in_use (key_of p) -> is_Some (vm' !! s_ident (key_of p)) -> covered y p -> covered y' p) ->
  (forall p, in_hands y p -> in_hands y' p) ->
  (forall p, y_blind y p -> y_blind y' p) ->
  (forall p v, valid p -> current y p v -> covered y' p \/ current y' p v) ->
  synced y' vm'.
Proof.
  intros Hs Hvm Hcov Hgot Hbl Hcur p tv Hp Hu Hl. assert (Hsome : is_Some (vm' !! s_ident (key_of p))) by eauto.
  rewrite Hvm in Hl by done. destruct (Hs p tv Hp Hu Hl) as [Hc|[Hg|[Hb|(v & Hc & ->)]]]; [by auto|by auto|by auto|].
  destruct (Hcur p v Hp Hc); eauto 7.
Qed.

(** Keys that are covered stay so while the queue and the events do. *)
Lemma covered_idle y y' p :
  q_need (watch_nodes (a_q (y_agent y'))) = q_need (watch_nodes (a_q (y_agent y))) -> y_events y' = y_events y ->
  (forall key, y_phase y = Taken key -> y_phase y' = Taken key \/ y_phase y' = Marked key) ->
  (forall key, y_phase y = Marked key -> y_phase y' = Marked key) -> covered y p -> covered y' p.
Proof.
  intros Eq Ee Ht Hm [?|[E|[E|?]]].
  - left. by rewrite Eq.
  - destruct (Ht _ E); [by right; left|by right; right; left].
  - right. right. left. by apply Hm.
  - right. right. right. by rewrite Ee.
Qed.

Lemma inv_take s zh m evs bl key s' :
  take_watch_node s = Some (key, s') -> key <> [] -> in_use key ->
  inv (mkWorld s zh m Idle evs bl) -> inv (mkWorld s' zh m (Taken key) evs bl).
Proof.
  intros Hrun Hk Hu [(vm & Hok & Hs) Hq Ht He _]. cbn [y_agent y_tree y_phase y_events] in *.
  unfold take_watch_node, on_q in Hrun. destruct (dequeue_ok _ Hq) as [Hq' Hd].
  destruct (dequeue (watch_nodes (a_q s))) as [k0 w]. injection Hrun as <- <-. cbn [fst snd] in *.
  destruct Hd as [(_ & [= ? _])|(key & Hneed & -> & _)]; [done|]. split; try done. exists vm. split; [done|].
  apply (synced_step (mkWorld s zh m Idle evs bl) _ vm); try done.
  - intros p _ _ _ [Hin|[?|[?|?]]]; try done; [|by right; right; right]. cbn [y_agent] in Hin. rewrite Hneed, elem_of_cons in Hin.
    destruct Hin as [<-|Hin]; [by right; left|by left].
  - by intros p (? & ? & ? & ?).
  - intros p v _ Hc. by right.
Qed.

Lemma inv_mark s zh m evs bl key s' :
  add_pending_node key s = Some (tt, s') -> inv (mkWorld s zh m (Taken key) evs bl) -> inv (mkWorld s' zh m (Marked key) evs bl).
Proof.
  intros [= <-] [(vm & Hok & Hs) Hq Ht He Hu]. split; try done.
  - exists vm. split; [done|]. apply (synced_step (mkWorld s zh m (Taken key) evs bl) _ vm); try done.
    + intros p _ _ _. apply covered_idle; try done. intros k [= <-]. by right.
    + by intros p (? & ? & ? & ?).
    + intros p v _ Hc. by right.
  - split; [done|]. cbn. unfold pending. cbn. set_solver.
Qed.

Lemma inv_read s zh m evs bl path ret val s' :
  valid path -> zh <> 0 -> on_zk (zk_get_node buf_ok zh path [] true) s = Some ((ret, val), s') ->
  inv (mkWorld s zh m (Marked (key_of path)) evs bl) -> inv (mkWorld s' zh m (Got path ret val true) evs bl).
Proof.
  intros Hp Hz Hrun [(vm & Hok & Hs) Hq Hse He (Hu & Hpend)]. cbn [y_agent y_zh y_tree y_phase y_events] in *. unfold on_zk in Hrun.
  destruct (Hse Hz) as [Hh Ht].
  destruct (zk_get_node_ok buf_ok zh path [] true (a_zk s) m Ht (proj1 Hp)) as (r & v & k' & Hget & Ht' & Hv & _ & Hv3 & _).
  destruct (zk_get_node_watch zh path (a_zk s) m r v k' Ht (proj1 Hp) Hget) as [Hw Hkeep]. rewrite Hget in Hrun. injection Hrun as <- <- <-.
  assert (Hlen : blen v < 2 ^ 31).
  { destruct (decide (r = QCONF_OK)) as [E|E]; [|by rewrite (Hv3 E)]. pose proof (zk_tree_small _ _ _ Ht' _ _ (Hv E)) as Hsm.
    unfold QCONF_MAX_VALUE_SIZE in Hsm. cbv beta in Hsm. lia. }
  split; try done.
  - exists vm. split; [done|]. intros p tv Hpv Hpu Hl. destruct (decide (p = path)) as [->|Hne]; [right; left; by repeat eexists|].
    destruct (Hs p tv Hpv Hpu Hl) as [[Hin|[?|[E%Marked_inj|Hn]]]|[(? & ? & ? & ?)|[Hb|(w & [Hc1 Hc2] & ->)]]]; try done.
    + left. by left.
    + destruct Hne. symmetry. apply key_of_inj; [done|done|exact E].
    + left. by right; right; right.
    + right. right. by left.
    + right. right. right. exists w. split; [|done]. split; [done|]. by apply Hkeep.
  - do 4 (split; [done|]). intros _ Er. right. split; [by apply Hv|by apply Hw].
Qed.

Lemma seen_true fresh ret r : seen fresh ret r = true -> fresh = true /\ (ret = QCONF_OK \/ ret = QCONF_NODE_NOT_EXIST) /\ r = QCONF_OK.
Proof. unfold seen. rewrite !andb_true_iff, orb_true_iff, !Z.eqb_eq. tauto. Qed.

(** The main thread is done with [path], and sees it, or is blind for it. *)
Lemma inv_done s zh m ph evs bl path s' b vm vm' :
  (forall p, valid p -> p <> path -> covered (mkWorld s zh m ph evs bl) p -> covered (mkWorld s' zh m (Written (key_of path)) evs (marked b path bl)) p) ->
  (forall p, p <> path -> ~ in_hands (mkWorld s zh m ph evs bl) p) ->
  valid path -> in_use (key_of path) -> thread_frame s s' -> shrinks (key_of path) vm vm' -> synced (mkWorld s zh m ph evs bl) vm ->
  (b = true -> vm' !! s_ident (key_of path) = None \/
    exists v, vm' !! s_ident (key_of path) = Some (nodeval_to_tblval (key_of path) v) /\
      (covered (mkWorld s' zh m (Written (key_of path)) evs (marked b path bl)) path \/ current (mkWorld s zh m ph evs bl) path v)) ->
  synced (mkWorld s' zh m (Written (key_of path)) evs (marked b path bl)) vm'.
Proof.
  intros Hcov Hno Hp Hu [Ez _ _ _] Hsh Hs Hb p tv Hpv Hpu Hl. cbn [y_blind] in *.
  assert (Hcur : forall v, current (mkWorld s zh m ph evs bl) p v -> current (mkWorld s' zh m (Written (key_of path)) evs (marked b path bl)) p v).
  { intros v [? ?]. split; [done|]. cbn in *. by rewrite Ez. }
  unfold marked. case_decide as Hd; [subst p|].
  - destruct b; [|by auto]. destruct (Hb eq_refl) as [E|(v & E & Hc)]; rewrite E in Hl; [done|]. injection Hl as <-.
    destruct Hc as [Hc|Hc]; [by left|]. right. right. right. exists v. auto.
  - assert (Hni : s_ident (key_of p) <> s_ident (key_of path)).
    { intros E. apply in_use_inj in E; try done. by apply Hd, key_of_inj. }
    destruct (Hsh _ Hni) as [E|E]; rewrite E in Hl; [|done].
    destruct (Hs p tv Hpv Hpu Hl) as [Hc|[Hc|[Hc|(v & Hc & ->)]]]; [left; by auto|by destruct (Hno p)|by auto|].
    right. right. right. exists v. auto.
Qed.

Lemma inv_write s zh m evs bl path ret val fresh r s' :
  (forall vm, shm_ok (a_shm s) vm -> fits (key_of path) vm) -> dump_sane (a_dump s) ->
  settle (key_of path) ret val s = Some (r, s') ->
  inv (mkWorld s zh m (Got path ret val fresh) evs bl) ->
  inv (mkWorld s' zh m (Written (key_of path)) evs (marked (seen fresh ret r) path bl)).
Proof.
  intros Hfit Hd Hrun [(vm & Hok & Hs) Hq Hse He (Hp & Hu & Hpend & Hlen & Hret)]. cbn [y_agent y_zh y_tree y_phase y_events] in *.
  destruct (settle_ok _ _ _ _ vm _ _ Hok (Hfit vm Hok) Hd Hlen Hrun) as (Hf & vm' & Hok' & Hsh & Hpub & Hgone). pose proof Hf as [Ez Eh Ew Ep].
  assert (Hcov : forall p, covered (mkWorld s zh m (Got path ret val fresh) evs bl) p ->
    covered (mkWorld s' zh m (Written (key_of path)) evs (marked (seen fresh ret r) path bl)) p).
  { intros p. apply covered_idle; try done. cbn. by rewrite Ew. }
  split; cbn [y_agent y_zh y_tree y_phase y_events]; unfold session; rewrite ?Ew, ?Ez, ?Eh; try done.
  exists vm'. split; [done|]. apply (inv_done s zh m (Got path ret val fresh) evs bl path s' _ vm vm'); try done; [by intros; apply Hcov|by intros p Hne (? & ? & ? & [= -> _ _ _])|].
  intros (-> & [->| ->] & ->)%seen_true; [|left; by apply Hgone]. right. exists val. split; [by apply Hpub|].
  destruct (Hret eq_refl eq_refl); [left|right]; auto.
Qed.

Lemma inv_gray s zh m evs bl path v r s' :
  (forall vm, shm_ok (a_shm s) vm -> fits (key_of path) vm) -> gray_nodes (a_gray s) !! key_of path = Some v -> blen v < 2 ^ 32 ->
  set_watcher_and_update_tbl buf_ok hostname (key_of path) s = Some (r, s') -> valid path ->
  inv (mkWorld s zh m (Marked (key_of path)) evs bl) -> inv (mkWorld s' zh m (Written (key_of path)) evs (marked false path bl)).
Proof.
  intros Hfit Hg Hv Hrun Hp [(vm & Hok & Hs) Hq Hse He (Hu & Hpend)]. cbn [y_agent y_zh y_tree y_phase y_events] in *.
  destruct (gray_served_ok buf_ok hostname (key_of path) v s vm Hok (Hfit vm Hok) Hg Hv) as (r' & s1 & vm' & Hrun' & Hok' & Hsh & Htf & _).
  rewrite Hrun in Hrun'. injection Hrun' as <- <-. pose proof (table_thread _ _ Htf) as Hf. pose proof Hf as [Ez Eh Ew Ep].
  split; cbn [y_agent y_zh y_tree y_phase y_events]; unfold session; rewrite ?Ew, ?Ez, ?Eh; try done.
  exists vm'. split; [done|]. apply (inv_done s zh m (Marked (key_of path)) evs bl path s' _ vm vm'); try done; [|by intros p _ (? & ? & ? & ?)].
  intros p Hpv Hne [Hin|[?|[E%Marked_inj|?]]]; try done; [left; cbn in *; by rewrite Ew| |by right; right; right].
  destruct Hne. symmetry. apply key_of_inj; [done|done|exact E].
Qed.

Lemma inv_no_handle s m evs bl path :
  valid path -> inv (mkWorld s 0 m (Marked (key_of path)) evs bl) -> inv (mkWorld s 0 m (Written (key_of path)) evs (marked false path bl)).
Proof.
  intros Hp [(vm & Hok & Hs) Hq Hse He (Hu & Hpend)]. cbn [y_agent y_zh y_tree y_phase y_events] in *. split; try done.
  exists vm. split; [done|]. apply (inv_done s 0 m (Marked (key_of path)) evs bl path s _ vm vm); try done; [|by intros p _ (? & ? & ? & ?)|by left].
  intros p Hpv Hne [Hin|[?|[E%Marked_inj|?]]]; try done; [by left| |by right; right; right]. destruct Hne. symmetry. apply key_of_inj; [done|done|exact E].
Qed.

Lemma inv_other s zh m evs bl key s' :
  (forall path, key <> key_of path) -> thread_frame s s' ->
  (forall vm, shm_ok (a_shm s) vm -> exists vm', shm_ok (a_shm s') vm' /\ shrinks key vm vm') ->
  inv (mkWorld s zh m (Marked key) evs bl) -> inv (mkWorld s' zh m (Written key) evs bl).
Proof.
  intros Hkey [Ez Eh Ew Ep] Hsh [(vm & Hok & Hs) Hq Hse He (Hu & _)]. cbn [y_agent y_zh y_tree y_phase y_events] in *.
  destruct (Hsh vm Hok) as (vm' & Hok' & Hsh'). split; cbn [y_agent y_zh y_tree y_phase y_events]; unfold session; rewrite ?Ew, ?Ez, ?Eh; try done.
  exists vm'. split; [done|]. apply (synced_step (mkWorld s zh m (Marked key) evs bl) _ vm); try done.
  - intros p Hp Hpu [tv Hl]. destruct (Hsh' (s_ident (key_of p))) as [E|E]; [|done|congruence].
    intros E. apply (Hkey p). symmetry. by apply in_use_inj.
  - intros p _ _ _ [Hin|[?|[E%Marked_inj|?]]]; try done; [left; cbn in *; by rewrite Ew|by destruct (Hkey p)|by right; right; right].
  - by intros p (? & ? & ? & ?).
  - intros p v _ [? Hw]. right. split; [done|]. cbn in *. by rewrite Ez.
Qed.

Lemma inv_unmark s zh m evs bl key s' :
  del_pending_node key s = Some (tt, s') -> inv (mkWorld s zh m (Written key) evs bl) -> inv (mkWorld s' zh m Idle evs bl).
Proof.
  intros [= <-] [(vm & Hok & Hs) Hq Hse He _]. split; try done. exists vm. split; [done|].
  apply (synced_step (mkWorld s zh m (Written key) evs bl) _ vm); try done.
  - intros p _ _ _. by apply covered_idle.
  - by intros p (? & ? & ? & ?).
  - intros p v _ Hc. by right.
Qed.

(** What is in hand stays so while the pending keys, the queue and the events do. *)
Lemma in_hand_step y y' :
  y_phase y' = y_phase y -> (forall key, pending (y_agent y) key -> pending (y_agent y') key) ->
  (forall p, pending (y_agent y) (key_of p) -> covered y p -> covered y' p) ->
  (forall p v, current y p v -> covered y' p \/ current y' p v) -> in_hand y -> in_hand y'.
Proof.
  intros Eph Hp Hcov Hcur. unfold in_hand. rewrite Eph. destruct (y_phase y) as [| | |path ret val fresh|]; try done.
  - intros [? ?]. auto.
  - intros (? & ? & Hpe & ? & Hres). do 2 (split; [done|]). split; [auto|]. split; [done|]. intros Hf Hr.
    destruct (Hres Hf Hr) as [Hc|Hc]; auto.
Qed.

Lemma inv_event s zh m ph type path evs bl s' :
  zh <> 0 -> global_watcher hostname zh type 0 path s = Some (tt, s') ->
  inv (mkWorld s zh m ph ((type, path) :: evs) bl) -> inv (mkWorld s' zh m ph evs bl).
Proof.
  intros Hz Hrun [(vm & Hok & Hs) Hq Hse He Hu]. cbn [y_agent y_zh y_tree y_phase y_events] in *. apply Forall_cons in He as [Hty He].
  destruct (Hse Hz) as [Hh Ht]. destruct (events_ok hostname zh type 0 path idc host s vm Hok Hq Hh Hil Hhl Hty) as (s1 & Hrun1 & Hf & Hel).
  rewrite Hrun in Hrun1. injection Hrun1 as <-. pose proof (watch_queue_steps _ _ (locked_global_watcher hostname _ _ _ _ _ _ _ Hrun) Hq) as Hq1.
  destruct (notified_parts type idc path s) as (Es & Ez & _ & Eh & _ & Ep).
  assert (Es' : a_shm s' = a_shm s) by (rewrite Hf; exact Es). assert (Ez' : a_zk s' = a_zk s) by (rewrite Hf; exact Ez).
  assert (Eh' : a_ht s' = a_ht s) by (rewrite Hf; exact Eh). assert (Ep' : pending_nodes (a_q s') = pending_nodes (a_q s)) by (rewrite Hf; exact Ep).
  assert (Hcov : forall p, pending s (key_of p) \/ in_table vm (key_of p) ->
    covered (mkWorld s zh m ph ((type, path) :: evs) bl) p -> covered (mkWorld s' zh m ph evs bl) p).
  { intros p Hkn [Hin|[?|[?|Hn]]]; [left; apply Hel; by left|by right; left|by right; right; left|].
    unfold news in Hn. cbn [y_events] in Hn. rewrite !elem_of_cons in Hn.
    destruct Hn as [[[= <- <-]|?]|[[= <- <-]|?]]; [|by right; right; right; left| |by right; right; right; right].
    - left. apply Hel. right. right. right. split; [done|]. by left.
    - left. apply Hel. right. left. split; [done|]. split; [by left|done]. }
  assert (Hcur : forall p v, current (mkWorld s zh m ph ((type, path) :: evs) bl) p v -> current (mkWorld s' zh m ph evs bl) p v).
  { intros p v [? Hw]. split; [done|]. cbn in *. by rewrite Ez'. }
  split; cbn [y_agent y_zh y_tree y_phase y_events]; unfold session; rewrite ?Ez', ?Eh'; try done.
  - exists vm. rewrite Es'. split; [done|]. apply (synced_step (mkWorld s zh m ph ((type, path) :: evs) bl) _ vm); try done.
    + intros p _ _ Hl. apply Hcov. by right.
    + intros p v _ Hc. right. by apply Hcur.
  - apply (in_hand_step (mkWorld s zh m ph ((type, path) :: evs) bl)); try done; [| |by auto].
    + intros k. unfold pending. cbn [y_agent]. by rewrite Ep'.
    + intros p Hpe. apply Hcov. by left.
Qed.

Lemma inv_change s zh m ph evs bl k' m' new :
  (zh <> 0 -> zk_tree k' zh m') ->
  (forall p, m' !! p <> m !! p -> zk_watched (a_zk s) zh p -> news new p) ->
  (forall p, zk_watched (a_zk s) zh p -> zk_watched k' zh p \/ news new p) ->
  Forall (fun e => e.1 <> SESSION_EVENT_DEF) new ->
  inv (mkWorld s zh m ph evs bl) -> inv (mkWorld (with_gray s (a_gray s) k') zh m' ph (evs ++ new) bl).
Proof.
  intros Ht' Hnew Hkeep Hev [(vm & Hok & Hs) Hq Hse He Hu]. cbn [y_agent y_zh y_tree y_phase y_events] in *.
  assert (Happ : forall p, news evs p \/ news new p -> news (evs ++ new) p).
  { intros p. unfold news. rewrite !elem_of_app. tauto. }
  assert (Hcov : forall p, covered (mkWorld s zh m ph evs bl) p -> covered (mkWorld (with_gray s (a_gray s) k') zh m' ph (evs ++ new) bl) p).
  { intros p [?|[?|[?|?]]]; [by left|by right; left|by right; right; left|right; right; right; apply Happ; by left]. }
  assert (Hcur : forall p v, current (mkWorld s zh m ph evs bl) p v ->
    covered (mkWorld (with_gray s (a_gray s) k') zh m' ph (evs ++ new) bl) p \/ current (mkWorld (with_gray s (a_gray s) k') zh m' ph (evs ++ new) bl) p v).
  { intros p v [Hm Hw]. cbn [y_agent y_zh y_tree] in *. destruct (decide (m' !! p = m !! p)) as [E|Hne].
    - destruct (Hkeep p Hw) as [Hw'|Hn]; [right; split; [cbn; congruence|done]|left; right; right; right; apply Happ; by right].
    - left. right. right. right. apply Happ. right. by apply Hnew. }
  split; try done.
  - exists vm. split; [done|]. apply (synced_step (mkWorld s zh m ph evs bl) _ vm); try done; auto.
  - intros Hz. destruct (Hse Hz) as [Hh _]. split; [done|by apply Ht'].
  - by apply Forall_app.
  - apply (in_hand_step (mkWorld s zh m ph evs bl)); try done; auto.
Qed.

Lemma inv_connected s zh m ph evs bl path s' m' :
  zh <> 0 -> global_watcher hostname zh SESSION_EVENT_DEF ZOO_CONNECTED_STATE path s = Some (tt, s') ->
  zk_tree (a_zk s') zh m' -> grows m m' -> (forall p, zk_watched (a_zk s) zh p -> zk_watched (a_zk s') zh p) ->
  inv (mkWorld s zh m ph evs bl) -> inv (mkWorld s' zh m' ph evs bl).
Proof.
  intros Hz Hrun Ht' Hg Hkeep [(vm & Hok & Hs) Hq Hse He Hu]. cbn [y_agent y_zh y_tree y_phase y_events] in *. destruct (Hse Hz) as [Hh _].
  destruct (session_parts _ _ (calm_session hostname zh ZOO_CONNECTED_STATE path s tt s' Hrun)) as (Es & Ew & Ep).
  assert (Hcov : forall p, covered (mkWorld s zh m ph evs bl) p -> covered (mkWorld s' zh m' ph evs bl) p).
  { intros p. apply covered_idle; try done; [cbn; by rewrite Ew|]. by left. }
  assert (Hcur : forall p v, current (mkWorld s zh m ph evs bl) p v -> current (mkWorld s' zh m' ph evs bl) p v).
  { intros p v [? ?]. split; [|by apply Hkeep]. cbn in *. by eapply lookup_weaken. }
  split; cbn [y_agent y_zh y_tree y_phase y_events]; rewrite ?Ew; try done.
  - exists vm. rewrite Es. split; [done|]. apply (synced_step (mkWorld s zh m ph evs bl) _ vm); try done; auto.
  - intros _. split; [by apply (connected_keeps zh path s)|done].
  - apply (in_hand_step (mkWorld s zh m ph evs bl)); try done; [|by auto..]. intros k. unfold pending. cbn [y_agent]. by rewrite Ep.
Qed.

(** A new session: the agent knows nothing of the nodes any more. *)
Lemma inv_new_session s zh m ph evs bl s' zh' m' :
  session_frame s s' -> session s' zh' m' -> inv (mkWorld s zh m ph evs bl) -> inv (mkWorld s' zh' m' (stale ph) [] (fun _ => True)).
Proof.
  intros Hf Hse' [(vm & Hok & _) Hq _ _ Hu]. destruct (session_parts _ _ Hf) as (Es & Ew & Ep). cbn [y_agent] in *.
  split; cbn [y_agent y_zh y_tree y_phase y_events]; rewrite ?Es, ?Ew; try done.
  - exists vm. split; [done|]. intros p tv _ _ _. by right; right; left.
  - unfold in_hand, pending in *. cbn [y_agent y_phase] in *. destruct ph as [| | |path ret val fresh|]; cbn [stale]; rewrite ?Ep; try done.
    destruct Hu as (? & ? & ? & ? & _). by do 4 (split; [done|]).
Qed.

Lemma inv_request s zh m ph evs bl key s' :
  add_watcher_node key s = Some (tt, s') -> inv (mkWorld s zh m ph evs bl) -> inv (mkWorld s' zh m ph evs bl).
Proof.
  intros Hrun [(vm & Hok & Hs) Hq Hse He Hu]. cbn [y_agent y_zh y_tree y_phase y_events] in *. unfold add_watcher_node in Hrun.
  destruct (decide (key = [])) as [|Hk]; [by injection Hrun as <-; split; eauto|]. injection Hrun as <-.
  assert (Hcov : forall p, covered (mkWorld s zh m ph evs bl) p ->
    covered (mkWorld (with_q s (set_watch (enqueue key (watch_nodes (a_q s))) (a_q s))) zh m ph evs bl) p).
  { intros p [?|[?|[?|?]]]; [left; cbn; rewrite enqueue_elem by done; by right|by right; left|by right; right; left|by right; right; right]. }
  split; try done.
  - exists vm. split; [done|]. apply (synced_step (mkWorld s zh m ph evs bl) _ vm); try done; auto.
  - by apply enqueue_ok.
  - apply (in_hand_step (mkWorld s zh m ph evs bl)); try done; auto.
Qed.

Lemma inv_elsewhere s zh m ph evs bl s' :
  a_shm s' = a_shm s -> thread_frame s s' -> inv (mkWorld s zh m ph evs bl) -> inv (mkWorld s' zh m ph evs bl).
Proof.
  intros Es [Ez Eh Ew Ep] [(vm & Hok & Hs) Hq Hse He Hu]. cbn [y_agent y_zh y_tree y_phase y_events] in *.
  assert (Hcov : forall p, covered (mkWorld s zh m ph evs bl) p -> covered (mkWorld s' zh m ph evs bl) p).
  { intros p. apply covered_idle; try done; [cbn; by rewrite Ew|]. by left. }
  assert (Hcur : forall p v, current (mkWorld s zh m ph evs bl) p v -> current (mkWorld s' zh m ph evs bl) p v).
  { intros p v [? ?]. split; [done|]. cbn in *. by rewrite Ez. }
  split; cbn [y_agent y_zh y_tree y_phase y_events]; unfold session; rewrite ?Ez, ?Eh, ?Ew; try done.
  - exists vm. rewrite Es. split; [done|]. apply (synced_step (mkWorld s zh m ph evs bl) _ vm); try done; auto.
  - apply (in_hand_step (mkWorld s zh m ph evs bl)); try done; auto. intros k. unfold pending. cbn [y_agent]. by rewrite Ep.
Qed.

Lemma inv_step y y' : step y y' -> inv y -> inv y'.
Proof.
  destruct 1; [by eapply inv_take|by eapply inv_mark|by eapply inv_read|by eapply inv_write|by eapply inv_gray|by apply inv_no_handle
    |by eapply inv_other|by eapply inv_unmark|by eapply inv_event|by apply inv_change|by eapply inv_connected| | |by eapply inv_request|by eapply inv_elsewhere].
  - apply inv_new_session; [|done]. by eapply calm_session.
  - apply inv_new_session; [|done]. by eapply calm_get_zhandle.
Qed.

Lemma inv_steps y y' : rtc step y y' -> inv y -> inv y'.
Proof. induction 1; eauto using inv_step. Qed.

(** ** A round of the main thread is such a sequence of steps *)

Lemma deque_step_steps path rest s zh m evs bl ret val k r s4 :
  let key := key_of path in
  let s2 := with_q s (set_pending ({[key]} ∪ pending_nodes (a_q s))
              (set_watch (mkQueue rest (q_exist (watch_nodes (a_q s)) ∖ {[key]})) (a_q s))) in
  let s3 := with_gray s2 (a_gray s) k in
  q_need (watch_nodes (a_q s)) = key :: rest -> valid path -> in_use key -> idc <> [] ->
  idc_conf_map (a_conf s) !! idc = Some host -> ht_idchost_handle (a_ht s) !! serialize_to_idc_host idc host = Some zh -> zh <> 0 ->
  gray_nodes (a_gray s) !! key = None -> zk_get_node buf_ok zh path [] true (a_zk s) = Some ((ret, val), k) ->
  (forall vm, shm_ok (a_shm s3) vm -> fits key vm) -> dump_sane (a_dump s3) -> settle key ret val s3 = Some (r, s4) ->
  exists s', deque_step buf_ok hostname s = Some (tt, s') /\ a_shm s' = a_shm s4 /\
    rtc step (mkWorld s zh m Idle evs bl) (mkWorld s' zh m Idle evs (marked (seen true ret r) path bl)).
Proof.
  cbn zeta. intros Hq Hp Hu Hi Hc Hh Hz Hg Hget Hfit Hd Hset. set (key := key_of path) in *.
  set (s1 := with_q s (set_watch (mkQueue rest (q_exist (watch_nodes (a_q s)) ∖ {[key]})) (a_q s))).
  set (s2 := with_q s _) in Hset, Hfit, Hd. set (s3 := with_gray s2 _ k) in Hset, Hfit, Hd.
  assert (Hread : on_zk (zk_get_node buf_ok zh path [] true) s2 = Some ((ret, val), s3)) by (by unfold on_zk; cbn; rewrite Hget).
  assert (Hrun : set_watcher_and_update_tbl buf_ok hostname key s2 = Some (r, s4)).
  { unfold set_watcher_and_update_tbl. erewrite SM_bind_Some; [|reflexivity]. unfold is_gray_node. cbn [s2 with_q a_gray]. rewrite Hg.
    cbv beta iota. unfold key at 1, key_of at 1, nkey. rewrite key_read by (done || destruct Hp; lia). cbv beta iota.
    erewrite SM_bind_Some.
    2: { unfold get_zhandle_by_idc. rewrite decide_False by done. erewrite SM_bind_Some; [|reflexivity]. unfold get_idc_conf.
         rewrite decide_False by done. cbn [s2 with_q a_conf]. rewrite Hc. cbn [Z.eqb QCONF_OK negb]. unfold ih_find, lock_ht_find.
         erewrite SM_bind_Some; [|reflexivity]. change (a_ht s2) with (a_ht s). rewrite Hh. destruct (Z.eqb_spec zh 0); [done|]. reflexivity. }
    destruct (Z.eqb_spec zh 0); [done|]. cbn [negb]. rewrite decide_True by done. unfold process_node. unfold settle in Hset.
    apply SM_bind_inv in Hset as (r1 & s5 & Hf & Hset). erewrite SM_bind_Some; [|erewrite SM_bind_Some; [|exact Hread]; exact Hf]. exact Hset. }
  eexists. split; [by eapply (deque_step_ok _ _ key rest); [|apply key_of_ne|]|]. split; [done|].
  eapply rtc_l; [apply (s_take s zh m evs bl key s1); [unfold take_watch_node, on_q, dequeue; by rewrite Hq|apply key_of_ne|done]|].
  eapply rtc_l; [by apply (s_mark s1 zh m evs bl key s2)|]. eapply rtc_l; [by apply (s_read s2 zh m evs bl path ret val s3)|].
  eapply rtc_l; [by apply (s_write s3 zh m evs bl path ret val true r s4)|]. by apply rtc_once, s_unmark.
Qed.

(** ** No lost update *)

(** The agent starts, perhaps with the table of its predecessor: values it has not read itself. *)
Definition starts (y : world) : Prop :=
  (exists vm, shm_ok (a_shm (y_agent y)) vm /\ forall path, valid path -> in_use (key_of path) -> in_table vm (key_of path) ->
     key_of path ∈ q_need (watch_nodes (a_q (y_agent y))) \/ y_blind y path) /\
  queue_ok (watch_nodes (a_q (y_agent y))) /\ session (y_agent y) (y_zh y) (y_tree y) /\ y_phase y = Idle /\ y_events y = [].

(** C3. No change of a node is lost, however the main thread, the callback of the ZooKeeper client, clients,
    the other threads and changes of ZooKeeper are interleaved, whether reads fail, the dump is read, the
    table is full, gray releases override keys, the connection is lost or sessions end and are opened again:
    in every reachable state a node's value in the table is the one ZooKeeper holds; or the node is going to be read
    again (its key is queued or was just taken, or an event for it is on its way); or the main thread holds
    a result that it is about to write; or the agent is blind for the node, that is, the last time it
    processed the key it could not read the node or not store its value, or a gray release overrode it, or
    that was in another session or before the agent started. It is not blind for a node from the moment it
    stores what a read in this session said until one of these happens. The keys in use have different
    identities in the table, buckets stay under 32767 keys, and the dump is open. *)
Theorem no_lost_update y0 y :
  starts y0 -> rtc step y0 y ->
  exists vm, shm_ok (a_shm (y_agent y)) vm /\
    forall path tv, valid path -> in_use (key_of path) -> vm !! s_ident (key_of path) = Some tv ->
      (exists v, y_tree y !! path = Some v /\ tv = nodeval_to_tblval (key_of path) v) \/
      covered y path \/ in_hands y path \/ y_blind y path.
Proof.
  intros ((vm0 & Hs & Hst) & Hq & Hse & Hp & He) Hsteps. assert (Hinv : inv y).
  { apply (inv_steps _ _ Hsteps). split; try done.
    - exists vm0. split; [done|]. intros path tv Hv Hu Hl. destruct (Hst path Hv Hu ltac:(by eexists)); [by left; left|by right; right; left].
    - by rewrite He.
    - unfold in_hand. by rewrite Hp. }
  destruct Hinv as [(vm & Hok & Hsync) _ _ _ _]. exists vm. split; [done|]. intros path tv Hv Hu Hl.
  destruct (Hsync path tv Hv Hu Hl) as [?|[?|[?|(v & [? _] & ->)]]]; eauto.
Qed.

(** The map that a table stores is determined for every key. *)
Lemma shm_ok_unique (x : shm T) vm vm' key : shm_ok x vm -> shm_ok x vm' -> key <> [] -> vm !! s_ident key = vm' !! s_ident key.
Proof.
  intros Hx Hx' Hk. destruct (hash_tbl_get_ok key [] x vm Hx Hk) as (t1 & E1 & _).
  destruct (hash_tbl_get_ok key [] x vm' Hx' Hk) as (t2 & E2 & _). rewrite E1 in E2. injection E2 as E2 _. by repeat case_match; simplify_eq.
Qed.
End Sync.

(** ** Witness: a client asks for a node, which then changes *)

Section Witness.
Import HashArr.
#[local] Existing Instance laws40.

(** A client library that watches every node. *)
#[local] Instance mem_zk_watch : ZkWatch (gmap bytes bytes) := {|
  zk_watched _ _ _ := True;
  zoo_get_watch _ _ _ _ _ _ _ _ := I;
  zoo_get_keeps _ _ _ _ _ _ _ _ _ := I
|}.

Lemma demo_fits_any vm : shm_ok demo_shm vm -> fits demo_key vm.
Proof.
  intros Hok. split; [discriminate|]. split; [reflexivity|].
  rewrite (s_rep_unique _ _ _ (sk_rep _ _ Hok) (sk_rep _ _ demo_shm_ok)). apply demo_load.
Qed.

Lemma demo_dump : dump_sane (mkDump (str "d") true (∅ : gmap bytes bytes)).
Proof. exists ∅. split; [split; [reflexivity|split; [discriminate|reflexivity]]|apply map_Forall_empty]. Qed.

Lemma demo_read : zk_get_node true 1 (str "/a") [] true demo_tree = Some ((QCONF_OK, str "10.0.0.1"), demo_tree).
Proof.
  unfold zk_get_node. rewrite c_str_no_nul by (apply (bool_decide_unpack _); vm_compute; exact I). cbn [negb QCONF_GET_RETRIES retry].
  erewrite SM_bind_Some; [|reflexivity]. reflexivity.
Qed.

Definition new_tree : gmap bytes bytes := {[ str "/a" := str "10.0.0.2" ]}.

(** The main thread reads the node and stores its value; then the node changes, and an event is sent. The
    table holds the old value, ZooKeeper the new one: the theorem says that the key will be read again. *)
Lemma no_lost_update_witness :
  exists (s1 s2 : agent hstate (gmap bytes bytes) (gmap bytes bytes) (list bytes)) vm evs, deque_step true (str "h") s1 = Some (tt, s2) /\ shm_ok (a_shm s2) vm /\
    vm !! s_ident demo_key = Some (nodeval_to_tblval demo_key (str "10.0.0.1")) /\
    covered (str "bj") (mkWorld (with_gray s2 (a_gray s2) new_tree) 1 new_tree Idle evs (fun _ => False)) (str "/a").
Proof.
  set (s := demo_agent demo_tree [] no_queues). set (s1 := with_q s (set_watch (enqueue demo_key no_queue) no_queues)).
  set (iu := fun k : bytes => k = demo_key). assert (Hinj : forall k k', iu k -> iu k' -> s_ident k = s_ident k' -> k = k') by (intros k k' -> ->; reflexivity).
  assert (Hv : valid (str "/a")) by (split; [apply (bool_decide_unpack _); vm_compute; exact I|reflexivity]).
  set (s2' := with_q s1 (set_pending ({[demo_key]} ∪ pending_nodes (a_q s1)) (set_watch (mkQueue [] (q_exist (watch_nodes (a_q s1)) ∖ {[demo_key]})) (a_q s1)))).
  set (s3 := with_gray s2' (a_gray s1) demo_tree).
  destruct (finish_node_ok demo_key QCONF_OK (str "10.0.0.1") s3 ∅ demo_shm_ok demo_fits eq_refl)
    as (r & s4 & vm4 & Hfin & Hok4 & _ & _ & Hpub & _).
  destruct (Hpub eq_refl) as [[-> Hl4]|(_ & _ & Hn)]; [|destruct Hn; vm_compute; discriminate].
  assert (Hset : settle demo_key QCONF_OK (str "10.0.0.1") s3 = Some (QCONF_OK, s4)) by (unfold settle; rewrite (SM_bind_Some _ _ _ _ _ Hfin); reflexivity).
  pose proof (deque_step_steps true (str "h") (str "bj") demo_host_list eq_refl iu (str "/a") [] s1 1 demo_tree [] (fun _ => False)
    QCONF_OK (str "10.0.0.1") demo_tree QCONF_OK s4) as Hround. cbn zeta in Hround.
  specialize (Hround eq_refl Hv eq_refl ltac:(discriminate) eq_refl ltac:(vm_compute; reflexivity) ltac:(discriminate) eq_refl demo_read demo_fits_any demo_dump Hset).
  destruct Hround as (s2 & Hdq & Es2 & Hsteps).
  exists s1, s2, vm4, [(CHANGED_EVENT_DEF, str "/a")]. split; [exact Hdq|]. split; [rewrite Es2; exact Hok4|]. split; [exact Hl4|].
  set (y := mkWorld (with_gray s2 (a_gray s2) new_tree) 1 new_tree Idle [(CHANGED_EVENT_DEF, str "/a")] (marked true (str "/a") (fun _ => False))).
  destruct (no_lost_update true (str "h") (str "bj") demo_host_list eq_refl eq_refl iu Hinj (mkWorld s 1 demo_tree Idle [] (fun _ => False)) y)
    as (vm & Hok & Hall).
  - split; [exists ∅; split; [apply demo_shm_ok|intros path _ _ Hin; destruct Hin as [v E]; rewrite lookup_empty in E; discriminate E]|].
    split; [apply no_queue_ok|]. split; [intros _; split; [vm_compute; reflexivity|small_tree]|]. split; reflexivity.
  - eapply rtc_l; [apply (s_request _ _ _ _ _ s 1 demo_tree Idle [] (fun _ => False) demo_key s1); reflexivity|].
    etrans; [exact Hsteps|]. apply rtc_once. apply (s_change _ _ _ _ _ s2 1 demo_tree Idle [] _ new_tree new_tree [(CHANGED_EVENT_DEF, str "/a")]).
    + intros _. small_tree.
    + intros p Hp _. left. destruct (decide (p = str "/a")) as [->|Hne]; [apply list_elem_of_singleton; reflexivity|].
      destruct Hp. unfold new_tree, demo_tree. rewrite !lookup_singleton_ne by congruence. reflexivity.
    + intros p _. left. exact I.
    + repeat constructor. discriminate.
  - assert (Hl : vm !! s_ident demo_key = Some (nodeval_to_tblval demo_key (str "10.0.0.1"))).
    { rewrite <- Hl4. apply (shm_ok_unique (a_shm s2)); [exact Hok|rewrite Es2; exact Hok4|discriminate]. }
    destruct (Hall (str "/a") _ Hv eq_refl Hl) as [(v & Ht & Ev)|[Hc|[(? & ? & ? & Hg)|Hb]]]; [|exact Hc|discriminate Hg|].
    + exfalso. vm_compute in Ht. injection Ht as <-. vm_compute in Ev. discriminate Ev.
    + exfalso. change (marked true (str "/a") (fun _ => False) (str "/a")) in Hb. unfold marked in Hb. rewrite decide_True in Hb by reflexivity. discriminate Hb.
Defined.
End Witness.
End Sync.
