(* ===== verification/Together.v ===== *)
(** * A client and the agent on one machine

    The client's system is the agent: the message queue is the agent's, the table is the one segment that
    both have attached, and while the client sleeps between two looks at the table the threads of the agent
    may get their turn. The classes of the system and the theorems about the client are instantiated with
    this machine. *)

From S2P Require Import Prelude Common Text HashArr HashArrInv HashArrPut Format FormatThm Store Shm ShmThm Sys Config Dump Zoo Gray Script Feedback Agent Watcher WatcherQueue Driver DriverThm WatcherThm.

(** One segment seen by two processes: [attach own t] is the table [t] with the [errno] of the process that
    sees [own]. *)
Class Attach (T : Type) := attach : T -> T -> T.

Class AttachLaws (T : Type) `{StoreLaws T} `{Attach T} := {
  attach_same : forall own t, s_same t (attach own t);
  attach_view : forall own t t', s_same t t' -> attach own t = attach own t'
}.

#[export] Instance hstate_attach : Attach HashArr.hstate := fun own t => HashArr.HS (HashArr.h_errno own) (HashArr.h_tbl t).

Lemma hstate_attach_laws `{HashArr.KeyDigest} n (Hn : 0 < n < 2 ^ 31) : @AttachLaws HashArr.hstate _ (hasharr_laws n Hn) _.
Proof. split; [done|]. intros own t t' E. unfold attach, hstate_attach. by rewrite E. Qed.

Module Together.
Import Format Shm Msg Config Driver Dump Zoo Gray Script Feedback Agent Watcher WatcherQueue WatcherThm.

Section Machine.
Context {T G K W : Type} `{!Store T} `{!StoreLaws T} `{!Attach T} `{GdbmLaws G} `{ZkLaws K} `{!OS W T} `{Host W}.
Variables (buf_ok : bool) (hostname : bytes).
Implicit Types (s : agent T G K W) (t : T) (vm : gmap kid bytes) (m dm : gmap bytes bytes).

(** The agent, and how many pauses of the client it still lets pass before it gets its turn. *)
Record machine := mkMachine { m_pauses : nat; m_agent : agent T G K W }.

(** The agent as it sees the table [t]. *)
Definition share t s : agent T G K W := with_shm s (mkShm (attach (sh_tbl (a_shm s)) t) (lruInstance (a_shm s))).

(** A turn of the agent: its message thread takes a message, then its main thread a key. *)
Definition turn : SM (agent T G K W) unit := msg_step [];; deque_step buf_ok hostname.

Definition on_agent {A} (c : SM W A) : SM machine A := fun y =>
  match c (a_sys (m_agent y)) with
  | Some (r, w) => Some (r, mkMachine (m_pauses y) (with_sys (m_agent y) (a_fb (m_agent y)) w))
  | None => None
  end.

Definition pause (yt : machine * T) : machine * T :=
  let '(mkMachine n s, t) := yt in
  match n with
  | S n' => (mkMachine n' s, t)
  | O => match turn (share t s) with Some (_, s') => (mkMachine O s', attach t (sh_tbl (a_shm s'))) | None => (mkMachine O s, t) end
  end.

#[local] Instance machine_os : OS machine T := {|
  os_shmget k z f := on_agent (os_shmget (T := T) k z f);
  os_shmat i f := on_agent (os_shmat (T := T) i f);
  os_msgget k f := on_agent (os_msgget (T := T) k f);
  os_msgsnd i b := on_agent (os_msgsnd (T := T) i b);
  os_msgrcv i n := on_agent (os_msgrcv (T := T) i n);
  os_usleep _ := pause;
  os_rand := on_agent (os_rand (T := T))
|}.

Lemma on_agent_total {A} (c : SM W A) y : (exists r o, c (a_sys (m_agent y)) = Some (r, o)) -> exists r y', on_agent c y = Some (r, y').
Proof. intros (r & o & E). unfold on_agent. rewrite E. eauto. Qed.

#[local] Instance machine_total `{!OSTotal W T} : OSTotal machine T.
Proof.
  split; intros; cbn;
    try by (apply on_agent_total; eauto using shmget_total, shmat_total, msgget_total, msgsnd_total, msgrcv_total).
  destruct (rand_total (T := T) (a_sys (m_agent o))) as (r & w & E & Hr). unfold on_agent. rewrite E. eauto.
Qed.

#[local] Instance machine_local `{!AttachLaws T} : OSLocal (W := machine) (T := T).
Proof.
  intros us [[n s] t] [y t'] [E1 E2]. cbn in E1, E2. subst y. cbn. destruct n as [|n]; [|by split].
  unfold share. rewrite (attach_view _ _ _ E2). destruct (turn _) as [[[] s']|]; [|by split].
  split; [done|]. cbn. etrans; [symmetry; apply attach_same|apply attach_same].
Qed.

(** ** What the client sees while it waits *)

Lemma path_in_key idc path : blen path <= blen (serialize_to_tblkey QCONF_DATA_TYPE_NODE idc path).2.
Proof.
  change (serialize_to_tblkey _ _ _).2 with (qconf_append_path (qconf_append_idc [QCONF_DATA_TYPE_NODE] idc) path).
  unfold qconf_append_path. rewrite append_field, blen_app, blen_field. pose proof (blen_nonneg (qconf_append_idc [QCONF_DATA_TYPE_NODE] idc)). lia.
Qed.

Lemma env_waits k j s t : env k (mkMachine (k + j) s, t) = (mkMachine j s, t).
Proof. induction k as [|k IH]; [done|]. exact IH. Qed.

Lemma env_turn d s t s' :
  turn (share t s) = Some (tt, s') -> env (S d) (mkMachine d s, t) = (mkMachine 0 s', attach t (sh_tbl (a_shm s'))).
Proof. intros E. induction d as [|d IH]; [|exact IH]. cbn. by rewrite E. Qed.

Lemma sees_table y t vm key : tbl_holds t vm -> sees (W := machine) (y, t) key (vm !! s_ident key).
Proof. intros Hh. by exists vm. Qed.

(** Sending the key when the queue has room. *)
Lemma client_sends d s t msqid key e w :
  key <> [] -> blen key < QCONF_MAX_MSG_LEN -> os_msgsnd (T := T) msqid key (a_sys s) = Some ((0, e), w) ->
  send_msg msqid key (mkMachine d s, t) = Some (QCONF_OK, (mkMachine d (with_sys s (a_fb s) w), t)).
Proof.
  intros Hn Hl E. unfold send_msg. rewrite decide_False by done. rewrite (proj2 (Z.leb_gt _ _) Hl). cbn [send_loop].
  erewrite SM_bind_Some; [|apply sys_ok; cbn; unfold on_agent; cbn; by rewrite E]. done.
Qed.

Section Client.
Context `{!AttachLaws T} `{!OSTotal W T}.

Lemma shared_holds s t vm : shm_ok (a_shm (share t s)) vm -> tbl_holds t vm.
Proof. intros [Hr Hv _ _]. apply (holds_same (attach (sh_tbl (a_shm s)) t)); [symmetry; apply attach_same|by split]. Qed.

(** A waiting client, by the number of pauses before the agent's turn. *)
Lemma client_waits d idc core buf s t msqid vm w e :
  let path := delim :: core in
  let key := (serialize_to_tblkey QCONF_DATA_TYPE_NODE idc path).2 in
  let s1 := with_sys s (a_fb s) w in
  let p := mkProc (mkMachine d s) t true msqid in
  tbl_holds t vm -> vm !! s_ident key = None -> idc <> [] -> msqid <> QCONF_INVALID_SEM_ID ->
  blen key < QCONF_MAX_MSG_LEN -> os_msgsnd (T := T) msqid key (a_sys s) = Some ((0, e), w) ->
  ((100 <= d)%nat -> exists p', qconf_get path buf idc QCONF_WAIT p = Some ((QCONF_ERR_NOT_FOUND, buf), p') /\
     pr_sys p' = mkMachine (d - 100) s1) /\
  ((d < 100)%nat -> forall s2 vm2 val, turn (share t s1) = Some (tt, s2) -> tbl_holds (sh_tbl (a_shm s2)) vm2 ->
     vm2 !! s_ident key = Some (nodeval_to_tblval key val) -> blen val < 2 ^ 32 ->
     exists p', qconf_get path buf idc QCONF_WAIT p = Some ((QCONF_OK, val), p') /\ pr_sys p' = mkMachine 0 s2).
Proof.
  cbn zeta. set (path := delim :: core). set (key := (serialize_to_tblkey QCONF_DATA_TYPE_NODE idc path).2).
  set (s1 := with_sys s (a_fb s) w). set (p := mkProc (mkMachine d s) t true msqid). intros Hh Hl Hi Hq Hk Hsnd.
  pose proof (key_ne QCONF_DATA_TYPE_NODE idc path) as Hne.
  destruct (miss_asks path [] QCONF_DATA_TYPE_NODE idc idc QCONF_WAIT p vm (mkMachine d s1, t)) as (p1 & Hp1 & Hs1 & Hrun);
    [done|done|by apply idc_given|done|done|by apply (client_sends _ _ _ _ _ e)|].
  assert (Hno : forall k j, sees (env k (mkMachine (k + j) s1, t)) key None).
  { intros k j. rewrite env_waits, <- Hl. by apply sees_table. }
  split.
  - intros Hd. destruct (wait_miss 100 key [] p1 (mkMachine d s1, t) Hp1 Hne Hs1) as (p' & Hw & He).
    { intros j Hj. replace d with (j + (d - j))%nat by lia. apply Hno. }
    exists p'. split; [|rewrite He; replace d with (100 + (d - 100))%nat at 1 by lia; by rewrite env_waits].
    unfold qconf_get. rewrite decide_False by done. rewrite (SM_bind_Some _ _ _ _ _ (eq_trans Hrun Hw)). done.
  - intros Hd s2 vm2 val Ht Hh2 Hl2 Hv.
    destruct (wait_hit d 100 key [] QCONF_ERR_NOT_FOUND p1 (mkMachine d s1, t) (nodeval_to_tblval key val) Hp1 Hne Hs1 Hd) as (p' & Hw & _ & He).
    { intros j Hj. replace d with (j + (d - j))%nat by lia. apply Hno. }
    { rewrite (env_turn _ _ _ _ Ht), <- Hl2. apply sees_table. by apply (holds_same (sh_tbl (a_shm s2))); [apply attach_same|]. }
    exists p'. split; [|by rewrite He, (env_turn _ _ _ _ Ht)]. apply qconf_get_value; [done|done|]. by rewrite Hrun.
Qed.

(** C4. A client that waits is served. It finds nothing, sends the key and sleeps; the agent gets its turn
    in the [d]-th pause after that one: the message thread takes the key and the main thread reads the node
    from a ZooKeeper that answers and stores it. When that is within the 100 pauses of the client, the call
    returns the value of the node, with a NUL, in the caller's buffer, for any spelling of the path and
    however the agent's table and ZooKeeper looked otherwise; the client pauses exactly until the agent's
    turn. When the agent gets no turn within 100 pauses, the call returns "not found" with the buffer as it
    was, and the request is still in the agent's message queue. *)
Theorem waiting_client_served d idc host nb core na val s t vm m dm msqid w e w' e' buf buf_len :
  let path := delim :: core in
  let key := (serialize_to_tblkey QCONF_DATA_TYPE_NODE idc path).2 in
  let seen := share t s in
  serving seen idc host vm m dm -> answers buf_ok seen idc host -> m !! path = Some val ->
  core_path core -> idc <> [] -> blen idc < 256 -> (x00 ∉ path) -> blen key < QCONF_MAX_MSG_LEN -> fits key vm ->
  vm !! s_ident key = None -> gray_nodes (a_gray s) !! key = None -> roomy seen (nodeval_to_tblval key val) ->
  watch_nodes (a_q s) = no_queue -> stop_watcher_setting (a_set s) = false ->
  os_msgsnd (T := T) msqid key (a_sys s) = Some ((0, e), w) ->
  os_msgrcv (T := T) (msg_queue_id (a_set s)) QCONF_MAX_MSG_LEN w = Some ((Some key, e'), w') ->
  msqid <> QCONF_INVALID_SEM_ID -> blen val < buf_len <= blen buf ->
  exists p', qconf_get_conf (Some (slashes nb ++ core ++ slashes na)) (Some buf) buf_len (Some idc)
      (mkProc (mkMachine d s) t true msqid) =
      Some (if decide (d < 100)%nat then (QCONF_OK, Some (val ++ [x00] ++ drop (S (length val)) buf))
            else (QCONF_ERR_NOT_FOUND, Some buf), p') /\
    if decide (d < 100)%nat
    then exists s', turn (share t (with_sys s (a_fb s) w)) = Some (tt, s') /\ pr_sys p' = mkMachine 0 s'
    else pr_sys p' = mkMachine (d - 100) (with_sys s (a_fb s) w).
Proof.
  cbn zeta. set (path := delim :: core). set (key := (serialize_to_tblkey QCONF_DATA_TYPE_NODE idc path).2).
  intros Hs Ha Hm Hc Hi Hil Hpz Hkl Hk Hmiss Hg Hroom Hq Hstop Hsnd Hrcv Hid Hbuf.
  set (s1 := with_sys s (a_fb s) w).
  assert (Hf : queue_frame (share t s) (share t s1)) by by split.
  destruct (request_round buf_ok hostname idc host path val (share t s1) vm m dm w' e') as (a1 & a2 & vm2 & Hmsg & Hdq & _ & Hh2 & Hl2 & Hv);
    try done; [by apply (serving_frame (share t s))|pose proof (path_in_key idc path); unfold QCONF_MAX_MSG_LEN, key in Hkl; lia|].
  assert (Ht : turn (share t s1) = Some (tt, a2)).
  { unfold turn. by rewrite (SM_bind_Some _ _ _ _ _ Hmsg). }
  destruct (client_waits d idc core [] s t msqid vm w e) as [Hlate Hearly]; try done; [apply (shared_holds s); by destruct Hs|].
  unfold qconf_get_conf. rewrite qconf_get_conf_buffer by (try done; pose proof (blen_nonneg val); lia).
  change (c_idc (Some idc)) with idc. fold path. destruct (decide (d < 100)%nat) as [Hd|Hd].
  - destruct (Hearly Hd a2 vm2 val Ht Hh2 Hl2 Hv) as (p' & Hrun & Hsys). fold path in Hrun. rewrite Hrun. exists p'.
    cbn [Z.eqb QCONF_OK negb]. destruct (Z.leb_spec buf_len (blen val)); [lia|]. split; [done|]. by exists a2.
  - destruct (Hlate ltac:(lia)) as (p' & Hrun & Hsys). fold path in Hrun. rewrite Hrun. by exists p'.
Qed.
End Client.
End Machine.

Section Witness.
Import HashArr.
#[local] Existing Instance laws40.
#[local] Existing Instance quiet_os_total.
#[local] Instance attach40 : AttachLaws hstate := hstate_attach_laws 40 _.

(** The agent gets its turn in the fourth pause. *)
Lemma waiting_client_served_witness :
  let os := machine_os (T := hstate) true (str "h") in
  exists p', @qconf_get_conf _ _ os _ (Some (str "//a/")) (Some (replicate 16 xff)) 16 (Some (str "bj"))
      (mkProc (mkMachine 3 (demo_agent demo_tree [] no_queues)) (sh_tbl demo_shm) true 5) =
    Some ((QCONF_OK, Some (str "10.0.0.1" ++ [x00] ++ replicate 7 xff)), p').
Proof.
  intros os. destruct (waiting_client_served true (str "h") 3 (str "bj") demo_host_list 2 (str "a") 1 (str "10.0.0.1")
    (demo_agent demo_tree [] no_queues) (sh_tbl demo_shm) ∅ demo_tree ∅ 5 [demo_key] 0 [] 0 (replicate 16 xff) 16
    (demo_serving _ _) (demo_answers _ _)) as (p' & Hrun & _);
    [vm_compute; reflexivity|apply core_a|discriminate|reflexivity|apply (bool_decide_unpack _); vm_compute; exact I
    |vm_compute; reflexivity|apply demo_fits|reflexivity|reflexivity|vm_compute; discriminate|reflexivity|reflexivity
    |vm_compute; reflexivity|vm_compute; reflexivity|discriminate|split; [reflexivity|vm_compute; discriminate]|].
  exists p'. exact Hrun.
Defined.
End Witness.
End Together.
