(* ===== verification/Log.v ===== *)
(** * Logging ([src/base/qconf_log.cc], [src/monitor/src/monitor_log.cc])

    A line is put together in a buffer of fixed size: a head with the time, the process, the level and the
    place, and as much of the message as fits. It goes to a file whose name follows the time. Elsewhere in
    the development the calls of the log are left out; here it is a component of its own. The text of a
    message is what its format makes of its arguments. *)

From S2P Require Import Prelude Common Text Format.

Record tm := mkTm { tm_year : Z; tm_mon : Z; tm_mday : Z; tm_hour : Z; tm_min : Z; tm_sec : Z }.

Inductive stream := Stderr | File (name : bytes).

Class LogSys (W : Type) := {
  log_localtime : SM W tm;                    (* time and localtime *)
  log_getpid : SM W Z;
  log_strftime : bytes -> tm -> bytes;        (* the whole text that a format stands for *)
  log_fopen : bytes -> SM W bool;             (* for appending; whether it succeeded *)
  log_fclose : stream -> SM W unit;
  log_fwrite : stream -> bytes -> SM W unit   (* with the flush *)
}.

(** The log of the ZooKeeper client. *)
Class ZooLog (W : Type) := {
  zlog_fopen : bytes -> SM W bool;
  zlog_set : SM W unit;                (* zoo_set_log_stream to the open file, and the level *)
  zlog_fclose : SM W unit
}.

(** [printf] conversions with a width: padded with blanks, or with zeros. *)
Definition pad_blank (n : nat) (z : Z) : bytes := let s := print_dec z in replicate (n - length s) x20 ++ s.
Definition pad_zero (n : nat) (z : Z) : bytes :=
  let s := print_dec (Z.abs z) in let sign := if z <? 0 then [x2d] else [] in
  sign ++ replicate (n - length s - length sign) x30 ++ s.

(** [strncmp] of two C strings is zero. *)
Definition strncmp_eq (n : nat) (a b : bytes) : bool := bool_decide (take n (a ++ [x00]) = take n (b ++ [x00])).

(** The time as both logs print it. *)
Definition time_text (t : tm) : bytes :=
  pad_blank 4 (tm_year t + 1900) ++ str "/" ++ pad_zero 2 (tm_mon t + 1) ++ str "/" ++ pad_zero 2 (tm_mday t) ++ str " " ++
  pad_zero 2 (tm_hour t) ++ str ":" ++ pad_zero 2 (tm_min t) ++ str ":" ++ pad_zero 2 (tm_sec t) ++ str " - ".

(** What [snprintf] leaves in a buffer of [size] bytes, as a C string. *)
Definition snprintf (size : Z) (text : bytes) : bytes := take (Z.to_nat (size - 1)) text.

Module Log.

Definition QCONF_LOG_LVL_MAX : Z := 10.
Definition QCONF_LOG_FATAL_ERR : Z := 5.
Definition QCONF_LOG_ERR : Z := 4.
Definition QCONF_LOG_WARN : Z := 3.
Definition QCONF_LOG_INFO : Z := 2.
Definition QCONF_LOG_TRACE : Z := 1.
Definition QCONF_LOG_DEBUG : Z := 0.
Definition QCONF_FILE_PATH_LEN : Z := 2048.

(** The variables of the file; [log_fp] is [None] for NULL. *)
Record log := mkLog { log_path : bytes; log_path_fmt : bytes; log_level : Z; log_fp : option stream }.
Definition initial_log : log := mkLog [] [] QCONF_LOG_LVL_MAX None.

Section Log.
Context {W : Type} `{LogSys W}.
Abbreviation LM := (SM (log * W)).

Definition sysl {A} (c : SM W A) : LM A := fun s =>
  match c (snd s) with Some (a, w) => Some (a, (fst s, w)) | None => None end.
Definition upd_log (f : log -> log) : LM unit := modify (fun s => (f (fst s), snd s)).
Definition set_fp (fp : option stream) : LM unit := upd_log (fun l => mkLog (log_path l) (log_path_fmt l) (log_level l) fp).
Definition set_path (p : bytes) : LM unit := upd_log (fun l => mkLog p (log_path_fmt l) (log_level l) (log_fp l)).

Definition qconf_set_log_level (level : Z) : LM unit :=
  upd_log (fun l => mkLog (log_path l) (log_path_fmt l) level (log_fp l)).

Definition qconf_set_log_fmt (log_path_fmt : bytes) : LM unit :=
  if decide (log_path_fmt = []) then mret tt else upd_log (fun l => mkLog (log_path l) log_path_fmt (log_level l) (log_fp l)).

Definition qconf_log_init (log_path_fmt : bytes) (level : Z) : LM unit :=
  qconf_set_log_fmt log_path_fmt;;
  qconf_set_log_level level.

(** Close the stream unless it is NULL or stderr. *)
Definition qconf_close_log_stream : LM unit :=
  fp ← gets (fun s => log_fp (fst s));
  match fp with
  | Some (File name) => sysl (log_fclose (File name));; set_fp None
  | _ => mret tt
  end.

(** The mutex is left out. *)
Definition qconf_destroy_log : LM unit := qconf_close_log_stream.

(** [strftime] into the buffer: the text and its length, or no text and 0 when it does not fit. *)
Definition strftime_path (fmt : bytes) (t : tm) : bytes :=
  let text := log_strftime (W := W) (c_str fmt) t in
  if QCONF_FILE_PATH_LEN <? blen text + 1 then [] else text.

Definition open_path (path : bytes) : LM Z :=
  opened ← sysl (log_fopen (c_str path));
  set_fp (if (opened : bool) then Some (File (c_str path)) else None);;
  mret (if (opened : bool) then QCONF_OK else QCONF_ERR_OPEN).

Definition qconf_check_log (cur_tm : tm) : LM Z :=
  l ← gets fst;
  if decide (log_path_fmt l = []) then
    set_fp (match log_fp l with None => Some Stderr | fp => fp end);;
    mret QCONF_OK
  else
    let path := strftime_path (log_path_fmt l) cur_tm in
    if negb (strncmp_eq (length path) path (c_str (log_path l))) then
      qconf_close_log_stream;;
      set_path (c_str path);;
      open_path (c_str path)
    else
      match log_fp l with
      | None => open_path (log_path l)
      | Some _ => mret QCONF_OK
      end.

Definition qconf_get_log_level (level : Z) : bytes :=
  if level =? QCONF_LOG_FATAL_ERR then str "FATAL ERROR"
  else if level =? QCONF_LOG_ERR then str "ERROR"
  else if level =? QCONF_LOG_WARN then str "WARNING"
  else if level =? QCONF_LOG_INFO then str "INFO"
  else if level =? QCONF_LOG_TRACE then str "TRACE"
  else if level =? QCONF_LOG_DEBUG then str "DEBUG"
  else str "UNKNOWN".

(** What follows the last slash. *)
Fixpoint base_name (path : bytes) : bytes :=
  match path with
  | [] => []
  | b :: path' => if decide (x2f ∈ path') then base_name path' else if decide (b = x2f) then path' else path
  end.

(** The head of a line. *)
Definition head_text (t : tm) (pid level : Z) (file_name : bytes) (line_no : Z) : bytes :=
  time_text t ++ str "[pid: " ++ print_dec pid ++ str "][" ++ qconf_get_log_level level ++ str "][" ++ file_name ++ str " " ++
  print_dec line_no ++ str "] - ".

(** [message] is the text of the format and its arguments. [None] is a write outside [log_buf]. *)
Definition qconf_print_log (file_path : option bytes) (line_no level : Z) (message : option bytes) : LM unit :=
  l ← gets fst;
  match file_path, message with
  | Some file_path, Some message =>
      if level <? log_level l then mret tt else
      cur_tm ← sysl log_localtime;
      ret ← qconf_check_log cur_tm;
      if negb (ret =? QCONF_OK) then mret tt else
      pid ← sysl log_getpid;
      let text := head_text cur_tm pid level (base_name (c_str file_path)) line_no in
      let n := blen text in
      if QCONF_MAX_BUF_LEN - n - 2 <? 0 then undefined else
      let log_buf := text ++ c_str (snprintf (QCONF_MAX_BUF_LEN - n - 2) message) in
      if QCONF_MAX_BUF_LEN <? blen log_buf + 2 then undefined else
      fp ← gets (fun s => log_fp (fst s));
      match fp with
      | Some fp => sysl (log_fwrite fp (log_buf ++ [x0a]))
      | None => undefined
      end
  | _, _ => mret tt
  end.

(** [data_type0] is what the variable holds when the key cannot be read. *)
Definition qconf_print_key_info (data_type0 : byte) (file_path : option bytes) (line_no : Z) (tblkey message : bytes) : LM unit :=
  let n := blen message in
  if QCONF_MAX_BUF_LEN <=? n then mret tt else
  let '(_, (data_type, idc, path)) := Format.deserialize_from_tblkey tblkey data_type0 [] [] in
  let tail := snprintf (QCONF_MAX_BUF_LEN - n) (str "; data type:" ++ [data_type] ++ str ", idc:" ++ c_str idc ++ str ", path:" ++ c_str path) in
  qconf_print_log file_path line_no QCONF_LOG_ERR (Some (c_str (message ++ tail))).
End Log.
End Log.

(** ** The log of the monitor *)

Module MLog.

Definition kLogPath : bytes := str "logs/".
Definition kLogFileNamePrefix : bytes := str "qconf_monitor.log".
Definition LOG_WARNING : Z := 2.
Definition NAME_LEN : Z := 128.
Definition BUF_LEN : Z := 1024.

Definition log_levelitos : list bytes :=
  [str "FATAL_ERROR"; str "ERROR"; str "WARNING"; str "NOTICE"; str "INFO"; str "TRACE"; str "DEBUG"].

Record mlog := mkMLog { m_level : Z; m_fp : option stream; cur_log_file_name : bytes }.
Definition initial_mlog : mlog := mkMLog LOG_WARNING None [].

Section MLog.
Context {W : Type} `{LogSys W}.
Abbreviation MM := (SM (mlog * W)).

Definition sysm {A} (c : SM W A) : MM A := fun s =>
  match c (snd s) with Some (a, w) => Some (a, (fst s, w)) | None => None end.
Definition set_mfp (fp : option stream) : MM unit := modify (fun s => (mkMLog (m_level (fst s)) fp (cur_log_file_name (fst s)), snd s)).
Definition set_name (name : bytes) : MM unit := modify (fun s => (mkMLog (m_level (fst s)) (m_fp (fst s)) name, snd s)).

Definition Init (ll : Z) : MM Z := modify (fun s => (mkMLog ll (m_fp (fst s)) (cur_log_file_name (fst s)), snd s));; mret 0.

(** The name of the file of a day. *)
Definition day_name (year mon day : Z) : bytes :=
  snprintf NAME_LEN (kLogPath ++ kLogFileNamePrefix ++ str "." ++ pad_blank 4 year ++ pad_zero 2 mon ++ pad_zero 2 day).

(** One thread runs it at a time: the tests that it repeats under the mutex then agree. *)
Definition CheckFile (year mon day : Z) : MM Z :=
  let new_name := day_name year mon day in
  cur ← gets (fun s => cur_log_file_name (fst s));
  if decide (cur = new_name) then mret 0 else
  fp ← gets (fun s => m_fp (fst s));
  (match fp with Some f => sysm (log_fclose f);; set_mfp None | None => mret tt end);;
  set_name new_name;;
  opened ← sysm (log_fopen new_name);
  set_mfp (if (opened : bool) then Some (File new_name) else None);;
  mret (if (opened : bool) then 0 else -1).

(** The head of a line. *)
Definition mhead_text (t : tm) (level_name file_name : bytes) (line : Z) : bytes :=
  time_text t ++ str "[" ++ level_name ++ str "][" ++ file_name ++ str " " ++ print_dec line ++ str "] - ".

(** [None] is a read outside the names of the levels, or a write outside [log_buf]. *)
Definition PrintLog (file_name : bytes) (line level : Z) (message : bytes) : MM Z :=
  max ← gets (fun s => m_level (fst s));
  if max <? level then mret 0 else
  if level <? 0 then undefined else
  match log_levelitos !! Z.to_nat level with
  | None => undefined
  | Some log_info =>
      real_time ← sysm log_localtime;
      let text := mhead_text real_time log_info (c_str file_name) line in
      let char_count := blen text in
      ret ← CheckFile (tm_year real_time + 1900) (tm_mon real_time + 1) (tm_mday real_time);
      if negb (ret =? 0) then mret (-1) else
      fp ← gets (fun s => m_fp (fst s));
      match fp with
      | None => mret (-1)
      | Some fp =>
          if BUF_LEN <? char_count then undefined else
          let log_buf := snprintf BUF_LEN text ++ c_str (snprintf (BUF_LEN - char_count) message) in
          if BUF_LEN <? blen log_buf + 2 then undefined else
          sysm (log_fwrite fp (log_buf ++ [x0a]));;
          mret 0
      end
  end.

Definition CloseLogFile : MM unit :=
  fp ← gets (fun s => m_fp (fst s));
  match fp with
  | Some (File name) => sysm (log_fclose (File name));; set_mfp None;; set_name []
  | _ => mret tt
  end.
End MLog.
End MLog.
