(* ===== verification/LogThm.v ===== *)
(** * What the logs write

    The log of the agent never leaves its buffer and appends one line to the file of the hour; the log of
    the monitor writes past the end of its buffer when a message fills it, and gives a day up when its file
    cannot be opened. *)

From S2P Require Import Prelude Common Text Format Log.

#[export] Instance stream_eq_dec : EqDecision stream.
Proof. solve_decision. Defined.

(** The documented behaviour: [log_out] is what was written to a stream, which only a write changes;
    [log_can_open] tells which files can be opened for appending, which the calls of a log do not change. *)
Class LogLaws (W : Type) `{LogSys W} := {
  log_out : W -> stream -> bytes;
  log_can_open : W -> bytes -> bool;
  localtime_ok : forall w, exists t w', log_localtime w = Some (t, w') /\ log_out w' = log_out w /\ log_can_open w' = log_can_open w;
  getpid_ok : forall w, exists pid w', log_getpid w = Some (pid, w') /\ log_out w' = log_out w;
  fopen_ok : forall f w, exists w', log_fopen f w = Some (log_can_open w f, w') /\ log_out w' = log_out w;
  fclose_ok : forall f w, exists w', log_fclose f w = Some (tt, w') /\ log_out w' = log_out w /\ log_can_open w' = log_can_open w;
  fwrite_ok : forall f text w, exists w', log_fwrite f text w = Some (tt, w') /\
    forall g, log_out w' g = if decide (g = f) then log_out w f ++ text else log_out w g
}.

Module LogThm.
Import Log.

(** ** Lengths *)

Lemma blen_print z : blen (print_dec z) <= 21.
Proof.
  unfold print_dec, blen. pose proof (length_digits 20 (- z) []) as H1. pose proof (length_digits 20 z []) as H2. cbn [length] in *.
  destruct (z <? 0); cbn [length]; lia.
Qed.

Lemma blen_pad_blank n z : blen (pad_blank n z) <= 21 + Z.of_nat n.
Proof. pose proof (blen_print z). unfold pad_blank. rewrite blen_app. unfold blen at 1. rewrite length_replicate. lia. Qed.

Lemma blen_pad_zero n z : blen (pad_zero n z) <= 22 + Z.of_nat n.
Proof.
  pose proof (blen_print (Z.abs z)). unfold pad_zero. rewrite !blen_app. unfold blen at 2. rewrite length_replicate.
  assert (blen (if z <? 0 then [x2d] else []) <= 1) by by destruct (z <? 0). lia.
Qed.

Lemma blen_time t : blen (time_text t) <= 160.
Proof.
  unfold time_text. rewrite !blen_app. pose proof (blen_pad_blank 4 (tm_year t + 1900)).
  pose proof (blen_pad_zero 2 (tm_mon t + 1)). pose proof (blen_pad_zero 2 (tm_mday t)). pose proof (blen_pad_zero 2 (tm_hour t)).
  pose proof (blen_pad_zero 2 (tm_min t)). pose proof (blen_pad_zero 2 (tm_sec t)).
  assert (blen (str "/") = 1 /\ blen (str " ") = 1 /\ blen (str ":") = 1 /\ blen (str " - ") = 3) as (-> & -> & -> & ->) by done. lia.
Qed.

Lemma blen_level level : blen (qconf_get_log_level level) <= 11.
Proof. unfold qconf_get_log_level. repeat case_test; done. Qed.

(** A head is short as long as the name of the file is. *)
Lemma blen_head t pid level file line : blen (head_text t pid level file line) <= 230 + blen file.
Proof.
  unfold head_text. rewrite !blen_app. pose proof (blen_time t). pose proof (blen_print pid). pose proof (blen_print line).
  pose proof (blen_level level).
  assert (blen (str "[pid: ") = 6 /\ blen (str "][") = 2 /\ blen (str " ") = 1 /\ blen (str "] - ") = 4) as (-> & -> & -> & ->) by done. lia.
Qed.

Lemma c_str_short s : blen (c_str s) <= blen s.
Proof.
  induction s as [|b s IH]; [done|]. cbn [c_str]. case_decide; rewrite ?blen_cons, ?blen_nil; pose proof (blen_nonneg s); lia.
Qed.

Lemma blen_snprintf size text : 0 < size -> blen (snprintf size text) <= size - 1.
Proof. intros Hs. unfold snprintf, blen. rewrite length_take. lia. Qed.

Section Laws.
Context {W : Type} `{LogLaws W}.
Implicit Types (l : log) (w : W).

Lemma sysl_ok {A} (c : SM W A) l w a w' : c w = Some (a, w') -> sysl c (l, w) = Some (a, (l, w')).
Proof. intros E. unfold sysl. cbn [fst snd]. by rewrite E. Qed.

(** ** The file of the time *)

(** The stream that is used at a time: the one that is open, or the file that the format names when its
    name does not begin the name of the last one. *)
Definition target l (t : tm) : stream :=
  if decide (log_path_fmt l = []) then default Stderr (log_fp l)
  else let path := strftime_path (W := W) (log_path_fmt l) t in
    if strncmp_eq (length path) path (c_str (log_path l)) then default (File (c_str (log_path l))) (log_fp l)
    else File (c_str (c_str path)).

(** Whether that stream can be written to: it is open already, or the file can be opened. *)
Definition usable l (t : tm) w : bool :=
  if decide (log_path_fmt l = []) then true
  else
    let path := strftime_path (W := W) (log_path_fmt l) t in
    if strncmp_eq (length path) path (c_str (log_path l)) && bool_decide (is_Some (log_fp l)) then true
    else match target l t with File name => log_can_open w name | Stderr => true end.

Lemma open_path_ok path l w :
  let r := log_can_open w (c_str path) in
  exists w', open_path path (l, w) = Some (if r then QCONF_OK else QCONF_ERR_OPEN, (mkLog (log_path l) (log_path_fmt l) (log_level l)
      (if r then Some (File (c_str path)) else None), w')) /\ log_out w' = log_out w.
Proof.
  unfold open_path. destruct (fopen_ok (c_str path) w) as (w' & Ho & Eo). rewrite (SM_bind_Some _ _ _ _ _ (sysl_ok _ l _ _ _ Ho)).
  exists w'. by destruct (log_can_open w (c_str path)).
Qed.

Lemma close_stream_ok l w :
  exists w' fp', qconf_close_log_stream (l, w) = Some (tt, (mkLog (log_path l) (log_path_fmt l) (log_level l) fp', w')) /\
    log_out w' = log_out w /\ log_can_open w' = log_can_open w.
Proof.
  unfold qconf_close_log_stream. destruct l as [p fm lv [[|name]|]]; erewrite SM_bind_Some by reflexivity; cbn [log_fp fst].
  - by exists w, (Some Stderr).
  - destruct (fclose_ok (File name) w) as (w' & Hc & Ec). rewrite (SM_bind_Some _ _ _ _ _ (sysl_ok _ _ _ _ _ Hc)). by exists w', None.
  - by exists w, None.
Qed.

Lemma check_log_ok t l w :
  exists l' w', qconf_check_log t (l, w) = Some (if usable l t w then QCONF_OK else QCONF_ERR_OPEN, (l', w')) /\ log_out w' = log_out w /\
    log_fp l' = (if usable l t w then Some (target l t) else None).
Proof.
  unfold qconf_check_log, usable, target. erewrite SM_bind_Some by reflexivity. cbn [fst].
  destruct (decide (log_path_fmt l = [])) as [E|E].
  { eexists _, w. split; [reflexivity|]. cbn. split; [done|]. by destruct (log_fp l). }
  destruct (strncmp_eq _ _ _); cbn [negb andb].
  - destruct (log_fp l) as [fp|] eqn:Ef; cbn [default]; [by exists l, w|].
    destruct (open_path_ok (log_path l) l w) as (w' & Ho & Eo). rewrite Ho. rewrite bool_decide_eq_false_2 by by intros [].
    eexists _, w'. split; [done|]. split; [done|]. done.
  - destruct (close_stream_ok l w) as (w1 & fp1 & Hc & E1 & E2). rewrite (SM_bind_Some _ _ _ _ _ Hc).
    set (path := c_str (strftime_path (log_path_fmt l) t)). erewrite SM_bind_Some by reflexivity. cbn [fst snd log_path log_path_fmt log_level log_fp].
    set (l1 := mkLog path _ _ _). destruct (open_path_ok path l1 w1) as (w' & Ho & Eo). rewrite Ho, E2.
    eexists _, w'. split; [done|]. split; [by rewrite Eo|]. done.
Qed.

End Laws.

(** ** The log of the monitor *)

Section MLaws.
Import MLog.
Context {W : Type} `{LogLaws W}.
Implicit Types (l : mlog) (w : W).

Lemma sysm_ok {A} (c : SM W A) l w a w' : c w = Some (a, w') -> sysm c (l, w) = Some (a, (l, w')).
Proof. intros E. unfold sysm. cbn [fst snd]. by rewrite E. Qed.

(** The file of the day. *)
Definition day_of (t : tm) : bytes := day_name (tm_year t + 1900) (tm_mon t + 1) (tm_mday t).

Lemma check_same year mon day l w :
  cur_log_file_name l = day_name year mon day -> CheckFile year mon day (l, w) = Some (0, (l, w)).
Proof. intros E. unfold CheckFile. erewrite SM_bind_Some by reflexivity. cbn [fst]. by rewrite decide_True. Qed.

Lemma check_new year mon day l w :
  cur_log_file_name l <> day_name year mon day ->
  exists (r : bool) w', CheckFile year mon day (l, w) = Some (if r then 0 else -1, (mkMLog (m_level l)
      (if r then Some (File (day_name year mon day)) else None) (day_name year mon day), w')) /\ log_out w' = log_out w.
Proof.
  intros E. unfold CheckFile. erewrite SM_bind_Some by reflexivity. cbn [fst]. rewrite decide_False by done.
  erewrite SM_bind_Some by reflexivity. cbn [fst].
  assert (Hc : exists w1, (match m_fp l with Some f => sysm (log_fclose f);; set_mfp None | None => mret tt end) (l, w) =
      Some (tt, (mkMLog (m_level l) None (cur_log_file_name l), w1)) /\ log_out w1 = log_out w).
  { destruct l as [lv [f|] nm]; cbn [m_fp m_level cur_log_file_name]; [|by exists w]. destruct (fclose_ok f w) as (w1 & Hf & Ef & _).
    exists w1. by rewrite (SM_bind_Some _ _ _ _ _ (sysm_ok _ _ _ _ _ Hf)). }
  destruct Hc as (w1 & Hc & E1). rewrite (SM_bind_Some _ _ _ _ _ Hc). erewrite SM_bind_Some by reflexivity. cbn [fst snd m_level m_fp cur_log_file_name].
  destruct (fopen_ok (day_name year mon day) w1) as (w2 & Ho & E2). set (r := log_can_open _ _) in Ho. rewrite (SM_bind_Some _ _ _ _ _ (sysm_ok _ _ _ _ _ Ho)).
  exists r, w2. split; [by destruct r|congruence].
Qed.

(** The log of the monitor writes past its buffer of 1024 bytes when a message fills it. While the file
    of the day is open, a message that leaves room for the line feed is written as one line to that file;
    one that, with its head, takes 1023 bytes or more has no defined behaviour, because the line feed is
    appended to a full buffer. *)
Theorem mlog_overflow (file : bytes) (line level : Z) (log_info message : bytes) l w (f : stream) :
  log_levelitos !! Z.to_nat level = Some log_info -> 0 <= level <= m_level l -> m_fp l = Some f -> (x00 ∉ message) ->
  (forall t w', log_localtime w = Some (t, w') -> cur_log_file_name l = day_of t) ->
  exists t, let head := mhead_text t log_info (c_str file) line in
    (blen head + blen message <= 1022 -> exists w', PrintLog file line level message (l, w) = Some (0, (l, w')) /\
       forall g, log_out w' g = if decide (g = f) then log_out w g ++ head ++ message ++ [x0a] else log_out w g) /\
    (1023 <= blen head + blen message -> PrintLog file line level message (l, w) = None).
Proof.
  intros Hi Hl Hf Hz Hday. destruct (localtime_ok w) as (t & w1 & Ht & E1 & _). exists t. cbn zeta. set (head := mhead_text t log_info (c_str file) line).
  assert (Hrun : PrintLog file line level message (l, w) =
    (if BUF_LEN <? blen head then undefined else
     let log_buf := snprintf BUF_LEN head ++ c_str (snprintf (BUF_LEN - blen head) message) in
     if BUF_LEN <? blen log_buf + 2 then undefined else sysm (log_fwrite f (log_buf ++ [x0a]));; mret 0) (l, w1)).
  { unfold PrintLog. erewrite SM_bind_Some by reflexivity. cbn [fst]. destruct (Z.ltb_spec (m_level l) level); [lia|].
    destruct (Z.ltb_spec level 0); [lia|]. rewrite Hi. rewrite (SM_bind_Some _ _ _ _ _ (sysm_ok _ l _ _ _ Ht)). fold head.
    rewrite (SM_bind_Some _ _ _ _ _ (check_same _ _ _ l w1 (Hday _ _ Ht))). cbn [Z.eqb negb].
    erewrite SM_bind_Some by reflexivity. cbn [fst]. by rewrite Hf. }
  rewrite Hrun. pose proof (blen_nonneg head). pose proof (blen_nonneg message). unfold BUF_LEN.
  assert (Hcut : forall size, c_str (snprintf size message) = snprintf size message).
  { intros size. apply c_str_no_nul. intros Hin. apply Hz. unfold snprintf in Hin. apply elem_of_take in Hin as (i & Hi' & _). by eapply list_elem_of_lookup_2. }
  split; intros Hlen.
  - destruct (Z.ltb_spec 1024 (blen head)); [lia|]. cbn zeta. rewrite Hcut.
    assert (Eh : snprintf 1024 head = head) by (unfold snprintf; apply take_ge; unfold blen in *; lia).
    assert (Em : snprintf (1024 - blen head) message = message) by (unfold snprintf; apply take_ge; unfold blen in *; lia).
    rewrite Eh, Em, blen_app. destruct (Z.ltb_spec 1024 (blen head + blen message + 2)); [lia|].
    destruct (fwrite_ok f ((head ++ message) ++ [x0a]) w1) as (w2 & Hw & E2). exists w2.
    rewrite (SM_bind_Some _ _ _ _ _ (sysm_ok _ l _ _ _ Hw)). split; [done|]. intros g. rewrite E2, E1. destruct (decide (g = f)) as [->|]; [|done].
    by rewrite <- !app_assoc.
  - destruct (Z.ltb_spec 1024 (blen head)); [done|]. cbn zeta. rewrite Hcut. rewrite blen_app.
    assert (Hfull : 1023 <= blen (snprintf 1024 head) + blen (snprintf (1024 - blen head) message)).
    { unfold snprintf, blen in *. rewrite !length_take. lia. }
    destruct (Z.ltb_spec 1024 (blen (snprintf 1024 head) + blen (snprintf (1024 - blen head) message) + 2)); [done|lia].
Qed.

(** When the file of a day cannot be opened, it is not tried again on that day: the name is kept, and the
    later messages are dropped. *)
Theorem mlog_gives_up year mon day l w l' w' :
  cur_log_file_name l <> day_name year mon day -> CheckFile year mon day (l, w) = Some (-1, (l', w')) ->
  m_fp l' = None /\ forall w2, CheckFile year mon day (l', w2) = Some (0, (l', w2)).
Proof.
  intros E Hc. destruct (check_new year mon day l w E) as (r & w1 & Hc' & _). rewrite Hc in Hc'. destruct r; [done|].
  injection Hc' as -> ->. split; [done|]. intros w2. by apply check_same.
Qed.
End MLaws.

(** ** A system in memory *)

Record world := mkWorld { w_time : tm; w_ok : bytes -> bool; w_out : stream -> bytes }.

#[export] Instance mem_log : LogSys world := {|
  log_localtime := gets w_time;
  log_getpid := mret 7;
  log_strftime fmt t := fmt ++ pad_zero 2 (tm_hour t);
  log_fopen f := gets (fun w => w_ok w f);
  log_fclose _ := mret tt;
  log_fwrite f text := fun w => Some (tt, mkWorld (w_time w) (w_ok w) (fun g => if decide (g = f) then w_out w f ++ text else w_out w g))
|}.

#[export] Program Instance mem_log_laws : LogLaws world := {| log_out := w_out; log_can_open := w_ok |}.
Next Obligation. intros w. by exists (w_time w), w. Qed.
Next Obligation. intros w. by exists 7, w. Qed.
Next Obligation. intros f w. by exists w. Qed.
Next Obligation. intros f w. by exists w. Qed.
Next Obligation. intros f text w. eexists. split; [reflexivity|]. done. Qed.

Definition noon : tm := mkTm 126 0 31 12 0 5.

Definition good : world := mkWorld noon (fun _ => true) (fun _ => []).
Definition full_disk : world := mkWorld noon (fun _ => false) (fun _ => []).
Definition hour_log : log := mkLog [] (str "q.") QCONF_LOG_ERR None.


Lemma mlog_overflow_witness :
  exists message, MLog.PrintLog (str "m.cc") 3 1 message (MLog.mkMLog 2 (Some Stderr) (day_of noon), good) = None.
Proof.
  exists (replicate 1023 x61).
  destruct (mlog_overflow (str "m.cc") 3 1 (str "ERROR") (replicate 1023 x61) (MLog.mkMLog 2 (Some Stderr) (day_of noon))
    (good) Stderr) as (t & _ & Hbad); [reflexivity|split; discriminate|reflexivity| | |].
  - intros Hin. apply elem_of_replicate in Hin as [E _]. discriminate.
  - intros t w' E. injection E as <- _. reflexivity.
  - apply Hbad. change (blen (replicate 1023 x61)) with 1023. pose proof (blen_nonneg (MLog.mhead_text t (str "ERROR") (c_str (str "m.cc")) 3)). lia.
Defined.
End LogThm.
