(* ===== verification/Cmd.v ===== *)
(** * Commands to the agent ([src/agent/qconf_cmd.cc])

    On SIGUSR1 the agent reads the files of its command directory, carries out each line and deletes the
    files. The calls on files and directories are a class of operations on the state of the system. *)

From S2P Require Import Prelude Common Text Format Store Shm Sys Config Dump Zoo Gray Script Feedback Agent Watcher.

(** The files that commands touch. *)
Class Files (W : Type) := {
  file_access : bytes -> SM W bool;                (* access for existence *)
  file_mkdir : bytes -> Z -> SM W bool;            (* name and mode *)
  dir_list : bytes -> SM W (option (list bytes));  (* opendir, and the names readdir gives one by one *)
  file_content : bytes -> SM W (option bytes);     (* None when the file cannot be opened *)
  file_unlink : bytes -> SM W unit;
  file_out : bool -> bytes -> bytes -> SM W bool   (* append?, name, text; whether it could be opened *)
}.

Module Cmd.
Import Format Shm Config Dump Agent Watcher.

Definition QCONF_ERR_CMD : Z := 71.

Definition _cmd_pre : bytes := str "cmd".
Definition _result_pre : bytes := str "result".
Definition _cmd_delim : byte := x23.

Definition _cmd_stop_listen : bytes := str "stop_listen".
Definition _cmd_restart_listen : bytes := str "restart_listen".
Definition _cmd_list_all : bytes := str "list-all".
Definition _cmd_clear_all : bytes := str "clear-all".
Definition _cmd_ls : bytes := str "ls".
Definition _cmd_del : bytes := str "delete".
Definition _cmd_get : bytes := str "get".
Definition _cmd_create : bytes := str "create".
Definition _cmd_set : bytes := str "set".
Definition _cmd_server_add : bytes := str "serve_add".
Definition _cmd_server_del : bytes := str "serve_delete".

(** The two directories, and their values before [qconf_init_cmd_env]. *)
Record cmd_env := mkEnv { _cmd_dir : bytes; _result_dir : bytes }.
Definition initial_env : cmd_env := mkEnv (str "cmd") (str "result").

Section Cmd.
Context {T G K W : Type} `{Store T} `{Gdbm G} `{Zk K} `{OS W T} `{Host W} `{Files W}.
Abbreviation AM := (SM (agent T G K W)).

(** Make a directory that is missing. *)
Definition ensure_dir (dir : bytes) : SM W Z :=
  there ← file_access (c_str dir);
  if (there : bool) then mret QCONF_OK else
  made ← file_mkdir (c_str dir) 493 (* 0755 *);
  mret (if (made : bool) then QCONF_OK else QCONF_ERR_MKDIR).

Definition qconf_init_cmd_env (qconf_dir : bytes) : SM W (Z * cmd_env) :=
  let env := mkEnv (qconf_dir ++ str "/cmd") (qconf_dir ++ str "/result") in
  ret ← ensure_dir (_cmd_dir env);
  if negb (ret =? QCONF_OK) then mret (ret, env) else
  ret ← ensure_dir (_result_dir env);
  mret (ret, env).

Definition qconf_write_file (file_str content : bytes) (append : bool) : SM W Z :=
  opened ← file_out append (c_str file_str) (content ++ str "
");
  mret (if (opened : bool) then QCONF_OK else QCONF_ERR_OPEN).

(** The operations: the return code and [result]. *)
Definition operate_stop_listen (host result : bytes) : AM (Z * bytes) := mret (QCONF_OK, result).
Definition operate_restart_listen (host result : bytes) : AM (Z * bytes) := mret (QCONF_OK, result).
Definition operate_list_all (result : bytes) : AM (Z * bytes) := mret (QCONF_OK, result).
Definition operate_clear_all (result : bytes) : AM (Z * bytes) :=
  qconf_clear_shm_tbl;;
  on_dump qconf_dump_clear;;
  mret (QCONF_OK, str "clear share memory success!").
Definition operate_list (host path result : bytes) : AM (Z * bytes) := mret (QCONF_OK, result).
Definition operate_delete (host path result : bytes) : AM (Z * bytes) := mret (QCONF_OK, result).
Definition operate_get (host path result : bytes) : AM (Z * bytes) := mret (QCONF_OK, result).
Definition operate_create (host path values result : bytes) : AM (Z * bytes) := mret (QCONF_OK, result).
Definition operate_set (host path values result : bytes) : AM (Z * bytes) := mret (QCONF_OK, result).
Definition operate_serve_add (host path values result : bytes) : AM (Z * bytes) := mret (QCONF_OK, result).
Definition operate_serve_delete (host path values result : bytes) : AM (Z * bytes) := mret (QCONF_OK, result).

(** The operation a command names, [None] for a wrong command or number of operands. *)
Definition dispatch (parameters : list bytes) (result : bytes) : option (AM (Z * bytes)) :=
  match parameters with
  | [] => None
  | command :: ps =>
      if decide (command = _cmd_stop_listen) then match ps with [h] => Some (operate_stop_listen h result) | _ => None end
      else if decide (_cmd_restart_listen = command) then match ps with [h] => Some (operate_restart_listen h result) | _ => None end
      else if decide (_cmd_list_all = command) then match ps with [] => Some (operate_list_all result) | _ => None end
      else if decide (_cmd_clear_all = command) then match ps with [] => Some (operate_clear_all result) | _ => None end
      else if decide (_cmd_ls = command) then match ps with [h; p] => Some (operate_list h p result) | _ => None end
      else if decide (_cmd_del = command) then match ps with [h; p] => Some (operate_delete h p result) | _ => None end
      else if decide (_cmd_get = command) then match ps with [h; p] => Some (operate_get h p result) | _ => None end
      else if decide (_cmd_create = command) then match ps with [h; p; v] => Some (operate_create h p v result) | _ => None end
      else if decide (_cmd_set = command) then match ps with [h; p; v] => Some (operate_set h p v result) | _ => None end
      else if decide (_cmd_server_add = command) then match ps with [h; p; v] => Some (operate_serve_add h p v result) | _ => None end
      else if decide (_cmd_server_del = command) then match ps with [h; p; v] => Some (operate_serve_delete h p v result) | _ => None end
      else None
  end.

(** The words of a line: the pieces between the delimiters that are not empty. *)
Definition words (line : bytes) : list bytes :=
  List.filter (fun item => 0 <? blen item) (getlines _cmd_delim (length line) line).

Definition single_command_process (env : cmd_env) (line custom_id : bytes) : AM Z :=
  if decide (custom_id = []) then mret QCONF_ERR_PARAM else
  if decide (line = []) then mret QCONF_ERR_PARAM else
  match dispatch (words line) [] with
  | None => mret QCONF_ERR_CMD
  | Some operate =>
      '(ret, result) ← operate;
      if (ret =? QCONF_OK) && (0 <? blen result) then
        on_host (qconf_write_file (_result_dir env ++ str "/" ++ _result_pre ++ custom_id) result true)
      else mret ret
  end.

Fixpoint lines_loop (env : cmd_env) (lines : list bytes) (console_pid : bytes) : AM unit :=
  match lines with
  | [] => mret tt
  | line :: rest => single_command_process env line console_pid;; lines_loop env rest console_pid
  end.

(** [0 == find_first_of(_cmd_pre)]: the name starts with one of the characters of [_cmd_pre]. *)
Definition cmd_name (name : bytes) : bool :=
  match name with b :: _ => bool_decide (b ∈ _cmd_pre) | [] => false end.

(** The substring from [pos]; [std::out_of_range] leaves the handler when [pos] is past the end. *)
Definition substr_from (name : bytes) (pos : nat) : AM bytes :=
  if (length name <? pos)%nat then undefined else mret (drop pos name).

Fixpoint files_loop (env : cmd_env) (names : list bytes) (file_count : Z) : AM Z :=
  match names with
  | [] => mret file_count
  | file_name :: rest =>
      if cmd_name file_name then
        let file_count := u64 (file_count + 1) in
        let file_path := _cmd_dir env ++ str "/" ++ file_name in
        content ← on_host (file_content (c_str file_path));
        match content with
        | None => files_loop env rest file_count
        | Some content =>
            console_pid ← substr_from file_name (length _cmd_pre);
            lines_loop env (getlines x0a (length content) content) console_pid;;
            on_host (file_unlink (c_str file_path));;
            files_loop env rest file_count
        end
      else files_loop env rest file_count
  end.

Definition qconf_cmd_proc (env : cmd_env) : AM Z :=
  dir ← on_host (dir_list (c_str (_cmd_dir env)));
  match dir with
  | None => mret QCONF_ERR_OPEN
  | Some names => files_loop env names 0
  end.
End Cmd.
End Cmd.
