(* ===== verification/CmdThm.v ===== *)
(** * Theorems about the agent's commands

    Which lines do something, what [clear-all] does to the clients, and what reading the command
    directory may touch. *)

From S2P Require Import Prelude Common Text Md5 HashArr HashArrInv HashArrPut HashArrThm Format FormatThm Store Shm ShmThm Sys ShmInit Driver DriverThm.
From S2P Require Import Config Dump Zoo Gray Script Feedback Agent Watcher WatcherThm Cmd.

(** The documented behaviour of the calls on files, for the regular files [m]. *)
Class FilesLaws (W : Type) `{!Files W} := {
  files : W -> gmap bytes bytes -> Prop;
  dir_list_ok : forall d w m, files w m -> exists r w', dir_list d w = Some (r, w') /\ files w' m;
  file_content_ok : forall f w m, files w m ->
    exists r w', file_content f w = Some (r, w') /\ files w' m /\ (forall c, r = Some c -> m !! f = Some c \/ m !! f = None /\ c = []);
  file_unlink_ok : forall f w m, files w m ->
    exists w' m', file_unlink f w = Some (tt, w') /\ files w' m' /\ (m' = m \/ m' = delete f m);
  file_append_ok : forall f c w m, files w m ->
    exists r w' m', file_out true f c w = Some (r, w') /\ files w' m' /\
      (m' = if r : bool then <[f := default [] (m !! f) ++ c]> m else m)
}.

Module CmdThm.
Import HashArr Format Shm Msg Driver Config Dump Gray Script Feedback Agent Watcher WatcherThm Cmd.

Section Thm.
Context {T G K W : Type} `{StoreLaws T} `{GdbmLaws G} `{Zk K} `{OS W T} `{Host W} `{!Files W}.
Implicit Types (s : agent T G K W) (vm : gmap kid bytes).

(** ** Clearing *)

Lemma hash_tbl_clear_ok (x : shm T) vm :
  shm_ok x vm -> exists t, hash_tbl_clear x = Some (QCONF_OK, mkShm t (lruInstance x)) /\ shm_ok (mkShm t (lruInstance x)) ∅.
Proof.
  intros Hok. unfold hash_tbl_clear. rewrite (SM_bind_Some _ _ _ _ _ (shm_not_null x vm Hok)).
  destruct (s_clear_ok (sh_tbl x) _ (sk_rep _ _ Hok)) as (t & Hc & Hr). exists t. split.
  - by rewrite (SM_bind_Some _ _ _ _ _ (on_tbl_ok _ _ _ _ Hc)).
  - apply (shm_ok_tbl x vm); [done|by rewrite fmap_empty|apply map_Forall_empty].
Qed.

(** The dump may be closed, after a failed clear. *)
Definition dump_alive (d : dump G) : Prop := qconf_dump_file d <> [] /\ (qconf_dbf d = true -> exists m, db_rep (dump_fs d) m).

(** A dump that holds nothing, or that could not be opened again. *)
Definition dump_cleared (d : dump G) : Prop := qconf_dump_file d <> [] /\ (qconf_dbf d = true -> db_rep (dump_fs d) ∅).

Lemma cleared_alive (d : dump G) : dump_cleared d -> dump_alive d.
Proof. intros [Hf Ho]. split; [done|]. intros E. exists ∅. by apply Ho. Qed.

Lemma dump_clear_alive (d : dump G) :
  dump_alive d -> exists ret d', qconf_dump_clear d = Some (ret, d') /\ dump_cleared d' /\ (ret = QCONF_OK -> dump_ok d' ∅).
Proof.
  intros (Hf & Hopen). unfold qconf_dump_clear, qconf_destroy_dbf.
  assert (exists g1, (dbf ← gets qconf_dbf; if (dbf : bool) then on_fs gdbm_close;; set_dbf false else mret tt) d =
                       Some (tt, mkDump (qconf_dump_file d) false g1)) as (g1 & Hr).
  { erewrite SM_bind_Some; [|reflexivity]. destruct d as [f b g]. cbn [qconf_dbf qconf_dump_file dump_fs] in *. destruct b; [|by exists g].
    destruct (Hopen eq_refl) as (m & Hm). destruct (gdbm_close_ok _ m Hm) as (g1 & Hc). exists g1.
    by rewrite (SM_bind_Some _ _ _ _ _ (on_fs_ok _ (mkDump f true g) _ _ Hc)). }
  rewrite (SM_bind_Some _ _ _ _ _ Hr). unfold qconf_init_dbf_. erewrite SM_bind_Some; [|reflexivity]. cbn [qconf_dump_file]. rewrite decide_False by done.
  destruct (gdbm_open_new (qconf_dump_file d) g1) as (r & g2 & Ho2 & Hnew).
  rewrite (SM_bind_Some _ _ _ _ _ (on_fs_ok _ (mkDump _ _ _) _ _ Ho2)). erewrite SM_bind_Some; [|reflexivity].
  cbn [qconf_dump_file qconf_dbf dump_fs]. destruct r; cbn [negb].
  - destruct (gdbm_setopt_ok g2 ∅ (Hnew eq_refl)) as (r3 & g3 & Hs3 & Hr3).
    rewrite (SM_bind_Some _ _ _ _ _ (on_fs_ok _ (mkDump _ _ _) _ _ Hs3)). cbn [qconf_dump_file qconf_dbf dump_fs].
    destruct (r3 =? 0); cbn [negb]; eexists _, _; (split; [reflexivity|]); (split; [by split|done]).
  - eexists _, _. split; [reflexivity|]. by split; [split|].
Qed.

(** What a command may change: the table, the dump and the files. *)
Record cmd_frame s s' : Prop := {
  cf_zk : a_zk s' = a_zk s; cf_gray : a_gray s' = a_gray s; cf_conf : a_conf s' = a_conf s; cf_fb : a_fb s' = a_fb s;
  cf_set : a_set s' = a_set s; cf_ht : a_ht s' = a_ht s; cf_q : a_q s' = a_q s
}.

Lemma cmd_frame_refl s : cmd_frame s s.
Proof. by split. Qed.
Lemma cmd_frame_trans s1 s2 s3 : cmd_frame s1 s2 -> cmd_frame s2 s3 -> cmd_frame s1 s3.
Proof. intros [] []. split; congruence. Qed.

Lemma clear_all_ok r s vm :
  shm_ok (a_shm s) vm -> dump_alive (a_dump s) ->
  exists s', operate_clear_all r s = Some ((QCONF_OK, str "clear share memory success!"), s') /\ cmd_frame s s' /\ a_sys s' = a_sys s /\
    shm_ok (a_shm s') ∅ /\ dump_cleared (a_dump s').
Proof.
  intros Hok Hd. unfold operate_clear_all, qconf_clear_shm_tbl.
  destruct (hash_tbl_clear_ok (a_shm s) vm Hok) as (t & Hc & Ht). destruct (dump_clear_alive (a_dump s) Hd) as (ret & d & Hdc & Hd' & _).
  set (s1 := with_shm s (mkShm t (lruInstance (a_shm s)))). exists (with_dump s1 d). split; [|by split].
  erewrite SM_bind_Some; [|by rewrite (SM_bind_Some _ _ _ _ _ (on_shm_ok _ s _ _ Hc))].
  by rewrite (SM_bind_Some _ _ _ _ _ (on_dump_ok _ s1 _ _ Hdc)).
Qed.

(** Every other operation does nothing. *)
Lemma dispatch_cases ps r c :
  dispatch (T := T) (G := G) (K := K) (W := W) ps r = Some c ->
  (ps = [_cmd_clear_all] /\ c = operate_clear_all r) \/ (ps <> [_cmd_clear_all] /\ forall s, c s = Some ((QCONF_OK, r), s)).
Proof.
  unfold dispatch. destruct ps as [|cmd ps]; [done|]. intros Hd.
  destruct (decide (_cmd_clear_all = cmd)) as [<-|Hne].
  - do 3 (rewrite decide_False in Hd by discriminate).
    destruct ps; [|done]. injection Hd as <-. by left.
  - right. split; [by intros [= -> ->]|].
    repeat (destruct (decide _); [repeat (destruct ps as [|? ps]; try done); by injection Hd as <-|]). done.
Qed.

(** ** One line *)

Context `{!FilesLaws W}.

Definition result_file (env : cmd_env) (id : bytes) : bytes := c_str (_result_dir env ++ str "/" ++ _result_pre ++ id).
Definition cleared_text : bytes := str "clear share memory success!" ++ [x0a].

(** The line is the command that does something. *)
Definition clears (line id : bytes) : Prop := id <> [] /\ words line = [_cmd_clear_all].

Lemma single_ok (env : cmd_env) (line id : bytes) s vm (fm : gmap bytes bytes) :
  shm_ok (a_shm s) vm -> dump_alive (a_dump s) -> files (a_sys s) fm ->
  exists ret s', single_command_process env line id s = Some (ret, s') /\ cmd_frame s s' /\
    ((clears line id /\ shm_ok (a_shm s') ∅ /\ dump_cleared (a_dump s') /\
      exists fm', files (a_sys s') fm' /\
        ((ret = QCONF_OK /\ fm' = <[result_file env id := default [] (fm !! result_file env id) ++ cleared_text]> fm) \/
         (ret = QCONF_ERR_OPEN /\ fm' = fm))) \/
     ~ clears line id /\ s' = s /\ (ret = QCONF_OK \/ ret = QCONF_ERR_PARAM \/ ret = QCONF_ERR_CMD)).
Proof.
  intros Hok Hd Hw. unfold single_command_process. destruct (decide (id = [])) as [->|Hid].
  { exists QCONF_ERR_PARAM, s. split; [done|]. split; [apply cmd_frame_refl|]. right. split; [by intros [? _]|auto]. }
  destruct (decide (line = [])) as [->|Hl].
  { exists QCONF_ERR_PARAM, s. split; [done|]. split; [apply cmd_frame_refl|]. right. split; [by intros [_ ?]|auto]. }
  destruct (dispatch (words line) []) as [c|] eqn:Ed.
  - apply dispatch_cases in Ed as [(Ew & ->)|(Ew & Hc)].
    + destruct (clear_all_ok [] s vm Hok Hd) as (s1 & Hr & Hf & Hsys & Hok1 & Hd1).
      rewrite (SM_bind_Some _ _ _ _ _ Hr). cbv beta iota. cbn [Z.eqb QCONF_OK andb]. rewrite (proj2 (Z.ltb_lt _ _)) by done.
      destruct (file_append_ok (result_file env id) cleared_text (a_sys s) fm Hw) as (r & w & fm' & Hout & Hw' & ->).
      exists (if r then QCONF_OK else QCONF_ERR_OPEN), (with_sys s1 (a_fb s1) w). split.
      { unfold on_host, qconf_write_file. rewrite Hsys. fold (result_file env id). change (str "clear share memory success!" ++ str "
") with cleared_text. by rewrite (SM_bind_Some _ _ _ _ _ Hout). }
      split; [by destruct Hf|]. left. split; [done|]. split; [done|]. split; [done|]. eexists. split; [exact Hw'|]. destruct r; auto.
    + exists QCONF_OK, s. rewrite (SM_bind_Some _ _ _ _ _ (Hc s)). split; [done|]. split; [apply cmd_frame_refl|]. right. split; [by intros [_ ?]|auto].
  - exists QCONF_ERR_CMD, s. split; [done|]. split; [apply cmd_frame_refl|]. right. split; [|auto]. intros [_ Ew]. by rewrite Ew in Ed.
Qed.

(** C33. The command clear-all takes the data centre of the machine away from its clients. It empties the
    table, and with it the entry of the local data centre, which only the start of the agent writes, leaves
    an empty dump, or one that could not be opened again, appends its report to the file of the result, and
    changes nothing else of the agent. From then on a client that does not name a data centre itself gets "not found" at once, for every kind of
    data and whether or not it would wait, and it sends no message, so the agent does not learn that
    anything is missing. Every other line changes nothing at all. *)
Theorem clear_all_silences_clients (env : cmd_env) (line id : bytes) s vm (fm : gmap bytes bytes) :
  shm_ok (a_shm s) vm -> dump_alive (a_dump s) -> files (a_sys s) fm ->
  exists ret s', single_command_process env line id s = Some (ret, s') /\ cmd_frame s s' /\
    (clears line id -> shm_ok (a_shm s') ∅ /\ dump_cleared (a_dump s') /\
      (exists fm', files (a_sys s') fm' /\
        ((ret = QCONF_OK /\ fm' = <[result_file env id := default [] (fm !! result_file env id) ++ cleared_text]> fm) \/
         (ret = QCONF_ERR_OPEN /\ fm' = fm))) /\
      forall (p : proc W T) path tv dtype flags, ready p -> pr_tbl p = sh_tbl (a_shm s') ->
        exists t', qconf_get_ path tv dtype [] flags p = Some ((QCONF_ERR_NOT_FOUND, tv), with_tbl p t') /\ s_same (pr_tbl p) t') /\
    (~ clears line id -> s' = s /\ (ret = QCONF_OK \/ ret = QCONF_ERR_PARAM \/ ret = QCONF_ERR_CMD)).
Proof.
  intros Hok Hd Hw. destruct (single_ok env line id s vm fm Hok Hd Hw) as (ret & s' & Hr & Hf & Hres).
  exists ret, s'. split; [done|]. split; [done|]. destruct Hres as [(Hc & Hok' & Hd' & Hfiles)|(Hc & -> & Hret)]; [|by split].
  split; [|done]. intros _. split; [done|]. split; [done|]. split; [done|]. intros p path tv dtype flags Hp Ht.
  assert (Hh : tbl_holds (pr_tbl p) ∅) by (rewrite Ht; destruct Hok'; by split).
  destruct (hash_tbl_get_ok QCONF_KEY_TYPE_LOCAL_IDC [] _ ∅ (holds_shm _ _ Hh) ltac:(done)) as (t' & Hg & _ & _ & Hsame).
  rewrite lookup_empty in Hg. exists t'. split; [|done]. unfold qconf_get_. rewrite (SM_bind_Some _ _ _ _ _ (init_ready p Hp)).
  cbn [Z.eqb QCONF_OK negb]. unfold local_idc. rewrite decide_True by done.
  erewrite SM_bind_Some; [|apply (tblm_ok _ _ p (QCONF_ERR_NOT_FOUND, []) (mkShm t' None)); [done|]]; [reflexivity|].
  unfold qconf_get_localidc. rewrite (SM_bind_Some _ _ _ _ _ (shm_not_null _ ∅ (holds_shm _ _ Hh))).
  change (serialize_to_tblkey QCONF_DATA_TYPE_LOCAL_IDC [] []) with (QCONF_OK, QCONF_KEY_TYPE_LOCAL_IDC). cbv beta iota zeta.
  by rewrite (SM_bind_Some _ _ _ _ _ Hg).
Qed.

(** ** The directory *)

Definition cmd_file (env : cmd_env) (n : bytes) : bytes := c_str (_cmd_dir env ++ str "/" ++ n).

(** The files that reading the directory may touch. *)
Definition touched (env : cmd_env) (f : bytes) : Prop :=
  (exists n, cmd_name n = true /\ f = cmd_file env n) \/ (exists id, id <> [] /\ f = result_file env id).

(** What holds between the state before and after. *)
Record ran (env : cmd_env) s s' (fm fm' : gmap bytes bytes) : Prop := {
  ran_frame : cmd_frame s s';
  ran_shm : a_shm s' = a_shm s \/ shm_ok (a_shm s') ∅;
  ran_dump : dump_alive (a_dump s');
  ran_files : files (a_sys s') fm';
  ran_touched f : fm' !! f = fm !! f \/ touched env f
}.

Lemma ran_trans env s1 s2 s3 fm1 fm2 fm3 : ran env s1 s2 fm1 fm2 -> ran env s2 s3 fm2 fm3 -> ran env s1 s3 fm1 fm3.
Proof.
  intros [Hf Hs Hd Hw Ht] [Hf' Hs' Hd' Hw' Ht']. split; try done; [by eapply cmd_frame_trans| |].
  - destruct Hs' as [->|?]; by auto.
  - intros f. destruct (Ht' f) as [->|?]; [apply Ht|by right].
Qed.

Lemma ran_ok env s s' fm fm' vm : shm_ok (a_shm s) vm -> ran env s s' fm fm' -> exists vm', shm_ok (a_shm s') vm'.
Proof. intros Hok [_ [->|?] _ _ _]; eauto. Qed.

Lemma lines_loop_ok (env : cmd_env) (lines : list bytes) (id : bytes) s vm (fm : gmap bytes bytes) :
  shm_ok (a_shm s) vm -> dump_alive (a_dump s) -> files (a_sys s) fm ->
  exists s' fm', lines_loop env lines id s = Some (tt, s') /\ ran env s s' fm fm' /\
    (Forall (fun l => ~ clears l id) lines -> s' = s /\ fm' = fm).
Proof.
  revert s vm fm. induction lines as [|line lines IH]; intros s vm fm Hok Hd Hw; cbn [lines_loop].
  - exists s, fm. split; [done|]. split; [split; try done; [by left|by left]|done].
  - destruct (single_ok env line id s vm fm Hok Hd Hw) as (ret & s1 & Hr & Hf & Hres). rewrite (SM_bind_Some _ _ _ _ _ Hr).
    assert (exists fm1, ran env s s1 fm fm1 /\ (~ clears line id -> s1 = s /\ fm1 = fm)) as (fm1 & Hran & Hno).
    { destruct Hres as [(Hc & Hok' & Hd' & fm1 & Hw' & Hfm)|(Hc & -> & _)].
      - exists fm1. split; [|by intros ?]. split; [done|by right|by apply cleared_alive|done|]. intros f. destruct Hfm as [(_ & ->)|(_ & ->)]; [|by left].
        destruct (decide (f = result_file env id)) as [->|]; [right; right; exists id; by destruct Hc|]. left. by rewrite lookup_insert_ne.
      - exists fm. split; [|done]. split; try done; [by left|by left]. }
    destruct (ran_ok _ _ _ _ _ _ Hok Hran) as (vm1 & Hok1).
    destruct (IH s1 vm1 fm1 Hok1 (ran_dump _ _ _ _ _ Hran) (ran_files _ _ _ _ _ Hran)) as (s2 & fm2 & Hr2 & Hran2 & Hno2).
    exists s2, fm2. split; [done|]. split; [by eapply ran_trans|]. intros [Hl Hls]%Forall_cons. destruct (Hno Hl) as (-> & ->). by apply Hno2.
Qed.

Lemma files_loop_skip (env : cmd_env) (pre names : list bytes) count s :
  Forall (fun x => cmd_name x = false) pre -> files_loop env (pre ++ names) count s = files_loop env names count s.
Proof. intros Hall. induction Hall as [|x pre Hx _ IH]; [done|]. cbn [app files_loop]. by rewrite Hx. Qed.

Lemma files_loop_ok (env : cmd_env) (names : list bytes) (count : Z) s vm (fm : gmap bytes bytes) :
  shm_ok (a_shm s) vm -> dump_alive (a_dump s) -> files (a_sys s) fm ->
  Forall (fun n => cmd_name n = true -> (3 <= length n)%nat) names -> 0 <= count -> count + blen names < 2 ^ 64 ->
  exists s' fm', files_loop env names count s = Some (count + blen (List.filter cmd_name names), s') /\ ran env s s' fm fm'.
Proof.
  revert count s vm fm. induction names as [|n names IH]; intros count s vm fm Hok Hd Hw Hall Hc Hlen; cbn [files_loop List.filter].
  - exists s, fm. split; [by rewrite blen_nil, Z.add_0_r|]. split; try done; [by left|by left].
  - apply Forall_cons in Hall as [Hn Hall]. rewrite blen_cons in Hlen. pose proof (blen_nonneg names).
    destruct (cmd_name n) eqn:En; [|apply (IH count s vm fm); try done; lia]. rewrite blen_cons, u64_small by lia.
    replace (count + (1 + blen (List.filter cmd_name names))) with (count + 1 + blen (List.filter cmd_name names)) by lia.
    destruct (file_content_ok (cmd_file env n) (a_sys s) fm Hw) as (r & w1 & Hr & Hw1 & _). fold (cmd_file env n).
    set (s1 := with_sys s (a_fb s) w1).
    rewrite (SM_bind_Some (on_host _) _ s r s1) by (unfold on_host; by rewrite Hr).
    assert (Hran1 : ran env s s1 fm fm) by (split; try done; [by left|by left]).
    destruct r as [content|].
    2:{ destruct (IH (count + 1) s1 vm fm) as (s2 & fm2 & Hr2 & Hran2); try done; [lia..|]. exists s2, fm2. split; [done|by eapply ran_trans]. }
    unfold substr_from. rewrite (proj2 (Nat.ltb_ge _ _)) by (cbn; by apply Hn). erewrite SM_bind_Some; [|reflexivity].
    destruct (lines_loop_ok env (getlines x0a (length content) content) (drop 3 n) s1 vm fm Hok Hd Hw1) as (s2 & fm2 & Hr2 & Hran2 & _).
    rewrite (SM_bind_Some _ _ _ _ _ Hr2).
    destruct (file_unlink_ok (cmd_file env n) (a_sys s2) fm2 (ran_files _ _ _ _ _ Hran2)) as (w3 & fm3 & Hr3 & Hw3 & Hfm3).
    set (s3 := with_sys s2 (a_fb s2) w3). rewrite (SM_bind_Some (on_host _) _ s2 tt s3) by (unfold on_host; by rewrite Hr3).
    assert (Hran3 : ran env s2 s3 fm2 fm3).
    { split; try done; [by left|by apply Hran2|]. intros f. destruct Hfm3 as [->| ->]; [by left|].
      destruct (decide (f = cmd_file env n)) as [->|]; [right; left; by exists n|]. left. by apply lookup_delete_ne. }
    pose proof (ran_trans _ _ _ _ _ _ _ (ran_trans _ _ _ _ _ _ _ Hran1 Hran2) Hran3) as Hran.
    destruct (ran_ok _ _ _ _ _ _ Hok Hran) as (vm3 & Hok3).
    destruct (IH (count + 1) s3 vm3 fm3 Hok3 (ran_dump _ _ _ _ _ Hran) Hw3 Hall) as (s4 & fm4 & Hr4 & Hran4); [lia..|].
    exists s4, fm4. split; [done|by eapply ran_trans].
Qed.

(** Reading the command directory. Either it cannot be opened, and the code for that is returned as the
    number of files, or all entries whose name starts with a character of the prefix are read, carried out
    and deleted, and counted: the table is as before or empty, and no file but these and the results is
    touched. If the first of these names has fewer characters than the prefix and can be opened, taking
    the rest of the name throws and nothing catches it. *)
Theorem cmd_proc_runs (env : cmd_env) s vm (fm : gmap bytes bytes) :
  shm_ok (a_shm s) vm -> dump_alive (a_dump s) -> files (a_sys s) fm ->
  exists dir w, dir_list (c_str (_cmd_dir env)) (a_sys s) = Some (dir, w) /\
    match dir with
    | None => qconf_cmd_proc env s = Some (QCONF_ERR_OPEN, with_sys s (a_fb s) w)
    | Some names =>
        (Forall (fun n => cmd_name n = true -> (3 <= length n)%nat) names -> blen names < 2 ^ 64 ->
          exists s' fm', qconf_cmd_proc env s = Some (blen (List.filter cmd_name names), s') /\ ran env s s' fm fm') /\
        (forall pre n rest content w', names = pre ++ n :: rest -> Forall (fun x => cmd_name x = false) pre -> cmd_name n = true -> (length n < 3)%nat ->
          file_content (cmd_file env n) w = Some (Some content, w') -> qconf_cmd_proc env s = None)
    end.
Proof.
  intros Hok Hd Hw. destruct (dir_list_ok (c_str (_cmd_dir env)) (a_sys s) fm Hw) as (dir & w & Hdir & Hw1).
  exists dir, w. split; [done|]. set (s1 := with_sys s (a_fb s) w).
  assert (Hstart : on_host (dir_list (c_str (_cmd_dir env))) s = Some (dir, s1)) by (unfold on_host; by rewrite Hdir).
  unfold qconf_cmd_proc. destruct dir as [names|]; [|by rewrite (SM_bind_Some _ _ _ _ _ Hstart)]. rewrite (SM_bind_Some _ _ _ _ _ Hstart). split.
  - intros Hall Hlen. destruct (files_loop_ok env names 0 s1 vm fm Hok Hd Hw1 Hall ltac:(lia) ltac:(lia)) as (s2 & fm2 & Hr & Hran).
    exists s2, fm2. split; [by rewrite Hr, Z.add_0_l|]. eapply ran_trans; [|exact Hran]. split; try done; [by left|by left].
  - intros pre n rest content w' -> Hpre Hn Hlen Hc. rewrite files_loop_skip by done. cbn [files_loop]. rewrite Hn.
    rewrite (SM_bind_Some (on_host _) _ s1 (Some content) (with_sys s1 (a_fb s1) w')) by (unfold on_host; cbn [a_sys with_sys s1]; fold (cmd_file env n); by rewrite Hc).
    unfold substr_from. rewrite (proj2 (Nat.ltb_lt _ _)) by done. done.
Qed.
End Thm.

(** ** A machine with files in memory *)

#[local] Instance mem_files : Files (gmap bytes bytes) := {|
  file_access f := fun m => Some (bool_decide (is_Some (m !! f)), m);
  file_mkdir _ _ := mret true;
  dir_list d := fun m => Some (Some (Zoo.child_names m d), m);
  file_content f := fun m => Some (m !! f, m);
  file_unlink f := fun m => Some (tt, delete f m);
  file_out a f c := fun m => Some (true, <[f := (if a then default [] (m !! f) else []) ++ c]> m)
|}.

#[local] Program Instance mem_files_laws : FilesLaws (gmap bytes bytes) := {| files w m := w = m |}.
Next Obligation. intros d w m ->. by eexists _, _. Qed.
Next Obligation. intros f w m ->. eexists _, _. split; [done|]. split; [done|]. by left. Qed.
Next Obligation. intros f w m ->. eexists _, _. split; [done|]. split; [done|]. by right. Qed.
Next Obligation. intros f c w m ->. by eexists true, _, _. Qed.

#[local] Instance no_os : OS (gmap bytes bytes) hstate := {|
  os_shmget _ _ _ := mret (-1, 0); os_shmat _ _ := mret (false, 0); os_msgget _ _ := mret (-1, 0);
  os_msgsnd _ _ := mret (-1, 0); os_msgrcv _ _ := mret (None, 0); os_usleep _ s := s; os_rand := mret 0
|}.
#[local] Instance no_host : Host (gmap bytes bytes) := mem_host ∅.

Definition demo_env : cmd_env := mkEnv (str "/q/cmd") (str "/q/result").
Definition demo_state (w : gmap bytes bytes) : agent hstate (gmap bytes bytes) (gmap bytes bytes) (gmap bytes bytes) :=
  mkAgent demo_shm (mkDump (str "/q/dumps/_dump.gdbm") true ∅) ∅ (mkGray [] ∅) (mkConf ∅ ∅) w
    (mkFeedback true []) (mkSettings 5 [] 3000 3000 false false false [] [] []) (mkHandles ∅ ∅)
    (mkQueues no_queue ∅ no_queue [] ∅).

Lemma demo_alive w : dump_alive (a_dump (demo_state w)).
Proof. split; [discriminate|]. by exists ∅. Qed.

Lemma demo_files w : files (a_sys (demo_state w)) w.
Proof. reflexivity. Qed.

#[local] Existing Instance laws40.

Lemma clear_all_silences_clients_witness :
  exists ret s' t', single_command_process demo_env (str "#clear-all#") (str "42") (demo_state ∅) = Some (ret, s') /\
    shm_ok (a_shm s') ∅ /\ dump_cleared (a_dump s') /\
    qconf_get_ (str "/a") [] QCONF_DATA_TYPE_NODE [] QCONF_WAIT (mkProc ∅ (sh_tbl (a_shm s')) true 5) =
      Some ((QCONF_ERR_NOT_FOUND, []), mkProc ∅ t' true 5).
Proof.
  destruct (clear_all_silences_clients demo_env (str "#clear-all#") (str "42") (demo_state ∅) ∅ ∅ demo_shm_ok (demo_alive ∅) (demo_files ∅))
    as (ret & s' & Hr & _ & Hc & _).
  assert (Hcl : clears (str "#clear-all#") (str "42")) by (split; [discriminate|vm_compute; reflexivity]). destruct (Hc Hcl) as (Hok & Hd & _ & Hget).
  destruct (Hget (mkProc ∅ (sh_tbl (a_shm s')) true 5) (str "/a") [] QCONF_DATA_TYPE_NODE QCONF_WAIT) as (t' & Hg & _); [split; [reflexivity|discriminate]|reflexivity|].
  exists ret, s', t'. split; [exact Hr|]. split; [exact Hok|]. split; [exact Hd|exact Hg].
Defined.

Definition demo_cmds : gmap bytes bytes := {[ str "/q/cmd/cmd42" := str "clear-all"; str "/q/cmd/other" := str "x" ]}.
Definition demo_short : gmap bytes bytes := {[ str "/q/cmd/c" := [] ]}.

Lemma cmd_proc_runs_witness :
  (exists s', qconf_cmd_proc demo_env (demo_state demo_cmds) = Some (1, s')) /\ qconf_cmd_proc demo_env (demo_state demo_short) = None.
Proof.
  split.
  - destruct (cmd_proc_runs demo_env (demo_state demo_cmds) ∅ demo_cmds demo_shm_ok (demo_alive _) (demo_files _)) as (dir & w' & Hd & Hres).
    change (Some (Some (Zoo.child_names demo_cmds (str "/q/cmd")), demo_cmds) = Some (dir, w')) in Hd. injection Hd as <- <-.
    destruct Hres as [Hall _]. destruct Hall as (s' & fm' & Hr & _).
    + apply (bool_decide_unpack _). vm_compute. exact Logic.I.
    + vm_compute. reflexivity.
    + exists s'. rewrite Hr. do 2 f_equal.
  - destruct (cmd_proc_runs demo_env (demo_state demo_short) ∅ demo_short demo_shm_ok (demo_alive _) (demo_files _)) as (dir & w' & Hd & Hres).
    change (Some (Some (Zoo.child_names demo_short (str "/q/cmd")), demo_short) = Some (dir, w')) in Hd. injection Hd as <- <-.
    destruct Hres as [_ Hbad]. apply (Hbad [] (str "c") [] [] demo_short); [reflexivity|constructor|reflexivity|apply Nat.ltb_lt; reflexivity|].
    change (Some (demo_short !! str "/q/cmd/c", demo_short) = Some (Some [], demo_short)). reflexivity.
Defined.
End CmdThm.
