(* ===== verification/AgentMain.v ===== *)
(** * The agent as a program ([src/agent/qconf_agent.cc], [watcher_setting_start])

    [main] takes the lock of the pid file, loads the configuration, goes to the background, sets up every
    component and starts the threads. The state of the process is the state of the agent with the
    variables of the command directory and the logs. *)

From S2P Require Import Prelude Common Text HashArr Format Store Shm Sys ShmInit Config Dump Zoo Gray Script Feedback Agent Watcher Cmd Daemon Log.

(** Creating a thread: whether it succeeded. *)
Inductive thread := assist_watcher_thread | msg_thread | change_trigger_thread | gray_thread.
Class Threads (W : Type) := { thread_create : thread -> SM W bool }.

Module AgentMain.
Import HashArr Shm Msg Config Dump Agent Watcher Cmd Daemon Log.

Definition QCONF_PID_FILE : bytes := str "/pid".
Definition QCONF_LOG_FMT : bytes := str "/logs/qconf.log.%Y-%m-%d-%H".
Definition QCONF_ZOO_LOG : bytes := str "zoo.err.log".
Definition QCONF_MAX_SLOTS_NUM : Z := 800000.
Definition QCONF_DEFAULT_REGIESTER_PREFIX : bytes := str "/qconf/__qconf_register_hosts".
Definition QCONF_KEY_DAEMON_MODE : bytes := str "daemon_mode".
Definition QCONF_KEY_LOG_FMT : bytes := str "log_fmt".
Definition QCONF_KEY_LOG_LEVEL : bytes := str "log_level".
Definition QCONF_KEY_ZKRECVTIMEOUT : bytes := str "zookeeper_recv_timeout".
Definition QCONF_KEY_REGISTER_NODE_PREFIX : bytes := str "register_node_prefix".
Definition QCONF_KEY_ZKLOG_PATH : bytes := str "zk_log".
Definition QCONF_KEY_FEEDBACK_ENABLE : bytes := str "feedback_enable".
Definition QCONF_KEY_FEEDBACK_URL : bytes := str "feedback_url".
Definition QCONF_KEY_SCEXECTIMEOUT : bytes := str "script_execute_timeout".
Definition SHARED_MEMORY_SIZE : bytes := str "shared_memory_size".

Section Main.
Context {G K W : Type} `{Gdbm G} `{Zk K} `{OS W hstate} `{Host W} `{Files W} `{Procs W} `{CurlSetup W} `{LogSys W} `{ZooLog W} `{Threads W}.

(** The directory of the agent; name resolution and the files of the configuration; the buffer and the host
    name of the watcher; and what the other threads, the handlers of signals and the world outside do
    while this thread waits. *)
Variables (agent_dir : bytes) (resolve conf_files : bytes -> option bytes) (buf_ok : bool) (hostname : bytes).
Variable others : SM (agent hstate G K W) unit.

Record process := mkProcess {
  p_agent : agent hstate G K W;
  p_env : cmd_env;
  p_log : log;
  zoo_log_fp : bool
}.

Abbreviation AM := (SM (agent hstate G K W)).
Abbreviation PM := (SM process).

Definition on_agent {A} (c : AM A) : PM A := fun s =>
  match c (p_agent s) with Some (a, x) => Some (a, mkProcess x (p_env s) (p_log s) (zoo_log_fp s)) | None => None end.
Definition on_sys {A} (c : SM W A) : PM A := on_agent (on_host c).
Definition on_log {A} (c : SM (log * W) A) : PM A := fun s =>
  match c (p_log s, a_sys (p_agent s)) with
  | Some (a, (l, w)) => Some (a, mkProcess (with_sys (p_agent s) (a_fb (p_agent s)) w) (p_env s) l (zoo_log_fp s))
  | None => None
  end.
Definition set_env (env : cmd_env) : PM unit := modify (fun s => mkProcess (p_agent s) env (p_log s) (zoo_log_fp s)).
Definition set_zoo_log (b : bool) : PM unit := modify (fun s => mkProcess (p_agent s) (p_env s) (p_log s) b).
Definition set_conf (c : conf) : PM unit := modify (fun s =>
  let a := p_agent s in
  mkProcess (mkAgent (a_shm a) (a_dump a) (a_zk a) (a_gray a) c (a_sys a) (a_fb a) (a_set a) (a_ht a) (a_q a)) (p_env s) (p_log s) (zoo_log_fp s)).
Definition set_script_dir (v : bytes) (g : settings) : settings :=
  mkSettings (msg_queue_id g) (register_node_path g) (recv_timeout g) (scexec_timeout g) (stop_watcher_setting g) (fb_enable g)
    (finish_process_tbl_sleep_setting g) (watcher_local_idc g) v (feedback_ip g).

(** [get_agent_conf], and a number of the configuration or the default. *)
Definition conf_value (key value : bytes) : PM (Z * bytes) := gets (fun s => get_agent_conf (a_conf (p_agent s)) key value).
Definition conf_integer (key value : bytes) (default : Z) : PM (bytes * Z) :=
  '(ret, value) ← conf_value key value;
  mret (value, if ret =? QCONF_OK then (get_integer value default).2 else default).

(** [qconf_init_zoo_log] and [qconf_destroy_zoo_log] of [qconf_zoo.cc]. *)
Definition qconf_init_zoo_log (log_dir zoo_log : bytes) : PM Z :=
  if bool_decide (log_dir = []) || bool_decide (zoo_log = []) then mret QCONF_ERR_PARAM else
  on_sys (sys_umask 0);;
  opened ← on_sys (zlog_fopen (c_str (log_dir ++ str "/" ++ zoo_log)));
  set_zoo_log opened;;
  if negb opened then mret QCONF_ERR_FAILED_OPEN_FILE else
  on_sys zlog_set;;
  mret QCONF_OK.

Definition qconf_destroy_zoo_log : PM unit :=
  fp ← gets zoo_log_fp;
  if (fp : bool) then on_sys zlog_fclose;; set_zoo_log false else mret tt.

(** ** Setting up *)

(** The part of [qconf_agent_init] that is compiled with curl. *)
Definition init_feedback (value : bytes) : PM Z :=
  '(value, fd_enable) ← conf_integer QCONF_KEY_FEEDBACK_ENABLE value 0;
  if negb (1 =? fd_enable) then mret QCONF_OK else
  on_agent (qconf_init_fb_flg true);;
  '(ret, value) ← conf_value QCONF_KEY_FEEDBACK_URL value;
  if negb (ret =? QCONF_OK) then mret ret else
  ret ← on_agent (on_fb (Feedback.qconf_init_feedback value));
  mret ret.

(** From the message queue on. *)
Definition init_settings (value : bytes) : PM Z :=
  ret ← on_agent qconf_init_msg_key;
  if negb (ret =? QCONF_OK) then mret ret else
  '(ret, value) ← conf_value QCONF_KEY_REGISTER_NODE_PREFIX value;
  on_agent (qconf_init_rgs_node_pfx (if ret =? QCONF_OK then value else QCONF_DEFAULT_REGIESTER_PREFIX));;
  '(value, zk_timeout) ← conf_integer QCONF_KEY_ZKRECVTIMEOUT value 3000;
  on_agent (qconf_init_recv_timeout (i32 zk_timeout));;
  '(ret, value) ← conf_value QCONF_KEY_LOCAL_IDC value;
  if negb (ret =? QCONF_OK) then mret ret else
  ret ← on_agent (qconf_init_local_idc value);
  if negb (ret =? QCONF_OK) then mret ret else
  on_agent (upd_set (set_script_dir (Script.qconf_init_script_dir agent_dir)));;
  '(value, sc_timeout) ← conf_integer QCONF_KEY_SCEXECTIMEOUT value 3000;
  on_agent (qconf_init_scexec_timeout (i32 sc_timeout));;
  init_feedback value.

Definition qconf_agent_init (maxSlotsNum : Z) (log_dir : bytes) : PM Z :=
  '(ret, value) ← conf_value QCONF_KEY_ZKLOG_PATH [];
  qconf_init_zoo_log log_dir (if ret =? QCONF_OK then value else QCONF_ZOO_LOG);;
  '(ret, env) ← on_sys (qconf_init_cmd_env agent_dir);
  set_env env;;
  if negb (ret =? QCONF_OK) then mret ret else
  ret ← on_agent (on_dump (qconf_init_dump_file agent_dir));
  if negb (ret =? QCONF_OK) then mret ret else
  ret ← on_agent (qconf_init_shm_tbl maxSlotsNum);
  if negb (ret =? QCONF_OK) then mret ret else
  init_settings value.

Definition qconf_agent_destroy : PM unit :=
  on_agent (on_fb Feedback.qconf_destroy_feedback);;
  on_agent qconf_destroy_zk;;
  set_conf (mkConf ∅ ∅);;
  on_agent (on_dump qconf_destroy_dbf);;
  qconf_destroy_zoo_log;;
  on_log qconf_destroy_log.

(** ** The threads *)

(** The main thread: it waits, others run, and when the queue has a key or the agent stops it does a round. *)
Fixpoint deque_process (rounds : nat) : AM unit :=
  match rounds with
  | O => undefined
  | S rounds' =>
      stop ← gets (fun s => stop_watcher_setting (a_set s));
      if (stop : bool) then mret tt else
      others;;
      stop ← gets (fun s => stop_watcher_setting (a_set s));
      need ← gets (fun s => q_need (watch_nodes (a_q s)));
      if negb stop && bool_decide (need = []) then deque_process rounds' else
      deque_step buf_ok hostname;;
      deque_process rounds'
  end.

(** Wait for threads to end. *)
Definition join (threads : list thread) : AM unit := match threads with [] => mret tt | _ => others end.

(** Create the threads one by one; those that run are in [running]. The main loop follows. *)
Fixpoint start_threads (rounds : nat) (todo running : list thread) : AM Z :=
  match todo with
  | [] =>
      deque_process rounds;;
      qconf_thread_exit;;
      join running;;
      mret QCONF_OK
  | t :: todo' =>
      created ← on_host (thread_create t);
      if (created : bool) then start_threads rounds todo' (t :: running) else
      (if decide (running = []) then mret tt else qconf_thread_exit;; join running);;
      mret QCONF_ERR_OTHER
  end.

Definition watcher_setting_start (rounds : nat) : AM Z :=
  start_threads rounds [assist_watcher_thread; msg_thread; change_trigger_thread; gray_thread] [].

(** The handler of the signals that [main] sets. *)
Definition sig_handler (sig : Z) : PM unit :=
  env ← gets p_env;
  if (sig =? SIGTERM) || (sig =? SIGUSR2) then on_agent qconf_thread_exit
  else if sig =? SIGUSR1 then on_agent (qconf_cmd_proc env);; mret tt
  else mret tt.

(** ** [main] *)

(** The idc that the command line names: what follows the first equal sign. *)
Definition localidc_arg (argv : list bytes) : bytes :=
  match argv with
  | [_; s] => match split_at x3d s with Some (_, rest) => drop 1 rest | None => s end
  | _ => []
  end.

(** The directory part of a path. *)
Definition dir_part (s : bytes) : bytes :=
  match rfind x2f s with None => str "." | Some pos => take pos s end.

Definition load_conf (localidc : bytes) : PM Z := fun s =>
  match qconf_load_conf resolve conf_files agent_dir localidc (a_conf (p_agent s)) with
  | Some (ret, c) => (set_conf c;; mret ret) s
  | None => None
  end.

(** To the background, or only the pid file; [Some] when [main] ends here. *)
Definition go_background (fuel : nat) (daemon_mode pid_fd : Z) (pid_file : bytes) : PM (option (outcome Z)) :=
  if negb (daemon_mode =? 0) then
    on_sys (sys_close pid_fd);;
    r ← on_sys (qconf_agent_daemon_keepalive fuel pid_file);
    match r with
    | Exits code => mret (Some (Exits code))
    | Returns ret =>
        if ret =? QCONF_OK then mret None else
        on_log qconf_destroy_log;;
        mret (Some (Returns ret))
    end
  else
    pid ← on_sys sys_getpid;
    on_sys (write_pid pid_fd pid);;
    mret None.

(** From the handlers of signals on: the work of the process that is the agent. *)
Definition serve (rounds : nat) (value log_dir : bytes) : PM (outcome Z) :=
  on_sys (sys_signal SIGPIPE SIG_IGN);;
  on_sys (set_signals [SIGINT; SIGHUP; SIGTERM; SIGUSR1; SIGUSR2] Handler);;
  '(ret, value) ← conf_value SHARED_MEMORY_SIZE value;
  let maxSlotsNum := if ret =? QCONF_OK then atoi value else QCONF_MAX_SLOTS_NUM in
  ret ← qconf_agent_init maxSlotsNum log_dir;
  if negb (ret =? QCONF_OK) then mret (Returns ret) else
  on_agent (watcher_setting_start rounds);;
  qconf_agent_destroy;;
  mret (Returns QCONF_OK).

Definition main (fuel rounds : nat) (argv : list bytes) : PM (outcome Z) :=
  on_log (qconf_set_log_level QCONF_LOG_INFO);;
  let pid_file := agent_dir ++ QCONF_PID_FILE in
  '(ret, pid_fd) ← on_sys (check_proc_exist pid_file);
  if negb (ret =? QCONF_OK) then mret (Returns ret) else
  ret ← load_conf (localidc_arg argv);
  if negb (ret =? QCONF_OK) then mret (Returns ret) else
  '(value, daemon_mode) ← conf_integer QCONF_KEY_DAEMON_MODE [] 1;
  '(ret, value) ← conf_value QCONF_KEY_LOG_FMT value;
  let log_fmt := if ret =? QCONF_OK then value else agent_dir ++ QCONF_LOG_FMT in
  let log_dir := dir_part log_fmt in
  '(value, log_level) ← conf_integer QCONF_KEY_LOG_LEVEL value QCONF_LOG_ERR;
  on_log (qconf_log_init log_fmt (i32 log_level));;
  r ← go_background fuel daemon_mode pid_fd pid_file;
  match r with
  | Some out => mret out
  | None => serve rounds value log_dir
  end.
End Main.
End AgentMain.
