(* ===== verification/AgentMainThm.v ===== *)
(** * Starting the agent

    An agent that starts on the table of its predecessor takes every value over and can evict any of
    them; a table with one damaged value stops every start. *)

From S2P Require Import Prelude Common Text HashArr HashArrInv HashArrSpec HashArrThm Format FormatThm Store Shm ShmThm ShmWalk Sys ShmInit Driver DriverThm Config Dump Zoo Gray Script Feedback Agent Watcher WatcherThm Cmd Daemon Log AgentMain.

(** The calls that setting up makes return; opening the dump gives the database that is in the file. *)
Class StartLaws (G W : Type) `{GdbmLaws G} `{Host W} `{Files W} `{Procs W} `{CurlSetup W} `{ZooLog W} := {
  umask_total : forall m w, exists w', sys_umask m w = Some (tt, w');
  access_total : forall f w, exists r w', file_access f w = Some (r, w');
  mkdir_total : forall f m w, exists r w', file_mkdir f m w = Some (r, w');
  hostname_total : forall w, exists r w', host_name w = Some (r, w');
  zlog_fopen_total : forall f w, exists r w', zlog_fopen f w = Some (r, w');
  zlog_set_total : forall w, exists w', zlog_set w = Some (tt, w');
  global_init_total : forall w, exists r w', curl_global_init w = Some (r, w');
  easy_init_total : forall w, exists r w', curl_easy_init w = Some (r, w');
  setopt_url_total : forall u w, exists w', curl_setopt_url u w = Some (tt, w');
  setopt_post_total : forall w, exists w', curl_setopt_post w = Some (tt, w');
  dump_access_total : forall f g, exists r g', fs_access f g = Some (r, g');
  dump_mkdir_total : forall f m g, exists r g', fs_mkdir f m g = Some (r, g');
  gdbm_open_old : forall f g, exists r g', gdbm_open f GDBM_WRCREAT g = Some (r, g') /\ (r = true -> exists m, db_rep g' m)
}.

Module AgentMainThm.
Import HashArr Format Shm ShmWalk Msg ShmInit Config Dump Agent Watcher WatcherThm Cmd Daemon Log AgentMain.

(** ** The table at start-up *)

(** What the agent holds: a table of some number of slots with typed values, every key but the local idc
    in the list of visited keys. *)
Definition table_of (M : Z) (HM : 0 < M < 2 ^ 31) (t : hstate) (vm : gmap kid bytes) : Prop :=
  let _ := hasharr_laws M HM in
  s_rep t (with_code <$> vm) /\ map_Forall (fun _ (v : bytes) => blen v < 2 ^ 32) vm /\ table_typed vm.

Definition lists_keys (M : Z) (HM : 0 < M < 2 ^ 31) (s : shm hstate) (vm : gmap kid bytes) : Prop :=
  let _ := hasharr_laws M HM in
  forall key, key ∈ lru_keys (the_lru s) <-> key <> QCONF_KEY_TYPE_LOCAL_IDC /\ exists v, typed key v /\ vm !! s_ident key = Some v.

Definition holds_table (M : Z) (HM : 0 < M < 2 ^ 31) (s : shm hstate) (vm : gmap kid bytes) : Prop :=
  let _ := hasharr_laws M HM in shm_ok s vm /\ table_typed vm /\ lists_keys M HM s vm.

Lemma init_lru_table (M : Z) (HM : 0 < M < 2 ^ 31) (t : hstate) (vm : gmap kid bytes) :
  table_of M HM t vm ->
  exists s', initLruMem (mkShm t None) = Some (true, s') /\ holds_table M HM s' vm.
Proof.
  intros (Hr & Hv & Ht). set (L := hasharr_laws M HM).
  assert (Hok : shm_ok (T := hstate) (mkShm t None) vm).
  { split; [done|done|apply new_LRU_ok|apply not_elem_of_nil]. }
  destruct (initLruMem_ok (mkShm t None) vm Hok eq_refl Ht) as (s' & Hrun & Hok' & Hks). exists s'. by split.
Qed.

Lemma empty_table (t : qhasharr_t) : tbl_ok t ∅ -> 0 < maxslots t < 2 ^ 31 ->
  exists HM, forall e, table_of (maxslots t) HM (HS e (Some t)) ∅.
Proof.
  intros Hok HM. exists HM. intros e. split; [|split; [apply map_Forall_empty|by intros k v E]].
  rewrite fmap_empty. exists t. by split.
Qed.

Section Start.
Context {G K W : Type} `{OS W hstate} `{!OSTotal W hstate}.
Implicit Types s : agent hstate G K W.

(** What [qconf_init_shm_tbl] leaves alone. *)
Record start_frame s s' : Prop := {
  sf_dump : a_dump s' = a_dump s; sf_zk : a_zk s' = a_zk s; sf_gray : a_gray s' = a_gray s; sf_conf : a_conf s' = a_conf s;
  sf_fb : a_fb s' = a_fb s; sf_set : a_set s' = a_set s; sf_ht : a_ht s' = a_ht s; sf_q : a_q s' = a_q s
}.

(** The two steps, one after the other. *)
Lemma init_shm_steps (max : Z) s ret (tbl : bool) w t :
  create_hash_tbl max false QCONF_DEFAULT_SHM_KEY 420 (a_sys s, sh_tbl (a_shm s)) = Some ((ret, tbl), (w, t)) ->
  let s1 := with_sys (with_shm s (mkShm t (lruInstance (a_shm s)))) (a_fb s) w in
  qconf_init_shm_tbl max s =
    (if ret =? QCONF_OK then initRet ← on_shm (initLruMem (T := hstate)); mret (if (initRet : bool) then ret else QCONF_ERR_MEM)
     else mret ret) s1.
Proof.
  intros Hc. cbn zeta. unfold qconf_init_shm_tbl. erewrite SM_bind_Some by (unfold on_msg; rewrite Hc; reflexivity). done.
Qed.

Lemma init_shm_ok (max M : Z) (HM : 0 < M < 2 ^ 31) (vm : gmap kid bytes) s :
  1 <= max <= 10000000 -> lruInstance (a_shm s) = None -> table_of M HM (sh_tbl (a_shm s)) vm ->
  exists ret s', qconf_init_shm_tbl max s = Some (ret, s') /\ start_frame s s' /\ ret <> QCONF_ERR_MEM /\
    (ret = QCONF_OK -> holds_table M HM (a_shm s') vm \/ exists HM', holds_table max HM' (a_shm s') ∅).
Proof.
  intros Hmax Hlru Htab.
  destruct (create_hash_tbl_ok max false QCONF_DEFAULT_SHM_KEY 420 (a_sys s, sh_tbl (a_shm s)) Hmax) as (ret & tbl & [w t] & Hc & Hok & Hfail).
  pose proof (init_shm_steps max s ret tbl w t Hc) as Hrun. cbn zeta in Hrun. cbn [snd] in *.
  rewrite Hlru in Hrun. set (s1 := with_sys (with_shm s (mkShm t None)) (a_fb s) w) in *.
  destruct (Z.eqb_spec ret QCONF_OK) as [->|Hne].
  2:{ exists ret, s1. split; [done|]. split; [by split|]. destruct (Hfail Hne) as [_ [-> | ->]]; done. }
  assert (Hgo : forall M' HM' vm', table_of M' HM' t vm' -> exists s', qconf_init_shm_tbl max s = Some (QCONF_OK, s') /\ start_frame s s' /\
    holds_table M' HM' (a_shm s') vm').
  { intros M' HM' vm' Ht. destruct (init_lru_table M' HM' t vm' Ht) as (x & Hinit & Hx). exists (with_shm s1 x). split; [|by split].
    rewrite Hrun. by erewrite SM_bind_Some by (apply on_shm_ok; exact Hinit). }
  destruct (Hok eq_refl) as (_ & [E|([M' u n l] & Et & Em & Htb)]).
  - cbn in E. subst t. destruct (Hgo M HM vm Htab) as (s' & Hr & Hf & Hh). exists QCONF_OK, s'. split; [done|]. split; [done|]. split; [done|auto].
  - cbn in Em. subst M'. destruct (empty_table (Tbl max u n l) Htb) as (HM' & Hemp); [cbn; lia|].
    destruct t as [e o]. cbn in Et. subst o. destruct (Hgo max HM' ∅ (Hemp e)) as (s' & Hr & Hf & Hh).
    exists QCONF_OK, s'. split; [done|]. split; [done|]. split; [done|eauto].
Qed.

(** The segment of an earlier agent is there, and the system attaches it. *)
Definition segment_there (max : Z) (w : W) : Prop :=
  exists e1 w1 id e2 w2 e3 w3,
    os_shmget (T := hstate) QCONF_DEFAULT_SHM_KEY (qhasharr_calculate_memsize max) (Z.lor (Z.lor IPC_CREAT IPC_EXCL) 420) w = Some ((-1, e1), w1) /\
    e1 = EEXIST /\ os_shmget (T := hstate) QCONF_DEFAULT_SHM_KEY 0 420 w1 = Some ((id, e2), w2) /\ id <> -1 /\
    os_shmat (T := hstate) id 0 w2 = Some ((true, e3), w3).

Lemma create_attaches (max : Z) (w : W) (t : hstate) :
  segment_there max w -> exists w', create_hash_tbl max false QCONF_DEFAULT_SHM_KEY 420 (w, t) = Some ((QCONF_OK, true), (w', t)).
Proof using.
  clear OSTotal0. intros (e1 & w1 & id & e2 & w2 & e3 & w3 & H1 & -> & H2 & Hid & H3). exists w3. unfold create_hash_tbl.
  erewrite SM_bind_Some by (apply sys_ok; exact H1). cbv beta iota. change (-1 =? -1) with true. cbv beta iota. rewrite Z.eqb_refl.
  unfold init_hash_tbl. erewrite SM_bind_Some by (apply sys_ok; exact H2). cbv beta iota.
  destruct (Z.eqb_spec id (-1)); [done|]. erewrite SM_bind_Some by (apply sys_ok; exact H3). done.
Qed.

(** C36. A restarted agent takes the table of its predecessor over. When the segment is there and its values
    are well formed, setting the table up succeeds, keeps every value, and leaves every key but the local
    idc in the list of visited keys, in full, although the slots hold only their first 32 bytes; storing
    another value then evicts as it should, and fails only when at most the local idc and a value of that
    key are left. *)
Theorem startup_recovers (max M : Z) (HM : 0 < M < 2 ^ 31) (vm : gmap kid bytes) s :
  segment_there max (a_sys s) -> lruInstance (a_shm s) = None -> table_of M HM (sh_tbl (a_shm s)) vm ->
  let _ := hasharr_laws M HM in
  exists s', qconf_init_shm_tbl max s = Some (QCONF_OK, s') /\ start_frame s s' /\ shm_ok (a_shm s') vm /\ lists_keys M HM (a_shm s') vm /\
    forall key val, key <> [] -> blen key < 65536 -> blen val < 2 ^ 32 -> s_load (with_code <$> vm) key < 2 ^ 15 - 1 ->
      exists ret x vm', hash_tbl_set key val (a_shm s') = Some (ret, x) /\ shm_ok x vm' /\
        (ret <> QCONF_ERR_TBL_SET -> vm' !! s_ident key = Some val) /\
        (ret = QCONF_ERR_TBL_SET -> forall k, is_Some (vm' !! k) -> k = s_ident key \/ k = s_ident QCONF_KEY_TYPE_LOCAL_IDC).
Proof using.
  clear OSTotal0. intros Hseg Hlru Htab L. destruct (create_attaches max (a_sys s) (sh_tbl (a_shm s)) Hseg) as (w' & Hc).
  pose proof (init_shm_steps max s _ _ _ _ Hc) as Hrun. cbn zeta in Hrun. rewrite Hlru in Hrun.
  set (s1 := with_sys (with_shm s (mkShm (sh_tbl (a_shm s)) None)) (a_fb s) w') in *.
  destruct (init_lru_table M HM _ vm Htab) as (x & Hinit & Hok & Hty & Hks). exists (with_shm s1 x). split.
  { rewrite Hrun. cbn [Z.eqb QCONF_OK]. by erewrite SM_bind_Some by (apply on_shm_ok; exact Hinit). }
  split; [by split|]. split; [done|]. split; [done|]. intros key val Hkn Hkl Hvl Hload.
  destruct (hash_tbl_set_ok key val x vm Hok Hkn Hkl Hvl Hload) as (ret & x' & vm' & ev & Hset & Hok' & Hout & Hev & _).
  exists ret, x', vm'. split; [done|]. split; [done|]. split.
  - intros Hne. destruct Hout as [(_ & Hl & -> & _)|[(_ & Hl & _)|(-> & _)]]; done.
  - intros -> k [v Hv]. destruct Hout as [(? & _)|[(? & _)|(_ & _ & <- & _)]]; [done|done|].
    destruct (decide (k = s_ident key)) as [|Hk]; [by left|right]. rewrite (Hev k Hk) in Hv. case_decide as Hin; [done|].
    destruct (Hty _ _ Hv) as (key' & -> & Hty'). destruct (decide (key' = QCONF_KEY_TYPE_LOCAL_IDC)) as [->|Hn]; [done|].
    destruct Hin. apply list_elem_of_fmap. exists key'. split; [done|]. apply Hks. split; [done|]. by exists v.
Qed.

(** C37. One damaged value in the table -- left, say, by an agent that was killed while it wrote, and which
    every reader refuses -- stops every later start: setting the table up fails with [QCONF_ERR_MEM] as
    long as the segment is there. *)
Theorem startup_blocked (max M : Z) (HM : 0 < M < 2 ^ 31) (m : gmap kid bytes) (k : kid) (cv : bytes) s :
  segment_there max (a_sys s) -> lruInstance (a_shm s) = None ->
  let _ := hasharr_laws M HM in
  s_rep (sh_tbl (a_shm s)) m -> map_Forall (fun _ (v : bytes) => 4 <= blen v) m -> m !! k = Some cv -> damaged cv ->
  exists s', qconf_init_shm_tbl max s = Some (QCONF_ERR_MEM, s').
Proof using.
  clear OSTotal0. intros Hseg Hlru L Hr Hall Hk Hd. destruct (create_attaches max (a_sys s) (sh_tbl (a_shm s)) Hseg) as (w' & Hc).
  pose proof (init_shm_steps max s _ _ _ _ Hc) as Hrun. cbn zeta in Hrun. rewrite Hlru in Hrun.
  set (s1 := with_sys (with_shm s (mkShm (sh_tbl (a_shm s)) None)) (a_fb s) w') in *.
  destruct (initLruMem_damaged (mkShm (sh_tbl (a_shm s)) None) m k cv Hr new_LRU_ok Hall Hk Hd) as (x & Hinit).
  exists (with_shm s1 x). rewrite Hrun. cbn [Z.eqb QCONF_OK]. by erewrite SM_bind_Some by (apply on_shm_ok; exact Hinit).
Qed.
End Start.

(** ** Setting the agent up *)

Section Setup.
Context {G K W : Type} `{OS W hstate} `{!OSTotal W hstate} `{Gdbm G} `{Zk K} `{!GdbmLaws G} `{Host W} `{Files W} `{Procs W}
  `{CurlSetup W} `{LogSys W} `{ZooLog W} `{Threads W} `{!StartLaws G W}.
Variable agent_dir : bytes.
Implicit Types s : process (G := G) (K := K) (W := W).
Abbreviation PM := (SM (process (G := G) (K := K) (W := W))).

(** The parts of the process that most steps leave alone. *)
Record rest_kept s s' : Prop := {
  rk_shm : a_shm (p_agent s') = a_shm (p_agent s); rk_dump : a_dump (p_agent s') = a_dump (p_agent s);
  rk_conf : a_conf (p_agent s') = a_conf (p_agent s)
}.

(** A step that returns and leaves the table, the dump and the configuration alone; [R] relates its result
    and the settings before and after. *)
Definition sets {A} (c : PM A) (R : A -> settings -> settings -> Prop) s : Prop :=
  exists a s', c s = Some (a, s') /\ rest_kept s s' /\ R a (a_set (p_agent s)) (a_set (p_agent s')).

(** The settings stay. *)
Definition same {A} (_ : A) (g g' : settings) : Prop := g' = g.

Lemma sys_step {A} (c : SM W A) s a w :
  c (a_sys (p_agent s)) = Some (a, w) ->
  on_sys c s = Some (a, mkProcess (with_sys (p_agent s) (a_fb (p_agent s)) w) (p_env s) (p_log s) (zoo_log_fp s)).
Proof using. intros E. unfold on_sys, on_agent, Agent.on_host. by rewrite E. Qed.

Lemma agent_step {A} (c : SM (agent hstate G K W) A) s a x :
  c (p_agent s) = Some (a, x) -> on_agent c s = Some (a, mkProcess x (p_env s) (p_log s) (zoo_log_fp s)).
Proof using. intros E. unfold on_agent. by rewrite E. Qed.

Lemma sets_sys {A} (c : SM W A) s : (forall w, exists a w', c w = Some (a, w')) -> sets (on_sys c) same s.
Proof using. intros Hc. destruct (Hc (a_sys (p_agent s))) as (a & w & E). eexists a, _. split; [by apply sys_step|]. by split. Qed.

Lemma sets_set (f : settings -> settings) s : sets (on_agent (upd_set f)) (fun _ g g' => g' = f g) s.
Proof using. eexists tt, _. split; [by apply agent_step|]. by split. Qed.

Lemma sets_then {A B} (c : PM A) (d : A -> PM B) R s :
  sets c same s -> (forall a s', sets (d a) R s') -> sets (c ≫= d) R s.
Proof using.
  intros (a & s1 & Hc & [E1 E2 E3] & Es) Hd. destruct (Hd a s1) as (b & s2 & Hr & [F1 F2 F3] & Fs).
  exists b, s2. rewrite (SM_bind_Some _ _ _ _ _ Hc). split; [done|]. split; [split; congruence|]. by rewrite Es in Fs.
Qed.

Lemma sets_ret {A} (a : A) s : sets (mret a) same s.
Proof using. by exists a, s. Qed.

Lemma sets_conf key value s : sets (conf_value key value) same s.
Proof using. by eexists _, s. Qed.

Lemma sets_integer key value d s : sets (conf_integer key value d) same s.
Proof using. unfold conf_integer. apply sets_then; [apply sets_conf|]. intros [r v] s'. apply sets_ret. Qed.

Lemma unit_total (c : W -> option (unit * W)) : (forall w, exists w', c w = Some (tt, w')) -> forall w, exists a w', c w = Some (a, w').
Proof using. intros Hc w. destruct (Hc w) as (w' & E). by exists tt, w'. Qed.

Lemma sets_zoo_log dir name s : sets (qconf_init_zoo_log dir name) same s.
Proof.
  unfold qconf_init_zoo_log. case_match; [apply sets_ret|].
  apply sets_then; [by apply sets_sys, unit_total, umask_total|]. intros _ s1.
  apply sets_then; [by apply sets_sys, zlog_fopen_total|]. intros opened s2.
  apply sets_then; [by eexists tt, _|]. intros _ s3. destruct opened; cbn [negb]; [|apply sets_ret].
  apply sets_then; [by apply sets_sys, unit_total, zlog_set_total|]. intros _ s4. apply sets_ret.
Qed.

Lemma ensure_dir_total dir w : exists r w', ensure_dir dir w = Some (r, w').
Proof.
  unfold ensure_dir. destruct (access_total (c_str dir) w) as (b & w1 & E). rewrite (SM_bind_Some _ _ _ _ _ E).
  destruct b; [by eexists _, _|]. destruct (mkdir_total (c_str dir) 493 w1) as (b & w2 & E2). rewrite (SM_bind_Some _ _ _ _ _ E2). by eexists _, _.
Qed.

Lemma cmd_env_total w : exists r w', qconf_init_cmd_env agent_dir w = Some (r, w').
Proof.
  unfold qconf_init_cmd_env. destruct (ensure_dir_total (_cmd_dir (mkEnv (agent_dir ++ str "/cmd") (agent_dir ++ str "/result"))) w) as (r & w1 & E).
  rewrite (SM_bind_Some _ _ _ _ _ E). destruct (negb _); [by eexists _, _|].
  destruct (ensure_dir_total (_result_dir (mkEnv (agent_dir ++ str "/cmd") (agent_dir ++ str "/result"))) w1) as (r2 & w2 & E2).
  rewrite (SM_bind_Some _ _ _ _ _ E2). by eexists _, _.
Qed.

Lemma msg_key_sets s : sets (on_agent qconf_init_msg_key) (fun ret g g' => exists id, g' = set_msg_queue_id id g /\ (ret = QCONF_OK -> id <> -1)) s.
Proof.
  destruct s as [[x d z gr c w fb g h q] env l zl]. unfold sets.
  destruct (msgget_total (T := hstate) QCONF_DEFAULT_MSG_QUEUE_KEY (Z.lor PERMS IPC_CREAT) w) as ([id e] & w1 & Em).
  assert (Ec : create_msg_queue QCONF_DEFAULT_MSG_QUEUE_KEY (w, sh_tbl x) =
    Some ((if id =? -1 then QCONF_ERR_MSGGET else QCONF_OK, id), (w1, sh_tbl x))).
  { unfold create_msg_queue. by erewrite SM_bind_Some by (apply sys_ok; exact Em). }
  eexists _, _. split.
  { apply agent_step. cbn [p_agent]. unfold qconf_init_msg_key. erewrite SM_bind_Some by (unfold on_msg; cbn [a_sys a_shm]; rewrite Ec; reflexivity).
    cbv beta iota. erewrite SM_bind_Some by reflexivity. reflexivity. }
  split; [split; cbn; [by destruct x|done|done]|]. exists id. split; [done|]. by destruct (Z.eqb_spec id (-1)).
Qed.

Lemma rgs_sets p s : sets (on_agent (qconf_init_rgs_node_pfx p)) (fun _ g g' => exists r, g' = set_register_node_path r g) s.
Proof.
  destruct (hostname_total (a_sys (p_agent s))) as (h & w & E). eexists tt, _. split.
  { apply agent_step. unfold qconf_init_rgs_node_pfx. erewrite SM_bind_Some by (unfold Agent.on_host; rewrite E; reflexivity). reflexivity. }
  split; [by split|]. by eexists.
Qed.

Lemma recv_sets t s : sets (on_agent (qconf_init_recv_timeout t)) (fun _ g g' => exists r, 1000 <= r /\ g' = set_recv_timeout r g) s.
Proof using.
  eexists tt, _. split; [by apply agent_step|]. split; [by split|]. eexists. split; [|done]. destruct (Z.ltb_spec t 1000); lia.
Qed.

Lemma scexec_sets t s : sets (on_agent (qconf_init_scexec_timeout t)) (fun _ g g' => exists r, 500 <= r <= 30000 /\ g' = set_scexec_timeout r g) s.
Proof using.
  eexists tt, _. split; [by apply agent_step|]. split; [by split|]. eexists. split; [|done].
  destruct (Z.ltb_spec t 500), (Z.ltb_spec 30000 (if t <? 500 then 500 else t)); repeat case_test; lia.
Qed.

Lemma feedback_total url fb w : exists r x, Feedback.qconf_init_feedback url (fb, w) = Some (r, x).
Proof.
  unfold Feedback.qconf_init_feedback. destruct (global_init_total w) as (r & w1 & E1).
  rewrite (SM_bind_Some _ _ _ _ _ (Feedback.on_host_ok _ fb _ _ _ E1)). destruct (negb _); [by eexists _, _|].
  destruct (easy_init_total w1) as (b & w2 & E2). rewrite (SM_bind_Some _ _ _ _ _ (Feedback.on_host_ok _ fb _ _ _ E2)).
  erewrite SM_bind_Some by reflexivity. cbn [fst snd]. destruct b; cbn [negb]; [|by eexists _, _].
  destruct (setopt_url_total (c_str url) w2) as (w3 & E3). rewrite (SM_bind_Some _ _ _ _ _ (Feedback.on_host_ok _ _ _ _ _ E3)).
  destruct (setopt_post_total w3) as (w4 & E4). rewrite (SM_bind_Some _ _ _ _ _ (Feedback.on_host_ok _ _ _ _ _ E4)). by eexists _, _.
Qed.

Lemma init_feedback_sets value s : sets (init_feedback value) (fun _ g g' => g' = g \/ g' = set_fb_enable true g) s.
Proof.
  unfold init_feedback. apply sets_then; [apply sets_integer|]. intros [v fd] s1. destruct (negb (1 =? fd)).
  { destruct (sets_ret QCONF_OK s1) as (a & s2 & Hr & Hk & E). exists a, s2. auto. }
  unfold conf_value. set (s2 := mkProcess (with_set (p_agent s1) (set_fb_enable true (a_set (p_agent s1)))) (p_env s1) (p_log s1) (zoo_log_fp s1)).
  assert (E2 : on_agent (qconf_init_fb_flg true) s1 = Some (tt, s2)) by done. unfold sets. rewrite (SM_bind_Some _ _ _ _ _ E2).
  erewrite SM_bind_Some by reflexivity. destruct (get_agent_conf (a_conf (p_agent s2)) QCONF_KEY_FEEDBACK_URL v) as [ret url].
  destruct (negb (ret =? QCONF_OK)); [exists ret, s2; split; [done|]; split; [by split|by right]|].
  destruct (feedback_total url (a_fb (p_agent s2)) (a_sys (p_agent s2))) as (r & [fb w] & Ef).
  exists r, (mkProcess (with_sys (p_agent s2) fb w) (p_env s2) (p_log s2) (zoo_log_fp s2)). split; [|split; [by split|by right]].
  erewrite SM_bind_Some by (apply agent_step; unfold on_fb; rewrite Ef; reflexivity). done.
Qed.

(** ** The result *)

(** A computation that returns, and is right when it reports success. *)
Definition succeeds (c : PM Z) (Q : process (G := G) (K := K) (W := W) -> Prop) s : Prop :=
  exists ret s', c s = Some (ret, s') /\ (ret = QCONF_OK -> Q s').

Lemma succeeds_then {A} (c : PM A) (d : A -> PM Z) Q s a s1 :
  c s = Some (a, s1) -> succeeds (d a) Q s1 -> succeeds (c ≫= d) Q s.
Proof using. intros E (r & s2 & Hd & Hq). exists r, s2. by rewrite (SM_bind_Some _ _ _ _ _ E). Qed.

Lemma succeeds_check (c d : PM Z) Q s ret s1 :
  c s = Some (ret, s1) -> (ret = QCONF_OK -> succeeds d Q s1) -> succeeds (r ← c; if negb (r =? QCONF_OK) then mret r else d) Q s.
Proof using.
  intros E Hd. apply (succeeds_then _ _ _ _ ret s1 E). destruct (Z.eqb_spec ret QCONF_OK) as [->|Hne]; [by apply Hd|]. by exists ret, s1.
Qed.

(** The agent can serve: its table holds the idc of the configuration, its dump is open, its queue is there,
    and its limits are in their bounds. *)
Record ready (idc : bytes) s : Prop := {
  rd_table : exists M HM vm, let _ := hasharr_laws M HM in shm_ok (a_shm (p_agent s)) vm /\ table_typed vm /\
    vm !! s_ident QCONF_KEY_TYPE_LOCAL_IDC = Some (localidc_to_tblval QCONF_KEY_TYPE_LOCAL_IDC idc);
  rd_dump : exists m, dump_ok (a_dump (p_agent s)) m;
  rd_idc : watcher_local_idc (a_set (p_agent s)) = idc;
  rd_queue : msg_queue_id (a_set (p_agent s)) <> -1;
  rd_recv : 1000 <= recv_timeout (a_set (p_agent s));
  rd_scexec : 500 <= scexec_timeout (a_set (p_agent s)) <= 30000;
  rd_scripts : qconf_script_dir (a_set (p_agent s)) = agent_dir ++ str "/script/"
}.

Lemma dump_init_ok (d : dump G) :
  exists ret d', qconf_init_dump_file agent_dir d = Some (ret, d') /\ (ret = QCONF_OK -> exists m, dump_ok d' m).
Proof.
  unfold qconf_init_dump_file. erewrite SM_bind_Some by reflexivity. cbn [fst snd]. set (d1 := mkDump (agent_dir ++ QCONF_DUMP_DIR) (qconf_dbf d) (dump_fs d)).
  destruct (dump_access_total (agent_dir ++ QCONF_DUMP_DIR) (dump_fs d1)) as (a & g2 & Ea). rewrite (SM_bind_Some _ _ _ _ _ (on_fs_ok _ d1 _ _ Ea)).
  set (d2 := mkDump (qconf_dump_file d1) (qconf_dbf d1) g2).
  assert (Hm : exists m g3, (if a =? -1 then on_fs (fs_mkdir (agent_dir ++ QCONF_DUMP_DIR) 493) else mret 0) d2 =
    Some (m, mkDump (qconf_dump_file d1) (qconf_dbf d1) g3)).
  { destruct (a =? -1); [|by exists 0, g2]. destruct (dump_mkdir_total (agent_dir ++ QCONF_DUMP_DIR) 493 (dump_fs d2)) as (m & g3 & Em).
    exists m, g3. by rewrite (on_fs_ok _ d2 _ _ Em). }
  destruct Hm as (m & g3 & Em). rewrite (SM_bind_Some _ _ _ _ _ Em). destruct (m =? -1); [by eexists _, _|].
  erewrite SM_bind_Some by reflexivity. unfold qconf_init_dbf, qconf_init_dbf_. erewrite SM_bind_Some by reflexivity. cbn [qconf_dump_file qconf_dbf dump_fs].
  assert (Hne : (agent_dir ++ QCONF_DUMP_DIR) ++ QCONF_DUMP_PATH <> []) by (intros E; apply app_eq_nil in E as [_ E]; discriminate).
  rewrite decide_False by done. set (f := (agent_dir ++ QCONF_DUMP_DIR) ++ QCONF_DUMP_PATH) in *.
  destruct (gdbm_open_old f g3) as (r & g4 & Eo & Hrep). rewrite (SM_bind_Some _ _ _ _ _ (on_fs_ok _ (mkDump f _ g3) _ _ Eo)).
  erewrite SM_bind_Some by reflexivity. cbn [qconf_dump_file qconf_dbf dump_fs]. destruct r; cbn [negb]; [|by eexists _, _].
  destruct (Hrep eq_refl) as (m4 & Hm4). destruct (gdbm_setopt_ok g4 m4 Hm4) as (r5 & g5 & E5 & Hm5).
  rewrite (SM_bind_Some _ _ _ _ _ (on_fs_ok _ (mkDump f true g4) _ _ E5)). destruct (r5 =? 0); cbn [negb]; eexists _, _; (split; [reflexivity|]); [|done].
  intros _. by exists m4.
Qed.

Lemma local_idc_step (idc : bytes) (M : Z) (HM : 0 < M < 2 ^ 31) (vm : gmap kid bytes) s :
  let _ := hasharr_laws M HM in
  holds_table M HM (a_shm (p_agent s)) vm -> blen idc < 256 -> s_load (with_code <$> vm) QCONF_KEY_TYPE_LOCAL_IDC < 2 ^ 15 - 1 ->
  exists ret s', on_agent (qconf_init_local_idc idc) s = Some (ret, s') /\
    a_dump (p_agent s') = a_dump (p_agent s) /\ a_set (p_agent s') = set_local_idc idc (a_set (p_agent s)) /\
    (ret = QCONF_OK -> exists vm', shm_ok (a_shm (p_agent s')) vm' /\ table_typed vm' /\
       vm' !! s_ident QCONF_KEY_TYPE_LOCAL_IDC = Some (localidc_to_tblval QCONF_KEY_TYPE_LOCAL_IDC idc)).
Proof using.
  intros L (Hok & Hty & _) Hi Hload. unfold qconf_init_local_idc. set (a1 := with_set (p_agent s) (set_local_idc idc (a_set (p_agent s)))).
  assert (Hrun : forall ret x, qconf_update_localidc idc (a_shm (p_agent s)) = Some (ret, x) ->
    on_agent (qconf_init_local_idc idc) s = Some (ret, mkProcess (with_shm a1 x) (p_env s) (p_log s) (zoo_log_fp s))).
  { intros ret x E. apply agent_step. unfold qconf_init_local_idc. erewrite SM_bind_Some by reflexivity. by apply on_shm_ok. }
  destruct (decide (idc = [])) as [->|Hn].
  { exists QCONF_ERR_PARAM, (mkProcess (with_shm a1 (a_shm (p_agent s))) (p_env s) (p_log s) (zoo_log_fp s)). split; [|done].
    apply Hrun. unfold qconf_update_localidc. by rewrite (SM_bind_Some _ _ _ _ _ (shm_not_null _ vm Hok)). }
  destruct (update_localidc_ok idc _ vm Hok Hn Hi Hload) as (ret & x & vm' & ev & Hup & Hok' & Hev & Hout).
  exists ret, (mkProcess (with_shm a1 x) (p_env s) (p_log s) (zoo_log_fp s)). split; [by apply Hrun|]. do 2 (split; [done|]).
  intros ->. exists vm'. destruct Hout as [[_ Hl]|[? _]]; [|done]. split; [done|]. split; [|done]. intros k v Hv.
  destruct (decide (k = s_ident QCONF_KEY_TYPE_LOCAL_IDC)) as [->|Hk].
  - assert (Some v = Some (localidc_to_tblval QCONF_KEY_TYPE_LOCAL_IDC idc)) as [= ->] by (etrans; [symmetry; exact Hv|exact Hl]). exists QCONF_KEY_TYPE_LOCAL_IDC. split; [done|by apply typed_localidc].
  - rewrite (Hev k Hk) in Hv. case_decide; [done|by apply Hty].
Qed.

Lemma settings_ok (M : Z) (HM : 0 < M < 2 ^ 31) (vm : gmap kid bytes) (dm : gmap bytes bytes) (value : bytes) s :
  let _ := hasharr_laws M HM in
  holds_table M HM (a_shm (p_agent s)) vm -> s_load (with_code <$> vm) QCONF_KEY_TYPE_LOCAL_IDC < 2 ^ 15 - 1 -> dump_ok (a_dump (p_agent s)) dm ->
  blen (default [] (agent_conf_map (a_conf (p_agent s)) !! QCONF_KEY_LOCAL_IDC)) < 256 ->
  succeeds (init_settings agent_dir value)
    (fun s' => exists idc, agent_conf_map (a_conf (p_agent s)) !! QCONF_KEY_LOCAL_IDC = Some idc /\ ready idc s') s.
Proof.
  intros L Ht Hload Hd Hidc. unfold init_settings.
  destruct (msg_key_sets s) as (r1 & s1 & E1 & [A1 B1 C1] & id & D1 & Hid). apply (succeeds_check _ _ _ _ _ _ E1). intros ->. specialize (Hid eq_refl).
  destruct (sets_conf QCONF_KEY_REGISTER_NODE_PREFIX value s1) as ([r2 v2] & s2 & E2 & [A2 B2 C2] & D2). apply (succeeds_then _ _ _ _ _ _ E2).
  destruct (rgs_sets (if r2 =? QCONF_OK then v2 else QCONF_DEFAULT_REGIESTER_PREFIX) s2) as ([] & s3 & E3 & [A3 B3 C3] & p3 & D3).
  apply (succeeds_then _ _ _ _ _ _ E3).
  destruct (sets_integer QCONF_KEY_ZKRECVTIMEOUT v2 3000 s3) as ([v4 t4] & s4 & E4 & [A4 B4 C4] & D4). apply (succeeds_then _ _ _ _ _ _ E4).
  destruct (recv_sets (i32 t4) s4) as ([] & s5 & E5 & [A5 B5 C5] & p5 & Hp5 & D5). apply (succeeds_then _ _ _ _ _ _ E5).
  apply (succeeds_then (conf_value _ _) _ _ _ _ s5 eq_refl). cbv beta iota. unfold get_agent_conf. rewrite decide_False by done.
  assert (Ec : a_conf (p_agent s5) = a_conf (p_agent s)) by congruence. rewrite Ec.
  destruct (agent_conf_map (a_conf (p_agent s)) !! QCONF_KEY_LOCAL_IDC) as [idc|]; [|by exists QCONF_ERR_NOT_FOUND, s5].
  cbn [Z.eqb QCONF_OK negb]. assert (Ht5 : holds_table M HM (a_shm (p_agent s5)) vm) by (replace (a_shm (p_agent s5)) with (a_shm (p_agent s)); [done|congruence]).
  destruct (local_idc_step idc M HM vm s5 Ht5 Hidc Hload) as (r6 & s6 & E6 & B6 & D6 & Hok6).
  apply (succeeds_check _ _ _ _ _ _ E6). intros ->. destruct (Hok6 eq_refl) as (vm' & Hok & Hty & Hl).
  destruct (sets_set (set_script_dir (Script.qconf_init_script_dir agent_dir)) s6) as ([] & s7 & E7 & [A7 B7 C7] & D7). apply (succeeds_then _ _ _ _ _ _ E7).
  destruct (sets_integer QCONF_KEY_SCEXECTIMEOUT idc 3000 s7) as ([v8 t8] & s8 & E8 & [A8 B8 C8] & D8). apply (succeeds_then _ _ _ _ _ _ E8).
  destruct (scexec_sets (i32 t8) s8) as ([] & s9 & E9 & [A9 B9 C9] & p9 & Hp9 & D9). apply (succeeds_then _ _ _ _ _ _ E9).
  destruct (init_feedback_sets v8 s9) as (r10 & s10 & E10 & [A10 B10 C10] & D10). exists r10, s10. split; [exact E10|]. intros _. exists idc. split; [done|].
  unfold same in *. assert (Eset : exists g, (a_set (p_agent s10) = g \/ a_set (p_agent s10) = set_fb_enable true g) /\
    g = set_scexec_timeout p9 (set_script_dir (Script.qconf_init_script_dir agent_dir) (set_local_idc idc (set_recv_timeout p5
      (set_register_node_path p3 (set_msg_queue_id id (a_set (p_agent s)))))))).
  { exists (a_set (p_agent s9)). split; [done|]. by rewrite D9, D8, D7, D6, D5, D4, D3, D2, D1. }
  destruct Eset as (g & Hg & ->). split.
  - exists M, HM, vm'. cbn zeta. replace (a_shm (p_agent s10)) with (a_shm (p_agent s6)) by congruence. done.
  - exists dm. by replace (a_dump (p_agent s10)) with (a_dump (p_agent s)) by congruence.
  - by destruct Hg as [->| ->].
  - by destruct Hg as [->| ->].
  - by destruct Hg as [->| ->].
  - by destruct Hg as [->| ->].
  - by destruct Hg as [->| ->].
Qed.

(** C39. Setting the agent up. When shared_memory_size is between 1 and 10^7 (the code takes whatever atoi makes
    of it), the local idc, if it is set, is shorter than 256 bytes, and the segment is new or holds a sane table
    of well-formed values in which the idc still finds a place (a predecessor's damaged table is the subject
    of startup_blocked), setting up always returns, whatever the calls into the system answer and whatever else
    the configuration says. When it reports success the configuration has a local idc and the agent can serve:
    the table, new or of the predecessor, holds this idc and well-formed values, the dump is open, the message
    queue is there, and the limits are within their bounds. *)
Theorem agent_init_ready (max M : Z) (HM : 0 < M < 2 ^ 31) (vm : gmap kid bytes) (log_dir : bytes) s :
  1 <= max <= 10000000 -> lruInstance (a_shm (p_agent s)) = None -> table_of M HM (sh_tbl (a_shm (p_agent s))) vm ->
  @s_load _ _ (hasharr_laws M HM) (with_code <$> vm) QCONF_KEY_TYPE_LOCAL_IDC < 2 ^ 15 - 1 ->
  blen (default [] (agent_conf_map (a_conf (p_agent s)) !! QCONF_KEY_LOCAL_IDC)) < 256 ->
  exists ret s', qconf_agent_init agent_dir max log_dir s = Some (ret, s') /\
    (ret = QCONF_OK -> exists idc, agent_conf_map (a_conf (p_agent s)) !! QCONF_KEY_LOCAL_IDC = Some idc /\ ready idc s').
Proof.
  intros Hmax Hlru Htab Hload Hidc. set (P := fun s' => exists idc, agent_conf_map (a_conf (p_agent s)) !! QCONF_KEY_LOCAL_IDC = Some idc /\ ready idc s').
  change (succeeds (qconf_agent_init agent_dir max log_dir) P s).
  unfold qconf_agent_init. destruct (sets_conf QCONF_KEY_ZKLOG_PATH [] s) as ([r1 v1] & s1 & E1 & [A1 B1 C1] & D1). apply (succeeds_then _ _ _ _ _ _ E1).
  destruct (sets_zoo_log log_dir (if r1 =? QCONF_OK then v1 else QCONF_ZOO_LOG) s1) as (r2 & s2 & E2 & [A2 B2 C2] & D2). apply (succeeds_then _ _ _ _ _ _ E2).
  destruct (sets_sys (qconf_init_cmd_env agent_dir) s2 (cmd_env_total)) as ([r3 env] & s3 & E3 & [A3 B3 C3] & D3). apply (succeeds_then _ _ _ _ _ _ E3).
  set (s4 := mkProcess (p_agent s3) env (p_log s3) (zoo_log_fp s3)). cbv beta iota.
  apply (succeeds_then (set_env env) _ _ _ tt s4 eq_refl).
  destruct (Z.eqb_spec r3 QCONF_OK) as [->|N3]; cbn [negb]; [|by exists r3, s4].
  destruct (dump_init_ok (a_dump (p_agent s4))) as (r5 & d5 & E5 & Hd5). set (s5 := mkProcess (with_dump (p_agent s4) d5) (p_env s4) (p_log s4) (zoo_log_fp s4)).
  apply (succeeds_check _ _ _ _ r5 s5); [apply agent_step; by apply on_dump_ok|]. intros ->. destruct (Hd5 eq_refl) as (dm & Hdm).
  assert (Es : a_shm (p_agent s5) = a_shm (p_agent s)) by (change (a_shm (p_agent s3) = a_shm (p_agent s)); congruence).
  destruct (init_shm_ok max M HM vm (p_agent s5)) as (r6 & a6 & E6 & [F1 F2 F3 F4 F5 F6 F7 F8] & _ & Htab6); [done|by rewrite Es..|].
  set (s6 := mkProcess a6 (p_env s5) (p_log s5) (zoo_log_fp s5)). apply (succeeds_check _ _ _ _ r6 s6); [by apply agent_step|]. intros ->.
  assert (Ec : a_conf (p_agent s6) = a_conf (p_agent s)) by (change (a_conf a6 = a_conf (p_agent s)); rewrite F4; change (a_conf (p_agent s3) = a_conf (p_agent s)); congruence).
  assert (Hdump : dump_ok (a_dump (p_agent s6)) dm) by (change (dump_ok (a_dump a6) dm); by rewrite F1).
  rewrite <- Ec in Hidc. unfold P. rewrite <- Ec. destruct (Htab6 eq_refl) as [Ht|(HM' & Ht)].
  - by apply (settings_ok M HM vm dm).
  - apply (settings_ok max HM' ∅ dm); [done| |done..]. eapply Z.le_lt_trans; [apply s_load_size|]. rewrite fmap_empty, map_size_empty. done.
Qed.
End Setup.

(** ** Witnesses: an agent that starts on a table with one node, and on one with a damaged value *)

Section Witnesses.
#[local] Existing Instance laws40.

(** The segment is there. *)
#[local] Instance again_os : OS (list bytes) hstate := {|
  os_shmget _ _ flags := mret (if Z.testbit flags 10 then (-1, EEXIST) else (7, 0));
  os_shmat _ _ := mret (true, 0);
  os_msgget _ _ := mret (5, 0);
  os_msgsnd _ _ := mret (0, 0);
  os_msgrcv _ _ := mret (None, EAGAIN);
  os_usleep _ s := s;
  os_rand := mret 4
|}.

#[local] Instance again_total : OSTotal (list bytes) hstate.
Proof. split; intros; cbn; repeat case_match; do 2 eexists; (split || idtac); try reflexivity. lia. Qed.

#[local] Instance dull_host : Host (list bytes) := Script.mem_host ∅.
#[local] Instance dull_files : Files (list bytes) := {|
  file_access _ := mret false; file_mkdir _ _ := mret true; dir_list _ := mret None; file_content _ := mret None;
  file_unlink _ := mret tt; file_out _ _ _ := mret true |}.
#[local] Instance dull_procs : Procs (list bytes) := {|
  sys_fork := mret 0; sys_setsid := mret 1; sys_getpid := mret 9; sys_getppid := mret 1; sys_waitpid _ := mret (-1, WOther, 10);
  sys_signal _ _ := mret tt; sys_kill _ _ := mret tt; sys_sleep _ := mret 0; sys_umask _ := mret tt; sys_open _ _ _ := mret 3;
  sys_lockf _ := mret 0; sys_dup2 _ _ := mret tt; sys_close _ := mret tt; sys_rewrite _ _ := mret tt; sys_unlink _ := mret tt;
  sys_open_max := mret 8 |}.
#[local] Instance dull_curl : CurlSetup (list bytes) := {|
  curl_global_init := mret 0; curl_easy_init := mret true; curl_setopt_url _ := mret tt; curl_setopt_post := mret tt;
  curl_easy_cleanup := mret tt; curl_global_cleanup := mret tt |}.
#[local] Instance dull_zlog : ZooLog (list bytes) := {| zlog_fopen _ := mret true; zlog_set := mret tt; zlog_fclose := mret tt |}.
#[local] Instance dull_start : StartLaws (gmap bytes bytes) (list bytes).
Proof. split; intros; try (do 2 eexists; reflexivity); try (eexists; reflexivity). exists true, g. split; [reflexivity|]. intros _. by exists g. Qed.

Definition new_settings : settings := mkSettings (-1) [] 3000 3000 false false true [] [] [].

Definition fresh_agent (t : hstate) (c : conf) : agent hstate (gmap bytes bytes) (gmap bytes bytes) (list bytes) :=
  mkAgent (mkShm t None) (mkDump [] false ∅) ∅ (Gray.mkGray [] ∅) c [] (Feedback.mkFeedback false []) new_settings (mkHandles ∅ ∅)
    (mkQueues no_queue ∅ no_queue [] ∅).

Lemma again_there max : segment_there max ([] : list bytes).
Proof.
  exists EEXIST, [], 7, 0, [], 0, []. split; [|split; [reflexivity|split; [reflexivity|split; [discriminate|reflexivity]]]].
  reflexivity.
Qed.

Lemma demo_table : exists vm, table_of 40 ShmThm.r40 (sh_tbl demo_one) vm /\ is_Some (vm !! s_ident (node_key (str "/a"))) /\
  s_load (with_code <$> vm) QCONF_KEY_TYPE_LOCAL_IDC < 2 ^ 15 - 1.
Proof.
  destruct (after_ok (node_key (str "/a")) demo_val demo_shm ∅ demo_shm_ok) as (vm & Hok & Hl & Hf);
    [discriminate|reflexivity|reflexivity|vm_compute; discriminate|].
  assert (Hvm : vm = {[s_ident (node_key (str "/a")) := demo_val]}).
  { apply map_eq. intros k. destruct (decide (k = s_ident (node_key (str "/a")))) as [->|Hne]; [by rewrite Hl, lookup_singleton_eq|].
    by rewrite (Hf k Hne), lookup_singleton_ne, lookup_empty. }
  exists vm. split; [|split; [by rewrite Hl|]].
  - split; [apply Hok|]. split; [apply Hok|]. intros k v Hv. rewrite Hvm in Hv. apply lookup_singleton_Some in Hv as [<- <-].
    exists (node_key (str "/a")). split; [reflexivity|]. apply (typed_node (str "bj") (str "/a") (str "10.0.0.1")); [|discriminate|reflexivity].
    split; [reflexivity|]. split; [reflexivity|by left].
  - eapply Z.le_lt_trans; [apply s_load_size|]. rewrite Hvm, map_fmap_singleton, map_size_singleton. reflexivity.
Qed.

Lemma startup_recovers_witness :
  exists s', qconf_init_shm_tbl 40 (fresh_agent (sh_tbl demo_one) (mkConf ∅ ∅)) = Some (QCONF_OK, s') /\
    node_key (str "/a") ∈ lru_keys (the_lru (a_shm s')).
Proof.
  destruct demo_table as (vm & Ht & [v Hv] & _). revert Ht. generalize (sh_tbl demo_one). intros t Ht.
  destruct (startup_recovers 40 40 ShmThm.r40 vm (fresh_agent t (mkConf ∅ ∅)) (again_there 40) eq_refl Ht) as (s' & Hrun & _ & _ & Hks & _).
  exists s'. split; [exact Hrun|]. apply Hks. split; [discriminate|]. exists v. split; [|exact Hv].
  destruct Ht as (_ & _ & Hty). destruct (Hty _ _ Hv) as (key & E & Hk). apply s_ident_inj in E; [|vm_compute; discriminate]. rewrite E. exact Hk.
Defined.

(** A table with a value whose code is missing. *)
Definition cut_value : bytes := [x01; x00; x00; x00; x61].

Lemma damaged_table : exists t (m : gmap kid bytes) k, s_rep t m /\ map_Forall (fun _ (v : bytes) => 4 <= blen v) m /\
  m !! k = Some cut_value.
Proof.
  destruct (s_put_ok (str "2k") cut_value (sh_tbl demo_shm) (with_code <$> ∅) (sk_rep _ _ demo_shm_ok)) as (r & t & _ & Hroom & _ & Hrep);
    [reflexivity|reflexivity|apply demo_load|]. rewrite Hroom in Hrep by (vm_compute; discriminate).
  rewrite fmap_empty in Hrep. eexists t, _, (s_ident (str "2k")). split; [exact Hrep|]. split; [|by rewrite lookup_insert_eq].
  apply map_Forall_insert_2; [|apply map_Forall_empty]. by compute.
Qed.

Lemma startup_blocked_witness :
  exists t s', qconf_init_shm_tbl 40 (fresh_agent t (mkConf ∅ ∅)) = Some (QCONF_ERR_MEM, s').
Proof.
  destruct damaged_table as (t & m & k & Hr & Hall & Hk). exists t.
  apply (startup_blocked 40 40 ShmThm.r40 m k cut_value (fresh_agent t (mkConf ∅ ∅)) (again_there 40) eq_refl Hr Hall Hk).
  intros v E. vm_compute in E. discriminate E.
Defined.

Definition demo_conf : conf := mkConf {[QCONF_KEY_LOCAL_IDC := str "bj"]} ∅.

Lemma agent_init_ready_witness :
  exists s', qconf_agent_init (K := gmap bytes bytes) (str "..") 40 (str "../logs")
      (mkProcess (fresh_agent (sh_tbl demo_one) demo_conf) initial_env initial_log false) = Some (QCONF_OK, s') /\
    1000 <= recv_timeout (a_set (p_agent s')).
Proof.
  assert (Hr : option_map fst (qconf_agent_init (K := gmap bytes bytes) (str "..") 40 (str "../logs")
    (mkProcess (fresh_agent (sh_tbl demo_one) demo_conf) initial_env initial_log false)) = Some QCONF_OK) by (vm_compute; reflexivity).
  destruct demo_table as (vm & Ht & _ & Hload). revert Hr Ht. generalize (sh_tbl demo_one). intros t Hr Ht.
  destruct (agent_init_ready (str "..") 40 40 ShmThm.r40 vm (str "../logs") (mkProcess (fresh_agent t demo_conf) initial_env initial_log false))
    as (ret & s' & Hrun & Hok); [lia|reflexivity|exact Ht|exact Hload|reflexivity|].
  rewrite Hrun in Hr. injection Hr as ->. exists s'. split; [exact Hrun|]. destruct (Hok eq_refl) as (idc & _ & Hready). apply Hready.
Defined.
End Witnesses.
End AgentMainThm.
