(* ===== verification/Monitor.v ===== *)
(** * The monitor ([src/monitor/src])

    A set of monitor processes watches the servers of the services: each takes its share of the services
    ([monitor_load_balance.cc]), keeps the servers with their status up to date ([monitor_listener.cc]),
    tries to connect to them ([monitor_check_thread.cc]) and writes changed statuses to ZooKeeper, but
    never marks the last server of a service as down ([monitor_update_thread.cc]). *)

From S2P Require Import Prelude Common Text Format Config Zoo Gray.

(** Connecting to a server ([TestCli], a client of a network library). *)
Class Net (N : Type) := {
  net_connect : bytes -> Z -> SM N unit;
  net_available : SM N bool;
  net_close : SM N unit
}.

Module Monitor.
Import Format Zoo Gray.

Definition kSuccess : Z := 0.
Definition kOtherError : Z := 1.
Definition kNotExist : Z := 2.
Definition kParamError : Z := 4.
Definition kZkFailed : Z := 5.

Definition kStatusUnknow : Z := -1.
Definition kStatusUp : Z := 0.
Definition kStatusOffline : Z := 1.
Definition kStatusDown : Z := 2.

Definition kMonitorGetRetries : nat := 3.
Definition kMaxThreadNum : Z := 64.
Definition kLockRootDir : bytes := str "/qconf_monitor_lock_node".
Definition kMonitorList : bytes := str "monitor_list".
Definition kNodeList : bytes := str "md5_list".

(** The numbers of the ZooKeeper events and of the state of an expired session. *)
Definition CREATED_EVENT_DEF : Z := 1.
Definition DELETED_EVENT_DEF : Z := 2.
Definition CHANGED_EVENT_DEF : Z := 3.
Definition CHILD_EVENT_DEF : Z := 4.
Definition SESSION_EVENT_DEF : Z := -1.
Definition ZOO_EXPIRED_SESSION_STATE : Z := -112.

(** A server; [conn_retry] and [conn_timeout] are 3 in every item and never read. *)
Record ServiceItem := mkItem { it_host : bytes; it_port : Z; it_father : bytes; it_status : Z }.

(** [ServiceItem()]. *)
Definition default_item : ServiceItem := mkItem [] (-1) [] kStatusDown.

(** The part of the options that the operations use; [md5_to_service_father_] and [zk_lock_buf_] are members
    of [LoadBalance]. *)
Record MonitorOptions := mkOptions {
  instance_name : bytes;
  monitor_host_name : bytes;
  conn_retry_count : Z;
  service_map : gmap bytes ServiceItem;
  my_service_fathers : list bytes;
  service_father_to_ip : gmap bytes (gset bytes);
  has_thread : list bool;
  waiting_index : Z;
  need_rebalance : bool;
  md5_to_service_father : gmap bytes bytes;
  zk_lock_buf : bytes
}.

Definition GetNodeList (o : MonitorOptions) : bytes := kLockRootDir ++ str "/" ++ instance_name o ++ str "/" ++ kNodeList.
Definition GetMonitorList (o : MonitorOptions) : bytes := kLockRootDir ++ str "/" ++ instance_name o ++ str "/" ++ kMonitorList.

(** Updates of single fields. *)
Definition set_map m (o : MonitorOptions) := mkOptions (instance_name o) (monitor_host_name o) (conn_retry_count o) m (my_service_fathers o)
  (service_father_to_ip o) (has_thread o) (waiting_index o) (need_rebalance o) (md5_to_service_father o) (zk_lock_buf o).
Definition set_fathers l (o : MonitorOptions) := mkOptions (instance_name o) (monitor_host_name o) (conn_retry_count o) (service_map o) l
  (service_father_to_ip o) (has_thread o) (waiting_index o) (need_rebalance o) (md5_to_service_father o) (zk_lock_buf o).
Definition set_ips m (o : MonitorOptions) := mkOptions (instance_name o) (monitor_host_name o) (conn_retry_count o) (service_map o)
  (my_service_fathers o) m (has_thread o) (waiting_index o) (need_rebalance o) (md5_to_service_father o) (zk_lock_buf o).
Definition set_threads l w (o : MonitorOptions) := mkOptions (instance_name o) (monitor_host_name o) (conn_retry_count o) (service_map o)
  (my_service_fathers o) (service_father_to_ip o) l w (need_rebalance o) (md5_to_service_father o) (zk_lock_buf o).
Definition set_rebalance b (o : MonitorOptions) := mkOptions (instance_name o) (monitor_host_name o) (conn_retry_count o) (service_map o)
  (my_service_fathers o) (service_father_to_ip o) (has_thread o) (waiting_index o) b (md5_to_service_father o) (zk_lock_buf o).
Definition set_md5 m (o : MonitorOptions) := mkOptions (instance_name o) (monitor_host_name o) (conn_retry_count o) (service_map o)
  (my_service_fathers o) (service_father_to_ip o) (has_thread o) (waiting_index o) (need_rebalance o) m (zk_lock_buf o).
Definition set_lock b (o : MonitorOptions) := mkOptions (instance_name o) (monitor_host_name o) (conn_retry_count o) (service_map o)
  (my_service_fathers o) (service_father_to_ip o) (has_thread o) (waiting_index o) (need_rebalance o) (md5_to_service_father o) b.

(** [map[key]] creates the entry when there is none. *)
Definition at_ips (father : bytes) (o : MonitorOptions) : gset bytes * MonitorOptions :=
  match service_father_to_ip o !! father with
  | Some s => (s, o)
  | None => (∅, set_ips (<[father := ∅]> (service_father_to_ip o)) o)
  end.
Definition at_item (path : bytes) (o : MonitorOptions) : ServiceItem * MonitorOptions :=
  match service_map o !! path with
  | Some i => (i, o)
  | None => (default_item, set_map (<[path := default_item]> (service_map o)) o)
  end.

(** [stoi] throws when there is no number or it is no [int]. *)
Definition stoi (s : bytes) : option Z :=
  match strto_dec (c_str s) with
  | Some (z, _) => if (- 2 ^ 31 <=? z) && (z <? 2 ^ 31) then Some z else None
  | None => None
  end.

(** The sequence number at the end of a monitor's node; [substr] throws on a shorter name. *)
Definition monitor_seq (name : bytes) : option Z :=
  if (length name <? 10)%nat then None else u32 <$> stoi (drop (length name - 10) name).

(** ** Shares ([LoadBalance]) *)

(** The loop over the monitors: how many come before the one with the number [my_seq]. *)
Fixpoint rank_loop (names : list bytes) (my_seq : Z) (rank : nat) : option nat :=
  match names with
  | [] => Some rank
  | name :: names' =>
      match monitor_seq name with
      | None => None
      | Some tmp => if tmp =? my_seq then Some rank else rank_loop names' my_seq (S rank)
      end
  end.

(** The loop [for (i = rank; i < size; i += monitors_size)]: the indices it visits. *)
Fixpoint share_loop (fuel i monitors_size size : nat) : option (list nat) :=
  match fuel with
  | O => None
  | S fuel' =>
      if (i <? size)%nat then
        match share_loop fuel' (i + monitors_size) monitors_size size with Some l => Some (i :: l) | None => None end
      else Some []
  end.

Section WithEnv.
Context {K N : Type} `{Zk K} `{ZkWrite K} `{Net N}.

(** [slash::ParseIpPortString]. *)
Variable ParseIpPortString : bytes -> bytes * Z.

(** The options, the ZooKeeper client, the network, and what is scheduled for the update thread. *)
Record monitor := mkMonitor { mo : MonitorOptions; mo_zk : K; mo_net : N; mo_updates : list (bytes * Z) }.
Abbreviation MM := (SM monitor).

Definition mzk {A} (c : SM K A) : MM A := fun s =>
  match c (mo_zk s) with Some (a, k) => Some (a, mkMonitor (mo s) k (mo_net s) (mo_updates s)) | None => None end.
Definition mnet {A} (c : SM N A) : MM A := fun s =>
  match c (mo_net s) with Some (a, n) => Some (a, mkMonitor (mo s) (mo_zk s) n (mo_updates s)) | None => None end.
Definition upd (f : MonitorOptions -> MonitorOptions) : MM unit :=
  modify (fun s => mkMonitor (f (mo s)) (mo_zk s) (mo_net s) (mo_updates s)).
Definition opt {A} (f : MonitorOptions -> A) : MM A := gets (fun s => f (mo s)).
Definition on_opt {A} (f : MonitorOptions -> A * MonitorOptions) : MM A := fun s =>
  let '(a, o) := f (mo s) in Some (a, mkMonitor o (mo_zk s) (mo_net s) (mo_updates s)).

(** ** ZooKeeper ([MonitorZk]) *)

Definition mzk_modify (zh : Z) (path value : bytes) : MM Z :=
  mzk (retry kMonitorGetRetries (zoo_set zh (c_str path) value)
    (fun ret => if ret =? ZOK then Some kSuccess else if ret =? ZNONODE then Some kNotExist
                else if transient ret then None else Some kZkFailed) kZkFailed).

Definition mzk_get_node (zh : Z) (path buf : bytes) : MM (Z * bytes) :=
  mzk (retry kMonitorGetRetries (zoo_get zh (c_str path) true)
    (fun '(ret, data) => if ret =? ZOK then Some (kSuccess, default [] data) else if ret =? ZNONODE then Some (kNotExist, buf)
                else if transient ret then None else Some (kZkFailed, buf)) (kZkFailed, buf)).

Definition mzk_exists (zh : Z) (path : bytes) : MM Z :=
  mzk (retry kMonitorGetRetries (zoo_exists zh (c_str path) true)
    (fun ret => if ret =? ZOK then Some kSuccess else if ret =? ZNONODE then Some kNotExist
                else if transient ret then None else Some kZkFailed) kZkFailed).

Definition create_verdict (ret : Z) : option Z :=
  if (ret =? ZOK) || (ret =? ZNODEEXISTS) then Some kSuccess
  else if (ret =? ZNONODE) || (ret =? ZNOCHILDRENFOREPHEMERALS) || (ret =? ZBADARGUMENTS) then Some kZkFailed
  else None.

(** The variant that sets a watch. *)
Definition mzk_create_node (zh : Z) (path value : bytes) (flags : Z) : MM Z :=
  ret ← mzk (retry kMonitorGetRetries (zoo_create zh (c_str path) value flags) create_verdict kZkFailed);
  let watch_path := if ret =? kSuccess then path else match rfind x2f path with Some pos => take pos path | None => path end in
  mzk_exists zh watch_path.

(** The variant that returns the path of the new node. *)
Definition mzk_create_seq (zh : Z) (path value : bytes) (flags : Z) (buf : bytes) : MM (Z * bytes) :=
  mzk (retry kMonitorGetRetries (zoo_create_seq zh (c_str path) value flags)
    (fun '(ret, made) => match create_verdict ret with Some r => Some (r, if ret =? ZOK then made else buf) | None => None end)
    (kZkFailed, buf)).

(** The children, in the order of ZooKeeper's reply. *)
Definition mzk_get_chdnodes (zh : Z) (path : bytes) : MM (Z * list bytes) :=
  if (zh =? 0) || bool_decide (path = []) then mret (kParamError, []) else
  mzk (retry kMonitorGetRetries (zoo_get_children zh (c_str path) true)
    (fun '(ret, names) => if ret =? ZOK then Some (kSuccess, names) else if ret =? ZNONODE then Some (kNotExist, [])
                else if transient ret then None else Some (kZkFailed, [])) (kZkFailed, [])).

Definition mzk_get_service_status (zh : Z) (path : bytes) (status : Z) : MM (Z * Z) :=
  if (zh =? 0) || bool_decide (path = []) then mret (kParamError, status) else
  '(ret, buf) ← mzk_get_node zh path [];
  if ret =? kSuccess then
    let value := atoi buf in
    if (value =? kStatusUp) || (value =? kStatusDown) || (value =? kStatusOffline)
    then mret (kSuccess, value) else mret (kOtherError, status)
  else mret (kOtherError, status).

Fixpoint mstatus_loop (zh : Z) (path : bytes) (names : list bytes) (status : list Z) : MM (Z * list Z) :=
  match names with
  | [] => mret (kSuccess, status)
  | name :: names' =>
      '(ret, s) ← mzk_get_service_status zh (path ++ [x2f] ++ name) 0;
      if negb (ret =? kSuccess) then mret (kOtherError, status) else mstatus_loop zh path names' (status ++ [s])
  end.

(** The statuses that were read before a failure; the rest of the vector is zero. *)
Definition mzk_get_chdnodes_with_status (zh : Z) (path : bytes) (status : list Z) : MM (Z * list bytes * list Z) :=
  if (zh =? 0) || bool_decide (path = []) then mret (kParamError, [], status) else
  '(ret, nodes) ← mzk_get_chdnodes zh path;
  if ret =? kSuccess then
    '(ret, sts) ← mstatus_loop zh path nodes [];
    mret (ret, nodes, sts ++ drop (length sts) (take (length nodes) status) ++ replicate (length nodes - (length sts `max` length status)) 0)
  else mret (ret, nodes, status).

(** InitEnv: the handle, 0 when there is none. *)
Definition InitEnv (zk_host : bytes) (recv_timeout : Z) : MM (Z * Z) :=
  if decide (zk_host = []) then mret (kParamError, 0) else
  zk_handle ← mzk (zookeeper_init (c_str zk_host) recv_timeout);
  if zk_handle =? 0 then mret (kZkFailed, 0) else mret (kSuccess, zk_handle).

(** ** Load balancing *)

Definition RegisterMonitor (zh : Z) (path : bytes) : MM Z :=
  host_name ← opt monitor_host_name;
  upd (set_lock []);;
  '(ret, made) ← mzk_create_seq zh path host_name 3 (* ZOO_EPHEMERAL | ZOO_SEQUENCE *) [];
  upd (set_lock made);;
  mret ret.

(** Init, after the handle was opened. *)
Definition InitBalance (zh : Z) : MM Z :=
  md5_path ← opt GetNodeList;
  ret ← mzk_create_node zh md5_path [] 0;
  if negb (ret =? kSuccess) then mret ret else
  monitor_path ← opt GetMonitorList;
  ret ← mzk_create_node zh monitor_path [] 0;
  if negb (ret =? kSuccess) then mret ret else
  RegisterMonitor zh (monitor_path ++ str "/monitor_").

Fixpoint md5_loop (zh : Z) (node_list_path : bytes) (names : list bytes) (service_father : bytes) : MM unit :=
  match names with
  | [] => mret tt
  | md5_node :: names' =>
      '(ret, service_father) ← mzk_get_node zh (node_list_path ++ str "/" ++ md5_node) service_father;
      (if ret =? kSuccess then upd (fun o => set_md5 (<[md5_node := service_father]> (md5_to_service_father o)) o) else mret tt);;
      md5_loop zh node_list_path names' service_father
  end.

Definition GetMd5ToServiceFather (zh : Z) : MM Z :=
  upd (set_md5 ∅);;
  node_list_path ← opt GetNodeList;
  '(ret, md5_node) ← mzk_get_chdnodes zh node_list_path;
  if negb (ret =? kSuccess) then mret ret else
  md5_loop zh node_list_path md5_node [];;
  mret ret.

(** The number of monitors and the rank of this one. *)
Definition GetMonitors (zh : Z) : MM (Z * nat * nat) :=
  monitor_list_path ← opt GetMonitorList;
  '(ret, names) ← mzk_get_chdnodes zh monitor_list_path;
  if negb (ret =? kSuccess) then mret (ret, 0%nat, 0%nat) else
  lock ← opt zk_lock_buf;
  match monitor_seq (c_str lock) with
  | None => undefined
  | Some my_seq =>
      match rank_loop names my_seq 0 with
      | None => undefined
      | Some rank =>
          if (rank =? length names)%nat then
            upd (set_rebalance true);; mret (kOtherError, length names, rank)
          else mret (ret, length names, rank)
      end
  end.

(** The body of the loop that takes a share. *)
Fixpoint take_share (md5_node : list bytes) (indices : list nat) : MM unit :=
  match indices with
  | [] => mret tt
  | i :: rest =>
      match md5_node !! i with
      | None => undefined
      | Some md5 =>
          father ← opt (fun o => default [] (md5_to_service_father o !! md5));
          upd (fun o => set_ips (<[father := ∅]> (service_father_to_ip o)) o);;
          upd (fun o => set_fathers (my_service_fathers o ++ [father]) o);;
          take_share md5_node rest
      end
  end.

Definition DoBalance (zh : Z) : MM Z :=
  upd (set_ips ∅);;
  upd (set_fathers []);;
  ret ← GetMd5ToServiceFather zh;
  if negb (ret =? kSuccess) then mret ret else
  '(ret, monitors_size, rank) ← GetMonitors zh;
  if negb (ret =? kSuccess) then mret ret else
  md5_node ← opt (fun o => in_order (elements (dom (md5_to_service_father o))));
  match share_loop (S (length md5_node)) rank monitors_size (length md5_node) with
  | None => undefined
  | Some indices =>
      take_share md5_node indices;;
      upd (set_rebalance false);;
      mret kSuccess
  end.

(** The callbacks of the balancer's client. *)
Definition balance_deleted (path : bytes) : MM unit :=
  p ← opt GetMonitorList; if decide (path = p) then upd (set_rebalance true) else mret tt.
Definition balance_child (path : bytes) : MM unit :=
  p ← opt GetMonitorList; q ← opt GetNodeList;
  if decide (path = p \/ path = q) then upd (set_rebalance true) else mret tt.
Definition balance_changed (path : bytes) : MM unit :=
  q ← opt GetNodeList; if decide (path = q) then upd (set_rebalance true) else mret tt.

(** ** The servers of the services ([ServiceListener]) *)

Definition insert_ip (father ip_port : bytes) : MM unit :=
  on_opt (fun o => let '(s, o) := at_ips father o in (tt, set_ips (<[father := {[ip_port]} ∪ s]> (service_father_to_ip o)) o)).

Fixpoint insert_ips (father : bytes) (names : list bytes) : MM unit :=
  match names with
  | [] => mret tt
  | n :: names' => insert_ip father n;; insert_ips father names'
  end.

Definition AddChildren (father : bytes) (children : list bytes) : MM unit :=
  (if decide (children = []) then insert_ip father [] else mret tt);;
  insert_ips father children.

Fixpoint ip_loop (zh : Z) (fathers : list bytes) : MM unit :=
  match fathers with
  | [] => mret tt
  | father :: fathers' =>
      '(ret, children) ← mzk_get_chdnodes zh father;
      (if negb (ret =? kSuccess) then insert_ip father [] else AddChildren father children);;
      ip_loop zh fathers'
  end.

Definition GetAllIp (zh : Z) : MM unit :=
  fathers ← opt (fun o => in_order (elements (dom (service_father_to_ip o))));
  ip_loop zh fathers.

Definition LoadService (zh : Z) (ip_port_path service_father ip_port : bytes) : MM Z :=
  '(ret, status) ← mzk_get_service_status zh ip_port_path kStatusUnknow;
  if negb (ret =? kSuccess) then mret ret else
  let status := if (status <? -1) || (2 <? status) then -1 else status in
  let '(ip, port) := ParseIpPortString ip_port in
  upd (fun o => set_map (<[ip_port_path := mkItem ip port service_father status]> (service_map o)) o);;
  mret kSuccess.

Fixpoint load_ips (zh : Z) (father : bytes) (ips : list bytes) : MM unit :=
  match ips with
  | [] => mret tt
  | ip_port :: ips' => LoadService zh (father ++ str "/" ++ ip_port) father ip_port;; load_ips zh father ips'
  end.

Fixpoint load_fathers (zh : Z) (fathers : list bytes) : MM unit :=
  match fathers with
  | [] => mret tt
  | father :: fathers' =>
      ips ← opt (fun o => in_order (elements (default ∅ (service_father_to_ip o !! father))));
      load_ips zh father ips;; load_fathers zh fathers'
  end.

Definition LoadAllService (zh : Z) : MM unit :=
  upd (set_map ∅);;
  GetAllIp zh;;
  fathers ← opt (fun o => in_order (elements (dom (service_father_to_ip o))));
  load_fathers zh fathers.

(** The service and the server of a path. *)
Definition split_path (path : bytes) : bytes * bytes :=
  match rfind x2f path with Some pos => (take pos path, drop (S pos) path) | None => (path, path) end.

Definition ModifyServiceFatherToIp (zh : Z) (add : bool) (ip_path : bytes) : MM unit :=
  let '(father, ip_port) := split_path ip_path in
  let '(ip, port) := ParseIpPortString ip_port in
  ipset ← on_opt (at_ips father);
  if add then
    if decide (ip_port ∈ ipset) then mret tt else
    '(ret, status) ← mzk_get_service_status zh ip_path kStatusUnknow;
    if negb (ret =? kSuccess) then mret tt else
    upd (fun o => set_map (<[ip_path := mkItem ip port father status]> (service_map o)) o);;
    insert_ip father ip_port
  else
    upd (fun o => set_map (delete ip_path (service_map o)) o);;
    on_opt (fun o => let '(s, o) := at_ips father o in (tt, set_ips (<[father := s ∖ {[ip_port]}]> (service_father_to_ip o)) o)).

Definition listener_deleted (zh : Z) (path : bytes) : MM unit := ModifyServiceFatherToIp zh false path.

Fixpoint add_services (zh : Z) (path : bytes) (children : list bytes) : MM unit :=
  match children with
  | [] => mret tt
  | ip_port :: rest => ModifyServiceFatherToIp zh true (path ++ str "/" ++ ip_port);; add_services zh path rest
  end.

Definition listener_child (zh : Z) (path : bytes) : MM unit :=
  '(ret, children) ← mzk_get_chdnodes zh path;
  if negb (ret =? kSuccess) then mret tt else
  ips ← opt (fun o => service_father_to_ip o !! path);
  match ips with
  | None => mret tt
  | Some ips => if (length children <=? size ips)%nat then mret tt else add_services zh path children
  end.

Definition listener_changed (zh : Z) (path : bytes) : MM unit :=
  '(ret, data) ← mzk_get_node zh path [];
  if ret =? kSuccess then
    on_opt (fun o => let '(i, o) := at_item path o in
      (tt, set_map (<[path := mkItem (it_host i) (it_port i) (it_father i) (atoi data)]> (service_map o)) o))
  else mret tt.

(** ** Events ([MonitorZk::Watcher])

    The callback object is the balancer's or the listener's; the result says whether the process sends
    itself the signal that restarts the main loop. *)
Inductive ZkCallBackHandle := LoadBalance_cb | ServiceListener_cb.

Definition Watcher (zh : Z) (context : option ZkCallBackHandle) (type state : Z) (node : bytes) : MM bool :=
  match context with
  | None => mret false
  | Some cb =>
      if type =? SESSION_EVENT_DEF then mret (state =? ZOO_EXPIRED_SESSION_STATE)
      else if type =? CHILD_EVENT_DEF then
        match cb with LoadBalance_cb => balance_child (c_str node) | ServiceListener_cb => listener_child zh (c_str node) end;; mret false
      else if type =? DELETED_EVENT_DEF then
        match cb with LoadBalance_cb => balance_deleted (c_str node) | ServiceListener_cb => listener_deleted zh (c_str node) end;; mret false
      else if type =? CHANGED_EVENT_DEF then
        match cb with LoadBalance_cb => balance_changed (c_str node) | ServiceListener_cb => listener_changed zh (c_str node) end;; mret false
      else mret false
  end.

(** ** Checking the servers ([CheckThread]) *)

Fixpoint connect_loop (fuel : nat) (item : ServiceItem) (cur_try_times retry_count : Z) : MM Z :=
  match fuel with
  | O => undefined
  | S fuel' =>
      mnet (net_connect (it_host item) (it_port item));;
      ok ← mnet net_available;
      let status := if (ok : bool) then kStatusUp else kStatusDown in
      let cur_try_times := cur_try_times + 1 in
      if (cur_try_times <? retry_count) && (status =? kStatusDown)
      then connect_loop fuel' item cur_try_times retry_count else mret status
  end.

Definition schedule (path : bytes) (status : Z) : MM unit :=
  modify (fun s => mkMonitor (mo s) (mo_zk s) (mo_net s) (mo_updates s ++ [(path, status)])).

Fixpoint try_ips (father : bytes) (ips : list bytes) : MM unit :=
  match ips with
  | [] => mret tt
  | ip_port :: ips' =>
      let path := father ++ str "/" ++ ip_port in
      item ← opt (fun o => service_map o !! path);
      (match item with
       | None => mret tt
       | Some item =>
           let old_status := it_status item in
           if (old_status =? kStatusUnknow) || (old_status =? kStatusOffline) then mret tt else
           retry_count ← opt conn_retry_count;
           status ← connect_loop (S (Z.to_nat retry_count)) item (if old_status =? kStatusUp then 1 else 3) retry_count;
           mnet net_close;;
           if negb (status =? old_status) then schedule path status else mret tt
       end);;
      try_ips father ips'
  end.

Definition TryConnect (cur_service_father : bytes) : MM unit :=
  ipset ← on_opt (at_ips cur_service_father);
  try_ips cur_service_father (in_order (elements ipset)).

(** [has_thread[index] = val]; an index outside the vector is undefined. *)
Definition SetHasThread (index : Z) (val : bool) : MM unit := fun s =>
  let l := has_thread (mo s) in
  if (0 <=? index) && (index <? blen l)
  then upd (fun o => set_threads (<[Z.to_nat index := val]> l) (waiting_index o) o) s else None.

(** The loop that skips the services that have a thread. *)
Fixpoint skip_busy (fuel : nat) (l : list bool) (num index : Z) : option Z :=
  match fuel with
  | O => None
  | S fuel' =>
      if index <? 0 then None else
      match l !! Z.to_nat index with
      | None => None
      | Some true => skip_busy fuel' l num (Z.rem (index + 1) num)
      | Some false => Some index
      end
  end.

Definition GetAndAddWaitingIndex : MM Z := fun s =>
  let num := Z.of_nat (size (service_father_to_ip (mo s))) in
  let index := waiting_index (mo s) in
  if num =? 0 then None else
  match skip_busy (S (Z.to_nat num)) (has_thread (mo s)) num (Z.rem (index + 1) num) with
  | None => None
  | Some w => Some (index, mkMonitor (set_threads (has_thread (mo s)) w (mo s)) (mo_zk s) (mo_net s) (mo_updates s))
  end.

(** The new position of the thread. *)
Definition CronHandle (service_pos : Z) : MM Z :=
  fathers ← opt my_service_fathers;
  match fathers !! Z.to_nat service_pos with
  | None => undefined
  | Some father =>
      TryConnect father;;
      if kMaxThreadNum <? blen fathers then
        SetHasThread service_pos false;;
        pos ← GetAndAddWaitingIndex;
        SetHasThread pos true;;
        mret pos
      else mret service_pos
  end.

(** The number of threads, and [has_thread.resize(thread_num, true)] ([WorkThread::Start]). *)
Definition prepare_threads : MM Z :=
  num ← opt (fun o => Z.min (Z.of_nat (size (service_father_to_ip o))) kMaxThreadNum);
  upd (fun o => set_threads (take (Z.to_nat num) (has_thread o) ++ replicate (Z.to_nat num - length (has_thread o)) true) (waiting_index o) o);;
  mret num.

(** A round of the main loop up to the start of the threads: their number, or the error of the balancing. *)
Definition work_round (zh_balance zh_listener : Z) : MM (Z + Z) :=
  ret ← DoBalance zh_balance;
  if negb (ret =? kSuccess) then mret (inl ret) else
  LoadAllService zh_listener;;
  num ← prepare_threads;
  mret (inr num).

(** ** Writing a status ([UpdateServiceFunc]) *)

Fixpoint alive_loop (father : bytes) (ips : list bytes) (alive : Z) : MM bool :=
  match ips with
  | [] => mret true
  | ip_port :: ips' =>
      item ← on_opt (at_item (father ++ str "/" ++ ip_port));
      let alive := if it_status item =? kStatusUp then alive + 1 else alive in
      if 1 <? alive then mret false else alive_loop father ips' alive
  end.

Definition IsOnlyOneUp (node : bytes) : MM bool :=
  let father := (split_path node).1 in
  ipset ← on_opt (at_ips father);
  alive_loop father (in_order (elements ipset)) 0.

(** Whether the status may be written: not when the last server that is up would go down. *)
Definition update_allowed (ip_port : bytes) (new_status : Z) : MM bool :=
  old ← on_opt (at_item ip_port);
  only ← (if (new_status =? kStatusDown) && (it_status old =? kStatusUp) then IsOnlyOneUp ip_port else mret false);
  mret (negb only).

Definition write_status (zh : Z) (ip_port : bytes) (new_status : Z) : MM unit :=
  ret ← mzk_modify zh ip_port (print_dec new_status);
  if ret =? kSuccess then
    on_opt (fun o => let '(i, o) := at_item ip_port o in
      (tt, set_map (<[ip_port := mkItem (it_host i) (it_port i) (it_father i) new_status]> (service_map o)) o))
  else mret tt.

(** [UpdateServiceFunc] with a client that has the handle [zh]. *)
Definition UpdateServiceFunc (zh : Z) (ip_port : bytes) (new_status : Z) : MM unit :=
  allowed ← update_allowed ip_port new_status;
  if (allowed : bool) then write_status zh ip_port new_status else mret tt.
End WithEnv.
Arguments monitor K N : clear implicits.
End Monitor.
