(* ===== verification/MonitorThm.v ===== *)
(** * Theorems about the monitor

    The shares of the monitors ([monitor_load_balance.cc]), the check of a service
    ([monitor_check_thread.cc]) and the writing of a status ([monitor_update_thread.cc]). *)

From S2P Require Import Prelude Common Text Format Config Zoo Gray Monitor.

Module MonitorThm.
Import Zoo Gray Monitor.

(** No part of a path holds a NUL. *)
Ltac no_nul := rewrite !not_elem_of_app; split_and!; first [assumption | apply (bool_decide_unpack _); vm_compute; exact Logic.I].

(** ** Ranks and shares *)

Lemma rank_loop_ok names seqs i my r :
  mapM monitor_seq names = Some seqs -> NoDup seqs -> seqs !! i = Some my -> rank_loop names my r = Some (r + i)%nat.
Proof.
  revert seqs i r. induction names as [|n names IH]; intros seqs i r Hm Hnd Hi; cbn in Hm; [by injection Hm as <-|].
  destruct (monitor_seq n) as [tmp|] eqn:En; [|done]. cbn in Hm. destruct (mapM monitor_seq names) as [seqs'|] eqn:Es; [|done].
  cbn in Hm. injection Hm as <-. apply NoDup_cons in Hnd as [Hn Hnd]. cbn [rank_loop]. rewrite En. destruct i as [|i]; simplify_eq/=.
  - rewrite Z.eqb_refl. f_equal. lia.
  - destruct (Z.eqb_spec tmp my) as [->|_]; [apply list_elem_of_lookup_2 in Hi; done|].
    rewrite (IH seqs' i (S r)); try done. f_equal. lia.
Qed.

(** The loop ends and visits the indices that are congruent to where it starts. *)
Lemma share_loop_ok fuel i n size :
  (0 < n)%nat -> (size - i < fuel)%nat ->
  exists l, share_loop fuel i n size = Some l /\ NoDup l /\ forall j, j ∈ l <-> exists k, j = (i + k * n)%nat /\ (j < size)%nat.
Proof.
  intros Hn. revert i. induction fuel as [|fuel IH]; intros i Hf; [lia|]. cbn [share_loop]. destruct (Nat.ltb_spec i size) as [Hi|Hi].
  - destruct (IH (i + n)%nat) as (l & Hl & Hnd & Hin); [lia|]. rewrite Hl. exists (i :: l). split; [done|]. split.
    + constructor; [|done]. rewrite Hin. intros (k & E & _). lia.
    + intros j. rewrite elem_of_cons, Hin. split.
      * intros [->|(k & -> & Hj)]; [exists 0%nat; lia|exists (S k); lia].
      * intros ([|k] & -> & Hj); [left; lia|right; exists k; lia].
  - exists []. split; [done|]. split; [constructor|]. intros j. split; [by intros ?%elem_of_nil|]. intros (k & -> & ?). lia.
Qed.

Definition share (n size i : nat) : list nat := default [] (share_loop (S size) i n size).

Lemma share_mod n size i j : (i < n)%nat -> j ∈ share n size i <-> (j < size)%nat /\ (j mod n = i)%nat.
Proof.
  intros Hi. destruct (share_loop_ok (S size) i n size) as (l & Hl & _ & Hin); [lia..|]. unfold share. rewrite Hl. cbn. rewrite Hin. split.
  - intros (k & -> & Hj). split; [done|]. rewrite Nat.Div0.mod_add. by apply Nat.mod_small.
  - intros (Hj & Hm). exists (j / n)%nat. split; [|done]. pose proof (Nat.div_mod_eq j n). lia.
Qed.

Lemma share_nodup n size i : (0 < n)%nat -> NoDup (share n size i).
Proof. intros Hn. destruct (share_loop_ok (S size) i n size) as (l & Hl & Hnd & _); [lia..|]. unfold share. by rewrite Hl. Qed.

(** Every index is in exactly one share. *)
Lemma shares_partition n size : (0 < n)%nat -> (List.seq 0 n ≫= share n size) ≡ₚ List.seq 0 size.
Proof.
  intros Hn. apply NoDup_Permutation; [|apply NoDup_seq|].
  - apply NoDup_bind.
    + intros i i' j Hi Hi'. rewrite elem_of_seq in Hi, Hi'. rewrite !share_mod by lia. lia.
    + intros i _. by apply share_nodup.
    + apply NoDup_seq.
  - intros j. rewrite list_elem_of_bind, elem_of_seq. split.
    + intros (i & Hj & Hi). rewrite elem_of_seq in Hi. rewrite share_mod in Hj by lia. lia.
    + intros [_ Hj]. exists (j mod n)%nat. rewrite elem_of_seq, share_mod by (apply Nat.mod_upper_bound; lia).
      split; [lia|]. pose proof (Nat.mod_upper_bound j n). lia.
Qed.

(** The number of a monitor is read from the last ten bytes of its path. *)
Lemma monitor_seq_app pre name : (10 <= length name)%nat -> monitor_seq (pre ++ name) = monitor_seq name.
Proof.
  intros Hl. unfold monitor_seq. rewrite length_app.
  do 2 (destruct (Nat.ltb_spec (length pre + length name) 10); [lia|]; destruct (Nat.ltb_spec (length name) 10); [lia|]).
  replace (length pre + length name - 10)%nat with (length pre + (length name - 10))%nat by lia. by rewrite drop_app_add.
Qed.

Lemma monitor_seq_long name z : monitor_seq name = Some z -> (10 <= length name)%nat.
Proof. unfold monitor_seq. destruct (Nat.ltb_spec (length name) 10); [done|]. lia. Qed.

Section WithEnv.
Context {K N : Type} `{ZKi : Zk K} `{WKi : !ZkWrite K} `{NTi : !Net N}.

(** The state after calls to ZooKeeper or changes of the options only. *)
Definition with_zk (s : monitor K N) (k : K) : monitor K N := mkMonitor (mo s) k (mo_net s) (mo_updates s).
Definition with_mo (s : monitor K N) o : monitor K N := mkMonitor o (mo_zk s) (mo_net s) (mo_updates s).

(** A session that answers: reading gives what the tree [m] holds, and the children of [mlist] come as [names]. *)
Record answering (I : K -> Prop) (zh : Z) (m : gmap bytes bytes) (mlist : bytes) (names : list bytes) : Prop := {
  an_get p w k : I k -> exists k',
    zoo_get zh p w k = Some (match m !! p with Some v => (ZOK, Some v) | None => (ZNONODE, None) end, k') /\ I k';
  an_children p w k : I k -> is_Some (m !! p) -> exists l k',
    zoo_get_children zh p w k = Some ((ZOK, l), k') /\ I k' /\ children_of m p l /\ (p = mlist -> l = names)
}.

Context {I : K -> Prop} {zh : Z} {m : gmap bytes bytes} {mlist : bytes} {names : list bytes}.
Context (Hans : answering I zh m mlist names).

Lemma get_chdnodes_ok path (s : monitor K N) :
  zh <> 0 -> path <> [] -> (x00 ∉ path) -> is_Some (m !! path) -> I (mo_zk s) ->
  exists l k, mzk_get_chdnodes zh path s = Some ((kSuccess, l), with_zk s k) /\ I k /\ children_of m path l /\ (path = mlist -> l = names).
Proof using Hans.
  intros Hz Hp Hn Hm Hi. destruct (an_children _ _ _ _ _ Hans path true _ Hi Hm) as (l & k & Hrun & Hk & Hc & He). exists l, k. split; [|done].
  unfold mzk_get_chdnodes. rewrite (proj2 (Z.eqb_neq _ _)), bool_decide_eq_false_2 by done. cbn [orb]. unfold mzk.
  rewrite c_str_no_nul by done. unfold kMonitorGetRetries. cbn [retry]. by rewrite (SM_bind_Some _ _ _ _ _ Hrun).
Qed.

Lemma get_node_ok path buf v (s : monitor K N) :
  (x00 ∉ path) -> m !! path = Some v -> I (mo_zk s) ->
  exists k, mzk_get_node zh path buf s = Some ((kSuccess, v), with_zk s k) /\ I k.
Proof using Hans.
  intros Hn Hm Hi. destruct (an_get _ _ _ _ _ Hans path true _ Hi) as (k & Hrun & Hk). exists k. split; [|done]. rewrite Hm in Hrun.
  unfold mzk_get_node, mzk. rewrite c_str_no_nul by done. unfold kMonitorGetRetries. cbn [retry]. by rewrite (SM_bind_Some _ _ _ _ _ Hrun).
Qed.

(** The values of the nodes are collected in the map. *)
Lemma md5_loop_ok path l buf (s : monitor K N) :
  (x00 ∉ path) -> (forall n, n ∈ l -> (x00 ∉ n) /\ is_Some (m !! (path ++ str "/" ++ n))) -> I (mo_zk s) ->
  exists M k, md5_loop zh path l buf s = Some (tt, mkMonitor (set_md5 M (mo s)) k (mo_net s) (mo_updates s)) /\ I k /\
    forall n, M !! n = if decide (n ∈ l) then m !! (path ++ str "/" ++ n) else md5_to_service_father (mo s) !! n.
Proof using Hans.
  intros Hp. revert buf s. induction l as [|n l IH]; intros buf s Hl Hi.
  - exists (md5_to_service_father (mo s)), (mo_zk s). split; [by destruct s as [[] ? ? ?]|]. split; [done|]. intros n.
    rewrite decide_False; [done|apply not_elem_of_nil].
  - destruct (Hl n) as (Hn & v & Hv); [by left|]. cbn [md5_loop].
    destruct (get_node_ok (path ++ str "/" ++ n) buf v s) as (k & Hrun & Hk); try done.
    { rewrite !not_elem_of_app. split_and!; try done. by intros ?%list_elem_of_singleton. }
    rewrite (SM_bind_Some _ _ _ _ _ Hrun). cbv beta iota. rewrite Z.eqb_refl.
    erewrite SM_bind_Some; [|reflexivity].
    destruct (IH v (with_mo (with_zk s k) (set_md5 (<[n := v]> (md5_to_service_father (mo s))) (mo s)))) as (M & k' & Hrest & Hk' & HM); [|exact Hk|].
    { intros n' Hn'. apply Hl. by right. }
    exists M, k'. split; [exact Hrest|]. split; [done|]. intros q. rewrite HM.
    cbn [with_mo with_zk mo set_md5 md5_to_service_father]. destruct (decide (q ∈ l)) as [Hq|Hq].
    + by rewrite decide_True by (by right).
    + destruct (decide (q = n)) as [->|Hne].
      * rewrite decide_True by left. by rewrite lookup_insert_eq, Hv.
      * rewrite (decide_False (P := q ∈ n :: l)) by (rewrite elem_of_cons; tauto). by rewrite lookup_insert_ne.
Qed.

(** The body of the loop over the share. *)
Lemma take_share_ok nodes l (s : monitor K N) :
  (forall j, j ∈ l -> (j < length nodes)%nat) ->
  exists ips, take_share nodes l s = Some (tt, with_mo s (set_fathers
      (my_service_fathers (mo s) ++ ((fun j => default [] (md5_to_service_father (mo s) !! (nodes !!! j))) <$> l)) (set_ips ips (mo s)))) /\
    (forall f, f ∈ dom ips <-> f ∈ dom (service_father_to_ip (mo s)) \/
      f ∈ ((fun j => default [] (md5_to_service_father (mo s) !! (nodes !!! j))) <$> l)).
Proof.
  revert s. induction l as [|j l IH]; intros s Hl.
  - exists (service_father_to_ip (mo s)). split; [destruct s as [[] ? ? ?]; cbn; by rewrite app_nil_r|]. intros f. cbn. rewrite elem_of_nil. tauto.
  - cbn [take_share]. destruct (lookup_lt_is_Some_2 nodes j) as [n Hn]; [apply Hl; by left|]. rewrite Hn.
    do 3 (erewrite SM_bind_Some; [|reflexivity]). edestruct IH as (ips & Hrun & Hd); [intros q Hq; apply Hl; by right|].
    exists ips. split.
    + rewrite Hrun. cbn. rewrite (list_lookup_total_correct _ _ _ Hn), <- app_assoc. reflexivity.
    + intros f. rewrite Hd. cbn. rewrite dom_insert_L, (list_lookup_total_correct _ _ _ Hn), elem_of_cons, elem_of_union, elem_of_singleton. tauto.
Qed.

(** The services of the nodes under [path], in the order of the nodes' names. *)
Definition all_nodes (path : bytes) : list bytes :=
  in_order (elements (list_to_set (child_names m path) : gset bytes)).
Definition father_of (path : bytes) (j : nat) : bytes :=
  default [] (m !! (path ++ str "/" ++ (all_nodes path !!! j))).

(** The nodes under [GetNodeList] are read into the map. *)
Lemma GetMd5_ok (s : monitor K N) :
  zh <> 0 -> (x00 ∉ instance_name (mo s)) -> I (mo_zk s) -> is_Some (m !! GetNodeList (mo s)) ->
  exists M k, GetMd5ToServiceFather zh s = Some (kSuccess, with_mo (with_zk s k) (set_md5 M (mo s))) /\ I k /\
    dom M = list_to_set (child_names m (GetNodeList (mo s))) /\
    forall n, n ∈ child_names m (GetNodeList (mo s)) -> M !! n = m !! (GetNodeList (mo s) ++ str "/" ++ n).
Proof using Hans.
  intros Hz Hin Hi Hm. set (path := GetNodeList (mo s)) in *. assert (Hp0 : x00 ∉ path) by (unfold path, GetNodeList; no_nul).
  destruct (get_chdnodes_ok path (with_mo s (set_md5 ∅ (mo s)))) as (l & k & Hrun & Hk & Hc & _); [done..|].
  destruct (md5_loop_ok path l [] (with_zk (with_mo s (set_md5 ∅ (mo s))) k)) as (M & k' & Hmd5 & Hk' & HM); [done| |done|].
  { intros n Hn. apply Hc in Hn as (_ & _ & ? & ?). split; [done|]. done. }
  pose proof (child_names_ok m path) as Hc'. assert (Hl : forall n, n ∈ l <-> n ∈ child_names m path).
  { intros n. by rewrite (proj2 Hc n), (proj2 Hc' n). }
  exists M, k'. split; [|split; [done|split]].
  - unfold GetMd5ToServiceFather. do 2 (erewrite SM_bind_Some; [|reflexivity]). rewrite (SM_bind_Some _ _ _ _ _ Hrun). cbv beta iota.
    rewrite Z.eqb_refl. cbn [negb]. by rewrite (SM_bind_Some _ _ _ _ _ Hmd5).
  - apply set_eq. intros n. rewrite elem_of_list_to_set, <- Hl, elem_of_dom, HM. destruct (decide (n ∈ l)) as [Hn|Hn]; [|split; [by intros [? ?]|done]].
    split; [done|]. intros _. by apply Hc in Hn as (_ & _ & _ & ?).
  - intros n Hn%Hl. rewrite HM. by rewrite decide_True.
Qed.

(** The rank of monitor number [i]. *)
Lemma GetMonitors_ok (s : monitor K N) seqs i name :
  zh <> 0 -> (x00 ∉ instance_name (mo s)) -> GetMonitorList (mo s) = mlist -> I (mo_zk s) -> is_Some (m !! mlist) ->
  mapM monitor_seq names = Some seqs -> NoDup seqs -> names !! i = Some name ->
  (x00 ∉ name) -> zk_lock_buf (mo s) = mlist ++ str "/" ++ name ->
  exists k, GetMonitors zh s = Some (kSuccess, length names, i, with_zk s k).
Proof using Hans.
  intros Hz Hin Hml Hi Hm Hseq Hnd Hname Hn0 Hlock. assert (Hm0 : x00 ∉ mlist) by (rewrite <- Hml; unfold GetMonitorList; no_nul).
  unfold GetMonitors. erewrite SM_bind_Some; [|reflexivity]. rewrite Hml.
  destruct (get_chdnodes_ok mlist s) as (l & k & Hrun & _ & _ & Hl); [done|by rewrite <- Hml|done..|]. rewrite (Hl eq_refl) in Hrun.
  rewrite (SM_bind_Some _ _ _ _ _ Hrun). cbv beta iota. rewrite Z.eqb_refl. cbn [negb]. erewrite SM_bind_Some; [|reflexivity].
  destruct (Forall2_lookup_l _ _ _ _ _ (mapM_Some_1 _ _ _ Hseq) Hname) as (my & Hsi & Hmy).
  change (zk_lock_buf (mo (with_zk s k))) with (zk_lock_buf (mo s)).
  rewrite Hlock, c_str_no_nul, app_assoc, monitor_seq_app, Hmy; [|by eapply monitor_seq_long|no_nul].
  rewrite (rank_loop_ok names seqs i my 0) by done. apply lookup_lt_Some in Hname. cbn [Nat.add].
  destruct (Nat.eqb_spec i (length names)); [lia|]. by exists k.
Qed.

(** Monitor number [i] of [names] takes the services of its share. *)
Lemma DoBalance_ok (s : monitor K N) seqs i name :
  zh <> 0 -> (x00 ∉ instance_name (mo s)) -> GetMonitorList (mo s) = mlist -> I (mo_zk s) ->
  is_Some (m !! mlist) -> is_Some (m !! GetNodeList (mo s)) ->
  mapM monitor_seq names = Some seqs -> NoDup seqs -> names !! i = Some name ->
  (x00 ∉ name) -> zk_lock_buf (mo s) = mlist ++ str "/" ++ name ->
  exists s', DoBalance zh s = Some (kSuccess, s') /\
    my_service_fathers (mo s') = father_of (GetNodeList (mo s)) <$> share (length names) (length (all_nodes (GetNodeList (mo s)))) i /\
    dom (service_father_to_ip (mo s')) = list_to_set (my_service_fathers (mo s')) /\ need_rebalance (mo s') = false.
Proof using Hans.
  intros Hz Hin Hml Hi Hm1 Hm2 Hseq Hnd Hname Hn0 Hlock. set (path := GetNodeList (mo s)).
  unfold DoBalance. do 2 (erewrite SM_bind_Some; [|reflexivity]). set (s1 := with_mo s (set_fathers [] (set_ips ∅ (mo s)))).
  destruct (GetMd5_ok s1) as (M & k & Hmd5 & Hk & Hdm & HM); [done..|]. change (GetNodeList (mo s1)) with path in *.
  erewrite SM_bind_Some; [|exact Hmd5]. rewrite Z.eqb_refl. cbn [negb].
  destruct (GetMonitors_ok (with_mo (with_zk s1 k) (set_md5 M (mo s1))) seqs i name) as (k2 & Hmon); [done..|].
  rewrite (SM_bind_Some _ _ _ _ _ Hmon). cbv beta iota. rewrite Z.eqb_refl. cbn [negb]. erewrite SM_bind_Some; [|reflexivity].
  set (s3 := with_zk _ k2). change (md5_to_service_father (mo s3)) with M.
  replace (in_order (elements (dom M))) with (all_nodes path) by (unfold all_nodes; by rewrite Hdm).
  set (size := length (all_nodes path)). pose proof (lookup_lt_Some _ _ _ Hname) as Hil.
  destruct (share_loop_ok (S size) i (length names) size) as (sh & Hsh & _ & Hshin); [lia..|]. rewrite Hsh.
  assert (Hlt : forall j, j ∈ sh -> (j < size)%nat) by (intros j Hj; apply Hshin in Hj as (? & -> & ?); done).
  destruct (take_share_ok (all_nodes path) sh s3 Hlt) as (ips & Htake & Hdom).
  erewrite SM_bind_Some; [|exact Htake]. erewrite SM_bind_Some; [|reflexivity]. eexists. split; [reflexivity|].
  cbn [with_mo mo set_fathers my_service_fathers set_rebalance set_ips service_father_to_ip need_rebalance].
  split; [|split; [|done]].
  - unfold share. rewrite Hsh. cbn [default from_option id]. apply list_fmap_ext. intros q j Hq%list_elem_of_lookup_2.
    unfold father_of. destruct (lookup_lt_is_Some_2 (all_nodes path) j (Hlt j Hq)) as [n Hn].
    rewrite (list_lookup_total_correct _ _ _ Hn), HM; [done|]. apply list_elem_of_lookup_2 in Hn.
    unfold all_nodes in Hn. by rewrite in_order_perm, elem_of_elements, elem_of_list_to_set in Hn.
  - apply set_eq. intros f. rewrite Hdom, elem_of_list_to_set. cbn. rewrite dom_empty_L. set_solver.
Qed.
End WithEnv.

Lemma list_choice {A B} (P : nat -> A -> B -> Prop) l :
  (forall i x, l !! i = Some x -> exists y, P i x y) ->
  exists k, length k = length l /\ forall i x y, l !! i = Some x -> k !! i = Some y -> P i x y.
Proof.
  revert P. induction l as [|x l IH]; intros P Hl; [by exists []|].
  destruct (Hl 0%nat x eq_refl) as [y Hy]. destruct (IH (fun i => P (S i))) as (k & Hk & HP); [intros i; apply (Hl (S i))|].
  exists (y :: k). split; [by cbn; rewrite Hk|]. intros [|i] x' y' Hx Hy'; [by simplify_eq/=|by eapply HP].
Qed.

Lemma concat_shares {A} (g : nat -> A) (f : nat -> list nat) l : concat ((fun i => g <$> f i) <$> l) = g <$> (l ≫= f).
Proof. induction l as [|i l IH]; [done|]. cbn. by rewrite fmap_app, IH. Qed.

Lemma lookup_total_seq {A} `{Inhabited A} (l : list A) : (fun j => l !!! j) <$> List.seq 0 (length l) = l.
Proof.
  apply list_eq. intros i. rewrite list_lookup_fmap. destruct (decide (i < length l)%nat) as [Hi|Hi].
  - rewrite lookup_seq_lt by done. cbn. destruct (lookup_lt_is_Some_2 l i Hi) as [x Hx]. by rewrite (list_lookup_total_correct _ _ _ Hx).
  - rewrite lookup_seq_ge by lia. cbn. symmetry. apply lookup_ge_None. lia.
Qed.

Section Balance.
Context {K N : Type} `{ZKi : Zk K} `{WKi : !ZkWrite K} `{NTi : !Net N}.

(** A monitor that is registered under [name], with a session [zh] that answers. *)
Definition registered (m : gmap bytes bytes) (inst : bytes) (names : list bytes) (name : bytes) (zs : Z * monitor K N) : Prop :=
  let mlist := GetMonitorList (mo zs.2) in
  (exists I, answering I zs.1 m mlist names /\ I (mo_zk zs.2)) /\ zs.1 <> 0 /\ instance_name (mo zs.2) = inst /\
  zk_lock_buf (mo zs.2) = mlist ++ str "/" ++ name.

Lemma mapM_perm {A B} (f : A -> option B) l l' k : l ≡ₚ l' -> mapM f l = Some k -> exists k', mapM f l' = Some k' /\ k ≡ₚ k'.
Proof.
  intros Hp. revert k. induction Hp as [|x l l' _ IH|x y l|l1 l2 l3 _ IH1 _ IH2]; intros k Hk.
  - by exists k.
  - cbn in Hk |- *. destruct (f x) as [z|]; [|done]. cbn in *. destruct (mapM f l) as [zs|]; [|done]. injection Hk as <-.
    destruct (IH zs eq_refl) as (zs' & -> & Hz). exists (z :: zs'). split; [done|by constructor].
  - cbn in Hk |- *. destruct (f y) as [u|]; [|done]. destruct (f x) as [z|]; [|done]. cbn in *.
    destruct (mapM f l) as [zs|]; [|done]. injection Hk as <-. eexists. split; [done|constructor].
  - destruct (IH1 k Hk) as (k1 & Hk1 & ?). destruct (IH2 k1 Hk1) as (k2 & ? & ?). exists k2. split; [done|by etrans].
Qed.

Lemma mapM_nodup {A B} (f : A -> option B) l k : mapM f l = Some k -> NoDup k -> NoDup l.
Proof.
  intros Hm Hk. apply NoDup_alt. intros i j x Hi Hj. apply mapM_Some in Hm.
  destruct (Forall2_lookup_l _ _ _ _ _ Hm Hi) as (y & Hy & E). destruct (Forall2_lookup_l _ _ _ _ _ Hm Hj) as (y' & Hy' & E').
  rewrite E in E'. injection E' as <-. by eapply NoDup_lookup.
Qed.

(** As many different ranks as there are monitors are all the ranks. *)
Lemma ranks_all (ranks : list nat) n : NoDup ranks -> length ranks = n -> Forall (fun r => (r < n)%nat) ranks -> ranks ≡ₚ List.seq 0 n.
Proof.
  intros Hnd Hl Hlt. apply submseteq_length_Permutation; [|rewrite length_seq; lia]. apply NoDup_submseteq; [done|].
  intros r Hr. apply elem_of_seq. rewrite Forall_forall in Hlt. specialize (Hlt r Hr). lia.
Qed.

Lemma share_filter n size i : (i < n)%nat -> share n size i ≡ₚ filter (fun j => (j mod n = i)%nat) (List.seq 0 size).
Proof.
  intros Hi. apply NoDup_Permutation; [apply share_nodup; lia|apply NoDup_filter, NoDup_seq|].
  intros j. rewrite share_mod, list_elem_of_filter, elem_of_seq by done. lia.
Qed.

(** A monitor whose balancing went well takes the services whose number is its rank, modulo the monitors. *)
Definition balanced (m : gmap bytes bytes) (path : bytes) (n : nat) (zs : Z * monitor K N) (rank : nat) (s' : monitor K N) : Prop :=
  DoBalance zs.1 zs.2 = Some (kSuccess, s') /\ need_rebalance (mo s') = false /\
  dom (service_father_to_ip (mo s')) = list_to_set (my_service_fathers (mo s')) /\
  my_service_fathers (mo s') ≡ₚ @father_of m path <$> filter (fun j => (j mod n = rank)%nat) (List.seq 0 (length (@all_nodes m path))).

(** C22. All registered monitors balance against the same ZooKeeper, which gives each of them the list of the
    monitors in an order of its own. Every one of them ends its balancing with success and takes the services
    whose number, in the order of the nodes' names, is its rank modulo the number of monitors; its rank is
    the position of its name in the list that it was given. So if no two monitors find the same rank, in
    particular if they are given the list in the same order, together they take each service exactly once.
    (ZooKeeper does not document an order, and the code does not sort the list: two monitors that are given
    different orders may find the same rank; then both take the same services and nobody takes some others.) *)
Theorem balance_partition (m : gmap bytes bytes) inst names seqs (ms : list (list bytes * (Z * monitor K N))) :
  let path := kLockRootDir ++ str "/" ++ inst ++ str "/" ++ kNodeList in
  let n := length names in
  mapM monitor_seq names = Some seqs -> NoDup seqs -> names <> [] -> Forall (fun n => x00 ∉ n) names -> (x00 ∉ inst) ->
  is_Some (m !! path) -> is_Some (m !! (kLockRootDir ++ str "/" ++ inst ++ str "/" ++ kMonitorList)) ->
  Forall2 (fun name os => os.1 ≡ₚ names /\ registered m inst os.1 name os.2) names ms ->
  exists ranks ms', length ranks = n /\ length ms' = n /\
    (forall i name os rank s', names !! i = Some name -> ms !! i = Some os -> ranks !! i = Some rank -> ms' !! i = Some s' ->
       os.1 !! rank = Some name /\ balanced m path n os.2 rank s') /\
    (NoDup ranks -> concat ((fun s' => my_service_fathers (mo s')) <$> ms') ≡ₚ
       (fun n => default [] (m !! (path ++ str "/" ++ n))) <$> child_names m path) /\
    (Forall (fun os => os.1 = names) ms -> NoDup ranks).
Proof.
  intros path n Hseq Hnd Hne Hn0 Hi0 Hm1 Hm2 Hall. set (size := length (@all_nodes m path)).
  destruct (list_choice (fun i os p => exists name, names !! i = Some name /\ os.1 !! p.1 = Some name /\ (p.1 < n)%nat /\ balanced m path n os.2 p.1 p.2) ms)
    as (ps & Hlen & Hps).
  { intros i [order zs] Hz. destruct (Forall2_lookup_r _ _ _ _ _ Hall Hz) as (name & Hname & Hperm & (I & Ha & Hi) & Hzh & Hinst & Hlock). cbn [fst snd] in *.
    rewrite Forall_forall in Hn0. assert (Hpath : GetNodeList (mo zs.2) = path) by (unfold GetNodeList; by rewrite Hinst).
    pose proof (list_elem_of_lookup_2 _ _ _ Hname) as Hin. destruct (mapM_perm monitor_seq names order seqs (symmetry Hperm) Hseq) as (seqs' & Hseq' & Hp').
    assert (Hin' : name ∈ order) by by rewrite Hperm. apply list_elem_of_lookup in Hin' as (rank & Hrank).
    destruct (DoBalance_ok Ha zs.2 seqs' rank name) as (s' & Hr & Hf & Hd & Hnr); try done; [by rewrite Hinst|unfold GetMonitorList; by rewrite Hinst|
      by rewrite Hpath|by rewrite <- Hp'|by apply Hn0|]. rewrite Hpath in Hf.
    assert (Hlo : length order = n) by by rewrite Hperm. pose proof (lookup_lt_Some _ _ _ Hrank) as Hlt. rewrite Hlo in *.
    exists (rank, s'), name. do 2 (split; [done|]). split; [done|]. do 3 (split; [done|]). cbn [fst snd]. by rewrite Hf, share_filter. }
  pose proof (Forall2_length _ _ _ Hall) as Hl. assert (Hlp : length ps = n) by (unfold n; lia).
  exists ps.*1, ps.*2. rewrite !length_fmap. do 2 (split; [done|]).
  assert (Hget : forall i p, ps !! i = Some p -> exists name os, names !! i = Some name /\ ms !! i = Some os /\ os.1 !! p.1 = Some name /\
    (p.1 < n)%nat /\ balanced m path n os.2 p.1 p.2).
  { intros i p Hp. pose proof (lookup_lt_Some _ _ _ Hp). destruct (lookup_lt_is_Some_2 ms i) as [os Hos]; [lia|].
    destruct (Hps i os p Hos Hp) as (name & ? & ? & ? & ?). by exists name, os. }
  split; [|split].
  - intros i name os rank s' Hn Ho Hr Hs. rewrite list_lookup_fmap in Hr. rewrite list_lookup_fmap in Hs. destruct (ps !! i) as [p|] eqn:Ep; [|done].
    injection Hr as <-. injection Hs as <-. destruct (Hps i os p Ho Ep) as (name' & Hn' & ? & _ & ?). rewrite Hn in Hn'. by injection Hn' as <-.
  - intros Hr. assert (Hperm : ps.*1 ≡ₚ List.seq 0 n).
    { apply ranks_all; [done|by rewrite length_fmap|]. apply Forall_lookup_2. intros i r Hi. rewrite list_lookup_fmap in Hi.
      destruct (ps !! i) as [p|] eqn:Ep; [|done]. injection Hi as <-. by destruct (Hget i p Ep) as (? & ? & _ & _ & _ & ? & _). }
    assert (Hf : concat ((fun s' => my_service_fathers (mo s')) <$> ps.*2) ≡ₚ concat ((fun i => @father_of m path <$> share n size i) <$> ps.*1)).
    { assert (Hall' : forall i p, ps !! i = Some p -> (p.1 < n)%nat /\ my_service_fathers (mo p.2) ≡ₚ @father_of m path <$> share n size p.1).
      { intros i p Hp. destruct (Hget i p Hp) as (? & ? & _ & _ & _ & Hlt & _ & _ & _ & Hb). split; [done|]. rewrite Hb. by rewrite share_filter. }
      clear -Hall'. induction ps as [|p ps IH]; [done|]. cbn. rewrite (proj2 (Hall' 0%nat p eq_refl)). rewrite IH; [done|]. intros i. apply (Hall' (S i)). }
    rewrite Hf, concat_shares, Hperm, shares_partition by (unfold n; destruct names; [done|cbn; lia]).
    assert (He : @father_of m path <$> List.seq 0 size = (fun n => default [] (m !! (path ++ str "/" ++ n))) <$> @all_nodes m path).
    { transitivity ((fun n => default [] (m !! (path ++ str "/" ++ n))) <$> ((fun j => @all_nodes m path !!! j) <$> List.seq 0 size)).
      - by rewrite <- list_fmap_compose.
      - unfold size. by rewrite lookup_total_seq. }
    rewrite He. apply fmap_Permutation. unfold all_nodes. rewrite in_order_perm. apply elements_list_to_set, (proj1 (child_names_ok m path)).
  - intros Hsame. pose proof (mapM_nodup _ _ _ Hseq Hnd) as Hndn.
    assert (E : ps.*1 = List.seq 0 n).
    { apply list_eq. intros i. rewrite list_lookup_fmap. destruct (ps !! i) as [p|] eqn:Ep.
      - destruct (Hget i p Ep) as (name & os & Hn & Ho & Hr & Hlt & _). rewrite (Forall_lookup_1 _ _ _ _ Hsame Ho) in Hr.
        rewrite lookup_seq_lt by (rewrite <- Hlp; by eapply lookup_lt_Some). cbn. f_equal. by eapply NoDup_lookup.
      - rewrite lookup_seq_ge; [done|]. rewrite <- Hlp. by apply lookup_ge_None. }
    rewrite E. apply NoDup_seq.
Qed.
End Balance.

(** ** What the check and the update see of the options *)

Definition ips_of (o : MonitorOptions) (father : bytes) : gset bytes := default ∅ (service_father_to_ip o !! father).
Definition status_at (o : MonitorOptions) (path : bytes) : Z := it_status (default default_item (service_map o !! path)).

(** The same servers with the same statuses; reading [map[key]] may have added empty entries. *)
Record same_view (o o' : MonitorOptions) : Prop := {
  sv_ips f : ips_of o' f = ips_of o f;
  sv_status p : status_at o' p = status_at o p;
  sv_fathers : my_service_fathers o' = my_service_fathers o;
  sv_has_thread : has_thread o' = has_thread o;
  sv_waiting : waiting_index o' = waiting_index o;
  sv_retry : conn_retry_count o' = conn_retry_count o;
  sv_size : (size (service_father_to_ip o) <= size (service_father_to_ip o'))%nat
}.

#[export] Instance same_view_refl : Reflexive same_view.
Proof. by split. Qed.

#[export] Instance same_view_trans : Transitive same_view.
Proof. intros o1 o2 o3 [] []. split; etrans; eauto. Qed.

Section Check.
Context {K N : Type} `{ZKi : Zk K} `{WKi : !ZkWrite K} `{NTi : !Net N}.

(** A read of [map[key]]: the value, and the same view. *)
Lemma at_ips_run father (s : monitor K N) :
  exists o, on_opt (at_ips father) s = Some (ips_of (mo s) father, with_mo s o) /\ same_view (mo s) o.
Proof.
  unfold on_opt, at_ips, ips_of. destruct (service_father_to_ip (mo s) !! father) as [x|] eqn:E.
  - by exists (mo s).
  - eexists. split; [reflexivity|]. split; try done.
    + intros f. unfold ips_of. cbn. destruct (decide (f = father)) as [->|?]; [by rewrite lookup_insert_eq, E|by rewrite lookup_insert_ne].
    + cbn. rewrite map_size_insert_None by done. lia.
Qed.

Lemma at_item_run path (s : monitor K N) :
  exists o, on_opt (at_item path) s = Some (default default_item (service_map (mo s) !! path), with_mo s o) /\ same_view (mo s) o.
Proof.
  unfold on_opt, at_item. destruct (service_map (mo s) !! path) as [x|] eqn:E.
  - by exists (mo s).
  - eexists. split; [reflexivity|]. split; try done. intros f. unfold status_at. cbn.
    destruct (decide (f = path)) as [->|?]; [by rewrite lookup_insert_eq, E|by rewrite lookup_insert_ne].
Qed.

(** ** The last server that is up *)

Definition up_at (o : MonitorOptions) (father ip : bytes) : bool := status_at o (father ++ str "/" ++ ip) =? kStatusUp.

Lemma alive_loop_ok father ips alive (s : monitor K N) :
  alive <= 1 ->
  exists o, alive_loop father ips alive s = Some (alive + countb (up_at (mo s) father) ips <=? 1, with_mo s o) /\ same_view (mo s) o.
Proof.
  revert alive s. induction ips as [|ip ips IH]; intros alive s Ha.
  - exists (mo s). split; [|done]. change (countb (up_at (mo s) father) []) with 0. rewrite Z.add_0_r. apply Z.leb_le in Ha. rewrite Ha. by destruct s.
  - cbn [alive_loop]. destruct (at_item_run (father ++ str "/" ++ ip) s) as (o & Hrun & Hv). rewrite (SM_bind_Some _ _ _ _ _ Hrun). cbv zeta.
    change (it_status (default default_item (service_map (mo s) !! (father ++ str "/" ++ ip))) =? kStatusUp) with (up_at (mo s) father ip).
    rewrite countb_cons. destruct (up_at (mo s) father ip); cbn [b2n].
    + destruct (Z.ltb_spec 1 (alive + 1)) as [Hlt|Hge].
      * exists o. split; [|done]. pose proof (countb_nonneg (up_at (mo s) father) ips). rewrite (proj2 (Z.leb_gt _ _)) by lia. done.
      * destruct (IH (alive + 1) (with_mo s o)) as (o' & Hr & Hv'); [done|]. exists o'. split; [|by etrans].
        rewrite Hr. cbn. do 3 f_equal. rewrite (countb_ext _ (up_at (mo s) father)); [lia|]. intros q. unfold up_at. by rewrite (sv_status _ _ Hv).
    + rewrite (proj2 (Z.ltb_ge _ _)) by lia. destruct (IH alive (with_mo s o)) as (o' & Hr & Hv'); [done|]. exists o'. split; [|by etrans].
      rewrite Hr. cbn. do 3 f_equal. rewrite (countb_ext _ (up_at (mo s) father)); [lia|]. intros q. unfold up_at. by rewrite (sv_status _ _ Hv).
Qed.

Lemma split_path_child father ip : (x2f ∉ ip) -> split_path (father ++ str "/" ++ ip) = (father, ip).
Proof.
  intros Hs. unfold split_path. rewrite (rfind_app x2f father ip Hs : rfind x2f (father ++ str "/" ++ ip) = _). rewrite take_app_length. f_equal.
  change (S (length father)) with (1 + length father)%nat. rewrite Nat.add_comm, drop_app_add. done.
Qed.

Lemma IsOnlyOneUp_ok father ip (s : monitor K N) :
  (x2f ∉ ip) ->
  exists o, IsOnlyOneUp (father ++ str "/" ++ ip) s =
      Some (countb (up_at (mo s) father) (elements (ips_of (mo s) father)) <=? 1, with_mo s o) /\ same_view (mo s) o.
Proof.
  intros Hs. unfold IsOnlyOneUp. rewrite split_path_child by done. cbn [fst].
  destruct (at_ips_run father s) as (o & Hrun & Hv). rewrite (SM_bind_Some _ _ _ _ _ Hrun).
  destruct (alive_loop_ok father (in_order (elements (ips_of (mo s) father))) 0 (with_mo s o)) as (o' & Hr & Hv'); [lia|].
  exists o'. split; [|by etrans]. rewrite Hr, in_order_perm. do 3 f_equal. rewrite Z.add_0_l. apply countb_ext. intros q. unfold up_at.
  by rewrite (sv_status _ _ Hv).
Qed.

Definition has_up (o : MonitorOptions) (father : bytes) : Prop := exists ip, ip ∈ ips_of o father /\ up_at o father ip = true.

(** With two servers up, one is left when the status of another changes. *)
Lemma two_up o father ip :
  1 < countb (up_at o father) (elements (ips_of o father)) -> exists ip', ip' ∈ ips_of o father /\ ip' <> ip /\ up_at o father ip' = true.
Proof.
  intros Hc. destruct (decide (ip ∈ ips_of o father)) as [Hin|Hn].
  - assert (Hp : elements (ips_of o father) ≡ₚ ip :: elements (ips_of o father ∖ {[ip]})).
    { rewrite <- elements_union_singleton by set_solver. by rewrite <- union_difference_singleton_L. }
    rewrite Hp, countb_cons in Hc. assert (Hpos : 0 < countb (up_at o father) (elements (ips_of o father ∖ {[ip]}))).
    { destruct (up_at o father ip); cbn [b2n] in Hc; lia. }
    apply countb_pos in Hpos as (i & x & Hx%list_elem_of_lookup_2 & Hup). exists x. set_solver.
  - assert (Hpos : 0 < countb (up_at o father) (elements (ips_of o father))) by lia.
    apply countb_pos in Hpos as (i & x & Hx%list_elem_of_lookup_2 & Hup). exists x. rewrite elem_of_elements in Hx. split_and!; try done. by intros ->.
Qed.

Lemma retry_total {A B} n (op : SM K A) (f : A -> option B) last k :
  (forall k, is_Some (op k)) -> is_Some (retry n op f last k).
Proof.
  intros Hop. revert k. induction n as [|n IH]; intros k; [by eexists|]. destruct (Hop k) as [[r k1] Hk]. cbn [retry].
  rewrite (SM_bind_Some _ _ _ _ _ Hk). destruct (f r); [by eexists|apply IH].
Qed.

(** The write to ZooKeeper changes nothing else of the monitor. *)
Lemma mzk_modify_run zh path v (s : monitor K N) :
  (forall k, is_Some (zoo_set zh (c_str path) v k)) -> exists ret k, mzk_modify zh path v s = Some (ret, with_zk s k).
Proof.
  intros Hz. unfold mzk_modify, mzk.
  match goal with |- context [retry ?n ?op ?f ?l ?k] => destruct (retry_total n op f l k Hz) as [[ret k'] Hk]; rewrite Hk end.
  by exists ret, k'.
Qed.

(** The status of one server is set in the options. *)
Lemma set_status_run path st (s : monitor K N) :
  exists o, on_opt (fun o => let '(i, o) := at_item path o in
      (tt, set_map (<[path := mkItem (it_host i) (it_port i) (it_father i) st]> (service_map o)) o)) s = Some (tt, with_mo s o) /\
    (forall f, ips_of o f = ips_of (mo s) f) /\ forall p, status_at o p = if decide (p = path) then st else status_at (mo s) p.
Proof.
  unfold on_opt. destruct (at_item_run path s) as (o & Hrun & Hv). unfold on_opt in Hrun. destruct (at_item path (mo s)) as [i o1].
  injection Hrun as -> ->. eexists. split; [reflexivity|]. split; [intros f; apply (sv_ips _ _ Hv)|]. intros p. unfold status_at at 1. cbn.
  destruct (decide (p = path)) as [->|?]; [by rewrite lookup_insert_eq|rewrite lookup_insert_ne by done]. apply (sv_status _ _ Hv).
Qed.

(** The decision, and what reading the options may add to them. *)
Lemma update_allowed_ok father ip st (s : monitor K N) :
  let path := father ++ str "/" ++ ip in
  (x2f ∉ ip) ->
  exists o, update_allowed path st s = Some (negb ((st =? kStatusDown) && (status_at (mo s) path =? kStatusUp) &&
      (countb (up_at (mo s) father) (elements (ips_of (mo s) father)) <=? 1)), with_mo s o) /\ same_view (mo s) o.
Proof.
  intros path Hs. unfold update_allowed. destruct (at_item_run path s) as (o1 & Hold & Hv1). rewrite (SM_bind_Some _ _ _ _ _ Hold).
  cbv beta. change (it_status (default default_item (service_map (mo s) !! path))) with (status_at (mo s) path).
  destruct (_ && (status_at _ _ =? _)) eqn:E; cbn [andb]; [|by exists o1].
  destruct (IsOnlyOneUp_ok father ip (with_mo s o1) Hs) as (o2 & Hr & Hv2). exists o2. split; [|by etrans].
  unfold path. rewrite (SM_bind_Some _ _ _ _ _ Hr). cbn [with_mo mo]. rewrite (sv_ips _ _ Hv1).
  rewrite (countb_ext _ (up_at (mo s) father)); [done|]. intros q. unfold up_at. by rewrite (sv_status _ _ Hv1).
Qed.

(** The write sets the status of the server in the options when it succeeded. *)
Lemma write_status_run zh path st (s : monitor K N) :
  (forall k, is_Some (zoo_set zh (c_str path) (print_dec st) k)) ->
  exists s', write_status zh path st s = Some (tt, s') /\ (forall f, ips_of (mo s') f = ips_of (mo s) f) /\
    ((forall p, status_at (mo s') p = status_at (mo s) p) \/
     (forall p, status_at (mo s') p = if decide (p = path) then st else status_at (mo s) p)).
Proof.
  intros Hz. unfold write_status. destruct (mzk_modify_run zh path (print_dec st) s Hz) as (ret & k & Hk). rewrite (SM_bind_Some _ _ _ _ _ Hk).
  destruct (Z.eqb_spec ret kSuccess); [|exists (with_zk s k); auto].
  destruct (set_status_run path st (with_zk s k)) as (o3 & H3 & Hips & Hsts). eexists. split; [exact H3|]. split; [exact Hips|]. right. exact Hsts.
Qed.

(** C21. Writing a status never takes the last server that is up from a service: every service with a server
    that is up still has one afterwards, the other servers keep their status, and a last server that is
    reported down is not written to ZooKeeper either. *)
Theorem last_up_kept zh father ip st (s : monitor K N) :
  let path := father ++ str "/" ++ ip in
  (x2f ∉ ip) -> (forall f ip', ip' ∈ ips_of (mo s) f -> x2f ∉ ip') -> st = kStatusUp \/ st = kStatusDown ->
  (forall k, is_Some (zoo_set zh (c_str path) (print_dec st) k)) ->
  exists s', UpdateServiceFunc zh path st s = Some (tt, s') /\
    (forall f, has_up (mo s) f -> has_up (mo s') f) /\
    (forall p, p <> path -> status_at (mo s') p = status_at (mo s) p) /\
    (status_at (mo s') path = st \/ status_at (mo s') path = status_at (mo s) path) /\
    (countb (up_at (mo s) father) (elements (ips_of (mo s) father)) <= 1 -> status_at (mo s) path = kStatusUp -> st = kStatusDown ->
      mo_zk s' = mo_zk s).
Proof.
  intros path Hs Hwf Hst Hz. unfold UpdateServiceFunc. set (n := countb _ _).
  destruct (update_allowed_ok father ip st s Hs) as (o & Hr & Hv). rewrite (SM_bind_Some _ _ _ _ _ Hr). fold path n.
  assert (Hkeep : forall o, (forall f, ips_of o f = ips_of (mo s) f) -> (forall p, status_at o p = status_at (mo s) p) ->
    forall f, has_up (mo s) f -> has_up o f).
  { intros o' Hi Hp f (q & Hq & Hup). exists q. unfold up_at in *. by rewrite Hi, Hp. }
  destruct (_ && (n <=? 1)) eqn:E; cbn [negb].
  { eexists. split; [reflexivity|]. cbn [with_mo mo mo_zk]. split_and!; try done; [apply Hkeep; apply Hv|intros; by apply sv_status|right; by apply sv_status]. }
  destruct (write_status_run zh path st (with_mo s o) Hz) as (s' & Hw & Hips & Hsts). exists s'. split; [exact Hw|]. cbn [with_mo mo] in *.
  assert (Hn : n <= 1 -> status_at (mo s) path = kStatusUp -> st = kStatusDown -> mo_zk s' = mo_zk s).
  { intros Hle Hu ->. rewrite Hu in E. apply Z.leb_le in Hle. by rewrite Hle in E. }
  assert (Hips' : forall f, ips_of (mo s') f = ips_of (mo s) f) by (intros f; rewrite Hips; apply Hv).
  destruct Hsts as [Hsts|Hsts].
  { split_and!; try done; [apply Hkeep; [done|]; intros p; rewrite Hsts; apply Hv|intros p _; rewrite Hsts; apply Hv|right; rewrite Hsts; apply Hv]. }
  assert (Hstatus : forall p, status_at (mo s') p = if decide (p = path) then st else status_at (mo s) p).
  { intros p. rewrite Hsts. by rewrite (sv_status _ _ Hv). }
  split_and!; try done; [|intros p Hp; rewrite Hstatus; by rewrite decide_False|left; rewrite Hstatus; by rewrite decide_True].
  intros f (q & Hq & Hup). unfold has_up. rewrite Hips'.
  assert (Hsame : forall q', f ++ str "/" ++ q' <> path -> up_at (mo s') f q' = up_at (mo s) f q').
  { intros q' Hne. unfold up_at. rewrite Hstatus. by rewrite decide_False. }
  destruct (decide (f ++ str "/" ++ q = path)) as [Ep|Hne]; [|exists q; by rewrite Hsame].
  assert (f = father /\ q = ip) as [-> ->].
  { apply (f_equal split_path) in Ep. unfold path in Ep. rewrite !split_path_child in Ep by eauto. by injection Ep. }
  destruct Hst as [->| ->]; [exists ip; split; [done|]; unfold up_at; rewrite Hstatus; by rewrite decide_True|].
  destruct (two_up (mo s) father ip) as (q' & Hq' & Hne & Hup').
  { unfold up_at in Hup. fold path in Hup. rewrite Hup in E. apply Z.leb_gt in E. exact E. }
  exists q'. split; [done|]. rewrite Hsame; [done|]. unfold path. intros Eq%app_inv_head%app_inv_head. done.
Qed.

(** ** Checking a service *)

(** The calls to the network return. *)
Definition net_total : Prop :=
  (forall host port n, is_Some (net_connect host port n)) /\ (forall n, is_Some (net_available n)) /\ (forall n, is_Some (net_close n)).

Definition with_net (s : monitor K N) (n : N) (u : list (bytes * Z)) : monitor K N := mkMonitor (mo s) (mo_zk s) n u.

Context (Hnet : net_total).

(** The attempts to connect end. *)
Lemma connect_loop_ok fuel item cur retries (s : monitor K N) :
  retries - cur < Z.of_nat fuel -> (0 < fuel)%nat ->
  exists st n, connect_loop fuel item cur retries s = Some (st, with_net s n (mo_updates s)) /\ (st = kStatusUp \/ st = kStatusDown).
Proof using Hnet.
  destruct Hnet as (Hc & Ha & _). revert cur s. induction fuel as [|fuel IH]; intros cur s Hf Hp; [lia|].
  destruct (Hc (it_host item) (it_port item) (mo_net s)) as [[[] n1] H1]. destruct (Ha n1) as [[ok n2] H2].
  cbn [connect_loop]. erewrite SM_bind_Some; [|unfold mnet; rewrite H1; reflexivity]. erewrite SM_bind_Some; [|unfold mnet; cbn [mo_net]; rewrite H2; reflexivity].
  cbv zeta. destruct ((cur + 1 <? retries) && _) eqn:E.
  - apply andb_true_iff in E as [E _]. apply Z.ltb_lt in E. destruct (IH (cur + 1) (with_net s n2 (mo_updates s))) as (st & n & Hr & Hst); [lia..|].
    exists st, n. by split.
  - eexists _, n2. split; [reflexivity|]. destruct ok; auto.
Qed.

(** A change that the check may schedule for a server of [father]. *)
Definition may_schedule (o : MonitorOptions) (father : bytes) (l : list bytes) (u : bytes * Z) : Prop :=
  (exists ip, ip ∈ l /\ u.1 = father ++ str "/" ++ ip) /\ is_Some (service_map o !! u.1) /\
  status_at o u.1 <> kStatusUnknow /\ status_at o u.1 <> kStatusOffline /\ (u.2 = kStatusUp \/ u.2 = kStatusDown) /\ u.2 <> status_at o u.1.

Lemma try_ips_ok father l (s : monitor K N) :
  exists n ups, try_ips father l s = Some (tt, with_net s n (mo_updates s ++ ups)) /\ Forall (may_schedule (mo s) father l) ups.
Proof using Hnet.
  revert s. induction l as [|ip l IH]; intros s.
  - exists (mo_net s), []. rewrite app_nil_r. by destruct s.
  - assert (Hweak : forall ups, Forall (may_schedule (mo s) father l) ups -> Forall (may_schedule (mo s) father (ip :: l)) ups).
    { intros ups Hall. eapply Forall_impl; [exact Hall|]. intros u ((q & Hq & Hu) & Hr). split; [|done]. exists q. split; [by right|done]. }
    cbn [try_ips]. set (path := father ++ str "/" ++ ip). erewrite SM_bind_Some; [|reflexivity]. cbv zeta.
    destruct (service_map (mo s) !! path) as [item|] eqn:Ei; cbn [mo].
    2:{ erewrite SM_bind_Some; [|reflexivity]. destruct (IH s) as (n & ups & Hr & Hu). exists n, ups. auto. }
    destruct (_ || _) eqn:Eo.
    { erewrite SM_bind_Some; [|reflexivity]. destruct (IH s) as (n & ups & Hr & Hu). exists n, ups. auto. }
    apply orb_false_iff in Eo as [E1%Z.eqb_neq E2%Z.eqb_neq].
    destruct (connect_loop_ok (S (Z.to_nat (conn_retry_count (mo s)))) item (if it_status item =? kStatusUp then 1 else 3) (conn_retry_count (mo s)) s)
      as (st & n1 & Hc & Hst); [destruct (it_status item =? kStatusUp); lia|lia|].
    destruct Hnet as (_ & _ & Hcl). destruct (Hcl n1) as [[[] n2] Hn2].
    assert (Es : status_at (mo s) path = it_status item) by (unfold status_at; by rewrite Ei).
    destruct (Z.eqb_spec st (it_status item)) as [Est|Est].
    + erewrite SM_bind_Some; [|erewrite SM_bind_Some; [|reflexivity]; erewrite SM_bind_Some; [|exact Hc];
        erewrite SM_bind_Some; [|unfold mnet; cbn [mo_net with_net]; rewrite Hn2; reflexivity]; rewrite (proj2 (Z.eqb_eq _ _) Est); reflexivity].
      destruct (IH (with_net s n2 (mo_updates s))) as (n & ups & Hr & Hu). exists n, ups. auto.
    + erewrite SM_bind_Some; [|erewrite SM_bind_Some; [|reflexivity]; erewrite SM_bind_Some; [|exact Hc];
        erewrite SM_bind_Some; [|unfold mnet; cbn [mo_net with_net]; rewrite Hn2; reflexivity]; rewrite (proj2 (Z.eqb_neq _ _) Est); reflexivity].
      destruct (IH (with_net s n2 (mo_updates s ++ [(path, st)]))) as (n & ups & Hr & Hu). exists n, ((path, st) :: ups).
      split; [etrans; [exact Hr|]; cbn; by rewrite <- app_assoc|]. constructor; [|by apply Hweak]. split; [exists ip; split; [by left|done]|]. cbn [fst snd].
      rewrite Es, Ei. split_and!; try done; by intros ->.
Qed.

Lemma TryConnect_ok father (s : monitor K N) :
  exists o n ups, TryConnect father s = Some (tt, mkMonitor o (mo_zk s) n (mo_updates s ++ ups)) /\ same_view (mo s) o /\
    Forall (may_schedule o father (in_order (elements (ips_of (mo s) father)))) ups /\ service_map o = service_map (mo s).
Proof using Hnet.
  unfold TryConnect. destruct (at_ips_run father s) as (o & Hr & Hv). rewrite (SM_bind_Some _ _ _ _ _ Hr).
  destruct (try_ips_ok father (in_order (elements (ips_of (mo s) father))) (with_mo s o)) as (n & ups & Ht & Hu).
  exists o, n, ups. split_and!; try done. clear - Hr. apply (f_equal (fmap (fun r => service_map (mo r.2)))) in Hr.
  unfold on_opt, at_ips in Hr. destruct (service_father_to_ip (mo s) !! father); by injection Hr as ->.
Qed.

(** Checking a service always ends, changes no status itself, and schedules a change only for a known
    server of the service that is in service, namely to up or down and never to the status it has. *)
Theorem try_connect_schedules father (s : monitor K N) :
  exists s' ups, TryConnect father s = Some (tt, s') /\ mo_updates s' = mo_updates s ++ ups /\ mo_zk s' = mo_zk s /\
    (forall p, status_at (mo s') p = status_at (mo s) p) /\ (forall f, ips_of (mo s') f = ips_of (mo s) f) /\
    Forall (fun u => exists ip, ip ∈ ips_of (mo s) father /\ u.1 = father ++ str "/" ++ ip /\ is_Some (service_map (mo s) !! u.1) /\
      status_at (mo s) u.1 <> kStatusUnknow /\ status_at (mo s) u.1 <> kStatusOffline /\
      (u.2 = kStatusUp \/ u.2 = kStatusDown) /\ u.2 <> status_at (mo s) u.1) ups.
Proof using Hnet.
  destruct (TryConnect_ok father s) as (o & n & ups & Hr & Hv & Hu & Hm). eexists _, ups. split; [exact Hr|].
  split_and!; try done; [apply Hv|apply Hv|]. eapply Forall_impl; [exact Hu|]. intros u ((ip & Hip & Hp) & Hs & Hst).
  rewrite (sv_status _ _ Hv) in Hst. rewrite Hm in Hs. rewrite in_order_perm, elem_of_elements in Hip. exists ip.
  split; [done|]. split; [done|]. by split.
Qed.

(** ** More services than threads *)

Lemma SetHasThread_ok i v (s : monitor K N) :
  0 <= i < blen (has_thread (mo s)) ->
  SetHasThread i v s = Some (tt, with_mo s (set_threads (<[Z.to_nat i := v]> (has_thread (mo s))) (waiting_index (mo s)) (mo s))).
Proof. intros Hi. unfold SetHasThread. by rewrite (proj2 (Z.leb_le _ _)), (proj2 (Z.ltb_lt _ _)) by lia. Qed.

Lemma SetHasThread_out i v (s : monitor K N) : blen (has_thread (mo s)) <= i -> SetHasThread i v s = None.
Proof. intros Hi. unfold SetHasThread. rewrite (proj2 (Z.ltb_ge _ _)) by lia. by rewrite andb_false_r. Qed.

(** A thread whose monitor has at most 64 services checks its own service again and again. With more
    services the choice of the next one leaves the vector of the threads' marks: that vector has 64
    entries, one per thread, and the first waiting service is number 64. *)
Theorem cron_overrun (s0 : monitor K N) pos :
  let num := size (service_father_to_ip (mo s0)) in
  has_thread (mo s0) = [] -> waiting_index (mo s0) = kMaxThreadNum -> length (my_service_fathers (mo s0)) = num ->
  0 <= pos < Z.min (Z.of_nat num) kMaxThreadNum ->
  exists s father, prepare_threads s0 = Some (Z.min (Z.of_nat num) kMaxThreadNum, s) /\
    my_service_fathers (mo s) !! Z.to_nat pos = Some father /\ (exists s', TryConnect father s = Some (tt, s')) /\
    (Z.of_nat num <= kMaxThreadNum -> exists s', CronHandle pos s = Some (pos, s')) /\
    (kMaxThreadNum < Z.of_nat num -> CronHandle pos s = None).
Proof using Hnet.
  intros num Hh Hw Hlen Hpos. unfold kMaxThreadNum in *.
  set (s := with_mo s0 (set_threads (replicate (Z.to_nat (Z.min (Z.of_nat num) 64)) true) 64 (mo s0))).
  destruct (lookup_lt_is_Some_2 (my_service_fathers (mo s)) (Z.to_nat pos)) as [father Hf]; [cbn; lia|].
  exists s, father. split.
  { unfold prepare_threads. do 2 (erewrite SM_bind_Some; [|reflexivity]). unfold mret, SM_ret, s, with_mo. cbv beta.
    cbn [mo mo_zk mo_net mo_updates]. rewrite Hh, Hw. cbn [length]. by rewrite take_nil, Nat.sub_0_r. }
  split; [done|]. destruct (TryConnect_ok father s) as (o & n & ups & Ht & Hv & _). split; [by eexists|].
  assert (Hrun : forall P, CronHandle pos s = P <-> (if kMaxThreadNum <? blen (my_service_fathers (mo s)) then
        SetHasThread pos false;; p ← GetAndAddWaitingIndex; SetHasThread p true;; mret p else mret pos)
        (mkMonitor o (mo_zk s) n (mo_updates s ++ ups)) = P).
  { intros P. unfold CronHandle. erewrite SM_bind_Some; [|reflexivity]. rewrite Hf. by rewrite (SM_bind_Some _ _ _ _ _ Ht). }
  assert (Hb : blen (my_service_fathers (mo s)) = Z.of_nat num) by (unfold blen; cbn; lia). split; intros Hn.
  - eexists. apply Hrun. rewrite Hb, (proj2 (Z.ltb_ge _ _)) by (unfold kMaxThreadNum; lia). reflexivity.
  - apply Hrun. rewrite Hb, (proj2 (Z.ltb_lt _ _)) by (unfold kMaxThreadNum; lia).
    assert (Hl : has_thread o = replicate 64 true).
    { rewrite (sv_has_thread _ _ Hv). unfold s, with_mo. cbn [mo set_threads has_thread]. by replace (Z.to_nat (Z.min (Z.of_nat num) 64)) with 64%nat by lia. }
    assert (Hwo : waiting_index o = 64) by by rewrite (sv_waiting _ _ Hv).
    erewrite SM_bind_Some; [|apply SetHasThread_ok; cbn [mo]; rewrite Hl; change (blen (replicate 64 true)) with 64; lia].
    unfold GetAndAddWaitingIndex. unfold mbind, SM_bind. cbn [mo set_threads waiting_index has_thread]. case_test; [done|]. rewrite Hwo.
    destruct (skip_busy _ _ _ _); [|done].
    rewrite SetHasThread_out; [done|]. cbn [with_mo mo set_threads has_thread waiting_index]. unfold blen. rewrite length_insert, Hl, length_replicate. lia.
Qed.
End Check.

(** ** New servers ([ServiceListener]) *)

Section Listen.
Context {K N : Type} `{ZKi : Zk K} `{WKi : !ZkWrite K} `{NTi : !Net N}.
Variable ParseIpPortString : bytes -> bytes * Z.
Context {I : K -> Prop} {zh : Z} {m : gmap bytes bytes} {mlist : bytes} {names : list bytes}.
Context (Hans : answering I zh m mlist names) (Hzh : zh <> 0).

(** The value of a server's node spells a status. *)
Definition valid_status (v : bytes) : Prop := atoi v = kStatusUp \/ atoi v = kStatusDown \/ atoi v = kStatusOffline.

Lemma service_status_run path st0 v (s : monitor K N) :
  path <> [] -> (x00 ∉ path) -> m !! path = Some v -> valid_status v -> I (mo_zk s) ->
  exists k, mzk_get_service_status zh path st0 s = Some ((kSuccess, atoi v), with_zk s k) /\ I k.
Proof using Hans Hzh.
  intros Hp Hn Hm Hv Hi. destruct (get_node_ok Hans path [] v s Hn Hm Hi) as (k & Hr & Hk). exists k. split; [|done].
  unfold mzk_get_service_status. rewrite (proj2 (Z.eqb_neq _ _)), bool_decide_eq_false_2 by done. cbn [orb].
  rewrite (SM_bind_Some _ _ _ _ _ Hr). cbv beta iota. rewrite Z.eqb_refl.
  replace ((atoi v =? kStatusUp) || (atoi v =? kStatusDown) || (atoi v =? kStatusOffline)) with true; [done|].
  symmetry. rewrite !orb_true_iff, !Z.eqb_eq. destruct Hv as [?|[?|?]]; auto.
Qed.

Lemma insert_ip_run father ip (s : monitor K N) :
  exists o, insert_ip father ip s = Some (tt, with_mo s o) /\ service_map o = service_map (mo s) /\
    forall f, ips_of o f = if decide (f = father) then {[ip]} ∪ ips_of (mo s) f else ips_of (mo s) f.
Proof.
  unfold insert_ip, on_opt, at_ips. destruct (service_father_to_ip (mo s) !! father) as [x|] eqn:E; (eexists; split; [reflexivity|]; split; [done|]);
    intros f; unfold ips_of; cbn; destruct (decide (f = father)) as [->|?];
    rewrite ?lookup_insert_eq, ?lookup_insert_ne by done; rewrite ?E; try done.
Qed.

(** One server is added, unless it is known already. *)
Lemma add_service_ok father ip v (s : monitor K N) :
  (x2f ∉ ip) -> (x00 ∉ father ++ str "/" ++ ip) -> m !! (father ++ str "/" ++ ip) = Some v -> valid_status v -> I (mo_zk s) ->
  exists o k, ModifyServiceFatherToIp ParseIpPortString zh true (father ++ str "/" ++ ip) s =
      Some (tt, mkMonitor o k (mo_net s) (mo_updates s)) /\ I k /\
    (forall f, ips_of o f = if decide (f = father) then {[ip]} ∪ ips_of (mo s) f else ips_of (mo s) f) /\
    (forall p, p <> father ++ str "/" ++ ip -> status_at o p = status_at (mo s) p) /\
    status_at o (father ++ str "/" ++ ip) = if decide (ip ∈ ips_of (mo s) father) then status_at (mo s) (father ++ str "/" ++ ip) else atoi v.
Proof using Hans Hzh.
  intros Hs Hn Hm Hv Hi. unfold ModifyServiceFatherToIp. rewrite split_path_child by done. cbv beta iota.
  destruct (ParseIpPortString ip) as [host port]. destruct (at_ips_run father s) as (o1 & Hr & Hv1). rewrite (SM_bind_Some _ _ _ _ _ Hr).
  destruct (decide (ip ∈ ips_of (mo s) father)) as [Hin|Hin].
  - exists o1, (mo_zk s). split; [reflexivity|]. split; [done|]. split_and!.
    + intros f. rewrite (sv_ips _ _ Hv1). destruct (decide (f = father)) as [->|]; [|done]. set_solver.
    + intros p _. apply Hv1.
    + apply Hv1.
  - destruct (service_status_run (father ++ str "/" ++ ip) kStatusUnknow v (with_mo s o1)) as (k & Hst & Hk); [by destruct father|done..|].
    rewrite (SM_bind_Some _ _ _ _ _ Hst). cbv beta iota. rewrite Z.eqb_refl. cbn [negb]. erewrite SM_bind_Some; [|reflexivity].
    match goal with |- context [insert_ip father ip ?t] => destruct (insert_ip_run father ip t) as (o & Ho & Hmap & Hips) end.
    exists o, k. split; [exact Ho|]. split; [done|]. cbn [with_mo with_zk mo] in Hmap, Hips. split_and!.
    + intros f. rewrite Hips. unfold ips_of at 1 2. cbn [set_map service_father_to_ip]. fold (ips_of o1 f). by rewrite (sv_ips _ _ Hv1).
    + intros p Hp. unfold status_at at 1. rewrite Hmap. cbn [set_map service_map]. rewrite lookup_insert_ne by done. apply Hv1.
    + unfold status_at. rewrite Hmap. cbn [set_map service_map]. by rewrite lookup_insert_eq.
Qed.

(** All servers of a reply are added. *)
Lemma add_services_ok father l (s : monitor K N) :
  (x00 ∉ father) -> (forall n, n ∈ l -> (x2f ∉ n) /\ (x00 ∉ n) /\ exists v, m !! (father ++ str "/" ++ n) = Some v /\ valid_status v) ->
  I (mo_zk s) ->
  exists o k, add_services ParseIpPortString zh father l s = Some (tt, mkMonitor o k (mo_net s) (mo_updates s)) /\ I k /\
    (forall f, ips_of o f = if decide (f = father) then list_to_set l ∪ ips_of (mo s) f else ips_of (mo s) f) /\
    (forall p, (forall n, n ∈ l -> p <> father ++ str "/" ++ n) -> status_at o p = status_at (mo s) p) /\
    (forall n v, n ∈ l -> m !! (father ++ str "/" ++ n) = Some v ->
      status_at o (father ++ str "/" ++ n) = if decide (n ∈ ips_of (mo s) father) then status_at (mo s) (father ++ str "/" ++ n) else atoi v).
Proof using Hans Hzh.
  intros Hf. revert s. induction l as [|n l IH]; intros s Hl Hi.
  - exists (mo s), (mo_zk s). split; [by destruct s|]. split; [done|]. split_and!; [|done|by intros n v ?%elem_of_nil].
    intros f. destruct (decide _); [|done]. set_solver.
  - destruct (Hl n) as (Hs & Hn & v & Hv & Hval); [by left|].
    destruct (add_service_ok father n v s) as (o1 & k1 & Hr & Hk1 & Hips1 & Hne1 & Heq1); try done; [no_nul|].
    destruct (IH (mkMonitor o1 k1 (mo_net s) (mo_updates s))) as (o & k & Hrun & Hk & Hips & Hne & Heq); [intros q Hq; apply Hl; by right|done|].
    cbn [mo] in *. exists o, k. cbn [add_services]. rewrite (SM_bind_Some _ _ _ _ _ Hr). split; [exact Hrun|]. split; [done|]. split_and!.
    + intros f. rewrite Hips, Hips1. destruct (decide (f = father)); [|done]. set_solver.
    + intros p Hp. rewrite Hne by (intros q Hq; apply Hp; by right). apply Hne1, Hp. by left.
    + intros q w Hq Hw. pose proof (Hips1 father) as Hfa. rewrite decide_True in Hfa by done.
      destruct (decide (q ∈ l)) as [Hql|Hql].
      * rewrite (Heq q w Hql Hw). rewrite Hfa. destruct (decide (q = n)) as [->|Hqn].
        { rewrite decide_True by set_solver. rewrite Heq1. by assert (w = v) as -> by congruence. }
        rewrite Hne1 by (by intros Eq%app_inv_head%app_inv_head). by destruct (decide (q ∈ ips_of (mo s) father)), (decide (q ∈ {[n]} ∪ ips_of (mo s) father)); try set_solver.
      * apply elem_of_cons in Hq as [->|]; [|done]. rewrite Hne; [rewrite Heq1; by assert (w = v) as -> by congruence|]. intros q Hq Eq%app_inv_head%app_inv_head. by subst.
Qed.

(** A child event of a service brings in every server that the options do not have, with its status in
    ZooKeeper, when there are more nodes than servers in the options; otherwise it is taken for a deletion and
    ignored. A service without servers is kept with the empty name as its only one, so its first server is
    ignored. *)
Theorem child_event father ips (s : monitor K N) :
  father <> [] -> (x00 ∉ father) -> I (mo_zk s) -> service_father_to_ip (mo s) !! father = Some ips -> is_Some (m !! father) ->
  (forall n v, n ∈ child_names m father -> m !! (father ++ str "/" ++ n) = Some v -> valid_status v) ->
  exists s', listener_child ParseIpPortString zh father s = Some (tt, s') /\
    ((length (child_names m father) <= size ips)%nat -> mo s' = mo s) /\
    ((size ips < length (child_names m father))%nat ->
      ips_of (mo s') father = list_to_set (child_names m father) ∪ ips /\
      (forall n, n ∈ child_names m father -> n ∉ ips ->
        status_at (mo s') (father ++ str "/" ++ n) = atoi (default [] (m !! (father ++ str "/" ++ n)))) /\
      (forall n, n ∈ ips -> status_at (mo s') (father ++ str "/" ++ n) = status_at (mo s) (father ++ str "/" ++ n))).
Proof using Hans Hzh.
  intros Hne Hn Hi Hips Hf Hval. unfold listener_child.
  destruct (get_chdnodes_ok Hans father s) as (l & k & Hr & Hk & Hc & _); [done..|]. rewrite (SM_bind_Some _ _ _ _ _ Hr). cbv beta iota.
  rewrite Z.eqb_refl. cbn [negb]. erewrite SM_bind_Some; [|reflexivity]. cbn [with_zk mo]. rewrite Hips.
  pose proof (child_names_ok m father) as Hc'. assert (Hp : l ≡ₚ child_names m father).
  { apply NoDup_Permutation; [apply Hc|apply Hc'|]. intros n. by rewrite (proj2 Hc n), (proj2 Hc' n). }
  rewrite <- (Permutation_length Hp). destruct (Nat.leb_spec (length l) (size ips)) as [Hle|Hlt].
  - eexists. split; [reflexivity|]. split; [done|]. lia.
  - destruct (add_services_ok father l (with_zk s k)) as (o & k' & Hrun & _ & Hio & Hso & Hst); [done| |done|].
    { intros n Hnl. pose proof (proj1 (proj2 Hc n) Hnl) as (_ & ? & ? & (v & Hv)). split_and!; try done. exists v. split; [exact Hv|].
      eapply Hval; [by rewrite <- Hp|exact Hv]. }
    eexists. split; [exact Hrun|]. split; [lia|]. intros _. cbn [mo with_zk] in *.
    assert (Hi' : ips_of (mo s) father = ips) by (unfold ips_of; by rewrite Hips). split_and!.
    + rewrite Hio, decide_True, Hi' by done. apply set_eq. intros x. by rewrite !elem_of_union, !elem_of_list_to_set, Hp.
    + intros n Hnl Hnot. rewrite <- Hp in Hnl. pose proof (proj1 (proj2 Hc n) Hnl) as (_ & _ & _ & (v & Hv)).
      rewrite (Hst n v Hnl Hv), decide_False by (by rewrite Hi'). change (father ++ [x2f] ++ n) with (father ++ str "/" ++ n) in Hv. by rewrite Hv.
    + intros n Hnin. destruct (decide (n ∈ l)) as [Hnl|Hnl].
      * pose proof (proj1 (proj2 Hc n) Hnl) as (_ & _ & _ & (v & Hv)). by rewrite (Hst n v Hnl Hv), decide_True by (by rewrite Hi').
      * apply Hso. intros q Hq Eq%app_inv_head%app_inv_head. by subst.
Qed.
End Listen.

(** ** A small cluster *)

#[local] Instance demo_net : Net bool := {|
  net_connect _ _ := mret tt;
  net_available := fun b => Some (b, b);
  net_close := mret tt
|}.

Lemma mem_net : net_total.
Proof. split_and!; intros; by eexists. Qed.

#[local] Existing Instance mem_write.

Definition demo_root : bytes := kLockRootDir ++ str "/t/".
Definition demo_tree : gmap bytes bytes := {[
  demo_root ++ kMonitorList := []; demo_root ++ kMonitorList ++ str "/monitor_0000000007" := str "h1";
  demo_root ++ kMonitorList ++ str "/monitor_0000000003" := str "h2";
  demo_root ++ kNodeList := []; demo_root ++ kNodeList ++ str "/a" := str "/s/a"; demo_root ++ kNodeList ++ str "/b" := str "/s/b";
  demo_root ++ kNodeList ++ str "/c" := str "/s/c";
  str "/s/a" := []; str "/s/a/10.0.0.1:80" := str "0"; str "/s/a/10.0.0.2:80" := str "2" ]}.
Definition demo_names : list bytes := child_names demo_tree (demo_root ++ kMonitorList).

Lemma mem_answering m mlist : answering (fun k => k = m) 1 m mlist (child_names m mlist).
Proof.
  split.
  - intros p w k ->. by exists m.
  - intros p w k -> [v Hv]. exists (child_names m p), m. cbn. rewrite Hv. split_and!; try done; [apply child_names_ok|by intros ->].
Qed.

Definition demo_options (lock : bytes) : MonitorOptions := mkOptions (str "t") (str "h1") 3 ∅ [] ∅ [] kMaxThreadNum true ∅ lock.
Definition demo_monitor (o : MonitorOptions) : monitor (gmap bytes bytes) bool := mkMonitor o demo_tree false [].

(** The monitor that is registered as [name]. *)
Definition demo_registered (name : bytes) : monitor (gmap bytes bytes) bool :=
  demo_monitor (demo_options (demo_root ++ kMonitorList ++ str "/" ++ name)).

Section Orders.
(** A ZooKeeper whose second session is given the children in the opposite order. *)
#[local] Instance mem_orders : Zk (gmap bytes bytes) := {|
  zookeeper_init := @zookeeper_init _ mem_zk;
  zookeeper_close := @zookeeper_close _ mem_zk;
  zoo_state := @zoo_state _ mem_zk;
  zoo_get := @zoo_get _ mem_zk;
  zoo_create := @zoo_create _ mem_zk;
  zoo_get_children zh p _ := fun m => Some (match m !! p with
    | Some _ => (ZOK, (if Z.eqb zh 2 then reverse (child_names m p) else child_names m p))
    | None => (ZNONODE, []) end, m);
  zoo_exists := @zoo_exists _ mem_zk
|}.

Lemma orders_answering zh m mlist :
  answering (fun k => k = m) zh m mlist (if Z.eqb zh 2 then reverse (child_names m mlist) else child_names m mlist).
Proof.
  split.
  - intros p w k ->. by exists m.
  - intros p w k -> [v Hv]. exists (if Z.eqb zh 2 then reverse (child_names m p) else child_names m p), m. cbn. rewrite Hv.
    split_and!; try done; [|by intros ->]. destruct (child_names_ok m p) as [Hnd Hin]. destruct (Z.eqb zh 2); [|by split].
    split; [by rewrite reverse_Permutation|]. intros n. by rewrite reverse_Permutation.
Qed.

(** Both monitors on sessions of the first kind share the services; when the second one is on a session of
    the other kind, both find rank 0: both take two of the services, and the third has no monitor. *)
Lemma balance_partition_witness :
  (exists ms' : list (monitor (gmap bytes bytes) bool), length ms' = 2%nat /\ concat ((fun s' => my_service_fathers (mo s')) <$> ms') ≡ₚ [str "/s/a"; str "/s/b"; str "/s/c"]) /\
  (exists s1 s2, DoBalance 1 (demo_registered (str "monitor_0000000007")) = Some (kSuccess, s1) /\
    DoBalance 2 (demo_registered (str "monitor_0000000003")) = Some (kSuccess, s2) /\
    my_service_fathers (mo s1) = [str "/s/a"; str "/s/c"] /\ my_service_fathers (mo s2) = [str "/s/a"; str "/s/c"]).
Proof.
  assert (Hseq : exists q, (mapM monitor_seq demo_names : option (list Z)) = Some q /\ NoDup q).
  { eexists. split; [vm_compute; reflexivity|]. apply (bool_decide_unpack _). vm_compute. exact Logic.I. }
  destruct Hseq as (seqs & Hseq & Hnd).
  assert (Hne : demo_names <> []) by (intros E; apply (f_equal length) in E; vm_compute in E; discriminate E).
  assert (H0 : Forall (fun n => x00 ∉ n) demo_names) by (apply (bool_decide_unpack _); vm_compute; exact Logic.I).
  assert (Hi : x00 ∉ str "t") by (apply (bool_decide_unpack _); vm_compute; exact Logic.I).
  assert (H1 : is_Some (demo_tree !! (kLockRootDir ++ str "/" ++ str "t" ++ str "/" ++ kNodeList))) by (eexists; vm_compute; reflexivity).
  assert (H2 : is_Some (demo_tree !! (kLockRootDir ++ str "/" ++ str "t" ++ str "/" ++ kMonitorList))) by (eexists; vm_compute; reflexivity).
  split.
  - destruct (balance_partition demo_tree (str "t") demo_names seqs ((fun n => (demo_names, (1, demo_registered n))) <$> demo_names)) as
      (ranks & ms' & _ & Hlen & _ & Hp & Hsame);
      [exact Hseq|exact Hnd|exact Hne|exact H0|exact Hi|exact H1|exact H2| |].
    + apply Forall2_fmap_r, Forall_Forall2_diag, Forall_true. intros n. split; [done|]. split; [|by split_and!].
      exists (fun k => k = demo_tree). split; [apply (orders_answering 1)|reflexivity].
    + exists ms'. split; [rewrite Hlen; vm_compute; reflexivity|]. rewrite Hp; [apply (bool_decide_unpack _); vm_compute; exact Logic.I|].
      apply Hsame. apply Forall_fmap, Forall_true. done.
  - assert (En : demo_names = [str "monitor_0000000007"; str "monitor_0000000003"]) by (vm_compute; reflexivity).
    destruct (balance_partition demo_tree (str "t") demo_names seqs [(demo_names, (1, demo_registered (str "monitor_0000000007")));
      (reverse demo_names, (2, demo_registered (str "monitor_0000000003")))]) as (ranks & ms' & Hr & Hlen & Hall & _);
      [exact Hseq|exact Hnd|exact Hne|exact H0|exact Hi|exact H1|exact H2| |].
    + rewrite En at 1. apply Forall2_cons. split; [|apply Forall2_cons; split; [|constructor]].
      * split; [done|]. split; [|by split_and!]. exists (fun k => k = demo_tree). split; [apply (orders_answering 1)|reflexivity].
      * split; [apply reverse_Permutation|]. split; [|by split_and!]. exists (fun k => k = demo_tree). split; [apply (orders_answering 2)|reflexivity].
    + rewrite En in Hr, Hlen, Hall. destruct ranks as [|r1 [|r2 [|? ?]]]; try discriminate Hr. destruct ms' as [|s1 [|s2 [|? ?]]]; try discriminate Hlen.
      destruct (Hall 0%nat _ _ _ _ eq_refl eq_refl eq_refl eq_refl) as (_ & Hb1 & _).
      destruct (Hall 1%nat _ _ _ _ eq_refl eq_refl eq_refl eq_refl) as (_ & Hb2 & _). cbn [fst snd] in Hb1, Hb2.
      exists s1, s2. split; [exact Hb1|]. split; [exact Hb2|].
      assert (E1 : option_map (fun r => my_service_fathers (mo r.2)) (DoBalance 1 (demo_registered (str "monitor_0000000007"))) = Some [str "/s/a"; str "/s/c"])
        by (vm_compute; reflexivity).
      assert (E2 : option_map (fun r => my_service_fathers (mo r.2)) (DoBalance 2 (demo_registered (str "monitor_0000000003"))) = Some [str "/s/a"; str "/s/c"])
        by (vm_compute; reflexivity).
      rewrite Hb1 in E1. rewrite Hb2 in E2. injection E1 as E1. injection E2 as E2. by split.
Defined.
End Orders.

Definition demo_loaded : monitor (gmap bytes bytes) bool :=
  demo_monitor (mkOptions (str "t") (str "h1") 3
    {[ str "/s/a/10.0.0.1:80" := mkItem (str "10.0.0.1") 80 (str "/s/a") kStatusUp;
       str "/s/a/10.0.0.2:80" := mkItem (str "10.0.0.2") 80 (str "/s/a") kStatusDown ]}
    [str "/s/a"] {[ str "/s/a" := {[ str "10.0.0.1:80"; str "10.0.0.2:80" ]} ]} [] kMaxThreadNum false ∅ []).

Lemma last_up_kept_witness :
  exists s', UpdateServiceFunc 1 (str "/s/a/10.0.0.1:80") kStatusDown demo_loaded = Some (tt, s') /\ has_up (mo s') (str "/s/a") /\
    mo_zk s' = demo_tree.
Proof.
  destruct (last_up_kept 1 (str "/s/a") (str "10.0.0.1:80") kStatusDown demo_loaded) as (s' & Hr & Hup & _ & _ & Hzk).
  - apply (bool_decide_unpack _). vm_compute. exact Logic.I.
  - intros f ip. unfold ips_of. cbn [demo_loaded demo_monitor mo service_father_to_ip]. destruct (decide (f = str "/s/a")) as [->|Hne].
    + rewrite lookup_singleton_eq. cbn [default from_option id]. rewrite elem_of_union, !elem_of_singleton.
      intros [->| ->]; apply (bool_decide_unpack _); vm_compute; exact Logic.I.
    + by rewrite lookup_singleton_ne.
  - by right.
  - intros k. cbn [zoo_set mem_write]. destruct (_ !! _); by eexists.
  - exists s'. split; [exact Hr|]. split.
    + apply Hup. exists (str "10.0.0.1:80"). split; [|reflexivity]. apply (bool_decide_unpack _). vm_compute. exact Logic.I.
    + apply Hzk; [|reflexivity..]. apply (bool_decide_unpack _). vm_compute. exact Logic.I.
Defined.

Lemma try_connect_schedules_witness :
  exists s', TryConnect (str "/s/a") demo_loaded = Some (tt, s') /\ mo_updates s' = [(str "/s/a/10.0.0.1:80", kStatusDown)].
Proof.
  destruct (try_connect_schedules mem_net (str "/s/a") demo_loaded) as (s' & ups & Hr & _).
  exists s'. split; [exact Hr|]. assert (Hc : option_map (fun r => mo_updates r.2) (TryConnect (str "/s/a") demo_loaded) =
    Some [(str "/s/a/10.0.0.1:80", kStatusDown)]) by (vm_compute; reflexivity). rewrite Hr in Hc. by injection Hc.
Defined.

(** A monitor with [n] services. *)
Definition demo_names_of (n : nat) : list bytes := (fun i => str "/s/" ++ print_dec (Z.of_nat i)) <$> List.seq 0 n.
Definition demo_many (n : nat) : monitor (gmap bytes bytes) bool :=
  demo_monitor (mkOptions (str "t") (str "h1") 3 ∅ (demo_names_of n) (list_to_map ((fun f => (f, ∅)) <$> demo_names_of n)) [] kMaxThreadNum false ∅ []).

Lemma cron_overrun_witness :
  exists s, prepare_threads (demo_many 65) = Some (64, s) /\ CronHandle 3 s = None.
Proof.
  destruct (cron_overrun mem_net (demo_many 65) 3) as (s & father & Hp & _ & _ & _ & Hc);
    [reflexivity|reflexivity|vm_compute; reflexivity|vm_compute; split; [discriminate|reflexivity]|].
  exists s. split; [|apply Hc; vm_compute; reflexivity]. rewrite Hp. do 2 f_equal.
Defined.

(** The first server of a service is ignored. *)
Definition demo_empty : monitor (gmap bytes bytes) bool :=
  mkMonitor (mkOptions (str "t") (str "h1") 3 ∅ [str "/s/e"] {[ str "/s/e" := {[ [] ]} ]} [] kMaxThreadNum false ∅ [])
    {[ str "/s/e" := []; str "/s/e/10.0.0.1:80" := str "0" ]} false [].

Lemma child_event_witness :
  let parse := fun ip : bytes => (ip, 80) in
  AddChildren (str "/s/e") [] (demo_monitor (mkOptions (str "t") (str "h1") 3 ∅ [str "/s/e"] {[ str "/s/e" := ∅ ]} [] kMaxThreadNum false ∅ [])) =
    Some (tt, demo_monitor (mo demo_empty)) /\
  exists s', listener_child parse 1 (str "/s/e") demo_empty = Some (tt, s') /\ mo s' = mo demo_empty.
Proof.
  split; [reflexivity|].
  destruct (child_event (fun ip : bytes => (ip, 80)) (mem_answering (mo_zk demo_empty) []) ltac:(discriminate) (str "/s/e") {[ [] ]} demo_empty)
    as (s' & Hr & Hno & _).
  - discriminate.
  - apply (bool_decide_unpack _). vm_compute. exact Logic.I.
  - reflexivity.
  - reflexivity.
  - eexists. reflexivity.
  - intros n v Hn Hv. assert (En : child_names (mo_zk demo_empty) (str "/s/e") = [str "10.0.0.1:80"]) by (vm_compute; reflexivity).
    rewrite En in Hn. apply list_elem_of_singleton in Hn as ->. vm_compute in Hv. injection Hv as <-. left. reflexivity.
  - exists s'. split; [exact Hr|]. apply Hno. vm_compute. repeat constructor.
Defined.
End MonitorThm.
