(* ===== verification/MonitorCmd.v ===== *)
(** * Commands to the monitor ([src/monitor/src/monitor_process.cc])

    On SIGUSR1 the monitor reads its command file and writes the list of servers that was asked for. The
    state is the options, which the threads of the monitor share, and the files. *)

From S2P Require Import Prelude Common Text Format Shm Config Gray Monitor Agent Cmd.

Module MonitorCmd.
Import Gray Monitor.

Definition kCmdFile : bytes := str "tmp/cmd".
Definition kCmdReload : bytes := str "reload".
Definition kCmdList : bytes := str "list".
Definition kStatusListFile : bytes := str "tmp/list".
Definition kAll : bytes := str "all".
Definition kUp : bytes := str "up".
Definition kDown : bytes := str "down".
Definition kOffline : bytes := str "offline".
Definition kLineLength : nat := 100.

(** ** Text *)

Definition nl : bytes := [x0a].
(** [setw] with the adjustment to the left. *)
Definition setw (n : nat) (s : bytes) : bytes := s ++ replicate (n - length s) x20.
Definition dashes : bytes := replicate kLineLength x2d ++ nl.
Definition row (stat service node : bytes) : bytes := setw 10 stat ++ setw 30 service ++ node ++ nl.
Definition heading : bytes := dashes ++ row (str "status") (str "service") (str "node").

Definition status_text (status : Z) : bytes :=
  if status =? kStatusUp then str "up" else if status =? kStatusDown then str "down"
  else if status =? kStatusOffline then str "offline" else str "unknown".

(** The counters, and one more server of a status. *)
Record counts := mkCounts { upCount : Z; offlineCount : Z; downCount : Z; unknownCount : Z }.
Definition no_counts : counts := mkCounts 0 0 0 0.
Definition count (status : Z) (c : counts) : counts :=
  if status =? kStatusUp then mkCounts (upCount c + 1) (offlineCount c) (downCount c) (unknownCount c)
  else if status =? kStatusDown then mkCounts (upCount c) (offlineCount c) (downCount c + 1) (unknownCount c)
  else if status =? kStatusOffline then mkCounts (upCount c) (offlineCount c + 1) (downCount c) (unknownCount c)
  else mkCounts (upCount c) (offlineCount c) (downCount c) (unknownCount c + 1).

Definition totals (c : counts) (allCount : Z) : bytes :=
  str "Up:" ++ print_dec (upCount c) ++ str "    Offline:" ++ print_dec (offlineCount c) ++ str "    Down:" ++
  print_dec (downCount c) ++ str "    Unknown:" ++ print_dec (unknownCount c) ++ str "    Total:" ++ print_dec allCount ++ nl.

(** ** The list *)

(** The part of [ProcessParam] that lists the servers of a service. *)
Fixpoint node_rows (op : bytes) (ips : list bytes) (text : bytes) (c : counts) : SM MonitorOptions (bytes * counts) :=
  match ips with
  | [] => mret (text, c)
  | ip :: ips' =>
      ip_port ← (match last op with
                 | Some b => mret (if decide (b = x2f) then op ++ ip else op ++ str "/" ++ ip)
                 | None => undefined
                 end);
      item ← (fun o => Some (at_item ip_port o));
      node_rows op ips' (text ++ dashes ++ row (status_text (it_status item)) ip op) (count (it_status item) c)
  end.

Definition list_node (op : bytes) : SM MonitorOptions bytes :=
  ips ← (fun o => Some (at_ips op o));
  if decide (ips = ∅) then mret [] else
  '(text, c) ← node_rows op (in_order (elements ips)) heading no_counts;
  mret (text ++ dashes ++ totals c (Z.of_nat (size ips))).

(** The servers of all services: which statuses get a row. *)
Definition selected (op : bytes) (status : Z) : bool :=
  bool_decide (op = kAll) || (if status =? kStatusUp then bool_decide (op = kUp) else if status =? kStatusDown then bool_decide (op = kDown)
    else if status =? kStatusOffline then bool_decide (op = kOffline) else false).

Fixpoint all_rows (op : bytes) (items : list ServiceItem) (text : bytes) (c : counts) : bytes * counts :=
  match items with
  | [] => (text, c)
  | item :: items' =>
      let service := it_host item ++ str ":" ++ print_dec (it_port item) in
      let text := if selected op (it_status item)
                  then text ++ dashes ++ row (status_text (it_status item)) service (it_father item) else text in
      all_rows op items' text (count (it_status item) c)
  end.

(** The items of [service_map] in the order of their paths. *)
Definition items_of (o : MonitorOptions) : list ServiceItem :=
  omap (fun k => service_map o !! k) (in_order (elements (dom (service_map o)))).

Definition list_all (op : bytes) (o : MonitorOptions) : bytes :=
  let '(text, c) := all_rows op (items_of o) heading no_counts in
  text ++
  (if decide (op = kUp) then dashes ++ str "Up Service:" ++ print_dec (upCount c) ++ nl else []) ++
  (if decide (op = kDown) then dashes ++ str "Down Service:" ++ print_dec (downCount c) ++ nl else []) ++
  (if decide (op = kOffline) then dashes ++ str "Offline Service:" ++ print_dec (offlineCount c) ++ nl else []) ++
  (if decide (op = kAll) then dashes ++ totals c (Z.of_nat (size (service_map o))) else []).

(** ** Reading the commands *)

Definition blank (b : byte) : bool := bool_decide (b ∈ [x20; x09; x0a; x0d]).

(** The loops of [trim] over the positions [left] and [right]. A string has a NUL at its length; an index
    beyond that, which the second loop starts with for the empty string, is undefined. *)
Fixpoint trim_left (s : bytes) (l : nat) (fuel : nat) : nat :=
  match fuel with
  | O => l
  | S fuel' => match s !! l with Some b => if blank b then trim_left s (S l) fuel' else l | None => l end
  end.

(** [right] is a [size_t]: at 0 a step down wraps around. *)
Fixpoint trim_right (s : bytes) (l r : Z) (fuel : nat) : option Z :=
  match fuel with
  | O => None
  | S fuel' =>
      if r <? l then Some r else
      if blen s <? r then None else
      if blank (default x00 (s !! Z.to_nat r)) then trim_right s l (u64 (r - 1)) fuel' else Some r
  end.

Definition trim (s : bytes) : option bytes :=
  let l := trim_left s 0 (length s) in
  match trim_right s (Z.of_nat l) (u64 (blen s - 1)) (S (length s)) with
  | None => None
  | Some r => Some (take (Z.to_nat (u64 (r - Z.of_nat l + 1))) (drop l s))
  end.

(** All lines, with the one after the last newline. *)
Fixpoint all_lines (s line : bytes) : list bytes :=
  match s with
  | [] => [line]
  | b :: s' => if decide (b = x0a) then line :: all_lines s' [] else all_lines s' (line ++ [b])
  end.

Section Cmd.
Context {W : Type} `{Files W}.
(** [slash::StringSplit]. *)
Variable StringSplit : bytes -> byte -> list bytes.

Abbreviation CM := (SM (MonitorOptions * W)).

Definition on_mo {A} (c : SM MonitorOptions A) : CM A := fun s =>
  match c (fst s) with Some (a, o) => Some (a, (o, snd s)) | None => None end.
Definition on_files {A} (c : SM W A) : CM A := fun s =>
  match c (snd s) with Some (a, w) => Some (a, (fst s, w)) | None => None end.

(** Opening the file empties it; the text is written after it was put together. *)
Definition ProcessParam (op : bytes) : CM unit :=
  opened ← on_files (file_out false kStatusListFile []);
  if negb (opened : bool) then mret tt else
  text ← (if bool_decide (op ∈ [kUp; kDown; kOffline; kAll]) then o ← gets fst; mret (list_all op o) else on_mo (list_node op));
  on_files (file_out true kStatusListFile text);;
  mret tt.

Definition HandleCmd (cmd : list bytes) : CM unit :=
  match cmd with
  | [] => undefined
  | c :: ps =>
      if decide (c = kCmdReload) then mret tt
      else if decide (c = kCmdList) then ProcessParam (match ps with [] => kAll | op :: _ => op end)
      else mret tt
  end.

Fixpoint cmd_lines (lines : list bytes) : CM unit :=
  match lines with
  | [] => mret tt
  | line :: lines' =>
      match trim line with
      | None => undefined
      | Some line =>
          let cmd_explain := StringSplit line x3a in
          if bool_decide (cmd_explain = []) || (2 <? blen cmd_explain) then cmd_lines lines' else
          HandleCmd cmd_explain;; cmd_lines lines'
      end
  end.

Definition ProcessFileMsg (cmdFile : bytes) : CM Z :=
  content ← on_files (file_content (c_str cmdFile));
  match content with
  | None => mret 0
  | Some content => cmd_lines (all_lines content []);; mret 0
  end.
End Cmd.
End MonitorCmd.
