(* ===== verification/MonitorCmdThm.v ===== *)
(** * Theorems about the monitor's commands

    Trimming a line, reading the command file, and the list of a service. *)

From S2P Require Import Prelude Common Text Format Shm Config Gray Monitor Agent Cmd CmdThm MonitorCmd.

Module MonitorCmdThm.
Import Gray Monitor MonitorCmd.

(** ** Trimming *)

Definition all_blank (s : bytes) : Prop := Forall (fun b => blank b = true) s.

Lemma trim_left_spec s l fuel :
  (length s <= l + fuel)%nat -> (l <= length s)%nat -> all_blank (take l s) ->
  let l' := trim_left s l fuel in (l <= l' <= length s)%nat /\ all_blank (take l' s) /\ (forall b, s !! l' = Some b -> blank b = false).
Proof.
  revert l. induction fuel as [|fuel IH]; intros l Hf Hl Hb; cbn [trim_left].
  - split; [lia|]. split; [done|]. rewrite lookup_ge_None_2 by lia. done.
  - destruct (s !! l) as [b|] eqn:E; [|split; [lia|]; split; [done|]; congruence].
    destruct (blank b) eqn:Eb; [|split; [lia|]; split; [done|]; congruence].
    pose proof (lookup_lt_Some _ _ _ E). destruct (IH (S l)) as (? & ? & ?); [lia|lia| |split; [lia|done]].
    rewrite (take_S_r _ _ _ E). apply Forall_app. by split; [|constructor].
Qed.

Lemma trim_right_spec s l r fuel :
  blen s < 2 ^ 64 -> 0 <= l <= r + 1 -> r < blen s -> r - l + 1 < Z.of_nat fuel -> all_blank (drop (Z.to_nat (r + 1)) s) ->
  (forall b, s !! Z.to_nat l = Some b -> blank b = false) ->
  exists r', trim_right s l r fuel = Some r' /\ l <= r' + 1 /\ r' <= r /\ all_blank (drop (Z.to_nat (r' + 1)) s) /\
    (l <= r' -> forall b, s !! Z.to_nat r' = Some b -> blank b = false).
Proof.
  intros Hlen. revert r. induction fuel as [|fuel IH]; intros r Hl Hr Hf Hb Hfirst; [lia|]. cbn [trim_right].
  destruct (Z.ltb_spec r l) as [Hrl|Hrl].
  - exists r. split; [done|]. split; [lia|]. split; [lia|]. split; [done|lia].
  - rewrite (proj2 (Z.ltb_ge _ _)) by lia. destruct (lookup_lt_is_Some_2 s (Z.to_nat r)) as [b E]; [unfold blen in Hr; lia|]. rewrite E. change (default x00 (Some b)) with b.
    destruct (blank b) eqn:Eb.
    + assert (Hne : l <> r) by (intros ->; by rewrite (Hfirst _ E) in Eb). rewrite u64_small by lia.
      destruct (IH (r - 1)) as (r' & Hres & ? & ? & ? & ?); [lia..| |done|exists r'; split_and!; try done; lia].
      replace (Z.to_nat (r - 1 + 1)) with (Z.to_nat r) by lia. rewrite (drop_S _ _ _ E). constructor; [done|].
      by replace (S (Z.to_nat r)) with (Z.to_nat (r + 1)) by lia.
    + exists r. split; [done|]. split_and!; try lia; [done|]. intros _ b'. rewrite E. congruence.
Qed.

(** [trim] cuts the blanks off both ends of a string that is not empty, and is undefined for the empty one. *)
Lemma trim_spec s :
  blen s < 2 ^ 64 ->
  (s = [] -> trim s = None) /\
  (s <> [] -> exists a m b, s = a ++ m ++ b /\ all_blank a /\ all_blank b /\ trim s = Some m /\
     (forall c, head m = Some c -> blank c = false) /\ (forall c, last m = Some c -> blank c = false)).
Proof.
  intros Hlen. split; [intros ->; reflexivity|]. intros Hne. unfold trim.
  destruct (trim_left_spec s 0 (length s)) as (Hl & Hbl & Hfirst); [lia|lia|constructor|].
  set (l := trim_left s 0 (length s)) in *. assert (Hs : 0 < blen s) by (destruct s; [done|unfold blen; cbn; lia]).
  rewrite (u64_small (blen s - 1)) by lia.
  destruct (trim_right_spec s (Z.of_nat l) (blen s - 1) (S (length s))) as (r & Hres & Hlr & Hr & Hbr & Hlast); try done.
  - unfold blen. lia.
  - lia.
  - unfold blen. lia.
  - rewrite drop_ge; [constructor|unfold blen; lia].
  - by rewrite Nat2Z.id.
  - rewrite Hres, u64_small by lia.
    replace (Z.to_nat (r - Z.of_nat l + 1)) with (Z.to_nat (r + 1) - l)%nat by lia.
    exists (take l s), (take (Z.to_nat (r + 1) - l) (drop l s)), (drop (Z.to_nat (r + 1)) s). split; [|split; [done|split; [done|split; [done|split]]]].
    + rewrite <- (take_drop l s) at 1. f_equal. rewrite <- (take_drop (Z.to_nat (r + 1) - l) (drop l s)) at 1. f_equal. rewrite drop_drop. f_equal. lia.
    + intros c Hc. rewrite head_lookup in Hc. apply lookup_take_Some in Hc as [Hc _]. rewrite lookup_drop, Nat.add_0_r in Hc. by apply Hfirst.
    + intros c Hc. rewrite last_lookup, length_take, length_drop in Hc. apply lookup_take_Some in Hc as [Hc Hlt]. rewrite lookup_drop in Hc.
      apply (Hlast ltac:(lia)). rewrite <- Hc. f_equal. unfold blen in Hr. lia.
Qed.

(** ** The command file *)

Lemma all_lines_newline pre line : exists ls, all_lines (pre ++ nl) line = ls ++ [[]].
Proof.
  revert line. induction pre as [|b pre IH]; intros line; cbn [app all_lines nl].
  - rewrite decide_True by done. by exists [line].
  - destruct (decide (b = x0a)); [|apply IH]. destruct (IH []) as (ls & E). exists (line :: ls). cbn [app]. by f_equal.
Qed.

Section File.
Context {W : Type} `{!Files W}.
Variable StringSplit : bytes -> byte -> list bytes.

Lemma empty_line_undefined ls (s : MonitorOptions * W) : cmd_lines StringSplit (ls ++ [[]]) s = None.
Proof.
  revert s. induction ls as [|line ls IH]; intros s; [reflexivity|]. cbn [app cmd_lines]. destruct (trim line) as [t|]; [|done].
  case_match; [apply IH|]. unfold mbind, SM_bind. destruct (HandleCmd _ s) as [[[] s']|]; [apply IH|done].
Qed.

(** A command file that ends with a newline, as the script that comes with the monitor writes it, cannot
    be read: the loop over the lines tries one more, empty line, and trimming an empty string indexes it
    at the largest position there is. *)
Theorem command_file_overrun cmdFile pre (s : MonitorOptions * W) w :
  file_content (c_str cmdFile) (snd s) = Some (Some (pre ++ nl), w) ->
  trim [] = None /\ ProcessFileMsg StringSplit cmdFile s = None.
Proof.
  intros Hc. split; [reflexivity|]. unfold ProcessFileMsg.
  rewrite (SM_bind_Some (on_files _) _ s (Some (pre ++ nl)) (fst s, w)) by (unfold on_files; by rewrite Hc). cbv beta iota.
  destruct (all_lines_newline pre []) as (ls & ->). unfold mbind at 1, SM_bind at 1. by rewrite empty_line_undefined.
Qed.
End File.

(** ** The list of a service *)

Definition server_path (op ip : bytes) : bytes := if decide (last op = Some x2f) then op ++ ip else op ++ str "/" ++ ip.
Definition status_in (o : MonitorOptions) (op ip : bytes) : Z := it_status (default default_item (service_map o !! server_path op ip)).
Definition server_row (o : MonitorOptions) (op ip : bytes) : bytes := dashes ++ row (status_text (status_in o op ip)) ip op.

(** The servers that have an item now and had none before. *)
Definition items_added (op : bytes) (ips : list bytes) (o o' : MonitorOptions) : Prop :=
  o' = set_map (service_map o') o /\
  forall p, service_map o' !! p = match service_map o !! p with
    | Some i => Some i
    | None => if bool_decide (p ∈ server_path op <$> ips) then Some default_item else None
    end.

Definition total (c : counts) : Z := upCount c + offlineCount c + downCount c + unknownCount c.

Lemma count_total st c : total (count st c) = total c + 1.
Proof. unfold total, count. repeat case_test; cbn; lia. Qed.

Lemma at_item_added op ip (o : MonitorOptions) :
  exists o', at_item (server_path op ip) o = (default default_item (service_map o !! server_path op ip), o') /\ items_added op [ip] o o'.
Proof.
  unfold at_item, items_added. destruct (service_map o !! server_path op ip) as [i|] eqn:E; eexists; (split; [reflexivity|]).
  - split; [by destruct o|]. intros p. destruct (service_map o !! p) eqn:Ep; [done|]. rewrite bool_decide_eq_false_2; [done|].
    cbn. rewrite list_elem_of_singleton. intros ->. congruence.
  - split; [done|]. intros p. cbn [set_map service_map]. destruct (decide (p = server_path op ip)) as [->|Hne].
    + rewrite lookup_insert_eq, E, bool_decide_eq_true_2; [done|]. cbn. by rewrite list_elem_of_singleton.
    + rewrite lookup_insert_ne by done. destruct (service_map o !! p); [done|]. rewrite bool_decide_eq_false_2; [done|]. cbn. by rewrite list_elem_of_singleton.
Qed.

Lemma items_added_status op ips o o' ip : items_added op ips o o' -> status_in o' op ip = status_in o op ip.
Proof. intros [_ Ha]. unfold status_in. rewrite Ha. destruct (service_map o !! _); [done|]. by case_match. Qed.

Lemma node_rows_ok op ips text c o :
  op <> [] ->
  exists c' o', node_rows op ips text c o = Some ((text ++ concat (server_row o op <$> ips), c'), o') /\ items_added op ips o o' /\
    c' = foldl (fun c ip => count (status_in o op ip) c) c ips.
Proof.
  intros Hop. revert text c o. induction ips as [|ip ips IH]; intros text c o; cbn [node_rows].
  - exists c, o. split; [by rewrite app_nil_r|]. split; [|done]. split; [by destruct o|]. intros p. by destruct (service_map o !! p).
  - assert (Hpath : (match last op with Some b => mret (if decide (b = x2f) then op ++ ip else op ++ str "/" ++ ip) | None => undefined end) o =
                     Some (server_path op ip, o)).
    { unfold server_path. destruct (last op) as [b|] eqn:El; [|by apply last_None in El]. destruct (decide (b = x2f)) as [->|]; [by rewrite decide_True|].
      rewrite decide_False by congruence. done. }
    rewrite (SM_bind_Some _ _ _ _ _ Hpath). destruct (at_item_added op ip o) as (o1 & Hat & Hadd1).
    erewrite SM_bind_Some; [|by rewrite Hat]. change (it_status (default default_item (service_map o !! server_path op ip))) with (status_in o op ip).
    destruct (IH (text ++ dashes ++ row (status_text (status_in o op ip)) ip op) (count (status_in o op ip) c) o1) as (c2 & o2 & Hr & Hadd2 & Hc2).
    exists c2, o2. split; [|split].
    + rewrite Hr. do 3 f_equal. rewrite <- app_assoc. f_equal. cbn [fmap list_fmap concat]. unfold server_row at 2. rewrite <- !app_assoc. do 2 f_equal. f_equal.
      apply list_fmap_ext. intros i x _. unfold server_row. by rewrite (items_added_status _ _ _ _ x Hadd1).
    + destruct Hadd1 as [E1 H1], Hadd2 as [E2 H2]. split; [rewrite E2, E1; by destruct o|]. intros p. rewrite H2, H1.
      destruct (service_map o !! p); [done|]. cbn [fmap list_fmap]. repeat case_bool_decide; try done; set_solver.
    + rewrite Hc2. cbn [foldl]. generalize (count (status_in o op ip) c). clear -Hadd1. induction ips as [|x ips IHi]; intros k; [done|]. cbn [foldl].
      by rewrite (items_added_status _ _ _ _ x Hadd1), IHi.
Qed.

(** How many of the servers have a status. *)
Definition having (o : MonitorOptions) (op : bytes) (P : Z -> bool) (ips : list bytes) : Z :=
  blen (List.filter (fun ip => P (status_in o op ip)) ips).

Lemma counts_ok o op ips c :
  let c' := foldl (fun c ip => count (status_in o op ip) c) c ips in
  upCount c' = upCount c + having o op (fun st => st =? kStatusUp) ips /\
  downCount c' = downCount c + having o op (fun st => st =? kStatusDown) ips /\
  offlineCount c' = offlineCount c + having o op (fun st => st =? kStatusOffline) ips /\
  total c' = total c + blen ips.
Proof.
  revert c. induction ips as [|ip ips IH]; intros c; cbn [foldl]; [unfold having; cbn [List.filter]; rewrite !blen_nil; split_and!; lia|].
  destruct (IH (count (status_in o op ip) c)) as (Hu & Hd & Ho & Ht). rewrite Hu, Hd, Ho, Ht, count_total, blen_cons. unfold having. cbn [List.filter].
  unfold count. repeat case_test; cbn [upCount downCount offlineCount]; rewrite ?blen_cons; unfold kStatusUp, kStatusDown, kStatusOffline in *; lia.
Qed.

(** The list of a service has one row for each of its servers, with the status the monitor has for it, and
    the totals count them by status. Asking for a list changes the monitor, though: a server without an
    entry, such as the placeholder of a service that has no servers, is given one that says "down" and is
    checked like a real one from then on, and a service that is not known is added to the services. *)
Theorem list_node_report op o :
  (forall ips, service_father_to_ip o !! op = Some ips -> ips <> ∅ -> op <> [] ->
    exists c o', list_node op o =
        Some (heading ++ concat (server_row o op <$> in_order (elements ips)) ++ dashes ++ totals c (Z.of_nat (size ips)), o') /\
      items_added op (in_order (elements ips)) o o' /\
      upCount c = having o op (fun st => st =? kStatusUp) (in_order (elements ips)) /\
      downCount c = having o op (fun st => st =? kStatusDown) (in_order (elements ips)) /\
      offlineCount c = having o op (fun st => st =? kStatusOffline) (in_order (elements ips)) /\ total c = Z.of_nat (size ips)) /\
  (service_father_to_ip o !! op = None -> list_node op o = Some ([], set_ips (<[op := ∅]> (service_father_to_ip o)) o)).
Proof.
  split.
  - intros ips Hips Hne Hop. destruct (node_rows_ok op (in_order (elements ips)) heading no_counts o Hop) as (c & o' & Hr & Hadd & Hc).
    exists c, o'. split; [|split; [done|]].
    + unfold list_node. erewrite SM_bind_Some; [|unfold at_ips; rewrite Hips; reflexivity]. rewrite decide_False by done.
      rewrite (SM_bind_Some _ _ _ _ _ Hr). cbv beta iota. unfold mret, SM_ret. by rewrite <- app_assoc.
    + destruct (counts_ok o op (in_order (elements ips)) no_counts) as (Hu & Hd & Ho & Ht). rewrite <- Hc in *. rewrite Hu, Hd, Ho, Ht. cbn [no_counts upCount downCount offlineCount].
      split_and!; try lia. unfold blen. rewrite in_order_perm. unfold total, no_counts. cbn. unfold size, set_size. cbn. lia.
  - intros Hnone. unfold list_node. erewrite SM_bind_Some; [|unfold at_ips; rewrite Hnone; reflexivity]. by rewrite decide_True.
Qed.

Definition demo_options : MonitorOptions :=
  mkOptions (str "t") (str "h") 3 {[ str "/s/a:1" := mkItem (str "a") 1 (str "/s") kStatusUp ]} [str "/s"] {[ str "/s" := {[ str "a:1" ]} ]} [] 64 false ∅ [].

Lemma list_node_report_witness :
  exists c o', list_node (str "/s") demo_options =
    Some (heading ++ (server_row demo_options (str "/s") (str "a:1") ++ []) ++ dashes ++ totals c 1, o') /\ upCount c = 1 /\ total c = 1.
Proof.
  destruct (list_node_report (str "/s") demo_options) as [Hl _].
  destruct (Hl {[ str "a:1" ]}) as (c & o' & Hr & _ & Hu & _ & _ & Ht); [reflexivity|apply non_empty_singleton_L|discriminate|].
  exists c, o'. split; [exact Hr|]. split; [rewrite Hu; vm_compute; reflexivity|exact Ht].
Defined.

#[local] Instance one_file : Files bytes := {|
  file_access _ := mret true; file_mkdir _ _ := mret true; dir_list _ := mret None;
  file_content _ := fun w => Some (Some w, w); file_unlink _ := mret tt; file_out a _ c := fun w => Some (true, if a then w ++ c else c)
|}.

Lemma command_file_overrun_witness : ProcessFileMsg (fun s _ => [s]) kCmdFile (demo_options, str "reload:" ++ nl) = None.
Proof.
  destruct (command_file_overrun (fun s _ => [s]) kCmdFile (str "reload:") (demo_options, str "reload:" ++ nl) (str "reload:" ++ nl)) as [_ Hu]; [reflexivity|].
  exact Hu.
Defined.
End MonitorCmdThm.
