(* ===== verification/MonitorWork.v ===== *)
(** * The threads of the monitor ([monitor_work_thread.cc], [monitor_check_thread.cc])

    The main thread balances, loads its services and starts a check thread for each, up to a number; when
    these have ended it starts over. The check threads look after their services, one thread writes what
    they find out, and the callbacks of the ZooKeeper client and the handler of signals change what all of
    them share. A run of the monitor is a list of actions of these parties in any order. *)

From S2P Require Import Prelude Common Text Config Zoo Gray Monitor Agent Cmd Daemon MonitorCmd.

Module MonitorWork.
Import Gray Monitor MonitorCmd Daemon.

(** Where a check thread is: in its loop, [try_times] seconds after its last check; in the loop of [TryConnect]
    over the servers of a service, after one of them; before an attempt to connect to a server, with the copy of
    its item; after the attempts, with the old status and the one found; or at the end of [TryConnect]. *)
Inductive progress :=
| Waiting (try_times : Z)
| Between (father : bytes) (last : option bytes)
| Trying (father ip_port : bytes) (item : ServiceItem) (cur_try_times : Z)
| Tried (father ip_port : bytes) (old_status status : Z)
| Checked.

(** A check thread: the position of its service and where it is. *)
Record CheckThread := mkThread { service_pos : Z; at_ : progress }.

(** The loop of [TryConnect] walks the set of the servers itself, which others may change meanwhile: the
    element after [last]. When that one was erased, its iterator is invalid. *)
Fixpoint next_in (ip : bytes) (l : list bytes) : option bytes :=
  match l with
  | [] => None
  | x :: l' => if decide (x = ip) then head l' else next_in ip l'
  end.

Definition after (last : option bytes) (ips : gset bytes) : option (option bytes) :=
  match last with
  | None => Some (head (in_order (elements ips)))
  | Some ip => if decide (ip ∈ ips) then Some (next_in ip (in_order (elements ips))) else None
  end.

(** Where the main thread is: at the head of its loop, or waiting for the check threads, of which those that
    have ended are [None]. *)
Inductive main_state := AtLoop | Joining (threads : list (option CheckThread)).

(** The interval of a check thread in seconds, from the option [scan_interval]. *)
Definition cron_interval (scan_interval : Z) : Z := if scan_interval <=? 0 then 3 else scan_interval.

Section Work.
Context {K N W : Type} `{Zk K} `{ZkWrite K} `{Net N} `{Files W}.
Variable ParseIpPortString : bytes -> bytes * Z.
Variable StringSplit : bytes -> byte -> list bytes.
(** The options that the threads only read. *)
Variables (zk_host : bytes) (recv_timeout scan_interval : Z).

(** The handles of the balancer, the listener and the update thread, which opens its own when it first
    needs it, and 0 where a client could not be opened. *)
Record system := mkSystem {
  s_mon : monitor K N;
  s_files : W;
  need_restart : bool;
  zk_balance : Z;
  zk_listener : Z;
  zk_update : option Z;
  main_at : main_state
}.
Abbreviation SysM := (SM system).

Definition on_mon {A} (c : SM (monitor K N) A) : SysM A := fun s =>
  match c (s_mon s) with
  | Some (a, m) => Some (a, mkSystem m (s_files s) (need_restart s) (zk_balance s) (zk_listener s) (zk_update s) (main_at s))
  | None => None
  end.
Definition on_cmd {A} (c : SM (MonitorOptions * W) A) : SysM A := fun s =>
  match c (mo (s_mon s), s_files s) with
  | Some (a, (o, w)) =>
      let m := mkMonitor o (mo_zk (s_mon s)) (mo_net (s_mon s)) (mo_updates (s_mon s)) in
      Some (a, mkSystem m w (need_restart s) (zk_balance s) (zk_listener s) (zk_update s) (main_at s))
  | None => None
  end.
Definition set_main (p : main_state) : SysM unit := modify (fun s =>
  mkSystem (s_mon s) (s_files s) (need_restart s) (zk_balance s) (zk_listener s) (zk_update s) p).
Definition set_restart (b : bool) : SysM unit := modify (fun s =>
  mkSystem (s_mon s) (s_files s) b (zk_balance s) (zk_listener s) (zk_update s) (main_at s)).
Definition set_handles (zb zl : Z) (zu : option Z) : SysM unit := modify (fun s =>
  mkSystem (s_mon s) (s_files s) (need_restart s) zb zl zu (main_at s)).

(** [WorkThread::Init]: [thread_ok] is whether the update thread could be started. *)
Definition Init (thread_ok : bool) : SysM Z :=
  '(ret, zb) ← on_mon (InitEnv zk_host recv_timeout);
  set_handles zb 0 None;;
  if negb (ret =? kSuccess) then mret ret else
  ret ← on_mon (InitBalance zb);
  if negb (ret =? kSuccess) then mret ret else
  '(ret, zl) ← on_mon (InitEnv zk_host recv_timeout);
  set_handles zb zl None;;
  if negb (ret =? kSuccess) then mret ret else
  if negb thread_ok then mret kOtherError else
  set_restart false;;
  mret ret.

(** The main thread: a round up to the start of the threads, or the end of the wait for them. When the
    balancing fails it sleeps and stays at the head of the loop; [should_exit_] is never set. *)
Definition main_step : SysM unit :=
  s ← gets id;
  match main_at s with
  | AtLoop =>
      r ← on_mon (work_round ParseIpPortString (zk_balance s) (zk_listener s));
      match r with
      | inl _ => mret tt
      | inr thread_num => set_main (Joining ((fun i => Some (mkThread (Z.of_nat i) (Waiting 0))) <$> List.seq 0 (Z.to_nat thread_num)))
      end
  | Joining threads => if decide (Forall (fun t => t = None) threads) then set_main AtLoop else mret tt
  end.

(** A turn of a check thread; the thread afterwards, [None] when it ends. In its loop ([ThreadMain]) a turn ends
    with the sleep or with the start of a check ([CronHandle]); a check takes a turn for each server, for
    each attempt to connect to it and for what follows from it, and one at its end. The flags that end the
    thread are looked at in its loop only. *)
Definition thread_turn (t : CheckThread) : SysM (option CheckThread) :=
  let go p := mret (Some (mkThread (service_pos t) p)) in
  match at_ t with
  | Waiting tries =>
      s ← gets id;
      if need_rebalance (mo (s_mon s)) || need_restart s then mret None else
      let tries := tries + 1 in
      if cron_interval scan_interval <=? tries then
        fathers ← on_mon (opt my_service_fathers);
        match fathers !! Z.to_nat (service_pos t) with
        | None => undefined
        | Some father => on_mon (on_opt (at_ips father));; go (Between father None)
        end
      else go (Waiting tries)
  | Between father last =>
      ips ← on_mon (opt (fun o => service_father_to_ip o !! father));
      match ips ≫= after last with
      | None => undefined
      | Some None => go Checked
      | Some (Some ip_port) =>
          item ← on_mon (opt (fun o => service_map o !! (father ++ str "/" ++ ip_port)));
          match item with
          | None => go (Between father (Some ip_port))
          | Some item =>
              if (it_status item =? kStatusUnknow) || (it_status item =? kStatusOffline) then go (Between father (Some ip_port)) else
              go (Trying father ip_port item (if it_status item =? kStatusUp then 1 else 3))
          end
      end
  | Trying father ip_port item cur_try_times =>
      on_mon (mnet (net_connect (it_host item) (it_port item)));;
      ok ← on_mon (mnet net_available);
      retry_count ← on_mon (opt conn_retry_count);
      let status := if (ok : bool) then kStatusUp else kStatusDown in
      let cur_try_times := cur_try_times + 1 in
      if (cur_try_times <? retry_count) && (status =? kStatusDown) then go (Trying father ip_port item cur_try_times)
      else go (Tried father ip_port (it_status item) status)
  | Tried father ip_port old_status status =>
      on_mon (mnet net_close);;
      (if negb (status =? old_status) then on_mon (schedule (father ++ str "/" ++ ip_port) status) else mret tt);;
      go (Between father (Some ip_port))
  | Checked =>
      fathers ← on_mon (opt my_service_fathers);
      if kMaxThreadNum <? blen fathers then
        on_mon (SetHasThread (service_pos t) false);;
        pos ← on_mon GetAndAddWaitingIndex;
        on_mon (SetHasThread pos true);;
        mret (Some (mkThread pos (Waiting 0)))
      else go (Waiting 0)
  end.

(** The check thread number [i] takes a turn, if there is one. *)
Definition tick (i : nat) : SysM unit :=
  s ← gets id;
  match main_at s with
  | Joining threads =>
      match threads !! i with
      | Some (Some t) => t' ← thread_turn t; set_main (Joining (<[i := t']> threads))
      | _ => mret tt
      end
  | AtLoop => mret tt
  end.

(** [GetZkInstance]: a client that could not be opened is kept, with no handle. *)
Definition GetZkInstance : SysM Z :=
  s ← gets id;
  match zk_update s with
  | Some zh => mret zh
  | None =>
      '(_, zh) ← on_mon (InitEnv zk_host recv_timeout);
      set_handles (zk_balance s) (zk_listener s) (Some zh);;
      mret zh
  end.

(** The update thread takes what was scheduled first ([UpdateServiceFunc]). *)
Definition update_step : SysM unit :=
  s ← gets id;
  match mo_updates (s_mon s) with
  | [] => mret tt
  | (ip_port, status) :: rest =>
      on_mon (modify (fun m => mkMonitor (mo m) (mo_zk m) (mo_net m) rest));;
      allowed ← on_mon (update_allowed ip_port status);
      if (allowed : bool) then zh ← GetZkInstance; on_mon (write_status zh ip_port status) else mret tt
  end.

(** The handler of signals. *)
Definition SigHandler (sig : Z) : SysM unit :=
  if sig =? SIGUSR1 then on_cmd (ProcessFileMsg StringSplit kCmdFile);; mret tt else set_restart true.

(** A callback of a ZooKeeper client; on an expired session the process sends itself SIGUSR2. *)
Definition callback (context : option ZkCallBackHandle) (type state : Z) (node : bytes) : SysM unit :=
  s ← gets id;
  restart ← on_mon (Watcher ParseIpPortString (zk_listener s) context type state node);
  if (restart : bool) then SigHandler SIGUSR2 else mret tt.

Inductive action :=
| Main
| Tick (i : nat)
| Update
| Callback (context : option ZkCallBackHandle) (type state : Z) (node : bytes)
| Signal (sig : Z)
| Outside (zk : K -> K) (net : N -> N) (files : W -> W).

Definition step (a : action) : SysM unit :=
  match a with
  | Main => main_step
  | Tick i => tick i
  | Update => update_step
  | Callback context type state node => callback context type state node
  | Signal sig => SigHandler sig
  | Outside zk net files => modify (fun s =>
      mkSystem (mkMonitor (mo (s_mon s)) (zk (mo_zk (s_mon s))) (net (mo_net (s_mon s))) (mo_updates (s_mon s))) (files (s_files s))
        (need_restart s) (zk_balance s) (zk_listener s) (zk_update s) (main_at s))
  end.

Fixpoint run (l : list action) : SysM unit :=
  match l with
  | [] => mret tt
  | a :: l' => step a;; run l'
  end.
End Work.
Arguments system K N W : clear implicits.
Arguments action K N W : clear implicits.
End MonitorWork.
