(* ===== verification/MonitorWorkThm.v ===== *)
(** * Theorems about the threads of the monitor

    What follows from a signal to restart, and that the status of a server follows what its check finds. *)

From S2P Require Import Prelude Common Text Format Config Zoo Gray Monitor MonitorThm Agent Cmd Daemon MonitorCmd MonitorWork.

Module MonitorWorkThm.
Import Zoo Gray Monitor MonitorThm MonitorCmd MonitorWork Daemon.

(** ** Operations that schedule nothing *)

Section Keeps.
Context {K N : Type} `{ZKi : Zk K} `{WKi : !ZkWrite K} `{NTi : !Net N}.

Definition keeps {A} (c : SM (monitor K N) A) : Prop := forall s a s', c s = Some (a, s') -> mo_updates s' = mo_updates s.

Lemma keeps_ret {A} (a : A) : keeps (mret a).
Proof. intros s x s' E. by injection E as _ <-. Qed.

Lemma keeps_undefined {A} : keeps (undefined : SM _ A).
Proof. intros s x s' E. discriminate E. Qed.

Lemma keeps_bind {A B} (c : SM (monitor K N) A) (f : A -> SM _ B) : keeps c -> (forall a, keeps (f a)) -> keeps (c ≫= f).
Proof. intros Hc Hf s b s' (a & s1 & E1 & E2)%SM_bind_inv. rewrite (Hf _ _ _ _ E2). by eapply Hc. Qed.

Lemma keeps_opt {A} (f : MonitorOptions -> A) : keeps (opt f).
Proof. intros s x s' E. by injection E as _ <-. Qed.

Lemma keeps_upd f : keeps (upd f).
Proof. intros s x s' E. by injection E as _ <-. Qed.

Lemma keeps_on_opt {A} (f : MonitorOptions -> A * MonitorOptions) : keeps (on_opt f).
Proof. intros s x s' E. unfold on_opt in E. destruct (f (mo s)). by injection E as _ <-. Qed.

Lemma keeps_mzk {A} (c : SM K A) : keeps (mzk c).
Proof. intros s x s' E. unfold mzk in E. destruct (c (mo_zk s)) as [[? ?]|]; [|done]. by injection E as _ <-. Qed.
End Keeps.

Create HintDb keeps.
#[export] Hint Resolve keeps_ret keeps_undefined keeps_opt keeps_upd keeps_on_opt keeps_mzk : keeps.

(** Follows the structure of an operation; the parts that are operations of their own are hints. *)
Ltac keeps :=
  repeat (intros; cbv zeta; cbn beta iota; first
    [ solve [eauto with keeps]
    | apply keeps_bind
    | match goal with |- keeps (match ?x with _ => _ end) => destruct x end ]).

Section Frame.
Context {K N : Type} `{ZKi : Zk K} `{WKi : !ZkWrite K} `{NTi : !Net N}.
Variable ParseIpPortString : bytes -> bytes * Z.

Local Abbreviation keeps := (@keeps K N _).

Lemma get_node_keeps zh path buf : keeps (mzk_get_node zh path buf). Proof. apply keeps_mzk. Qed.
Lemma get_chdnodes_keeps zh path : keeps (mzk_get_chdnodes zh path). Proof. unfold mzk_get_chdnodes. keeps. Qed.
Hint Resolve get_node_keeps get_chdnodes_keeps : keeps.
Lemma service_status_keeps zh path st : keeps (mzk_get_service_status zh path st). Proof. unfold mzk_get_service_status. keeps. Qed.
Hint Resolve service_status_keeps : keeps.

Lemma md5_loop_keeps zh path names buf : keeps (md5_loop zh path names buf).
Proof. revert buf. induction names as [|n names IH]; intros buf; cbn [md5_loop]; keeps. Qed.
Hint Resolve md5_loop_keeps : keeps.
Lemma take_share_keeps nodes l : keeps (take_share nodes l).
Proof. induction l as [|i l IH]; cbn [take_share]; keeps. Qed.
Hint Resolve take_share_keeps : keeps.
Lemma DoBalance_keeps zh : keeps (DoBalance zh).
Proof. unfold DoBalance, GetMd5ToServiceFather, GetMonitors. keeps. Qed.
Hint Resolve DoBalance_keeps : keeps.

Lemma insert_ips_keeps father names : keeps (insert_ips father names).
Proof. induction names as [|n names IH]; cbn [insert_ips]; unfold insert_ip; keeps. Qed.
Hint Resolve insert_ips_keeps : keeps.
Lemma AddChildren_keeps father children : keeps (AddChildren father children). Proof. unfold AddChildren, insert_ip. keeps. Qed.
Hint Resolve AddChildren_keeps : keeps.
Lemma ip_loop_keeps zh fathers : keeps (ip_loop zh fathers).
Proof. induction fathers as [|f fathers IH]; cbn [ip_loop]; unfold insert_ip; keeps. Qed.
Hint Resolve ip_loop_keeps : keeps.
Lemma load_ips_keeps zh father ips : keeps (load_ips ParseIpPortString zh father ips).
Proof. induction ips as [|ip ips IH]; cbn [load_ips]; unfold LoadService; keeps. Qed.
Hint Resolve load_ips_keeps : keeps.
Lemma load_fathers_keeps zh fathers : keeps (load_fathers ParseIpPortString zh fathers).
Proof. induction fathers as [|f fathers IH]; cbn [load_fathers]; keeps. Qed.
Hint Resolve load_fathers_keeps : keeps.

Lemma work_round_keeps zb zl : keeps (work_round ParseIpPortString zb zl).
Proof. unfold work_round, LoadAllService, GetAllIp, prepare_threads. keeps. Qed.

Lemma Modify_keeps zh add path : keeps (ModifyServiceFatherToIp ParseIpPortString zh add path).
Proof. unfold ModifyServiceFatherToIp, insert_ip. keeps. Qed.
Hint Resolve Modify_keeps : keeps.
Lemma add_services_keeps zh path children : keeps (add_services ParseIpPortString zh path children).
Proof. induction children as [|c children IH]; cbn [add_services]; keeps. Qed.
Hint Resolve add_services_keeps : keeps.

Lemma Watcher_keeps zh context type state node : keeps (Watcher ParseIpPortString zh context type state node).
Proof.
  unfold Watcher, balance_child, balance_deleted, balance_changed, listener_child, listener_deleted, listener_changed. keeps.
Qed.

Lemma alive_loop_keeps father ips alive : keeps (alive_loop father ips alive).
Proof. revert alive. induction ips as [|ip ips IH]; intros alive; cbn [alive_loop]; keeps. Qed.
Hint Resolve alive_loop_keeps : keeps.
Lemma update_allowed_keeps path st : keeps (update_allowed path st). Proof. unfold update_allowed, IsOnlyOneUp. keeps. Qed.
Lemma write_status_keeps zh path st : keeps (write_status zh path st). Proof. unfold write_status, mzk_modify. keeps. Qed.
Lemma InitEnv_keeps host t : keeps (InitEnv host t). Proof. unfold InitEnv. keeps. Qed.
End Frame.
(** ** A restart is for ever *)

Section Restart.
Context {K N W : Type} `{ZKi : Zk K} `{WKi : !ZkWrite K} `{NTi : !Net N} `{Fi : !Files W}.
Variable ParseIpPortString : bytes -> bytes * Z.
Variable StringSplit : bytes -> byte -> list bytes.
Variables (zk_host : bytes) (recv_timeout scan_interval : Z).
Implicit Types (s : system K N W) (l : list (action K N W)).

Local Abbreviation step := (step ParseIpPortString StringSplit zk_host recv_timeout scan_interval).
Local Abbreviation run := (run ParseIpPortString StringSplit zk_host recv_timeout scan_interval).

(** The service that a thread is checking. *)
Definition checked_father (p : progress) : option bytes :=
  match p with Between f _ | Trying f _ _ _ | Tried f _ _ _ => Some f | Waiting _ | Checked => None end.

(** Check thread number [i] is at work on the servers of [father]. *)
Definition checks s (i : nat) (father : bytes) : Prop :=
  exists threads t, main_at s = Joining threads /\ threads !! i = Some (Some t) /\ checked_father (at_ t) = Some father.

(** A change of a server that is being checked. *)
Definition by_check s (u : bytes * Z) : Prop := exists i father ip, checks s i father /\ u.1 = father ++ str "/" ++ ip.

(** With the signal up, it stays up, no check begins, and what is scheduled comes from checks that are under way. *)
Definition fades s s' : Prop :=
  need_restart s = true -> need_restart s' = true /\ (forall i father, checks s' i father -> checks s i father) /\
  exists new, mo_updates (s_mon s') `suffix_of` mo_updates (s_mon s) ++ new /\ Forall (by_check s) new.

#[local] Instance fades_trans : Transitive fades.
Proof.
  intros s1 s2 s3 H1 H2 Hr. destruct (H1 Hr) as (R1 & C1 & n1 & U1 & F1). destruct (H2 R1) as (R2 & C2 & n2 & U2 & F2).
  split; [done|]. split; [auto|]. exists (n1 ++ n2). split.
  - etrans; [exact U2|]. rewrite app_assoc. by apply suffix_app.
  - apply Forall_app. split; [done|]. eapply Forall_impl; [exact F2|]. intros u (i & f & ip & ? & ?). exists i, f, ip. auto.
Qed.

Lemma fades_quiet s s' :
  (need_restart s = true -> need_restart s' = true) -> (forall i father, checks s' i father -> checks s i father) ->
  mo_updates (s_mon s') `suffix_of` mo_updates (s_mon s) -> fades s s'.
Proof. intros Hr Hc Hu Hs. split; [auto|]. split; [done|]. exists []. by rewrite app_nil_r. Qed.

Lemma checks_same s s' i father : main_at s' = main_at s -> checks s' i father -> checks s i father.
Proof. unfold checks. by intros ->. Qed.

Lemma fades_same s s' :
  (need_restart s = true -> need_restart s' = true) -> main_at s' = main_at s -> mo_updates (s_mon s') = mo_updates (s_mon s) -> fades s s'.
Proof. intros Hr Hm Hu. apply fades_quiet; [done|by intros; eapply checks_same|by rewrite Hu]. Qed.

Definition fading {A} (c : SM (system K N W) A) : Prop := forall s a s', c s = Some (a, s') -> fades s s'.

Lemma fading_bind {A B} (c : SM (system K N W) A) (f : A -> SM _ B) : fading c -> (forall a, fading (f a)) -> fading (c ≫= f).
Proof. intros Hc Hf s b s' (a & s1 & E1 & E2)%SM_bind_inv. etrans; [by eapply Hc|by eapply Hf]. Qed.

Lemma fading_ret {A} (a : A) : fading (mret a).
Proof. intros s x s' E. injection E as _ <-. by apply fades_same. Qed.

Lemma fading_get : fading (gets id).
Proof. intros s x s' E. injection E as _ <-. by apply fades_same. Qed.

Lemma fading_on_mon {A} (c : SM (monitor K N) A) : keeps c -> fading (on_mon c).
Proof.
  intros Hc s x s' E. unfold on_mon in E. destruct (c (s_mon s)) as [[a m]|] eqn:Ec; [|done]. injection E as _ <-.
  apply fades_same; [done..|]. by eapply Hc.
Qed.

Lemma fading_on_cmd {A} (c : SM (MonitorOptions * W) A) : fading (on_cmd c).
Proof.
  intros s x s' E. unfold on_cmd in E. destruct (c _) as [[a [o w]]|]; [|done]. injection E as _ <-. by apply fades_same.
Qed.

Lemma fading_modify f : (forall s, fades s (f s)) -> fading (modify f).
Proof. intros Hf s x s' E. by injection E as _ <-. Qed.

Lemma fading_set_main p :
  (forall threads i t, p = Joining threads -> threads !! i = Some (Some t) -> checked_father (at_ t) = None) -> fading (set_main p).
Proof.
  intros Hp. apply fading_modify. intros s. apply fades_quiet; [done| |done]. intros i f (threads & t & Hm & Ht & Hf).
  rewrite (Hp threads i t Hm Ht) in Hf. done.
Qed.
Lemma fading_set_handles zb zl zu : fading (set_handles zb zl zu). Proof. apply fading_modify. intros s. by apply fades_same. Qed.

Lemma fading_SigHandler sig : fading (SigHandler StringSplit sig).
Proof.
  unfold SigHandler. destruct (_ =? _); [apply fading_bind; [apply fading_on_cmd|intros; apply fading_ret]|].
  apply fading_modify. intros s. by apply fades_same.
Qed.

Lemma GetZkInstance_fading : fading (GetZkInstance zk_host recv_timeout).
Proof.
  apply fading_bind; [apply fading_get|]. intros s. destruct (zk_update s); [apply fading_ret|].
  apply fading_bind; [apply fading_on_mon, InitEnv_keeps|]. intros [ret zh].
  apply fading_bind; [apply fading_set_handles|intros; apply fading_ret].
Qed.

(** A check thread that is in its loop ends with its next turn. *)
Lemma tick_ends s threads i p tries :
  need_restart s = true -> main_at s = Joining threads -> threads !! i = Some (Some (mkThread p (Waiting tries))) ->
  tick (K := K) (N := N) (W := W) scan_interval i s = set_main (Joining (<[i := None]> threads)) s.
Proof.
  intros Hr Hm Hi. unfold tick. erewrite SM_bind_Some by reflexivity. unfold id. rewrite Hm, Hi.
  erewrite SM_bind_Some; [reflexivity|]. unfold thread_turn. cbn [at_]. erewrite SM_bind_Some by reflexivity. unfold id. by rewrite Hr, orb_true_r.
Qed.

(** What an operation of a check leaves alone. *)
Definition quiet {A} (c : SM (system K N W) A) : Prop := forall s a s', c s = Some (a, s') ->
  need_restart s' = need_restart s /\ main_at s' = main_at s /\ mo_updates (s_mon s') = mo_updates (s_mon s).

Lemma quiet_on_mon {A} (c : SM (monitor K N) A) : keeps c -> quiet (on_mon c).
Proof.
  intros Hc s x s' E. unfold on_mon in E. destruct (c (s_mon s)) as [[a m]|] eqn:Ec; [|done]. injection E as _ <-.
  split_and!; [done..|]. by eapply Hc.
Qed.

Lemma quiet_bind {A B} (c : SM (system K N W) A) (f : A -> SM _ B) : quiet c -> (forall a, quiet (f a)) -> quiet (c ≫= f).
Proof. intros Hc Hf s b s' (a & s1 & (? & ? & ?)%Hc & (? & ? & ?)%Hf)%SM_bind_inv. split_and!; congruence. Qed.

Lemma quiet_ret {A} (a : A) : quiet (mret a).
Proof. intros s x s' E. by injection E as _ <-. Qed.

Lemma keeps_mnet {A} (c : SM N A) : keeps (mnet c : SM (monitor K N) A).
Proof. intros s x s' E. unfold mnet in E. destruct (c (mo_net s)) as [[? ?]|]; [|done]. by injection E as _ <-. Qed.

Lemma keeps_SetHasThread i v : keeps (SetHasThread i v : SM (monitor K N) unit).
Proof. intros s x s' E. unfold SetHasThread in E. destruct (_ && _); [|done]. by injection E as _ <-. Qed.

Lemma keeps_GetAndAdd : keeps (GetAndAddWaitingIndex : SM (monitor K N) Z).
Proof. intros s x s' E. unfold GetAndAddWaitingIndex in E. destruct (_ =? 0); [done|]. destruct (skip_busy _ _ _ _); [|done]. by injection E as _ <-. Qed.

(** A turn within a check goes on with the same service, and schedules nothing but a change of one of its servers. *)
Lemma turn_fades t s r s1 :
  (forall n, at_ t <> Waiting n) -> thread_turn (K := K) (N := N) (W := W) scan_interval t s = Some (r, s1) ->
  need_restart s1 = need_restart s /\ main_at s1 = main_at s /\
  (forall t' f, r = Some t' -> checked_father (at_ t') = Some f -> checked_father (at_ t) = Some f) /\
  exists new, mo_updates (s_mon s1) = mo_updates (s_mon s) ++ new /\
    Forall (fun u => exists f ip, checked_father (at_ t) = Some f /\ u.1 = f ++ str "/" ++ ip) new.
Proof.
  assert (Hq : forall c : SM (system K N W) (option CheckThread), quiet c -> (forall s r s1 t', c s = Some (r, s1) -> r = Some t' ->
      forall f, checked_father (at_ t') = Some f -> checked_father (at_ t) = Some f) -> c s = Some (r, s1) ->
    need_restart s1 = need_restart s /\ main_at s1 = main_at s /\
    (forall t' f, r = Some t' -> checked_father (at_ t') = Some f -> checked_father (at_ t) = Some f) /\
    exists new, mo_updates (s_mon s1) = mo_updates (s_mon s) ++ new /\
      Forall (fun u => exists f ip, checked_father (at_ t) = Some f /\ u.1 = f ++ str "/" ++ ip) new).
  { intros c Hc Hf E. destruct (Hc _ _ _ E) as (? & ? & Hu). split_and!; [done..| |].
    - intros t' f Hr Hf'. by eapply Hf.
    - exists []. by rewrite app_nil_r. }
  intros Hw. unfold thread_turn. destruct t as [p [n|f last|f ip item cur|f ip old st|]]; cbn [at_ service_pos checked_father] in *; [by destruct (Hw n)|..].
  - apply Hq.
    + apply quiet_bind; [apply quiet_on_mon, keeps_opt|]. intros ips. destruct (_ ≫= _) as [[ip|]|]; [|apply quiet_ret|by intros ? ? ? [=]].
      apply quiet_bind; [apply quiet_on_mon, keeps_opt|]. intros [item|]; [destruct (_ || _)|]; apply quiet_ret.
    + intros s0 r0 s2 t' (ips & s3 & _ & E)%SM_bind_inv -> f'. destruct (ips ≫= _) as [[ip|]|]; [|by injection E as <- <-|done].
      apply SM_bind_inv in E as ([item|] & s4 & _ & E); [destruct (_ || _)|]; by injection E as <- <-.
  - apply Hq.
    + apply quiet_bind; [apply quiet_on_mon, keeps_mnet|]. intros _. apply quiet_bind; [apply quiet_on_mon, keeps_mnet|]. intros ok.
      apply quiet_bind; [apply quiet_on_mon, keeps_opt|]. intros rc. cbv zeta. destruct (_ && _); apply quiet_ret.
    + intros s0 r0 s2 t' ([] & s3 & _ & (ok & s4 & _ & (rc & s5 & _ & E)%SM_bind_inv)%SM_bind_inv)%SM_bind_inv -> f'. cbv zeta in E.
      destruct (_ && _); by injection E as <- <-.
  - intros ([] & s2 & E1 & ([] & s3 & E2 & E3)%SM_bind_inv)%SM_bind_inv. injection E3 as <- <-.
    destruct (quiet_on_mon _ (keeps_mnet _) _ _ _ E1) as (R & M & U). rewrite <- R, <- M, <- U. destruct (negb _).
    + injection E2 as <-. split_and!; [done..|by intros t' f' [= <-]|]. exists [(f ++ str "/" ++ ip, st)]. split; [done|]. constructor; [|done]. by exists f, ip.
    + injection E2 as <-. split_and!; [done..|by intros t' f' [= <-]|]. exists []. by rewrite app_nil_r.
  - apply Hq.
    + apply quiet_bind; [apply quiet_on_mon, keeps_opt|]. intros fathers. destruct (_ <? _); [|apply quiet_ret].
      apply quiet_bind; [apply quiet_on_mon, keeps_SetHasThread|]. intros _. apply quiet_bind; [apply quiet_on_mon, keeps_GetAndAdd|]. intros pos.
      apply quiet_bind; [apply quiet_on_mon, keeps_SetHasThread|]. intros _. apply quiet_ret.
    + intros s0 r0 s2 t' (fathers & s3 & _ & E)%SM_bind_inv -> f'. destruct (_ <? _); [|by injection E as <- <-].
      apply SM_bind_inv in E as ([] & s4 & _ & (pos & s5 & _ & ([] & s6 & _ & E)%SM_bind_inv)%SM_bind_inv). by injection E as <- <-.
Qed.

Lemma tick_fades i s s' : tick (K := K) (N := N) (W := W) scan_interval i s = Some (tt, s') -> fades s s'.
Proof.
  intros E Hr. pose proof E as E0. unfold tick in E. erewrite SM_bind_Some in E by reflexivity. unfold id in E.
  destruct (main_at s) as [|threads] eqn:Em; [injection E as <-; by apply fades_same|].
  destruct (threads !! i) as [[t|]|] eqn:Ei; [|injection E as <-; by apply fades_same..].
  destruct t as [p [tries|f last|f ip item cur|f ip old st|]] eqn:Et.
  { rewrite (tick_ends s threads i p tries Hr Em Ei) in E0. injection E0 as <-. apply fades_quiet; [done| |done|done].
    intros j f (ths & t' & Hm & Ht & Hf). injection Hm as <-. destruct (decide (j = i)) as [->|Hj].
    - rewrite list_lookup_insert_eq in Ht by (by eapply lookup_lt_Some). done.
    - rewrite list_lookup_insert_ne in Ht by done. by exists threads, t'. }
  all: apply SM_bind_inv in E as (r & s1 & E1 & E2); apply turn_fades in E1 as (R & M & Hf & new & U & Hnew); [|by intros n];
    injection E2 as <-; split; [by cbn; rewrite R|]; split; [|exists new; split; [cbn; by rewrite U|]];
    [|eapply Forall_impl; [exact Hnew|]; intros u (f' & ip' & ? & ?); exists i, f', ip'; (split; [|done]); exists threads; eexists; split; [done|]; split; [exact Ei|done]].
  all: intros j f' (ths & t' & Hm & Ht & Hf'); injection Hm as <-; destruct (decide (j = i)) as [->|Hj];
    [|rewrite list_lookup_insert_ne in Ht by done; by exists threads, t'].
  all: rewrite list_lookup_insert_eq in Ht by (by eapply lookup_lt_Some); injection Ht as ->; exists threads; eexists; (split; [done|]); (split; [exact Ei|]);
    by eapply Hf.
Qed.

Lemma step_fades a s s' : step a s = Some (tt, s') -> fades s s'.
Proof.
  intros E. destruct a as [|i| |context type state node|sig|zk net fs]; cbn [MonitorWork.step] in E.
  - revert s s' E. cut (fading (main_step (N := N) (W := W) ParseIpPortString)); [intros Hf s s' E; by eapply Hf|].
    apply fading_bind; [apply fading_get|]. intros s. destruct (main_at s).
    + apply fading_bind; [apply fading_on_mon, work_round_keeps|]. intros [?|num]; [apply fading_ret|apply fading_set_main].
      intros threads i t [= <-] Hi. apply list_lookup_fmap_Some in Hi as (j & [= ->] & _). done.
    + destruct (decide _); [by apply fading_set_main|apply fading_ret].
  - by eapply tick_fades.
  - unfold update_step in E. erewrite SM_bind_Some in E by reflexivity. unfold id in E.
    destruct (mo_updates (s_mon s)) as [|[ip st] rest] eqn:Eu; [injection E as <-; by apply fades_same|].
    apply SM_bind_inv in E as ([] & s1 & E1 & E2). transitivity s1.
    + injection E1 as <-. apply fades_quiet; [done|by intros; eapply checks_same|]. cbn. rewrite Eu. by apply suffix_cons_r.
    + clear E1. revert s1 E2.
      match goal with |- forall s1, ?c s1 = _ -> _ => cut (fading c); [intros Hf s1 E2; by eapply Hf|] end.
      apply fading_bind; [apply fading_on_mon, update_allowed_keeps|].
      intros [|]; [|apply fading_ret]. apply fading_bind; [apply GetZkInstance_fading|]. intros zh. apply fading_on_mon, write_status_keeps.
  - revert s s' E. cut (fading (callback (K := K) (N := N) (W := W) ParseIpPortString StringSplit context type state node)); [intros Hf s s' E; by eapply Hf|].
    apply fading_bind; [apply fading_get|]. intros s. apply fading_bind; [apply fading_on_mon, Watcher_keeps|].
    intros [|]; [apply fading_SigHandler|apply fading_ret].
  - by eapply fading_SigHandler.
  - injection E as <-. by apply fades_same.
Qed.

Lemma run_fades l s s' : run l s = Some (tt, s') -> fades s s'.
Proof.
  revert s. induction l as [|a l IH]; intros s E; [injection E as <-; by apply fades_same|].
  cbn [MonitorWork.run] in E. apply SM_bind_inv in E as ([] & s1 & E1 & E2).
  etrans; [by eapply step_fades|by apply IH].
Qed.

(** C35. The signal that is meant to restart the main loop ends the checking for good. Once it was received,
    by an expired session for one, it stays up whatever the threads, ZooKeeper and other signals do. No
    check of a service begins any more, in this round of the main thread or in a later one: a thread that is
    in its loop ends with its next turn. Only the checks that were under way when the signal came may go on,
    and all changes of a status that are scheduled from then on are changes of servers of these services;
    if no check was under way, nothing is scheduled ever again. *)
Theorem restart_is_final l s s' :
  need_restart s = true -> run l s = Some (tt, s') ->
  need_restart s' = true /\
  (forall i father, checks s' i father -> checks s i father) /\
  (exists new, mo_updates (s_mon s') `suffix_of` mo_updates (s_mon s) ++ new /\ Forall (by_check s) new) /\
  forall threads i p tries, main_at s' = Joining threads -> threads !! i = Some (Some (mkThread p (Waiting tries))) ->
    exists s1, step (Tick i) s' = Some (tt, s1) /\ main_at s1 = Joining (<[i := None]> threads) /\ s_mon s1 = s_mon s'.
Proof.
  intros Hr E. destruct (run_fades l s s' E Hr) as (Hr' & Hc & Hu). split; [done|]. split; [done|]. split; [done|].
  intros threads i p tries Hm Hi. eexists. split; [by eapply (tick_ends s' threads i p tries)|done].
Qed.

(** A session that expires is such a signal. *)
Lemma expired_restarts cb node s :
  exists s', step (Callback (Some cb) SESSION_EVENT_DEF ZOO_EXPIRED_SESSION_STATE node) s = Some (tt, s') /\ need_restart s' = true /\
    s_mon s' = s_mon s.
Proof. by eexists. Qed.
End Restart.
(** ** What a check finds *)

(** A network where a server accepts connections or not: [J] is kept by all calls. *)
Record reaches {N : Type} `{Net N} (J : N -> Prop) (reach : bytes -> Z -> bool) : Prop := {
  re_connect host port n : J n ->
    exists n1 n2, net_connect host port n = Some (tt, n1) /\ net_available n1 = Some (reach host port, n2) /\ J n2;
  re_close n : J n -> exists n', net_close n = Some (tt, n') /\ J n'
}.

(** The change that the check of a server schedules, if any. *)
Definition change_of (reach : bytes -> Z -> bool) (o : MonitorOptions) (father ip : bytes) : option (bytes * Z) :=
  let path := father ++ str "/" ++ ip in
  match service_map o !! path with
  | None => None
  | Some item =>
      if (it_status item =? kStatusUnknow) || (it_status item =? kStatusOffline) then None else
      let st := if reach (it_host item) (it_port item) then kStatusUp else kStatusDown in
      if st =? it_status item then None else Some (path, st)
  end.

Lemma change_status reach o father ip u : change_of reach o father ip = Some u -> u.2 = kStatusUp \/ u.2 = kStatusDown.
Proof.
  unfold change_of. destruct (service_map o !! _); [|done]. destruct (_ || _); [done|]. cbv zeta.
  destruct (_ =? it_status _); [done|]. intros [= <-]. destruct (reach _ _); auto.
Qed.

Section Reach.
Context {K N : Type} `{ZKi : Zk K} `{WKi : !ZkWrite K} `{NTi : !Net N}.
Context {J : N -> Prop} {reach : bytes -> Z -> bool} (Hre : reaches J reach).
Implicit Types (s : monitor K N).

Lemma connect_loop_exact fuel item cur retries s :
  retries - cur < Z.of_nat fuel -> (0 < fuel)%nat -> J (mo_net s) ->
  exists n, connect_loop fuel item cur retries s =
    Some (if reach (it_host item) (it_port item) then kStatusUp else kStatusDown, with_net s n (mo_updates s)) /\ J n.
Proof using Hre.
  revert cur s. induction fuel as [|fuel IH]; intros cur s Hf Hp Hj; [lia|].
  destruct (re_connect _ _ Hre (it_host item) (it_port item) _ Hj) as (n1 & n2 & H1 & H2 & Hj2).
  cbn [connect_loop]. erewrite SM_bind_Some by (unfold mnet; rewrite H1; reflexivity).
  erewrite SM_bind_Some by (unfold mnet; cbn [mo_net]; rewrite H2; reflexivity). cbv zeta.
  destruct ((cur + 1 <? retries) && _) eqn:E; [|by exists n2].
  apply andb_true_iff in E as [E _]. apply Z.ltb_lt in E. destruct (IH (cur + 1) (with_net s n2 (mo_updates s))) as (n & Hr & Hj'); [lia..|done|].
  by exists n.
Qed.

Lemma try_ips_exact father l s :
  J (mo_net s) ->
  exists n, try_ips father l s = Some (tt, with_net s n (mo_updates s ++ omap (change_of reach (mo s) father) l)) /\ J n.
Proof using Hre.
  revert s. induction l as [|ip l IH]; intros s Hj; [exists (mo_net s); rewrite app_nil_r; by destruct s|].
  cbn [try_ips omap list_omap]. unfold change_of at 1. erewrite SM_bind_Some by reflexivity. cbv zeta.
  destruct (service_map (mo s) !! (father ++ str "/" ++ ip)) as [item|]; [|erewrite SM_bind_Some by reflexivity; by apply IH].
  destruct (_ || _); [erewrite SM_bind_Some by reflexivity; by apply IH|].
  edestruct (connect_loop_exact (S (Z.to_nat (conn_retry_count (mo s)))) item (if it_status item =? kStatusUp then 1 else 3)
    (conn_retry_count (mo s)) s) as (n1 & Hc & Hj1); [destruct (it_status item =? kStatusUp); lia|lia|done|].
  destruct (re_close _ _ Hre n1 Hj1) as (n2 & Hn2 & Hj2). set (st := if reach _ _ then _ else _) in *.
  destruct (Z.eqb_spec st (it_status item)) as [Est|Est].
  - erewrite SM_bind_Some by (erewrite SM_bind_Some by reflexivity; erewrite SM_bind_Some by exact Hc;
      erewrite SM_bind_Some by (unfold mnet; cbn [mo_net with_net]; rewrite Hn2; reflexivity); rewrite (proj2 (Z.eqb_eq _ _) Est); reflexivity).
    apply (IH (with_net s n2 (mo_updates s)) Hj2).
  - erewrite SM_bind_Some by (erewrite SM_bind_Some by reflexivity; erewrite SM_bind_Some by exact Hc;
      erewrite SM_bind_Some by (unfold mnet; cbn [mo_net with_net]; rewrite Hn2; reflexivity); rewrite (proj2 (Z.eqb_neq _ _) Est); reflexivity).
    destruct (IH (with_net s n2 (mo_updates s ++ [(father ++ str "/" ++ ip, st)])) Hj2) as (n & Hr & Hj'). exists n. split; [|done].
    etrans; [exact Hr|]. cbn. by rewrite <- app_assoc.
Qed.

Lemma TryConnect_exact father s :
  J (mo_net s) ->
  exists o n, TryConnect father s = Some (tt, mkMonitor o (mo_zk s) n
      (mo_updates s ++ omap (change_of reach (mo s) father) (in_order (elements (ips_of (mo s) father))))) /\
    J n /\ same_view (mo s) o /\ service_map o = service_map (mo s).
Proof using Hre.
  intros Hj. unfold TryConnect. destruct (at_ips_run father s) as (o & Hr & Hv). rewrite (SM_bind_Some _ _ _ _ _ Hr).
  assert (Hm : service_map o = service_map (mo s)).
  { clear - Hr. apply (f_equal (fmap (fun r => service_map (mo r.2)))) in Hr. unfold on_opt, at_ips in Hr.
    destruct (service_father_to_ip (mo s) !! father); by injection Hr as ->. }
  destruct (try_ips_exact father (in_order (elements (ips_of (mo s) father))) (with_mo s o)) as (n & Ht & Hj'); [done|].
  exists o, n. split; [|done]. rewrite Ht. unfold with_net. cbn [with_mo mo mo_zk mo_updates]. do 4 f_equal.
  apply list_omap_ext. apply Forall_Forall2_diag, Forall_true. intros ip. unfold change_of. by rewrite Hm.
Qed.
End Reach.
(** ** A check that nothing interrupts

    The turns of a thread that nothing else comes between make up [CronHandle]. *)

Section Alone.
Context {K N W : Type} `{ZKi : Zk K} `{WKi : !ZkWrite K} `{NTi : !Net N} `{Fi : !Files W}.
Variable ParseIpPortString : bytes -> bytes * Z.
Variable StringSplit : bytes -> byte -> list bytes.
Variables (zk_host : bytes) (recv_timeout scan_interval : Z).
Implicit Types (s : system K N W) (m : monitor K N) (t : CheckThread).

Local Abbreviation run := (run ParseIpPortString StringSplit zk_host recv_timeout scan_interval).

(** The state with another monitor, and with the main thread elsewhere. *)
Definition with_mon s m : system K N W :=
  mkSystem m (s_files s) (need_restart s) (zk_balance s) (zk_listener s) (zk_update s) (main_at s).
Definition with_main s p : system K N W :=
  mkSystem (s_mon s) (s_files s) (need_restart s) (zk_balance s) (zk_listener s) (zk_update s) p.

Lemma run_app (l1 l2 : list (action K N W)) s : run (l1 ++ l2) s = (run l1;; run l2) s.
Proof.
  revert s. induction l1 as [|a l1 IH]; intros s; [done|]. cbn [app MonitorWork.run]. unfold mbind, SM_bind.
  destruct (MonitorWork.step _ _ _ _ _ a s) as [[[] s1]|]; [|done]. rewrite IH. reflexivity.
Qed.

Lemma on_mon_Some {A} (c : SM (monitor K N) A) s a m : c (s_mon s) = Some (a, m) -> on_mon c s = Some (a, with_mon s m).
Proof. intros E. unfold on_mon. by rewrite E. Qed.

(** By some turns of its own, the thread [t] comes from [m] to be [t'] at [m']. *)
Definition goes t m t' m' : Prop := exists k, forall s i threads,
  s_mon s = m -> need_restart s = false -> main_at s = Joining threads -> threads !! i = Some (Some t) ->
  run (replicate k (Tick i)) s = Some (tt, with_main (with_mon s m') (Joining (<[i := Some t']> threads))).

Lemma goes_trans t1 m1 t2 m2 t3 m3 : goes t1 m1 t2 m2 -> goes t2 m2 t3 m3 -> goes t1 m1 t3 m3.
Proof.
  intros [k1 H1] [k2 H2]. exists (k1 + k2)%nat. intros s i threads Hs Hr Hm Hi.
  rewrite replicate_add, run_app, (SM_bind_Some _ _ _ _ _ (H1 s i threads Hs Hr Hm Hi)).
  rewrite (H2 (with_main (with_mon s m2) (Joining (<[i:=Some t2]> threads))) i (<[i := Some t2]> threads)); [|done..|].
  - by rewrite list_insert_insert_eq.
  - apply list_lookup_insert_eq. by eapply lookup_lt_Some.
Qed.

Lemma goes_turn t m t' m' :
  (forall s, s_mon s = m -> need_restart s = false -> thread_turn scan_interval t s = Some (Some t', with_mon s m')) -> goes t m t' m'.
Proof.
  intros Ht. exists 1%nat. intros s i threads Hs Hr Hm Hi. cbn [replicate MonitorWork.run MonitorWork.step].
  erewrite SM_bind_Some; [reflexivity|]. unfold tick. erewrite SM_bind_Some by reflexivity. unfold id. rewrite Hm, Hi.
  by rewrite (SM_bind_Some _ _ _ _ _ (Ht s Hs Hr)).
Qed.

(** The attempts to connect. *)
Lemma goes_connect fuel p father ip item cur m st m1 :
  connect_loop fuel item cur (conn_retry_count (mo m)) m = Some (st, m1) ->
  goes (mkThread p (Trying father ip item cur)) m (mkThread p (Tried father ip (it_status item) st)) m1 /\ mo m1 = mo m.
Proof.
  revert cur m. induction fuel as [|fuel IH]; intros cur m E; [done|]. cbn [connect_loop] in E.
  apply SM_bind_inv in E as ([] & ma & Ea & E). apply SM_bind_inv in E as (ok & mb & Eb & E). cbv zeta in E.
  assert (Hmo : mo mb = mo m).
  { unfold mnet in Ea, Eb. destruct (net_connect _ _ _) as [[[] n]|]; [|done]. injection Ea as <-. cbn [mo_net] in Eb.
    destruct (net_available _) as [[ok' n']|]; [|done]. by injection Eb as _ <-. }
  assert (Hturn : forall t' : progress, (if (cur + 1 <? conn_retry_count (mo m)) && ((if ok : bool then kStatusUp else kStatusDown) =? kStatusDown)
      then t' = Trying father ip item (cur + 1) else t' = Tried father ip (it_status item) (if ok then kStatusUp else kStatusDown)) ->
    goes (mkThread p (Trying father ip item cur)) m (mkThread p t') mb).
  { intros t' Ht'. apply goes_turn. intros s Hs _. unfold thread_turn. cbn [at_ service_pos].
    rewrite <- Hs in Ea. rewrite (SM_bind_Some _ _ _ _ _ (on_mon_Some _ _ _ _ Ea)).
    rewrite (SM_bind_Some _ _ _ _ _ (on_mon_Some _ (with_mon s ma) _ _ Eb)).
    erewrite SM_bind_Some by reflexivity. cbn [with_mon s_mon]. rewrite Hmo. cbv zeta. by destruct (_ && _); rewrite Ht'. }
  destruct (_ && _) eqn:Ec.
  - rewrite <- Hmo in E. destruct (IH _ _ E) as [Hg Hm]. split; [|congruence]. eapply goes_trans; [|exact Hg]. by apply Hturn.
  - injection E as <- <-. split; [|done]. by apply Hturn.
Qed.

Lemma next_in_app pre x l : NoDup (pre ++ x :: l) -> next_in x (pre ++ x :: l) = head l.
Proof.
  induction pre as [|y pre IH]; cbn [app next_in]; intros Hnd; [by rewrite decide_True|].
  apply NoDup_cons in Hnd as [Hy Hnd]. rewrite decide_False; [by apply IH|]. intros ->. apply Hy. set_solver.
Qed.

(** The element after those that were walked. *)
Lemma after_walked ips pre l : in_order (elements ips) = pre ++ l -> after (last pre) ips = Some (head l).
Proof.
  intros E. unfold after. destruct pre as [|x pre _] using rev_ind; [by rewrite E|]. rewrite last_snoc.
  assert (Hnd : NoDup ((pre ++ [x]) ++ l)) by (rewrite <- E, in_order_perm; apply NoDup_elements).
  rewrite decide_True; [|rewrite <- elem_of_elements, <- in_order_perm, E; set_solver]. rewrite E.
  rewrite <- app_assoc in Hnd |- *. cbn [app] in Hnd |- *. by rewrite next_in_app.
Qed.

(** The walk over the servers. *)
Lemma goes_try_ips p father ips pre l m m1 :
  service_father_to_ip (mo m) !! father = Some ips -> in_order (elements ips) = pre ++ l -> try_ips father l m = Some (tt, m1) ->
  goes (mkThread p (Between father (last pre))) m (mkThread p Checked) m1 /\ mo m1 = mo m.
Proof.
  revert pre m. induction l as [|ip l IH]; intros pre m Hips Hl E.
  { injection E as <-. split; [|done]. apply goes_turn. intros s <- _. unfold thread_turn. cbn [at_ service_pos].
    erewrite SM_bind_Some by reflexivity. rewrite Hips. cbn [mbind option_bind]. rewrite (after_walked ips pre []) by done. by destruct s. }
  pose proof (after_walked _ _ _ Hl) as Haf. cbn [head] in Haf. cbn [try_ips] in E. apply SM_bind_inv in E as (item & m0 & E0 & E).
  injection E0 as <- <-. apply SM_bind_inv in E as ([] & m2 & E1 & E2). change (father ++ x2f :: ip) with (father ++ str "/" ++ ip) in E1.
  assert (Hfirst : forall t' : progress, match service_map (mo m) !! (father ++ str "/" ++ ip) with
      | Some item => if (it_status item =? kStatusUnknow) || (it_status item =? kStatusOffline) then t' = Between father (Some ip)
          else t' = Trying father ip item (if it_status item =? kStatusUp then 1 else 3)
      | None => t' = Between father (Some ip) end -> goes (mkThread p (Between father (last pre))) m (mkThread p t') m).
  { intros t' Ht'. apply goes_turn. intros s <- _. unfold thread_turn. cbn [at_ service_pos].
    erewrite SM_bind_Some by reflexivity. rewrite Hips. cbn [mbind option_bind]. rewrite Haf.
    erewrite SM_bind_Some by reflexivity. cbn [with_mon s_mon]. destruct (service_map _ !! _) as [item|]; [destruct (_ || _)|]; by rewrite Ht'; destruct s. }
  assert (Hrest : forall m', mo m' = mo m -> try_ips father l m' = Some (tt, m1) ->
    goes (mkThread p (Between father (Some ip))) m' (mkThread p Checked) m1 /\ mo m1 = mo m).
  { intros m' Hm' Er. rewrite <- Hm' in Hips |- *. rewrite <- (last_snoc ip pre). apply IH; [done|by rewrite <- app_assoc|done]. }
  destruct (service_map (mo m) !! (father ++ str "/" ++ ip)) as [item|]; [destruct (_ || _) eqn:Eo|].
  1,3: injection E1 as <-; destruct (Hrest m eq_refl E2) as [Hg Hm]; (split; [|done]); eapply goes_trans; [by apply Hfirst|exact Hg].
  apply SM_bind_inv in E1 as (rc & m3 & E3 & E1). injection E3 as <- <-. apply SM_bind_inv in E1 as (st & m4 & E4 & E1).
  apply SM_bind_inv in E1 as ([] & m5 & E5 & E1). destruct (goes_connect _ p father ip _ _ _ _ _ E4) as [Hc Hm4].
  assert (Hm5 : mo m5 = mo m4) by (unfold mnet in E5; destruct (net_close _) as [[[] n]|]; [by injection E5 as <-|done]).
  assert (Hm2 : mo m2 = mo m5) by (destruct (negb _); by injection E1 as <-).
  destruct (Hrest m2) as [Hg Hm]; [congruence|done|]. split; [|done].
  eapply goes_trans; [by apply Hfirst|]. eapply goes_trans; [exact Hc|]. eapply goes_trans; [|exact Hg].
  apply goes_turn. intros s <- _. unfold thread_turn. cbn [at_ service_pos]. rewrite (SM_bind_Some _ _ _ _ _ (on_mon_Some _ _ _ _ E5)).
  destruct (negb _); [rewrite (SM_bind_Some _ _ _ _ _ (on_mon_Some _ (with_mon s m5) _ _ E1)); reflexivity|].
  erewrite SM_bind_Some by reflexivity. injection E1 as <-. reflexivity.
Qed.

(** A whole check: the turns of a thread whose interval is over do what [CronHandle] does. *)
Lemma goes_cron p tries m p' m1 :
  need_rebalance (mo m) = false -> cron_interval scan_interval <= tries + 1 -> CronHandle p m = Some (p', m1) ->
  goes (mkThread p (Waiting tries)) m (mkThread p' (Waiting 0)) m1.
Proof.
  intros Hb Hk E. unfold CronHandle in E. apply SM_bind_inv in E as (fathers & m0 & E0 & E). injection E0 as <- <-.
  destruct (my_service_fathers (mo m) !! Z.to_nat p) as [father|] eqn:Ef; [|done]. apply SM_bind_inv in E as ([] & m2 & E2 & E3).
  unfold TryConnect in E2. apply SM_bind_inv in E2 as (ips & m3 & E2 & E4).
  assert (Hat : service_father_to_ip (mo m3) !! father = Some ips /\ my_service_fathers (mo m3) = my_service_fathers (mo m)).
  { unfold on_opt, at_ips in E2. destruct (service_father_to_ip (mo m) !! father) eqn:Es; injection E2 as <- <-; (split; [|done]); [done|].
    cbn. by rewrite lookup_insert_eq. }
  destruct Hat as [Hat Hmine]. destruct (goes_try_ips p father ips [] _ m3 m2 Hat eq_refl E4) as [Hg Hm]. cbn [last] in Hg.
  eapply goes_trans; [|eapply goes_trans; [exact Hg|]].
  - apply goes_turn. intros s <- Hr. unfold thread_turn. cbn [at_ service_pos]. erewrite SM_bind_Some by reflexivity. unfold id. rewrite Hb, Hr. cbn [orb]. cbv zeta.
    rewrite (proj2 (Z.leb_le _ _)) by done. erewrite SM_bind_Some by reflexivity. rewrite Ef.
    by rewrite (SM_bind_Some _ _ _ _ _ (on_mon_Some _ (with_mon s (s_mon s)) _ _ E2)).
  - apply goes_turn. intros s <- _. unfold thread_turn. cbn [at_ service_pos]. erewrite SM_bind_Some by reflexivity. rewrite Hm, Hmine.
    destruct (_ <? _); [|by injection E3 as <- <-; destruct s].
    apply SM_bind_inv in E3 as ([] & m4 & E5 & (pos & m5 & E6 & ([] & m6 & E7 & E8)%SM_bind_inv)%SM_bind_inv). injection E8 as <- <-.
    rewrite (SM_bind_Some _ _ _ _ _ (on_mon_Some _ (with_mon s (s_mon s)) _ _ E5)).
    rewrite (SM_bind_Some _ _ _ _ _ (on_mon_Some _ (with_mon s m4) _ _ E6)).
    by rewrite (SM_bind_Some _ _ _ _ _ (on_mon_Some _ (with_mon s m5) _ _ E7)).
Qed.
End Alone.
(** ** From the check to ZooKeeper *)

(** A session that takes the statuses that are written to the nodes of the tree. *)
Definition taking {K : Type} `{Zk K, !ZkWrite K} (I : gmap bytes bytes -> K -> Prop) (zh : Z) : Prop :=
  forall m k p st, st = kStatusUp \/ st = kStatusDown -> I m k -> is_Some (m !! p) ->
    exists k', zoo_set zh p (print_dec st) k = Some (ZOK, k') /\ I (<[p := print_dec st]> m) k'.

Section Follow.
Context {K N W : Type} `{ZKi : Zk K} `{WKi : !ZkWrite K} `{NTi : !Net N} `{Fi : !Files W}.
Variable ParseIpPortString : bytes -> bytes * Z.
Variable StringSplit : bytes -> byte -> list bytes.
Variables (zk_host : bytes) (recv_timeout scan_interval : Z).
Context {J : N -> Prop} {reach : bytes -> Z -> bool} (Hre : reaches J reach).
Context {I : gmap bytes bytes -> K -> Prop} {zh : Z} (Htk : taking I zh).
Implicit Types (s : system K N W) (l : list (action K N W)).

Local Abbreviation run := (run ParseIpPortString StringSplit zk_host recv_timeout scan_interval).

(** A thread waits for its interval. *)
Lemma ticks_wait k i p tries threads s :
  need_restart s = false -> need_rebalance (mo (s_mon s)) = false -> main_at s = Joining threads ->
  threads !! i = Some (Some (mkThread p (Waiting tries))) -> tries + Z.of_nat k < cron_interval scan_interval ->
  run (replicate k (Tick i)) s = Some (tt, with_main s (Joining (<[i := Some (mkThread p (Waiting (tries + Z.of_nat k)))]> threads))).
Proof.
  revert tries threads s. induction k as [|k IH]; intros tries threads s Hr Hb Hm Hi Hk.
  - rewrite Z.add_0_r, list_insert_id by done. rewrite <- Hm. by destruct s.
  - cbn [replicate MonitorWork.run MonitorWork.step]. unfold tick.
    erewrite SM_bind_Some.
    2:{ erewrite SM_bind_Some by reflexivity. unfold id. rewrite Hm, Hi. unfold thread_turn. cbn [at_ service_pos].
        erewrite SM_bind_Some by (erewrite SM_bind_Some by reflexivity; unfold id; rewrite Hr, Hb; cbn [orb]; cbv zeta;
          rewrite (proj2 (Z.leb_gt _ _)) by lia; reflexivity). reflexivity. }
    erewrite (IH (tries + 1)); [|done..| |lia].
    + rewrite list_insert_insert_eq. by replace (tries + Z.of_nat (S k)) with (tries + 1 + Z.of_nat k) by lia.
    + apply list_lookup_insert_eq. by eapply lookup_lt_Some.
Qed.

(** The check of a service, with at most as many services as threads. *)
Lemma CronHandle_exact p father (m : monitor K N) :
  my_service_fathers (mo m) !! Z.to_nat p = Some father -> blen (my_service_fathers (mo m)) <= kMaxThreadNum -> J (mo_net m) ->
  exists o n, CronHandle p m = Some (p, mkMonitor o (mo_zk m) n
      (mo_updates m ++ omap (change_of reach (mo m) father) (in_order (elements (ips_of (mo m) father))))) /\
    J n /\ same_view (mo m) o /\ service_map o = service_map (mo m).
Proof using Hre.
  intros Hf Hn Hj. destruct (TryConnect_exact Hre father m Hj) as (o & n & Ht & Hrest). exists o, n. split; [|exact Hrest].
  unfold CronHandle. erewrite SM_bind_Some by reflexivity. rewrite Hf, (SM_bind_Some _ _ _ _ _ Ht).
  by rewrite (proj2 (Z.ltb_ge _ _)).
Qed.

(** The write of a status that a session takes. *)
Lemma write_status_taken m path st v (w : monitor K N) :
  st = kStatusUp \/ st = kStatusDown -> (x00 ∉ path) -> I m (mo_zk w) -> m !! path = Some v ->
  exists w' : monitor K N, write_status zh path st w = Some (tt, w') /\ I (<[path := print_dec st]> m) (mo_zk w') /\ mo_updates w' = mo_updates w /\
    (forall f, ips_of (mo w') f = ips_of (mo w) f) /\ forall p, status_at (mo w') p = if decide (p = path) then st else status_at (mo w) p.
Proof using Htk.
  intros Hst Hp Hi Hv. destruct (Htk m (mo_zk w) path st Hst Hi) as (k & Hz & Hk); [by eexists|].
  unfold write_status. erewrite SM_bind_Some by (unfold mzk_modify, mzk, kMonitorGetRetries; rewrite c_str_no_nul by done; cbn [retry];
    rewrite (SM_bind_Some _ _ _ _ _ Hz); reflexivity).
  rewrite Z.eqb_refl. destruct (set_status_run path st (with_zk w k)) as (o & Ho & Hips & Hs). eexists. split; [exact Ho|]. by split_and!.
Qed.

(** C34. The status of a server follows what its check finds. A monitor has at most 64 services, one per thread;
    no restart and no rebalancing is pending, no change waits to be written, the update thread has its session
    and ZooKeeper takes what it writes. When the only server of the service that changed no longer accepts
    connections, or does so again (and, going down, another server of the service is up), then with nothing
    else in between, the thread of the service waits out its interval, goes through its check server by server
    and is back in its loop having scheduled exactly that change, and the update thread writes it to ZooKeeper
    and to the options. *)
Theorem status_follows i p threads father ip st m v s :
  let o := mo (s_mon s) in
  let path := father ++ str "/" ++ ip in
  main_at s = Joining threads -> threads !! i = Some (Some (mkThread p (Waiting 0))) -> need_restart s = false -> need_rebalance o = false ->
  zk_update s = Some zh -> my_service_fathers o !! Z.to_nat p = Some father -> blen (my_service_fathers o) <= kMaxThreadNum ->
  mo_updates (s_mon s) = [] -> J (mo_net (s_mon s)) -> I m (mo_zk (s_mon s)) -> m !! path = Some v -> (x2f ∉ ip) -> (x00 ∉ path) ->
  ip ∈ ips_of o father -> change_of reach o father ip = Some (path, st) ->
  (forall ip', ip' ∈ ips_of o father -> ip' <> ip -> change_of reach o father ip' = None) ->
  (st = kStatusDown -> 1 < countb (up_at o father) (elements (ips_of o father))) ->
  exists k s', run (replicate (Z.to_nat (cron_interval scan_interval - 1)) (Tick i) ++ replicate k (Tick i) ++ [Update]) s = Some (tt, s') /\
    I (<[path := print_dec st]> m) (mo_zk (s_mon s')) /\ mo_updates (s_mon s') = [] /\
    (forall q, status_at (mo (s_mon s')) q = if decide (q = path) then st else status_at o q) /\
    main_at s' = Joining (<[i := Some (mkThread p (Waiting 0))]> threads).
Proof using Hre Htk.
  intros o path Hm Hi Hr Hb Hu Hf Hn He Hj HI Hv Hs Hp0 Hin Hch Hoth Hup.
  assert (Hc : 0 < cron_interval scan_interval) by (unfold cron_interval; destruct (Z.leb_spec scan_interval 0); lia).
  destruct (CronHandle_exact p father (s_mon s) Hf Hn Hj) as (o2 & n & Ht & Hj2 & Hv2 & Hm2). fold o in Ht, Hv2, Hm2.
  set (tries := 0 + Z.of_nat (Z.to_nat (cron_interval scan_interval - 1))).
  destruct (goes_cron ParseIpPortString StringSplit zk_host recv_timeout scan_interval p tries (s_mon s) p _ Hb ltac:(unfold tries; lia) Ht) as (k & Hgo).
  exists k. rewrite run_app. erewrite SM_bind_Some by (apply (ticks_wait _ i p 0 threads); try done; lia). fold tries.
  rewrite run_app. erewrite SM_bind_Some by (apply (Hgo _ i (<[i := Some (mkThread p (Waiting tries))]> threads)); try done; apply list_lookup_insert_eq; by eapply lookup_lt_Some).
  rewrite list_insert_insert_eq. cbn [with_main with_mon s_mon s_files need_restart zk_balance zk_listener zk_update main_at MonitorWork.run MonitorWork.step].
  assert (Hone : omap (change_of reach o father) (in_order (elements (ips_of o father))) = [(path, st)]).
  { apply (omap_singleton _ _ ip); [|by rewrite in_order_perm, elem_of_elements|done|].
    - rewrite in_order_perm. apply NoDup_elements.
    - intros y Hy. rewrite in_order_perm, elem_of_elements in Hy. by apply Hoth. }
  rewrite Hone, He. cbn [app]. unfold with_main, with_mon. cbn [s_mon s_files need_restart zk_balance zk_listener zk_update main_at]. set (s2 := mkSystem _ _ _ _ _ _ _).
  assert (Hsame : forall q, status_at o2 q = status_at o q) by apply Hv2.
  destruct (update_allowed_ok father ip st (mkMonitor o2 (mo_zk (s_mon s)) n []) Hs) as (o3 & Ha & Hv3). cbn [mo] in Ha, Hv3.
  replace (negb _) with true in Ha.
  2:{ symmetry. apply negb_true_iff. destruct (Z.eqb_spec st kStatusDown) as [E|]; [|done].
      rewrite (sv_ips _ _ Hv2), (countb_ext _ (up_at o father)) by (intros q; unfold up_at; by rewrite Hsame).
      rewrite (proj2 (Z.leb_gt _ _)) by auto. apply andb_false_r. }
  destruct (write_status_taken m path st v (mkMonitor o3 (mo_zk (s_mon s)) n [])) as (w' & Hw & HI' & Hu' & Hips' & Hst'); [by apply (change_status _ _ _ _ _ Hch)|done..|].
  eexists. split.
  { unfold update_step. erewrite SM_bind_Some; [reflexivity|]. erewrite SM_bind_Some by reflexivity. unfold id. cbn [s2 s_mon mo_updates].
    erewrite SM_bind_Some by reflexivity. erewrite SM_bind_Some by (unfold on_mon; cbn [s2 s_mon mo mo_zk mo_net]; fold path in Ha |- *; rewrite Ha; reflexivity).
    cbv beta iota. erewrite SM_bind_Some by (unfold GetZkInstance; erewrite SM_bind_Some by reflexivity; unfold id; cbn [zk_update s2]; rewrite Hu; reflexivity).
    unfold on_mon. cbn [s_mon with_mo]. unfold with_mo. cbn [mo_zk mo_net mo_updates]. rewrite Hw. reflexivity. }
  cbn [s_mon main_at]. split; [done|]. split; [by rewrite Hu'|]. split; [|done]. intros q. rewrite Hst'. cbn [mo]. by rewrite (sv_status _ _ Hv3), Hsame.
Qed.
End Follow.
(** ** A monitor with a service of two servers, the first of which is gone *)

(** The network remembers the host that was tried last. *)
#[local] Instance host_net : Net bytes := {|
  net_connect host _ := fun _ => Some (tt, host);
  net_available := fun h => Some (negb (bool_decide (h = str "10.0.0.1")), h);
  net_close := mret tt
|}.

#[local] Instance no_files : Files unit := {|
  file_access _ := mret false; file_mkdir _ _ := mret false; dir_list _ := mret None;
  file_content _ := mret None; file_unlink _ := mret tt; file_out _ _ _ := mret false
|}.

#[local] Existing Instance mem_write.

Lemma host_reaches : reaches (fun _ => True) (fun h _ => negb (bool_decide (h = str "10.0.0.1"))).
Proof. split; intros; do 2 eexists; split; done. Qed.

Lemma mem_taking zh : taking (fun m k => k = m) zh.
Proof. intros m k p st Hst -> [w Hw]. exists (<[p := print_dec st]> m). cbn. rewrite Hw. by destruct Hst as [->| ->]. Qed.

Definition two_servers : MonitorOptions :=
  mkOptions (str "t") (str "h1") 3
    {[ str "/s/a/10.0.0.1:80" := mkItem (str "10.0.0.1") 80 (str "/s/a") kStatusUp;
       str "/s/a/10.0.0.2:80" := mkItem (str "10.0.0.2") 80 (str "/s/a") kStatusUp ]}
    [str "/s/a"] {[ str "/s/a" := {[ str "10.0.0.1:80"; str "10.0.0.2:80" ]} ]} [] kMaxThreadNum false ∅ [].

Definition small_tree : gmap bytes bytes :=
  {[ str "/s/a" := []; str "/s/a/10.0.0.1:80" := str "0"; str "/s/a/10.0.0.2:80" := str "0" ]}.

Definition small_system (restart : bool) (p : progress) : system (gmap bytes bytes) bytes unit :=
  mkSystem (mkMonitor two_servers small_tree [] []) tt restart 1 1 (Some 1) (Joining [Some (mkThread 0 p)]).

Lemma status_follows_witness :
  exists k s', run (fun ip => (ip, 80)) (fun s _ => [s]) (str "zk") 3000 3 (replicate 2 (Tick 0) ++ replicate k (Tick 0) ++ [Update]) (small_system false (Waiting 0)) = Some (tt, s') /\
    mo_zk (s_mon s') !! str "/s/a/10.0.0.1:80" = Some (str "2").
Proof.
  destruct (status_follows (fun ip => (ip, 80)) (fun s _ => [s]) (str "zk") 3000 3 host_reaches (mem_taking 1) 0 0 [Some (mkThread 0 (Waiting 0))]
    (str "/s/a") (str "10.0.0.1:80") kStatusDown small_tree (str "0") (small_system false (Waiting 0))) as (k & s' & Hr & Hzk & _).
  1-6: reflexivity.
  1: by vm_compute.
  1: reflexivity.
  1: exact Logic.I.
  1-2: reflexivity.
  1-3: by apply (bool_decide_unpack _); vm_compute.
  1: reflexivity.
  - assert (Hall : Forall (fun ip' => ip' = str "10.0.0.1:80" \/
        change_of (fun h _ => negb (bool_decide (h = str "10.0.0.1"))) two_servers (str "/s/a") ip' = None) (elements (ips_of two_servers (str "/s/a"))))
      by (apply (bool_decide_unpack _); by vm_compute).
    rewrite Forall_forall in Hall. intros ip' Hin Hne. by destruct (Hall ip' (proj2 (elem_of_elements _ _) Hin)) as [->|].
  - intros _. by vm_compute.
  - exists k, s'. split; [exact Hr|]. rewrite Hzk. vm_compute. reflexivity.
Defined.

(** The signal finds the thread trying the first server: the change of this one is still scheduled, and when the
    check is over the thread ends. *)
Lemma restart_is_final_witness :
  let s := small_system true (Between (str "/s/a") None) in
  exists s', run (fun ip => (ip, 80)) (fun s _ => [s]) (str "zk") 3000 3 (replicate 10 (Tick 0) ++ [Main]) s = Some (tt, s') /\
    need_restart s' = true /\ main_at s' = AtLoop /\ mo_updates (s_mon s') = [(str "/s/a/10.0.0.1:80", kStatusDown)] /\
    exists new, mo_updates (s_mon s') `suffix_of` new /\ Forall (by_check s) new.
Proof.
  intros s.
  assert (Hs : exists s', run (fun ip => (ip, 80)) (fun s _ => [s]) (str "zk") 3000 3 (replicate 10 (Tick 0) ++ [Main]) s = Some (tt, s') /\
    main_at s' = AtLoop /\ mo_updates (s_mon s') = [(str "/s/a/10.0.0.1:80", kStatusDown)]).
  { assert (Hv : option_map (fun r => (main_at r.2, mo_updates (s_mon r.2)))
        (run (fun ip => (ip, 80)) (fun s _ => [s]) (str "zk") 3000 3 (replicate 10 (Tick 0) ++ [Main]) s) = Some (AtLoop, [(str "/s/a/10.0.0.1:80", kStatusDown)]))
      by (vm_compute; reflexivity).
    destruct (run _ _ _ _ _ _ s) as [[[] s']|]; [|discriminate Hv]. exists s'. injection Hv as Hm Hu. by split_and!. }
  destruct Hs as (s' & Hr & Hm & Hu). exists s'.
  destruct (restart_is_final (fun ip => (ip, 80)) (fun s _ => [s]) (str "zk") 3000 3 (replicate 10 (Tick 0) ++ [Main]) s s' eq_refl Hr) as (Hup & _ & (new & Hnew) & _).
  split; [exact Hr|]. split; [exact Hup|]. split; [exact Hm|]. split; [exact Hu|]. exists new. exact Hnew.
Defined.
End MonitorWorkThm.
