(* ===== verification/MonitorMain.v ===== *)
(** * The monitor as a program ([monitor.cc], [monitor_options.cc], [monitor_process.cc])

    [main] reads the configuration, makes sure that no other monitor runs, goes to the background and forks a
    child that does the work, which the threads of [MonitorWork] then do; the parent forks again when the
    child was killed by a signal. The configuration file is read by a library that is no part of the
    sources: an interface. *)

From S2P Require Import Prelude Common Text Daemon Log Cmd Monitor MonitorCmd.

(** Reading the configuration ([slash::BaseConf]), and other calls of this program. *)
Class SlashConf (W : Type) := {
  conf_load : bytes -> SM W Z;                        (* the constructor with the path, and LoadConf *)
  conf_bool : bytes -> SM W (option bool);            (* None when the key is missing or its value is of another type *)
  conf_int : bytes -> SM W (option Z);
  conf_str : bytes -> SM W (option bytes)
}.
Class MonitorSys (W : Type) := {
  sys_popen : bytes -> SM W (option (list bytes));    (* a command; what fgets then reads, piece by piece *)
  sys_pclose : SM W unit;
  sys_readlink : bytes -> SM W (option bytes);        (* at most 1024 bytes, without a NUL at the end *)
  sys_chdir : bytes -> SM W unit;
  sys_hostname : SM W (option bytes)                  (* gethostname into 128 bytes *)
}.

(** The options that are read once and that the threads do not change. *)
Record ConfOptions := mkConfOptions {
  daemon_mode : bool;
  auto_restart : bool;
  log_level : Z;
  scan_interval : Z;
  zk_host : bytes;
  zk_log_path : bytes;
  zk_recv_timeout : Z;
  zk_log_file : bool
}.

Module MonitorMain.
Import Monitor Daemon MLog.

Definition kOpenFileFailed : Z := 3.
Definition kConfPath : bytes := str "conf/monitor.conf".
Definition kDaemonMode : bytes := str "daemon_mode".
Definition kAutoRestart : bytes := str "auto_restart".
Definition kLogLevel : bytes := str "log_level".
Definition kConnRetryCount : bytes := str "connect_retry_count".
Definition kScanInterval : bytes := str "scan_interval".
Definition kInstanceName : bytes := str "instance_name".
Definition kZkHostPrefix : bytes := str "zookeeper.".
Definition kZkLogPath : bytes := str "zk_log_path".
Definition kZkRecvTimeout : bytes := str "zk_recv_timeout".
Definition kMinLogLevel : Z := 0.
Definition kMaxLogLevel : Z := 6.
Definition kDefaultInstanceName : bytes := str "default_instance".
Definition kMonitorProcessName : bytes := str "qconf_monitor".
Definition kPidFile : bytes := str "monitor_pid".
Definition EINTR : Z := 4.
Definition SIGKILL : Z := 9.
Definition SIGTSTP : Z := 20.
Definition SIGTTIN : Z := 21.
Definition SIGTTOU : Z := 22.

(** The constructor of [MonitorOptions], in the two records. *)
Definition default_conf : ConfOptions := mkConfOptions false false 2 3 (str "127.0.0.1:2181") (str "logs") 3000 false.
Definition default_options : MonitorOptions := mkOptions [] [] 3 ∅ [] ∅ [] kMaxThreadNum false ∅ [].

Section Process.
Context {W : Type} `{Procs W} `{MonitorSys W}.

(** ** The calls on processes *)

Definition abnormal_text : bytes := str "ABNORMAL".

(** The loop over the output of the command: [None] when a line has a number above one, or the last line. *)
Fixpoint ps_loop (pieces : list bytes) (res_buf : bytes) : option bytes :=
  match pieces with
  | [] => Some res_buf
  | p :: pieces' => if 2 <=? atoi (c_str p) then None else ps_loop pieces' (c_str p)
  end.

Definition IsProcessRunning (process_name : bytes) : SM W bool :=
  let ps := snprintf 128 (str "ps -e | grep -c " ++ c_str process_name) in
  ptr ← sys_popen ps;
  match ptr with
  | None => mret true
  | Some pieces =>
      match ps_loop pieces abnormal_text with
      | None => sys_pclose;; mret true
      | Some res_buf => if decide (res_buf = abnormal_text) then mret true else sys_pclose;; mret false
      end
  end.

(** The same as [signal_forward] of the agent. *)
Definition SigForward (sig : Z) : SM W unit := sys_signal sig SIG_IGN;; sys_kill 0 sig.

(** The inner loop, which forks until there is one child: [inl] to return. *)
Fixpoint fork_loop (fuel : nat) (processNum childPid : Z) : SM W (Z + Z * Z) :=
  match fuel with
  | O => undefined
  | S fuel' =>
      if processNum <? 1 then
        childPid ← sys_fork;
        if childPid <? 0 then mret (inl (-1))
        else if childPid =? 0 then
          set_signals [SIGTERM; SIGKILL; SIGUSR1; SIGUSR2] Handler;;
          mret (inl 0)
        else
          set_signals [SIGINT; SIGTERM; SIGHUP; SIGUSR1; SIGUSR2] Forward;;
          fork_loop fuel' (processNum + 1) childPid
      else mret (inr (processNum, childPid))
  end.

(** The loop that sleeps again for what a signal left of the time. Each call sleeps for a part of a second
    at least and the rest is in whole seconds, so the seconds bound the number of turns. *)
Fixpoint nap_loop (fuel : nat) (timeToWait : Z) : SM W unit :=
  if 0 <? timeToWait then
    match fuel with
    | O => undefined
    | S fuel' => timeToWait ← sys_sleep timeToWait; nap_loop fuel' timeToWait
    end
  else mret tt.

(** The wait for the child: [inl] to return, with the exit status for the caller, [inr] to go on. *)
Definition wait_worker (pidFile : bytes) (childExitStatus processNum childPid : Z) : SM W (Z * Z + Z * Z) :=
  '(exitPid, exitStatus, errno) ← sys_waitpid childPid;
  if childPid =? exitPid then
    sys_unlink pidFile;;
    match exitStatus with
    | WExited code => mret (inl (1, code))
    | WSignaled sig =>
        nap_loop 16 16;;
        set_signals [SIGINT; SIGTERM; SIGHUP] SIG_DFL;;
        mret (inr (processNum - 1, -1))
    | WStopped | WOther => sys_sleep 16;; mret (inr (processNum - 1, -1))
    end
  else if exitPid =? -1 then
    if negb (errno =? EINTR) then mret (inl (-1, childExitStatus)) else mret (inr (processNum, childPid))
  else mret (inr (processNum, childPid)).

(** The outer loop: the result and [childExitStatus]. *)
Fixpoint worker_loop (fuel : nat) (pidFile : bytes) (childExitStatus processNum childPid : Z) : SM W (Z * Z) :=
  match fuel with
  | O => undefined
  | S fuel' =>
      r ← fork_loop 2 processNum childPid;
      match r with
      | inl ret => mret (ret, childExitStatus)
      | inr (processNum, childPid) =>
          r ← wait_worker pidFile childExitStatus processNum childPid;
          match r with
          | inl ret => mret ret
          | inr (processNum, childPid) => worker_loop fuel' pidFile childExitStatus processNum childPid
          end
      end
  end.

Definition ProcessKeepalive (fuel : nat) (childExitStatus : Z) (pidFile : bytes) : SM W (Z * Z) :=
  worker_loop fuel pidFile childExitStatus 0 (-1).
End Process.

Section Main.
Context {W : Type} `{Procs W} `{MonitorSys W} `{SlashConf W} `{ZooLog W} `{LogSys W} `{Files W}.
(** [slash::StringSplit], and what the array [dest] of [Daemonize] holds before it is written. *)
Variables (StringSplit : bytes -> byte -> list bytes) (dest0 : bytes).

Record process := mkProcess { mp_conf : ConfOptions; mp_mo : MonitorOptions; mp_log : mlog; mp_sys : W }.
Abbreviation PM := (SM process).

Definition on_sys {A} (c : SM W A) : PM A := fun s =>
  match c (mp_sys s) with Some (a, w) => Some (a, mkProcess (mp_conf s) (mp_mo s) (mp_log s) w) | None => None end.
Definition on_log {A} (c : SM (mlog * W) A) : PM A := fun s =>
  match c (mp_log s, mp_sys s) with Some (a, (l, w)) => Some (a, mkProcess (mp_conf s) (mp_mo s) l w) | None => None end.
Definition upd_conf (f : ConfOptions -> ConfOptions) : PM unit :=
  modify (fun s => mkProcess (f (mp_conf s)) (mp_mo s) (mp_log s) (mp_sys s)).
Definition upd_mo (f : MonitorOptions -> MonitorOptions) : PM unit :=
  modify (fun s => mkProcess (mp_conf s) (f (mp_mo s)) (mp_log s) (mp_sys s)).

(** Updates of single fields. *)
Definition set_daemon_mode b c := mkConfOptions b (auto_restart c) (log_level c) (scan_interval c) (zk_host c) (zk_log_path c) (zk_recv_timeout c) (zk_log_file c).
Definition set_auto_restart b c := mkConfOptions (daemon_mode c) b (log_level c) (scan_interval c) (zk_host c) (zk_log_path c) (zk_recv_timeout c) (zk_log_file c).
Definition set_log_level l c := mkConfOptions (daemon_mode c) (auto_restart c) l (scan_interval c) (zk_host c) (zk_log_path c) (zk_recv_timeout c) (zk_log_file c).
Definition set_scan_interval n c := mkConfOptions (daemon_mode c) (auto_restart c) (log_level c) n (zk_host c) (zk_log_path c) (zk_recv_timeout c) (zk_log_file c).
Definition set_zk_host h c := mkConfOptions (daemon_mode c) (auto_restart c) (log_level c) (scan_interval c) h (zk_log_path c) (zk_recv_timeout c) (zk_log_file c).
Definition set_zk_log_path p c := mkConfOptions (daemon_mode c) (auto_restart c) (log_level c) (scan_interval c) (zk_host c) p (zk_recv_timeout c) (zk_log_file c).
Definition set_zk_recv_timeout t c := mkConfOptions (daemon_mode c) (auto_restart c) (log_level c) (scan_interval c) (zk_host c) (zk_log_path c) t (zk_log_file c).
Definition set_zk_log_file b c := mkConfOptions (daemon_mode c) (auto_restart c) (log_level c) (scan_interval c) (zk_host c) (zk_log_path c) (zk_recv_timeout c) b.
Definition set_instance_name n (o : MonitorOptions) := mkOptions n (monitor_host_name o) (conn_retry_count o) (service_map o)
  (my_service_fathers o) (service_father_to_ip o) (has_thread o) (waiting_index o) (need_rebalance o) (md5_to_service_father o) (zk_lock_buf o).
Definition set_host_name n (o : MonitorOptions) := mkOptions (instance_name o) n (conn_retry_count o) (service_map o)
  (my_service_fathers o) (service_father_to_ip o) (has_thread o) (waiting_index o) (need_rebalance o) (md5_to_service_father o) (zk_lock_buf o).
Definition set_retry_count n (o : MonitorOptions) := mkOptions (instance_name o) (monitor_host_name o) n (service_map o)
  (my_service_fathers o) (service_father_to_ip o) (has_thread o) (waiting_index o) (need_rebalance o) (md5_to_service_father o) (zk_lock_buf o).

(** ** The options ([MonitorOptions::Load]) *)

(** A value of the configuration is stored, or the option keeps what it has; whether there was one. *)
Definition read_conf {A} (get : SM W (option A)) (store : A -> PM unit) : PM bool :=
  r ← on_sys get;
  match r with Some v => store v;; mret true | None => mret false end.

Definition SetZkLog : PM Z :=
  path ← gets (fun s => zk_log_path (mp_conf s));
  if decide (path = []) then mret kZkFailed else
  opened ← on_sys (zlog_fopen (c_str path));
  upd_conf (set_zk_log_file opened);;
  if negb opened then mret kOpenFileFailed else
  on_sys zlog_set;;
  mret kSuccess.

(** The loop over the words of the name of this host: whether one has an entry. *)
Fixpoint find_zk_host (words : list bytes) : PM bool :=
  match words with
  | [] => mret false
  | word :: words' =>
      found ← read_conf (conf_str (kZkHostPrefix ++ word)) (fun v => upd_conf (set_zk_host v));
      if (found : bool) then mret true else find_zk_host words'
  end.

(** What follows once the host was found. *)
Definition load_rest : PM Z :=
  read_conf (conf_int kConnRetryCount) (fun v => upd_mo (set_retry_count v));;
  read_conf (conf_int kScanInterval) (fun v => upd_conf (set_scan_interval v));;
  read_conf (conf_str kInstanceName) (fun v => upd_mo (set_instance_name v));;
  upd_mo (fun o => if decide (instance_name o = []) then set_instance_name kDefaultInstanceName o else o);;
  read_conf (conf_str kZkLogPath) (fun v => upd_conf (set_zk_log_path v));;
  read_conf (conf_int kZkRecvTimeout) (fun v => upd_conf (set_zk_recv_timeout v));;
  level ← gets (fun s => log_level (mp_conf s));
  on_log (Init level);;
  SetZkLog.

Definition Load : PM Z :=
  ret ← on_sys (conf_load kConfPath);
  if negb (ret =? 0) then mret kOtherError else
  on_log (Init kMaxLogLevel);;
  read_conf (conf_bool kDaemonMode) (fun v => upd_conf (set_daemon_mode v));;
  read_conf (conf_bool kAutoRestart) (fun v => upd_conf (set_auto_restart v));;
  read_conf (conf_int kLogLevel) (fun v => upd_conf (set_log_level v));;
  upd_conf (fun c => set_log_level (Z.max (log_level c) kMinLogLevel) c);;
  upd_conf (fun c => set_log_level (Z.min (log_level c) kMaxLogLevel) c);;
  hostname ← on_sys sys_hostname;
  match hostname with
  | None => mret kOtherError
  | Some hostname =>
      upd_mo (set_host_name (c_str hostname));;
      found ← find_zk_host (StringSplit (c_str hostname) x2e);
      if negb found then mret kOtherError else load_rest
  end.

(** ** [main] *)

(** The name of the program in [dest]; without a NUL the string would run past the array. *)
Definition exe_name (link : option bytes) : option bytes :=
  let dest := match link with Some l => l ++ drop (length l) dest0 | None => dest0 end in
  if decide (x00 ∈ dest) then Some (c_str dest) else None.

(** Two levels up from the program. *)
Definition work_path (exe : bytes) : option bytes :=
  match rfind x2f exe with
  | None => None
  | Some pos =>
      let bin_path := take pos exe in
      Some (match rfind x2f bin_path with Some pos => take pos bin_path | None => bin_path end)
  end.

(** After the second fork. *)
Definition detach : PM Z :=
  link ← on_sys (sys_readlink (str "/proc/self/exe"));
  match exe_name link with
  | None => undefined
  | Some exe =>
      match work_path exe with Some p => on_sys (sys_chdir p) | None => mret tt end;;
      fd ← on_sys (sys_open (str "/dev/null") O_RDWR 0);
      on_sys (sys_dup2 fd 0;; sys_dup2 fd 1;; sys_dup2 fd 2;; if 3 <=? fd then sys_close fd else mret tt);;
      on_log CloseLogFile;;
      max ← on_sys sys_open_max;
      on_sys (close_loop (Z.to_nat (max - 2)) max);;
      on_sys (sys_umask 0);;
      mret 0
  end.

Definition Daemonize : PM (outcome Z) :=
  on_sys (set_signals [SIGTTOU; SIGTTIN; SIGTSTP; SIGHUP] SIG_IGN);;
  ppid ← on_sys sys_getppid;
  if ppid =? 1 then mret (Returns 1) else
  pid ← on_sys sys_fork;
  if pid <? 0 then mret (Exits 1) else
  if 0 <? pid then mret (Exits 0) else
  sid ← on_sys sys_setsid;
  if sid <? 0 then mret (Exits 1) else
  pid ← on_sys sys_fork;
  if pid <? 0 then mret (Exits 1) else
  if 0 <? pid then mret (Exits 0) else
  ret ← detach;
  mret (Returns ret).

(** [Some] when the process ends; [None] when it goes on to [WorkThread::Start], which [MonitorWork] models,
    and after which it returns 0. *)
Definition main (fuel : nat) : PM (option (outcome Z)) :=
  ret ← Load;
  if negb (ret =? kSuccess) then mret (Some (Returns ret)) else
  running ← on_sys (IsProcessRunning kMonitorProcessName);
  if (running : bool) then mret (Some (Returns kOtherError)) else
  daemon ← gets (fun s => daemon_mode (mp_conf s));
  r ← (if (daemon : bool) then Daemonize else mret (Returns 0));
  match r with
  | Exits code => mret (Some (Exits code))
  | Returns _ =>
      restart ← gets (fun s => auto_restart (mp_conf s));
      if negb restart then mret None else
      '(ret, child_exit_status) ← on_sys (ProcessKeepalive fuel (-1) kPidFile);
      if 0 <? ret then mret (Some (Returns child_exit_status))
      else if ret <? 0 then mret (Some (Returns kOtherError))
      else
        pid ← on_sys sys_getpid;
        on_sys (file_out false kPidFile (print_dec pid ++ [x0a]));;
        mret None
  end.
End Main.
End MonitorMain.
