(* ===== verification/MonitorMainThm.v ===== *)
(** * Theorems about the monitor as a program

    When the parent restarts its worker and when it does not, and what the options are after they were
    loaded. *)

From S2P Require Import Prelude Common Text Daemon DaemonThm Log Cmd Monitor MonitorCmd MonitorMain.

(** A call of [sleep] that a signal ends early has slept for a part of a second, and gives the whole seconds
    that are left. *)
Class NapLaws (W : Type) `{ProcsLaws W} := {
  nap_ok : forall n w, 0 < n -> exists left w', sys_sleep n w = Some (left, w') /\ 0 <= left < n /\ same_lives w w'
}.

(** What the configuration says, the name of the host included. *)
Record config := mkConfig {
  cf_bools : bytes -> option bool;
  cf_ints : bytes -> option Z;
  cf_strs : bytes -> option bytes;
  cf_host : bytes
}.

(** The documented behaviour of the library and the calls, on a host whose configuration is [c] and can be
    read. *)
Class ConfLaws (W : Type) `{!SlashConf W, !MonitorSys W, !ZooLog W} := {
  conf_is : W -> config -> Prop;
  conf_load_ok : forall p w c, conf_is w c -> exists w', conf_load p w = Some (0, w') /\ conf_is w' c;
  conf_bool_ok : forall k w c, conf_is w c -> exists w', conf_bool k w = Some (cf_bools c k, w') /\ conf_is w' c;
  conf_int_ok : forall k w c, conf_is w c -> exists w', conf_int k w = Some (cf_ints c k, w') /\ conf_is w' c;
  conf_str_ok : forall k w c, conf_is w c -> exists w', conf_str k w = Some (cf_strs c k, w') /\ conf_is w' c;
  hostname_ok : forall w c, conf_is w c -> exists w', sys_hostname w = Some (Some (cf_host c), w') /\ conf_is w' c;
  zlog_fopen_ok : forall p w c, conf_is w c -> exists b w', zlog_fopen p w = Some (b, w') /\ conf_is w' c;
  zlog_set_ok : forall w c, conf_is w c -> exists w', zlog_set w = Some (tt, w') /\ conf_is w' c
}.

Module MonitorMainThm.
Import Monitor Daemon DaemonThm MLog MonitorMain.

(** ** The parent *)

Section Keepalive.
Context {W : Type} `{NapLaws W}.
Implicit Types (w : W) (ls : list life).

Lemma nap_loop_ok fuel n w : n <= Z.of_nat fuel -> exists w', nap_loop fuel n w = Some (tt, w') /\ same_lives w w'.
Proof.
  revert n w. induction fuel as [|fuel IH]; intros n w Hn; cbn [nap_loop];
    (destruct (Z.ltb_spec 0 n) as [Hp|]; [|exists w; by split]); [lia|].
  destruct (nap_ok n w Hp) as (left & w1 & Hr & Hl & Hs1). rewrite (SM_bind_Some _ _ _ _ _ Hr).
  destruct (IH left w1) as (w' & Hr' & Hs2); [lia|]. exists w'. split; [done|]. by apply (same_lives_trans _ w1).
Qed.

(** With no child, a new one is forked. *)
Lemma fork_worker w l ls :
  quiet w (l :: ls) ->
  exists pid w', fork_loop 2 0 (-1) w = Some (inr (1, pid), w') /\ 0 < pid /\ running w' pid (interruptions l) (death l) ls.
Proof.
  intros Hq. destruct (fork_ok w l ls Hq) as (pid & w1 & Hf & Hp & Hrun & _).
  destruct (set_signals_ok [SIGINT; SIGTERM; SIGHUP; SIGUSR1; SIGUSR2] Forward w1) as (w2 & Hr2 & [_ Hs2]).
  exists pid, w2. split; [|by split; [|apply Hs2]]. cbn [fork_loop]. change (0 <? 1) with true. cbv beta iota.
  rewrite (SM_bind_Some _ _ _ _ _ Hf). destruct (Z.ltb_spec pid 0); [lia|]. destruct (Z.eqb_spec pid 0); [lia|].
  by rewrite (SM_bind_Some _ _ _ _ _ Hr2).
Qed.

(** How a round ends after the child's death [d]. *)
Definition after_death (d : wstatus) : Z * Z + Z * Z :=
  match d with WExited code => inl (1, code) | _ => inr (0, -1) end.

Lemma wait_worker_end w pidFile st pid d ls :
  running w pid [] d ls ->
  exists w', wait_worker pidFile st 1 pid w = Some (after_death d, w') /\ quiet w' ls /\
    (forall code, d = WExited code -> file_text w' pidFile = None).
Proof.
  intros Hr. unfold wait_worker. destruct (wait_dead w pid d ls Hr) as (e & w1 & Hw1 & Hq1). rewrite (SM_bind_Some _ _ _ _ _ Hw1).
  cbv beta iota. rewrite Z.eqb_refl. destruct (unlink_ok pidFile w1) as (w2 & Hw2 & [Hs2 _] & Hnone). rewrite (SM_bind_Some _ _ _ _ _ Hw2).
  apply Hs2 in Hq1. destruct d as [code|sig| |].
  - exists w2. by split_and!.
  - destruct (nap_loop_ok 16 16 w2) as (w3 & Hw3 & [Hs3 _]); [lia|]. rewrite (SM_bind_Some _ _ _ _ _ Hw3).
    destruct (set_signals_ok [SIGINT; SIGTERM; SIGHUP] SIG_DFL w3) as (w4 & Hw4 & [Hs4 _]). exists w4. rewrite (SM_bind_Some _ _ _ _ _ Hw4).
    split_and!; auto; done.
  - destruct (sleep_ok 16 w2) as (k & w3 & Hw3 & [Hs3 _]). exists w3. rewrite (SM_bind_Some _ _ _ _ _ Hw3). split_and!; auto; done.
  - destruct (sleep_ok 16 w2) as (k & w3 & Hw3 & [Hs3 _]). exists w3. rewrite (SM_bind_Some _ _ _ _ _ Hw3). split_and!; auto; done.
Qed.

(** The rounds of a child whose parent is interrupted only by signals. *)
Lemma worker_rounds fuel w pidFile st pid es d ls :
  0 < pid -> Forall (fun e => e = EINTR) es -> running w pid es d ls ->
  exists w', worker_loop (S (length es) + fuel) pidFile st 1 pid w =
      (match after_death d with inl r => mret r | inr (n, p) => worker_loop fuel pidFile st n p end) w' /\ quiet w' ls /\
    (forall code, d = WExited code -> file_text w' pidFile = None).
Proof.
  intros Hp Hes. revert w. induction Hes as [|e es -> Hes IH]; intros w Hr; cbn [length Nat.add worker_loop];
    erewrite SM_bind_Some by reflexivity; cbv beta iota.
  - destruct (wait_worker_end w pidFile st pid d ls Hr) as (w' & Hw & Hrest). exists w'. rewrite (SM_bind_Some _ _ _ _ _ Hw).
    split; [|done]. by destruct d.
  - destruct (wait_interrupted w pid EINTR es d ls Hr) as (x & w1 & Hw & Hr1). destruct (IH w1 Hr1) as (w' & Hrun & Hrest).
    exists w'. split; [|exact Hrest]. rewrite <- Hrun. erewrite SM_bind_Some by (unfold wait_worker; rewrite (SM_bind_Some _ _ _ _ _ Hw);
      cbv beta iota; destruct (Z.eqb_spec pid (-1)); [lia|reflexivity]). reflexivity.
Qed.

(** From no child to the end of the next one. *)
Lemma worker_life fuel w pidFile st l ls :
  Forall (fun e => e = EINTR) (interruptions l) -> quiet w (l :: ls) ->
  exists w', worker_loop (S (length (interruptions l)) + fuel) pidFile st 0 (-1) w =
      (match after_death (death l) with inl r => mret r | inr (n, p) => worker_loop fuel pidFile st n p end) w' /\ quiet w' ls /\
    (forall code, death l = WExited code -> file_text w' pidFile = None).
Proof.
  intros Hes Hq. destruct (fork_worker w l ls Hq) as (pid & w1 & Hs & Hp & Hr).
  destruct (worker_rounds fuel w1 pidFile st pid (interruptions l) (death l) ls Hp Hes Hr) as (w' & Hrun & Hrest).
  exists w'. split; [|exact Hrest]. rewrite <- Hrun. cbn [Nat.add worker_loop].
  rewrite (SM_bind_Some _ _ _ _ _ Hs). reflexivity.
Qed.

(** The parent of the monitor forks a new worker after every death by a signal, however often it is itself
    interrupted by signals; a worker that exits ends it, with any exit code: an error code is handed on to
    the caller and nothing is restarted. *)
Theorem worker_restarts fuel w pidFile pre l rest code :
  quiet w (pre ++ l :: rest) -> Forall (fun l => Forall (fun e => e = EINTR) (interruptions l)) (pre ++ [l]) ->
  Forall (fun l => exists sig, death l = WSignaled sig) pre -> death l = WExited code ->
  exists w', ProcessKeepalive (rounds_of (pre ++ [l]) + fuel) (-1) pidFile w = Some ((1, code), w') /\ quiet w' rest /\
    file_text w' pidFile = None.
Proof.
  intros Hq Hes Hpre Hl. unfold ProcessKeepalive. revert w Hq. induction Hpre as [|l0 pre [sig Hl0] Hpre IH]; intros w Hq; inversion_clear Hes as [|? ? He Hes'].
  - destruct (worker_life (0 + fuel) w pidFile (-1) l rest He Hq) as (w' & Hrun & Hq' & Hnone). exists w'. rewrite Hl in Hrun.
    split; [|by eauto]. change (rounds_of ([] ++ [l]) + fuel)%nat with (S (length (interruptions l)) + 0 + fuel)%nat.
    by rewrite <- Nat.add_assoc, Hrun.
  - destruct (worker_life (rounds_of (pre ++ [l]) + fuel) w pidFile (-1) l0 (pre ++ l :: rest) He Hq) as (w1 & Hrun & Hq1 & _).
    rewrite Hl0 in Hrun. destruct (IH Hes' w1 Hq1) as (w' & Hr' & Hrest). exists w'. split; [|exact Hrest].
    change (rounds_of ((l0 :: pre) ++ [l]) + fuel)%nat with (S (length (interruptions l0)) + rounds_of (pre ++ [l]) + fuel)%nat.
    by rewrite <- Nat.add_assoc, Hrun.
Qed.
End Keepalive.
(** ** The options *)

Section Load.
Context {W : Type} `{ConfLaws W} `{!LogSys W} `{!Procs W} `{!Files W}.
Variable StringSplit : bytes -> byte -> list bytes.
Implicit Types (s : process (W := W)).

(** A value is stored when there is one. *)
Lemma read_conf_conf {A} (get : SM W (option A)) (f : A -> ConfOptions -> ConfOptions) r w' s :
  get (mp_sys s) = Some (r, w') ->
  read_conf get (fun v => upd_conf (f v)) s =
    Some (bool_decide (is_Some r), mkProcess (match r with Some v => f v (mp_conf s) | None => mp_conf s end) (mp_mo s) (mp_log s) w').
Proof. intros Hg. unfold read_conf. erewrite SM_bind_Some by (unfold on_sys; rewrite Hg; reflexivity). by destruct r. Qed.

Lemma read_conf_mo {A} (get : SM W (option A)) (f : A -> MonitorOptions -> MonitorOptions) r w' s :
  get (mp_sys s) = Some (r, w') ->
  read_conf get (fun v => upd_mo (f v)) s =
    Some (bool_decide (is_Some r), mkProcess (mp_conf s) (match r with Some v => f v (mp_mo s) | None => mp_mo s end) (mp_log s) w').
Proof. intros Hg. unfold read_conf. erewrite SM_bind_Some by (unfold on_sys; rewrite Hg; reflexivity). by destruct r. Qed.

(** The host of the first word of the name that has an entry. *)
Definition zk_entry (c : config) (words : list bytes) : option bytes := head (omap (fun w => cf_strs c (kZkHostPrefix ++ w)) words).

Lemma find_zk_host_ok c words s :
  conf_is (mp_sys s) c ->
  exists w', find_zk_host words s = Some (bool_decide (is_Some (zk_entry c words)),
      mkProcess (match zk_entry c words with Some h => set_zk_host h (mp_conf s) | None => mp_conf s end) (mp_mo s) (mp_log s) w') /\ conf_is w' c.
Proof.
  revert s. induction words as [|word words IH]; intros s Hc; [exists (mp_sys s); split; [by destruct s|done]|].
  cbn [find_zk_host]. destruct (conf_str_ok (kZkHostPrefix ++ word) (mp_sys s) c Hc) as (w1 & Hg & Hc1).
  rewrite (SM_bind_Some _ _ _ _ _ (read_conf_conf _ set_zk_host _ _ s Hg)). unfold zk_entry. cbn [omap list_omap].
  destruct (cf_strs c (kZkHostPrefix ++ word)) as [h|]; cbn [head].
  - rewrite bool_decide_eq_true_2 by by eexists. by exists w1.
  - rewrite bool_decide_eq_false_2 by by intros [? ?].
    match goal with |- context [find_zk_host words ?s1] => destruct (IH s1 Hc1) as (w' & Hr & Hc') end. by exists w'.
Qed.

(** The last part, after the log. *)
Lemma SetZkLog_ok c s :
  conf_is (mp_sys s) c ->
  exists ret s', SetZkLog s = Some (ret, s') /\ (ret = kZkFailed <-> zk_log_path (mp_conf s) = []) /\
    (ret = kSuccess \/ ret = kZkFailed \/ ret = kOpenFileFailed) /\ mp_mo s' = mp_mo s /\ mp_log s' = mp_log s /\
    exists b, mp_conf s' = set_zk_log_file b (mp_conf s) /\ (ret = kSuccess -> b = true).
Proof.
  intros Hc. unfold SetZkLog. erewrite SM_bind_Some by reflexivity. cbv beta. destruct (decide _) as [E|E].
  - eexists _, s. split; [reflexivity|]. split_and!; [done|auto|done|done|]. exists (zk_log_file (mp_conf s)). by destruct s as [[] ? ? ?].
  - destruct (zlog_fopen_ok (c_str (zk_log_path (mp_conf s))) (mp_sys s) c Hc) as (b & w1 & Ho & Hc1).
    erewrite SM_bind_Some by (unfold on_sys; rewrite Ho; reflexivity). erewrite SM_bind_Some by reflexivity.
    destruct b; cbn [negb].
    + destruct (zlog_set_ok w1 c Hc1) as (w2 & Hz & _). erewrite SM_bind_Some by (unfold on_sys; cbn [mp_sys]; rewrite Hz; reflexivity).
      eexists _, _. split; [reflexivity|]. split_and!; [done|auto|done|done|]. by exists true.
    + eexists _, _. split; [reflexivity|]. split_and!; [done|auto|done|done|]. by exists false.
Qed.
(** From the options to what is read next: one step of [Load]. *)
Tactic Notation "read_step" hyp(Hc) constr(lem) uconstr(how) constr(k) :=
  let w := fresh "w" in let Hg := fresh "Hg" in let Hc' := fresh "Hc" in
  match goal with |- context [(read_conf _ _ ≫= _) ?s] =>
    destruct (lem k (mp_sys s) _ Hc) as (w & Hg & Hc'); clear Hc; rename Hc' into Hc;
    erewrite SM_bind_Some by (apply how; exact Hg); clear Hg; cbn [mp_conf mp_mo mp_log mp_sys] in *
  end.

(** What is loaded after the host is known. *)
Lemma load_rest_ok c s :
  conf_is (mp_sys s) c ->
  exists ret s', load_rest s = Some (ret, s') /\
    let path := default (zk_log_path (mp_conf s)) (cf_strs c kZkLogPath) in
    let inst := default (instance_name (mp_mo s)) (cf_strs c kInstanceName) in
    (ret = kZkFailed <-> path = []) /\ (ret = kSuccess \/ ret = kZkFailed \/ ret = kOpenFileFailed) /\
    m_level (mp_log s') = log_level (mp_conf s) /\
    (exists b, mp_conf s' = mkConfOptions (daemon_mode (mp_conf s)) (auto_restart (mp_conf s)) (log_level (mp_conf s))
      (default (scan_interval (mp_conf s)) (cf_ints c kScanInterval)) (zk_host (mp_conf s)) path
      (default (zk_recv_timeout (mp_conf s)) (cf_ints c kZkRecvTimeout)) b /\ (ret = kSuccess -> b = true)) /\
    mp_mo s' = set_instance_name (if decide (inst = []) then kDefaultInstanceName else inst)
      (set_retry_count (default (conn_retry_count (mp_mo s)) (cf_ints c kConnRetryCount)) (mp_mo s)).
Proof.
  intros Hc. unfold load_rest.
  read_step Hc conf_int_ok read_conf_mo kConnRetryCount.
  read_step Hc conf_int_ok read_conf_conf kScanInterval.
  read_step Hc conf_str_ok read_conf_mo kInstanceName.
  erewrite SM_bind_Some by reflexivity. cbn [mp_conf mp_mo mp_log mp_sys].
  read_step Hc conf_str_ok read_conf_conf kZkLogPath.
  read_step Hc conf_int_ok read_conf_conf kZkRecvTimeout.
  do 2 (erewrite SM_bind_Some by reflexivity). cbn [mp_conf mp_mo mp_log mp_sys].
  match goal with |- context [SetZkLog ?s1] => destruct (SetZkLog_ok c s1 Hc) as (ret & s' & Hr & Hf & Hret & Hmo & Hlog & b & Hb & Hok) end.
  exists ret, s'. split; [exact Hr|]. clear Hr. rewrite Hmo, Hlog, Hb. clear Hmo Hlog Hb. destruct s as [co mo0 l sys]. cbn [mp_conf mp_mo mp_log m_level fst] in *.
  destruct co, mo0, (cf_ints c kConnRetryCount), (cf_ints c kScanInterval), (cf_strs c kInstanceName) as [inst|], (cf_strs c kZkLogPath),
    (cf_ints c kZkRecvTimeout); cbn in *; split_and!; try done; try (by exists b); try (by destruct (decide _)).
Qed.

(** Loading always ends. It fails exactly when no word of the host's name has a ZooKeeper in the
    configuration, or the path of the ZooKeeper log is empty, or that file cannot be opened. Once the host is
    known every option has the value of the configuration or its default, the level of the log is within its
    bounds and in force, and an instance without a name gets the default one. *)
Theorem load_options c s :
  conf_is (mp_sys s) c -> mp_conf s = default_conf -> mp_mo s = default_options ->
  let entry := zk_entry c (StringSplit (c_str (cf_host c)) x2e) in
  exists ret s', Load StringSplit s = Some (ret, s') /\
    (ret = kOtherError <-> entry = None) /\ (ret = kZkFailed <-> is_Some entry /\ cf_strs c kZkLogPath = Some []) /\
    (ret = kSuccess \/ ret = kOtherError \/ ret = kZkFailed \/ ret = kOpenFileFailed) /\
    forall h, entry = Some h ->
      let level := Z.min (Z.max (default 2 (cf_ints c kLogLevel)) kMinLogLevel) kMaxLogLevel in
      let inst := default [] (cf_strs c kInstanceName) in
      (exists b, mp_conf s' = mkConfOptions (default false (cf_bools c kDaemonMode)) (default false (cf_bools c kAutoRestart)) level
        (default 3 (cf_ints c kScanInterval)) h (default (str "logs") (cf_strs c kZkLogPath)) (default 3000 (cf_ints c kZkRecvTimeout)) b /\
        (ret = kSuccess -> b = true)) /\
      m_level (mp_log s') = level /\ kMinLogLevel <= level <= kMaxLogLevel /\
      instance_name (mp_mo s') = (if decide (inst = []) then kDefaultInstanceName else inst) /\
      conn_retry_count (mp_mo s') = default 3 (cf_ints c kConnRetryCount) /\ monitor_host_name (mp_mo s') = c_str (cf_host c).
Proof.
  intros Hc Hco Hmo entry. unfold Load. destruct (conf_load_ok kConfPath (mp_sys s) c Hc) as (w0 & Hl & Hc0).
  erewrite SM_bind_Some by (unfold on_sys; rewrite Hl; reflexivity). change (0 =? 0) with true. cbn [negb]. cbv beta iota.
  erewrite SM_bind_Some by reflexivity. rewrite Hco, Hmo. cbn [mp_conf mp_mo mp_log mp_sys]. clear Hl Hc.
  read_step Hc0 conf_bool_ok read_conf_conf kDaemonMode.
  read_step Hc0 conf_bool_ok read_conf_conf kAutoRestart.
  read_step Hc0 conf_int_ok read_conf_conf kLogLevel.
  do 2 (erewrite SM_bind_Some by reflexivity). cbn [mp_conf mp_mo mp_log mp_sys].
  match goal with |- context [(on_sys sys_hostname ≫= _) ?s1] => destruct (hostname_ok (mp_sys s1) c Hc0) as (w5 & Hh & Hc5) end.
  erewrite SM_bind_Some by (unfold on_sys; rewrite Hh; reflexivity). cbv beta iota. erewrite SM_bind_Some by reflexivity. cbn [mp_conf mp_mo mp_log mp_sys].
  match goal with |- context [(find_zk_host _ ≫= _) ?s1] => destruct (find_zk_host_ok c (StringSplit (c_str (cf_host c)) x2e) s1 Hc5) as (w6 & Hz & Hc6) end.
  fold entry in Hz. rewrite (SM_bind_Some _ _ _ _ _ Hz). cbn [mp_conf mp_mo mp_log mp_sys]. destruct entry as [h|] eqn:Ee.
  2:{ rewrite bool_decide_eq_false_2 by by intros [? ?]. eexists _, _. split; [reflexivity|]. cbn.
      split_and!; [done|split; [done|by intros [[? ?] ?]]|auto|done]. }
  rewrite bool_decide_eq_true_2 by by eexists. cbn [negb].
  match goal with |- context [load_rest ?s1] => destruct (load_rest_ok c s1 Hc6) as (ret & s' & Hr & Hf & Hret & Hlv & (b & Hb & Hok) & Hm) end.
  exists ret, s'. split; [exact Hr|]. clear Hr. cbn [mp_conf mp_mo] in *.
  split; [|split; [|split]].
  - split; [|done]. intros ->. by destruct Hret as [?|[?|?]].
  - rewrite Hf. replace (zk_log_path _) with (str "logs")
      by (by destruct (cf_bools c kDaemonMode), (cf_bools c kAutoRestart), (cf_ints c kLogLevel)).
    destruct (cf_strs c kZkLogPath) as [p|]; cbn [default from_option id]; [|split; [done|by intros [_ ?]]].
    split; [intros ->; split; [by eexists|done]|by intros [_ [= ->]]].
  - tauto.
  - intros h' [= <-]. cbv zeta. split.
    + exists b. split; [|done]. rewrite Hb. unfold default_conf.
      by destruct (cf_bools c kDaemonMode), (cf_bools c kAutoRestart), (cf_ints c kLogLevel).
    + rewrite Hlv, Hm. split; [by destruct (cf_bools c kDaemonMode), (cf_bools c kAutoRestart), (cf_ints c kLogLevel)|].
      split; [unfold kMinLogLevel, kMaxLogLevel; lia|]. by split_and!.
Qed.
End Load.
(** ** Examples *)

#[export] Program Instance mem_naps : NapLaws world.
Next Obligation. intros n w Hn. exists 0, w. split; [done|]. split; [lia|]. by split. Qed.

Lemma worker_restarts_witness :
  let w := mkWorld [mkLife [4; 4] (WSignaled 11); mkLife [4] (WExited 71); mkLife [] (WExited 0)] None ∅ in
  exists w', ProcessKeepalive 5 (-1) kPidFile w = Some ((1, 71), w') /\ quiet w' [mkLife [] (WExited 0)].
Proof.
  intros w. destruct (worker_restarts 0 w kPidFile [mkLife [4; 4] (WSignaled 11)] (mkLife [4] (WExited 71)) [mkLife [] (WExited 0)] 71)
    as (w' & Hrun & Hq & _); [split; reflexivity|repeat constructor|repeat constructor; by exists 11|reflexivity|].
  exists w'. exact (conj Hrun Hq).
Defined.

(** A host whose system is its configuration. *)
#[local] Instance cf_conf : SlashConf config := {|
  conf_load _ := mret 0; conf_bool k := gets (fun c => cf_bools c k); conf_int k := gets (fun c => cf_ints c k);
  conf_str k := gets (fun c => cf_strs c k)
|}.
#[local] Instance cf_sys : MonitorSys config := {|
  sys_popen _ := mret None; sys_pclose := mret tt; sys_readlink _ := mret None; sys_chdir _ := mret tt;
  sys_hostname := gets (fun c => Some (cf_host c))
|}.
#[local] Instance cf_zlog : ZooLog config := {| zlog_fopen _ := mret true; zlog_set := mret tt; zlog_fclose := mret tt |}.
#[local] Instance cf_laws : ConfLaws config.
Proof. by refine {| conf_is w c := w = c |}; intros; subst; repeat eexists. Defined.

Definition a_config : config :=
  mkConfig (fun k => if decide (k = kAutoRestart) then Some true else None) (fun k => if decide (k = kLogLevel) then Some 9 else None)
    (fun k => if decide (k = str "zookeeper.test") then Some (str "10.0.0.9:2181") else None) (str "web01.test.example").

Lemma load_options_witness :
  let split_dot := fun (s : bytes) (_ : byte) => [str "web01"; str "test"; str "example"] in
  exists s', Load split_dot (mkProcess default_conf default_options initial_mlog a_config) = Some (kSuccess, s') /\
    zk_host (mp_conf s') = str "10.0.0.9:2181" /\ log_level (mp_conf s') = 6 /\ auto_restart (mp_conf s') = true /\
    instance_name (mp_mo s') = kDefaultInstanceName.
Proof.
  intros split_dot. set (s := mkProcess default_conf default_options initial_mlog a_config).
  destruct (load_options split_dot a_config s) as (ret & s' & Hr & _ & _ & _ & Hh); [reflexivity..|].
  destruct (Hh (str "10.0.0.9:2181")) as ((b & Hb & _) & _ & _ & Hi & _); [vm_compute; reflexivity|].
  exists s'. assert (ret = kSuccess) as <- by (apply (f_equal (option_map fst)) in Hr; vm_compute in Hr; injection Hr as <-; reflexivity).
  split; [exact Hr|]. rewrite Hb, Hi. by split_and!.
Defined.
End MonitorMainThm.
