(* ===== verification/ZooWrite.v ===== *)
(** * Writing to ZooKeeper

    What the manager library relies on when it writes, as an interface, and a ZooKeeper in memory that has
    the behaviour: a tree in which every node has its parent. *)

From S2P Require Import Prelude Common Text Format Zoo.

(** The documented behaviour of the writing calls, on the trees of [ZkLaws]: a reply tells what was done, a
    failure may have had its effect or not, unless the client library found it before sending anything.
    Every node but those at the top has its parent. [zoo_create] reports a missing parent of a path that
    has one; no other node changes. *)
Class ZkWriteLaws (K : Type) `{!Zk K} `{!ZkWrite K} `{!ZkLaws K} := {
  zk_tree_closed : forall k zh m q n, zk_tree k zh m -> q <> [] -> is_Some (m !! (q ++ [x2f] ++ n)) -> is_Some (m !! q);
  zoo_create_reply : forall zh p v f k m, zk_tree k zh m ->
    exists ret k' m', zoo_create zh p v f k = Some (ret, k') /\ zk_tree k' zh m' /\
      (m' = m \/ (m !! p = None /\ m' = <[p := v]> m)) /\ (ret = ZOK -> m !! p = None /\ m' = <[p := v]> m) /\
      (ret = ZNODEEXISTS -> is_Some (m !! p)) /\
      (ret = ZNONODE -> exists q n, p = q ++ [x2f] ++ n /\ (x2f ∉ n) /\ q <> [] /\ m !! q = None);
  zoo_set_reply : forall zh p v k m, zk_tree k zh m ->
    exists ret k' m', zoo_set zh p v k = Some (ret, k') /\ zk_tree k' zh m' /\
      (m' = m \/ (is_Some (m !! p) /\ m' = <[p := v]> m)) /\ (ret = ZOK -> is_Some (m !! p) /\ m' = <[p := v]> m) /\
      (ret = ZNONODE -> m !! p = None);
  zoo_delete_reply : forall zh p k m, zk_tree k zh m ->
    exists ret k' m', zoo_delete zh p k = Some (ret, k') /\ zk_tree k' zh m' /\
      (m' = m \/ m' = delete p m) /\ (ret = ZOK -> is_Some (m !! p) /\ m' = delete p m) /\ (ret = ZNONODE -> m !! p = None) /\
      (Zoo.transient ret = true -> m' = m)
}.

Module ZooWrite.
Import Format Zoo.

Record tree := Tree { nodes : gmap bytes bytes }.

(** A call of the plain map that leaves it as it is. *)
Definition lift {A} (c : SM (gmap bytes bytes) A) : SM tree A := fun t =>
  match c (nodes t) with Some (a, m) => Some (a, Tree m) | None => None end.

(** No node lies below [p]. *)
Definition leaf (m : gmap bytes bytes) (p : bytes) : Prop := map_Forall (fun q _ => ~ (p ++ [x2f]) `prefix_of` q) m.
#[export] Instance leaf_dec m p : Decision (leaf m p).
Proof. unfold leaf. apply _. Defined.

(** Whether a node may be made at [p]. *)
Definition parent_exists (m : gmap bytes bytes) (p : bytes) : bool :=
  match rfind x2f p with Some i => (i =? 0)%nat || bool_decide (is_Some (m !! take i p)) | None => true end.

#[export] Instance tree_zk : Zk tree := {|
  zookeeper_init h t := lift (zookeeper_init h t);
  zookeeper_close zh := lift (zookeeper_close zh);
  zoo_state zh := lift (zoo_state zh);
  zoo_get zh p w := lift (zoo_get zh p w);
  zoo_create zh p v f := fun t =>
    match nodes t !! p with
    | Some _ => Some (ZNODEEXISTS, t)
    | None => if negb (parent_exists (nodes t) p) then Some (ZNONODE, t) else
              if blen v <? QCONF_MAX_VALUE_SIZE then Some (ZOK, Tree (<[p := v]> (nodes t))) else Some (ZBADARGUMENTS, t)
    end;
  zoo_get_children zh p w := lift (zoo_get_children zh p w);
  zoo_exists zh p w := lift (zoo_exists zh p w)
|}.

#[export] Instance tree_write : ZkWrite tree := {|
  zoo_set zh p v := lift (zoo_set zh p v);
  zoo_delete _ p := fun t =>
    match nodes t !! p with
    | Some _ => if decide (leaf (nodes t) p) then Some (ZOK, Tree (delete p (nodes t))) else Some (ZNOTEMPTY, t)
    | None => Some (ZNONODE, t)
    end;
  zoo_create_seq zh p v f := lift (zoo_create_seq zh p v f)
|}.

(** Every prefix of a path that ends before a slash is a node; decidable. *)
Definition closed (m : gmap bytes bytes) : Prop :=
  map_Forall (fun p _ => Forall (fun i => i = 0%nat \/ p !! i <> Some x2f \/ is_Some (m !! take i p)) (seq 0 (length p))) m.
#[export] Instance closed_dec m : Decision (closed m).
Proof. unfold closed. apply _. Defined.

Definition parents (m : gmap bytes bytes) : Prop := forall q n, q <> [] -> is_Some (m !! (q ++ [x2f] ++ n)) -> is_Some (m !! q).

Lemma closed_parents m : closed m <-> parents m.
Proof.
  split.
  - intros Hc q n Hq [v Hv]. specialize (Hc _ _ Hv). cbn beta in Hc. rewrite Forall_forall in Hc.
    destruct (Hc (length q)) as [E|[E|E]].
    + apply elem_of_seq. rewrite !length_app. simpl. lia.
    + by apply nil_length_inv in E.
    + destruct E. by rewrite lookup_app_r, Nat.sub_diag by lia.
    + by rewrite take_app_length in E.
  - intros Hp p v Hv. cbn beta. apply Forall_forall. intros i Hi%elem_of_seq.
    destruct (decide (i = 0%nat)) as [|Hi0]; [by left|]. right. destruct (decide (p !! i = Some x2f)) as [E|]; [right|by left].
    apply (Hp _ (drop (S i) p)); [intros E0; apply (f_equal length) in E0; rewrite length_take in E0; simpl in E0; lia|].
    cbn [app]. rewrite (take_drop_middle _ _ _ E). by eexists.
Qed.

Lemma insert_parents m p v : parent_exists m p = true -> parents m -> parents (<[p := v]> m).
Proof.
  intros He Hp q n Hq Hs. destruct (decide (q = p)) as [->|Hne]; [rewrite lookup_insert_eq; by eexists|]. rewrite lookup_insert_ne by done.
  destruct (decide (p = q ++ [x2f] ++ n)) as [->|Hne2]; [|rewrite lookup_insert_ne in Hs by done; by eapply Hp].
  unfold parent_exists in He. pose proof (rfind_spec x2f (q ++ [x2f] ++ n)) as Hr. destruct (rfind x2f (q ++ [x2f] ++ n)) as [i|].
  - destruct Hr as (a & b & E & Hb & ->). assert (Ha : take (length a) (q ++ [x2f] ++ n) = a) by by rewrite E, take_app_length.
    rewrite Ha in He. apply app_eq_inv in E as [(l & -> & E)|(l & -> & E)].
    + destruct l as [|c l]; [|injection E as <- E; destruct Hb; rewrite E, elem_of_app; right; by left].
      rewrite app_nil_r in *. apply orb_true_iff in He as [He%Nat.eqb_eq|He%bool_decide_eq_true]; [|done]. by apply nil_length_inv in He.
    + destruct l as [|c l]; [rewrite app_nil_r in He; apply orb_true_iff in He as [He%Nat.eqb_eq|He%bool_decide_eq_true]; [by apply nil_length_inv in He|done]|].
      injection E as <- E. apply orb_true_iff in He as [He%Nat.eqb_eq|He%bool_decide_eq_true]; [by destruct q|]. by eapply (Hp q l).
  - destruct Hr. rewrite !elem_of_app. right. left. by left.
Qed.

Lemma delete_parents m p : leaf m p -> parents m -> parents (delete p m).
Proof.
  intros Hl Hp q n Hq [w Hs]. apply lookup_delete_Some in Hs as [Hne Hs]. destruct (decide (q = p)) as [->|].
  - destruct (Hl _ _ Hs). exists n. by rewrite <- app_assoc.
  - rewrite lookup_delete_ne by done. eapply Hp; [done|by eexists].
Qed.

(** A session with the tree. *)
Definition session (t : tree) (m : gmap bytes bytes) : Prop := nodes t = m /\ small_tree m /\ closed m.

Lemma lift_ok {A} (c : SM (gmap bytes bytes) A) t m (Q : A -> Prop) :
  session t m -> (exists a k', c m = Some (a, k') /\ k' = m /\ Q a) -> exists a t', lift c t = Some (a, t') /\ session t' m /\ Q a.
Proof. intros (<- & Hs & Hc) (a & k' & Hr & -> & HQ). exists a, (Tree (nodes t)). split; [unfold lift; by rewrite Hr|done]. Qed.

#[export] Program Instance tree_laws : ZkLaws tree := {| zk_tree t zh m := session t m; zk_serves t h m := session t m |}.
Next Obligation. by intros t zh m (_ & ? & _). Qed.
Next Obligation.
  intros zh p w t m Ht. destruct (lift_ok (zoo_get zh p w) t m (fun a => (a.1 = ZOK -> m !! p = Some (default [] a.2)) /\ (a.1 = ZNONODE -> m !! p = None)) Ht)
    as ([ret d] & t' & ? & ? & ?); [|by exists ret, d, t'].
  destruct (Zoo.zoo_get_ok zh p w m m) as (ret & d & k' & ? & [? ?] & ? & ?); [by split; [|apply Ht]|]. by exists (ret, d), k'.
Qed.
Next Obligation.
  intros zh p v f t m (<- & Hs & Hc). cbn. destruct (nodes t !! p) eqn:E; [|destruct (parent_exists (nodes t) p) eqn:Ep;
    cbn [negb]; [destruct (Z.ltb_spec (blen v) QCONF_MAX_VALUE_SIZE)|]]; eexists _, _, _; (split; [done|]).
  - split; [done|]. split; auto.
  - split; [split; [done|]; split; [by apply map_Forall_insert_2|]; apply closed_parents, insert_parents; [done|by apply closed_parents]|].
    split; [by right|]. intros _. cbn [nodes]. rewrite lookup_insert_eq. by eexists.
  - split; [done|]. split; [by left|]. by intros [?|?].
  - split; [done|]. split; [by left|]. by intros [?|?].
Qed.
Next Obligation.
  intros zh p w t m Ht. destruct (lift_ok (zoo_get_children zh p w) t m (fun a => (a.1 = ZOK -> children_of m p a.2) /\ (a.1 = ZNONODE -> m !! p = None)) Ht)
    as ([ret d] & t' & ? & ? & ?); [|by exists ret, d, t'].
  destruct (Zoo.zoo_get_children_ok zh p w m m) as (ret & d & k' & ? & [? ?] & ? & ?); [by split; [|apply Ht]|]. by exists (ret, d), k'.
Qed.
Next Obligation.
  intros zh p w t m Ht. destruct (lift_ok (zoo_exists zh p w) t m (fun ret => (ret = ZOK -> is_Some (m !! p)) /\ (ret = ZNONODE -> m !! p = None)) Ht)
    as (ret & t' & ? & ? & ?); [|by exists ret, t'].
  destruct (Zoo.zoo_exists_ok zh p w m m) as (ret & k' & ? & [? ?] & ? & ?); [by split; [|apply Ht]|]. by exists ret, k'.
Qed.
Next Obligation. intros zh t m Ht. exists 3, t. split; [by destruct t|done]. Qed.
Next Obligation. intros h n t m Ht. exists 1, t. split; [by destruct t|done]. Qed.
Next Obligation. intros zh t _. exists t. split; [by destruct t|done]. Qed.

#[export] Program Instance tree_write_laws : ZkWriteLaws tree.
Next Obligation. intros t zh m q n (_ & _ & Hc). by apply closed_parents. Qed.
Next Obligation.
  intros zh p v f t m (<- & Hs & Hc). cbn. destruct (nodes t !! p) eqn:E; [|destruct (parent_exists (nodes t) p) eqn:Ep;
    cbn [negb]; [destruct (Z.ltb_spec (blen v) QCONF_MAX_VALUE_SIZE)|]]; eexists _, _, _; (split; [done|]).
  - split; [done|]. split_and!; [by left|done|by eexists|done].
  - split; [split; [done|]; split; [by apply map_Forall_insert_2|]; apply closed_parents, insert_parents; [done|by apply closed_parents]|].
    split_and!; [by right|done|done|done].
  - split; [done|]. split_and!; [by left|done|done|done].
  - split; [done|]. split_and!; [by left|done|done|]. intros _. unfold parent_exists in Ep. pose proof (rfind_spec x2f p) as Hr.
    destruct (rfind x2f p) as [i|]; [|done]. destruct Hr as (a & b & -> & Hb & ->). rewrite take_app_length in Ep.
    apply orb_false_iff in Ep as [Ha%Nat.eqb_neq Hn%bool_decide_eq_false]. exists a, b. split; [done|]. split; [done|].
    split; [by intros ->|]. by apply eq_None_not_Some.
Qed.
Next Obligation.
  intros zh p v t m (<- & Hs & Hc). cbn. unfold lift. cbn. destruct (nodes t !! p) eqn:E; [destruct (Z.ltb_spec (blen v) QCONF_MAX_VALUE_SIZE)|];
    eexists _, _, _; (split; [done|]).
  - split; [split; [done|]; split; [by apply map_Forall_insert_2|]; apply closed_parents|].
    { intros q n Hq Hsm. apply closed_parents in Hc. cbn [nodes].
      assert (Hdom : forall k, is_Some (<[p := v]> (nodes t) !! k) <-> is_Some (nodes t !! k)).
      { intros k. destruct (decide (k = p)) as [->|]; [rewrite lookup_insert_eq, E; split; by eexists|by rewrite lookup_insert_ne]. }
      rewrite Hdom in *. by eapply Hc. }
    split_and!; [right; split; [by eexists|done]|split; [by eexists|done]|done].
  - split; [done|]. split_and!; [by left|done|done].
  - split; [done|]. split_and!; [by left|done|done].
Qed.
Next Obligation.
  intros zh p t m (<- & Hs & Hc). cbn. destruct (nodes t !! p) eqn:E; [destruct (decide (leaf (nodes t) p)) as [Hl|]|];
    eexists _, _, _; (split; [done|]).
  - split; [split; [done|]; split; [by apply map_Forall_delete|]; apply closed_parents, delete_parents; [done|by apply closed_parents]|].
    split_and!; [by right|split; [by eexists|done]|done|done].
  - split; [done|]. split_and!; [by left|done|done|done].
  - split; [done|]. split_and!; [by left|done|done|done].
Qed.

(** A closed tree with short values, by computation. *)
Ltac in_session := split; [reflexivity|split; apply (bool_decide_unpack _); vm_compute; exact I].
End ZooWrite.
