(* ===== verification/Manager.v ===== *)
(** * The manager library ([src/manager/src/c/qconf_zk.cc])

    The class [QConfZK] that operators' tools use to write the configuration: nodes, the services with
    their status, and gray releases. *)

From S2P Require Import Prelude Common Text Md5 Format FormatThm Config Zoo Gray.

Module Manager.
Import Md5 Format Config Zoo Gray.

Definition QCONF_ERR_ZOO_NOTEMPTY : Z := 100.
Definition QCONF_ERR_ZOO_NOT_EXIST : Z := 102.
Definition QCONF_ERR_ZOO_ALREADY_EXIST : Z := 103.
Definition QCONF_ERR_NODE_TYPE : Z := 110.
Definition QCONF_ERR_GRAY_SERIALIZE : Z := 122.
Definition QCONF_ERR_GRAY_SET_CONTENT : Z := 123.
Definition QCONF_ERR_GRAY_SET_CLIENTS : Z := 125.
Definition QCONF_ERR_GRAY_SET_BACKLINK : Z := 126.
Definition QCONF_ERR_GRAY_GET_CONTENT : Z := 127.
Definition QCONF_ERR_GRAY_GET_BACKLINK : Z := 130.
Definition QCONF_ERR_GRAY_DELETE_CONTENT : Z := 131.
Definition QCONF_ERR_GRAY_DELETE_CLIENTS : Z := 133.
Definition QCONF_ERR_GRAY_DELETE_BACKLINK : Z := 134.
Definition QCONF_ERR_GRAY_COMMIT : Z := 135.

Definition QCONF_NODE_TYPE_NODE : byte := x32.
Definition QCONF_NODE_TYPE_SERVICE : byte := x33.
Definition QCONF_SERV_GROUP_PREFIX : bytes := str "/qconf_monitor_lock_node/default_instance/md5_list".
Definition QCONF_NOTIFY_BACKLINK_PREFIX : bytes := str "/qconf/__qconf_notify/backlink".
Definition QCONF_NOTIFY_BACKLINK_DELIM : byte := x3b.
Definition QCONF_GRAY_CONTENT_MAX_SIZE : Z := 102400.

(** ** Paths and numbers *)

(** [find_last_of] gives [npos] without a slash; the whole path is its own parent then. *)
Definition parent_node (path : bytes) : bytes := match rfind x2f path with Some pos => take pos path | None => path end.
Definition serv_path (node serv : bytes) : bytes := node ++ str "/" ++ serv.
Definition integer_to_string (integer : Z) : bytes := print_dec integer.
Definition string_to_integer (cnt : bytes) (integer : Z) : Z * Z := get_integer cnt integer.

(** The class [A-Za-z0-9_:/\.\-] of the pattern, in which a backslash stands for itself. *)
Definition path_char (b : byte) : bool :=
  let c := b2z b in
  ((65 <=? c) && (c <=? 90)) || ((97 <=? c) && (c <=? 122)) || ((48 <=? c) && (c <=? 57)) ||
  bool_decide (b ∈ [x5f; x3a; x2f; x5c; x2e; x2d]).

(** [find_first_not_of] and [find_last_not_of] a slash. *)
Fixpoint drop_slashes (s : bytes) : bytes :=
  match s with b :: s' => if decide (b = x2f) then drop_slashes s' else s | [] => [] end.

Definition path_normalize (path : bytes) : Z * bytes :=
  let kept := reverse (drop_slashes (reverse path)) in
  if decide (kept = []) then (QCONF_ERR_OTHER, str "/") else (QCONF_OK, str "/" ++ drop_slashes kept).

(** The path is refused before the result is touched, or normalized. *)
Definition zk_path (path new_path : bytes) : Z * bytes :=
  if decide (path = []) then (QCONF_ERR_PARAM, new_path) else
  if negb (bool_decide (c_str path <> []) && forallb path_char (c_str path)) then (QCONF_ERR_PARAM, new_path) else
  path_normalize path.

Definition check_service (path : bytes) (status : Z) : bool :=
  if decide (path = []) then false
  else (status =? STATUS_UP) || (status =? STATUS_DOWN) || (status =? STATUS_OFFLINE).

(** The node that registers a service with the monitors. *)
Definition get_monitor_node (path : bytes) : bytes :=
  QCONF_SERV_GROUP_PREFIX ++ str "/" ++ qhashmd5_bin_to_hex (md5_of path).

Section WithZk.
Context {K : Type} `{Zk K} `{ZkWrite K}.
Abbreviation ZM := (SM K).

(** ** Single calls *)

(** The result and the handle of the object. *)
Definition zk_init (host : bytes) (zh : Z) : ZM (Z * Z) :=
  if decide (host = []) then mret (QCONF_ERR_PARAM, zh) else
  zh ← zookeeper_init (c_str host) 29999;
  mret (if zh =? 0 then QCONF_ERR_ZOO_FAILED else QCONF_OK, zh).
Definition zk_close (zh : Z) : ZM unit := zookeeper_close zh.

(** What a reply of [zoo_create] means: a result, or that the parent is missing. *)
Definition create_reply (ret : Z) : option (Z + unit) :=
  if ret =? ZOK then Some (inl QCONF_OK)
  else if ret =? ZNODEEXISTS then Some (inl QCONF_ERR_ZOO_ALREADY_EXIST)
  else if ret =? ZNONODE then Some (inr tt)
  else if transient ret then None
  else Some (inl QCONF_ERR_ZOO_FAILED).

Fixpoint zk_create (fuel : nat) (zh : Z) (path value : bytes) : ZM Z :=
  match fuel with
  | O => undefined
  | S fuel' =>
      r ← retry QCONF_GET_RETRIES (zoo_create zh (c_str path) value 0) create_reply (inl QCONF_ERR_ZOO_FAILED);
      match r with
      | inl ret => mret ret
      | inr tt =>
          ret ← zk_create fuel' zh (parent_node path) [];
          if negb (ret =? QCONF_OK) && negb (ret =? QCONF_ERR_ZOO_ALREADY_EXIST) then mret ret
          else zk_create fuel' zh path value
      end
  end.

(** The result and [exist]. *)
Definition zk_exist (zh : Z) (path : bytes) : ZM (Z * bool) :=
  retry QCONF_GET_RETRIES (zoo_exists zh (c_str path) false)
    (fun ret => if ret =? ZOK then Some (QCONF_OK, true) else if ret =? ZNONODE then Some (QCONF_OK, false)
                else if transient ret then None else Some (QCONF_ERR_ZOO_FAILED, false)) (QCONF_ERR_ZOO_FAILED, false).

Definition zk_modify (zh : Z) (path value : bytes) : ZM Z :=
  retry QCONF_GET_RETRIES (zoo_set zh (c_str path) value)
    (fun ret => if ret =? ZOK then Some QCONF_OK else if ret =? ZNONODE then Some QCONF_ERR_ZOO_NOT_EXIST
                else if transient ret then None else Some QCONF_ERR_ZOO_FAILED) QCONF_ERR_ZOO_FAILED.

Definition zk_get (zh : Z) (path value : bytes) : ZM (Z * bytes) :=
  retry QCONF_GET_RETRIES (zoo_get zh (c_str path) false)
    (fun '(ret, data) => if ret =? ZOK then Some (QCONF_OK, default [] data)
                else if ret =? ZNONODE then Some (QCONF_ERR_ZOO_NOT_EXIST, value)
                else if transient ret then None else Some (QCONF_ERR_ZOO_FAILED, value)) (QCONF_ERR_ZOO_FAILED, value).

Definition zk_delete_exist (zh : Z) (path : bytes) : ZM Z :=
  retry QCONF_GET_RETRIES (zoo_delete zh (c_str path))
    (fun ret => if ret =? ZOK then Some QCONF_OK else if ret =? ZNONODE then Some QCONF_ERR_ZOO_NOT_EXIST
                else if ret =? ZNOTEMPTY then Some QCONF_ERR_ZOO_NOTEMPTY
                else if transient ret then None else Some QCONF_ERR_ZOO_FAILED) QCONF_ERR_ZOO_FAILED.

Definition zk_delete (zh : Z) (path : bytes) : ZM Z :=
  ret ← zk_delete_exist zh path;
  if ret =? QCONF_ERR_ZOO_NOT_EXIST then mret QCONF_OK else mret ret.

(** The handle is open and the path is well formed: the normalized path. *)
Definition checked (zh : Z) (node : bytes) : option bytes :=
  if zh =? 0 then None else let '(ret, path) := zk_path node [] in if ret =? QCONF_OK then Some path else None.

(** ** Nodes *)

Section WithFuel.
Variable fuel : nat.

Definition zk_node_delete (zh : Z) (node : bytes) : ZM Z :=
  match checked zh node with None => mret QCONF_ERR_PARAM | Some path => zk_delete zh path end.

Definition zk_node_set (zh : Z) (node value : bytes) : ZM Z :=
  match checked zh node with
  | None => mret QCONF_ERR_PARAM
  | Some path =>
      ret ← zk_modify zh path value;
      if ret =? QCONF_ERR_ZOO_NOT_EXIST then zk_create fuel zh path value else mret ret
  end.

Definition zk_node_get (zh : Z) (node buf : bytes) : ZM (Z * bytes) :=
  match checked zh node with None => mret (QCONF_ERR_PARAM, buf) | Some path => zk_get zh path buf end.

Definition zk_list (zh : Z) (node : bytes) (children : gset bytes) : ZM (Z * gset bytes) :=
  match checked zh node with
  | None => mret (QCONF_ERR_PARAM, children)
  | Some path =>
      retry QCONF_GET_RETRIES (zoo_get_children zh (c_str path) false)
        (fun '(ret, names) => if ret =? ZOK then Some (QCONF_OK, list_to_set (c_str <$> names))
                    else if ret =? ZNONODE then Some (QCONF_ERR_ZOO_NOT_EXIST, ∅)
                    else if transient ret then None else Some (QCONF_ERR_ZOO_FAILED, ∅)) (QCONF_ERR_ZOO_FAILED, ∅)
  end.

(** [map::insert]. *)
Definition insert_new {A} (k : bytes) (v : A) (m : gmap bytes A) : gmap bytes A :=
  match m !! k with Some _ => m | None => <[k := v]> m end.

Fixpoint values_loop (zh : Z) (path : bytes) (nodes : list bytes) (children : gmap bytes bytes) : ZM (Z * gmap bytes bytes) :=
  match nodes with
  | [] => mret (QCONF_OK, children)
  | n :: nodes' =>
      '(ret, value) ← zk_get zh (path ++ str "/" ++ n) [];
      if negb (ret =? QCONF_OK) then mret (ret, children) else values_loop zh path nodes' (insert_new n value children)
  end.

Definition zk_list_with_values (zh : Z) (node : bytes) (children : gmap bytes bytes) : ZM (Z * gmap bytes bytes) :=
  match checked zh node with
  | None => mret (QCONF_ERR_PARAM, children)
  | Some path =>
      '(ret, nodes) ← zk_list zh path ∅;
      if ret =? QCONF_OK then values_loop zh path (in_order (elements nodes)) children else mret (ret, children)
  end.

(** ** Services *)

Definition zk_monitor_node_create (zh : Z) (path : bytes) : ZM Z :=
  ret ← zk_create fuel zh (get_monitor_node path) path;
  mret (if ret =? QCONF_ERR_ZOO_ALREADY_EXIST then QCONF_OK else ret).

Definition zk_monitor_node_remove (zh : Z) (path : bytes) : ZM Z := zk_delete zh (get_monitor_node path).

Definition check_node_type (zh : Z) (path : bytes) (node_type : byte) : ZM (Z * byte) :=
  '(ret, exists_) ← zk_exist zh (get_monitor_node path);
  if negb (ret =? QCONF_OK) then mret (QCONF_ERR_ZOO_FAILED, node_type)
  else mret (QCONF_OK, if (exists_ : bool) then QCONF_NODE_TYPE_SERVICE else QCONF_NODE_TYPE_NODE).

(** The common start of the operations on a service: the error, or its path. *)
Definition service_of (zh : Z) (node : bytes) : ZM (Z + bytes) :=
  match checked zh node with
  | None => mret (inl QCONF_ERR_PARAM)
  | Some path =>
      '(ret, data_type) ← check_node_type zh path QCONF_NODE_TYPE_NODE;
      if negb (ret =? QCONF_OK) then mret (inl ret) else
      if decide (data_type = QCONF_NODE_TYPE_NODE) then mret (inl QCONF_ERR_NODE_TYPE) else mret (inr path)
  end.

Definition zk_service_add (zh : Z) (node serv : bytes) (status : Z) : ZM Z :=
  match checked zh node with
  | None => mret QCONF_ERR_PARAM
  | Some path =>
      if negb (check_service serv status) then mret QCONF_ERR_PARAM else
      ret ← zk_monitor_node_create zh path;
      if negb (ret =? QCONF_OK) then mret QCONF_ERR_ZOO_FAILED else
      let spath := serv_path path serv in
      let sstatus := integer_to_string status in
      ret ← zk_modify zh spath sstatus;
      if ret =? QCONF_ERR_ZOO_NOT_EXIST then zk_create fuel zh spath sstatus else mret ret
  end.

Fixpoint add_loop (zh : Z) (path : bytes) (servs : list (bytes * Z)) : ZM Z :=
  match servs with
  | [] => mret QCONF_OK
  | (serv, status) :: rest =>
      ret ← zk_service_add zh path serv status;
      if negb (ret =? QCONF_OK) then mret ret else add_loop zh path rest
  end.

Fixpoint delete_loop (zh : Z) (path : bytes) (servs : list bytes) : ZM Z :=
  match servs with
  | [] => mret QCONF_OK
  | serv :: rest =>
      ret ← zk_delete zh (serv_path path serv);
      if negb (ret =? QCONF_OK) then mret ret else delete_loop zh path rest
  end.

(** A map of services, in the order of its keys. *)
Definition in_key_order {A} (m : gmap bytes A) : list (bytes * A) :=
  omap (fun k => pair k <$> m !! k) (in_order (elements (dom m))).

Definition zk_services_set (zh : Z) (node : bytes) (servs : gmap bytes Z) : ZM Z :=
  match checked zh node with
  | None => mret QCONF_ERR_PARAM
  | Some path =>
      if bool_decide (servs = ∅) || negb (forallb (fun kv => check_service kv.1 kv.2) (in_key_order servs)) then mret QCONF_ERR_PARAM else
      ret ← zk_monitor_node_create zh path;
      if negb (ret =? QCONF_OK) then mret QCONF_ERR_ZOO_FAILED else
      '(ret, old_servs) ← zk_list zh path ∅;
      ret ← (if ret =? QCONF_ERR_ZOO_NOT_EXIST then zk_create fuel zh path [] else mret ret);
      if negb (ret =? QCONF_OK) then mret ret else
      ret ← add_loop zh path (in_key_order servs);
      if negb (ret =? QCONF_OK) then mret ret else
      delete_loop zh path (in_order (elements (old_servs ∖ dom servs)))
  end.

Definition zk_service_delete (zh : Z) (node serv : bytes) : ZM Z :=
  r ← service_of zh node;
  match r with inl ret => mret ret | inr path => zk_delete zh (serv_path path serv) end.

Definition zk_service_clear (zh : Z) (node : bytes) : ZM Z :=
  r ← service_of zh node;
  match r with
  | inl ret => mret ret
  | inr path =>
      '(ret, servs) ← zk_list zh path ∅;
      if negb (ret =? QCONF_OK) then mret ret else delete_loop zh path (in_order (elements servs))
  end.

Definition zk_service_up (zh : Z) (node serv : bytes) : ZM Z :=
  r ← service_of zh node;
  match r with inl ret => mret ret | inr path => zk_modify zh (serv_path path serv) (integer_to_string STATUS_UP) end.
Definition zk_service_down (zh : Z) (node serv : bytes) : ZM Z :=
  r ← service_of zh node;
  match r with inl ret => mret ret | inr path => zk_modify zh (serv_path path serv) (integer_to_string STATUS_DOWN) end.
Definition zk_service_offline (zh : Z) (node serv : bytes) : ZM Z :=
  r ← service_of zh node;
  match r with inl ret => mret ret | inr path => zk_modify zh (serv_path path serv) (integer_to_string STATUS_OFFLINE) end.

Definition zk_services_get (zh : Z) (node : bytes) (servs : gset bytes) : ZM (Z * gset bytes) :=
  r ← service_of zh node;
  match r with inl ret => mret (ret, servs) | inr path => zk_list zh path servs end.

Definition zk_service_status_get (zh : Z) (path : bytes) (status : Z) : ZM (Z * Z) :=
  '(ret, buf) ← zk_get zh path [];
  if negb (ret =? QCONF_OK) then mret (QCONF_ERR_OTHER, status) else
  let '(ret, value) := string_to_integer buf (-1) in
  if negb (ret =? QCONF_OK) then mret (QCONF_ERR_OTHER, status) else
  if (value =? STATUS_UP) || (value =? STATUS_DOWN) || (value =? STATUS_OFFLINE) then mret (QCONF_OK, value)
  else mret (QCONF_ERR_OTHER, status).

Fixpoint statuses_loop (zh : Z) (path : bytes) (nodes : list bytes) (servs : gmap bytes Z) : ZM (Z * gmap bytes Z) :=
  match nodes with
  | [] => mret (QCONF_OK, servs)
  | n :: nodes' =>
      '(ret, s) ← zk_service_status_get zh (serv_path path n) 0;
      if negb (ret =? QCONF_OK) then mret (QCONF_ERR_ZOO_FAILED, servs) else statuses_loop zh path nodes' (insert_new n s servs)
  end.

(** A failed look at the type is reported as a wrong parameter here. *)
Definition zk_services_get_with_status (zh : Z) (node : bytes) (servs : gmap bytes Z) : ZM (Z * gmap bytes Z) :=
  match checked zh node with
  | None => mret (QCONF_ERR_PARAM, servs)
  | Some path =>
      '(ret, data_type) ← check_node_type zh path QCONF_NODE_TYPE_NODE;
      if negb (ret =? QCONF_OK) then mret (QCONF_ERR_PARAM, servs) else
      if decide (data_type = QCONF_NODE_TYPE_NODE) then mret (QCONF_ERR_NODE_TYPE, servs) else
      '(ret, nodes) ← zk_services_get zh path ∅;
      if ret =? QCONF_OK then statuses_loop zh path (in_order (elements nodes)) servs else mret (ret, servs)
  end.

(** ** Gray releases *)

Fixpoint check_nodes_loop (zh : Z) (nodes : list (bytes * bytes)) (new_nodes : gmap bytes bytes) : ZM (Z * gmap bytes bytes) :=
  match nodes with
  | [] => mret (QCONF_OK, new_nodes)
  | (raw, value) :: rest =>
      let '(ret, zpath) := path_normalize raw in
      if negb (ret =? QCONF_OK) then mret (QCONF_ERR_OTHER, ∅) else
      '(ret, exists_) ← zk_exist zh zpath;
      if negb (ret =? QCONF_OK) || negb exists_ || (QCONF_MAX_VALUE_SIZE - 100 <? blen value) then mret (QCONF_ERR_OTHER, ∅) else
      check_nodes_loop zh rest (insert_new zpath value new_nodes)
  end.

Definition zk_gray_check_nodes (zh : Z) (nodes new_nodes : gmap bytes bytes) : ZM (Z * gmap bytes bytes) :=
  if bool_decide (nodes = ∅) then mret (QCONF_ERR_PARAM, new_nodes) else check_nodes_loop zh (in_key_order nodes) ∅.

Fixpoint check_clients_loop (zh : Z) (clients : list bytes) : ZM Z :=
  match clients with
  | [] => mret QCONF_OK
  | c :: rest =>
      '(ret, exists_) ← zk_exist zh (QCONF_NOTIFY_CLIENT_PREFIX ++ str "/" ++ c);
      if negb (ret =? QCONF_OK) || exists_ then mret QCONF_ERR_OTHER else check_clients_loop zh rest
  end.

Definition zk_gray_check_chients (zh : Z) (clients : list bytes) : ZM Z :=
  if decide (clients = []) then mret QCONF_ERR_PARAM else check_clients_loop zh clients.

(** The time is [gettimeofday]'s; the text has no blank, so [operator>>] reads it whole. *)
Definition gray_generate_id (tv_sec tv_usec : Z) : bytes := str "GRAYID" ++ print_dec tv_sec ++ str "-" ++ print_dec tv_usec.

Definition gray_serialize_content (nodes : gmap bytes bytes) (content : bytes) : option (Z * bytes) :=
  if bool_decide (nodes = ∅) then Some (QCONF_ERR_PARAM, content) else
  let graynodes : gset bytes := list_to_set ((fun kv =>
    nodeval_to_tblval (serialize_to_tblkey QCONF_DATA_TYPE_NODE (str "idc") kv.1).2 kv.2) <$> in_key_order nodes) in
  match graynodeval_to_tblval (in_order (elements graynodes)) with Some c => Some (QCONF_OK, c) | None => None end.

Definition gray_deserialize_content (content : bytes) (nodes : list (bytes * bytes)) : Z * list (bytes * bytes) :=
  if decide (content = []) then (QCONF_ERR_PARAM, nodes) else
  let '(ret, vnodes) := tblval_to_graynodeval content in
  if negb (ret =? QCONF_OK) then (QCONF_ERR_OTHER, nodes) else
  (QCONF_OK, nodes ++ ((fun i => let '(_, (gray_val, _, gray_path)) := tblval_to_nodeval_key i [] [] [] in (gray_path, gray_val)) <$>
                          in_order (elements vnodes))).

(** The content, cut into nodes. *)
Fixpoint create_content (n : nat) (zh : Z) (pfx content : bytes) (index node_num : Z) : ZM Z :=
  match n with
  | O => undefined
  | S n' =>
      let current_content := take (Z.to_nat QCONF_GRAY_CONTENT_MAX_SIZE) (drop (Z.to_nat index) content) in
      ret ← zk_create fuel zh (pfx ++ str "_" ++ integer_to_string node_num) current_content;
      if negb (ret =? QCONF_OK) then mret QCONF_ERR_GRAY_SET_CONTENT else
      let index := u32 (index + QCONF_GRAY_CONTENT_MAX_SIZE) in
      if index <? blen content then create_content n' zh pfx content index (u32 (node_num + 1)) else mret QCONF_OK
  end.

Fixpoint create_clients (zh : Z) (clients : list bytes) (gray_id bl_content : bytes) : ZM (Z * bytes) :=
  match clients with
  | [] => mret (QCONF_OK, bl_content)
  | c :: rest =>
      ret ← zk_create fuel zh (QCONF_NOTIFY_CLIENT_PREFIX ++ str "/" ++ c) gray_id;
      if negb (ret =? QCONF_OK) then mret (QCONF_ERR_GRAY_SET_CLIENTS, bl_content) else
      create_clients zh rest gray_id (bl_content ++ c ++ [QCONF_NOTIFY_BACKLINK_DELIM])
  end.

(** What [zk_gray_begin] does with the serialized content. *)
Definition gray_publish (n : nat) (zh : Z) (clients : list bytes) (tmp_gray_id content gray_id : bytes) : ZM (Z * bytes) :=
  ret ← create_content n zh (QCONF_NOTIFY_CONTENT_PREFIX ++ str "/" ++ tmp_gray_id) content 0 0;
  if negb (ret =? QCONF_OK) then mret (ret, gray_id) else
  '(ret, bl_content) ← create_clients zh clients tmp_gray_id [];
  if negb (ret =? QCONF_OK) then mret (ret, gray_id) else
  ret ← zk_create fuel zh (QCONF_NOTIFY_BACKLINK_PREFIX ++ str "/" ++ tmp_gray_id) bl_content;
  if negb (ret =? QCONF_OK) then mret (QCONF_ERR_GRAY_SET_BACKLINK, gray_id) else mret (QCONF_OK, tmp_gray_id).

Definition zk_gray_begin (n : nat) (zh : Z) (raw_nodes : gmap bytes bytes) (clients : list bytes) (tv_sec tv_usec : Z) (gray_id : bytes)
    : ZM (Z * bytes) :=
  '(ret, nodes) ← zk_gray_check_nodes zh raw_nodes ∅;
  if negb (ret =? QCONF_OK) then mret (QCONF_ERR_PARAM, gray_id) else
  ret ← zk_gray_check_chients zh clients;
  if negb (ret =? QCONF_OK) then mret (QCONF_ERR_PARAM, gray_id) else
  match gray_serialize_content nodes [] with
  | None => undefined
  | Some (ret, content) =>
      if negb (ret =? QCONF_OK) then mret (QCONF_ERR_GRAY_SERIALIZE, gray_id) else
      gray_publish n zh clients (gray_generate_id tv_sec tv_usec) content gray_id
  end.

(** The pieces that [getline] reads up to a delimiter. *)
Fixpoint getline_items (delim : byte) (s item : bytes) : list bytes :=
  match s with
  | [] => if decide (item = []) then [] else [item]
  | b :: s' => if decide (b = delim) then item :: getline_items delim s' [] else getline_items delim s' (item ++ [b])
  end.

Fixpoint delete_clients (zh : Z) (items : list bytes) : ZM Z :=
  match items with
  | [] => mret QCONF_OK
  | item :: rest =>
      ret ← zk_delete zh (QCONF_NOTIFY_CLIENT_PREFIX ++ str "/" ++ item);
      if negb (ret =? QCONF_OK) then mret QCONF_ERR_GRAY_DELETE_CLIENTS else delete_clients zh rest
  end.

(** The result of the call that ends the loop. *)
Fixpoint delete_content (n : nat) (zh : Z) (pfx : bytes) (index : Z) : ZM Z :=
  match n with
  | O => undefined
  | S n' =>
      ret ← zk_delete_exist zh (pfx ++ str "_" ++ integer_to_string index);
      if ret =? QCONF_OK then delete_content n' zh pfx (index + 1) else mret ret
  end.

Definition zk_gray_delete_notify (n : nat) (zh : Z) (gray_id : bytes) : ZM Z :=
  '(ret, bl_content) ← zk_get zh (QCONF_NOTIFY_BACKLINK_PREFIX ++ str "/" ++ gray_id) [];
  if negb (ret =? QCONF_OK) then mret QCONF_ERR_GRAY_GET_BACKLINK else
  ret ← delete_clients zh (getline_items QCONF_NOTIFY_BACKLINK_DELIM bl_content []);
  if negb (ret =? QCONF_OK) then mret ret else
  ret ← delete_content n zh (QCONF_NOTIFY_CONTENT_PREFIX ++ str "/" ++ gray_id) 0;
  if negb (ret =? QCONF_ERR_ZOO_NOT_EXIST) then mret QCONF_ERR_GRAY_DELETE_CONTENT else
  ret ← zk_delete zh (QCONF_NOTIFY_BACKLINK_PREFIX ++ str "/" ++ gray_id);
  mret (if ret =? QCONF_OK then QCONF_OK else QCONF_ERR_GRAY_DELETE_BACKLINK).

Definition zk_gray_rollback (n : nat) (zh : Z) (gray_id : bytes) : ZM Z := zk_gray_delete_notify n zh gray_id.

Fixpoint get_content (n : nat) (zh : Z) (pfx : bytes) (index : Z) (scontent : bytes) : ZM (Z * bytes) :=
  match n with
  | O => undefined
  | S n' =>
      '(ret, tmp_content) ← zk_get zh (pfx ++ str "_" ++ integer_to_string index) [];
      if ret =? QCONF_OK then get_content n' zh pfx (index + 1) (scontent ++ tmp_content)
      else if ret =? QCONF_ERR_ZOO_NOT_EXIST then mret (QCONF_OK, scontent) else mret (ret, scontent)
  end.

Definition zk_gray_get_content (n : nat) (zh : Z) (gray_id : bytes) (nodes : list (bytes * bytes)) : ZM (Z * list (bytes * bytes)) :=
  '(ret, scontent) ← get_content n zh (QCONF_NOTIFY_CONTENT_PREFIX ++ str "/" ++ gray_id) 0 [];
  if negb (ret =? QCONF_OK) then mret (ret, nodes) else
  let '(ret, nodes) := gray_deserialize_content scontent nodes in
  mret (if ret =? QCONF_OK then QCONF_OK else QCONF_ERR_OTHER, nodes).

Fixpoint set_loop (zh : Z) (nodes : list (bytes * bytes)) : ZM Z :=
  match nodes with
  | [] => mret QCONF_OK
  | (path, value) :: rest =>
      ret ← zk_node_set zh path value;
      if negb (ret =? QCONF_OK) then mret QCONF_ERR_GRAY_COMMIT else set_loop zh rest
  end.

Definition zk_gray_commit (n : nat) (zh : Z) (gray_id : bytes) : ZM Z :=
  '(ret, nodes) ← zk_gray_get_content n zh gray_id [];
  if negb (ret =? QCONF_OK) then mret QCONF_ERR_GRAY_GET_CONTENT else
  ret ← set_loop zh nodes;
  if negb (ret =? QCONF_OK) then mret ret else zk_gray_delete_notify n zh gray_id.
End WithFuel.
End WithZk.
End Manager.
