(* ===== verification/ManagerThm.v ===== *)
(** * Theorems about the manager library

    Writing nodes and services ([qconf_zk.cc]), and gray releases from the operator's side to the agent's. *)

From S2P Require Import Prelude Common Text Md5 Format FormatThm Driver DriverThm Config Zoo ZooWrite Gray Manager.

Module ManagerThm.
Import Md5 Format Config Zoo ZooWrite Gray Driver Manager.

Definition depth (path : bytes) : nat := length (List.filter (fun b => bool_decide (b = x2f)) path).
Definition ancestor (q path : bytes) : Prop := q <> [] /\ exists n, path = q ++ [x2f] ++ n.

Lemma depth_child q n : depth (q ++ [x2f] ++ n) = (depth q + S (depth n))%nat.
Proof. unfold depth. by rewrite List.filter_app, length_app. Qed.

Lemma ancestor_trans a b c : ancestor a b -> ancestor b c -> ancestor a c.
Proof. intros (Ha & n & ->) (_ & n' & ->). split; [done|]. exists (n ++ [x2f] ++ n'). by rewrite <- !app_assoc. Qed.

Lemma parent_child q n : (x2f ∉ n) -> parent_node (q ++ [x2f] ++ n) = q.
Proof. intros Hn. unfold parent_node. change (q ++ [x2f] ++ n) with (q ++ x2f :: n). by rewrite rfind_app, take_app_length. Qed.

Lemma no_nul_app_l (a b : bytes) : (x00 ∉ a ++ b) -> (x00 ∉ a).
Proof. rewrite not_elem_of_app. tauto. Qed.

(** The tree [m'] is [m] with a node [path] of value [v] or ancestors of it added. *)
Definition created (path v : bytes) (m m' : gmap bytes bytes) : Prop :=
  m ⊆ m' /\ forall q w, m' !! q = Some w -> m !! q = Some w \/ (q = path /\ w = v /\ m !! q = None) \/ (ancestor q path /\ w = [] /\ m !! q = None).

Lemma created_refl path v m : created path v m m.
Proof. split; [done|]. auto. Qed.

Lemma created_insert path v m : m !! path = None -> created path v m (<[path := v]> m).
Proof.
  intros Hp. split; [by apply insert_subseteq|]. intros q w. destruct (decide (q = path)) as [->|Hq].
  - rewrite lookup_insert_eq. intros [= ->]. auto.
  - rewrite lookup_insert_ne by done. auto.
Qed.

(** Adding ancestors first. *)
Lemma created_parent q path v m m1 m' : ancestor q path -> created q [] m m1 -> created path v m1 m' -> created path v m m'.
Proof.
  intros Ha (Hs & H1) (Hs' & H2). split; [by etrans|]. intros p w Hw.
  assert (Hnone : m1 !! p = None -> m !! p = None) by (intros Hn; by eapply lookup_weaken_None).
  destruct (H2 p w Hw) as [Hp|[(? & ? & Hn)|(? & ? & Hn)]]; [|right; left; by auto|right; right; by auto].
  destruct (H1 p w Hp) as [?|[(-> & -> & Hn)|(Hp' & -> & Hn)]]; [by left|right; right; by auto|].
  right. right. split; [by eapply ancestor_trans|done].
Qed.

Lemma created_again path v m m1 m' : created path v m m1 -> created path v m1 m' -> created path v m m'.
Proof.
  intros (Hs & H1) (Hs' & H2). split; [by etrans|]. intros p w Hw.
  assert (Hnone : m1 !! p = None -> m !! p = None) by (intros Hn; by eapply lookup_weaken_None).
  destruct (H2 p w Hw) as [Hp|[(? & ? & Hn)|(? & ? & Hn)]]; [by auto|right; left; by auto|right; right; by auto].
Qed.

(** ** Paths *)

Lemma drop_slashes_run n rest : head rest <> Some x2f -> drop_slashes (run x2f n ++ rest) = rest.
Proof.
  intros Hr. induction n as [|n IH]; [|exact IH]. destruct rest as [|b rest]; [done|]. cbn. rewrite decide_False; [done|]. intros ->. by apply Hr.
Qed.

Lemma reverse_run n : reverse (run x2f n) = run x2f n.
Proof. apply reverse_replicate. Qed.

Lemma path_normalize_core a core b : core_path core -> path_normalize (run x2f a ++ core ++ run x2f b) = (QCONF_OK, x2f :: core).
Proof.
  intros (Hn & Hh & Hl). unfold path_normalize. rewrite !reverse_app, reverse_run, <- app_assoc, drop_slashes_run.
  - rewrite reverse_app, !reverse_involutive. rewrite decide_False by (by destruct (run x2f a), core).
    rewrite drop_slashes_run by done. done.
  - destruct core as [|c core _] using rev_ind; [done|]. rewrite reverse_snoc. cbn. rewrite last_snoc in Hl. intros [= ->]. by apply Hl.
Qed.

Lemma path_normalize_slashes n : path_normalize (run x2f n) = (QCONF_ERR_OTHER, [x2f]).
Proof.
  unfold path_normalize. rewrite reverse_run. rewrite <- (app_nil_r (run x2f n)), drop_slashes_run by done. done.
Qed.

(** The pattern matches. *)
Definition allowed (path : bytes) : bool := bool_decide (c_str path <> []) && forallb path_char (c_str path).

Lemma allowed_path path r : allowed path = true -> zk_path path r = path_normalize path.
Proof.
  intros Ha. unfold zk_path. destruct path as [|b path]; [done|]. rewrite decide_False by done. unfold allowed in Ha. by rewrite Ha.
Qed.

Lemma refused_path path r : allowed path = false -> zk_path path r = (QCONF_ERR_PARAM, r).
Proof. intros Ha. unfold zk_path. destruct (decide (path = [])); [done|]. unfold allowed in Ha. by rewrite Ha. Qed.

(** Operators and clients agree on paths. A path with a character outside the documented ones is
    refused; any other path is accepted and normalized by the manager library exactly when, and exactly as,
    the client library does it. *)
Theorem path_agrees path r :
  (allowed path = false -> zk_path path r = (QCONF_ERR_PARAM, r)) /\
  (allowed path = true -> forall p, zk_path path r = (QCONF_OK, p) <-> get_node_path path r = Some (QCONF_OK, p)).
Proof.
  split.
  - apply refused_path.
  - intros Ha p. rewrite allowed_path by done. destruct (run_forms delim path) as [(n & ->)|(a & core & b & Hc & ->)].
    + rewrite get_node_path_slashes. change delim with x2f. by rewrite path_normalize_slashes.
    + rewrite get_node_path_core by done. change delim with x2f. rewrite path_normalize_core by done. split; [by intros [= <-]|by intros [= <-]].
Qed.

Lemma path_agrees_witness :
  zk_path (str "//a/b/") [] = (QCONF_OK, str "/a/b") /\ get_node_path (str "//a/b/") [] = Some (QCONF_OK, str "/a/b").
Proof.
  destruct (path_agrees (str "//a/b/") []) as [_ Heq]. assert (H1 : zk_path (str "//a/b/") [] = (QCONF_OK, str "/a/b")) by (vm_compute; reflexivity).
  split; [exact H1|]. apply Heq; [vm_compute; reflexivity|exact H1].
Defined.

Lemma path_char_slash : path_char x2f = true.
Proof. reflexivity. Qed.

(** What an accepted path is, and that its normal form is accepted again. *)
Lemma checked_spec zh node path :
  checked zh node = Some path -> (x00 ∉ node) ->
  zh <> 0 /\ (x00 ∉ path) /\ (exists a core b, core_path core /\ node = run x2f a ++ core ++ run x2f b /\ path = x2f :: core) /\
  checked zh path = Some path.
Proof.
  intros Hc Hn. unfold checked in Hc. destruct (Z.eqb_spec zh 0) as [|Hz]; [done|]. destruct (allowed node) eqn:Ha.
  - rewrite allowed_path in Hc by done. destruct (run_forms x2f node) as [(n & ->)|(a & core & b & Hcore & ->)]; [by rewrite path_normalize_slashes in Hc|].
    rewrite path_normalize_core in Hc by done. cbn in Hc. injection Hc as <-. rewrite !not_elem_of_app in Hn. destruct Hn as (_ & Hn & _).
    assert (Hp0 : x00 ∉ x2f :: core) by (rewrite not_elem_of_cons; by split).
    split; [done|]. split; [done|]. split; [by exists a, core, b|]. unfold checked. rewrite (proj2 (Z.eqb_neq _ _)) by done.
    assert (Hall : allowed (x2f :: core) = true).
    { unfold allowed in *. rewrite c_str_no_nul by done. apply andb_true_iff in Ha as [_ Ha]. rewrite c_str_no_nul in Ha.
      2:{ rewrite !not_elem_of_app. split_and!; try done; by intros ?%elem_of_replicate_inv. }
      rewrite !forallb_app in Ha. apply andb_true_iff in Ha as [_ Ha]. apply andb_true_iff in Ha as [Ha _]. cbn [forallb]. by rewrite Ha. }
    rewrite allowed_path by done. pose proof (path_normalize_core 1 core 0 Hcore) as E. cbn [run replicate app] in E.
    rewrite app_nil_r in E. by rewrite E.
  - by rewrite refused_path in Hc.
Qed.

Section WithZk.
Context {K : Type} `{ZKi : !Zk K} `{WKi : !ZkWrite K} `{LKi : !ZkLaws K} `{WLi : !ZkWriteLaws K}.

(** ** Single calls *)

(** One attempt loop of [zk_create]. *)
Lemma create_attempts zh path v s m :
  zk_tree s zh m ->
  exists r s' m', retry QCONF_GET_RETRIES (zoo_create zh path v 0) create_reply (inl QCONF_ERR_ZOO_FAILED) s = Some (r, s') /\
    zk_tree s' zh m' /\ (m' = m \/ (m !! path = None /\ m' = <[path := v]> m)) /\
    match r with
    | inl ret => (ret = QCONF_OK -> m !! path = None /\ m' !! path = Some v) /\ (ret = QCONF_ERR_ZOO_ALREADY_EXIST -> is_Some (m' !! path)) /\
        (ret = QCONF_OK \/ ret = QCONF_ERR_ZOO_ALREADY_EXIST \/ ret = QCONF_ERR_ZOO_FAILED)
    | inr tt => exists q n, path = q ++ [x2f] ++ n /\ (x2f ∉ n) /\ q <> [] /\ m' !! q = None
    end.
Proof using WLi.
  intros Hs. set (step := fun m' => m' = m \/ (m !! path = None /\ m' = <[path := v]> m)).
  destruct (retry_ok (fun k => exists m', zk_tree k zh m' /\ step m')
    (fun ret k => exists m', zk_tree k zh m' /\ step m' /\ (ret = ZOK -> m !! path = None /\ m' !! path = Some v) /\
       (ret = ZNODEEXISTS -> is_Some (m' !! path)) /\
       (ret = ZNONODE -> exists q n, path = q ++ [x2f] ++ n /\ (x2f ∉ n) /\ q <> [] /\ m' !! q = None))
    QCONF_GET_RETRIES (zoo_create zh path v 0) create_reply (inl QCONF_ERR_ZOO_FAILED) s) as (r & s' & Hrun & (m1 & Ht1 & Hst1) & Hres).
  - exists m. split; [done|]. by left.
  - intros k (m1 & Hk & Hst). destruct (zoo_create_reply zh path v 0 k m1 Hk) as (ret & k' & m2 & Hr & Hk' & Hm2 & Hok & Hex & Hno).
    assert (Hst2 : step m2).
    { destruct Hm2 as [->|(Hn & ->)]; [done|]. right. destruct Hst as [->|(? & ->)]; [done|]. by rewrite lookup_insert_eq in Hn. }
    assert (Hsub : m1 ⊆ m2) by (destruct Hm2 as [->|(Hn & ->)]; [done|by apply insert_subseteq]).
    exists ret, k'. split; [done|]. split; [by exists m2|]. exists m2. split; [done|]. split; [done|]. split; [|split].
    + intros E. destruct (Hok E) as (Hn & ->). rewrite lookup_insert_eq. split; [|done]. destruct Hst as [->|(? & ->)]; done.
    + intros E. destruct (Hex E) as (w & Hw). exists w. by eapply lookup_weaken.
    + intros E. destruct (Hno E) as (q & n & -> & Hn & Hq & Hqn). exists q, n. split_and!; try done.
      destruct Hm2 as [->|(_ & ->)]; [done|]. rewrite lookup_insert_ne; [done|]. intros Eq. apply (f_equal length) in Eq. rewrite !length_app in Eq. simpl in Eq. lia.
  - destruct Hres as [->|(ret & (m2 & Ht2 & Hst2 & Hok & Hex & Hno) & Hf)].
    + exists (inl QCONF_ERR_ZOO_FAILED), s', m1. split_and!; try done; auto.
    + exists r, s', m2. split; [done|]. split; [done|]. split; [done|]. unfold create_reply in Hf.
      destruct (Z.eqb_spec ret ZOK); [injection Hf as <-; split_and!; try done; auto|].
      destruct (Z.eqb_spec ret ZNODEEXISTS); [injection Hf as <-; split_and!; try done; auto|].
      destruct (Z.eqb_spec ret ZNONODE); [injection Hf as <-; auto|].
      destruct (transient ret); [done|]. injection Hf as <-. split_and!; try done; auto.
Qed.

(** [zk_create] ends: every missing parent has one slash less, and a path whose parent exists takes one call. *)
Lemma zk_create_ok fuel zh path v s m :
  zk_tree s zh m -> (x00 ∉ path) ->
  (depth path < fuel)%nat \/ (0 < fuel)%nat /\ (forall q n, path = q ++ [x2f] ++ n -> (x2f ∉ n) -> is_Some (m !! q)) ->
  exists ret s' m', zk_create fuel zh path v s = Some (ret, s') /\ zk_tree s' zh m' /\ created path v m m' /\
    (ret = QCONF_OK -> m !! path = None /\ m' !! path = Some v) /\ (ret = QCONF_ERR_ZOO_ALREADY_EXIST -> is_Some (m' !! path)) /\
    (ret = QCONF_OK \/ ret = QCONF_ERR_ZOO_ALREADY_EXIST \/ ret = QCONF_ERR_ZOO_FAILED).
Proof using WLi.
  revert path v s m. induction fuel as [|fuel IH]; intros path v s m Hs Hp Hf; [lia|]. cbn [zk_create]. rewrite c_str_no_nul by done.
  destruct (create_attempts zh path v s m Hs) as (r & s1 & m1 & Hrun & Hs1 & Hm1 & Hr). rewrite (SM_bind_Some _ _ _ _ _ Hrun).
  assert (Hc1 : created path v m m1) by (destruct Hm1 as [->|(? & ->)]; [apply created_refl|by apply created_insert]).
  destruct r as [ret|[]]; [by exists ret, s1, m1|]. destruct Hr as (q & n & Epath & Hn & Hq & Hqn).
  assert (Hqm : m !! q = None) by (by eapply lookup_weaken_None; [|apply Hc1]).
  destruct Hf as [Hf|(_ & Hf)]; [|destruct (Hf q n Epath Hn) as [? ?]; congruence].
  assert (Hsl : depth path = (depth q + S (depth n))%nat) by (rewrite Epath; apply depth_child).
  assert (Hq0 : x00 ∉ q) by (rewrite Epath in Hp; by eapply no_nul_app_l).
  destruct (IH q [] s1 m1 Hs1 Hq0) as (ret & s2 & m2 & Hrun2 & Hs2 & Hc2 & Hok2 & Hex2 & Hret2); [left; lia|].
  assert (Hpar : parent_node path = q) by (rewrite Epath; by apply parent_child). rewrite Hpar, (SM_bind_Some _ _ _ _ _ Hrun2).
  assert (Han : ancestor q path) by (split; [done|by exists n]).
  assert (Hc12 : created path v m m2).
  { apply (created_again _ _ _ m1); [done|]. by apply (created_parent q _ _ _ m2), created_refl. }
  destruct (negb (ret =? QCONF_OK) && negb (ret =? QCONF_ERR_ZOO_ALREADY_EXIST)) eqn:E.
  - assert (Hfail : ret = QCONF_ERR_ZOO_FAILED) by (destruct Hret2 as [->|[->| ->]]; done). subst ret.
    exists QCONF_ERR_ZOO_FAILED, s2, m2. split_and!; try done; auto.
  - assert (Hqs : is_Some (m2 !! q)).
    { destruct Hret2 as [->|[->| ->]]; [|by apply Hex2|done]. destruct (Hok2 eq_refl) as (_ & ->). by eexists. }
    destruct (IH path v s2 m2 Hs2 Hp) as (ret3 & s3 & m3 & Hrun3 & Hs3 & Hc3 & Hok3 & Hex3 & Hret3).
    { right. split; [lia|]. intros q' n' E' Hn'. assert (q' = q) as ->; [|done]. rewrite <- Hpar, E'. symmetry. by apply parent_child. }
    exists ret3, s3, m3. split; [done|]. split; [done|]. split; [by eapply created_again|]. split; [|done].
    intros E3. destruct (Hok3 E3) as (Hn3 & ?). split; [|done]. eapply lookup_weaken_None; [exact Hn3|apply Hc12].
Qed.

Lemma zk_modify_ok zh path v s m :
  zk_tree s zh m -> (x00 ∉ path) ->
  exists ret s' m', zk_modify zh path v s = Some (ret, s') /\ zk_tree s' zh m' /\
    (m' = m \/ (is_Some (m !! path) /\ m' = <[path := v]> m)) /\ (ret = QCONF_OK -> is_Some (m !! path) /\ m' !! path = Some v) /\
    (ret = QCONF_ERR_ZOO_NOT_EXIST -> m !! path = None) /\
    (ret = QCONF_OK \/ ret = QCONF_ERR_ZOO_NOT_EXIST \/ ret = QCONF_ERR_ZOO_FAILED).
Proof using WLi.
  intros Hs Hp. unfold zk_modify. rewrite c_str_no_nul by done.
  set (step := fun m' => m' = m \/ (is_Some (m !! path) /\ m' = <[path := v]> m)).
  match goal with |- context [retry _ _ ?f _ _] => destruct (retry_ok (fun k => exists m', zk_tree k zh m' /\ step m')
    (fun ret k => exists m', zk_tree k zh m' /\ step m' /\ (ret = ZOK -> is_Some (m !! path) /\ m' !! path = Some v) /\ (ret = ZNONODE -> m !! path = None))
    QCONF_GET_RETRIES (zoo_set zh path v) f QCONF_ERR_ZOO_FAILED s) as (r & s' & Hrun & (m1 & Ht1 & Hst1) & Hres) end.
  - exists m. split; [done|]. by left.
  - intros k (m1 & Hk & Hst). destruct (zoo_set_reply zh path v k m1 Hk) as (ret & k' & m2 & Hr & Hk' & Hm2 & Hok & Hno).
    assert (Hsome : is_Some (m1 !! path) <-> is_Some (m !! path)).
    { destruct Hst as [->|(Hsm & ->)]; [done|]. rewrite lookup_insert_eq. split; [done|]. by eexists. }
    assert (Hst2 : step m2).
    { destruct Hm2 as [->|(Hsm & ->)]; [done|]. right. split; [by apply Hsome|]. destruct Hst as [->|(_ & ->)]; [done|apply insert_insert_eq]. }
    exists ret, k'. split; [done|]. split; [by exists m2|]. exists m2. split; [done|]. split; [done|]. split.
    + intros E. destruct (Hok E) as (Hsm & ->). split; [by apply Hsome|]. apply lookup_insert_eq.
    + intros E%Hno. apply eq_None_not_Some. intros Hsm%Hsome. destruct Hsm. congruence.
  - destruct Hres as [->|(ret & (m2 & Ht2 & Hst2 & Hok & Hno) & Hf)].
    + exists QCONF_ERR_ZOO_FAILED, s', m1. split_and!; try done; auto.
    + exists r, s', m2. split; [done|]. split; [done|]. split; [done|].
      destruct (Z.eqb_spec ret ZOK); [injection Hf as <-; split_and!; try done; auto|].
      destruct (Z.eqb_spec ret ZNONODE); [injection Hf as <-; split_and!; try done; auto|].
      destruct (transient ret); [done|]. injection Hf as <-. split_and!; try done; auto.
Qed.

(** Attempts that have no effect are repeated; the result is that of the one that ends the loop. *)
Lemma retry_stop {A B} (J : K -> Prop) (Q : A -> K -> Prop) n (op : SM K A) (f : A -> option B) last s :
  J s -> (forall s, J s -> exists a s', op s = Some (a, s') /\ Q a s' /\ (f a = None -> J s')) ->
  exists b s', retry n op f last s = Some (b, s') /\ ((b = last /\ J s') \/ exists a, Q a s' /\ f a = Some b).
Proof using.
  intros Hs Hop. revert s Hs. induction n as [|n IH]; intros s Hs; [exists last, s; by auto|].
  destruct (Hop s Hs) as (a & s1 & Ha & HQ & HJ). cbn [retry]. rewrite (SM_bind_Some _ _ _ _ _ Ha).
  destruct (f a) as [b|] eqn:E; [|by apply IH, HJ]. exists b, s1. by eauto.
Qed.

Lemma zk_delete_exist_ok zh path s m :
  zk_tree s zh m -> (x00 ∉ path) ->
  exists ret s' m', zk_delete_exist zh path s = Some (ret, s') /\ zk_tree s' zh m' /\
    (m' = m \/ m' = delete path m) /\ (ret = QCONF_OK -> is_Some (m !! path) /\ m' = delete path m) /\
    (ret = QCONF_ERR_ZOO_NOT_EXIST -> m !! path = None).
Proof using WLi.
  intros Hs Hp. unfold zk_delete_exist. rewrite c_str_no_nul by done.
  match goal with |- context [retry _ _ ?f _ _] => destruct (retry_stop (fun k => zk_tree k zh m)
    (fun ret k => exists m', zk_tree k zh m' /\ (m' = m \/ m' = delete path m) /\ (ret = ZOK -> is_Some (m !! path) /\ m' = delete path m) /\
       (ret = ZNONODE -> m !! path = None))
    QCONF_GET_RETRIES (zoo_delete zh path) f QCONF_ERR_ZOO_FAILED s Hs) as (r & s' & Hrun & Hres) end.
  - intros k Hk. destruct (zoo_delete_reply zh path k m Hk) as (ret & k' & m2 & Hr & Hk' & Hm2 & Hok & Hno & Htr).
    exists ret, k'. split; [done|]. split; [by exists m2|].
    repeat case_test; try done. destruct (transient ret) eqn:E; [|done]. intros _. by rewrite <- (Htr eq_refl).
  - destruct Hres as [(-> & Ht)|(ret & (m2 & Ht2 & Hm2 & Hok & Hno) & Hf)].
    + exists QCONF_ERR_ZOO_FAILED, s', m. by split_and!; auto.
    + exists r, s', m2. split; [done|]. split; [done|]. split; [done|].
      destruct (Z.eqb_spec ret ZOK); [injection Hf as <-; split; [by auto|done]|].
      destruct (Z.eqb_spec ret ZNONODE); [injection Hf as <-; split; [done|by auto]|].
      destruct (ret =? ZNOTEMPTY); [by injection Hf as <-|]. destruct (transient ret); [done|by injection Hf as <-].
Qed.

Lemma zk_delete_ok zh path s m :
  zk_tree s zh m -> (x00 ∉ path) ->
  exists ret s' m', zk_delete zh path s = Some (ret, s') /\ zk_tree s' zh m' /\
    (m' = m \/ m' = delete path m) /\ (ret = QCONF_OK -> m' = delete path m).
Proof using WLi.
  intros Hs Hp. destruct (zk_delete_exist_ok zh path s m Hs Hp) as (ret & s' & m' & Hrun & Hs' & Hm' & Hok & Hno).
  unfold zk_delete. rewrite (SM_bind_Some _ _ _ _ _ Hrun). destruct (Z.eqb_spec ret QCONF_ERR_ZOO_NOT_EXIST) as [E|]; eexists _, s', m'; (split; [reflexivity|]).
  - split; [done|]. split; [done|]. intros _. specialize (Hno E). rewrite delete_id in * by done. by destruct Hm'.
  - split; [done|]. split; [done|]. intros E. by apply Hok.
Qed.

Lemma zk_exist_ok zh path s m :
  zk_tree s zh m -> (x00 ∉ path) ->
  exists ret b s', zk_exist zh path s = Some ((ret, b), s') /\ zk_tree s' zh m /\ (ret = QCONF_OK -> b = true <-> is_Some (m !! path)) /\
    (ret = QCONF_OK \/ ret = QCONF_ERR_ZOO_FAILED).
Proof using.
  intros Hs Hp. unfold zk_exist. rewrite c_str_no_nul by done.
  match goal with |- context [retry _ _ ?f _ _] => destruct (retry_ok (fun k => zk_tree k zh m)
    (fun ret _ => (ret = ZOK -> is_Some (m !! path)) /\ (ret = ZNONODE -> m !! path = None))
    QCONF_GET_RETRIES (zoo_exists zh path false) f (QCONF_ERR_ZOO_FAILED, false) s Hs) as ([ret b] & s' & Hrun & Hs' & Hres) end.
  { intros k Hk. destruct (zoo_exists_ok zh path false k m Hk) as (r & k' & ? & ? & ? & ?). by exists r, k'. }
  exists ret, b, s'. split; [done|]. split; [done|]. destruct Hres as [[= -> ->]|(zr & (H1 & H2) & Hf)]; [by split; [|right]|].
  destruct (Z.eqb_spec zr ZOK); [injection Hf as <- <-; split; [|by left]; intros _; split; by auto|].
  destruct (Z.eqb_spec zr ZNONODE); [injection Hf as <- <-; split; [|by left]; intros _; rewrite H2 by done; split; [done|by intros [? ?]]|].
  destruct (transient zr); [done|]. injection Hf as <- <-. by split; [|right].
Qed.

Lemma zk_get_ok zh path buf s m :
  zk_tree s zh m -> (x00 ∉ path) ->
  exists ret v s', zk_get zh path buf s = Some ((ret, v), s') /\ zk_tree s' zh m /\ (ret = QCONF_OK -> m !! path = Some v) /\
    (ret = QCONF_ERR_ZOO_NOT_EXIST -> m !! path = None).
Proof using.
  intros Hs Hp. unfold zk_get. rewrite c_str_no_nul by done.
  match goal with |- context [retry _ _ ?f _ _] => destruct (retry_ok (fun k => zk_tree k zh m)
    (fun a _ => (a.1 = ZOK -> m !! path = Some (default [] a.2)) /\ (a.1 = ZNONODE -> m !! path = None))
    QCONF_GET_RETRIES (zoo_get zh path false) f (QCONF_ERR_ZOO_FAILED, buf) s Hs) as ([ret v] & s' & Hrun & Hs' & Hres) end.
  { intros k Hk. destruct (zoo_get_ok zh path false k m Hk) as (r & d & k' & ? & ? & ? & ?). by exists (r, d), k'. }
  exists ret, v, s'. split; [done|]. split; [done|]. destruct Hres as [[= -> ->]|([zr d] & (H1 & H2) & Hf)]; [done|]. cbn [fst snd] in *.
  destruct (Z.eqb_spec zr ZOK); [injection Hf as <- <-; split; [by auto|done]|].
  destruct (Z.eqb_spec zr ZNONODE); [injection Hf as <- <-; split; [done|by auto]|].
  destruct (transient zr); [done|]. by injection Hf as <- <-.
Qed.

(** ** Nodes *)

(** Existing nodes outside [P] are unchanged, and new ones are in [P] or [N]. *)
Definition frame (P N : bytes -> Prop) (m m' : gmap bytes bytes) : Prop :=
  forall q, m' !! q = m !! q \/ P q \/ (N q /\ m !! q = None).

Lemma frame_refl P N m : frame P N m m.
Proof. intros q. by left. Qed.

Lemma frame_trans P N m1 m2 m3 : frame P N m1 m2 -> frame P N m2 m3 -> frame P N m1 m3.
Proof.
  intros H12 H23 q. destruct (H23 q) as [->|[?|(HN & Hn)]]; [apply H12|by auto|].
  destruct (H12 q) as [E|[?|(? & ?)]]; [|by auto..]. right. right. by rewrite <- E.
Qed.

Lemma frame_mono (P Q N M : bytes -> Prop) m m' : (forall q, P q -> Q q) -> (forall q, N q -> M q) -> frame P N m m' -> frame Q M m m'.
Proof. intros HP HN Hf q. destruct (Hf q) as [?|[?|(? & ?)]]; auto. Qed.

Definition at_or_above (path q : bytes) : Prop := q = path \/ ancestor q path.

Lemma created_frame P path v m m' : created path v m m' -> frame P (at_or_above path) m m'.
Proof.
  intros (Hs & Hnew) q. destruct (m' !! q) as [w|] eqn:E.
  - destruct (Hnew q w E) as [->|[(? & _ & ?)|(? & _ & ?)]]; [by left|right; right; split; [by left|done]|right; right; split; [by right|done]].
  - left. symmetry. by eapply lookup_weaken_None.
Qed.

Lemma insert_frame (P N : bytes -> Prop) p v m : P p -> frame P N m (<[p := v]> m).
Proof. intros Hp q. destruct (decide (q = p)) as [->|?]; [by auto|]. left. by apply lookup_insert_ne. Qed.

Lemma delete_frame (P N : bytes -> Prop) p m : P p -> frame P N m (delete p m).
Proof. intros Hp q. destruct (decide (q = p)) as [->|?]; [by auto|]. left. by apply lookup_delete_ne. Qed.

(** Setting a node, or creating it with its ancestors. *)
Lemma set_node_ok fuel zh path v s m :
  zk_tree s zh m -> (x00 ∉ path) -> (depth path < fuel)%nat ->
  exists ret s' m', (ret ← zk_modify zh path v; if ret =? QCONF_ERR_ZOO_NOT_EXIST then zk_create fuel zh path v else mret ret) s = Some (ret, s') /\
    zk_tree s' zh m' /\ frame (fun q => q = path) (at_or_above path) m m' /\ (ret = QCONF_OK -> m' !! path = Some v).
Proof using WLi.
  intros Hs Hp Hf. destruct (zk_modify_ok zh path v s m Hs Hp) as (r & s1 & m1 & Hrun & Hs1 & Hm1 & Hok & _ & _).
  rewrite (SM_bind_Some _ _ _ _ _ Hrun).
  assert (Hf1 : frame (fun q => q = path) (at_or_above path) m m1) by (destruct Hm1 as [->|(_ & ->)]; [apply frame_refl|by apply insert_frame]).
  destruct (Z.eqb_spec r QCONF_ERR_ZOO_NOT_EXIST).
  - destruct (zk_create_ok fuel zh path v s1 m1 Hs1 Hp) as (ret & s2 & m2 & Hrun2 & Hs2 & Hc2 & Hok2 & _); [by left|].
    exists ret, s2, m2. split; [done|]. split; [done|]. split; [eapply frame_trans; [done|by eapply created_frame]|].
    intros E. by destruct (Hok2 E).
  - exists r, s1, m1. split; [done|]. split; [done|]. split; [done|]. intros E. by destruct (Hok E).
Qed.

(** C27. After zk_node_set succeeded, the node holds the value, under the path that clients ask for, and
    zk_node_get, when it succeeds, gives the value for any spelling of the path; whether it succeeded or
    not, no other node that existed has changed and only missing ancestors were added. *)
Theorem node_set_get fuel zh node node' path v buf s m :
  checked zh node = Some path -> checked zh node' = Some path -> (x00 ∉ node) -> (depth path < fuel)%nat -> zk_tree s zh m ->
  exists ret s' m', zk_node_set fuel zh node v s = Some (ret, s') /\ zk_tree s' zh m' /\
    frame (fun q => q = path) (at_or_above path) m m' /\
    (ret = QCONF_OK -> m' !! path = Some v /\ get_node_path node [] = Some (QCONF_OK, path) /\
       exists ret2 w s2, zk_node_get zh node' buf s' = Some ((ret2, w), s2) /\ (ret2 = QCONF_OK -> w = v)).
Proof using WLi.
  intros Hc Hc' Hn Hf Hs. destruct (checked_spec zh node path Hc Hn) as (Hz & Hp & (a & core & b & Hcore & -> & ->) & _).
  destruct (set_node_ok fuel zh (x2f :: core) v s m Hs Hp Hf) as (ret & s' & m' & Hrun & Hs' & Hfr & Hok).
  exists ret, s', m'. split; [unfold zk_node_set; rewrite Hc; exact Hrun|]. split; [done|]. split; [done|]. intros E. split; [by apply Hok|].
  split; [by apply (get_node_path_core a core b)|]. destruct (zk_get_ok zh (x2f :: core) buf s' m' Hs' Hp) as (ret2 & w & s2 & Hr2 & _ & Hv & _).
  exists ret2, w, s2. split; [unfold zk_node_get; rewrite Hc'; exact Hr2|]. intros E2. specialize (Hv E2). rewrite (Hok E) in Hv. by injection Hv.
Qed.

(** ** Services *)

Lemma child_ancestor q path n : (x2f ∉ n) -> ancestor q (path ++ str "/" ++ n) -> at_or_above path q.
Proof.
  intros Hn (Hq & k & E). change (str "/" ++ n) with (x2f :: n) in E. change ([x2f] ++ k) with (x2f :: k) in E.
  apply app_eq_inv in E as [(l & -> & E)|(l & -> & E)].
  - destruct l as [|b l]; [left; by rewrite app_nil_r|]. injection E as <- E. right. split; [done|]. exists l. done.
  - destruct l as [|b l]; [left; by rewrite app_nil_r in *|]. injection E as <- E. destruct Hn. rewrite E, elem_of_app. right. by left.
Qed.

Lemma child_not_above path n mon : ~ at_or_above mon path -> ~ at_or_above mon (path ++ str "/" ++ n) \/ path = [].
Proof.
  intros Ha. destruct (decide (path = [])) as [->|Hp]; [by right|]. left. intros [E|(_ & k & E)]; apply Ha; right.
  - split; [done|]. exists n. by rewrite <- E.
  - split; [done|]. exists (n ++ [x2f] ++ k). rewrite E, <- !app_assoc. done.
Qed.

Lemma child_not_self path n : ~ at_or_above path (path ++ str "/" ++ n).
Proof. intros [E|(_ & k & E)]; apply (f_equal length) in E; rewrite !length_app in E; simpl in E; lia. Qed.

(** What registering and changing a service may add. *)
Definition above_service (path q : bytes) : Prop := at_or_above path q \/ at_or_above (get_monitor_node path) q.

Lemma depth_app a b : depth (a ++ b) = (depth a + depth b)%nat.
Proof. unfold depth. by rewrite List.filter_app, length_app. Qed.

Lemma hex_digits_ok c :
  let h := qhashmd5_bin_to_hex [c] in (x2f ∉ h) /\ (x00 ∉ h).
Proof. cbn zeta. by destruct c; split; apply (bool_decide_unpack _); vm_compute. Qed.

Lemma hex_ok l : (x2f ∉ qhashmd5_bin_to_hex l) /\ (x00 ∉ qhashmd5_bin_to_hex l).
Proof.
  induction l as [|c l [IH1 IH2]]; [by split; apply not_elem_of_nil|].
  change (qhashmd5_bin_to_hex (c :: l)) with (qhashmd5_bin_to_hex [c] ++ qhashmd5_bin_to_hex l).
  destruct (hex_digits_ok c) as [H1 H2]. by split; rewrite not_elem_of_app.
Qed.

Lemma monitor_node_ok path : (x00 ∉ get_monitor_node path) /\ depth (get_monitor_node path) = 4%nat.
Proof.
  destruct (hex_ok (md5_of path)) as [H1 H2]. unfold get_monitor_node. split.
  - rewrite !not_elem_of_app. split_and!; try done; apply (bool_decide_unpack _); vm_compute; exact Logic.I.
  - rewrite !depth_app. change (depth QCONF_SERV_GROUP_PREFIX) with 3%nat. change (depth (str "/")) with 1%nat.
    assert (Hd : forall l, (x2f ∉ l) -> depth l = 0%nat).
    { induction l as [|b l IH]; [done|]. rewrite not_elem_of_cons. intros [Hb Hl]. unfold depth. cbn [List.filter].
      rewrite bool_decide_eq_false_2 by congruence. by apply IH. }
    by rewrite Hd.
Qed.

Lemma monitor_create_ok P fuel zh path s m :
  zk_tree s zh m -> (4 < fuel)%nat ->
  exists ret s' m', zk_monitor_node_create fuel zh path s = Some (ret, s') /\ zk_tree s' zh m' /\
    frame P (at_or_above (get_monitor_node path)) m m' /\ (ret = QCONF_OK -> is_Some (m' !! get_monitor_node path)).
Proof using WLi.
  intros Hs Hf. destruct (monitor_node_ok path) as (Hn & Hd).
  destruct (zk_create_ok fuel zh (get_monitor_node path) path s m Hs Hn) as (ret & s' & m' & Hrun & Hs' & Hc & Hok & Hex & _); [left; lia|].
  unfold zk_monitor_node_create. rewrite (SM_bind_Some _ _ _ _ _ Hrun). eexists _, s', m'. split; [reflexivity|]. split; [done|].
  split; [by eapply created_frame|]. destruct (Z.eqb_spec ret QCONF_ERR_ZOO_ALREADY_EXIST); [auto|]. intros E. destruct (Hok E) as (_ & ->). by eexists.
Qed.

(** A service: its normalized path, which is not one of the monitors' own nodes. *)
Record service_path (zh : Z) (path : bytes) : Prop := {
  sp_checked : checked zh path = Some path;
  sp_nul : x00 ∉ path;
  sp_mon : ~ at_or_above (get_monitor_node path) path
}.
Definition serv_ok (n : bytes) (st : Z) : Prop :=
  n <> [] /\ (x2f ∉ n) /\ (x00 ∉ n) /\ (st = STATUS_UP \/ st = STATUS_DOWN \/ st = STATUS_OFFLINE).

Lemma service_path_ne zh path : service_path zh path -> path <> [].
Proof. intros [Hc _ _] ->. unfold checked in Hc. by destruct (zh =? 0). Qed.

Lemma child_not_service zh path n : service_path zh path -> ~ above_service path (path ++ str "/" ++ n).
Proof.
  intros Hsp [Ha|Ha]; [by eapply child_not_self|]. destruct (child_not_above path n (get_monitor_node path) (sp_mon _ _ Hsp)) as [?|?]; [done|].
  by eapply service_path_ne.
Qed.

Lemma mon_not_child zh path n : service_path zh path -> get_monitor_node path <> path ++ str "/" ++ n.
Proof. intros Hsp E. eapply (child_not_service zh path n); [done|]. right. by left. Qed.

Lemma child_nul zh path n : service_path zh path -> (x00 ∉ n) -> x00 ∉ path ++ str "/" ++ n.
Proof. intros Hsp Hn. rewrite !not_elem_of_app. split_and!; [apply Hsp|apply (bool_decide_unpack _); vm_compute; exact Logic.I|done]. Qed.

Lemma child_depth path n : (x2f ∉ n) -> depth (path ++ str "/" ++ n) = S (depth path).
Proof.
  intros Hn. rewrite !depth_app. change (depth (str "/")) with 1%nat. assert (Hd : depth n = 0%nat); [|lia].
  induction n as [|b n IH]; [done|]. apply not_elem_of_cons in Hn as [Hb Hl]. unfold depth. cbn [List.filter].
  rewrite bool_decide_eq_false_2 by congruence. by apply IH.
Qed.

Lemma service_add_ok fuel zh path n st s m :
  service_path zh path -> serv_ok n st -> (4 < fuel)%nat -> (S (depth path) < fuel)%nat -> zk_tree s zh m ->
  exists ret s' m', zk_service_add fuel zh path n st s = Some (ret, s') /\ zk_tree s' zh m' /\
    frame (fun q => q = path ++ str "/" ++ n) (above_service path) m m' /\
    (ret = QCONF_OK -> m' !! (path ++ str "/" ++ n) = Some (print_dec st) /\ is_Some (m' !! get_monitor_node path)).
Proof using WLi.
  intros Hsp (Hne & Hsl & Hn0 & Hst) Hf4 Hfd Hs. unfold zk_service_add. rewrite (sp_checked _ _ Hsp).
  replace (check_service n st) with true.
  2:{ unfold check_service. rewrite decide_False by done. destruct Hst as [->|[->| ->]]; reflexivity. }
  cbn [negb]. destruct (monitor_create_ok (fun q => q = path ++ str "/" ++ n) fuel zh path s m Hs Hf4) as (r1 & s1 & m1 & Hr1 & Hs1 & Hfr1 & Hok1).
  rewrite (SM_bind_Some _ _ _ _ _ Hr1). assert (Hfr1' : frame (fun q => q = path ++ str "/" ++ n) (above_service path) m m1).
  { eapply frame_mono; [| |exact Hfr1]; [done|]. intros q ?. by right. }
  destruct (Z.eqb_spec r1 QCONF_OK) as [E1|]; cbn [negb]; [|by exists QCONF_ERR_ZOO_FAILED, s1, m1].
  destruct (set_node_ok fuel zh (serv_path path n) (print_dec st) s1 m1 Hs1) as (ret & s2 & m2 & Hr2 & Hs2 & Hfr2 & Hok2).
  { by apply (child_nul zh). }
  { unfold serv_path. rewrite child_depth by done. lia. }
  exists ret, s2, m2. split; [exact Hr2|]. split; [done|].
  assert (Hfr2' : frame (fun q => q = path ++ str "/" ++ n) (above_service path) m1 m2).
  { intros q. destruct (Hfr2 q) as [?|[?|(Ha & ?)]]; [by left|right; by left|]. destruct Ha as [->|Ha]; [right; by left|].
    right. right. split; [|done]. left. by eapply child_ancestor. }
  split; [by eapply frame_trans|]. intros E. split; [by apply Hok2|].
  destruct (Hfr2' (get_monitor_node path)) as [->|[Em|(_ & Hnone)]]; [by apply Hok1|by destruct (mon_not_child zh path n Hsp)|].
  destruct (Hok1 E1). congruence.
Qed.

(** The children of a service among [P]. *)
Definition child_in (path : bytes) (l : list bytes) (q : bytes) : Prop := exists n, n ∈ l /\ q = path ++ str "/" ++ n.

Lemma child_inj (path a b : bytes) : path ++ str "/" ++ a = path ++ str "/" ++ b -> a = b.
Proof. by intros E%app_inv_head%app_inv_head. Qed.

Lemma frame_child zh path l n m m' :
  service_path zh path -> frame (child_in path l) (above_service path) m m' -> n ∉ l ->
  m' !! (path ++ str "/" ++ n) = m !! (path ++ str "/" ++ n).
Proof.
  intros Hsp Hf Hn. destruct (Hf (path ++ str "/" ++ n)) as [?|[(n' & Hn' & E)|(Ha & _)]]; [done| |by destruct (child_not_service zh path n Hsp)].
  apply child_inj in E as <-. done.
Qed.

Lemma add_loop_ok fuel zh path l s m :
  service_path zh path -> Forall (fun kv => serv_ok kv.1 kv.2) l -> NoDup l.*1 -> (4 < fuel)%nat -> (S (depth path) < fuel)%nat -> zk_tree s zh m ->
  exists ret s' m', add_loop fuel zh path l s = Some (ret, s') /\ zk_tree s' zh m' /\ frame (child_in path l.*1) (above_service path) m m' /\
    (ret = QCONF_OK -> forall n st, (n, st) ∈ l -> m' !! (path ++ str "/" ++ n) = Some (print_dec st)).
Proof using WLi.
  intros Hsp Hall Hnd Hf4 Hfd. revert s m. induction l as [|[n st] l IH]; intros s m Hs.
  - exists QCONF_OK, s, m. split; [done|]. split; [done|]. split; [apply frame_refl|]. by intros _ n st ?%elem_of_nil.
  - apply Forall_cons in Hall as [Hok Hall]. apply NoDup_cons in Hnd as [Hn Hnd]. cbn [fst snd] in *. cbn [add_loop].
    destruct (service_add_ok fuel zh path n st s m Hsp Hok Hf4 Hfd Hs) as (r & s1 & m1 & Hr & Hs1 & Hf1 & Hok1). rewrite (SM_bind_Some _ _ _ _ _ Hr).
    assert (Hf1' : frame (child_in path (n :: l.*1)) (above_service path) m m1).
    { eapply frame_mono; [| |exact Hf1]; [|done]. intros q ->. exists n. split; [by left|done]. }
    destruct (Z.eqb_spec r QCONF_OK) as [E|]; cbn [negb]; [|by exists r, s1, m1].
    destruct (IH Hall Hnd s1 m1 Hs1) as (ret & s2 & m2 & Hr2 & Hs2 & Hf2 & Hok2). exists ret, s2, m2. split; [done|]. split; [done|]. split.
    + eapply frame_trans; [exact Hf1'|]. eapply frame_mono; [| |exact Hf2]; [|done]. intros q (n' & ? & ->). exists n'. split; [by right|done].
    + intros E2 n' st' Hin. apply elem_of_cons in Hin as [[= -> ->]|Hin]; [|by apply Hok2].
      rewrite (frame_child zh path (l.*1) n m1 m2) by done. by apply Hok1.
Qed.

Lemma delete_loop_ok zh path l s m :
  service_path zh path -> Forall (fun n => x00 ∉ n) l -> zk_tree s zh m ->
  exists ret s' m', delete_loop zh path l s = Some (ret, s') /\ zk_tree s' zh m' /\ frame (child_in path l) (fun _ => False) m m' /\
    (forall q w, m' !! q = Some w -> m !! q = Some w) /\ (ret = QCONF_OK -> forall n, n ∈ l -> m' !! (path ++ str "/" ++ n) = None).
Proof using WLi.
  intros Hsp Hall. revert s m. induction l as [|n l IH]; intros s m Hs.
  - exists QCONF_OK, s, m. split; [done|]. split; [done|]. split; [apply frame_refl|]. split; [done|]. by intros _ n ?%elem_of_nil.
  - apply Forall_cons in Hall as [Hn Hall]. cbn [delete_loop].
    destruct (zk_delete_ok zh (serv_path path n) s m Hs) as (r & s1 & m1 & Hr & Hs1 & Hm1 & Hok1); [by apply (child_nul zh)|].
    rewrite (SM_bind_Some _ _ _ _ _ Hr).
    assert (Hf1 : frame (child_in path (n :: l)) (fun _ => False) m m1).
    { assert (Hp : child_in path (n :: l) (serv_path path n)) by (exists n; split; [by left|done]).
      destruct Hm1 as [->| ->]; [apply frame_refl|by apply delete_frame]. }
    assert (Hsub1 : forall q w, m1 !! q = Some w -> m !! q = Some w).
    { intros q w. destruct Hm1 as [->| ->]; [done|]. rewrite lookup_delete_Some. by intros [_ ?]. }
    destruct (Z.eqb_spec r QCONF_OK) as [E|]; cbn [negb]; [|by exists r, s1, m1].
    destruct (IH Hall s1 m1 Hs1) as (ret & s2 & m2 & Hr2 & Hs2 & Hf2 & Hsub & Hok2). exists ret, s2, m2. split; [done|]. split; [done|]. split; [|split].
    + eapply frame_trans; [exact Hf1|]. eapply frame_mono; [| |exact Hf2]; [|done]. intros q (n' & ? & ->). exists n'. split; [by right|done].
    + intros q w Hw. by apply Hsub1, Hsub.
    + intros E2 n' Hin. apply elem_of_cons in Hin as [->|Hin]; [|by apply Hok2].
      destruct (m2 !! (path ++ str "/" ++ n)) as [w|] eqn:Ew; [|done]. apply Hsub in Ew. rewrite (Hok1 E) in Ew.
      by rewrite (lookup_delete_eq m) in Ew.
Qed.

Lemma zk_list_ok zh path old s m :
  checked zh path = Some path -> (x00 ∉ path) -> zk_tree s zh m ->
  exists ret names s', zk_list zh path old s = Some ((ret, names), s') /\ zk_tree s' zh m /\
    (ret = QCONF_OK -> forall n, n ∈ names <-> n <> [] /\ (x2f ∉ n) /\ (x00 ∉ n) /\ is_Some (m !! (path ++ str "/" ++ n))) /\
    (ret = QCONF_ERR_ZOO_NOT_EXIST -> m !! path = None /\ names = ∅).
Proof using.
  intros Hc Hp Hs. unfold zk_list. rewrite Hc, c_str_no_nul by done.
  match goal with |- context [retry _ _ ?f _ _] => destruct (retry_ok (fun k => zk_tree k zh m)
    (fun a _ => (a.1 = ZOK -> children_of m path a.2) /\ (a.1 = ZNONODE -> m !! path = None))
    QCONF_GET_RETRIES (zoo_get_children zh path false) f (QCONF_ERR_ZOO_FAILED, ∅) s Hs) as ([ret v] & s' & Hrun & Hs' & Hres) end.
  { intros k Hk. destruct (zoo_get_children_ok zh path false k m Hk) as (r & d & k' & ? & ? & ? & ?). by exists (r, d), k'. }
  exists ret, v, s'. split; [done|]. split; [done|]. destruct Hres as [[= -> ->]|([zr d] & (H1 & H2) & Hf)]; [done|]. cbn [fst snd] in *.
  destruct (Z.eqb_spec zr ZOK) as [E|].
  - injection Hf as <- <-. split; [|done]. intros _ n. destruct (H1 E) as (_ & Hch). rewrite elem_of_list_to_set, <- Hch.
    rewrite list_elem_of_fmap. split.
    + intros (n' & -> & Hn'). pose proof (proj1 (Hch n') Hn') as (_ & _ & ? & _). by rewrite c_str_no_nul.
    + intros Hn. exists n. split; [|done]. pose proof (proj1 (Hch n) Hn) as (_ & _ & ? & _). by rewrite c_str_no_nul.
  - destruct (Z.eqb_spec zr ZNONODE); [injection Hf as <- <-; split; [done|by auto]|]. destruct (transient zr); [done|]. by injection Hf as <- <-.
Qed.

Lemma in_key_order_elem {A} (m : gmap bytes A) n v : (n, v) ∈ in_key_order m <-> m !! n = Some v.
Proof.
  unfold in_key_order. rewrite list_elem_of_omap. split.
  - intros (k & Hk & E). destruct (m !! k) as [w|] eqn:Ek; [|done]. cbn in E. by injection E as <- <-.
  - intros Hv. exists n. rewrite in_order_perm, elem_of_elements, elem_of_dom, Hv. split; [by eexists|done].
Qed.

Lemma in_key_order_keys {A} (m : gmap bytes A) : (in_key_order m).*1 = in_order (elements (dom m)).
Proof.
  unfold in_key_order. assert (Hall : Forall (fun k => is_Some (m !! k)) (in_order (elements (dom m)))).
  { rewrite Forall_forall. intros k. by rewrite in_order_perm, elem_of_elements, elem_of_dom. }
  induction (in_order (elements (dom m))) as [|k l IH]; [done|]. apply Forall_cons in Hall as [(w & Hw) Hall]. cbn. rewrite Hw. cbn. by rewrite IH.
Qed.

Lemma in_order_nodup (X : gset bytes) : NoDup (in_order (elements X)).
Proof. rewrite in_order_perm. apply NoDup_elements. Qed.

(** The manager reads the statuses back. *)
Lemma status_read st : st = STATUS_UP \/ st = STATUS_DOWN \/ st = STATUS_OFFLINE -> string_to_integer (print_dec st) (-1) = (QCONF_OK, st).
Proof. by intros [->|[->| ->]]. Qed.

Lemma statuses_loop_ok (zh : Z) (path : bytes) (l : list bytes) (servs acc : gmap bytes Z) (s : K) (m : gmap bytes bytes) :
  service_path zh path -> zk_tree s zh m ->
  (forall n, n ∈ l -> (x00 ∉ n) /\ exists st, servs !! n = Some st /\ serv_ok n st /\ m !! (path ++ str "/" ++ n) = Some (print_dec st)) ->
  (forall n v, acc !! n = Some v -> servs !! n = Some v) ->
  exists ret r s', statuses_loop zh path l acc s = Some ((ret, r), s') /\ zk_tree s' zh m /\
    (ret = QCONF_OK -> forall n, r !! n = if decide (n ∈ l) then servs !! n else acc !! n).
Proof using.
  intros Hsp. revert acc s. induction l as [|n l IH]; intros acc s Hs Hl Hacc.
  - exists QCONF_OK, acc, s. split; [done|]. split; [done|]. intros _ n. rewrite decide_False; [done|apply not_elem_of_nil].
  - destruct (Hl n) as (Hn0 & st & Hst & (_ & _ & _ & Hv) & Hm); [by left|]. cbn [statuses_loop].
    assert (Hrun1 : exists r1 v s1, zk_service_status_get zh (serv_path path n) 0 s = Some ((r1, v), s1) /\ zk_tree s1 zh m /\ (r1 = QCONF_OK -> v = st)).
    { unfold zk_service_status_get. destruct (zk_get_ok zh (serv_path path n) [] s m Hs) as (r & v & s1 & Hr & Hs1 & Hok & _); [by apply (child_nul zh)|].
      rewrite (SM_bind_Some _ _ _ _ _ Hr). cbv beta iota. destruct (Z.eqb_spec r QCONF_OK) as [E|]; cbn [negb]; [|by exists QCONF_ERR_OTHER, 0, s1].
      specialize (Hok E). unfold serv_path in Hok. rewrite Hm in Hok. injection Hok as <-. rewrite status_read by done. cbn [negb Z.eqb QCONF_OK].
      exists QCONF_OK, st, s1. split; [|done]. by destruct Hv as [->|[->| ->]]. }
    destruct Hrun1 as (r1 & v & s1 & Hr1 & Hs1 & Hv1). rewrite (SM_bind_Some _ _ _ _ _ Hr1). cbv beta iota.
    destruct (Z.eqb_spec r1 QCONF_OK) as [E|]; cbn [negb]; [|by exists QCONF_ERR_ZOO_FAILED, acc, s1]. rewrite (Hv1 E).
    assert (Hins : forall q, insert_new n st acc !! q = if decide (q = n) then servs !! n else acc !! q).
    { intros q. unfold insert_new. destruct (acc !! n) as [w|] eqn:Ea; destruct (decide (q = n)) as [->|?]; try done.
      - by rewrite Ea, (Hacc n w Ea).
      - by rewrite lookup_insert_eq.
      - by rewrite lookup_insert_ne. }
    destruct (IH (insert_new n st acc) s1 Hs1) as (ret & r & s' & Hr & Hs' & Hok).
    + intros q Hq. apply Hl. by right.
    + intros q w. rewrite Hins. destruct (decide (q = n)) as [->|]; [done|apply Hacc].
    + exists ret, r, s'. split; [done|]. split; [done|]. intros E2 q. rewrite (Hok E2 q), Hins. destruct (decide (q ∈ l)) as [Hq|Hq].
      * by rewrite decide_True by (by right).
      * destruct (decide (q = n)) as [->|?]; [by rewrite decide_True by left|]. rewrite decide_False; [done|]. rewrite elem_of_cons. tauto.
Qed.

Lemma check_node_type_ok zh path t s m :
  zk_tree s zh m ->
  exists ret b s', check_node_type zh path t s = Some ((ret, b), s') /\ zk_tree s' zh m /\
    (ret = QCONF_OK -> b = QCONF_NODE_TYPE_SERVICE <-> is_Some (m !! get_monitor_node path)).
Proof using.
  intros Hs. unfold check_node_type. destruct (zk_exist_ok zh (get_monitor_node path) s m Hs (proj1 (monitor_node_ok path))) as (ret & b & s' & Hr & Hs' & Hok & _).
  rewrite (SM_bind_Some _ _ _ _ _ Hr). cbv beta iota. destruct (Z.eqb_spec ret QCONF_OK) as [E|]; cbn [negb]; [|by exists QCONF_ERR_ZOO_FAILED, t, s'].
  eexists _, _, s'. split; [reflexivity|]. split; [done|]. intros _. rewrite <- (Hok E). by destruct b.
Qed.

(** The common start of the operations on a service. *)
Lemma service_of_ok zh path s m :
  service_path zh path -> zk_tree s zh m ->
  exists r s', service_of zh path s = Some (r, s') /\ zk_tree s' zh m /\
    match r with inl ret => ret <> QCONF_OK | inr p => p = path /\ is_Some (m !! get_monitor_node path) end.
Proof using.
  intros Hsp Hs. unfold service_of. rewrite (sp_checked _ _ Hsp).
  destruct (check_node_type_ok zh path QCONF_NODE_TYPE_NODE s m Hs) as (ret & b & s1 & Hr & Hs1 & Hok). rewrite (SM_bind_Some _ _ _ _ _ Hr). cbv beta iota.
  destruct (Z.eqb_spec ret QCONF_OK) as [E|E]; cbn [negb]; [|by eexists _, s1].
  destruct (decide (b = QCONF_NODE_TYPE_NODE)) as [Eb|Eb]; [by eexists _, s1|]. eexists _, s1. split; [reflexivity|]. split; [done|]. split; [done|].
  apply (Hok E). revert Hr Eb. unfold check_node_type. intros (x & k & _ & Hx)%SM_bind_inv. destruct x as [r' e]. destruct (negb (r' =? QCONF_OK)).
  - injection Hx as <- <- <-. done.
  - injection Hx as <- <- <-. by destruct e.
Qed.

Lemma services_list_ok zh path s m :
  service_path zh path -> zk_tree s zh m ->
  exists ret l s', zk_services_get zh path ∅ s = Some ((ret, l), s') /\ zk_tree s' zh m /\
    (ret = QCONF_OK -> forall n, n ∈ l <-> n <> [] /\ (x2f ∉ n) /\ (x00 ∉ n) /\ is_Some (m !! (path ++ str "/" ++ n))).
Proof using.
  intros Hsp Hs. unfold zk_services_get. destruct (service_of_ok zh path s m Hsp Hs) as (r & s1 & Hr & Hs1 & Hres). rewrite (SM_bind_Some _ _ _ _ _ Hr).
  destruct r as [ret|p]; [by eexists ret, ∅, s1|]. destruct Hres as (-> & _).
  destruct (zk_list_ok zh path ∅ s1 m (sp_checked _ _ Hsp) (sp_nul _ _ Hsp) Hs1) as (ret & l & s2 & Hr2 & Hs2 & Hok & _). by exists ret, l, s2.
Qed.

(** Registered services are read back with their statuses. *)
Lemma services_get_ok (zh : Z) (path : bytes) (servs : gmap bytes Z) (s : K) (m : gmap bytes bytes) :
  service_path zh path -> zk_tree s zh m ->
  (forall n st, servs !! n = Some st -> serv_ok n st) ->
  (forall n, n <> [] -> (x2f ∉ n) -> (x00 ∉ n) -> m !! (path ++ str "/" ++ n) = print_dec <$> servs !! n) ->
  exists ret r s', zk_services_get_with_status zh path ∅ s = Some ((ret, r), s') /\ (ret = QCONF_OK -> r = servs).
Proof using.
  intros Hsp Hs Hserv Hm. unfold zk_services_get_with_status. rewrite (sp_checked _ _ Hsp).
  destruct (check_node_type_ok zh path QCONF_NODE_TYPE_NODE s m Hs) as (r1 & b & s1 & Hr1 & Hs1 & _). rewrite (SM_bind_Some _ _ _ _ _ Hr1). cbv beta iota.
  destruct (Z.eqb_spec r1 QCONF_OK); cbn [negb]; [|by eexists _, _, _].
  destruct (decide (b = QCONF_NODE_TYPE_NODE)) as [|Hb]; [by eexists _, _, _|].
  destruct (services_list_ok zh path s1 m Hsp Hs1) as (r4 & l & s4 & Hr4 & Hs4 & Hok4).
  rewrite (SM_bind_Some _ _ _ _ _ Hr4). cbv beta iota.
  destruct (Z.eqb_spec r4 QCONF_OK) as [E4|]; [|by eexists _, _, _].
  assert (Hin : forall n, n ∈ l <-> is_Some (servs !! n)).
  { intros n. rewrite (Hok4 E4 n). split.
    - intros (H1 & H2 & H3 & H4). rewrite Hm in H4 by done. by apply fmap_is_Some in H4.
    - intros (st & Hst). destruct (Hserv n st Hst) as (H1 & H2 & H3 & _). split_and!; try done. rewrite Hm by done. rewrite Hst. by eexists. }
  destruct (statuses_loop_ok zh path (in_order (elements l)) servs ∅ s4 m Hsp Hs4) as (r5 & r & s5 & Hr5 & _ & Hok5).
  { intros n. rewrite in_order_perm, elem_of_elements. intros Hn. apply Hin in Hn as (st & Hst). pose proof (Hserv n st Hst) as Hs'. destruct Hs' as (H1 & H2 & H3 & H4).
    split; [done|]. exists st. split; [done|]. split; [by split_and!|]. rewrite Hm by done. by rewrite Hst. }
  { by intros n v. }
  exists r5, r, s5. split; [exact Hr5|]. intros E5. apply map_eq. intros n. rewrite (Hok5 E5 n).
  destruct (decide (n ∈ in_order (elements l))) as [Hn|Hn]; [done|]. rewrite in_order_perm, elem_of_elements, Hin in Hn.
  rewrite lookup_empty. symmetry. by apply eq_None_not_Some.
Qed.

(** The node of the service itself, created when it is missing. *)
Lemma ensure_node_ok fuel zh path r s m :
  service_path zh path -> (depth path < fuel)%nat -> zk_tree s zh m ->
  exists ret s' m', (if r =? QCONF_ERR_ZOO_NOT_EXIST then zk_create fuel zh path [] else mret r) s = Some (ret, s') /\ zk_tree s' zh m' /\
    frame (child_in path []) (above_service path) m m' /\ (ret = QCONF_OK -> r = QCONF_OK \/ r = QCONF_ERR_ZOO_NOT_EXIST).
Proof using WLi.
  intros Hsp Hf Hs. destruct (Z.eqb_spec r QCONF_ERR_ZOO_NOT_EXIST) as [E|E].
  - destruct (zk_create_ok fuel zh path [] s m Hs (sp_nul _ _ Hsp)) as (ret & s1 & m1 & Hr & Hs1 & Hc & _); [by left|].
    exists ret, s1, m1. split; [done|]. split; [done|]. split; [|by auto]. eapply frame_mono; [| |by eapply (created_frame (child_in path []))]; [done|].
    intros q ?. by left.
  - exists r, s, m. split; [done|]. split; [done|]. split; [apply frame_refl|]. by auto.
Qed.

(** A computation that ends, touches [P] and [N] only, and establishes [R] when it succeeds. *)
Definition ends (zh : Z) (P N : bytes -> Prop) (m : gmap bytes bytes) (R : gmap bytes bytes -> Prop) (c : SM K Z) (s : K) : Prop :=
  exists ret s' m', c s = Some (ret, s') /\ zk_tree s' zh m' /\ frame P N m m' /\ (ret = QCONF_OK -> R m').

(** A step that must succeed before the rest runs. *)
Lemma ends_guard zh P N m R (err : Z -> Z) (c k : SM K Z) r s s1 m1 :
  c s = Some (r, s1) -> zk_tree s1 zh m1 -> frame P N m m1 -> (r <> QCONF_OK -> err r <> QCONF_OK) ->
  (r = QCONF_OK -> ends zh P N m1 R k s1) ->
  ends zh P N m R (ret ← c; if negb (ret =? QCONF_OK) then mret (err ret) else k) s.
Proof using.
  intros Hc Hs1 Hf He Hk. unfold ends. rewrite (SM_bind_Some _ _ _ _ _ Hc). destruct (Z.eqb_spec r QCONF_OK) as [E|E]; cbn [negb].
  - destruct (Hk E) as (ret & s' & m' & Hr & Hs' & Hf' & HR). exists ret, s', m'. split; [done|]. split; [done|]. split; [by eapply frame_trans|done].
  - exists (err r), s1, m1. split; [done|]. split; [done|]. split; [done|]. intros E'. by destruct (He E).
Qed.

(** The children of the service are the given ones. *)
Definition lists (path : bytes) (servs : gmap bytes Z) (m : gmap bytes bytes) : Prop :=
  forall n, n <> [] -> (x2f ∉ n) -> (x00 ∉ n) -> m !! (path ++ str "/" ++ n) = print_dec <$> servs !! n.

(** Adding the services and deleting the others makes the children the given ones. *)
Lemma replace_children_ok (fuel : nat) (zh : Z) (path : bytes) (servs : gmap bytes Z) (old : gset bytes) (s : K) (m : gmap bytes bytes) :
  service_path zh path -> map_Forall serv_ok servs -> (4 < fuel)%nat -> (S (depth path) < fuel)%nat -> zk_tree s zh m ->
  (forall n, n <> [] -> (x2f ∉ n) -> (x00 ∉ n) -> is_Some (m !! (path ++ str "/" ++ n)) -> n ∈ old) -> (forall n, n ∈ old -> x00 ∉ n) ->
  is_Some (m !! get_monitor_node path) ->
  ends zh (fun q => exists n, q = path ++ str "/" ++ n) (above_service path) m (fun m' => is_Some (m' !! get_monitor_node path) /\ lists path servs m')
    (ret ← add_loop fuel zh path (in_key_order servs);
     if negb (ret =? QCONF_OK) then mret ret else delete_loop zh path (in_order (elements (old ∖ dom servs)))) s.
Proof using WLi.
  intros Hsp Hserv Hf4 Hfd Hs Hold Hold0 Hmon.
  assert (Hkeys : (in_key_order servs).*1 = in_order (elements (dom servs))) by apply in_key_order_keys.
  destruct (add_loop_ok fuel zh path (in_key_order servs) s m Hsp) as (r1 & s1 & m1 & Hr1 & Hs1 & Hf1 & Hok1); [|rewrite Hkeys; apply in_order_nodup|done..|].
  { rewrite Forall_forall. intros [n st] Hin%in_key_order_elem. by apply Hserv. }
  assert (Hin : forall n, n ∈ (in_key_order servs).*1 <-> is_Some (servs !! n)).
  { intros n. by rewrite Hkeys, in_order_perm, elem_of_elements, elem_of_dom. }
  assert (Hmono : forall l M N N', frame (child_in path l) N M N' -> frame (fun q => exists n, q = path ++ str "/" ++ n) N M N').
  { intros l M N N'. apply frame_mono; [|done]. intros q (n & _ & ->). by exists n. }
  assert (Hmon1 : is_Some (m1 !! get_monitor_node path)).
  { destruct (Hf1 (get_monitor_node path)) as [->|[(n & _ & E)|(_ & E)]]; [done|by destruct (mon_not_child zh path n Hsp)|destruct Hmon; congruence]. }
  eapply (ends_guard _ _ _ _ _ (fun r => r)); [exact Hr1|exact Hs1|by eapply Hmono|done|]. intros E1.
  destruct (delete_loop_ok zh path (in_order (elements (old ∖ dom servs))) s1 m1 Hsp) as (r2 & s2 & m2 & Hr2 & Hs2 & Hf2 & Hsub & Hok2); [|done|].
  { rewrite Forall_forall. intros n. rewrite in_order_perm, elem_of_elements. intros [Hn _]%elem_of_difference. by apply Hold0. }
  exists r2, s2, m2. split; [done|]. split; [done|]. split; [eapply Hmono, frame_mono; [| |exact Hf2]; [done|by intros q []]|].
  intros E2. split.
  - destruct (Hf2 (get_monitor_node path)) as [->|[(n & _ & E)|([] & _)]]; [done|by destruct (mon_not_child zh path n Hsp)].
  - intros n Hne Hsl Hn0. destruct (servs !! n) as [st|] eqn:Est.
    + assert (Hnot : n ∉ in_order (elements (old ∖ dom servs))).
      { rewrite in_order_perm, elem_of_elements, elem_of_difference, elem_of_dom, Est. intros [_ Hnn]. apply Hnn. by eexists. }
      destruct (Hf2 (path ++ str "/" ++ n)) as [->|[(n' & Hn' & E)|([] & _)]].
      * apply Hok1; [done|]. by apply in_key_order_elem.
      * apply child_inj in E as <-. done.
    + cbn. destruct (m2 !! (path ++ str "/" ++ n)) as [w|] eqn:Ew; [|done]. pose proof (Hsub _ _ Ew) as Ew1.
      rewrite (frame_child zh path _ n m m1 Hsp Hf1) in Ew1 by (rewrite Hin, Est; by intros [? ?]).
      rewrite Hok2 in Ew; [done|done|]. rewrite in_order_perm, elem_of_elements, elem_of_difference, elem_of_dom, Est.
      split; [apply Hold; try done; by eexists|by intros [? ?]].
Qed.

(** C24. zk_services_set. Whatever happens, only the children of the service and the nodes that register it
    are touched. When it succeeds, the service is registered with the monitors and its children are exactly
    the given services, each with its status; the manager then reads exactly these back. *)
Theorem services_set_correct (fuel : nat) (zh : Z) (path : bytes) (servs : gmap bytes Z) (s : K) (m : gmap bytes bytes) :
  service_path zh path -> servs <> ∅ -> map_Forall serv_ok servs -> (4 < fuel)%nat -> (S (depth path) < fuel)%nat -> zk_tree s zh m ->
  exists ret s' m', zk_services_set fuel zh path servs s = Some (ret, s') /\ zk_tree s' zh m' /\
    frame (fun q => exists n, q = path ++ str "/" ++ n) (above_service path) m m' /\
    (ret = QCONF_OK ->
      is_Some (m' !! get_monitor_node path) /\ lists path servs m' /\
      exists ret2 r s2, zk_services_get_with_status zh path ∅ s' = Some ((ret2, r), s2) /\ (ret2 = QCONF_OK -> r = servs)).
Proof using WLi.
  intros Hsp Hne Hserv Hf4 Hfd Hs. set (P := fun q => exists n, q = path ++ str "/" ++ n).
  cut (ends zh P (above_service path) m (fun m' => is_Some (m' !! get_monitor_node path) /\ lists path servs m') (zk_services_set fuel zh path servs) s).
  { intros (ret & s' & m' & Hr & Hs' & Hf & Hok). exists ret, s', m'. split; [done|]. split; [done|]. split; [done|]. intros E.
    destruct (Hok E) as (Hmon & Hl). split; [done|]. split; [done|]. by apply (services_get_ok zh path servs s' m'). }
  unfold zk_services_set. rewrite (sp_checked _ _ Hsp), bool_decide_eq_false_2 by done.
  replace (forallb (fun kv => check_service kv.1 kv.2) (in_key_order servs)) with true.
  2:{ symmetry. apply forallb_forall. intros [n st] Hin%list_elem_of_In%in_key_order_elem. destruct (Hserv n st Hin) as (Hn & _ & _ & Hst).
      unfold check_service. cbn [fst snd]. rewrite decide_False by done. destruct Hst as [->|[->| ->]]; reflexivity. }
  cbn [negb orb]. destruct (monitor_create_ok P fuel zh path s m Hs Hf4) as (r1 & s1 & m1 & Hr1 & Hs1 & Hf1 & Hok1).
  eapply (ends_guard _ _ _ _ _ (fun _ => QCONF_ERR_ZOO_FAILED)); [exact Hr1|exact Hs1|eapply frame_mono; [| |exact Hf1]; [done|by right]|done|]. intros E1.
  destruct (zk_list_ok zh path ∅ s1 m1 (sp_checked _ _ Hsp) (sp_nul _ _ Hsp) Hs1) as (r2 & old & s2 & Hr2 & Hs2 & Hl2 & Hno2).
  unfold ends. rewrite (SM_bind_Some _ _ _ _ _ Hr2). cbv beta iota. fold (ends zh P (above_service path) m1).
  destruct (ensure_node_ok fuel zh path r2 s2 m1 Hsp) as (r3 & s3 & m3 & Hr3 & Hs3 & Hf3 & Hok3); [lia|done|].
  eapply (ends_guard _ _ _ _ _ (fun r => r)); [exact Hr3|exact Hs3|eapply frame_mono; [| |exact Hf3]; [|done]; by intros q (n & ? & ->); exists n|done|]. intros E3.
  assert (Hsame : forall n, m3 !! (path ++ str "/" ++ n) = m1 !! (path ++ str "/" ++ n)).
  { intros n. apply (frame_child zh path []); [done|done|apply not_elem_of_nil]. }
  apply replace_children_ok; try done.
  - intros n Hn Hsl Hn0. rewrite Hsame. intros Hsome. destruct (Hok3 E3) as [E2|E2]; [by apply (Hl2 E2)|].
    destruct (Hno2 E2) as (Hnone & _). destruct (zk_tree_closed s1 zh m1 path n Hs1) as [w Hw]; [by eapply service_path_ne|exact Hsome|congruence].
  - intros n Hn. destruct (Hok3 E3) as [E2|E2]; [by apply (Hl2 E2)|]. destruct (Hno2 E2) as (_ & ->). set_solver.
  - destruct (Hf3 (get_monitor_node path)) as [->|[(n & Hn & _)|(_ & Hnone)]]; [by apply Hok1|by apply elem_of_nil in Hn|destruct (Hok1 E1); congruence].
Qed.
End WithZk.
(** ** In the memory tree *)

Lemma node_set_get_witness :
  exists ret s' m', zk_node_set 5 1 (str "//a/b/") (str "v") (Tree ∅) = Some (ret, s') /\ zk_tree s' 1 m' /\
    (ret = QCONF_OK -> m' !! str "/a/b" = Some (str "v")).
Proof.
  destruct (node_set_get 5 1 (str "//a/b/") (str "a/b") (str "/a/b") (str "v") [] (Tree ∅) ∅) as (ret & s' & m' & Hrun & Hs & _ & Hok);
    [vm_compute; reflexivity..|apply (bool_decide_unpack _); vm_compute; exact Logic.I|vm_compute; lia|in_session|].
  exists ret, s', m'. split; [exact Hrun|]. split; [exact Hs|]. intros E. apply (Hok E).
Defined.

Lemma services_set_correct_witness :
  exists ret s' m', zk_services_set 6 1 (str "/s") {[ str "h:1" := STATUS_UP ]} (Tree ∅) = Some (ret, s') /\ zk_tree s' 1 m' /\
    (ret = QCONF_OK -> lists (str "/s") {[ str "h:1" := STATUS_UP ]} m').
Proof.
  destruct (services_set_correct 6 1 (str "/s") {[ str "h:1" := STATUS_UP ]} (Tree ∅) ∅) as (ret & s' & m' & Hrun & Hs & _ & Hok).
  - constructor; [vm_compute; reflexivity|apply (bool_decide_unpack _); vm_compute; exact Logic.I|].
    intros [E|(_ & n & E)]; [by vm_compute in E|]. by vm_compute in E.
  - done.
  - apply map_Forall_singleton. split; [done|]. split; [apply (bool_decide_unpack _); vm_compute; exact Logic.I|].
    split; [apply (bool_decide_unpack _); vm_compute; exact Logic.I|by left].
  - lia.
  - vm_compute. lia.
  - in_session.
  - exists ret, s', m'. split; [exact Hrun|]. split; [exact Hs|]. intros E. apply (Hok E).
Defined.
End ManagerThm.
