(* ===== verification/ManagerGray.v ===== *)
(** * Gray releases, from the operator to the agent

    [zk_gray_begin] publishes a list of nodes with new values for some machines, the agents of these
    machines pick it up ([qconf_gray.cc]), and [zk_gray_rollback] withdraws it. *)

From S2P Require Import Prelude Common Text Md5 Format FormatThm Config Zoo ZooWrite Gray Manager ManagerThm.

Module ManagerGray.
Import Format Zoo ZooWrite Gray Manager ManagerThm.

(** The three directories differ in their 24th character. *)
Lemma above_kind D q c : at_or_above D q -> q !! 23%nat = Some c -> D !! 23%nat = Some c.
Proof. intros [->|(_ & n & ->)]; [done|]. intros Hq. rewrite lookup_app_l; [done|]. by eapply lookup_lt_Some. Qed.

Lemma print_inj i j : 0 <= i < 2 ^ 32 -> 0 <= j < 2 ^ 32 -> print_dec i = print_dec j -> i = j.
Proof.
  intros Hi Hj E. assert (Hz : forall z, 0 <= z < 2 ^ 32 -> atoll (print_dec z ++ [x00]) = z) by (intros z Hz; apply (atoll_print z []); unfold LLONG_MIN, LLONG_MAX; lia).
  by rewrite <- (Hz i Hi), E, Hz.
Qed.

(** The pieces of the content. *)
Fixpoint cut (n : nat) (c : bytes) : list bytes :=
  match n with
  | O => []
  | S n' => take (Z.to_nat QCONF_GRAY_CONTENT_MAX_SIZE) c ::
      (if QCONF_GRAY_CONTENT_MAX_SIZE <? blen c then cut n' (drop (Z.to_nat QCONF_GRAY_CONTENT_MAX_SIZE) c) else [])
  end.

Lemma cut_step (c : bytes) : QCONF_GRAY_CONTENT_MAX_SIZE < blen c -> (length (drop (Z.to_nat QCONF_GRAY_CONTENT_MAX_SIZE) c) < length c)%nat.
Proof. intros Hc. rewrite length_drop. unfold blen, QCONF_GRAY_CONTENT_MAX_SIZE in *. lia. Qed.

Lemma concat_cut n (c : bytes) : (length c < n)%nat -> concat (cut n c) = c.
Proof.
  revert c. induction n as [|n IH]; intros c Hn; [lia|]. cbn [cut concat]. destruct (Z.ltb_spec QCONF_GRAY_CONTENT_MAX_SIZE (blen c)) as [Hc|Hc].
  - rewrite IH; [apply take_drop|]. pose proof (cut_step c Hc). lia.
  - cbn [concat]. rewrite app_nil_r. apply take_ge. unfold blen in Hc. lia.
Qed.

Lemma cut_fuel n k (c : bytes) : (length c < n)%nat -> (length c < k)%nat -> cut n c = cut k c.
Proof.
  revert k c. induction n as [|n IH]; intros [|k] c Hn Hk; try lia. cbn [cut]. f_equal. destruct (Z.ltb_spec QCONF_GRAY_CONTENT_MAX_SIZE (blen c)) as [Hc|Hc]; [|done].
  pose proof (cut_step c Hc). apply IH; lia.
Qed.

Lemma length_cut n (c : bytes) : (length (cut n c) <= n)%nat.
Proof. revert c. induction n as [|n IH]; intros c; [done|]. cbn [cut length]. case_test; cbn [length]; [specialize (IH (drop (Z.to_nat QCONF_GRAY_CONTENT_MAX_SIZE) c))|]; lia. Qed.

Section WithZk.
Context {K : Type} `{ZKi : !Zk K} `{WKi : !ZkWrite K} `{LKi : !ZkLaws K} `{WLi : !ZkWriteLaws K}.

(** ** Publishing *)

(** A gray id is one component of a path. *)
Definition name_ok (n : bytes) : Prop := (x2f ∉ n) /\ (x00 ∉ n).

Lemma dir_node dir n :
  dir = QCONF_NOTIFY_CONTENT_PREFIX \/ dir = QCONF_NOTIFY_CLIENT_PREFIX \/ dir = QCONF_NOTIFY_BACKLINK_PREFIX -> name_ok n ->
  (x00 ∉ dir ++ str "/" ++ n) /\ depth (dir ++ str "/" ++ n) = 4%nat /\ (forall q, at_or_above (dir ++ str "/" ++ n) q -> q = dir ++ str "/" ++ n \/ at_or_above dir q).
Proof using.
  intros Hd [Hs Hn]. split; [|split].
  - rewrite !not_elem_of_app. destruct Hd as [->|[->| ->]]; split_and!; try done; apply (bool_decide_unpack _); vm_compute; exact Logic.I.
  - rewrite child_depth by done. destruct Hd as [->|[->| ->]]; reflexivity.
  - intros q [->|Ha]; [by left|right]. by eapply child_ancestor.
Qed.

(** One node made by [zk_create]: only it and its ancestors may appear. *)
Lemma publish_node fuel zh dir n v s m :
  dir = QCONF_NOTIFY_CONTENT_PREFIX \/ dir = QCONF_NOTIFY_CLIENT_PREFIX \/ dir = QCONF_NOTIFY_BACKLINK_PREFIX -> name_ok n -> (4 < fuel)%nat ->
  zk_tree s zh m ->
  exists ret s' m', zk_create fuel zh (dir ++ str "/" ++ n) v s = Some (ret, s') /\ zk_tree s' zh m' /\
    frame (fun _ => False) (fun q => q = dir ++ str "/" ++ n \/ at_or_above dir q) m m' /\
    (ret = QCONF_OK -> m' !! (dir ++ str "/" ++ n) = Some v).
Proof using WLi.
  intros Hd Hn Hf Hs. destruct (dir_node dir n Hd Hn) as (H0 & Hdep & Hab).
  destruct (zk_create_ok fuel zh (dir ++ str "/" ++ n) v s m Hs H0) as (ret & s' & m' & Hr & Hs' & Hc & Hok & _); [left; lia|].
  exists ret, s', m'. split; [done|]. split; [done|]. split; [|intros E; by destruct (Hok E)].
  eapply frame_mono; [| |by eapply (created_frame (fun _ => False))]; [done|exact Hab].
Qed.

Lemma frame_grows N m m' q v : frame (fun _ => False) N m m' -> m !! q = Some v -> m' !! q = Some v.
Proof. intros Hf Hq. destruct (Hf q) as [->|[[]|(_ & Hn)]]; congruence. Qed.

Definition content_node (id : bytes) (i : Z) : bytes := content_path (QCONF_NOTIFY_CONTENT_PREFIX ++ str "/" ++ id) i.

Lemma content_name id i : name_ok id -> name_ok (id ++ str "_" ++ print_dec i).
Proof using.
  intros [Hs Hn]. assert (Hu : name_ok (str "_")) by (split; apply (bool_decide_unpack _); vm_compute; exact Logic.I). destruct Hu.
  split; rewrite !not_elem_of_app; (split; [done|split; [done|]]); [apply print_no_slash|apply print_no_nul].
Qed.

Lemma content_node_eq id i : content_node id i = QCONF_NOTIFY_CONTENT_PREFIX ++ str "/" ++ (id ++ str "_" ++ print_dec i).
Proof. unfold content_node, content_path. by rewrite <- !app_assoc. Qed.

(** The nodes of the pieces from number [k] on, and the directories above them. *)
Definition content_nodes (id : bytes) (k : Z) (len : nat) (q : bytes) : Prop :=
  (exists j, (j < len)%nat /\ q = content_node id (k + Z.of_nat j)) \/ at_or_above QCONF_NOTIFY_CONTENT_PREFIX q.

Lemma create_content_ok fuel n zh id (content : bytes) index k s m :
  name_ok id -> (4 < fuel)%nat -> blen content + QCONF_GRAY_CONTENT_MAX_SIZE < 2 ^ 32 -> 0 <= k -> index = k * QCONF_GRAY_CONTENT_MAX_SIZE ->
  index <= blen content -> (length (drop (Z.to_nat index) content) < n)%nat -> zk_tree s zh m ->
  ends zh (fun _ => False) (content_nodes id k (length (cut n (drop (Z.to_nat index) content)))) m
    (fun m' => forall j ch, cut n (drop (Z.to_nat index) content) !! j = Some ch -> m' !! content_node id (k + Z.of_nat j) = Some ch)
    (create_content fuel n zh (QCONF_NOTIFY_CONTENT_PREFIX ++ str "/" ++ id) content index k) s.
Proof using WLi.
  intros Hid Hf Hsz. revert index k s m. induction n as [|n IH]; intros index k s m Hk Hidx Hle Hn Hs; [lia|].
  assert (HM : QCONF_GRAY_CONTENT_MAX_SIZE = 102400) by done.
  cbn [create_content]. set (c := drop (Z.to_nat index) content) in *.
  assert (Hbc : blen c = blen content - index) by (unfold c, blen in *; rewrite length_drop; lia).
  destruct (publish_node fuel zh QCONF_NOTIFY_CONTENT_PREFIX (id ++ str "_" ++ print_dec k) (take (Z.to_nat QCONF_GRAY_CONTENT_MAX_SIZE) c) s m)
    as (r & s1 & m1 & Hr & Hs1 & Hf1 & Hok1); [by left|by apply content_name|done|done|]. rewrite <- content_node_eq in *.
  set (len := length (cut (S n) c)). assert (Hlen : (0 < len)%nat) by (unfold len; cbn; lia).
  assert (Hf1' : frame (fun _ => False) (content_nodes id k len) m m1).
  { eapply frame_mono; [| |exact Hf1]; [done|]. intros q [->|?]; [|by right]. left. exists 0%nat. split; [done|]. by rewrite Z.add_0_r. }
  unfold ends.
  replace ((QCONF_NOTIFY_CONTENT_PREFIX ++ str "/" ++ id) ++ str "_" ++ integer_to_string k) with (content_node id k) by done.
  rewrite (SM_bind_Some _ _ _ _ _ Hr). destruct (Z.eqb_spec r QCONF_OK) as [E|]; cbn [negb]; [|by exists QCONF_ERR_GRAY_SET_CONTENT, s1, m1].
  cbv zeta. rewrite u32_small by lia. destruct (Z.ltb_spec (index + QCONF_GRAY_CONTENT_MAX_SIZE) (blen content)) as [Hlt|Hge].
  - assert (Hdrop : drop (Z.to_nat (index + QCONF_GRAY_CONTENT_MAX_SIZE)) content = drop (Z.to_nat QCONF_GRAY_CONTENT_MAX_SIZE) c).
    { unfold c. rewrite drop_drop. f_equal. lia. }
    assert (Hcut : cut (S n) c = take (Z.to_nat QCONF_GRAY_CONTENT_MAX_SIZE) c :: cut n (drop (Z.to_nat QCONF_GRAY_CONTENT_MAX_SIZE) c)).
    { cbn [cut]. rewrite (proj2 (Z.ltb_lt _ _)) by lia. done. }
    rewrite (u32_small (k + 1)) by lia.
    destruct (IH (index + QCONF_GRAY_CONTENT_MAX_SIZE) (k + 1) s1 m1) as (ret & s2 & m2 & Hr2 & Hs2 & Hf2 & Hok2); [lia..| |done|].
    { rewrite Hdrop. pose proof (cut_step c ltac:(lia)). lia. }
    rewrite Hdrop in *. exists ret, s2, m2. split; [exact Hr2|]. split; [done|]. split.
    + eapply frame_trans; [exact Hf1'|]. eapply frame_mono; [| |exact Hf2]; [done|]. intros q [(j & Hj & ->)|?]; [|by right].
      left. exists (S j). split; [unfold len; rewrite Hcut; cbn [length]; lia|]. f_equal. lia.
    + intros E2 j ch. rewrite Hcut. destruct j as [|j]; cbn [lookup list_lookup].
      * intros [= <-]. rewrite Z.add_0_r. eapply frame_grows; [exact Hf2|]. by apply Hok1.
      * intros Hj. replace (k + Z.of_nat (S j)) with (k + 1 + Z.of_nat j) by lia. by apply Hok2.
  - eexists QCONF_OK, s1, m1. split; [reflexivity|]. split; [done|]. split; [done|]. intros _ j ch. cbn [cut]. rewrite (proj2 (Z.ltb_ge _ _)) by lia.
    destruct j as [|j]; cbn [lookup list_lookup]; [|by destruct j]. intros [= <-]. rewrite Z.add_0_r. by apply Hok1.
Qed.

Definition client_node (c : bytes) : bytes := QCONF_NOTIFY_CLIENT_PREFIX ++ str "/" ++ c.
Definition backlink_node (id : bytes) : bytes := QCONF_NOTIFY_BACKLINK_PREFIX ++ str "/" ++ id.
Definition backlink (clients : list bytes) : bytes := concat ((fun c => c ++ [QCONF_NOTIFY_BACKLINK_DELIM]) <$> clients).

Definition client_nodes (clients : list bytes) (q : bytes) : Prop :=
  (exists c, c ∈ clients /\ q = client_node c) \/ at_or_above QCONF_NOTIFY_CLIENT_PREFIX q.

Lemma create_clients_ok fuel zh clients id bl s m :
  Forall name_ok clients -> (4 < fuel)%nat -> zk_tree s zh m ->
  exists ret bl' s' m', create_clients fuel zh clients id bl s = Some ((ret, bl'), s') /\ zk_tree s' zh m' /\
    frame (fun _ => False) (client_nodes clients) m m' /\
    (ret = QCONF_OK -> bl' = bl ++ backlink clients /\ forall c, c ∈ clients -> m' !! client_node c = Some id).
Proof using WLi.
  intros Hall Hf. revert bl s m. induction clients as [|c clients IH]; intros bl s m Hs.
  - exists QCONF_OK, bl, s, m. split; [done|]. split; [done|]. split; [apply frame_refl|]. intros _. split; [by rewrite app_nil_r|]. by intros c ?%elem_of_nil.
  - apply Forall_cons in Hall as [Hc Hall]. cbn [create_clients].
    destruct (publish_node fuel zh QCONF_NOTIFY_CLIENT_PREFIX c id s m) as (r & s1 & m1 & Hr & Hs1 & Hf1 & Hok1); [by right; left|done..|].
    rewrite (SM_bind_Some _ _ _ _ _ Hr).
    assert (Hf1' : frame (fun _ => False) (client_nodes (c :: clients)) m m1).
    { eapply frame_mono; [| |exact Hf1]; [done|]. intros q [->|?]; [left; exists c; split; [by left|done]|by right]. }
    destruct (Z.eqb_spec r QCONF_OK) as [E|]; cbn [negb]; [|by exists QCONF_ERR_GRAY_SET_CLIENTS, bl, s1, m1].
    destruct (IH Hall (bl ++ c ++ [QCONF_NOTIFY_BACKLINK_DELIM]) s1 m1 Hs1) as (ret & bl' & s2 & m2 & Hr2 & Hs2 & Hf2 & Hok2).
    exists ret, bl', s2, m2. split; [exact Hr2|]. split; [done|]. split.
    + eapply frame_trans; [exact Hf1'|]. eapply frame_mono; [| |exact Hf2]; [done|]. intros q [(c' & ? & ->)|?]; [left; exists c'; split; [by right|done]|by right].
    + intros E2. destruct (Hok2 E2) as (-> & Hcl). split; [by rewrite <- app_assoc|]. intros c' Hin. apply elem_of_cons in Hin as [->|Hin]; [|by apply Hcl].
      eapply frame_grows; [exact Hf2|]. by apply Hok1.
Qed.

(** The nodes of a release, which a withdrawal deletes, and with the directories what publishing may create. *)
Definition release_nodes (id : bytes) (clients : list bytes) (q : bytes) : Prop :=
  (exists c, c ∈ clients /\ q = client_node c) \/ (exists j, q = content_node id j) \/ q = backlink_node id.
Definition publish_nodes (id : bytes) (clients : list bytes) (q : bytes) : Prop :=
  release_nodes id clients q \/ at_or_above QCONF_NOTIFY_CONTENT_PREFIX q \/ at_or_above QCONF_NOTIFY_CLIENT_PREFIX q \/
  at_or_above QCONF_NOTIFY_BACKLINK_PREFIX q.

(** A release as it stands in the tree. *)
Record published (m : gmap bytes bytes) (id : bytes) (clients : list bytes) (content : bytes) : Prop := {
  pub_content : content_at m (QCONF_NOTIFY_CONTENT_PREFIX ++ str "/" ++ id) 0 (cut (S (length content)) content);
  pub_clients c : c ∈ clients -> m !! client_node c = Some id;
  pub_backlink : m !! backlink_node id = Some (backlink clients)
}.

Lemma content_at_lookup (m : gmap bytes bytes) pfx i chs :
  (forall j ch, chs !! j = Some ch -> m !! content_path pfx (i + Z.of_nat j) = Some ch) ->
  m !! content_path pfx (i + Z.of_nat (length chs)) = None -> content_at m pfx i chs.
Proof.
  revert i. induction chs as [|ch chs IH]; intros i Hc Hn; cbn [content_at].
  - by rewrite Z.add_0_r in Hn.
  - split; [by rewrite <- (Hc 0%nat ch eq_refl), Z.add_0_r|]. apply IH.
    + intros j ch' Hj. replace (i + 1 + Z.of_nat j) with (i + Z.of_nat (S j)) by lia. by apply Hc.
    + cbn [length] in Hn. by replace (i + 1 + Z.of_nat (length chs)) with (i + Z.of_nat (S (length chs))) by lia.
Qed.

Lemma content_at_same (m m' : gmap bytes bytes) id i chs :
  (forall j, m' !! content_node id j = m !! content_node id j) ->
  content_at m (QCONF_NOTIFY_CONTENT_PREFIX ++ str "/" ++ id) i chs -> content_at m' (QCONF_NOTIFY_CONTENT_PREFIX ++ str "/" ++ id) i chs.
Proof.
  intros Hsame. revert i. induction chs as [|ch chs IH]; intros i; cbn [content_at]; fold (content_node id i); rewrite Hsame; [done|].
  intros [? ?]. split; [done|by apply IH].
Qed.

Lemma content_node_inj id i j : 0 <= i < 2 ^ 32 -> 0 <= j < 2 ^ 32 -> content_node id i = content_node id j -> i = j.
Proof. intros Hi Hj E. unfold content_node, content_path in E. do 2 apply app_inv_head in E. by apply print_inj. Qed.

Lemma content_kind id i : content_node id i !! 23%nat = Some x6f.
Proof. by rewrite content_node_eq. Qed.

(** The other directories keep a node of this one. *)
Lemma client_keeps clients M M' q c : frame (fun _ => False) (client_nodes clients) M M' -> q !! 23%nat = Some c -> c <> x6c -> M' !! q = M !! q.
Proof.
  intros Hf Hq Hc. destruct (Hf q) as [?|[[]|([(cl & _ & ->)|Ha] & _)]]; [done| |]; destruct Hc.
  - change (Some x6c = Some c) in Hq. congruence.
  - apply (above_kind _ _ _ Ha) in Hq. change (Some x6c = Some c) in Hq. congruence.
Qed.

Lemma backlink_keeps id M M' q c :
  frame (fun _ => False) (fun q => q = backlink_node id \/ at_or_above QCONF_NOTIFY_BACKLINK_PREFIX q) M M' -> q !! 23%nat = Some c -> c <> x61 -> M' !! q = M !! q.
Proof.
  intros Hf Hq Hc. destruct (Hf q) as [?|[[]|([->|Ha] & _)]]; [done| |]; destruct Hc.
  - change (Some x61 = Some c) in Hq. congruence.
  - apply (above_kind _ _ _ Ha) in Hq. change (Some x61 = Some c) in Hq. congruence.
Qed.

Lemma gray_publish_ok fuel n zh clients id (content gid : bytes) s m :
  name_ok id -> Forall name_ok clients -> (4 < fuel)%nat -> (length content < n)%nat -> blen content + QCONF_GRAY_CONTENT_MAX_SIZE < 2 ^ 32 ->
  (forall j, 0 <= j -> m !! content_node id j = None) -> zk_tree s zh m ->
  exists ret gid' s' m', gray_publish fuel n zh clients id content gid s = Some ((ret, gid'), s') /\ zk_tree s' zh m' /\
    frame (fun _ => False) (publish_nodes id clients) m m' /\ (ret = QCONF_OK -> gid' = id /\ published m' id clients content).
Proof using WLi.
  intros Hid Hcl Hf Hn Hsz Hfresh Hs. unfold gray_publish.
  destruct (create_content_ok fuel n zh id content 0 0 s m) as (r1 & s1 & m1 & Hr1 & Hs1 & Hf1 & Hok1); [done..|unfold blen; lia|by rewrite drop_0|done|].
  rewrite drop_0 in *. rewrite (SM_bind_Some _ _ _ _ _ Hr1).
  assert (Hg1 : frame (fun _ => False) (publish_nodes id clients) m m1).
  { eapply frame_mono; [| |exact Hf1]; [done|]. intros q [(j & _ & ->)|?]; [left; right; left; by eexists|by right; left]. }
  destruct (Z.eqb_spec r1 QCONF_OK) as [E1|]; cbn [negb]; [|by exists r1, gid, s1, m1].
  destruct (create_clients_ok fuel zh clients id [] s1 m1 Hcl Hf Hs1) as (r2 & bl & s2 & m2 & Hr2 & Hs2 & Hf2 & Hok2). rewrite (SM_bind_Some _ _ _ _ _ Hr2). cbv beta iota.
  assert (Hg2 : frame (fun _ => False) (publish_nodes id clients) m m2).
  { eapply frame_trans; [exact Hg1|]. eapply frame_mono; [| |exact Hf2]; [done|]. intros q [?|?]; [by left; left|by right; right; left]. }
  destruct (Z.eqb_spec r2 QCONF_OK) as [E2|]; cbn [negb]; [|by exists r2, gid, s2, m2]. destruct (Hok2 E2) as (-> & Hclients). rewrite app_nil_l.
  destruct (publish_node fuel zh QCONF_NOTIFY_BACKLINK_PREFIX id (backlink clients) s2 m2) as (r3 & s3 & m3 & Hr3 & Hs3 & Hf3 & Hok3); [by right; right|done..|].
  rewrite (SM_bind_Some _ _ _ _ _ Hr3).
  assert (Hg3 : frame (fun _ => False) (publish_nodes id clients) m m3).
  { eapply frame_trans; [exact Hg2|]. eapply frame_mono; [| |exact Hf3]; [done|]. intros q [->|?]; [by left; right; right|by do 3 right]. }
  destruct (Z.eqb_spec r3 QCONF_OK) as [E3|]; cbn [negb]; [|by exists QCONF_ERR_GRAY_SET_BACKLINK, gid, s3, m3].
  exists QCONF_OK, id, s3, m3. split; [done|]. split; [done|]. split; [done|]. intros _. split; [done|].
  assert (Hkeep : forall i, m3 !! content_node id i = m1 !! content_node id i).
  { intros i. rewrite (backlink_keeps _ _ _ _ _ Hf3 (content_kind id i)) by done. by rewrite (client_keeps _ _ _ _ _ Hf2 (content_kind id i)). }
  assert (Hcut : cut (S (length content)) content = cut n content) by (apply cut_fuel; lia). split.
  - rewrite Hcut. apply content_at_lookup.
    + intros j ch Hj. change (m3 !! content_node id (0 + Z.of_nat j) = Some ch). rewrite Hkeep. by apply (Hok1 E1).
    + change (m3 !! content_node id (0 + Z.of_nat (length (cut n content))) = None). rewrite Hkeep, Z.add_0_l. pose proof (length_cut n content) as Hlc.
      destruct (Hf1 (content_node id (Z.of_nat (length (cut n content))))) as [->|[[]|([(j & Hj & E)|Ha] & _)]]; [apply Hfresh; lia| |].
      * rewrite <- Hcut in Hj, E, Hlc. pose proof (length_cut (S (length content)) content). unfold blen, QCONF_GRAY_CONTENT_MAX_SIZE in Hsz.
        apply content_node_inj in E; lia.
      * rewrite content_node_eq in Ha. by apply child_not_self in Ha.
  - intros c Hc. rewrite (backlink_keeps _ _ _ _ x6c Hf3) by done. by apply Hclients.
  - by apply Hok3.
Qed.

(** ** Withdrawing *)

Lemma getline_items_piece d c rest item : (d ∉ c) -> getline_items d (c ++ d :: rest) item = (item ++ c) :: getline_items d rest [].
Proof.
  revert item. induction c as [|b c IH]; intros item Hd; cbn [app getline_items].
  - rewrite decide_True by done. by rewrite app_nil_r.
  - apply not_elem_of_cons in Hd as [Hb Hd]. rewrite decide_False by congruence. rewrite IH by done. by rewrite <- app_assoc.
Qed.

Lemma getline_items_backlink clients :
  Forall (fun c => QCONF_NOTIFY_BACKLINK_DELIM ∉ c) clients -> getline_items QCONF_NOTIFY_BACKLINK_DELIM (backlink clients) [] = clients.
Proof.
  induction clients as [|c clients IH]; [done|]. intros [Hc Hall]%Forall_cons. unfold backlink. cbn [fmap list_fmap concat].
  rewrite <- app_assoc. cbn [app]. rewrite getline_items_piece by done. cbn [app]. f_equal. by apply IH.
Qed.

Definition shrinks (m m' : gmap bytes bytes) : Prop := forall q w, m' !! q = Some w -> m !! q = Some w.

Lemma shrinks_none m m' q : shrinks m m' -> m !! q = None -> m' !! q = None.
Proof. intros Hs Hq. destruct (m' !! q) eqn:E; [|done]. apply Hs in E. congruence. Qed.

Lemma deleted_shrinks p m m' : m' = m \/ m' = delete p m -> shrinks m m'.
Proof. intros [->| ->] q w; [done|]. rewrite lookup_delete_Some. by intros [_ ?]. Qed.

Lemma deleted_frame (P : bytes -> Prop) p m m' : P p -> m' = m \/ m' = delete p m -> frame P (fun _ => False) m m'.
Proof. intros Hp [->| ->]; [apply frame_refl|by apply delete_frame]. Qed.

Lemma delete_clients_ok zh clients s m :
  Forall name_ok clients -> zk_tree s zh m ->
  exists ret s' m', delete_clients zh clients s = Some (ret, s') /\ zk_tree s' zh m' /\ shrinks m m' /\
    frame (fun q => exists c, c ∈ clients /\ q = client_node c) (fun _ => False) m m' /\
    (ret = QCONF_OK -> forall c, c ∈ clients -> m' !! client_node c = None).
Proof using WLi.
  intros Hall. revert s m. induction clients as [|c clients IH]; intros s m Hs.
  - exists QCONF_OK, s, m. split; [done|]. split; [done|]. split; [by intros q w|]. split; [apply frame_refl|]. by intros _ c ?%elem_of_nil.
  - apply Forall_cons in Hall as [Hc Hall]. cbn [delete_clients].
    destruct (zk_delete_ok zh (client_node c) s m Hs) as (r & s1 & m1 & Hr & Hs1 & Hm1 & Hok1); [apply dir_node; [by right; left|done]|].
    rewrite (SM_bind_Some _ _ _ _ _ Hr).
    assert (Hf1 : frame (fun q => exists c', c' ∈ c :: clients /\ q = client_node c') (fun _ => False) m m1).
    { eapply deleted_frame; [|exact Hm1]. exists c. split; [by left|done]. }
    pose proof (deleted_shrinks _ _ _ Hm1) as Hsh1.
    destruct (Z.eqb_spec r QCONF_OK) as [E|]; cbn [negb]; [|by exists QCONF_ERR_GRAY_DELETE_CLIENTS, s1, m1].
    destruct (IH Hall s1 m1 Hs1) as (ret & s2 & m2 & Hr2 & Hs2 & Hsh2 & Hf2 & Hok2). exists ret, s2, m2. split; [done|]. split; [done|].
    split; [intros q w Hw; by apply Hsh1, Hsh2|]. split.
    + eapply frame_trans; [exact Hf1|]. eapply frame_mono; [| |exact Hf2]; [|done]. intros q (c' & ? & ->). exists c'. split; [by right|done].
    + intros E2 c' Hin. apply elem_of_cons in Hin as [->|Hin]; [|by apply Hok2]. eapply shrinks_none; [exact Hsh2|]. rewrite (Hok1 E). apply lookup_delete_eq.
Qed.

(** The loop over the content nodes ends at the first one that is missing. *)
Lemma delete_content_ok n zh id chunks i s m :
  name_ok id -> content_at m (QCONF_NOTIFY_CONTENT_PREFIX ++ str "/" ++ id) i chunks -> (length chunks < n)%nat -> 0 <= i ->
  i + Z.of_nat (length chunks) < 2 ^ 32 -> zk_tree s zh m ->
  exists ret s' m', delete_content n zh (QCONF_NOTIFY_CONTENT_PREFIX ++ str "/" ++ id) i s = Some (ret, s') /\ zk_tree s' zh m' /\ shrinks m m' /\
    frame (fun q => exists j, q = content_node id j) (fun _ => False) m m' /\
    (ret = QCONF_ERR_ZOO_NOT_EXIST -> forall j, i <= j < i + Z.of_nat (length chunks) -> m' !! content_node id j = None).
Proof using WLi.
  intros Hid. revert chunks i s m. induction n as [|n IH]; intros chunks i s m Hc Hn Hi Hlen Hs; [lia|]. cbn [delete_content].
  change ((QCONF_NOTIFY_CONTENT_PREFIX ++ str "/" ++ id) ++ str "_" ++ integer_to_string i) with (content_node id i).
  destruct (zk_delete_exist_ok zh (content_node id i) s m Hs) as (r & s1 & m1 & Hr & Hs1 & Hm1 & Hsome & Hno).
  { rewrite content_node_eq. apply dir_node; [by left|by apply content_name]. }
  rewrite (SM_bind_Some _ _ _ _ _ Hr). pose proof (deleted_shrinks _ _ _ Hm1) as Hsh1.
  assert (Hf1 : frame (fun q => exists j, q = content_node id j) (fun _ => False) m m1) by (eapply deleted_frame; [|exact Hm1]; by exists i).
  destruct (Z.eqb_spec r QCONF_OK) as [E|E].
  - destruct chunks as [|ch chunks]; cbn [content_at] in Hc.
    { destruct (Hsome E) as [[w Hw] _]. change (m !! content_node id i = None) in Hc. congruence. }
    destruct Hc as (_ & Hc). cbn [length] in *. destruct (Hsome E) as (_ & Em1).
    assert (Hc1 : content_at m1 (QCONF_NOTIFY_CONTENT_PREFIX ++ str "/" ++ id) (i + 1) chunks).
    { rewrite Em1. clear - Hc Hi Hlen. assert (Hlow : i < i + 1) by lia. assert (Hup : i + 1 + Z.of_nat (length chunks) < 2 ^ 32) by lia.
      clear Hlen. revert Hc Hlow Hup. generalize (i + 1) as k. induction chunks as [|c chunks IHc]; intros k Hc Hlow Hup; cbn [content_at length] in *.
      - rewrite lookup_delete_ne; [done|]. intros Ei. change (content_node id i = content_node id k) in Ei. apply content_node_inj in Ei; lia.
      - destruct Hc as (Hc & Hrest). split.
        + rewrite lookup_delete_ne; [done|]. intros Ei. change (content_node id i = content_node id k) in Ei. apply content_node_inj in Ei; lia.
        + apply IHc; [done|lia..]. }
    destruct (IH chunks (i + 1) s1 m1 Hc1) as (ret & s2 & m2 & Hr2 & Hs2 & Hsh2 & Hf2 & Hok2); [lia..|done|].
    exists ret, s2, m2. split; [done|]. split; [done|]. split; [intros q w Hw; by apply Hsh1, Hsh2|]. split; [by eapply frame_trans|].
    intros E2 j Hj. destruct (decide (j = i)) as [->|Hne]; [|apply Hok2; [done|lia]]. eapply shrinks_none; [exact Hsh2|]. rewrite Em1. apply lookup_delete_eq.
  - exists r, s1, m1. split; [done|]. split; [done|]. split; [done|]. split; [done|]. intros Er j Hj.
    destruct chunks as [|ch chunks]; cbn [length] in Hj; [lia|]. destruct Hc as (Hc & _). change (m !! content_node id i = Some ch) in Hc.
    specialize (Hno Er). congruence.
Qed.

Lemma delete_notify_ok n zh id clients (content : bytes) s m :
  name_ok id -> Forall name_ok clients -> Forall (fun c => QCONF_NOTIFY_BACKLINK_DELIM ∉ c) clients ->
  published m id clients content -> (S (length content) < n)%nat -> blen content < 2 ^ 31 -> zk_tree s zh m ->
  ends zh (release_nodes id clients) (fun _ => False) m
    (fun m' => (forall c, c ∈ clients -> m' !! client_node c = None) /\ m' !! backlink_node id = None /\
       forall j, 0 <= j < Z.of_nat (length (cut (S (length content)) content)) -> m' !! content_node id j = None)
    (zk_gray_delete_notify n zh id) s.
Proof using WLi.
  intros Hid Hcl Hdl [Hcont Hclients Hback] Hn Hsz Hs. unfold zk_gray_delete_notify, ends.
  destruct (dir_node QCONF_NOTIFY_BACKLINK_PREFIX id) as (Hb0 & _); [by right; right|done|].
  destruct (zk_get_ok zh (backlink_node id) [] s m Hs Hb0) as (r & bl & s1 & Hr & Hs1 & Hok & _).
  rewrite (SM_bind_Some _ _ _ _ _ Hr). cbv beta iota.
  destruct (Z.eqb_spec r QCONF_OK) as [E|]; cbn [negb]; [|eexists _, s1, m; split; [reflexivity|]; split; [done|]; split; [apply frame_refl|done]].
  assert (bl = backlink clients) as -> by (specialize (Hok E); congruence). rewrite getline_items_backlink by done.
  fold (ends zh (release_nodes id clients) (fun _ => False) m).
  destruct (delete_clients_ok zh clients s1 m Hcl Hs1) as (r2 & s2 & m2 & Hr2 & Hs2 & Hsh2 & Hf2 & Hok2).
  eapply (ends_guard _ _ _ _ _ (fun r => r)); [exact Hr2|exact Hs2|eapply frame_mono; [| |exact Hf2]; [by left|done]|done|]. intros E2.
  assert (Hcont2 : content_at m2 (QCONF_NOTIFY_CONTENT_PREFIX ++ str "/" ++ id) 0 (cut (S (length content)) content)).
  { eapply content_at_same; [|exact Hcont]. intros j. destruct (Hf2 (content_node id j)) as [?|[(c & _ & Ec)|([] & _)]]; [done|].
    pose proof (content_kind id j) as Hk. rewrite Ec in Hk. done. }
  pose proof (length_cut (S (length content)) content) as Hlc.
  destruct (delete_content_ok n zh id _ 0 s2 m2 Hid Hcont2) as (r3 & s3 & m3 & Hr3 & Hs3 & Hsh3 & Hf3 & Hok3); [lia|done|unfold blen in Hsz; lia|done|].
  unfold ends. rewrite (SM_bind_Some _ _ _ _ _ Hr3).
  assert (Hf3' : frame (release_nodes id clients) (fun _ => False) m2 m3) by (eapply frame_mono; [| |exact Hf3]; [by right; left|done]).
  destruct (Z.eqb_spec r3 QCONF_ERR_ZOO_NOT_EXIST) as [E3|]; cbn [negb]; [|by eexists _, s3, m3].
  destruct (zk_delete_ok zh (backlink_node id) s3 m3 Hs3 Hb0) as (r4 & s4 & m4 & Hr4 & Hs4 & Hm4 & Hok4). rewrite (SM_bind_Some _ _ _ _ _ Hr4).
  pose proof (deleted_shrinks _ _ _ Hm4) as Hsh4. eexists _, s4, m4. split; [reflexivity|]. split; [done|]. split.
  { eapply frame_trans; [exact Hf3'|]. eapply deleted_frame; [|exact Hm4]. by right; right. }
  intros E4. destruct (Z.eqb_spec r4 QCONF_OK) as [E4'|]; [|done]. split; [|split].
  - intros c Hc. eapply shrinks_none; [exact Hsh4|]. eapply shrinks_none; [exact Hsh3|]. by apply Hok2.
  - rewrite (Hok4 E4'). apply lookup_delete_eq.
  - intros j Hj. eapply shrinks_none; [exact Hsh4|]. apply (Hok3 E3). lia.
Qed.

(** ** Claims *)

(** Different paths have different keys. *)
Lemma entry_keys_nodup idc es : NoDup (ge_path <$> es) -> NoDup (entry_node idc <$> es).*1.
Proof using.
  intros Hnd. assert (Hinj : Inj (=) (=) (fun p => (serialize_to_tblkey QCONF_DATA_TYPE_NODE idc p).2)).
  { intros p q. unfold serialize_to_tblkey. change (has_path QCONF_DATA_TYPE_NODE) with true. cbn [snd]. unfold qconf_append_path.
    rewrite !append_field. unfold field. intros E%app_inv_head. eapply app_inj_1 in E as [_ E]; [done|]. by rewrite !length_le_bytes. }
  assert (E : (entry_node idc <$> es).*1 = (fun p => (serialize_to_tblkey QCONF_DATA_TYPE_NODE idc p).2) <$> (ge_path <$> es)) by by rewrite <- !list_fmap_compose.
  rewrite E. by apply NoDup_fmap.
Qed.

Lemma client_node_ok c : name_ok c -> client_node c <> [] /\ (x00 ∉ client_node c).
Proof using. intros Hc. destruct (dir_node QCONF_NOTIFY_CLIENT_PREFIX c) as (H0 & _); [by right; left|done|]. done. Qed.

(** C23. A gray release, from the operator to the agents. The content is any byte string that the agent's
    reader takes for a list of entries (theorem gray_begin_overruns shows that the code's own serializer does
    not get as far as making one). Publishing it always returns; it creates nothing but the nodes of the release
    and the directories above them, and changes no node that was there. When it succeeded, then in each agent
    of a named machine, whatever it overrode before, a run of the gray process returns, and if it succeeds
    it returns exactly the table key and the value of each entry, for its own data centre, and what it
    overrides now is exactly what it overrode before, with its value, and these keys with these values; if it
    fails, it overrides what it did before. Where two entries are for one path, the first one that the reader
    meets is taken. *)
Theorem gray_release_reaches_agents fuel n zh clients id (content : bytes) es (gid : bytes) s m :
  name_ok id -> id <> [] -> Forall name_ok clients -> Forall entry_ok es -> NoDup (entry_bytes <$> es) ->
  tblval_to_graynodeval content = (QCONF_OK, list_to_set (entry_bytes <$> es)) ->
  (4 < fuel)%nat -> (length content < n)%nat -> blen content + QCONF_GRAY_CONTENT_MAX_SIZE < 2 ^ 32 ->
  (forall j, 0 <= j -> m !! content_node id j = None) -> zk_tree s zh m ->
  exists ret gid' s' m', gray_publish fuel n zh clients id content gid s = Some ((ret, gid'), s') /\ zk_tree s' zh m' /\
    frame (fun _ => False) (publish_nodes id clients) m m' /\
    (ret = QCONF_OK -> gid' = id /\
      forall c buf_ok hostname agent_fuel zh2 idc g k,
        c ∈ clients -> notify_node g = client_node c -> zk_tree k zh2 m' -> zh2 <> 0 -> idc <> [] -> (S (length content) < agent_fuel)%nat ->
        exists ret2 nodes g' k', gray_process buf_ok hostname agent_fuel zh2 idc [] (g, k) = Some ((ret2, nodes), (g', k')) /\ zk_tree k' zh2 m' /\
          (ret2 = QCONF_OK -> nodes ≡ₚ entry_node idc <$> es /\
             g' = mkGray (client_node c) (gray_nodes g ∪ list_to_map nodes) /\
             (NoDup (ge_path <$> es) -> g' = mkGray (client_node c) (gray_nodes g ∪ list_to_map (entry_node idc <$> es)))) /\
          (ret2 <> QCONF_OK -> g' = g)).
Proof using WLi.
  intros Hid Hidn Hcl Hes Hnd Hcontent Hf Hn Hsz Hfresh Hs.
  destruct (gray_publish_ok fuel n zh clients id content gid s m Hid Hcl Hf Hn Hsz Hfresh Hs) as (ret & gid' & s' & m' & Hr & Hs' & Hgr & Hok).
  exists ret, gid', s', m'. split; [done|]. split; [done|]. split; [done|]. intros E. destruct (Hok E) as (-> & [Hcont Hclients Hback]). split; [done|].
  intros c buf_ok hostname agent_fuel zh2 idc g k Hc Hg Hk Hz Hi Hfu. pose proof (proj1 (Forall_forall _ _) Hcl c Hc) as Hnc.
  destruct (client_node_ok c Hnc) as (Hne & Hn0).
  destruct (gray_applies buf_ok hostname agent_fuel zh2 idc g k m' Hk Hz Hi) with (notify_id := id) (chunks := cut (S (length content)) content) (es := es)
    as (ret2 & nodes & g' & k' & Hr2 & Hk2 & Hok2 & Hno2); try done.
  - by rewrite Hg.
  - by rewrite Hg.
  - rewrite Hg. by apply Hclients.
  - by destruct Hid.
  - by rewrite concat_cut by lia.
  - pose proof (length_cut (S (length content)) content). lia.
  - exists ret2, nodes, g', k'. do 2 (split; [done|]). split; [|done]. intros E2. destruct (Hok2 E2) as (Hp & ->). rewrite Hg. split; [done|]. split; [done|].
    intros Hpaths. do 2 f_equal. apply list_to_map_proper; [|done]. rewrite Hp. by apply entry_keys_nodup.
Qed.

(** C25. Withdrawing a release. While a release stands in the tree, zk_gray_rollback ends and deletes at most
    the nodes of this release. When it succeeded, the notify nodes of all machines of the release, its
    content and its list of machines are gone; and the gray process of each of these machines, when it
    succeeds next, gives back every key it overrode, so that it is fetched from ZooKeeper again, and
    overrides nothing any more. *)
Theorem gray_rollback_withdraws n zh clients id (content : bytes) s m :
  name_ok id -> Forall name_ok clients -> Forall (fun c => QCONF_NOTIFY_BACKLINK_DELIM ∉ c) clients ->
  published m id clients content -> (S (length content) < n)%nat -> blen content < 2 ^ 31 -> zk_tree s zh m ->
  exists ret s' m', zk_gray_rollback n zh id s = Some (ret, s') /\ zk_tree s' zh m' /\
    frame (release_nodes id clients) (fun _ => False) m m' /\
    (ret = QCONF_OK ->
      m' !! backlink_node id = None /\
      (forall j, 0 <= j < Z.of_nat (length (cut (S (length content)) content)) -> m' !! content_node id j = None) /\
      forall c, c ∈ clients -> m' !! client_node c = None /\
        forall buf_ok hostname agent_fuel zh2 idc g k,
          notify_node g = client_node c -> zk_tree k zh2 m' -> zh2 <> 0 -> idc <> [] ->
          exists ret2 nodes g' k', gray_process buf_ok hostname agent_fuel zh2 idc [] (g, k) = Some ((ret2, nodes), (g', k')) /\ zk_tree k' zh2 m' /\
            (ret2 = QCONF_OK -> gray_nodes g' = ∅ /\ forall key v, (key, v) ∈ nodes <-> gray_nodes g !! key = Some v) /\
            (ret2 <> QCONF_OK -> gray_nodes g' = gray_nodes g)).
Proof using WLi.
  intros Hid Hcl Hdl Hpub Hn Hsz Hs.
  destruct (delete_notify_ok n zh id clients content s m Hid Hcl Hdl Hpub Hn Hsz Hs) as (ret & s' & m' & Hr & Hs' & Hfr & Hok).
  exists ret, s', m'. split; [done|]. split; [done|]. split; [done|]. intros E. destruct (Hok E) as (Hgone & Hb & Hcont). split; [done|]. split; [done|].
  intros c Hc. split; [by apply Hgone|]. intros buf_ok hostname agent_fuel zh2 idc g k Hg Hk Hz Hi.
  destruct (client_node_ok c (proj1 (Forall_forall _ _) Hcl c Hc)) as (Hne & Hn0).
  apply (gray_withdraws buf_ok hostname agent_fuel zh2 idc g k m' Hk Hz Hi); rewrite Hg; [done..|]. by apply Hgone.
Qed.

(** *** Starting a release *)

Lemma zk_path_nul raw : (x00 ∉ raw) -> x00 ∉ (path_normalize raw).2.
Proof using.
  intros Hn. destruct (run_forms x2f raw) as [(k & ->)|(a & core & b & Hc & ->)].
  - rewrite path_normalize_slashes. cbn. by rewrite list_elem_of_singleton.
  - rewrite path_normalize_core by done. cbn. rewrite !not_elem_of_app in Hn. rewrite not_elem_of_cons. by split; [|apply Hn].
Qed.

Lemma check_nodes_ok (zh : Z) (l : list (bytes * bytes)) (acc : gmap bytes bytes) (s : K) (m : gmap bytes bytes) :
  zk_tree s zh m -> Forall (fun kv => x00 ∉ kv.1) l ->
  exists ret nodes s', check_nodes_loop zh l acc s = Some ((ret, nodes), s') /\ zk_tree s' zh m /\
    (ret = QCONF_OK -> (forall k v, acc !! k = Some v -> nodes !! k = Some v) /\
       Forall (fun kv => is_Some (nodes !! (path_normalize kv.1).2) /\ is_Some (m !! (path_normalize kv.1).2) /\ blen kv.2 <= QCONF_MAX_VALUE_SIZE - 100) l).
Proof using WLi.
  intros Hs Hall. revert acc s Hs. induction l as [|[raw v] l IH]; intros acc s Hs; cbn [check_nodes_loop].
  - exists QCONF_OK, acc, s. split; [done|]. split; [done|]. by split.
  - apply Forall_cons in Hall as [Hraw Hall]. cbn [fst snd] in *. pose proof (zk_path_nul raw Hraw) as Hz.
    destruct (path_normalize raw) as [r zpath] eqn:Ep. cbn [snd] in Hz.
    destruct (Z.eqb_spec r QCONF_OK); cbn [negb]; [|by eexists QCONF_ERR_OTHER, ∅, s].
    destruct (zk_exist_ok zh zpath s m Hs Hz) as (r2 & b & s1 & Hr2 & Hs1 & Hex & _). rewrite (SM_bind_Some _ _ _ _ _ Hr2). cbv beta iota.
    destruct (Z.eqb_spec r2 QCONF_OK) as [E2|]; cbn [negb orb]; [|by eexists QCONF_ERR_OTHER, ∅, s1].
    destruct b; cbn [negb orb]; [|by eexists QCONF_ERR_OTHER, ∅, s1].
    destruct (Z.ltb_spec (QCONF_MAX_VALUE_SIZE - 100) (blen v)); [by eexists QCONF_ERR_OTHER, ∅, s1|].
    destruct (IH Hall (insert_new zpath v acc) s1 Hs1) as (ret & nodes & s2 & Hr & Hs2 & Hok). exists ret, nodes, s2. split; [done|]. split; [done|].
    intros E. destruct (Hok E) as (Hkeep & Hf).
    assert (Hins : (forall k w, acc !! k = Some w -> insert_new zpath v acc !! k = Some w) /\ is_Some (insert_new zpath v acc !! zpath)).
    { unfold insert_new. destruct (acc !! zpath) eqn:Ea; [by split; [|eexists]|]. rewrite lookup_insert_eq. split; [|by eexists].
      intros k w Hk. by rewrite lookup_insert_ne by congruence. }
    destruct Hins as [Hold [w Hw]]. split; [by auto|]. constructor; [|done]. cbn [fst snd]. rewrite Ep. cbn [snd].
    split; [exists w; by apply Hkeep|]. split; [by apply Hex|lia].
Qed.

Lemma check_clients_ok (zh : Z) (clients : list bytes) (s : K) (m : gmap bytes bytes) :
  zk_tree s zh m -> Forall name_ok clients ->
  exists ret s', check_clients_loop zh clients s = Some (ret, s') /\ zk_tree s' zh m /\
    (ret = QCONF_OK -> Forall (fun c => m !! client_node c = None) clients).
Proof using WLi.
  intros Hs Hall. revert s Hs. induction Hall as [|c clients Hc Hall IH]; intros s Hs; cbn [check_clients_loop]; [by exists QCONF_OK, s|].
  destruct (client_node_ok c Hc) as (_ & H0).
  destruct (zk_exist_ok zh (client_node c) s m Hs H0) as (r & b & s1 & Hr & Hs1 & Hex & _). rewrite (SM_bind_Some _ _ _ _ _ Hr). cbv beta iota.
  destruct (Z.eqb_spec r QCONF_OK) as [E|]; cbn [negb orb]; [|by exists QCONF_ERR_OTHER, s1].
  destruct b; [by exists QCONF_ERR_OTHER, s1|]. destruct (IH s1 Hs1) as (ret & s2 & Hr2 & Hs2 & Hok). exists ret, s2. split; [done|]. split; [done|].
  intros E2. constructor; [|by apply Hok]. apply eq_None_not_Some. by intros ?%(Hex E).
Qed.

(** C26. No release can be started as the code stands. zk_gray_begin looks at the request without writing
    anything: it refuses it, and leaves the tree as it was, or the request is in order, every node exists,
    no value is too long and no machine is in another release, and then the list is serialized, which copies
    a length of four bytes into a buffer of two and so has no defined result. *)
Theorem gray_begin_overruns (fuel n : nat) (zh : Z) (raw_nodes : gmap bytes bytes) (clients : list bytes) (tv_sec tv_usec : Z) (gid : bytes) (s : K) (m : gmap bytes bytes) :
  zk_tree s zh m -> map_Forall (fun raw _ => x00 ∉ raw) raw_nodes -> Forall name_ok clients ->
  (exists s', zk_gray_begin fuel n zh raw_nodes clients tv_sec tv_usec gid s = Some ((QCONF_ERR_PARAM, gid), s') /\ zk_tree s' zh m) \/
  (zk_gray_begin fuel n zh raw_nodes clients tv_sec tv_usec gid s = None /\ clients <> [] /\ raw_nodes <> ∅ /\
    Forall (fun c => m !! client_node c = None) clients /\
    map_Forall (fun raw v => is_Some (m !! (path_normalize raw).2) /\ blen v <= QCONF_MAX_VALUE_SIZE - 100) raw_nodes).
Proof using WLi.
  intros Hs Hraw Hcl. unfold zk_gray_begin, zk_gray_check_nodes. destruct (decide (raw_nodes = ∅)) as [->|Hne].
  { left. exists s. rewrite bool_decide_eq_true_2 by done. by split. }
  rewrite bool_decide_eq_false_2 by done.
  destruct (check_nodes_ok zh (in_key_order raw_nodes) ∅ s m Hs) as (r1 & nodes & s1 & Hr1 & Hs1 & Hok1).
  { apply Forall_forall. intros [raw v] Hin%in_key_order_elem. by apply (Hraw raw v). }
  rewrite (SM_bind_Some _ _ _ _ _ Hr1). cbv beta iota. destruct (Z.eqb_spec r1 QCONF_OK) as [E1|]; cbn [negb]; [|left; by exists s1].
  destruct (Hok1 E1) as (_ & Hnodes). unfold zk_gray_check_chients. destruct (decide (clients = [])) as [->|Hcne]; [left; by exists s1|].
  destruct (check_clients_ok zh clients s1 m Hs1 Hcl) as (r2 & s2 & Hr2 & Hs2 & Hok2). rewrite (SM_bind_Some _ _ _ _ _ Hr2).
  destruct (Z.eqb_spec r2 QCONF_OK) as [E2|]; cbn [negb]; [|left; by exists s2]. right. rewrite Forall_forall in Hnodes. split; [|split_and!].
  - unfold gray_serialize_content. rewrite bool_decide_eq_false_2.
    2:{ intros ->. apply map_choose in Hne as (raw & v & Hv). destruct (Hnodes (raw, v)) as ([w Hw] & _); [by apply in_key_order_elem|done]. }
    rewrite (proj2 (gray_overrun _)); [done|]. apply map_choose in Hne as (raw & v & Hv).
    destruct (Hnodes (raw, v)) as ([w Hw] & _); [by apply in_key_order_elem|]. cbn [fst] in Hw. apply in_key_order_elem in Hw.
    intros E0. assert (Hin : nodeval_to_tblval (serialize_to_tblkey QCONF_DATA_TYPE_NODE (str "idc") (path_normalize raw).2).2 w ∈ []); [|by apply elem_of_nil in Hin].
    rewrite <- E0, in_order_perm, elem_of_elements, elem_of_list_to_set, list_elem_of_fmap. by eexists (_, w).
  - done.
  - done.
  - by apply Hok2.
  - intros raw v Hv. destruct (Hnodes (raw, v)) as (_ & ? & ?); [by apply in_key_order_elem|done].
Qed.
End WithZk.

(** ** In the memory tree *)

Definition demo_release : list gray_entry := [GE (str "idc") (str "/a") (str "new")].

Ltac computed := apply (bool_decide_unpack _); vm_compute; exact Logic.I.

Lemma name_ok_demo (n : bytes) : bool_decide (x2f ∉ n) && bool_decide (x00 ∉ n) = true -> name_ok n.
Proof. rewrite andb_true_iff, !bool_decide_eq_true. done. Qed.

Lemma gray_release_reaches_agents_witness :
  exists s' m' g' nodes k',
    gray_publish 5 100 1 [str "h"] (str "7") (gray_content demo_release) [] (Tree ∅) = Some ((QCONF_OK, str "7"), s') /\ zk_tree s' 1 m' /\
    gray_process true [] 100 1 (str "bj") [] (mkGray (client_node (str "h")) ∅, s') = Some ((QCONF_OK, nodes), (g', k')) /\
    gray_nodes g' = {[ (entry_node (str "bj") (GE (str "idc") (str "/a") (str "new"))).1 := (entry_node (str "bj") (GE (str "idc") (str "/a") (str "new"))).2 ]}.
Proof.
  destruct (gray_release_reaches_agents 5 100 1 [str "h"] (str "7") (gray_content demo_release) demo_release [] (Tree ∅) ∅) as (ret & gid & s' & m' & Hr & Hs & _ & Hok).
  - by apply name_ok_demo.
  - done.
  - repeat constructor; by apply name_ok_demo.
  - repeat constructor.
  - apply NoDup_singleton.
  - apply gray_content_read; [repeat constructor|reflexivity].
  - lia.
  - vm_compute. lia.
  - vm_compute. reflexivity.
  - intros j _. done.
  - in_session.
  - assert (Hret : option_map (fun r => r.1.1) (gray_publish 5 100 1 [str "h"] (str "7") (gray_content demo_release) [] (Tree ∅)) = Some QCONF_OK)
      by (vm_compute; reflexivity).
    rewrite Hr in Hret. injection Hret as ->. destruct (Hok eq_refl) as (-> & Hag).
    destruct (Hag (str "h") true [] 100%nat 1 (str "bj") (mkGray (client_node (str "h")) ∅) s') as (ret2 & nodes & g' & k' & Hr2 & _ & Hok2 & _);
      [by left|done|exact Hs|done|done|vm_compute; lia|].
    assert (Hret : option_map (fun r => r.1.1) (match gray_publish 5 100 1 [str "h"] (str "7") (gray_content demo_release) [] (Tree ∅) with
      Some (_, t) => gray_process true [] 100 1 (str "bj") [] (mkGray (client_node (str "h")) ∅, t) | None => None end) = Some QCONF_OK)
      by (vm_compute; reflexivity).
    rewrite Hr, Hr2 in Hret. injection Hret as ->. destruct (Hok2 eq_refl) as (_ & _ & Hg).
    exists s', m', g', nodes, k'. split; [exact Hr|]. split; [exact Hs|]. split; [exact Hr2|].
    rewrite (Hg (NoDup_singleton (str "/a"))). vm_compute. reflexivity.
Defined.

Definition demo_standing : gmap bytes bytes :=
  {[ str "/qconf" := []; str "/qconf/__qconf_notify" := []; QCONF_NOTIFY_CLIENT_PREFIX := []; QCONF_NOTIFY_CONTENT_PREFIX := [];
     QCONF_NOTIFY_BACKLINK_PREFIX := []; client_node (str "h") := str "7"; content_node (str "7") 0 := str "c"; backlink_node (str "7") := str "h;" ]}.

Lemma gray_rollback_withdraws_witness :
  exists ret s' m', zk_gray_rollback 10 1 (str "7") (Tree demo_standing) = Some (ret, s') /\ zk_tree s' 1 m' /\
    (ret = QCONF_OK -> m' !! client_node (str "h") = None).
Proof.
  destruct (gray_rollback_withdraws 10 1 [str "h"] (str "7") (str "c") (Tree demo_standing) demo_standing) as (ret & s' & m' & Hr & Hs & _ & Hok).
  - by apply name_ok_demo.
  - repeat constructor; by apply name_ok_demo.
  - repeat constructor. computed.
  - split; [vm_compute; by split|intros c ->%list_elem_of_singleton; reflexivity|reflexivity].
  - vm_compute. lia.
  - reflexivity.
  - in_session.
  - exists ret, s', m'. split; [exact Hr|]. split; [exact Hs|]. intros E. destruct (Hok E) as (_ & _ & Hc). apply Hc. by left.
Defined.

Lemma gray_begin_overruns_witness :
  zk_gray_begin 5 10 1 {[ str "/a" := str "new" ]} [str "h"] 1 2 [] (Tree {[ str "/a" := str "old" ]}) = None /\
  exists s', zk_gray_begin 5 10 1 {[ str "/b" := str "new" ]} [str "h"] 1 2 [] (Tree {[ str "/a" := str "old" ]}) = Some ((QCONF_ERR_PARAM, []), s').
Proof.
  assert (Hc : Forall name_ok [str "h"]) by (repeat constructor; by apply name_ok_demo). split.
  - destruct (gray_begin_overruns 5 10 1 {[ str "/a" := str "new" ]} [str "h"] 1 2 [] (Tree {[ str "/a" := str "old" ]}) {[ str "/a" := str "old" ]})
      as [(s' & E & _)|(E & _)]; [in_session|computed|exact Hc|by vm_compute in E|exact E].
  - destruct (gray_begin_overruns 5 10 1 {[ str "/b" := str "new" ]} [str "h"] 1 2 [] (Tree {[ str "/a" := str "old" ]}) {[ str "/a" := str "old" ]})
      as [(s' & E & _)|(E & _)]; [in_session|computed|exact Hc|by exists s'|by vm_compute in E].
Defined.
End ManagerGray.
